(* ===== verification/_CoqProject ===== *)
-Q . S2P
Prelude.v
Rust.v
Format.v
Mp4Box.v
SampleTable.v
Fmp4.v
Mp4Data.v
Mp4Moov.v
Mp4Moof.v
Mp4Cursor.v
Mp4Codec.v
Mp4Parse.v
Mp4Segments.v
Mp4Delivery.v
Float.v
Geo.v
Hash.v
StreamTree.v
StreamTreeProps.v
StreamTreePaths.v
Topology.v
Peers.v
Mesh.v
Moderation.v
JsonTree.v
Segment.v
PubSub.v
WebLimits.v
Signaling.v
ClientFrames.v
StreamDiscovery.v
Playback.v
PlaybackRuns.v
Feed.v
Relay.v
DataMessages.v
RelayNode.v
RelayProps.v
RelayLocks.v
Overlay.v
OverlayProps.v
Discovery.v
Locations.v
DiscoveryManager.v
DiscoveryProps.v
MediaFragments.v
MediaBuffers.v
Bridge.v
BridgeProps.v
Network.v
PubSubMetrics.v
GossipMessages.v
OverlayMetrics.v
Codec.v
MediaPipeline.v
VideoReader.v
BootstrapServer.v
Visualization.v
WebApi.v
Program.v
StreamingDemo.v
BrowserOverlay.v
BrowserPage.v
EsdsCheck.v
