(* ===== verification/Prelude.v ===== *)
(** * OpenBroadcastNetwork: verification development

    OpenBroadcastNetwork publishes live and recorded video over a peer-to-peer
    overlay. The core crate ([src/core/src/]) turns files into segments a browser
    plays through Media Source Extensions, finds peers and streams, arranges the
    peers of a stream, relays its segments and moderates who takes part. The node
    ([src/node/src/]) is the program around it: commands, a web server that plays
    to viewers and is administered over HTTP, and a bootstrap server. A page in a
    browser ([src/ui/src/], [core/src/overlay/wasm/]) joins through a node. This
    library models these from the source files named below, path by path, and
    proves what makes them correct and where they are not.

    A file goes this way: [Mp4Parse] reads it, [Mp4Segments] cuts it, [Segment]
    numbers the segments and encodes them, [Playback] (or the publisher of
    [Bridge]) publishes them to the overlay and shows them to viewers, [Overlay]
    receives them at another node and hands them to its relay ([RelayNode]) and to
    the loops of [Playback] and of the bridge there, and [ClientFrames] and
    [BrowserOverlay] are how they get into a browser.

    ** Map of the library

    Foundations:
    - [Prelude]: this file; automation, lists indexed by machine integers, sorting,
      the ends of lists, lists merged from two.
    - [Rust]: the run-time layer. [exec] is a run that ends, panics or is cut
      off by the fuel of the model; [result] is [Result]; the checked integer
      operations, slices, big-endian encodings, UTF-8 conversion,
      [std::io::Cursor] and the loop combinators.
    - [Format]: text; prefixes, numbers in decimal and hexadecimal.
    - [JsonTree]: values of JSON, and reading fields as the program's types do.
    - [Float]: [f32] and [f64] as IEEE 754 formats, computed by the Standard
      Library's executable specification.
    - [Hash]: [HashMap] and [HashSet] as finite maps and sets.

    Files, [core/src/media/mp4_parser.rs] and [fmp4_converter.rs]:
    - [Mp4Box]: the box format, and the walk over sibling boxes that the
      rewriting functions share; a reference box parser.
    - [SampleTable]: the parsers of the seven sample-table boxes and
      [resolve_sample_offsets]; the layout of samples as a specification.
    - [Fmp4]: [FragmentedMp4Converter]; a reference demultiplexer.
    - [Mp4Data], [Mp4Cursor], [Mp4Codec], [Mp4Parse]: the parser's data and
      state, its reading pattern, codec detection, and [parse] itself.
    - [Mp4Moov], [Mp4Moof]: rewriting of movies and of fragments.
    - [Mp4Segments]: [generate_mse_segments] and its two ways.
    - [Mp4Delivery]: what a whole file becomes, put together from the parts.
    - [EsdsCheck]: the check of initialization segments in [web_server.rs].

    Other media, [core/src/media/]:
    - [Segment]: [segment.rs] and [wire_format.rs], segments and their encoding.
    - [MediaFragments]: [fragment_parser.rs] and [fragment_writer.rs].
    - [MediaBuffers]: [buffer.rs] and [quality.rs].
    - [Bridge], [BridgeProps]: [publisher.rs] and [p2p_bridge.rs], over the
      interface of the overlay, and the two together.
    - [Codec]: [codec.rs]. [VideoReader]: [video_reader.rs].
    - [MediaPipeline]: [pipeline.rs], [source.rs], [sink.rs], [stream.rs] and the
      traits of [interface.rs] as type classes.

    Overlay, [core/src/overlay/]:
    - [Geo], [Locations]: [topology/geo.rs].
    - [StreamTree], [StreamTreeProps], [StreamTreePaths]: [tree.rs]; the tree as a
      state machine, its invariant, and the walk from a peer to the source.
    - [Topology]: [topology/manager.rs] and [topology/health.rs].
    - [Peers]: [peer.rs]. [Mesh]: [mesh/].
    - [Relay], [RelayNode], [RelayProps], [RelayLocks]: [relay/]; the buffers of a
      stream, the node with its tasks, what it delivers, and its two locks.
    - [DataMessages]: what becomes of the data of a stream from the network.
    - [Overlay], [OverlayProps]: [libp2p/]; events, calls, the worker.
    - [Network]: [network.rs]. [OverlayMetrics]: [metrics.rs].
    - [BrowserOverlay], [BrowserPage]: [wasm/] and [src/ui/src/lib.rs].

    Publish and subscribe, [core/src/pubsub/]:
    - [PubSub]: messages, validators, subscriptions and publication.
    - [GossipMessages]: messages as gossipsub carries them, topics, the service.
    - [PubSubMetrics]: [metrics.rs].

    Discovery, [core/src/discovery/]:
    - [StreamDiscovery]: announcements of streams.
    - [Discovery]: the DHT and the bootstrap service.
    - [DiscoveryManager], [DiscoveryProps]: the manager of both, and what they do.

    Moderation, [core/src/moderation/]: [Moderation].

    The node, [node/src/]:
    - [WebLimits], [Signaling], [ClientFrames], [Playback], [PlaybackRuns],
      [WebApi]: [web_server.rs]; its gates, the WebRTC signaling, the frames of a
      viewer, the stream manager with its connections and what it does from end to
      end, and the HTTP interface, whose requests are runs of the state machines
      of the others.
    - [Feed], [Program]: [main.rs]; the task that feeds the viewers, and the
      commands.
    - [Visualization], [StreamingDemo], [BootstrapServer]: the files of these
      names.

    A Rust method on [&mut self] is a function from the old value to the new one
    (with the method's result); its name is the method's, its fields are the
    fields' names, and a loop whose body is long is a definition of its own named
    after what it does.

    ** What the theorems show

    Files: the sample resolver is the specified layout on every accepted table,
    and the exact tables that panic it; the box parsers never crash on hostile
    bytes; fragments read back by a demultiplexer that knows only the format, and
    a run of fragments is gapless; every well-formed file gives its boxes and its
    tracks; exactly which tracks, flags and decode times a rewritten movie or
    fragment has; the segments of a regular and of a fragmented file.

    From node to node: segments read back from the wire; a file published by one
    node is what the bridge, or the viewers, of another get, in order, in every
    run in which nothing else takes it from them; a relay hands every subscriber
    each chunk once; what a browser is given is what its sockets brought. Segments that are forged are reported by no overlay. With the
    ways in which it goes wrong: the overlay stops for good when its relay is not
    started, discovery when nobody takes its events, the locks of a relay node
    deadlock, a page never gets to set its callback, who watches a file to its end
    is sent each segment eleven times.

    The shape of state: parents and children of a tree agree, but for peers that
    were brought back while they were in it, and the chosen parent is optimal; the
    manager's trees are runs of the tree's state machine; the links of a mesh, and
    to whom a new peer is linked; rooms within their limits, of live connections; caches
    and queues within their bounds; what the bootstrap server tracks.

    Administration: nothing changes without the token; a blocked peer is shut
    out, and a restart changes nothing of the moderation once it is saved, unless
    changes overlapped; every request is a run of signaling and of playback. No address gets more than twice its limit.

    Equivalences: codecs of initialization segments by two readers; pictures
    converted from planes by the equations of their colours; percentiles as order statistics; gossip messages (within the depth
    that the reader of JSON allows) and wire segments read back.

    ** Conventions

    Integers are [Z] with the width in the operations: [add_u32] and its like
    panic outside the range, as the code does with overflow checks on (the
    profile of [cargo test] and development builds); casts wrap. In the overlay,
    where depths and counters grow by one per operation, [usize] is not bounded.
    Bytes are [Z] below 256, strings are lists of them. The time is an argument
    of the operations that read the clock, in nanoseconds unless a file says
    otherwise. A claim about floats is about their exact bits.

    Interfaces are type classes with the laws that the code relies on, and
    witnesses give an instance: [HashOrder] (the order in which a map is iterated),
    [Hex], [Blake3], [Bincode], [Json], [JsonText], [MetaJson] and [AnnounceJson]
    (encodings and hashes), [Bodies] (the bodies of requests), [FileSystem],
    [Files] and [Http], [LruCache], [Libm]. What a third party answers (the swarm,
    a socket, an encoder) is an argument of a step or a parameter.

    Concurrent code is a step relation. A step is what runs between two points at
    which another task can: one critical section, one send, one event taken, one
    wait that ended. Files say where they take steps that are larger. Channels
    have the capacities of the source, and a full one makes its sender wait, fail
    or drop as it does there. Records of state hold notes for the theorems, such
    as all that was sent, which no operation reads.

    Fuel: [scan_boxes], [cursor_boxes] and [parse_box] take fuel. Each round
    consumes at least one byte, so one more than the length of the input is
    enough, and the theorems state the bound they need: a result holds with every
    fuel above it. [get_path_to_peer] has fuel because it need not end.

    ** Not modelled

    Logging and running out of memory. The construction of the libp2p swarms and
    a second copy of the calls on them that nothing uses ([libp2p/swarm.rs]);
    serialization of peer identifiers. [transport/] but for the messages of
    signaling: [webrtc.rs] is not built and [quic.rs] is empty. [crypto.rs] and
    [telemetry.rs], wrappers and counters that nothing calls, and [config.rs],
    defaults that nothing reads. [media/ffmpeg_reader.rs], bindings of FFmpeg behind
    a feature that is off. [discovery/utils.rs] and [src/archive/], which no module
    names. [src/proto/], types of messages that nothing uses. The parser of the command line and the
    registration of loggers in [main.rs]. Tests and examples. *)

From Stdlib Require Export Lia ZArith.
From stdpp Require Export base numbers strings option list sorting sets gmap.

#[export] Set Default Goal Selector "!".

(** ** Automation *)

Create HintDb obn.
Create Rewrite HintDb zlen.

(** Case analysis on the first match or conditional met in the goal. *)
Ltac case_goal :=
  match goal with
  | |- context [match ?x with _ => _ end] =>
      lazymatch x with
      | context [match _ with _ => _ end] => fail
      | _ => destruct x eqn:?
      end
  end.

(** The same in a hypothesis. *)
Ltac case_hyp H :=
  match type of H with
  | context [match ?x with _ => _ end] =>
      lazymatch x with
      | context [match _ with _ => _ end] => fail
      | _ => destruct x eqn:?
      end
  end.

(** Boolean comparisons on [Z] and [nat] become propositions. *)
Ltac reflect_bools :=
  repeat match goal with
  | H : (_ && _)%bool = true |- _ => apply andb_true_iff in H; destruct H
  | H : (_ || _)%bool = false |- _ => apply orb_false_iff in H; destruct H
  | H : negb _ = true |- _ => apply negb_true_iff in H
  | H : negb _ = false |- _ => apply negb_false_iff in H
  | H : (_ <? _)%Z = true |- _ => apply Z.ltb_lt in H
  | H : (_ <? _)%Z = false |- _ => apply Z.ltb_ge in H
  | H : (_ <=? _)%Z = true |- _ => apply Z.leb_le in H
  | H : (_ <=? _)%Z = false |- _ => apply Z.leb_gt in H
  | H : (_ =? _)%Z = true |- _ => apply Z.eqb_eq in H
  | H : (_ =? _)%Z = false |- _ => apply Z.eqb_neq in H
  end.

Tactic Notation "blia" := reflect_bools; lia.

(** ** Lists indexed by machine integers *)

Section ZLists.
Context {A : Type}.
Implicit Types (l k : list A) (i n : Z).

(** Length of a vector or slice, a [usize]. *)
Definition zlen l : Z := Z.of_nat (length l).

(** The first [n] elements, and what remains after them. *)
Definition ztake n l : list A := take (Z.to_nat n) l.
Definition zdrop n l : list A := drop (Z.to_nat n) l.

Lemma zlen_nonneg l : (0 <= zlen l)%Z.
Proof. unfold zlen. lia. Qed.

Lemma zlen_nil : zlen [] = 0%Z.
Proof. done. Qed.

Lemma zlen_cons x l : zlen (x :: l) = (1 + zlen l)%Z.
Proof. unfold zlen. cbn [length]. lia. Qed.

Lemma zlen_app l k : zlen (l ++ k) = (zlen l + zlen k)%Z.
Proof. unfold zlen. rewrite length_app. lia. Qed.

Lemma zlen_zero_inv l : zlen l = 0%Z -> l = [].
Proof. unfold zlen. destruct l; cbn [length]; [done | lia]. Qed.

Lemma zlen_ztake n l : (0 <= n <= zlen l)%Z -> zlen (ztake n l) = n.
Proof. unfold zlen, ztake. intros. rewrite length_take. lia. Qed.

Lemma zlen_zdrop n l : (0 <= n <= zlen l)%Z -> zlen (zdrop n l) = (zlen l - n)%Z.
Proof. unfold zlen, zdrop. intros. rewrite length_drop. lia. Qed.

Lemma ztake_app_exact l k : ztake (zlen l) (l ++ k) = l.
Proof. unfold ztake, zlen. rewrite Nat2Z.id. apply take_app_length. Qed.

Lemma zdrop_app_exact l k : zdrop (zlen l) (l ++ k) = k.
Proof. unfold zdrop, zlen. rewrite Nat2Z.id. apply drop_app_length. Qed.

Lemma ztake_app_eq n l k : n = zlen l -> ztake n (l ++ k) = l.
Proof. intros ->. apply ztake_app_exact. Qed.

Lemma zdrop_app_eq n l k : n = zlen l -> zdrop n (l ++ k) = k.
Proof. intros ->. apply zdrop_app_exact. Qed.

Lemma zdrop_0 l : zdrop 0 l = l.
Proof. done. Qed.

Lemma ztake_all l n : (zlen l <= n)%Z -> ztake n l = l.
Proof. unfold ztake, zlen. intros. apply take_ge. lia. Qed.

Lemma zdrop_all l n : (zlen l <= n)%Z -> zdrop n l = [].
Proof. unfold zdrop, zlen. intros. apply drop_ge. lia. Qed.

Lemma zdrop_zdrop l i n : (0 <= i)%Z -> (0 <= n)%Z -> zdrop n (zdrop i l) = zdrop (i + n) l.
Proof. unfold zdrop. intros. rewrite drop_drop. f_equal. lia. Qed.

Lemma ztake_zdrop n l : ztake n l ++ zdrop n l = l.
Proof. apply take_drop. Qed.
End ZLists.

#[export] Hint Rewrite @zlen_nil @zlen_cons @zlen_app : zlen.
#[export] Hint Resolve zlen_nonneg : obn.

(** Arithmetic on lengths of concrete or concatenated lists. *)
Ltac zlen_simpl := autorewrite with zlen in *.
Tactic Notation "zlia" :=
  zlen_simpl; repeat match goal with
  | |- context [zlen ?l] => lazymatch goal with
      | _ : (0 <= zlen l)%Z |- _ => fail
      | _ => pose proof (zlen_nonneg l) end
  | _ : context [zlen ?l] |- _ => lazymatch goal with
      | _ : (0 <= zlen l)%Z |- _ => fail
      | _ => pose proof (zlen_nonneg l) end
  end; lia.

(** ** Lists *)

Lemma elem_of_map {A B} (f : A -> B) l y : y ∈ map f l <-> exists x, y = f x /\ x ∈ l.
Proof. apply list_elem_of_fmap. Qed.

Lemma Forall_map_filter {A B} (P : B -> Prop) (f : A -> B) p l :
  Forall P (map f l) -> Forall P (map f (List.filter p l)).
Proof.
  induction l as [|x l IH]; [done|]. cbn. intros [Hx Hl]%list.Forall_cons.
  destruct (p x); cbn; [constructor|]; auto.
Qed.

Lemma Forall_filter_keep {A} (P : A -> Prop) p l : Forall P l -> Forall P (List.filter p l).
Proof. intros H. rewrite <- (map_id (List.filter p l)). apply Forall_map_filter. by rewrite map_id. Qed.

(** ** The end of a list *)

(** The last [n] elements. *)
Definition last_n {A} (n : nat) (l : list A) : list A := drop (length l - n) l.

Lemma last_n_snoc {A} n (l : list A) x : (0 < n)%nat ->
  last_n n (l ++ [x]) = last_n n (last_n n l ++ [x]).
Proof.
  intros Hn. unfold last_n. rewrite !length_app, length_drop. cbn [length].
  destruct (decide (length l < n)%nat).
  - replace (length l - n)%nat with 0%nat by lia. rewrite drop_0. f_equal. lia.
  - replace (length l - (length l - n) + 1 - n)%nat with 1%nat by lia.
    rewrite drop_app_le, (drop_app_le (drop _ l)), drop_drop by (rewrite ?length_drop; lia). do 2 f_equal. lia.
Qed.

Lemma length_last_n {A} n (l : list A) : (length (last_n n l) <= n)%nat.
Proof. unfold last_n. rewrite length_drop. lia. Qed.

Lemma sublist_full {A} (l k : list A) : l `sublist_of` k -> (length k <= length l)%nat -> l = k.
Proof.
  induction 1 as [|x l k _ IH|x l k Hs _]; intros Hl; [done|cbn in Hl; f_equal; apply IH; lia|].
  apply sublist_length in Hs. cbn in Hl. lia.
Qed.

Lemma last_n_map {A B} (f : A -> B) n l : last_n n (map f l) = map f (last_n n l).
Proof. unfold last_n. by rewrite length_map, skipn_map. Qed.

Lemma last_n_all {A} n (l : list A) : (length l <= n)%nat -> last_n n l = l.
Proof. intros H. unfold last_n. by replace (length l - n)%nat with 0%nat by lia. Qed.

Lemma last_n_app {A} n (l k : list A) : (n <= length k)%nat -> last_n n (l ++ k) = last_n n k.
Proof.
  intros H. unfold last_n. rewrite length_app, drop_app_ge by lia. f_equal. lia.
Qed.

(** [while l.len() > n { l.pop_front(); }] *)
Fixpoint trim_front {A} (n : nat) (l : list A) : list A :=
  match l with
  | [] => []
  | _ :: l' => if (n <? length l)%nat then trim_front n l' else l
  end.

Lemma trim_front_last_n {A} n (l : list A) : trim_front n l = last_n n l.
Proof.
  induction l as [|x l IH]; [done|]. cbn [trim_front]. destruct (Nat.ltb_spec n (length (x :: l))).
  - rewrite IH. unfold last_n. cbn [length] in *. by replace (S (length l) - n)%nat with (S (length l - n)) by lia.
  - by rewrite last_n_all by lia.
Qed.

Lemma last_n_snoc_any {A} n (l : list A) x : last_n n (l ++ [x]) = last_n n (last_n n l ++ [x]).
Proof.
  destruct n as [|n]; [|apply last_n_snoc; lia].
  unfold last_n. rewrite !Nat.sub_0_r. by rewrite !drop_all.
Qed.

(** ** Sorting *)

(** [sort_by_key], which keeps the order of equal keys. *)
Fixpoint insert_by {A} (key : A -> Z) (x : A) (l : list A) : list A :=
  match l with
  | [] => [x]
  | y :: l' => if (key x <=? key y)%Z then x :: l else y :: insert_by key x l'
  end.

Definition sort_by_key {A} (key : A -> Z) (l : list A) : list A := foldr (insert_by key) [] l.

Lemma insert_by_perm {A} (key : A -> Z) x l : insert_by key x l ≡ₚ x :: l.
Proof. induction l as [|y l IH]; [done|]. cbn. destruct (_ <=? _)%Z; [done|]. rewrite IH. constructor. Qed.

Lemma sort_by_key_perm {A} (key : A -> Z) l : sort_by_key key l ≡ₚ l.
Proof. induction l as [|x l IH]; [done|]. cbn. by rewrite insert_by_perm, IH. Qed.

Lemma insert_by_sorted {A} (key : A -> Z) x l :
  StronglySorted (fun x y => (key x <= key y)%Z) l -> StronglySorted (fun x y => (key x <= key y)%Z) (insert_by key x l).
Proof.
  induction 1 as [|y l Hs IH Hy]; [by repeat constructor|]. cbn. destruct (Z.leb_spec (key x) (key y)).
  - constructor; [by constructor|]. constructor; [done|]. eapply Forall_impl; [done|]. cbn. lia.
  - constructor; [done|]. rewrite insert_by_perm. constructor; [lia|done].
Qed.

Lemma sort_by_key_sorted {A} (key : A -> Z) l : StronglySorted (fun x y => (key x <= key y)%Z) (sort_by_key key l).
Proof. induction l as [|x l IH]; [constructor|]. by apply insert_by_sorted. Qed.

Lemma StronglySorted_weaken {A} (R R' : A -> A -> Prop) l :
  (forall x y, R x y -> R' x y) -> StronglySorted R l -> StronglySorted R' l.
Proof. intros HR. induction 1; constructor; [done|]. eapply Forall_impl; [done|]. cbn. auto. Qed.

Lemma NoDup_map_filter {A B} (f : A -> B) p l : NoDup (map f l) -> NoDup (map f (List.filter p l)).
Proof.
  induction l as [|x l IH]; [done|]. cbn. intros [Hx Hl]%NoDup_cons. destruct (p x); [|by apply IH]. cbn.
  apply NoDup_cons. split; [|by apply IH]. intros Hin. apply Hx. apply elem_of_map in Hin as (y & -> & Hy).
  apply list_elem_of_In, filter_In in Hy as [Hy _]. apply elem_of_map. exists y. split; [done|]. by apply list_elem_of_In.
Qed.

Lemma StronglySorted_filter {A} (R : A -> A -> Prop) p l : StronglySorted R l -> StronglySorted R (List.filter p l).
Proof.
  induction 1 as [|x l _ IH Hx]; [constructor|]. cbn. destruct (p x); [|done]. constructor; [done|]. by apply Forall_filter_keep.
Qed.

Lemma filter_map_comm {A B} (f : A -> B) p l : List.filter p (map f l) = map f (List.filter (fun x => p (f x)) l).
Proof. induction l as [|x l IH]; [done|]. cbn. rewrite IH. by destruct (p (f x)). Qed.

Lemma filter_ext_in {A} (p q : A -> bool) l : (forall x, x ∈ l -> p x = q x) -> List.filter p l = List.filter q l.
Proof.
  induction l as [|x l IH]; intros Hpq; [done|]. cbn. rewrite (Hpq x), IH; [done| |by left]. intros y Hy. apply Hpq. by right.
Qed.

Lemma NoDup_filter_keep {A} (p : A -> bool) l : NoDup l -> NoDup (List.filter p l).
Proof. intros Hl. rewrite <- (map_id (List.filter p l)). apply NoDup_map_filter. by rewrite map_id. Qed.

(** Two lists merged, each in its order. *)
Inductive interleaving {A : Type} : list A -> list A -> list A -> Prop :=
| interleaving_nil : interleaving [] [] []
| interleaving_left l1 l2 l x : interleaving l1 l2 l -> interleaving (l1 ++ [x]) l2 (l ++ [x])
| interleaving_right l1 l2 l x : interleaving l1 l2 l -> interleaving l1 (l2 ++ [x]) (l ++ [x]).

Lemma interleaving_only {A} (l1 l : list A) : interleaving l1 [] l -> l = l1.
Proof.
  intros Hi. remember (@nil A) as l2 eqn:Hl2. induction Hi as [|l1 l2 l x _ IH|l1 l2 l x _ IH]; [done|by rewrite IH|].
  by destruct l2.
Qed.

Lemma interleaving_more {A} (l1 l2 l more : list A) : interleaving l1 l2 l -> interleaving l1 (l2 ++ more) (l ++ more).
Proof.
  induction more as [|x more IH] using rev_ind; intros Hi; [by rewrite !app_nil_r|]. rewrite !app_assoc. apply interleaving_right. by apply IH.
Qed.
