(* ===== verification/Rust.v ===== *)
(** * Rust run-time layer

    What the modelled Rust code uses of the language and of [std]: panics,
    [Result], checked machine arithmetic, slices, big-endian encodings, UTF-8
    strings, [std::io::Cursor] and bounded loops. *)

From S2P Require Import Prelude.

#[local] Open Scope Z_scope.

(** ** Executions and results *)

(** Running a piece of code ends with a value, panics, or (for a loop given too
    little fuel by the model) is cut off. *)
Inductive exec (A : Type) : Type :=
| Done (a : A)
| Panic
| OutOfFuel.
Arguments Done {A} a.
Arguments Panic {A}.
Arguments OutOfFuel {A}.

(** [Result<T, E>]. *)
Inductive result (T E : Type) : Type :=
| ROk (t : T)
| RErr (e : E).
Arguments ROk {T E} t.
Arguments RErr {T E} e.

Definition exec_bind {A B} (x : exec A) (k : A -> exec B) : exec B :=
  match x with
  | Done a => k a
  | Panic => Panic
  | OutOfFuel => OutOfFuel
  end.

(** The [?] operator: an error ends the function with that error. *)
Definition try_bind {A B E} (x : exec (result A E)) (k : A -> exec (result B E))
  : exec (result B E) :=
  exec_bind x (fun r => match r with ROk a => k a | RErr e => Done (RErr e) end).

Declare Scope rust_scope.
Delimit Scope rust_scope with rust.
Notation "'let!' x ':=' e 'in' k" := (exec_bind e (fun x => k))
  (at level 10, x pattern, e at level 200, k at level 200) : rust_scope.
Notation "'let?' x ':=' e 'in' k" := (try_bind e (fun x => k))
  (at level 10, x pattern, e at level 200, k at level 200) : rust_scope.
Open Scope rust_scope.

(** ** Bounded loops

    A [while] or [loop] of the source is a body that says whether to go round
    again or to leave the loop; the model runs it with fuel. *)

Inductive step (S R : Type) : Type :=
| Continue (s : S)
| Break (r : R).
Arguments Continue {S R} s.
Arguments Break {S R} r.

Fixpoint loop {S R} (fuel : nat) (body : S -> exec (step S R)) (s : S) : exec R :=
  match fuel with
  | O => OutOfFuel
  | Datatypes.S fuel' =>
      let! x := body s in
      match x with
      | Continue s' => loop fuel' body s'
      | Break r => Done r
      end
  end.

(** A [for] loop over an iterator, the body threading the mutable state. *)
Fixpoint for_each {S X} (body : S -> X -> exec S) (xs : list X) (s : S) : exec S :=
  match xs with
  | [] => Done s
  | x :: xs' => let! s' := body s x in for_each body xs' s'
  end.

(** [for _ in 0..n { if stop { break } body }]: the body says when to break. *)
Fixpoint for_range {S} (n : nat) (body : S -> exec (step S S)) (s : S) : exec S :=
  match n with
  | O => Done s
  | Datatypes.S n' =>
      let! x := body s in
      match x with
      | Continue s' => for_range n' body s'
      | Break s' => Done s'
      end
  end.

(** Every execution outcome that is not running out of fuel. *)
Definition completes {A} (x : exec A) : Prop := x <> OutOfFuel.
(** A normal end: neither a panic nor out of fuel. *)
Definition returns {A} (x : exec A) (Q : A -> Prop) : Prop :=
  exists a, x = Done a /\ Q a.

(** The loop rule: an invariant, a decreasing measure, and a postcondition
    for what the loop breaks with. *)
Lemma loop_returns {S R} (body : S -> exec (step S R)) (Inv : S -> Prop)
    (m : S -> nat) (Q : R -> Prop) :
  (forall s, Inv s -> returns (body s) (fun x =>
     match x with
     | Continue s' => Inv s' /\ (m s' < m s)%nat
     | Break r => Q r
     end)) ->
  forall fuel s, Inv s -> (m s < fuel)%nat -> returns (loop fuel body s) Q.
Proof.
  intros Hbody. induction fuel as [|fuel IH]; intros s Hs Hm; [lia|].
  destruct (Hbody s Hs) as (x & Hx & Hpost). cbn. rewrite Hx. cbn.
  destruct x as [s'|r].
  - apply IH; [apply Hpost | lia].
  - by exists r.
Qed.

(** A body that may panic still makes the loop end when the measure falls. *)
Lemma loop_completes {S R} (body : S -> exec (step S R)) (Inv : S -> Prop) (m : S -> nat) :
  (forall s, Inv s -> completes (body s)) ->
  (forall s s', Inv s -> body s = Done (Continue s') -> Inv s' /\ (m s' < m s)%nat) ->
  forall fuel s, Inv s -> (m s < fuel)%nat -> completes (loop fuel body s).
Proof.
  intros Hc Hd. induction fuel as [|fuel IH]; intros s Hs Hm; [lia|].
  cbn. specialize (Hc s Hs). destruct (body s) as [[s'|r]| |] eqn:E; try done.
  destruct (Hd _ _ Hs E). apply IH; [done | lia].
Qed.

(** Extra fuel does not change a loop that has ended. *)
Lemma loop_fuel_mono {S R} (body : S -> exec (step S R)) fuel fuel' s r :
  (fuel <= fuel')%nat -> loop fuel body s = Done r -> loop fuel' body s = Done r.
Proof.
  revert fuel' s. induction fuel as [|fuel IH]; intros fuel' s Hle H; [done|].
  destruct fuel' as [|fuel']; [lia|]. cbn in *.
  destruct (body s) as [[s'|r']| |]; cbn in *; try done.
  apply IH; [lia | done].
Qed.

Lemma for_each_returns {S X} (body : S -> X -> exec S) (Inv : S -> Prop) (P : X -> Prop) xs s :
  (forall s x, Inv s -> P x -> returns (body s x) Inv) ->
  Forall P xs -> Inv s -> returns (for_each body xs s) Inv.
Proof.
  intros Hb HP. revert s. induction HP as [|x xs Hx _ IH]; intros s Hs; cbn.
  - by exists s.
  - destruct (Hb s x Hs Hx) as (s' & -> & Hs'). cbn. by apply IH.
Qed.

Lemma for_each_app {S X} (body : S -> X -> exec S) xs ys s :
  for_each body (xs ++ ys) s = (let! s' := for_each body xs s in for_each body ys s').
Proof.
  revert s. induction xs as [|x xs IH]; intros s; [done|].
  cbn. destruct (body s x); cbn; [apply IH | done | done].
Qed.

(** ** Machine integers

    An integer of width [w] is a [Z] in range. The arithmetic operators panic
    on overflow, as they do with overflow checks on (the [dev] and [test]
    profiles of the workspace); [as] casts wrap in every profile. *)

Definition u8_max : Z := 255.
Definition u32_max : Z := 4294967295.
Definition u64_max : Z := 18446744073709551615.
Definition isize_max : Z := 9223372036854775807.

Definition is_u32 (x : Z) : Prop := 0 <= x <= u32_max.
Definition is_u64 (x : Z) : Prop := 0 <= x <= u64_max.

Definition checked (max x : Z) : exec Z :=
  if (0 <=? x) && (x <=? max) then Done x else Panic.
Definition add_u32 (x y : Z) : exec Z := checked u32_max (x + y).
Definition mul_u32 (x y : Z) : exec Z := checked u32_max (x * y).
Definition sub_u32 (x y : Z) : exec Z := checked u32_max (x - y).
Definition add_u64 (x y : Z) : exec Z := checked u64_max (x + y).
Definition sub_u64 (x y : Z) : exec Z := checked u64_max (x - y).
Definition mul_u64 (x y : Z) : exec Z := checked u64_max (x * y).
(** Integer division panics on a zero divisor. *)
Definition div_u64 (x y : Z) : exec Z := if y =? 0 then Panic else Done (x / y).

Definition as_u8 (x : Z) : Z := x mod 2 ^ 8.
Definition as_u32 (x : Z) : Z := x mod 2 ^ 32.
Definition as_u64 (x : Z) : Z := x mod 2 ^ 64.
(** Two's complement reading of a [w]-bit pattern. *)
Definition as_signed (w x : Z) : Z :=
  let y := x mod 2 ^ w in if y <? 2 ^ (w - 1) then y else y - 2 ^ w.
Definition as_i32 (x : Z) : Z := as_signed 32 x.

Lemma checked_done max x : 0 <= x <= max -> checked max x = Done x.
Proof. unfold checked. intros. destruct (Z.leb_spec 0 x), (Z.leb_spec x max); cbn; (done || lia). Qed.

Lemma checked_inv max x y : checked max x = Done y -> y = x /\ 0 <= x <= max.
Proof. unfold checked. case_match; [|done]. intros [= <-]. blia. Qed.

Lemma checked_panic max x : ~ (0 <= x <= max) -> checked max x = Panic.
Proof. unfold checked. intros. case_match; [blia | done]. Qed.

Lemma checked_completes max x : completes (checked max x).
Proof. unfold completes, checked. by case_match. Qed.

Lemma as_u32_small x : is_u32 x -> as_u32 x = x.
Proof. unfold is_u32, as_u32, u32_max. intros. apply Z.mod_small. lia. Qed.

Lemma as_u32_range x : is_u32 (as_u32 x).
Proof. unfold is_u32, as_u32, u32_max. pose proof (Z.mod_pos_bound x (2 ^ 32)). lia. Qed.

Lemma as_u64_small x : is_u64 x -> as_u64 x = x.
Proof. unfold is_u64, as_u64, u64_max. intros. apply Z.mod_small. lia. Qed.

Lemma as_i32_pattern x : - 2 ^ 31 <= x < 2 ^ 31 -> as_i32 (as_u32 x) = x.
Proof.
  intros. unfold as_i32, as_signed, as_u32. rewrite Z.mod_mod by lia.
  destruct (Z.ltb_spec x 0).
  - rewrite <- (Z.mod_add x 1) by lia. rewrite Z.mod_small by lia.
    destruct (Z.ltb_spec (x + 1 * 2 ^ 32) (2 ^ (32 - 1))); lia.
  - rewrite Z.mod_small by lia. destruct (Z.ltb_spec x (2 ^ (32 - 1))); lia.
Qed.

#[export] Hint Resolve checked_completes as_u32_range : obn.

(** ** Bytes, slices and big-endian encodings *)

Abbreviation bytes := (list Z).

Definition is_byte (b : Z) : Prop := 0 <= b < 256.

(** [data[i]]; out of range it panics. *)
Definition index {A} (data : list A) (i : Z) : exec A :=
  if 0 <=? i then match data !! Z.to_nat i with Some b => Done b | None => Panic end
  else Panic.

(** [&data[i..j]]; a reversed or out-of-range range panics. *)
Definition slice {A} (data : list A) (i j : Z) : exec (list A) :=
  if (0 <=? i) && (i <=? j) && (j <=? zlen data) then Done (ztake (j - i) (zdrop i data))
  else Panic.

(** [&data[i..]]. *)
Definition slice_from {A} (data : list A) (i : Z) : exec (list A) := slice data i (zlen data).

(** [data[i] = b]. *)
Definition set_index {A} (data : list A) (i : Z) (b : A) : exec (list A) :=
  if (0 <=? i) && (i <? zlen data) then Done (<[Z.to_nat i := b]> data) else Panic.

(** [vec![0u8; n]]: a capacity above [isize::MAX] panics. *)
Definition alloc (n : Z) : exec unit := if n <=? isize_max then Done tt else Panic.

(** [x.to_be_bytes()] of an [n]-byte integer. *)
Fixpoint be_bytes (n : nat) (x : Z) : bytes :=
  match n with
  | O => []
  | S n' => (x / 2 ^ (8 * Z.of_nat n')) mod 256 :: be_bytes n' x
  end.

(** [from_be_bytes]. *)
Definition be_val (bs : bytes) : Z := fold_left (fun acc b => acc * 256 + b) bs 0.

(** [u32::from_be_bytes([data[i], data[i+1], data[i+2], data[i+3]])]. *)
Definition be32_at (data : bytes) (i : Z) : exec Z :=
  let! b0 := index data i in
  let! b1 := index data (i + 1) in
  let! b2 := index data (i + 2) in
  let! b3 := index data (i + 3) in
  Done (be_val [b0; b1; b2; b3]).

(** The same for [u64], eight bytes. *)
Definition be64_at (data : bytes) (i : Z) : exec Z :=
  let! hi := be32_at data i in
  let! lo := be32_at data (i + 4) in
  Done (hi * 2 ^ 32 + lo).

Lemma length_be_bytes n x : length (be_bytes n x) = n.
Proof. induction n; cbn; congruence. Qed.

Lemma zlen_be_bytes n x : zlen (be_bytes n x) = Z.of_nat n.
Proof. unfold zlen. by rewrite length_be_bytes. Qed.

#[export] Hint Rewrite zlen_be_bytes : zlen.

Lemma be_bytes_bytes n x : Forall is_byte (be_bytes n x).
Proof.
  induction n; cbn; constructor; [|done].
  unfold is_byte. apply Z.mod_pos_bound. lia.
Qed.

Lemma be_bytes_mod n x : be_bytes n (x mod 2 ^ (8 * Z.of_nat n)) = be_bytes n x.
Proof.
  assert (Hgen : forall k, (n <= k)%nat -> be_bytes n (x mod 2 ^ (8 * Z.of_nat k)) = be_bytes n x).
  { induction n as [|n IH]; intros k Hk; [done|]. cbn [be_bytes]. f_equal; [|apply IH; lia].
    rewrite !Z.shiftr_div_pow2 || idtac.
    replace (2 ^ (8 * Z.of_nat k))
      with (2 ^ (8 * Z.of_nat n) * (256 * 2 ^ (8 * (Z.of_nat k - Z.of_nat n - 1)))).
    2:{ change 256 with (2 ^ 8). rewrite <- !Z.pow_add_r by lia. f_equal. lia. }
    rewrite Z.rem_mul_r by (try apply Z.pow_nonzero; lia).
    rewrite (Z.add_comm (x mod _)), (Z.mul_comm (2 ^ _) (_ mod _)).
    rewrite Z.div_add_l by (apply Z.pow_nonzero; lia).
    rewrite (Z.div_small (x mod _)) by (apply Z.mod_pos_bound; lia).
    rewrite Z.add_0_r.
    rewrite (Z.rem_mul_r _ 256) by (try apply Z.pow_nonzero; lia).
    rewrite (Z.mul_comm 256), Z.mod_add by lia. apply Z.mod_mod. lia. }
  by apply Hgen.
Qed.

Lemma be_val_app_one bs b : be_val (bs ++ [b]) = be_val bs * 256 + b.
Proof. unfold be_val. by rewrite fold_left_app. Qed.

Lemma be_val_cons b bs : be_val (b :: bs) = b * 2 ^ (8 * zlen bs) + be_val bs.
Proof.
  induction bs as [|c bs IH] using rev_ind.
  - unfold be_val, zlen. cbn. lia.
  - rewrite app_comm_cons, !be_val_app_one, IH, zlen_app. cbn [zlen].
    change (zlen [c]) with 1. replace (8 * (zlen bs + 1)) with (8 * zlen bs + 8) by lia.
    rewrite Z.pow_add_r by zlia. change (2 ^ 8) with 256. ring.
Qed.

Lemma be_val_be_bytes n x : be_val (be_bytes n x) = x mod 2 ^ (8 * Z.of_nat n).
Proof.
  induction n as [|n IH].
  - change (be_val (be_bytes 0 x)) with 0. by rewrite Z.mod_1_r.
  - cbn [be_bytes]. rewrite be_val_cons, IH, zlen_be_bytes.
    replace (8 * Z.of_nat (S n)) with (8 * Z.of_nat n + 8) by lia.
    rewrite Z.pow_add_r by lia. change (2 ^ 8) with 256.
    rewrite Z.rem_mul_r by (try apply Z.pow_nonzero; lia). ring.
Qed.

Lemma be_val_be_bytes_u32 x : is_u32 x -> be_val (be_bytes 4 x) = x.
Proof. intros. rewrite be_val_be_bytes. by apply (as_u32_small x). Qed.

Lemma be_val_range bs : Forall is_byte bs -> 0 <= be_val bs < 2 ^ (8 * zlen bs).
Proof.
  induction bs as [|b bs IH]; intros H.
  - change (0 <= 0 < 1). lia.
  - apply list.Forall_cons in H as [Hb Hbs]. specialize (IH Hbs). unfold is_byte in Hb.
    rewrite be_val_cons, zlen_cons. replace (8 * (1 + zlen bs)) with (8 + 8 * zlen bs) by lia.
    rewrite Z.pow_add_r by zlia. change (2 ^ 8) with 256. nia.
Qed.

Lemma index_app_l {A} (l k : list A) i : 0 <= i < zlen l -> index (l ++ k) i = index l i.
Proof.
  unfold index, zlen. intros. case_match; [|done]. by rewrite lookup_app_l by lia.
Qed.

Lemma index_app_r {A} (l k : list A) i : zlen l <= i -> index (l ++ k) i = index k (i - zlen l).
Proof.
  intros. pose proof (zlen_nonneg l). unfold index.
  destruct (Z.leb_spec 0 i), (Z.leb_spec 0 (i - zlen l)); try lia.
  unfold zlen in *. rewrite lookup_app_r by lia. by replace (Z.to_nat (i - _)) with (Z.to_nat i - length l)%nat by lia.
Qed.

Lemma index_returns {A} (l : list A) i : 0 <= i < zlen l -> exists b, index l i = Done b /\ b ∈ l.
Proof.
  unfold index, zlen. intros Hi. destruct (Z.leb_spec 0 i); [|lia].
  destruct (lookup_lt_is_Some_2 l (Z.to_nat i)) as [b Hb]; [lia|].
  rewrite Hb. exists b. split; [done|]. by eapply list_elem_of_lookup_2.
Qed.

Lemma index_completes {A} (l : list A) i : completes (index l i).
Proof. unfold completes, index. repeat case_match; done. Qed.

Lemma be32_at_app_r l k i : zlen l <= i -> be32_at (l ++ k) i = be32_at k (i - zlen l).
Proof.
  intros. unfold be32_at. rewrite !index_app_r by lia.
  by replace (i + 1 - zlen l) with (i - zlen l + 1) by lia;
  replace (i + 2 - zlen l) with (i - zlen l + 2) by lia;
  replace (i + 3 - zlen l) with (i - zlen l + 3) by lia.
Qed.

Lemma be32_at_app_l l k i : 0 <= i -> i + 4 <= zlen l -> be32_at (l ++ k) i = be32_at l i.
Proof. intros. unfold be32_at. by rewrite !index_app_l by lia. Qed.

(** Reading back what was written. *)
Lemma be32_at_be_bytes x k : is_u32 x -> be32_at (be_bytes 4 x ++ k) 0 = Done x.
Proof. intros. rewrite be32_at_app_l by zlia.
  change (Done (be_val (be_bytes 4 x)) = Done x). by rewrite be_val_be_bytes_u32. Qed.

Lemma be32_at_mid l x k i :
  is_u32 x -> i = zlen l -> be32_at (l ++ be_bytes 4 x ++ k) i = Done x.
Proof. intros ? ->. rewrite be32_at_app_r by lia. rewrite Z.sub_diag. by apply be32_at_be_bytes. Qed.

Lemma be32_at_returns bs i :
  Forall is_byte bs -> 0 <= i -> i + 4 <= zlen bs -> exists x, be32_at bs i = Done x /\ is_u32 x.
Proof.
  intros Hb Hi Hl. unfold be32_at.
  destruct (index_returns bs i) as (b0 & -> & H0); [lia|].
  destruct (index_returns bs (i + 1)) as (b1 & -> & H1); [lia|].
  destruct (index_returns bs (i + 2)) as (b2 & -> & H2); [lia|].
  destruct (index_returns bs (i + 3)) as (b3 & -> & H3); [lia|]. cbn -[be_val].
  eexists. split; [done|]. rewrite list.Forall_forall in Hb.
  pose proof (be_val_range [b0; b1; b2; b3]) as Hr. unfold is_u32, u32_max.
  change (2 ^ (8 * zlen _)) with (2 ^ 32) in Hr.
  rewrite !list.Forall_cons, Forall_nil in Hr. specialize (Hr ltac:(auto 6)). lia.
Qed.

Lemma be32_at_completes bs i : completes (be32_at bs i).
Proof. unfold completes, be32_at, index. by repeat case_match. Qed.

Lemma be64_at_be_bytes x k : is_u64 x -> be64_at (be_bytes 8 x ++ k) 0 = Done x.
Proof.
  intros Hx. unfold be64_at.
  assert (Hs : be_bytes 8 x = be_bytes 4 (x / 2 ^ 32) ++ be_bytes 4 x).
  { cbn [be_bytes app]. rewrite !Z.div_div by lia. done. }
  rewrite Hs, <- app_assoc.
  unfold is_u64, u64_max in Hx.
  rewrite be32_at_be_bytes.
  2:{ unfold is_u32, u32_max. pose proof (Z.div_pos x (2 ^ 32)).
      pose proof (Z.div_lt_upper_bound x (2 ^ 32) (2 ^ 32)). lia. }
  cbn -[be32_at be_bytes Z.pow Z.div Z.mul].
  rewrite be32_at_app_r by zlia. rewrite zlen_be_bytes. change (4 - Z.of_nat 4) with 0.
  rewrite <- (be_bytes_mod 4 x). rewrite be32_at_be_bytes.
  2:{ apply as_u32_range. }
  cbn -[Z.pow Z.div Z.mul Z.modulo]. f_equal. change (8 * Z.of_nat 4) with 32.
  rewrite (Z.div_mod x (2 ^ 32)) at 3 by lia. lia.
Qed.

Lemma be64_at_mid l x k i :
  is_u64 x -> i = zlen l -> be64_at (l ++ be_bytes 8 x ++ k) i = Done x.
Proof.
  intros Hx ->. rewrite <- (be64_at_be_bytes x k Hx). unfold be64_at.
  pose proof (be32_at_app_r l (be_bytes 8 x ++ k)) as Hr.
  rewrite (Hr (zlen l)), (Hr (zlen l + 4)) by lia.
  by replace (zlen l - zlen l) with 0 by lia; replace (zlen l + 4 - zlen l) with (0 + 4) by lia.
Qed.

Lemma slice_app_mid {A} (l m k : list A) i j :
  i = zlen l -> j = zlen l + zlen m -> slice (l ++ m ++ k) i j = Done m.
Proof.
  intros -> ->. unfold slice.
  replace ((0 <=? zlen l) && (zlen l <=? zlen l + zlen m) && (zlen l + zlen m <=? zlen (l ++ m ++ k)))
    with true by (symmetry; rewrite !andb_true_iff, !Z.leb_le; zlia).
  rewrite zdrop_app_exact. replace (zlen l + zlen m - zlen l) with (zlen m) by lia.
  by rewrite ztake_app_exact.
Qed.

Lemma slice_returns {A} (l : list A) i j : 0 <= i <= j -> j <= zlen l ->
  exists m, slice l i j = Done m /\ zlen m = j - i /\ l = ztake i l ++ m ++ zdrop j l.
Proof.
  intros. unfold slice.
  replace ((0 <=? i) && (i <=? j) && (j <=? zlen l)) with true
    by (symmetry; rewrite !andb_true_iff, !Z.leb_le; lia).
  eexists. split; [done|]. split.
  - rewrite zlen_ztake; [done|]. rewrite zlen_zdrop by lia. lia.
  - rewrite <- (ztake_zdrop i l) at 1. f_equal.
    rewrite <- (ztake_zdrop (j - i) (zdrop i l)) at 1. f_equal.
    rewrite zdrop_zdrop by lia. f_equal. lia.
Qed.

Lemma slice_completes {A} (l : list A) i j : completes (slice l i j).
Proof. unfold completes, slice. by case_match. Qed.

Lemma index_mid {A} (l : list A) x k i : i = zlen l -> index (l ++ x :: k) i = Done x.
Proof.
  intros ->. rewrite index_app_r by lia. rewrite Z.sub_diag. done.
Qed.

Lemma set_index_mid {A} (l : list A) x y k i : i = zlen l -> set_index (l ++ x :: k) i y = Done (l ++ y :: k).
Proof.
  intros ->. unfold set_index. pose proof (zlen_nonneg l). pose proof (zlen_nonneg k).
  replace ((0 <=? zlen l) && (zlen l <? zlen (l ++ x :: k))) with true
    by (symmetry; rewrite andb_true_iff, Z.leb_le, Z.ltb_lt; zlia).
  f_equal. unfold zlen. rewrite Nat2Z.id.
  replace (length l) with (length l + 0)%nat by lia. by rewrite insert_app_r.
Qed.

Lemma set_index_returns {A} (l : list A) i y : 0 <= i < zlen l ->
  exists l', set_index l i y = Done l' /\ zlen l' = zlen l /\ (forall P, Forall P l -> P y -> Forall P l').
Proof.
  intros. unfold set_index.
  replace ((0 <=? i) && (i <? zlen l)) with true by (symmetry; rewrite andb_true_iff, Z.leb_le, Z.ltb_lt; lia).
  eexists. split; [done|]. split; [unfold zlen; by rewrite length_insert|].
  intros P HP Hy. by apply Forall_insert.
Qed.

(** Writing back what was read. *)
Lemma be_bytes_be_val bs : Forall is_byte bs -> be_bytes (length bs) (be_val bs) = bs.
Proof.
  induction bs as [|b bs IH]; [done|]. intros [Hb Hbs]%list.Forall_cons. cbn [length be_bytes].
  pose proof (be_val_range bs Hbs) as Hr. rewrite be_val_cons. unfold zlen in *. unfold is_byte in Hb. f_equal.
  - rewrite Z.div_add_l by (apply Z.pow_nonzero; lia). rewrite (Z.div_small (be_val bs)) by lia.
    rewrite Z.add_0_r. by apply Z.mod_small.
  - rewrite <- be_bytes_mod, Z.add_comm, Z.mod_add by (apply Z.pow_nonzero; lia).
    rewrite be_bytes_mod. by apply IH.
Qed.

#[export] Hint Resolve index_completes slice_completes be32_at_completes : obn.

(** ** Strings

    A Rust [String] is its UTF-8 bytes. *)

Abbreviation rstring := (list Z).

(** The bytes of an ASCII literal. *)
Definition str (s : string) : rstring :=
  map (fun a => Z.of_nat (Ascii.nat_of_ascii a)) (String.list_ascii_of_string s).

Definition str_eqb (a b : rstring) : bool := bool_decide (a = b).

Lemma str_eqb_spec a b : reflect (a = b) (str_eqb a b).
Proof. apply bool_decide_reflect. Qed.

Lemma str_eqb_eq a b : str_eqb a b = true <-> a = b.
Proof. apply bool_decide_eq_true. Qed.

Lemma str_eqb_neq a b : str_eqb a b = false <-> a <> b.
Proof. apply bool_decide_eq_false. Qed.

Lemma str_eqb_refl a : str_eqb a a = true.
Proof. by apply str_eqb_eq. Qed.

(** A chunk of the decoder: one well-formed character, or one maximal
    ill-formed prefix. *)
Inductive utf8_chunk : Type :=
| Valid (c : bytes)
| Invalid (c : bytes).

Definition chunk_bytes (c : utf8_chunk) : bytes := match c with Valid b | Invalid b => b end.

Definition in_range (lo hi b : Z) : bool := (lo <=? b) && (b <=? hi).
Definition is_cont (b : Z) : bool := in_range 128 191 b.

(** Whether [b1] may follow a three-byte, respectively four-byte, lead byte. *)
Definition second3 (b0 b1 : Z) : bool :=
  if b0 =? 224 then in_range 160 191 b1
  else if b0 =? 237 then in_range 128 159 b1
  else is_cont b1.
Definition second4 (b0 b1 : Z) : bool :=
  if b0 =? 240 then in_range 144 191 b1
  else if b0 =? 244 then in_range 128 143 b1
  else is_cont b1.

(** [core::str::lossy::Utf8Chunks]. *)
Fixpoint utf8_chunks (l : bytes) : list utf8_chunk :=
  match l with
  | [] => []
  | b0 :: l0 =>
      if b0 <? 128 then Valid [b0] :: utf8_chunks l0
      else if in_range 194 223 b0 then
        match l0 with
        | b1 :: l1 =>
            if is_cont b1 then Valid [b0; b1] :: utf8_chunks l1
            else Invalid [b0] :: utf8_chunks l0
        | [] => [Invalid [b0]]
        end
      else if in_range 224 239 b0 then
        match l0 with
        | b1 :: l1 =>
            if second3 b0 b1 then
              match l1 with
              | b2 :: l2 =>
                  if is_cont b2 then Valid [b0; b1; b2] :: utf8_chunks l2
                  else Invalid [b0; b1] :: utf8_chunks l1
              | [] => [Invalid [b0; b1]]
              end
            else Invalid [b0] :: utf8_chunks l0
        | [] => [Invalid [b0]]
        end
      else if in_range 240 244 b0 then
        match l0 with
        | b1 :: l1 =>
            if second4 b0 b1 then
              match l1 with
              | b2 :: l2 =>
                  if is_cont b2 then
                    match l2 with
                    | b3 :: l3 =>
                        if is_cont b3 then Valid [b0; b1; b2; b3] :: utf8_chunks l3
                        else Invalid [b0; b1; b2] :: utf8_chunks l2
                    | [] => [Invalid [b0; b1; b2]]
                    end
                  else Invalid [b0; b1] :: utf8_chunks l1
              | [] => [Invalid [b0; b1]]
              end
            else Invalid [b0] :: utf8_chunks l0
        | [] => [Invalid [b0]]
        end
      else Invalid [b0] :: utf8_chunks l0
  end.

(** U+FFFD. *)
Definition replacement : bytes := [239; 191; 189].

(** [String::from_utf8_lossy]. *)
Definition from_utf8_lossy (l : bytes) : rstring :=
  concat (map (fun c => match c with Valid b => b | Invalid _ => replacement end) (utf8_chunks l)).

(** [std::str::from_utf8]. *)
Definition from_utf8 (l : bytes) : option rstring :=
  if forallb (fun c => match c with Valid _ => true | Invalid _ => false end) (utf8_chunks l)
  then Some l else None.

Definition is_ascii (l : bytes) : bool := forallb (fun b => b <? 128) l.

Lemma utf8_chunks_bytes l : concat (map chunk_bytes (utf8_chunks l)) = l.
Proof.
  remember (length l) as n eqn:Hn. assert (Hle : (length l <= n)%nat) by lia. clear Hn.
  revert l Hle. induction n as [|n IH]; intros [|b0 l0] Hle; cbn in Hle; try done; [lia|].
  cbn [utf8_chunks].
  repeat match goal with
  | |- context [match ?x with _ => _ end] =>
      lazymatch x with
      | context [match _ with _ => _ end] => fail
      | _ => destruct x eqn:?
      end
  end; cbn [map concat chunk_bytes app]; subst; cbn [length] in *;
  rewrite ?IH by (cbn [length]; lia); done.
Qed.

Lemma utf8_chunks_ascii l : is_ascii l = true -> utf8_chunks l = map (fun b => Valid [b]) l.
Proof.
  induction l as [|b l IH]; [done|]. cbn. intros [Hb Hl]%andb_true_iff.
  by rewrite Hb, IH.
Qed.

(** Lossy decoding is the identity on ASCII, and only ASCII input decodes to
    ASCII: comparing a lossily decoded box type with a literal is comparing
    the bytes. *)
Lemma from_utf8_lossy_ascii l : is_ascii l = true -> from_utf8_lossy l = l.
Proof.
  intros H. unfold from_utf8_lossy. rewrite utf8_chunks_ascii by done.
  rewrite map_map. clear H. induction l as [|b l IH]; [done|]. cbn. by rewrite IH.
Qed.

Lemma from_utf8_lossy_ascii_inv l : is_ascii (from_utf8_lossy l) = true -> from_utf8_lossy l = l.
Proof.
  intros H. rewrite <- (utf8_chunks_bytes l) at 2. unfold from_utf8_lossy in *.
  induction (utf8_chunks l) as [|[c|c] cs IH]; [done| |done].
  cbn in *. unfold is_ascii in *. rewrite forallb_app in H. apply andb_true_iff in H as [_ H].
  by rewrite IH.
Qed.

Lemma from_utf8_lossy_eq_ascii l s : is_ascii s = true -> from_utf8_lossy l = s <-> l = s.
Proof.
  intros Hs. split.
  - intros <-. symmetry. by apply from_utf8_lossy_ascii_inv.
  - intros ->. by apply from_utf8_lossy_ascii.
Qed.

Lemma str_eqb_lossy l s : is_ascii s = true -> str_eqb (from_utf8_lossy l) s = str_eqb l s.
Proof.
  intros Hs. unfold str_eqb. apply bool_decide_ext. by apply from_utf8_lossy_eq_ascii.
Qed.

Lemma from_utf8_ascii l : is_ascii l = true -> from_utf8 l = Some l.
Proof.
  intros H. unfold from_utf8. rewrite utf8_chunks_ascii by done.
  replace (forallb _ _) with true; [done|].
  clear H. induction l as [|b l IH]; [done|]. cbn. exact IH.
Qed.

(** ** [std::io] *)

Inductive error_kind : Type := InvalidData | NotFound | UnexpectedEof.

Record io_error : Type := IoError { kind : error_kind; message : rstring }.

(** [std::io::Cursor<&[u8]>]: only the position changes. *)
Record cursor : Type := Cursor { position : Z }.

(** [cursor.read_exact] into a buffer of [n] bytes. When too few bytes remain
    the position moves to the end of the data. *)
Definition read_exact (data : bytes) (c : cursor) (n : Z) : cursor * option bytes :=
  let rest := zdrop (Z.min (position c) (zlen data)) data in
  if n <=? zlen rest then (Cursor (position c + n), Some (ztake n rest))
  else (Cursor (zlen data), None).

Definition eof_error : io_error := IoError UnexpectedEof (str "failed to fill whole buffer").

(** [cursor.seek(SeekFrom::Current(n)).ok()]: an overflow leaves the position. *)
Definition seek_current (c : cursor) (n : Z) : cursor :=
  let p := position c + n in
  if (0 <=? p) && (p <=? u64_max) then Cursor p else c.

Lemma read_exact_some data c n c' bs :
  0 <= position c -> 0 <= n -> read_exact data c n = (c', Some bs) ->
  position c' = position c + n /\ zlen bs = n /\ (n = 0 \/ position c + n <= zlen data).
Proof.
  intros Hp Hn. unfold read_exact. pose proof (zlen_nonneg data).
  case_match eqn:E; [|done]. intros [= <- <-]. apply Z.leb_le in E.
  rewrite zlen_ztake by done. rewrite zlen_zdrop in E by lia. cbn. lia.
Qed.

Lemma read_exact_none data c n c' :
  read_exact data c n = (c', None) -> position c' = zlen data.
Proof. unfold read_exact. case_match; [done|]. by intros [= <-]. Qed.

Lemma read_exact_app l m k n :
  n = zlen m -> read_exact (l ++ m ++ k) (Cursor (zlen l)) n = (Cursor (zlen l + n), Some m).
Proof.
  intros ->. unfold read_exact. cbn [position].
  rewrite Z.min_l by zlia. rewrite zdrop_app_exact.
  destruct (Z.leb_spec (zlen m) (zlen (m ++ k))); [|zlia].
  by rewrite ztake_app_exact.
Qed.

(** ** Instants

    An [Instant] is a number of nanoseconds. [duration_since] is zero for a
    later instant, and [as_secs] rounds down. *)

Definition second : Z := 1000000000.
Definition seconds_since (now earlier : Z) : Z := Z.max 0 (now - earlier) / second.

(** [Option::is_some]. *)
Definition is_some {A} (x : option A) : bool := match x with Some _ => true | None => false end.
