(* ===== verification/Format.v ===== *)
(** * Text

    Prefixes and suffixes of strings, hexadecimal and decimal output, and the
    facts that make printed keys unambiguous. *)

From S2P Require Import Prelude Rust.

#[local] Open Scope Z_scope.

(** [s.starts_with(p)]. *)
Fixpoint starts_with (s p : rstring) : bool :=
  match p, s with
  | [], _ => true
  | b :: p', a :: s' => (a =? b) && starts_with s' p'
  | _ :: _, [] => false
  end.

(** [s.ends_with(p)]. *)
Definition ends_with (s p : rstring) : bool := starts_with (rev s) (rev p).

Lemma starts_with_spec s p : starts_with s p = true <-> exists t, s = p ++ t.
Proof.
  revert s. induction p as [|b p IH]; intros s; [destruct s; (split; [by eexists|done])|].
  destruct s as [|a s]; cbn; [split; [done|by intros [t Ht]]|]. rewrite andb_true_iff, Z.eqb_eq, IH. split.
  - intros [-> [t ->]]. by exists t.
  - intros [t [= -> ->]]. split; [done|by exists t].
Qed.

Lemma ends_with_spec s p : ends_with s p = true <-> exists t, s = t ++ p.
Proof.
  unfold ends_with. rewrite starts_with_spec. split; intros [t Ht].
  - exists (rev t). by rewrite <- (rev_involutive s), Ht, rev_app_distr, rev_involutive.
  - exists (rev t). by rewrite Ht, rev_app_distr.
Qed.

(** ** Hexadecimal *)

(** [{:02X}] and [{:02x}] of a [u8]; [letter] is the code of the digit ten. *)
Definition hex_digit (letter d : Z) : Z := if d <? 10 then 48 + d else letter + (d - 10).
Definition hex_byte (letter b : Z) : rstring := [hex_digit letter (b / 16); hex_digit letter (b mod 16)].
Definition hex_upper (b : Z) : rstring := hex_byte 65 b.
Definition hex_lower (b : Z) : rstring := hex_byte 97 b.

(** The loop that prints every byte as [{:02x}]. *)
Definition hex_string (l : bytes) : rstring := concat (map hex_lower l).

(** The value of a hexadecimal digit. *)
Definition hex_value (c : Z) : option Z :=
  if in_range 48 57 c then Some (c - 48)
  else if in_range 97 102 c then Some (c - 87)
  else if in_range 65 70 c then Some (c - 55)
  else None.

(** The package [hex]: encoding writes lowercase digits, and decoding reads
    them back. *)
Class Hex : Type := {
  hex_encode : bytes -> rstring;
  hex_decode : rstring -> option bytes;
  hex_roundtrip : forall l, Forall is_byte l -> hex_decode (hex_encode l) = Some l;
  hex_alphabet : forall l, Forall is_byte l -> Forall (fun c => is_Some (hex_value c)) (hex_encode l);
}.

Lemma hex_encode_inj `{Hex} l k : Forall is_byte l -> Forall is_byte k -> hex_encode l = hex_encode k -> l = k.
Proof. intros Hl Hk Heq. apply (inj Some). by rewrite <- !hex_roundtrip, Heq by done. Qed.

Lemma hex_encode_free `{Hex} l c : Forall is_byte l -> hex_value c = None -> c ∉ hex_encode l.
Proof.
  intros Hl Hc Hin. pose proof (hex_alphabet l Hl) as Ha. rewrite list.Forall_forall in Ha.
  destruct (Ha c Hin) as [v Hv]. congruence.
Qed.

(** The loop is such an encoding. *)
Fixpoint hex_parse (s : rstring) : option bytes :=
  match s with
  | [] => Some []
  | a :: b :: s => x ← hex_value a; y ← hex_value b; l ← hex_parse s; Some (x * 16 + y :: l)
  | _ => None
  end.

Lemma hex_value_digit d : 0 <= d < 16 -> hex_value (hex_digit 97 d) = Some d.
Proof.
  intros Hd. assert (d = 0 \/ d = 1 \/ d = 2 \/ d = 3 \/ d = 4 \/ d = 5 \/ d = 6 \/ d = 7 \/ d = 8 \/ d = 9 \/ d = 10 \/
    d = 11 \/ d = 12 \/ d = 13 \/ d = 14 \/ d = 15) as Hor by lia.
  repeat (destruct Hor as [->|Hor]); [..|subst d]; reflexivity.
Qed.

Lemma hex_nibbles b : is_byte b -> 0 <= b / 16 < 16 /\ 0 <= b mod 16 < 16.
Proof.
  unfold is_byte. intros Hb. pose proof (Z.mod_pos_bound b 16). split; [|lia].
  split; [apply Z.div_pos; lia|apply Z.div_lt_upper_bound; lia].
Qed.

#[program] Definition lowercase_hex : Hex := {| hex_encode := hex_string; hex_decode := hex_parse |}.
Next Obligation.
  induction 1 as [|b l Hb _ IH]; [done|]. destruct (hex_nibbles b Hb). unfold hex_string in *. cbn.
  rewrite !hex_value_digit by done. cbn. rewrite IH. cbn. do 2 f_equal. rewrite (Z.div_mod b 16) at 3 by lia. lia.
Qed.
Next Obligation.
  induction 1 as [|b l Hb _ IH]; [done|]. destruct (hex_nibbles b Hb). unfold hex_string in *. cbn.
  repeat apply List.Forall_cons; [..|done]; rewrite hex_value_digit by done; by eexists.
Qed.

(** ** Decimal *)

(** [n.to_string()] of an unsigned integer; [u64] has at most twenty digits. *)
Fixpoint dec_digits (fuel : nat) (n : Z) : rstring :=
  match fuel with
  | O => []
  | S fuel' => (if n <? 10 then [] else dec_digits fuel' (n / 10)) ++ [48 + n mod 10]
  end.
Definition decimal (n : Z) : rstring := dec_digits 20 n.

(** The number a string of digits spells. *)
Definition digits_value (s : rstring) : Z := fold_left (fun acc d => acc * 10 + (d - 48)) s 0.

Lemma dec_digits_value fuel n : 0 <= n < 10 ^ Z.of_nat fuel -> digits_value (dec_digits fuel n) = n.
Proof.
  revert n. induction fuel as [|fuel IH]; intros n Hn; [cbn in *; lia|]. cbn [dec_digits].
  unfold digits_value in *. rewrite fold_left_app. cbn [fold_left].
  rewrite Nat2Z.inj_succ, Z.pow_succ_r in Hn by lia.
  assert (Hd : n = 10 * (n / 10) + n mod 10) by (apply Z.div_mod; lia).
  destruct (Z.ltb_spec n 10); cbn [fold_left].
  - rewrite Z.mod_small in * by lia. lia.
  - rewrite IH; [lia|]. split; [apply Z.div_pos; lia|apply Z.div_lt_upper_bound; lia].
Qed.

Lemma decimal_inj m n : is_u64 m -> is_u64 n -> decimal m = decimal n -> m = n.
Proof.
  unfold is_u64, u64_max, decimal. intros Hm Hn H.
  rewrite <- (dec_digits_value 20 m), <- (dec_digits_value 20 n), H by lia. done.
Qed.

Example format_examples :
  decimal 0 = str "0" /\ decimal 18446744073709551615 = str "18446744073709551615" /\
  hex_string [128; 129; 15] = str "80810f" /\ ends_with (str "stream/7/data") (str "/data") = true.
Proof. split_and!; reflexivity. Qed.
