(* ===== verification/Mp4Box.v ===== *)
(** * ISO-BMFF boxes

    The box format shared by the MP4 components: the header-plus-content bytes
    the code writes, the loop with which the code walks sibling boxes, and a
    reference parser of box sequences the theorems compare with. *)

From S2P Require Import Prelude Rust.

#[local] Open Scope Z_scope.

(** ** What the code does *)

(** The writing pattern [(8 + content.len() as u32).to_be_bytes()], type,
    content. *)
Definition wrap_box (ty content : bytes) : exec bytes :=
  let! total := add_u32 8 (as_u32 (zlen content)) in
  Done (be_bytes 4 total ++ ty ++ content).

(** The walking pattern

    [while cursor + 8 <= limit {
       let box_size = u32::from_be_bytes(data[cursor..cursor + 4]) as usize;
       if box_size < 8 || cursor + box_size > limit { break; }
       let box_type = String::from_utf8_lossy(&data[cursor + 4..cursor + 8]);
       ...body...
       cursor += box_size;
     }]

    [body] gets the mutable state, the cursor, the size and the type, and may
    leave the enclosing function with [Break]; [fin] is what follows the loop.
    The loop advances by at least eight bytes, so one round per byte of data
    is enough fuel. *)
Definition scan_step {S R} (data : bytes) (limit : Z)
    (body : S -> Z -> Z -> rstring -> exec (step S R)) (fin : S -> exec R)
    (st : Z * S) : exec (step (Z * S) R) :=
  let '(cursor, s) := st in
  let leave := let! r := fin s in Done (Break r) in
  if limit <? cursor + 8 then leave
  else
    let! box_size := be32_at data cursor in
    if (box_size <? 8) || (limit <? cursor + box_size) then leave
    else
      let! ty := slice data (cursor + 4) (cursor + 8) in
      let! next := body s cursor box_size (from_utf8_lossy ty) in
      match next with
      | Continue s' => Done (Continue (cursor + box_size, s'))
      | Break r => Done (Break r)
      end.

Definition scan_boxes {S R} (data : bytes) (limit : Z)
    (body : S -> Z -> Z -> rstring -> exec (step S R)) (fin : S -> exec R)
    (cursor : Z) (s : S) : exec R :=
  loop (Datatypes.S (length data)) (scan_step data limit body fin) (cursor, s).

(** ** Reference: boxes as data *)

(** A box: its four-byte type and its content. *)
Abbreviation mp4_box := (bytes * bytes)%type.

Definition box_bytes (b : mp4_box) : bytes := be_bytes 4 (8 + zlen (snd b)) ++ fst b ++ snd b.
Definition boxes_bytes (bs : list mp4_box) : bytes := concat (map box_bytes bs).

(** A box whose size fits the 32-bit header field. *)
Definition wf_box (b : mp4_box) : Prop := zlen (fst b) = 4 /\ 8 + zlen (snd b) <= u32_max.

(** A box size as the code computes it. *)
Definition box_size (b : mp4_box) : Z := 8 + zlen (snd b).

Fixpoint parse_boxes (fuel : nat) (data : bytes) : option (list mp4_box) :=
  match fuel, data with
  | _, [] => Some []
  | O, _ => None
  | Datatypes.S fuel', _ =>
      let size := be_val (ztake 4 data) in
      if (8 <=? size) && (size <=? zlen data) then
        let content := ztake (size - 8) (zdrop 8 data) in
        match parse_boxes fuel' (zdrop size data) with
        | Some bs => Some ((ztake 4 (zdrop 4 data), content) :: bs)
        | None => None
        end
      else None
  end.

(** The content of the first box of a type. *)
Definition find_box (ty : bytes) (bs : list mp4_box) : option bytes :=
  match filter (fun b => fst b = ty) bs with
  | b :: _ => Some (snd b)
  | [] => None
  end.

(** ** Facts about boxes *)

Lemma wrap_box_done ty content :
  8 + zlen content <= u32_max -> wrap_box ty content = Done (box_bytes (ty, content)).
Proof.
  intros H. pose proof (zlen_nonneg content). unfold wrap_box, add_u32.
  rewrite as_u32_small by (unfold is_u32; lia). by rewrite checked_done by lia.
Qed.

Lemma zlen_box_bytes b : wf_box b -> zlen (box_bytes b) = box_size b.
Proof. intros [Ht _]. unfold box_bytes, box_size. zlia. Qed.

Lemma box_size_range b : wf_box b -> 8 <= box_size b <= u32_max.
Proof. intros [_ H]. unfold box_size in *. zlia. Qed.

Lemma boxes_bytes_cons b bs : boxes_bytes (b :: bs) = box_bytes b ++ boxes_bytes bs.
Proof. done. Qed.

Lemma boxes_bytes_app bs bs' : boxes_bytes (bs ++ bs') = boxes_bytes bs ++ boxes_bytes bs'.
Proof. unfold boxes_bytes. by rewrite map_app, concat_app. Qed.

Lemma boxes_bytes_single b : boxes_bytes [b] = box_bytes b.
Proof. unfold boxes_bytes. cbn. by rewrite app_nil_r. Qed.

Lemma boxes_bytes_pair a b : boxes_bytes [a; b] = box_bytes a ++ box_bytes b.
Proof. by rewrite boxes_bytes_cons, boxes_bytes_single. Qed.

Lemma box_header_at l b k i : wf_box b -> i = zlen l ->
  be32_at (l ++ box_bytes b ++ k) i = Done (box_size b).
Proof.
  intros Hwf ->. unfold box_bytes. rewrite <- !app_assoc. apply be32_at_mid; [|done].
  pose proof (box_size_range b Hwf). unfold is_u32, box_size in *. lia.
Qed.

Lemma box_type_at l b k i j : wf_box b -> i = zlen l + 4 -> j = zlen l + 8 ->
  slice (l ++ box_bytes b ++ k) i j = Done (fst b).
Proof.
  intros [Ht _] -> ->. unfold box_bytes. rewrite <- !app_assoc, (app_assoc l).
  apply slice_app_mid; zlia.
Qed.

Lemma box_at l b k i j : wf_box b -> i = zlen l -> j = zlen l + box_size b ->
  slice (l ++ box_bytes b ++ k) i j = Done (box_bytes b).
Proof. intros Hwf -> ->. apply slice_app_mid; rewrite ?zlen_box_bytes; done. Qed.

Lemma length_boxes_bytes bs : Forall wf_box bs -> (length bs <= length (boxes_bytes bs))%nat.
Proof.
  induction 1 as [|b bs Hb _ IH]; [done|].
  rewrite boxes_bytes_cons, length_app. pose proof (box_size_range b Hb).
  pose proof (zlen_box_bytes b Hb) as Hz. unfold zlen in Hz at 1. cbn [length]. lia.
Qed.

Lemma parse_boxes_roundtrip bs fuel :
  Forall wf_box bs -> (length bs <= fuel)%nat ->
  parse_boxes fuel (boxes_bytes bs) = Some bs.
Proof.
  intros Hwf. revert fuel. induction Hwf as [|b bs Hb _ IH]; intros fuel Hf; [by destruct fuel|].
  cbn [length] in Hf. destruct fuel as [|fuel]; [lia|].
  rewrite boxes_bytes_cons. pose proof (box_size_range b Hb).
  pose proof (zlen_box_bytes b Hb) as Hlen.
  destruct (box_bytes b ++ boxes_bytes bs) as [|x data] eqn:E.
  { apply (f_equal zlen) in E. rewrite zlen_app, Hlen in E. rewrite zlen_nil in E. zlia. }
  cbn [parse_boxes]. rewrite <- E. clear x data E.
  assert (Hsize : be_val (ztake 4 (box_bytes b ++ boxes_bytes bs)) = box_size b).
  { unfold box_bytes at 1. rewrite <- app_assoc.
    rewrite ztake_app_eq by (by rewrite zlen_be_bytes). apply be_val_be_bytes_u32. unfold is_u32, box_size in *. lia. }
  rewrite Hsize.
  replace ((8 <=? box_size b) && (box_size b <=? zlen (box_bytes b ++ boxes_bytes bs))) with true
    by (symmetry; rewrite andb_true_iff, !Z.leb_le, zlen_app; zlia).
  rewrite <- Hlen, zdrop_app_exact, IH by lia. rewrite Hlen. do 2 f_equal.
  destruct b as [ty c], Hb as [Ht _]. unfold box_bytes, box_size in *. cbn [fst snd] in *.
  rewrite <- !app_assoc. f_equal.
  - rewrite (zdrop_app_eq 4), (ztake_app_eq 4); [done|lia|by rewrite zlen_be_bytes].
  - rewrite (app_assoc _ ty), (zdrop_app_eq 8), ztake_app_eq; [done|lia|zlia].
Qed.

(** With the length of the data as fuel. *)
Lemma parse_boxes_bytes bs :
  Forall wf_box bs -> parse_boxes (length (boxes_bytes bs)) (boxes_bytes bs) = Some bs.
Proof. intros H. apply parse_boxes_roundtrip; [done|]. by apply length_boxes_bytes. Qed.

(** ** Facts about scanning *)

Section Scan.
Context {S R : Type} (data : bytes) (limit : Z).
Context (body : S -> Z -> Z -> rstring -> exec (step S R)) (fin : S -> exec R).

(** A scan over arbitrary bytes ends: if the body neither panics nor runs out
    of fuel on boxes that lie inside the data, neither does the scan. *)
Lemma scan_boxes_returns (Inv : Z -> S -> Prop) (Q : R -> Prop) cursor s :
  0 <= cursor -> limit <= zlen data -> Forall is_byte data -> Inv cursor s ->
  (forall s c size ty, Inv c s -> 0 <= c -> 8 <= size -> c + size <= limit ->
     returns (body s c size ty) (fun x => match x with Continue s' => Inv (c + size) s' | Break r => Q r end)) ->
  (forall c s, Inv c s -> returns (fin s) Q) ->
  returns (scan_boxes data limit body fin cursor s) Q.
Proof using Type.
  intros Hc Hl Hb Hs Hbody Hfin. unfold scan_boxes.
  apply (loop_returns _ (fun '(c, s) => 0 <= c /\ Inv c s)
    (fun '(c, s) => Z.to_nat (Z.max 0 (zlen data - c)))); [|done|].
  2:{ unfold zlen. lia. }
  intros [c s'] [Hc0 Hs']. unfold scan_step.
  assert (Hleave : returns (let! r := fin s' in Done (Break (S := Z * S) r))
    (fun x => match x with
      | Continue s'' => (let '(c0, s0) := s'' in 0 <= c0 /\ Inv c0 s0) /\
          ((let '(c0, _) := s'' in Z.to_nat (Z.max 0 (zlen data - c0)))
            < Z.to_nat (Z.max 0 (zlen data - c)))%nat
      | Break r => Q r end)).
  { destruct (Hfin c s' Hs') as (r & -> & Hr). by eexists. }
  destruct (Z.ltb_spec limit (c + 8)); [done|].
  destruct (be32_at_returns data c Hb Hc0) as (size & -> & _); [lia|]. cbn [exec_bind].
  case_match eqn:E; [done|]. reflect_bools.
  destruct (slice_returns data (c + 4) (c + 8)) as (ty & -> & _); [lia|lia|]. cbn [exec_bind].
  destruct (Hbody s' c size (from_utf8_lossy ty) Hs') as (x & -> & Hx); try lia. cbn [exec_bind].
  destruct x as [s''|r]; eexists; (split; [done|]); [|done].
  split; [split; [lia|done]|]. lia.
Qed.

(** One round of the loop over well-formed boxes. *)
Lemma scan_step_box l b k s :
  data = l ++ box_bytes b ++ k -> wf_box b -> zlen l + box_size b <= limit ->
  scan_step data limit body fin (zlen l, s) =
    (let! next := body s (zlen l) (box_size b) (from_utf8_lossy (fst b)) in
     match next with
     | Continue s' => Done (Continue (zlen l + box_size b, s'))
     | Break r => Done (Break r)
     end).
Proof using Type.
  intros Hd Hb Hle. pose proof (box_size_range b Hb). unfold scan_step.
  destruct (Z.ltb_spec limit (zlen l + 8)); [lia|].
  rewrite Hd, box_header_at by done. cbn [exec_bind].
  replace ((box_size b <? 8) || (limit <? zlen l + box_size b)) with false
    by (symmetry; rewrite orb_false_iff, !Z.ltb_ge; lia).
  by rewrite box_type_at by done.
Qed.

Lemma scan_step_end s cursor :
  limit - 8 < cursor -> scan_step data limit body fin (cursor, s) = (let! r := fin s in Done (Break r)).
Proof using Type. intros. unfold scan_step. by destruct (Z.ltb_spec limit (cursor + 8)); [|lia]. Qed.
End Scan.

(** Scanning the encoding of a list of boxes is folding the body over them.
    [body'] is what the body does with a box at an offset, whatever surrounds
    it; what follows the boxes lies beyond the limit. *)
Fixpoint fold_boxes {S R} (body' : S -> Z -> mp4_box -> exec (step S R)) (fin : S -> exec R)
    (off : Z) (bs : list mp4_box) (s : S) : exec R :=
  match bs with
  | [] => fin s
  | b :: bs' =>
      let! next := body' s off b in
      match next with
      | Continue s' => fold_boxes body' fin (off + box_size b) bs' s'
      | Break r => Done r
      end
  end.

Section ScanLists.
Context {S R : Type} (data : bytes) (limit : Z).
Context (body : S -> Z -> Z -> rstring -> exec (step S R)) (fin : S -> exec R).
Context (body' : S -> Z -> mp4_box -> exec (step S R)).

Lemma loop_boxes_fold fuel bs pre post s :
  data = pre ++ boxes_bytes bs ++ post -> limit = zlen pre + zlen (boxes_bytes bs) ->
  Forall wf_box bs ->
  (forall s l b k, data = l ++ box_bytes b ++ k -> b ∈ bs ->
     body s (zlen l) (box_size b) (from_utf8_lossy (fst b)) = body' s (zlen l) b) ->
  (length bs < fuel)%nat ->
  loop fuel (scan_step data limit body fin) (zlen pre, s) = fold_boxes body' fin (zlen pre) bs s.
Proof using Type.
  revert bs pre s. induction fuel as [|fuel IH]; intros bs pre s Hd Hlim Hwf Hbody Hf; [lia|].
  cbn [loop]. destruct bs as [|b bs].
  - rewrite scan_step_end; [|cbn in Hlim; rewrite zlen_nil in Hlim; lia]. cbn.
    by destruct (fin s).
  - cbn [length] in Hf. apply list.Forall_cons in Hwf as [Hb Hwf]. rewrite boxes_bytes_cons in *.
    rewrite <- app_assoc in Hd. rewrite zlen_app, zlen_box_bytes in Hlim by done.
    rewrite (scan_step_box _ _ _ _ pre b (boxes_bytes bs ++ post)) by (done || zlia).
    rewrite (Hbody s pre b (boxes_bytes bs ++ post) Hd) by left. cbn [fold_boxes].
    destruct (body' s (zlen pre) b) as [[s'|r]| |]; cbn [exec_bind]; try done.
    replace (zlen pre + box_size b) with (zlen (pre ++ box_bytes b))
      by (rewrite zlen_app, zlen_box_bytes; done).
    apply IH; [by rewrite <- app_assoc| |done| |lia].
    + rewrite zlen_app, zlen_box_bytes by done. lia.
    + intros s0 l b0 k Hd0 Hin. apply (Hbody s0 l b0 k Hd0). by right.
Qed.

Lemma scan_boxes_fold bs pre post s :
  data = pre ++ boxes_bytes bs ++ post -> limit = zlen pre + zlen (boxes_bytes bs) ->
  Forall wf_box bs ->
  (forall s l b k, data = l ++ box_bytes b ++ k -> b ∈ bs ->
     body s (zlen l) (box_size b) (from_utf8_lossy (fst b)) = body' s (zlen l) b) ->
  scan_boxes data limit body fin (zlen pre) s = fold_boxes body' fin (zlen pre) bs s.
Proof using Type.
  intros Hd Hlim Hwf Hbody. unfold scan_boxes. eapply loop_boxes_fold; try done.
  rewrite Hd, !length_app. pose proof (length_boxes_bytes bs Hwf). lia.
Qed.

(** A search: the boxes before the hit let the loop go on, the hit breaks it. *)
Lemma scan_boxes_find skipped b pre post s r :
  data = pre ++ boxes_bytes skipped ++ box_bytes b ++ post ->
  zlen pre + zlen (boxes_bytes skipped) + box_size b <= limit ->
  Forall wf_box skipped -> wf_box b ->
  (forall l c k, data = l ++ box_bytes c ++ k -> c ∈ skipped ->
     body s (zlen l) (box_size c) (from_utf8_lossy (fst c)) = Done (Continue s)) ->
  (forall l k, data = l ++ box_bytes b ++ k -> zlen l = zlen pre + zlen (boxes_bytes skipped) ->
     body s (zlen l) (box_size b) (from_utf8_lossy (fst b)) = Done (Break r)) ->
  scan_boxes data limit body fin (zlen pre) s = Done r.
Proof using Type.
  intros Hd Hlim Hwf Hb Hskip Hhit. unfold scan_boxes.
  assert (Hfuel : (length skipped < Datatypes.S (length data))%nat).
  { rewrite Hd, !length_app. pose proof (length_boxes_bytes skipped Hwf). lia. }
  revert Hfuel. generalize (Datatypes.S (length data)) as fuel. intros fuel Hfuel.
  revert fuel pre Hd Hlim Hhit Hfuel. induction Hwf as [|c skipped Hc Hwf IH];
    intros fuel pre Hd Hlim Hhit Hfuel; (destruct fuel as [|fuel]; [cbn in Hfuel; lia|]); cbn [loop].
  - cbn in Hd. change (zlen (boxes_bytes [])) with 0 in *.
    rewrite (scan_step_box _ _ _ _ pre b post) by (done || lia).
    rewrite (Hhit pre post) by (done || lia). done.
  - rewrite boxes_bytes_cons in *. rewrite <- app_assoc in Hd. rewrite zlen_app, zlen_box_bytes in * by done.
    pose proof (box_size_range c Hc). pose proof (box_size_range b Hb).
    rewrite (scan_step_box _ _ _ _ pre c (boxes_bytes skipped ++ box_bytes b ++ post))
      by (done || zlia).
    rewrite (Hskip pre c (boxes_bytes skipped ++ box_bytes b ++ post) Hd) by left.
    cbn [exec_bind].
    replace (zlen pre + box_size c) with (zlen (pre ++ box_bytes c))
      by (rewrite zlen_app, zlen_box_bytes; done).
    apply IH.
    + intros l c' k Hl Hin. apply (Hskip l c' k Hl). by right.
    + by rewrite <- app_assoc.
    + rewrite zlen_app, zlen_box_bytes by done. lia.
    + intros l k Hl Hz. apply (Hhit l k Hl). rewrite Hz, zlen_app, zlen_box_bytes by done. lia.
    + cbn [length] in Hfuel. lia.
Qed.

(** Only boxes that let the loop go on: the scan runs to the end. *)
Lemma scan_boxes_none bs pre post s :
  data = pre ++ boxes_bytes bs ++ post -> limit = zlen pre + zlen (boxes_bytes bs) ->
  Forall wf_box bs ->
  (forall l c k, data = l ++ box_bytes c ++ k -> c ∈ bs ->
     body s (zlen l) (box_size c) (from_utf8_lossy (fst c)) = Done (Continue s)) ->
  scan_boxes data limit body fin (zlen pre) s = fin s.
Proof using Type.
  intros Hd Hlim Hwf Hskip. unfold scan_boxes.
  assert (Hfuel : (length bs < Datatypes.S (length data))%nat).
  { rewrite Hd, !length_app. pose proof (length_boxes_bytes bs Hwf). lia. }
  revert Hfuel. generalize (Datatypes.S (length data)) as fuel. intros fuel Hfuel.
  revert fuel pre Hd Hlim Hfuel. induction Hwf as [|c bs Hc Hwf IH];
    intros fuel pre Hd Hlim Hfuel; (destruct fuel as [|fuel]; [cbn in Hfuel; lia|]); cbn [loop].
  - rewrite scan_step_end; [|cbn in Hlim; rewrite zlen_nil in Hlim; lia]. cbn. by destruct (fin s).
  - rewrite boxes_bytes_cons in *. rewrite <- app_assoc in Hd. rewrite zlen_app, zlen_box_bytes in Hlim by done.
    rewrite (scan_step_box _ _ _ _ pre c (boxes_bytes bs ++ post)) by (done || zlia).
    rewrite (Hskip pre c (boxes_bytes bs ++ post) Hd) by left. cbn [exec_bind].
    replace (zlen pre + box_size c) with (zlen (pre ++ box_bytes c))
      by (rewrite zlen_app, zlen_box_bytes; done).
    apply IH.
    + intros l c' k Hl Hin. apply (Hskip l c' k Hl). by right.
    + by rewrite <- app_assoc.
    + rewrite zlen_app, zlen_box_bytes by done. lia.
    + cbn [length] in Hfuel. lia.
Qed.
End ScanLists.

(** ** Concrete boxes *)

(** Facts about concrete boxes, by evaluation; [t] opens further predicates. *)
Ltac box_demo_with t :=
  repeat lazymatch goal with
  | |- _ /\ _ => split
  | |- True => exact I
  | |- _ = _ => vm_compute; reflexivity
  | |- _ <= _ => vm_compute; discriminate
  | |- _ < _ => vm_compute; reflexivity
  | |- _ <> _ => vm_compute; discriminate
  | |- Forall _ [] => apply List.Forall_nil
  | |- Forall _ (_ :: _) => apply List.Forall_cons
  | |- Forall ?P ?l => let l' := eval vm_compute in l in change (Forall P l')
  | |- wf_box _ => split
  | |- is_u32 _ => split
  | |- is_byte _ => split
  | |- _ => progress t
  end.
