(* ===== verification/SampleTable.v ===== *)
(** * Sample tables of an MP4 track

    Models the [SampleTable] part of [core/src/media/mp4_parser.rs]: the
    parsers of the [stsz], [stts], [stsc], [stco], [co64], [stss] and [ctts]
    boxes, and [SampleTable::resolve_sample_offsets], which combines them into
    one entry per sample. *)

From S2P Require Import Prelude Rust.

#[local] Open Scope Z_scope.

(** ** Data *)

Record SampleTable : Type := {
  sample_sizes : list Z;
  time_to_sample : list (Z * Z);
  sample_to_chunk : list (Z * Z * Z);
  chunk_offsets : list Z;
  sync_samples : list Z;
  composition_offsets : list (Z * Z);
}.

(** [SampleTable::default()]. *)
Definition default_table : SampleTable := {|
  sample_sizes := [];
  time_to_sample := [];
  sample_to_chunk := [];
  chunk_offsets := [];
  sync_samples := [];
  composition_offsets := [];
|}.

Record SampleEntry : Type := {
  offset : Z;
  size : Z;
  duration : Z;
  is_keyframe : bool;
  composition_offset : Z;
}.

Definition set_duration (e : SampleEntry) (d : Z) : SampleEntry :=
  {| offset := offset e; size := size e; duration := d;
     is_keyframe := is_keyframe e; composition_offset := composition_offset e |}.
Definition set_keyframe (e : SampleEntry) : SampleEntry :=
  {| offset := offset e; size := size e; duration := duration e;
     is_keyframe := true; composition_offset := composition_offset e |}.
Definition set_composition (e : SampleEntry) (c : Z) : SampleEntry :=
  {| offset := offset e; size := size e; duration := duration e;
     is_keyframe := is_keyframe e; composition_offset := c |}.

(** ** The table boxes

    Every table parser runs the same loop: [count] times, stop when the next
    entry would pass the end of the data, read it, advance. *)

Definition read_entries {T} (read : Z -> exec T) (stride : Z) (data : bytes) (count start : Z)
  : exec (list T) :=
  let! st := for_range (Z.to_nat count)
    (fun '(pos, acc) =>
       if zlen data <? pos + stride then Done (Break (pos, acc))
       else let! x := read pos in Done (Continue (pos + stride, acc ++ [x])))
    (start, []) in
  Done (snd st).

Definition parse_stsz (data : bytes) : exec (list Z) :=
  if zlen data <? 12 then Done []
  else
    let! default_size := be32_at data 4 in
    let! count := be32_at data 8 in
    if negb (default_size =? 0) then Done (replicate (Z.to_nat count) default_size)
    else read_entries (be32_at data) 4 data count 12.

Definition parse_stts (data : bytes) : exec (list (Z * Z)) :=
  if zlen data <? 8 then Done []
  else
    let! count := be32_at data 4 in
    read_entries (fun pos =>
      let! sample_count := be32_at data pos in
      let! sample_delta := be32_at data (pos + 4) in
      Done (sample_count, sample_delta)) 8 data count 8.

Definition parse_stsc (data : bytes) : exec (list (Z * Z * Z)) :=
  if zlen data <? 8 then Done []
  else
    let! count := be32_at data 4 in
    read_entries (fun pos =>
      let! first_chunk := be32_at data pos in
      let! samples_per_chunk := be32_at data (pos + 4) in
      let! desc_idx := be32_at data (pos + 8) in
      Done (first_chunk, samples_per_chunk, desc_idx)) 12 data count 8.

Definition parse_stco (data : bytes) : exec (list Z) :=
  if zlen data <? 8 then Done []
  else
    let! count := be32_at data 4 in
    read_entries (be32_at data) 4 data count 8.

Definition parse_co64 (data : bytes) : exec (list Z) :=
  if zlen data <? 8 then Done []
  else
    let! count := be32_at data 4 in
    read_entries (be64_at data) 8 data count 8.

Definition parse_stss (data : bytes) : exec (list Z) :=
  if zlen data <? 8 then Done []
  else
    let! count := be32_at data 4 in
    read_entries (be32_at data) 4 data count 8.

Definition parse_ctts (data : bytes) : exec (list (Z * Z)) :=
  if zlen data <? 8 then Done []
  else
    let! count := be32_at data 4 in
    read_entries (fun pos =>
      let! sample_count := be32_at data pos in
      let! sample_offset := be32_at data (pos + 4) in
      Done (sample_count, as_i32 sample_offset)) 8 data count 8.

(** ** Resolving sample offsets *)

Definition enumerate {A} (l : list A) : list (Z * A) := zip (seqZ 0 (zlen l)) l.

(** [for item in &mut l[start..end] { *item = v }]. *)
Definition fill (l : list Z) (start end_ v : Z) : exec (list Z) :=
  if (0 <=? start) && (start <=? end_) && (end_ <=? zlen l) then
    Done (ztake start l ++ replicate (Z.to_nat (end_ - start)) v ++ zdrop end_ l)
  else Panic.

(** The [stsc] run lengths expanded to one count per chunk. *)
Fixpoint expand_stsc (stsc : list (Z * Z * Z)) (num_chunks : Z) (samples_per_chunk : list Z)
  : exec (list Z) :=
  match stsc with
  | [] => Done samples_per_chunk
  | (first_chunk, spc, _) :: rest =>
      let! start := sub_u32 first_chunk 1 in
      let! end_ := match rest with
                   | (next_first, _, _) :: _ => sub_u32 next_first 1
                   | [] => Done num_chunks
                   end in
      let! filled := fill samples_per_chunk start (Z.min end_ num_chunks) spc in
      expand_stsc rest num_chunks filled
  end.

(** The samples of one chunk, laid out one after the other. *)
Definition place_chunk (sizes : list Z) (chunk_offset spc : Z)
    (st : Z * list SampleEntry) : exec (Z * list SampleEntry) :=
  let! st' := for_range (Z.to_nat spc)
    (fun '(sample_idx, offset_in_chunk, entries) =>
       if zlen sizes <=? sample_idx then Done (Break (sample_idx, offset_in_chunk, entries))
       else
         let! sz := index sizes sample_idx in
         let! off := add_u64 chunk_offset offset_in_chunk in
         let! offset_in_chunk' := add_u64 offset_in_chunk sz in
         Done (Continue (sample_idx + 1, offset_in_chunk',
           entries ++ [{| offset := off; size := sz; duration := 0;
                          is_keyframe := false; composition_offset := 0 |}])))
    (fst st, 0, snd st) in
  let '(sample_idx, _, entries) := st' in Done (sample_idx, entries).

Definition place_samples (sizes chunks samples_per_chunk : list Z) : exec (list SampleEntry) :=
  let! st := for_each
    (fun st '(chunk_idx, chunk_offset) =>
       let! spc := index samples_per_chunk chunk_idx in
       place_chunk sizes chunk_offset spc st)
    (enumerate chunks) (0, []) in
  Done (snd st).

(** Run-length encoded values assigned to consecutive entries. *)
Definition assign_runs (upd : SampleEntry -> Z -> SampleEntry) (runs : list (Z * Z))
    (entries : list SampleEntry) : exec (list SampleEntry) :=
  let! st := for_each
    (fun st '(count, v) =>
       for_range (Z.to_nat count)
         (fun '(sample_idx, entries) =>
            if zlen entries <=? sample_idx then Done (Break (sample_idx, entries))
            else
              let! e := index entries sample_idx in
              let! entries' := set_index entries sample_idx (upd e v) in
              Done (Continue (sample_idx + 1, entries')))
         st)
    runs (0, entries) in
  Done (snd st).

Definition mark_keyframes (sync : list Z) (entries : list SampleEntry)
  : exec (list SampleEntry) :=
  match sync with
  | [] => Done (map set_keyframe entries)
  | _ => for_each (fun entries sync_sample =>
           let! idx := sub_u32 sync_sample 1 in
           if idx <? zlen entries then
             let! e := index entries idx in
             set_index entries idx (set_keyframe e)
           else Done entries) sync entries
  end.

Definition resolve_sample_offsets (st : SampleTable) : exec (list SampleEntry) :=
  match sample_sizes st with
  | [] => Done []
  | _ =>
      let num_chunks := zlen (chunk_offsets st) in
      let! samples_per_chunk :=
        expand_stsc (sample_to_chunk st) num_chunks (replicate (Z.to_nat num_chunks) 0) in
      let! entries := place_samples (sample_sizes st) (chunk_offsets st) samples_per_chunk in
      let! entries := assign_runs set_duration (time_to_sample st) entries in
      let! entries := mark_keyframes (sync_samples st) entries in
      match composition_offsets st with
      | [] => Done entries
      | ctts => assign_runs set_composition ctts entries
      end
  end.

(** ** Reference definitions

    What the tables mean, stated without loops over cursors. *)

(** The value list a run-length table stands for. *)
Definition expand_runs (runs : list (Z * Z)) : list Z :=
  concat (map (fun '(count, v) => replicate (Z.to_nat count) v) runs).

(** The first entries take the given values, the others keep theirs. *)
Fixpoint overlay (upd : SampleEntry -> Z -> SampleEntry) (es : list SampleEntry) (vs : list Z)
  : list SampleEntry :=
  match es, vs with
  | e :: es', v :: vs' => upd e v :: overlay upd es' vs'
  | _, _ => es
  end.

(** The number of samples in 1-based chunk [c]: that of the last [stsc] entry
    whose first chunk is not after [c]. *)
Fixpoint samples_in_chunk (stsc : list (Z * Z * Z)) (c default : Z) : Z :=
  match stsc with
  | [] => default
  | (first_chunk, spc, _) :: rest =>
      samples_in_chunk rest c (if first_chunk <=? c then spc else default)
  end.

Definition blank_entry (off sz : Z) : SampleEntry :=
  {| offset := off; size := sz; duration := 0; is_keyframe := false; composition_offset := 0 |}.

(** Samples back to back from [base]. *)
Fixpoint run_layout (base : Z) (sizes : list Z) : list SampleEntry :=
  match sizes with
  | [] => []
  | sz :: sizes' => blank_entry base sz :: run_layout (base + sz) sizes'
  end.

Fixpoint layout (chunks : list (Z * Z)) (sizes : list Z) : list SampleEntry :=
  match chunks with
  | [] => []
  | (off, spc) :: chunks' =>
      run_layout off (take (Z.to_nat spc) sizes) ++ layout chunks' (drop (Z.to_nat spc) sizes)
  end.

(** An [stsc] table the code accepts: 1-based first chunks, in order, none
    more than one past the chunks there are. *)
Fixpoint stsc_ok (num_chunks : Z) (stsc : list (Z * Z * Z)) : Prop :=
  match stsc with
  | [] => True
  | (first_chunk, _, _) :: rest =>
      1 <= first_chunk /\ first_chunk <= num_chunks + 1 /\
      match rest with (next_first, _, _) :: _ => first_chunk <= next_first | [] => True end /\
      stsc_ok num_chunks rest
  end.

Definition sum_sizes (sizes : list Z) : Z := fold_right Z.add 0 sizes.

(** A whole table the code accepts. *)
Definition table_ok (st : SampleTable) : Prop :=
  stsc_ok (zlen (chunk_offsets st)) (sample_to_chunk st) /\
  Forall (fun s => 0 <= s) (sample_sizes st) /\
  Forall (fun off => 0 <= off /\ off + sum_sizes (sample_sizes st) <= u64_max) (chunk_offsets st) /\
  Forall (fun s => 1 <= s <= u32_max) (sync_samples st).

Definition chunk_counts (st : SampleTable) : list Z :=
  map (fun c => samples_in_chunk (sample_to_chunk st) (c + 1) 0)
      (seqZ 0 (zlen (chunk_offsets st))).

Definition sync_flag (sync : list Z) (i : nat) (e : SampleEntry) : SampleEntry :=
  if bool_decide (sync = [] \/ Z.of_nat i + 1 ∈ sync) then set_keyframe e else e.

Definition resolve_reference (st : SampleTable) : list SampleEntry :=
  overlay set_composition
    (imap (sync_flag (sync_samples st))
      (overlay set_duration
        (layout (zip (chunk_offsets st) (chunk_counts st)) (sample_sizes st))
        (expand_runs (time_to_sample st))))
    (expand_runs (composition_offsets st)).

(** The boxes as a writer produces them: a version-and-flags word, an entry
    count, the entries. *)
Definition table_box {T} (enc : T -> bytes) (xs : list T) : bytes :=
  be_bytes 4 0 ++ be_bytes 4 (zlen xs) ++ concat (map enc xs).

Definition enc_pair (x : Z * Z) : bytes := be_bytes 4 (fst x) ++ be_bytes 4 (snd x).
Definition enc_triple (x : Z * Z * Z) : bytes :=
  be_bytes 4 (fst (fst x)) ++ be_bytes 4 (snd (fst x)) ++ be_bytes 4 (snd x).

(** The unit test of the source: two chunks of two samples each. *)
Example resolve_basic :
  resolve_sample_offsets {|
    sample_sizes := [100; 200; 150; 250]; time_to_sample := [(4, 1000)];
    sample_to_chunk := [(1, 2, 1)]; chunk_offsets := [1000; 2000];
    sync_samples := [1; 3]; composition_offsets := [(2, 500)] |}
  = Done [
      {| offset := 1000; size := 100; duration := 1000; is_keyframe := true; composition_offset := 500 |};
      {| offset := 1100; size := 200; duration := 1000; is_keyframe := false; composition_offset := 500 |};
      {| offset := 2000; size := 150; duration := 1000; is_keyframe := true; composition_offset := 0 |};
      {| offset := 2150; size := 250; duration := 1000; is_keyframe := false; composition_offset := 0 |}].
Proof. reflexivity. Qed.

(** ** Table parsers *)

Lemma read_entries_app {T} (read : Z -> exec T) (enc : T -> bytes) stride data pre rest xs acc n :
  data = pre ++ concat (map enc xs) ++ rest ->
  n = length xs ->
  (forall x, x ∈ xs -> zlen (enc x) = stride) ->
  (forall l x k, x ∈ xs -> data = l ++ enc x ++ k -> read (zlen l) = Done x) ->
  for_range n
    (fun '(pos, acc) =>
       if zlen data <? pos + stride then Done (Break (pos, acc))
       else let! x := read pos in Done (Continue (pos + stride, acc ++ [x])))
    (zlen pre, acc)
  = Done (zlen pre + stride * zlen xs, acc ++ xs).
Proof.
  intros Hd -> Hs Hr. revert pre acc Hd.
  induction xs as [|x xs IH]; intros pre acc Hd.
  - cbn. rewrite zlen_nil, app_nil_r. do 2 f_equal. lia.
  - cbn [length for_range]. cbn [map concat] in Hd.
    assert (Hx : zlen (enc x) = stride) by (apply Hs; left).
    destruct (Z.ltb_spec (zlen data) (zlen pre + stride)).
    { subst data. zlia. }
    rewrite (Hr pre x (concat (map enc xs) ++ rest)); [|left|by rewrite Hd, <- app_assoc].
    cbn [exec_bind]. rewrite <- Hx, <- zlen_app. rewrite Hx.
    rewrite IH.
    + rewrite <- app_assoc. cbn [app]. f_equal. f_equal. zlia.
    + intros y Hy. apply Hs. by right.
    + intros l y k Hy. apply Hr. by right.
    + rewrite Hd. by rewrite <- !app_assoc.
Qed.

Section TableBox.
Context {T : Type} (enc : T -> bytes) (stride : Z) (xs : list T) (rest : bytes).
Hypothesis enc_len : forall x, x ∈ xs -> zlen (enc x) = stride.
Hypothesis count_u32 : zlen xs <= u32_max.

Lemma table_box_count : be32_at (table_box enc xs ++ rest) 4 = Done (zlen xs).
Proof using count_u32.
  unfold table_box. rewrite <- !app_assoc. rewrite be32_at_mid; [done| |by rewrite zlen_be_bytes].
  unfold is_u32. pose proof (zlen_nonneg xs). lia.
Qed.

Lemma table_box_long : (zlen (table_box enc xs ++ rest) <? 8) = false.
Proof. apply Z.ltb_ge. unfold table_box. zlia. Qed.

Lemma read_table_box (read : Z -> exec T) :
  (forall l x k, x ∈ xs -> table_box enc xs ++ rest = l ++ enc x ++ k -> read (zlen l) = Done x) ->
  read_entries read stride (table_box enc xs ++ rest) (zlen xs) 8 = Done xs.
Proof using enc_len.
  intros Hr. unfold read_entries. unfold zlen at 1. rewrite Nat2Z.id.
  assert (H8 : 8 = zlen (be_bytes 4 0 ++ be_bytes 4 (zlen xs))) by (by zlen_simpl).
  rewrite H8 at 1.
  rewrite (read_entries_app read enc stride _ _ rest xs []); done.
Qed.
End TableBox.

(** Reading fields out of an entry at a known place. *)
Lemma be32_at_field l x k m i :
  is_u32 x -> zlen l + zlen m = i -> be32_at (l ++ (m ++ be_bytes 4 x) ++ k) i = Done x.
Proof.
  intros Hx Hi. rewrite <- app_assoc. rewrite (app_assoc l m).
  apply be32_at_mid; [done|]. rewrite zlen_app. lia.
Qed.

Lemma parse_stts_box xs rest :
  Forall (fun x => is_u32 (fst x) /\ is_u32 (snd x)) xs -> zlen xs <= u32_max ->
  parse_stts (table_box enc_pair xs ++ rest) = Done xs.
Proof.
  intros Hxs Hn. unfold parse_stts. rewrite table_box_long, table_box_count by done.
  cbn [exec_bind]. apply read_table_box.
  - intros x _. unfold enc_pair. by zlen_simpl.
  - intros l [a b] k Hx Hd. rewrite list.Forall_forall in Hxs. destruct (Hxs _ Hx) as [Ha Hb].
    rewrite Hd. unfold enc_pair. cbn [fst snd] in *.
    rewrite <- app_assoc, be32_at_mid by done. cbn [exec_bind].
    rewrite app_assoc, be32_at_mid; [done|done|]. by zlen_simpl.
Qed.

Lemma parse_stsc_box xs rest :
  Forall (fun x => is_u32 (fst (fst x)) /\ is_u32 (snd (fst x)) /\ is_u32 (snd x)) xs ->
  zlen xs <= u32_max -> parse_stsc (table_box enc_triple xs ++ rest) = Done xs.
Proof.
  intros Hxs Hn. unfold parse_stsc. rewrite table_box_long, table_box_count by done.
  cbn [exec_bind]. apply read_table_box.
  - intros x _. unfold enc_triple. by zlen_simpl.
  - intros l [[a b] c] k Hx Hd. rewrite list.Forall_forall in Hxs. destruct (Hxs _ Hx) as (Ha & Hb & Hc).
    rewrite Hd. unfold enc_triple. cbn [fst snd] in *. rewrite <- !app_assoc.
    rewrite be32_at_mid by done. cbn [exec_bind].
    rewrite (app_assoc l), be32_at_mid by (done || by zlen_simpl). cbn [exec_bind].
    rewrite (app_assoc (l ++ _)), be32_at_mid; [done|done|]. zlia.
Qed.

Lemma parse_u32_box xs rest :
  Forall is_u32 xs -> zlen xs <= u32_max ->
  read_entries (be32_at (table_box (be_bytes 4) xs ++ rest)) 4
    (table_box (be_bytes 4) xs ++ rest) (zlen xs) 8 = Done xs.
Proof.
  intros Hxs Hn. apply read_table_box.
  - intros x _. by zlen_simpl.
  - intros l x k Hx Hd. rewrite list.Forall_forall in Hxs. rewrite Hd. by apply be32_at_mid; auto.
Qed.

Lemma parse_stco_box xs rest :
  Forall is_u32 xs -> zlen xs <= u32_max ->
  parse_stco (table_box (be_bytes 4) xs ++ rest) = Done xs.
Proof.
  intros. unfold parse_stco. rewrite table_box_long, table_box_count by done. by apply parse_u32_box.
Qed.

Lemma parse_stss_box xs rest :
  Forall is_u32 xs -> zlen xs <= u32_max ->
  parse_stss (table_box (be_bytes 4) xs ++ rest) = Done xs.
Proof.
  intros. unfold parse_stss. rewrite table_box_long, table_box_count by done. by apply parse_u32_box.
Qed.

Lemma parse_co64_box xs rest :
  Forall is_u64 xs -> zlen xs <= u32_max ->
  parse_co64 (table_box (be_bytes 8) xs ++ rest) = Done xs.
Proof.
  intros Hxs Hn. unfold parse_co64. rewrite table_box_long, table_box_count by done.
  cbn [exec_bind]. apply read_table_box.
  - intros x _. by zlen_simpl.
  - intros l x k Hx Hd. rewrite list.Forall_forall in Hxs. rewrite Hd. apply be64_at_mid; auto.
Qed.

Lemma parse_ctts_box xs rest :
  Forall (fun x => is_u32 (fst x) /\ - 2 ^ 31 <= snd x < 2 ^ 31) xs -> zlen xs <= u32_max ->
  parse_ctts (table_box enc_pair xs ++ rest) = Done xs.
Proof.
  intros Hxs Hn. unfold parse_ctts. rewrite table_box_long, table_box_count by done.
  cbn [exec_bind]. apply read_table_box.
  - intros x _. unfold enc_pair. by zlen_simpl.
  - intros l [a b] k Hx Hd. rewrite list.Forall_forall in Hxs. destruct (Hxs _ Hx) as [Ha Hb].
    rewrite Hd. unfold enc_pair. cbn [fst snd] in *.
    rewrite <- app_assoc, be32_at_mid by done. cbn [exec_bind].
    rewrite <- (be_bytes_mod 4 b). rewrite app_assoc, be32_at_mid; [|apply as_u32_range|by zlen_simpl].
    cbn [exec_bind]. do 2 f_equal. by apply as_i32_pattern.
Qed.

(** [stsz] as a writer produces it, with per-sample sizes. *)
Definition size_box (xs : list Z) : bytes :=
  be_bytes 4 0 ++ be_bytes 4 0 ++ be_bytes 4 (zlen xs) ++ concat (map (be_bytes 4) xs).

Lemma parse_stsz_box xs rest :
  Forall is_u32 xs -> zlen xs <= u32_max -> parse_stsz (size_box xs ++ rest) = Done xs.
Proof.
  intros Hxs Hn. unfold parse_stsz, size_box.
  destruct (Z.ltb_spec (zlen ((be_bytes 4 0 ++ be_bytes 4 0 ++ be_bytes 4 (zlen xs) ++
    concat (map (be_bytes 4) xs)) ++ rest)) 12); [zlia|].
  rewrite <- !app_assoc. rewrite (be32_at_mid (be_bytes 4 0)) by (done || by zlen_simpl).
  cbn [exec_bind].
  rewrite (app_assoc (be_bytes 4 0)), be32_at_mid; [| |by zlen_simpl].
  2:{ unfold is_u32. pose proof (zlen_nonneg xs). lia. }
  cbn [exec_bind negb Z.eqb]. unfold read_entries. unfold zlen at 1. rewrite Nat2Z.id.
  assert (H12 : 12 = zlen ((be_bytes 4 0 ++ be_bytes 4 0) ++ be_bytes 4 (zlen xs))) by (by zlen_simpl).
  rewrite H12 at 1.
  rewrite (read_entries_app _ (be_bytes 4) 4 _ _ rest xs []); try done.
  intros l x k Hx Hd. rewrite list.Forall_forall in Hxs. rewrite Hd. apply be32_at_mid; auto.
Qed.

(** No input makes the reading loop panic or run without end, and it returns
    no more entries than were announced or than fit in the data. *)
Lemma read_entries_returns {T} (read : Z -> exec T) stride data count start :
  0 < stride -> 0 <= start -> 0 <= count ->
  (forall pos, start <= pos -> pos + stride <= zlen data -> exists x, read pos = Done x) ->
  returns (read_entries read stride data count start)
    (fun xs => zlen xs <= count /\ stride * zlen xs <= Z.max 0 (zlen data - start)).
Proof.
  intros Hs Hst Hc Hr. unfold read_entries.
  assert (Hgen : forall n pos acc, start <= pos ->
    returns (for_range n (fun '(pos, acc) =>
       if zlen data <? pos + stride then Done (Break (pos, acc))
       else let! x := read pos in Done (Continue (pos + stride, acc ++ [x]))) (pos, acc))
    (fun st => zlen (snd st) <= zlen acc + Z.of_nat n /\
       (snd st = acc \/ pos + stride * (zlen (snd st) - zlen acc) <= zlen data))).
  { induction n as [|n IH]; intros pos acc Hpos; cbn [for_range].
    - eexists. split; [done|]. cbn. split; [lia|by left].
    - case_match eqn:E; cbn [exec_bind].
      + eexists. split; [done|]. cbn. split; [lia|by left].
      + apply Z.ltb_ge in E. destruct (Hr pos Hpos E) as [x ->]. cbn [exec_bind].
        destruct (IH (pos + stride) (acc ++ [x])) as (st & -> & H1 & H2); [lia|].
        eexists. split; [done|]. change (zlen [x]) with 1 in *. rewrite zlen_app in *.
        change (zlen [x]) with 1 in *. split; [lia|]. right.
        destruct H2 as [H2|H2]; [rewrite H2, zlen_app; change (zlen [x]) with 1; nia | nia]. }
  destruct (Hgen (Z.to_nat count) start [] ltac:(lia)) as (st & -> & H1 & H2).
  cbn [exec_bind]. eexists. split; [done|]. rewrite zlen_nil in *. split; [lia|].
  destruct H2 as [->|H2]; [rewrite zlen_nil; lia | lia].
Qed.

(** ** Samples per chunk *)

Lemma fill_lookup l a b v : 0 <= a <= b -> b <= zlen l ->
  exists l', fill l a b v = Done l' /\ zlen l' = zlen l /\
    forall c : nat, l' !! c =
      if (a <=? Z.of_nat c) && (Z.of_nat c <? b) then Some v else l !! c.
Proof.
  intros Hab Hb. unfold fill.
  replace ((0 <=? a) && (a <=? b) && (b <=? zlen l)) with true
    by (symmetry; rewrite !andb_true_iff, !Z.leb_le; lia).
  eexists. split; [done|]. split.
  - rewrite !zlen_app, zlen_ztake, zlen_zdrop by lia.
    unfold zlen at 1. rewrite length_replicate. lia.
  - intros c. unfold ztake, zdrop, zlen in *.
    destruct (Z.leb_spec a (Z.of_nat c)); cbn [andb].
    + rewrite lookup_app_r by (rewrite length_take; lia). rewrite length_take.
      destruct (Z.ltb_spec (Z.of_nat c) b).
      * rewrite lookup_app_l by (rewrite length_replicate; lia).
        apply lookup_replicate. split; [done | lia].
      * rewrite lookup_app_r by (rewrite length_replicate; lia).
        rewrite lookup_drop, length_replicate. f_equal. lia.
    + rewrite lookup_app_l by (rewrite length_take; lia). apply lookup_take_lt. lia.
Qed.

Lemma samples_in_chunk_head stsc c d d' :
  match stsc with (f, _, _) :: _ => f <= c | [] => False end ->
  samples_in_chunk stsc c d = samples_in_chunk stsc c d'.
Proof.
  destruct stsc as [|[[f s] i] rest]; [done|]. intros Hf. cbn.
  by destruct (Z.leb_spec f c); [|lia].
Qed.

Definition stsc_u32 (stsc : list (Z * Z * Z)) : Prop := Forall (fun x => is_u32 (fst (fst x))) stsc.

Lemma stsc_ok_u32 n stsc : n < u32_max -> stsc_ok n stsc -> stsc_u32 stsc.
Proof.
  intros Hn. induction stsc as [|[[f s] i] rest IH]; [constructor|].
  intros (H1 & H2 & _ & H4). constructor; [cbn; unfold is_u32; lia | by apply IH].
Qed.

Lemma sub_u32_done x : is_u32 x -> 1 <= x -> sub_u32 x 1 = Done (x - 1).
Proof. unfold is_u32. intros. apply checked_done. lia. Qed.

Lemma expand_stsc_lookup stsc n l :
  stsc_ok n stsc -> stsc_u32 stsc -> zlen l = n ->
  exists l', expand_stsc stsc n l = Done l' /\ zlen l' = n /\
    forall c x, l !! c = Some x -> l' !! c = Some (samples_in_chunk stsc (Z.of_nat c + 1) x).
Proof.
  revert l. induction stsc as [|[[f s] i] rest IH]; intros l Hok Hu Hl.
  - exists l. done.
  - cbn [stsc_ok] in Hok. destruct Hok as (H1 & H2 & H3 & H4).
    apply list.Forall_cons in Hu as [Hf Hu]. cbn [fst] in Hf.
    cbn [expand_stsc]. rewrite sub_u32_done by done. cbn [exec_bind].
    set (e := match rest with (f', _, _) :: _ => f' - 1 | [] => n end).
    assert (He : match rest with (f', _, _) :: _ => sub_u32 f' 1 | [] => Done n end = Done e).
    { destruct rest as [|[[f' s'] i'] rest']; [done|]. unfold e. apply sub_u32_done; [|lia].
      apply list.Forall_cons in Hu as [Hu _]. done. }
    rewrite He. cbn [exec_bind]. pose proof (zlen_nonneg l).
    assert (Hfe : f - 1 <= e) by (unfold e; destruct rest as [|[[f' s'] i'] rest']; lia).
    destruct (fill_lookup l (f - 1) (Z.min e n) s) as (l1 & -> & Hl1 & Hlk); [lia|lia|].
    cbn [exec_bind].
    destruct (IH l1 H4 Hu ltac:(lia)) as (l' & Hex & Hl' & Hres).
    exists l'. split; [done|]. split; [done|]. intros c x Hx.
    assert (Hc : Z.of_nat c < n).
    { apply lookup_lt_Some in Hx. unfold zlen in Hl. lia. }
    specialize (Hlk c). rewrite Hx in Hlk. cbn [samples_in_chunk].
    destruct (Z.leb_spec (f - 1) (Z.of_nat c)), (Z.ltb_spec (Z.of_nat c) (Z.min e n));
      cbn [andb] in Hlk; rewrite (Hres _ _ Hlk);
      destruct (Z.leb_spec f (Z.of_nat c + 1)); try lia; try done.
    f_equal. apply samples_in_chunk_head. unfold e in *.
    destruct rest as [|[[f' s'] i'] rest']; lia.
Qed.

Lemma expand_stsc_done stsc n :
  stsc_ok n stsc -> stsc_u32 stsc -> 0 <= n ->
  expand_stsc stsc n (replicate (Z.to_nat n) 0)
  = Done (map (fun c => samples_in_chunk stsc (c + 1) 0) (seqZ 0 n)).
Proof.
  intros Hok Hu Hn.
  assert (Hl : zlen (replicate (Z.to_nat n) 0) = n) by (unfold zlen; rewrite length_replicate; lia).
  destruct (expand_stsc_lookup stsc n _ Hok Hu Hl) as (l' & -> & Hl' & Hres).
  f_equal. apply list_eq. intros c.
  destruct (decide (c < Z.to_nat n)%nat) as [Hc|Hc].
  - rewrite (Hres c 0) by (by apply lookup_replicate). symmetry.
    change (map (fun c0 => samples_in_chunk stsc (c0 + 1) 0) (seqZ 0 n))
      with ((fun c0 => samples_in_chunk stsc (c0 + 1) 0) <$> seqZ 0 n).
    rewrite list_lookup_fmap, lookup_seqZ_lt by lia. done.
  - rewrite !lookup_ge_None_2; [done| |].
    + rewrite length_map, length_seqZ. lia.
    + unfold zlen in Hl'. lia.
Qed.

(** A table that is not accepted makes the code panic, and only such a one. *)
Lemma expand_stsc_panics stsc n l :
  stsc_u32 stsc -> zlen l = n -> expand_stsc stsc n l = Panic <-> ~ stsc_ok n stsc.
Proof.
  intros Hu Hl. split.
  { intros HP Hok. destruct (expand_stsc_lookup stsc n l Hok Hu Hl) as (l' & HD & _). congruence. }
  revert l Hl. induction stsc as [|[[f s] i] rest IH]; intros l Hl Hno; [by destruct Hno|].
  apply list.Forall_cons in Hu as [Hf Hu]. cbn [fst] in Hf. unfold is_u32 in Hf.
  cbn [expand_stsc]. unfold sub_u32 at 1.
  destruct (decide (1 <= f)); [|by rewrite checked_panic by lia].
  rewrite checked_done by lia. cbn [exec_bind].
  pose proof (zlen_nonneg l).
  destruct rest as [|[[f' s'] i'] rest'].
  - cbn [exec_bind expand_stsc]. unfold fill. rewrite Z.min_id.
    destruct (Z.leb_spec 0 (f - 1)), (Z.leb_spec (f - 1) n), (Z.leb_spec n (zlen l)); try done; try lia.
    destruct Hno. repeat split; lia.
  - pose proof Hu as Hu'. apply list.Forall_cons in Hu' as [Hf' _]. cbn [fst] in Hf'.
    unfold sub_u32 at 1. unfold is_u32 in Hf'.
    destruct (decide (1 <= f')); [|by rewrite checked_panic by lia].
    rewrite checked_done by lia. cbn [exec_bind].
    destruct (decide (f - 1 <= Z.min (f' - 1) n)) as [Hle|Hgt].
    + destruct (fill_lookup l (f - 1) (Z.min (f' - 1) n) s) as (lf & -> & Hlf & _); [lia|lia|].
      cbn [exec_bind]. apply IH; [done|lia|]. intros Hok. apply Hno.
      cbn [stsc_ok]. repeat split; try lia; apply Hok.
    + unfold fill. replace (f - 1 <=? Z.min (f' - 1) n) with false by (symmetry; apply Z.leb_gt; lia).
      by rewrite andb_false_r.
Qed.

(** ** Placing the samples *)

Lemma sum_sizes_cons x l : sum_sizes (x :: l) = x + sum_sizes l.
Proof. done. Qed.

Lemma sum_sizes_app l k : sum_sizes (l ++ k) = sum_sizes l + sum_sizes k.
Proof. induction l as [|x l IH]; [done|]. cbn [app]. rewrite !sum_sizes_cons, IH. lia. Qed.

Lemma sum_sizes_nonneg l : Forall (fun s => 0 <= s) l -> 0 <= sum_sizes l.
Proof. induction 1; [done|]. rewrite sum_sizes_cons. lia. Qed.

Lemma place_chunk_done sizes placed rest off spc acc :
  sizes = placed ++ rest -> Forall (fun s => 0 <= s) sizes ->
  0 <= off -> off + sum_sizes sizes <= u64_max -> 0 <= spc ->
  place_chunk sizes off spc (zlen placed, acc)
  = Done (zlen (placed ++ take (Z.to_nat spc) rest),
          acc ++ run_layout off (take (Z.to_nat spc) rest)).
Proof.
  intros Hs Hpos Hoff Hmax Hspc. unfold place_chunk. cbn [fst snd].
  match goal with |- (let! _ := for_range _ ?b _ in _) = _ => set (body := b) end.
  assert (Hgen : forall n before after inchunk acc,
    sizes = placed ++ before ++ after -> inchunk = sum_sizes before ->
    for_range n body (zlen (placed ++ before), inchunk, acc)
    = Done (zlen (placed ++ before ++ take n after), inchunk + sum_sizes (take n after),
            acc ++ run_layout (off + inchunk) (take n after))).
  { induction n as [|n IH]; intros before after inchunk acc' Hsz Hin.
    - cbn. by rewrite !app_nil_r, Z.add_0_r.
    - destruct after as [|x after]; cbn [for_range].
      + unfold body at 1. rewrite Hsz, app_nil_r, Z.leb_refl. cbn [exec_bind]. unfold run_layout.
        cbn. by rewrite !app_nil_r, Z.add_0_r.
      + unfold body at 1.
        destruct (Z.leb_spec (zlen sizes) (zlen (placed ++ before))) as [Hle|_].
        { rewrite Hsz in Hle. zlia. }
        rewrite Hsz at 1. rewrite app_assoc, index_mid by done. cbn [exec_bind].
        assert (Hb : 0 <= inchunk /\ 0 <= x /\ inchunk + x <= sum_sizes sizes /\ 0 <= sum_sizes sizes).
        { pose proof (sum_sizes_nonneg sizes Hpos). rewrite Hsz in Hpos.
          rewrite !Forall_app, list.Forall_cons in Hpos. destruct Hpos as (Hp1 & Hp2 & Hp3 & Hp4).
          apply sum_sizes_nonneg in Hp1, Hp2, Hp4. subst inchunk.
          rewrite Hsz, !sum_sizes_app, sum_sizes_cons. lia. }
        unfold add_u64. rewrite !checked_done by lia. cbn [exec_bind].
        replace (zlen (placed ++ before) + 1) with (zlen (placed ++ (before ++ [x]))) by zlia.
        rewrite (IH (before ++ [x]) after).
        * cbn [take]. rewrite <- !app_assoc. cbn [app]. f_equal. f_equal; [f_equal|].
          -- rewrite sum_sizes_cons. lia.
          -- cbn [run_layout]. by rewrite Z.add_assoc.
        * by rewrite <- app_assoc.
        * rewrite sum_sizes_app, sum_sizes_cons. cbn. lia. }
  specialize (Hgen (Z.to_nat spc) [] rest 0 acc Hs eq_refl).
  rewrite app_nil_r in Hgen. rewrite Hgen. cbn [exec_bind app]. by rewrite Z.add_0_r.
Qed.

Lemma place_samples_done sizes chunks counts :
  Forall (fun s => 0 <= s) sizes ->
  Forall (fun off => 0 <= off /\ off + sum_sizes sizes <= u64_max) chunks ->
  Forall (fun c => 0 <= c) counts -> zlen counts = zlen chunks ->
  place_samples sizes chunks counts = Done (layout (zip chunks counts) sizes).
Proof.
  intros Hs Hoff Hc Hlen. unfold place_samples.
  match goal with |- (let! _ := for_each ?b _ _ in _) = _ => set (body := b) end.
  assert (Hgen : forall todo ctodo cdone placed rest acc,
    counts = cdone ++ ctodo -> length todo = length ctodo ->
    Forall (fun off => 0 <= off /\ off + sum_sizes sizes <= u64_max) todo ->
    Forall (fun c => 0 <= c) ctodo -> sizes = placed ++ rest ->
    exists st, for_each body (zip (seqZ (zlen cdone) (zlen todo)) todo) (zlen placed, acc) = Done st /\
      snd st = acc ++ layout (zip todo ctodo) rest).
  { induction todo as [|off todo IH]; intros [|c ctodo] cdone placed rest acc Hcd Hl Ho Hcs Hsz;
      cbn in Hl; try done.
    - cbn. eexists. split; [done|]. by rewrite app_nil_r.
    - apply list.Forall_cons in Ho as [Ho Ho']. apply list.Forall_cons in Hcs as [Hc1 Hc2].
      rewrite seqZ_cons by zlia. cbn [zip zip_with for_each].
      unfold body at 1. cbv beta iota.
      assert (Hidx : index counts (zlen cdone) = Done c) by (rewrite Hcd; by apply index_mid).
      rewrite Hidx. cbn [exec_bind].
      rewrite (place_chunk_done sizes placed rest) by tauto. cbn [exec_bind].
      replace (Z.pred (zlen (off :: todo))) with (zlen todo) by zlia.
      replace (Z.succ (zlen cdone)) with (zlen (cdone ++ [c])) by zlia.
      destruct (IH ctodo (cdone ++ [c]) (placed ++ take (Z.to_nat c) rest) (drop (Z.to_nat c) rest)
        (acc ++ run_layout off (take (Z.to_nat c) rest))) as (st & -> & Hst).
      + by rewrite <- app_assoc.
      + lia.
      + done.
      + done.
      + by rewrite <- app_assoc, take_drop.
      + eexists. split; [done|]. rewrite Hst. cbn [zip zip_with layout]. by rewrite <- app_assoc. }
  destruct (Hgen chunks counts [] [] sizes []) as (st & Hst & Hsnd); try done.
  { unfold zlen in Hlen. lia. }
  unfold enumerate. change (zlen []) with 0 in Hst. rewrite Hst. cbn [exec_bind]. by rewrite Hsnd.
Qed.

(** ** Durations, keyframes, composition offsets *)

Lemma overlay_nil upd es : overlay upd es [] = es.
Proof. by destruct es. Qed.

Lemma length_overlay upd es vs : length (overlay upd es vs) = length es.
Proof. revert vs. induction es as [|e es IH]; intros [|v vs]; cbn; rewrite ?IH; done. Qed.

Lemma overlay_lookup upd es vs i :
  overlay upd es vs !! i =
    match es !! i with
    | Some e => Some (match vs !! i with Some v => upd e v | None => e end)
    | None => None
    end.
Proof.
  revert vs i. induction es as [|e es IH]; intros [|v vs] [|i]; cbn; rewrite ?IH; try done.
  by destruct (es !! i).
Qed.

Lemma overlay_app upd es vs ws : (length vs <= length es)%nat ->
  overlay upd es (vs ++ ws)
  = overlay upd (take (length vs) es) vs ++ overlay upd (drop (length vs) es) ws.
Proof.
  revert es. induction vs as [|v vs IH]; intros [|e es] H; cbn in *; try done; try lia.
  by rewrite IH by lia.
Qed.

Lemma overlay_app_ge upd es vs ws : (length es <= length vs)%nat ->
  overlay upd es (vs ++ ws) = overlay upd es vs.
Proof.
  revert vs. induction es as [|e es IH]; intros [|v vs] H; cbn in *; try done; try lia.
  by rewrite IH by lia.
Qed.

Lemma assign_runs_done upd runs entries :
  assign_runs upd runs entries = Done (overlay upd entries (expand_runs runs)).
Proof.
  unfold assign_runs.
  match goal with |- (let! _ := for_each ?b _ _ in _) = _ => set (body := b) end.
  assert (Hinner : forall n v fixed rest,
    body (zlen fixed, fixed ++ rest) (Z.of_nat n, v)
    = Done (zlen (fixed ++ overlay upd (take n rest) (replicate n v)),
            fixed ++ overlay upd rest (replicate n v))).
  { unfold body. intros n v. cbv beta iota. rewrite Nat2Z.id. induction n as [|n IH]; intros fixed rest.
    - cbn. by rewrite !overlay_nil, app_nil_r.
    - destruct rest as [|e rest]; cbn [for_range].
      + rewrite app_nil_r, Z.leb_refl. cbn. by rewrite app_nil_r.
      + destruct (Z.leb_spec (zlen (fixed ++ e :: rest)) (zlen fixed)); [zlia|].
        rewrite index_mid by done. cbn [exec_bind]. rewrite set_index_mid by done. cbn [exec_bind].
        specialize (IH (fixed ++ [upd e v]) rest). rewrite <- app_assoc in IH. cbn [app] in IH.
        replace (zlen fixed + 1) with (zlen (fixed ++ [upd e v])) by zlia.
        rewrite IH. cbn. by rewrite <- !app_assoc. }
  assert (Hgen : forall runs fixed rest, exists n,
    for_each body runs (zlen fixed, fixed ++ rest)
    = Done (n, fixed ++ overlay upd rest (expand_runs runs))).
  { induction runs0 as [|[c v] runs0 IH]; intros fixed rest.
    - cbn. rewrite overlay_nil. by eexists.
    - cbn [for_each expand_runs map concat]. fold (expand_runs runs0).
      assert (Hc : body (zlen fixed, fixed ++ rest) (c, v)
        = body (zlen fixed, fixed ++ rest) (Z.of_nat (Z.to_nat c), v)).
      { unfold body. by rewrite Nat2Z.id. }
      rewrite Hc, Hinner. cbn [exec_bind]. set (n := Z.to_nat c).
      assert (Hlen : length (replicate n v) = n) by apply length_replicate.
      destruct (decide (n <= length rest)%nat) as [Hn|Hn].
      + destruct (IH (fixed ++ overlay upd (take n rest) (replicate n v)) (drop n rest)) as [m Hm].
        pose proof (overlay_app upd rest (replicate n v)) as Happ. rewrite Hlen in Happ.
        assert (Hone : overlay upd rest (replicate n v)
          = overlay upd (take n rest) (replicate n v) ++ drop n rest).
        { rewrite <- (app_nil_r (replicate n v)) at 1. rewrite Happ by done. by rewrite overlay_nil. }
        exists m. rewrite Happ by done. by rewrite Hone, !app_assoc.
      + rewrite take_ge by lia. destruct (IH (fixed ++ overlay upd rest (replicate n v)) []) as [m Hm].
        rewrite app_nil_r in Hm. exists m.
        rewrite overlay_app_ge by lia. by rewrite Hm, app_nil_r. }
  destruct (Hgen runs [] entries) as [n Hn]. cbn [app] in Hn.
  change (zlen []) with 0 in Hn. rewrite Hn. done.
Qed.

Definition mark_one (s : Z) (es : list SampleEntry) : list SampleEntry :=
  imap (fun i e => if bool_decide (Z.of_nat i + 1 = s) then set_keyframe e else e) es.

Lemma mark_one_done s es : 1 <= s <= u32_max ->
  (let! idx := sub_u32 s 1 in
   if idx <? zlen es then
     let! e := index es idx in set_index es idx (set_keyframe e)
   else Done es) = Done (mark_one s es).
Proof.
  intros Hs. unfold sub_u32. rewrite checked_done by lia. cbn [exec_bind].
  destruct (Z.ltb_spec (s - 1) (zlen es)) as [Hlt|Hge].
  - assert (Hi : (Z.to_nat (s - 1) < length es)%nat) by (unfold zlen in Hlt; lia).
    destruct (lookup_lt_is_Some_2 es _ Hi) as [e He].
    unfold index, set_index. destruct (Z.leb_spec 0 (s - 1)), (Z.ltb_spec (s - 1) (zlen es)); try lia.
    rewrite He. cbn. f_equal. apply list_eq. intros i. unfold mark_one. rewrite list_lookup_imap.
    destruct (decide (i = Z.to_nat (s - 1))) as [->|Hne].
    + rewrite list_lookup_insert_eq by done. rewrite He. cbn. by rewrite bool_decide_true by lia.
    + rewrite list_lookup_insert_ne by done. destruct (es !! i); [|done]. cbn.
      by rewrite bool_decide_false by lia.
  - f_equal. apply list_eq. intros i. unfold mark_one. rewrite list_lookup_imap.
    destruct (es !! i) eqn:Hlk; [|done]. cbn. apply lookup_lt_Some in Hlk. unfold zlen in Hge.
    by rewrite bool_decide_false by lia.
Qed.

Lemma mark_all_lookup sync es i :
  foldl (fun es s => mark_one s es) es sync !! i =
    (fun e => if bool_decide (Z.of_nat i + 1 ∈ sync) then set_keyframe e else e) <$> es !! i.
Proof.
  revert es. induction sync as [|s sync IH]; intros es.
  - cbn. by destruct (es !! i).
  - cbn [foldl]. rewrite IH. unfold mark_one. rewrite list_lookup_imap.
    destruct (es !! i); [|done]. cbn. f_equal.
    repeat case_bool_decide; rewrite elem_of_cons in *; tauto.
Qed.

Lemma mark_keyframes_done sync es :
  Forall (fun s => 1 <= s <= u32_max) sync ->
  mark_keyframes sync es = Done (imap (sync_flag sync) es).
Proof.
  intros Hs. unfold mark_keyframes. destruct sync as [|s0 sync0].
  { f_equal. apply list_eq. intros i.
    change (map set_keyframe es) with (set_keyframe <$> es). rewrite list_lookup_imap, list_lookup_fmap.
    destruct (es !! i); [|done]. cbn. done. }
  trans (Done (foldl (fun es s => mark_one s es) es (s0 :: sync0))).
  { generalize (s0 :: sync0), es, Hs. clear.
    intros l es Hs. revert es. induction Hs as [|s l Hs1 _ IH]; intros es; [done|].
    cbn [for_each foldl]. rewrite mark_one_done by done. cbn [exec_bind]. apply IH. }
  f_equal. apply list_eq. intros i. rewrite mark_all_lookup, list_lookup_imap.
  destruct (es !! i); [|done]. cbn. f_equal. unfold sync_flag.
  erewrite bool_decide_ext; [done|].
  split; [auto|]. by intros [|].
Qed.

(** ** Properties *)

Lemma samples_in_chunk_nonneg stsc c d :
  Forall (fun x => 0 <= snd (fst x)) stsc -> 0 <= d -> 0 <= samples_in_chunk stsc c d.
Proof.
  revert d. induction stsc as [|[[f s] i] rest IH]; intros d H Hd; [done|].
  apply list.Forall_cons in H as [Hs H]. cbn in *. apply IH; [done|]. by case_match.
Qed.

(** Negative counts cannot be read from a file; the tables hold [u32]s. *)
Definition counts_u32 (st : SampleTable) : Prop :=
  Forall (fun x => is_u32 (fst (fst x)) /\ 0 <= snd (fst x)) (sample_to_chunk st).

Lemma zlen_seqZ a n : 0 <= n -> zlen (seqZ a n) = n.
Proof. intros. unfold zlen. rewrite length_seqZ. lia. Qed.

Lemma layout_nil chunks : layout chunks [] = [].
Proof.
  induction chunks as [|[off spc] chunks IH]; [done|]. cbn [layout].
  by rewrite take_nil, drop_nil, IH.
Qed.

Lemma layout_spec st :
  table_ok st -> counts_u32 st ->
  (let! samples_per_chunk := expand_stsc (sample_to_chunk st) (zlen (chunk_offsets st))
     (replicate (Z.to_nat (zlen (chunk_offsets st))) 0) in
   place_samples (sample_sizes st) (chunk_offsets st) samples_per_chunk)
  = Done (layout (zip (chunk_offsets st) (chunk_counts st)) (sample_sizes st)).
Proof.
  intros (Hc & Hs & Ho & _) Hu.
  rewrite expand_stsc_done; [|done| |apply zlen_nonneg].
  2:{ eapply Forall_impl; [exact Hu|]. cbn. tauto. }
  cbn [exec_bind]. apply place_samples_done; try done.
  - rewrite list.Forall_forall. intros x Hx. apply list_elem_of_In, in_map_iff in Hx as (c & <- & _).
    apply samples_in_chunk_nonneg; [|done]. eapply Forall_impl; [exact Hu|]. cbn. tauto.
  - unfold chunk_counts, zlen. rewrite length_map, length_seqZ. lia.
Qed.

Lemma resolve_sample_offsets_done (st : SampleTable) :
  table_ok st -> counts_u32 st ->
  resolve_sample_offsets st = Done (resolve_reference st).
Proof.
  intros Hok Hu. unfold resolve_sample_offsets, resolve_reference.
  destruct (sample_sizes st) as [|s ss] eqn:Hss.
  { rewrite layout_nil. done. }
  pose proof (layout_spec st Hok Hu) as Hl. rewrite Hss in Hl.
  destruct (expand_stsc _ _ _) as [spc| |]; try done. cbn [exec_bind] in *. rewrite Hl.
  cbn [exec_bind]. rewrite assign_runs_done. cbn [exec_bind].
  rewrite mark_keyframes_done by apply Hok. cbn [exec_bind].
  destruct (composition_offsets st); [by rewrite overlay_nil|]. by rewrite assign_runs_done.
Qed.

(** C1: [resolve_sample_offsets] implements its specification. On every
    accepted sample table it returns, without panicking, the entries obtained
    by laying the samples of each chunk out back to back from the chunk offset
    and overlaying the expanded duration, sync-sample and composition tables. *)
Theorem resolve_sample_offsets_refines (st : SampleTable) :
  table_ok st -> counts_u32 st ->
  resolve_sample_offsets st = Done (resolve_reference st).
Proof. apply resolve_sample_offsets_done. Qed.

Lemma run_layout_lookup base sizes i :
  run_layout base sizes !! i =
    (fun s => blank_entry (base + sum_sizes (take i sizes)) s) <$> sizes !! i.
Proof.
  revert base i. induction sizes as [|s sizes IH]; intros base [|i]; try done.
  - cbn. f_equal. unfold blank_entry. f_equal. lia.
  - cbn [run_layout take lookup list_lookup]. rewrite sum_sizes_cons, Z.add_assoc. apply IH.
Qed.

Lemma length_run_layout base sizes : length (run_layout base sizes) = length sizes.
Proof. revert base. induction sizes as [|s l IH]; intros; cbn; rewrite ?IH; done. Qed.

Lemma layout_lookup chunks sizes i e : layout chunks sizes !! i = Some e ->
  sizes !! i = Some (size e) /\ e = blank_entry (offset e) (size e).
Proof.
  revert sizes i. induction chunks as [|[off spc] chunks IH]; intros sizes i; [done|].
  cbn [layout]. set (n := Z.to_nat spc).
  destruct (decide (i < length (take n sizes))%nat) as [Hi|Hi].
  - rewrite lookup_app_l by (by rewrite length_run_layout). rewrite run_layout_lookup.
    destruct (take n sizes !! i) as [s|] eqn:Hs; [|done]. intros [= <-].
    apply lookup_take_Some in Hs as [Hs _]. done.
  - rewrite lookup_app_r by (rewrite length_run_layout; lia). rewrite length_run_layout.
    intros [H1 H2]%IH. split; [|done]. rewrite lookup_drop in H1.
    rewrite length_take in *. rewrite <- H1. f_equal.
    destruct (decide (n <= length sizes)%nat); [lia|].
    rewrite lookup_ge_None_2 in H1 by lia. done.
Qed.

(** Per-sample contents of what [resolve_sample_offsets] returns: entry
    [i] has the [i]th [stsz] size, the [i]th duration of the expanded [stts]
    (0 past its end), is a keyframe exactly when [stss] is empty or lists
    [i + 1], and has the [i]th offset of the expanded [ctts] (0 past its end). *)
Theorem resolve_sample_contents (st : SampleTable) es i e :
  table_ok st -> counts_u32 st ->
  resolve_sample_offsets st = Done es -> es !! i = Some e ->
  sample_sizes st !! i = Some (size e) /\
  duration e = default 0 (expand_runs (time_to_sample st) !! i) /\
  is_keyframe e = bool_decide (sync_samples st = [] \/ Z.of_nat i + 1 ∈ sync_samples st) /\
  composition_offset e = default 0 (expand_runs (composition_offsets st) !! i).
Proof.
  intros Hok Hu Hr Hi. rewrite (resolve_sample_offsets_done st Hok Hu) in Hr. injection Hr as <-.
  unfold resolve_reference in Hi.
  rewrite overlay_lookup, list_lookup_imap, overlay_lookup in Hi.
  destruct (layout _ _ !! i) as [b|] eqn:Hb; [|done]. cbn in Hi. injection Hi as <-.
  apply layout_lookup in Hb as [Hsz ->]. unfold sync_flag.
  destruct (expand_runs (time_to_sample st) !! i), (expand_runs (composition_offsets st) !! i);
    case_bool_decide; done.
Qed.

(** A sample table whose [stsc] box is not in order (a first chunk of 0, a
    first chunk after its successor's, or one beyond the chunks there are)
    makes [resolve_sample_offsets] panic, on the 1-based index subtraction or
    on the slice; no accepted [stsc] does. *)
Theorem resolve_stsc_panics_iff (st : SampleTable) :
  counts_u32 st -> sample_sizes st <> [] ->
  Forall (fun s => 0 <= s) (sample_sizes st) ->
  Forall (fun off => 0 <= off /\ off + sum_sizes (sample_sizes st) <= u64_max) (chunk_offsets st) ->
  Forall (fun s => 1 <= s <= u32_max) (sync_samples st) ->
  resolve_sample_offsets st = Panic <->
  ~ stsc_ok (zlen (chunk_offsets st)) (sample_to_chunk st).
Proof.
  intros Hu Hne Hs Ho Hsync. split.
  - intros HP Hok. rewrite (resolve_sample_offsets_done st) in HP; done.
  - intros Hno. unfold resolve_sample_offsets. destruct (sample_sizes st) as [|s ss]; [done|].
    pose proof (zlen_nonneg (chunk_offsets st)).
    assert (HP : expand_stsc (sample_to_chunk st) (zlen (chunk_offsets st))
      (replicate (Z.to_nat (zlen (chunk_offsets st))) 0) = Panic); [|by rewrite HP].
    apply expand_stsc_panics; [| |done].
    + eapply Forall_impl; [exact Hu|]. cbn. tauto.
    + unfold zlen. rewrite length_replicate. lia.
Qed.

(** The seven table parsers invert the encoding of the boxes: whatever
    follows the box, the parsed table is the one that was written, for every
    table of at most [u32::MAX] entries whose fields fit their width
    (composition offsets are signed). *)
Theorem sample_table_boxes_roundtrip sizes stts stsc stco co64 stss ctts rest :
  Forall is_u32 sizes -> zlen sizes <= u32_max ->
  Forall (fun x => is_u32 (fst x) /\ is_u32 (snd x)) stts -> zlen stts <= u32_max ->
  Forall (fun x => is_u32 (fst (fst x)) /\ is_u32 (snd (fst x)) /\ is_u32 (snd x)) stsc ->
  zlen stsc <= u32_max ->
  Forall is_u32 stco -> zlen stco <= u32_max ->
  Forall is_u64 co64 -> zlen co64 <= u32_max ->
  Forall is_u32 stss -> zlen stss <= u32_max ->
  Forall (fun x => is_u32 (fst x) /\ - 2 ^ 31 <= snd x < 2 ^ 31) ctts -> zlen ctts <= u32_max ->
  parse_stsz (size_box sizes ++ rest) = Done sizes /\
  parse_stts (table_box enc_pair stts ++ rest) = Done stts /\
  parse_stsc (table_box enc_triple stsc ++ rest) = Done stsc /\
  parse_stco (table_box (be_bytes 4) stco ++ rest) = Done stco /\
  parse_co64 (table_box (be_bytes 8) co64 ++ rest) = Done co64 /\
  parse_stss (table_box (be_bytes 4) stss ++ rest) = Done stss /\
  parse_ctts (table_box enc_pair ctts ++ rest) = Done ctts.
Proof.
  intros. eauto 20 using parse_stsz_box, parse_stts_box, parse_stsc_box, parse_stco_box,
    parse_co64_box, parse_stss_box, parse_ctts_box.
Qed.

Lemma be32_at_done bs i : 0 <= i -> i + 4 <= zlen bs -> exists x, be32_at bs i = Done x.
Proof.
  intros. unfold be32_at.
  destruct (index_returns bs i) as (b0 & -> & _); [lia|].
  destruct (index_returns bs (i + 1)) as (b1 & -> & _); [lia|].
  destruct (index_returns bs (i + 2)) as (b2 & -> & _); [lia|].
  destruct (index_returns bs (i + 3)) as (b3 & -> & _); [lia|]. by eexists.
Qed.

(** What every one of the entry-list parsers shares. *)
Lemma table_parser_total {T} (read : Z -> exec T) stride data :
  Forall is_byte data -> 0 < stride ->
  (forall pos, 8 <= pos -> pos + stride <= zlen data -> exists x, read pos = Done x) ->
  returns (if zlen data <? 8 then Done []
           else let! count := be32_at data 4 in read_entries read stride data count 8)
    (fun xs => stride * zlen xs <= zlen data).
Proof.
  intros Hb Hs Hr. pose proof (zlen_nonneg data). destruct (Z.ltb_spec (zlen data) 8).
  - eexists. split; [done|]. rewrite zlen_nil. lia.
  - destruct (be32_at_returns data 4 Hb) as (count & -> & Hc); [lia|lia|]. cbn [exec_bind].
    unfold is_u32 in Hc.
    destruct (read_entries_returns read stride data count 8) as (xs & -> & _ & Hx); try done; try lia.
    eexists. split; [done|]. lia.
Qed.

(** Every read of a fixed entry inside the data succeeds. *)
Ltac read_in_range :=
  intros; repeat match goal with
  | |- context [be32_at ?d ?i] =>
      let x := fresh "x" in let H := fresh "H" in
      destruct (be32_at_done d i) as [x H]; [lia | lia | rewrite H; cbn [exec_bind]]
  end; eauto.

Lemma table_parsers_return data :
  Forall is_byte data ->
  returns (parse_stsz data) (fun _ => True) /\
  returns (parse_stts data) (fun xs => 8 * zlen xs <= zlen data) /\
  returns (parse_stsc data) (fun xs => 12 * zlen xs <= zlen data) /\
  returns (parse_stco data) (fun xs => 4 * zlen xs <= zlen data) /\
  returns (parse_co64 data) (fun xs => 8 * zlen xs <= zlen data) /\
  returns (parse_stss data) (fun xs => 4 * zlen xs <= zlen data) /\
  returns (parse_ctts data) (fun xs => 8 * zlen xs <= zlen data).
Proof.
  intros Hb. split.
  { unfold parse_stsz. destruct (Z.ltb_spec (zlen data) 12); [by eexists|].
    destruct (be32_at_done data 4) as [d ->]; [lia|lia|]. cbn [exec_bind].
    destruct (be32_at_returns data 8 Hb) as (c & -> & Hc); [lia|lia|]. cbn [exec_bind].
    unfold is_u32 in Hc. case_match; [by eexists|].
    destruct (read_entries_returns (be32_at data) 4 data c 12) as (xs & -> & _); try lia; [|by eexists].
    read_in_range. }
  repeat split; apply table_parser_total; try done; unfold be64_at; read_in_range.
Qed.

(** Hostile boxes cannot crash the table parsers: on every byte string they
    return, and (for the boxes that list their entries) never more entries
    than the box has room for, whatever count its header announces. *)
Theorem table_parsers_total data :
  Forall is_byte data ->
  returns (parse_stsz data) (fun _ => True) /\
  returns (parse_stts data) (fun xs => 8 * zlen xs <= zlen data) /\
  returns (parse_stsc data) (fun xs => 12 * zlen xs <= zlen data) /\
  returns (parse_stco data) (fun xs => 4 * zlen xs <= zlen data) /\
  returns (parse_co64 data) (fun xs => 8 * zlen xs <= zlen data) /\
  returns (parse_stss data) (fun xs => 4 * zlen xs <= zlen data) /\
  returns (parse_ctts data) (fun xs => 8 * zlen xs <= zlen data).
Proof. apply table_parsers_return. Qed.

(** ** Witnesses *)

Definition demo_table : SampleTable := {|
  sample_sizes := [100; 200; 150]; time_to_sample := [(2, 1000)];
  sample_to_chunk := [(1, 2, 1)]; chunk_offsets := [1000; 2000];
  sync_samples := [1; 3]; composition_offsets := [(1, -500)] |}.

(** Solves the side conditions on concrete tables. *)
Ltac concrete_table :=
  repeat match goal with
  | |- table_ok _ => unfold table_ok
  | |- counts_u32 _ => unfold counts_u32
  | |- _ /\ _ => split
  | |- Forall _ _ => constructor
  | |- True => exact I
  | |- _ <> [] => discriminate
  | |- _ => progress (unfold is_u32, is_u64, u32_max, u64_max; cbn)
  end; zlen_simpl; try lia; try reflexivity.

Lemma resolve_sample_offsets_refines_witness :
  resolve_sample_offsets demo_table = Done (resolve_reference demo_table).
Proof. apply resolve_sample_offsets_refines; concrete_table. Defined.

Lemma resolve_sample_contents_witness :
  exists es e, resolve_sample_offsets demo_table = Done es /\ es !! 1%nat = Some e /\
    sample_sizes demo_table !! 1%nat = Some (size e).
Proof.
  eexists. eexists. split; [reflexivity|]. split; [reflexivity|].
  refine (proj1 (resolve_sample_contents demo_table _ 1 _ _ _ _ _)); [| |reflexivity|reflexivity];
    concrete_table.
Defined.

Lemma resolve_stsc_panics_iff_witness :
  let bad := {| sample_sizes := [5]; time_to_sample := []; sample_to_chunk := [(0, 1, 1)];
                chunk_offsets := [48]; sync_samples := []; composition_offsets := [] |} in
  resolve_sample_offsets bad = Panic.
Proof.
  intros bad. apply (resolve_stsc_panics_iff bad); subst bad; concrete_table.
Defined.

Lemma sample_table_boxes_roundtrip_witness :
  parse_ctts (table_box enc_pair [(1, -500)] ++ [7]) = Done [(1, -500)].
Proof.
  apply (sample_table_boxes_roundtrip [1] [(1, 2)] [(1, 2, 3)] [4] [5] [6] [(1, -500)] [7]);
    concrete_table.
Defined.

Lemma table_parsers_total_witness :
  returns (parse_stts [0; 0; 0; 0; 255; 255; 255; 255; 0; 0]) (fun xs => 8 * zlen xs <= 10).
Proof. apply table_parsers_total. repeat constructor; unfold is_byte; lia. Defined.
