(* ===== verification/Fmp4.v ===== *)
(** * Fragmented MP4 converter

    Models [core/src/media/fmp4_converter.rs]: the frames handed to the
    converter, the boxes of a movie fragment ([mfhd], [traf], [tfhd], [tfdt],
    [trun], [mdat]), the two fragment constructors and the initialization
    segment. A reference demultiplexer reads fragments back. *)

From S2P Require Import Prelude Rust Mp4Box.

#[local] Open Scope Z_scope.

(** ** Data *)

Record FrameData : Type := {
  fd_data : bytes;
  fd_duration : Z;
  fd_size : Z;
  fd_is_keyframe : bool;
  fd_composition_offset : Z;
}.

(** [FrameData::new]. *)
Definition new_frame (data : bytes) (duration : Z) (is_keyframe : bool) (composition_offset : Z)
  : FrameData :=
  {| fd_data := data; fd_duration := duration; fd_size := as_u32 (zlen data);
     fd_is_keyframe := is_keyframe; fd_composition_offset := composition_offset |}.

Record Sample : Type := {
  smp_data : bytes;
  smp_duration : Z;
  smp_size : Z;
  smp_is_keyframe : bool;
}.

(** [Sample::new]. *)
Definition new_sample (data : bytes) (duration : Z) (is_keyframe : bool) : Sample :=
  {| smp_data := data; smp_duration := duration; smp_size := as_u32 (zlen data);
     smp_is_keyframe := is_keyframe |}.

(** [impl From<Sample> for FrameData]. *)
Definition frame_of_sample (s : Sample) : FrameData :=
  {| fd_data := smp_data s; fd_duration := smp_duration s; fd_size := smp_size s;
     fd_is_keyframe := smp_is_keyframe s; fd_composition_offset := 0 |}.

Record FragmentedMp4Converter : Type := {
  sequence_number : Z;
  base_media_decode_time : Z;
  converter_track_id : Z;
}.

Definition new_converter : FragmentedMp4Converter :=
  {| sequence_number := 1; base_media_decode_time := 0; converter_track_id := 1 |}.

(** [iter().sum()] of unsigned integers, overflow checked. *)
Definition checked_sum (max : Z) (xs : list Z) : exec Z :=
  for_each (fun acc x => checked max (acc + x)) xs 0.

(** ** Boxes of a fragment *)

Definition create_mfhd (self : FragmentedMp4Converter) : exec (result bytes io_error) :=
  Done (ROk (be_bytes 4 16 ++ str "mfhd" ++ [0] ++ [0; 0; 0]
             ++ be_bytes 4 (sequence_number self))).

Definition create_tfhd (track_id : Z) : exec (result bytes io_error) :=
  Done (ROk (be_bytes 4 16 ++ str "tfhd" ++ [0] ++ [2; 0; 0] ++ be_bytes 4 track_id)).

Definition create_tfdt (self : FragmentedMp4Converter) : exec (result bytes io_error) :=
  Done (ROk (be_bytes 4 16 ++ str "tfdt" ++ [0] ++ [0; 0; 0]
             ++ be_bytes 4 (as_u32 (base_media_decode_time self)))).

Definition create_tfdt_auto (self : FragmentedMp4Converter) : exec (result bytes io_error) :=
  if u32_max <? base_media_decode_time self then
    Done (ROk (be_bytes 4 20 ++ str "tfdt" ++ [1] ++ [0; 0; 0]
               ++ be_bytes 8 (base_media_decode_time self)))
  else create_tfdt self.

Definition calculate_moof_size (frames : list FrameData) : exec Z :=
  let! entries := mul_u32 (as_u32 (zlen frames)) 8 in
  add_u32 (8 + 16 + 8 + 16 + 16 + 8 + 12) entries.

Definition calculate_moof_size_v2 (self : FragmentedMp4Converter) (frames : list FrameData)
  : exec Z :=
  let tfdt_size := if u32_max <? base_media_decode_time self then 20 else 16 in
  let! entries := mul_u32 (as_u32 (zlen frames)) 16 in
  add_u32 (8 + 16 + 8 + 16 + tfdt_size + 8 + 12) entries.

Definition trun_entry (f : FrameData) : bytes :=
  be_bytes 4 (fd_duration f) ++ be_bytes 4 (fd_size f).

Definition create_trun (frames : list FrameData) : exec (result bytes io_error) :=
  let! moof_size := calculate_moof_size frames in
  let! data_offset := add_u32 moof_size 8 in
  let trun_content := [1] ++ [0; 3; 1] ++ be_bytes 4 (as_u32 (zlen frames))
    ++ be_bytes 4 (as_i32 data_offset) ++ concat (map trun_entry frames) in
  let! trun := wrap_box (str "trun") trun_content in
  Done (ROk trun).

Definition sample_flags (f : FrameData) : Z :=
  if fd_is_keyframe f then 33554432 (* 0x02000000 *) else 16842752 (* 0x01010000 *).

Definition trun_entry_v2 (f : FrameData) : bytes :=
  be_bytes 4 (fd_duration f) ++ be_bytes 4 (fd_size f) ++ be_bytes 4 (sample_flags f)
  ++ be_bytes 4 (fd_composition_offset f).

Definition create_trun_v2 (self : FragmentedMp4Converter) (frames : list FrameData)
  : exec (result bytes io_error) :=
  let! moof_size := calculate_moof_size_v2 self frames in
  let! data_offset := add_u32 moof_size 8 in
  let trun_content := [1] ++ [0; 15; 1] ++ be_bytes 4 (as_u32 (zlen frames))
    ++ be_bytes 4 (as_i32 data_offset) ++ concat (map trun_entry_v2 frames) in
  let! trun := wrap_box (str "trun") trun_content in
  Done (ROk trun).

Definition create_traf (self : FragmentedMp4Converter) (frames : list FrameData) (track_id : Z)
  : exec (result bytes io_error) :=
  let? tfhd := create_tfhd track_id in
  let? tfdt := create_tfdt self in
  let? trun := create_trun frames in
  let! traf := wrap_box (str "traf") (tfhd ++ tfdt ++ trun) in
  Done (ROk traf).

Definition create_traf_v2 (self : FragmentedMp4Converter) (frames : list FrameData) (track_id : Z)
  : exec (result bytes io_error) :=
  let? tfhd := create_tfhd track_id in
  let? tfdt := create_tfdt_auto self in
  let? trun := create_trun_v2 self frames in
  let! traf := wrap_box (str "traf") (tfhd ++ tfdt ++ trun) in
  Done (ROk traf).

Definition create_moof (self : FragmentedMp4Converter) (frames : list FrameData)
    (track_id timescale : Z) : exec (result bytes io_error) :=
  let? mfhd := create_mfhd self in
  let? traf := create_traf self frames track_id in
  let! moof := wrap_box (str "moof") (mfhd ++ traf) in
  Done (ROk moof).

Definition create_moof_v2 (self : FragmentedMp4Converter) (frames : list FrameData) (track_id : Z)
  : exec (result bytes io_error) :=
  let? mfhd := create_mfhd self in
  let? traf := create_traf_v2 self frames track_id in
  let! moof := wrap_box (str "moof") (mfhd ++ traf) in
  Done (ROk moof).

(** [create_mdat] and [create_mdat_v2] have the same body. *)
Definition create_mdat (frames : list FrameData) : exec (result bytes io_error) :=
  let! data_size := checked_sum u32_max (map fd_size frames) in
  let! total := add_u32 8 data_size in
  Done (ROk (be_bytes 4 total ++ str "mdat" ++ concat (map fd_data frames))).
Definition create_mdat_v2 (frames : list FrameData) : exec (result bytes io_error) :=
  create_mdat frames.

(** What both constructors do to the converter once the boxes are built. *)
Definition advance (self : FragmentedMp4Converter) (frames : list FrameData)
  : exec FragmentedMp4Converter :=
  let! seq := add_u32 (sequence_number self) 1 in
  let! total_duration := checked_sum u64_max (map fd_duration frames) in
  let! base := add_u64 (base_media_decode_time self) total_duration in
  Done {| sequence_number := seq; base_media_decode_time := base;
          converter_track_id := converter_track_id self |}.

Definition create_fragment (self : FragmentedMp4Converter) (frames : list FrameData)
    (track_id timescale : Z) : exec (FragmentedMp4Converter * result bytes io_error) :=
  let! moof := create_moof self frames track_id timescale in
  match moof with
  | RErr e => Done (self, RErr e)
  | ROk moof =>
      let! mdat := create_mdat frames in
      match mdat with
      | RErr e => Done (self, RErr e)
      | ROk mdat =>
          let! self' := advance self frames in
          Done (self', ROk (moof ++ mdat))
      end
  end.

Definition create_fragment_v2 (self : FragmentedMp4Converter) (frames : list FrameData)
    (track_id timescale : Z) : exec (FragmentedMp4Converter * result bytes io_error) :=
  let! moof := create_moof_v2 self frames track_id in
  match moof with
  | RErr e => Done (self, RErr e)
  | ROk moof =>
      let! mdat := create_mdat_v2 frames in
      match mdat with
      | RErr e => Done (self, RErr e)
      | ROk mdat =>
          let! self' := advance self frames in
          Done (self', ROk (moof ++ mdat))
      end
  end.

(** ** Initialization segment *)

Definition create_trex (track_id : Z) : exec (result bytes io_error) :=
  Done (ROk (be_bytes 4 32 ++ str "trex" ++ [0] ++ [0; 0; 0] ++ be_bytes 4 track_id
    ++ be_bytes 4 1 ++ be_bytes 4 0 ++ be_bytes 4 0 ++ be_bytes 4 0)).

Definition create_mvex : exec (result bytes io_error) :=
  let? trex := create_trex 1 in
  let? trex2 := create_trex 2 in
  let! mvex := wrap_box (str "mvex") (trex ++ trex2) in
  Done (ROk mvex).

Definition add_mvex_to_moov (moov_data : bytes) : exec (result bytes io_error) :=
  if zlen moov_data <? 8 then Done (RErr (IoError InvalidData (str "Invalid moov box")))
  else
    let! moov_size := be32_at moov_data 0 in
    let! moov_type := slice moov_data 4 8 in
    if negb (str_eqb moov_type (str "moov")) then
      Done (RErr (IoError InvalidData (str "Not a moov box")))
    else
      let? mvex := create_mvex in
      let! new_moov_size := add_u32 moov_size (as_u32 (zlen mvex)) in
      let! rest := slice_from moov_data 8 in
      Done (ROk (be_bytes 4 new_moov_size ++ str "moov" ++ rest ++ mvex)).

Definition create_init_segment (ftyp_data moov_data : bytes) (needs_mvex : bool)
  : exec (result bytes io_error) :=
  if needs_mvex then
    let? moov_with_mvex := add_mvex_to_moov moov_data in
    Done (ROk (ftyp_data ++ moov_with_mvex))
  else Done (ROk (ftyp_data ++ moov_data)).

(** ** Reference: reading a fragment back

    A demultiplexer written from the box specification, not from the code: it
    finds the boxes by type, follows the [trun] flags for the fields present
    and takes the sample data at [data_offset] from the start of the [moof]. *)

Record FragSample : Type := {
  fs_data : bytes;
  fs_duration : Z;
  fs_flags : option Z;
  fs_composition : option Z;
}.

Record Fragment : Type := {
  fg_sequence : Z;
  fg_track : Z;
  fg_decode_time : Z;
  fg_samples : list FragSample;
}.

Definition u32_at (data : bytes) (i : Z) : option Z :=
  match be32_at data i with Done x => Some x | _ => None end.

(** The fields of one [trun] entry present under [flags]. *)
Definition trun_field (flags mask : Z) (data : bytes) (i : Z) : option (option Z * Z) :=
  if Z.land flags mask =? 0 then Some (None, i)
  else match u32_at data i with Some x => Some (Some x, i + 4) | None => None end.

Fixpoint read_trun_samples (n : nat) (flags : Z) (trun : bytes) (i : Z) (media : bytes) (at_ : Z)
  : option (list FragSample) :=
  match n with
  | O => Some []
  | S n' =>
      match trun_field flags 256 trun i with
      | Some (Some d, i1) =>
        match trun_field flags 512 trun i1 with
        | Some (Some s, i2) =>
          match trun_field flags 1024 trun i2 with
          | Some (fl, i3) =>
            match trun_field flags 2048 trun i3 with
            | Some (ct, i4) =>
              match slice media at_ (at_ + s) with
              | Done d' =>
                match read_trun_samples n' flags trun i4 media (at_ + s) with
                | Some rest => Some ({| fs_data := d'; fs_duration := d; fs_flags := fl;
                                        fs_composition := option_map as_i32 ct |} :: rest)
                | None => None
                end
              | _ => None
              end
            | None => None
            end
          | None => None
          end
        | _ => None
        end
      | _ => None
      end
  end.

Definition read_tfdt (tfdt : bytes) : option Z :=
  match tfdt with
  | 0 :: _ => u32_at tfdt 4
  | 1 :: _ => match be64_at tfdt 4 with Done x => Some x | _ => None end
  | _ => None
  end.

Definition demux (fragment : bytes) : option Fragment :=
  match parse_boxes (length fragment) fragment with
  | Some [(ty1, moof); (ty2, _)] =>
    if negb (str_eqb ty1 (str "moof") && str_eqb ty2 (str "mdat")) then None else
    match parse_boxes (length moof) moof with
    | Some moof_boxes =>
      match find_box (str "mfhd") moof_boxes, find_box (str "traf") moof_boxes with
      | Some mfhd, Some traf =>
        match parse_boxes (length traf) traf with
        | Some traf_boxes =>
          match find_box (str "tfhd") traf_boxes, find_box (str "tfdt") traf_boxes,
                find_box (str "trun") traf_boxes with
          | Some tfhd, Some tfdt, Some trun =>
            match u32_at mfhd 4, u32_at tfhd 4, read_tfdt tfdt, u32_at trun 0, u32_at trun 4,
                  u32_at trun 8 with
            | Some seq, Some track, Some time, Some vflags, Some count, Some data_offset =>
              match read_trun_samples (Z.to_nat count) (vflags mod 2 ^ 24) trun 12
                      fragment (as_i32 data_offset) with
              | Some samples => Some {| fg_sequence := seq; fg_track := track;
                                        fg_decode_time := time; fg_samples := samples |}
              | None => None
              end
            | _, _, _, _, _, _ => None
            end
          | _, _, _ => None
          end
        | None => None
        end
      | _, _ => None
      end
    | None => None
    end
  | _ => None
  end.

(** The unit test of the source, both constructors, read back. *)
Definition demo_frames : list FrameData :=
  [new_frame [0; 1; 2; 3] 1000 true 0; new_frame [4; 5] 900 false (-20)].

Example demux_v2_demo :
  match create_fragment_v2 new_converter demo_frames 1 1000 with
  | Done (c, ROk fragment) => (demux fragment, sequence_number c, base_media_decode_time c)
  | _ => (None, 0, 0)
  end
  = (Some {| fg_sequence := 1; fg_track := 1; fg_decode_time := 0; fg_samples := [
       {| fs_data := [0; 1; 2; 3]; fs_duration := 1000; fs_flags := Some 33554432; fs_composition := Some 0 |};
       {| fs_data := [4; 5]; fs_duration := 900; fs_flags := Some 16842752; fs_composition := Some (-20) |}] |},
     2, 1900).
Proof. vm_compute. reflexivity. Qed.

(** ** Sums *)

Lemma checked_sum_acc max xs acc :
  Forall (fun x => 0 <= x) xs -> 0 <= acc -> acc + fold_right Z.add 0 xs <= max ->
  for_each (fun acc x => checked max (acc + x)) xs acc = Done (acc + fold_right Z.add 0 xs).
Proof.
  intros Hx. revert acc. induction Hx as [|x xs Hx Hxs IH]; intros acc Ha Hm; cbn in *.
  - by rewrite Z.add_0_r.
  - assert (0 <= fold_right Z.add 0 xs).
    { clear IH Hm. induction Hxs; cbn; lia. }
    rewrite checked_done by lia. cbn [exec_bind]. rewrite IH by lia. f_equal. lia.
Qed.

Lemma checked_sum_done max xs :
  Forall (fun x => 0 <= x) xs -> fold_right Z.add 0 xs <= max ->
  checked_sum max xs = Done (fold_right Z.add 0 xs).
Proof. intros. unfold checked_sum. rewrite checked_sum_acc by (done || lia). done. Qed.

Definition total_duration (frames : list FrameData) : Z := fold_right Z.add 0 (map fd_duration frames).
Definition total_size (frames : list FrameData) : Z := fold_right Z.add 0 (map fd_size frames).

(** A frame as [FrameData::new] makes it from at most [u32::MAX] bytes. *)
Definition frame_ok (f : FrameData) : Prop :=
  fd_size f = zlen (fd_data f) /\ is_u32 (fd_size f) /\ is_u32 (fd_duration f) /\
  - 2 ^ 31 <= fd_composition_offset f < 2 ^ 31.

Lemma total_size_nonneg frames : Forall frame_ok frames -> 0 <= total_size frames.
Proof.
  unfold total_size. induction 1 as [|f fs Hf _ IH]; cbn; [done|].
  destruct Hf as (_ & Hf & _). unfold is_u32 in Hf. lia.
Qed.

Lemma total_duration_nonneg frames : Forall frame_ok frames -> 0 <= total_duration frames.
Proof.
  unfold total_duration. induction 1 as [|f fs Hf _ IH]; cbn; [done|].
  destruct Hf as (_ & _ & Hf & _). unfold is_u32 in Hf. lia.
Qed.

Lemma zlen_frame_data frames :
  Forall frame_ok frames -> zlen (concat (map fd_data frames)) = total_size frames.
Proof.
  unfold total_size. induction 1 as [|f fs Hf _ IH]; cbn; [done|].
  rewrite zlen_app, IH. by destruct Hf as [<- _].
Qed.

(** ** The boxes as data *)

Definition mfhd_box (self : FragmentedMp4Converter) : mp4_box :=
  (str "mfhd", be_bytes 4 0 ++ be_bytes 4 (sequence_number self)).
Definition tfhd_box (track_id : Z) : mp4_box := (str "tfhd", [0; 2; 0; 0] ++ be_bytes 4 track_id).
Definition tfdt_box (self : FragmentedMp4Converter) : mp4_box :=
  (str "tfdt",
   if u32_max <? base_media_decode_time self
   then [1; 0; 0; 0] ++ be_bytes 8 (base_media_decode_time self)
   else be_bytes 4 0 ++ be_bytes 4 (base_media_decode_time self)).
Definition tfdt_box_v1 (self : FragmentedMp4Converter) : mp4_box :=
  (str "tfdt", be_bytes 4 0 ++ be_bytes 4 (as_u32 (base_media_decode_time self))).
Definition trun_box (flags : Z) (entry : FrameData -> bytes) (data_offset : Z)
    (frames : list FrameData) : mp4_box :=
  (str "trun", be_bytes 4 (2 ^ 24 + flags) ++ be_bytes 4 (zlen frames) ++ be_bytes 4 data_offset
               ++ concat (map entry frames)).
Definition mdat_box (frames : list FrameData) : mp4_box :=
  (str "mdat", concat (map fd_data frames)).

Definition moof_boxes (self : FragmentedMp4Converter) (track_id : Z) (tfdt trun : mp4_box)
  : list mp4_box :=
  [mfhd_box self; (str "traf", boxes_bytes [tfhd_box track_id; tfdt; trun])].

(** [moof] and [mdat]. *)
Definition fragment_boxes (self : FragmentedMp4Converter) (track_id : Z) (tfdt trun : mp4_box)
    (frames : list FrameData) : list mp4_box :=
  [(str "moof", boxes_bytes (moof_boxes self track_id tfdt trun)); mdat_box frames].

Lemma zlen_entries (entry : FrameData -> bytes) n frames :
  (forall f, zlen (entry f) = n) -> zlen (concat (map entry frames)) = n * zlen frames.
Proof.
  intros He. induction frames as [|f frames IH]; cbn [map concat].
  - change (0 = n * 0). lia.
  - rewrite zlen_app, zlen_cons, IH, He. lia.
Qed.

Lemma zlen_trun_entry f : zlen (trun_entry f) = 8.
Proof. unfold trun_entry. by zlen_simpl. Qed.

Lemma zlen_trun_entry_v2 f : zlen (trun_entry_v2 f) = 16.
Proof. unfold trun_entry_v2. by zlen_simpl. Qed.

Lemma create_mfhd_box self : create_mfhd self = Done (ROk (box_bytes (mfhd_box self))).
Proof. reflexivity. Qed.

Lemma create_tfhd_box track_id : create_tfhd track_id = Done (ROk (box_bytes (tfhd_box track_id))).
Proof. reflexivity. Qed.

Lemma create_tfdt_box_v1 self : create_tfdt self = Done (ROk (box_bytes (tfdt_box_v1 self))).
Proof. reflexivity. Qed.

Lemma create_tfdt_auto_box self :
  0 <= base_media_decode_time self ->
  create_tfdt_auto self = Done (ROk (box_bytes (tfdt_box self))).
Proof.
  intros H. unfold create_tfdt_auto, tfdt_box. case_match eqn:E; [reflexivity|].
  apply Z.ltb_ge in E. unfold create_tfdt. rewrite as_u32_small by (unfold is_u32; lia). reflexivity.
Qed.

(** Bounds under which a fragment can be written: the 32-bit size fields and
    the signed 32-bit data offset can hold the sizes. *)
Definition fits (frames : list FrameData) : Prop :=
  200 + 16 * zlen frames + total_size frames < 2 ^ 31.

Definition tfdt_size (self : FragmentedMp4Converter) : Z :=
  if u32_max <? base_media_decode_time self then 20 else 16.

Definition moof_size (tfdt entry n : Z) : Z := 68 + tfdt + entry * n.

Lemma zlen_tfdt_box self : zlen (snd (tfdt_box self)) = tfdt_size self - 8.
Proof. unfold tfdt_box, tfdt_size. cbn [snd]. by case_match; zlen_simpl. Qed.

Lemma create_trun_box frames : Forall frame_ok frames -> fits frames ->
  create_trun frames
  = Done (ROk (box_bytes (trun_box 769 trun_entry (moof_size 16 8 (zlen frames) + 8) frames))).
Proof.
  intros Hf Hfit. unfold fits in Hfit. pose proof (total_size_nonneg frames Hf).
  pose proof (zlen_nonneg frames). unfold create_trun, calculate_moof_size, mul_u32, add_u32.
  rewrite as_u32_small by (unfold is_u32, u32_max; lia).
  unfold u32_max. rewrite !checked_done by lia. cbn [exec_bind]. rewrite checked_done by lia.
  cbn [exec_bind]. rewrite checked_done by lia. cbn [exec_bind].
  replace (8 + 16 + 8 + 16 + 16 + 8 + 12 + zlen frames * 8 + 8)
    with (moof_size 16 8 (zlen frames) + 8) by (unfold moof_size; lia).
  unfold as_i32, as_signed. rewrite Z.mod_small by (unfold moof_size; lia).
  destruct (Z.ltb_spec (moof_size 16 8 (zlen frames) + 8) (2 ^ (32 - 1))); [|unfold moof_size in *; lia].
  rewrite wrap_box_done; [done|]. rewrite !zlen_app, !zlen_be_bytes.
  rewrite (zlen_entries _ _ _ zlen_trun_entry). zlen_simpl. unfold u32_max. lia.
Qed.

Lemma create_trun_v2_box self frames : Forall frame_ok frames -> fits frames ->
  create_trun_v2 self frames
  = Done (ROk (box_bytes (trun_box 3841 trun_entry_v2
      (moof_size (tfdt_size self) 16 (zlen frames) + 8) frames))).
Proof.
  intros Hf Hfit. unfold fits in Hfit. pose proof (total_size_nonneg frames Hf).
  pose proof (zlen_nonneg frames). unfold create_trun_v2, calculate_moof_size_v2, mul_u32, add_u32.
  fold (tfdt_size self). assert (16 <= tfdt_size self <= 20) by (unfold tfdt_size; case_match; lia).
  rewrite as_u32_small by (unfold is_u32, u32_max; lia).
  unfold u32_max. rewrite !checked_done by lia. cbn [exec_bind]. rewrite checked_done by lia.
  cbn [exec_bind]. rewrite checked_done by lia. cbn [exec_bind].
  replace (8 + 16 + 8 + 16 + tfdt_size self + 8 + 12 + zlen frames * 16 + 8)
    with (moof_size (tfdt_size self) 16 (zlen frames) + 8) by (unfold moof_size; lia).
  unfold as_i32, as_signed. rewrite Z.mod_small by (unfold moof_size; lia).
  destruct (Z.ltb_spec (moof_size (tfdt_size self) 16 (zlen frames) + 8) (2 ^ (32 - 1)));
    [|unfold moof_size in *; lia].
  rewrite wrap_box_done; [done|]. rewrite !zlen_app, !zlen_be_bytes.
  rewrite (zlen_entries _ _ _ zlen_trun_entry_v2). zlen_simpl. unfold u32_max. lia.
Qed.

Section FragmentBoxes.
Context (self : FragmentedMp4Converter) (track_id : Z) (frames : list FrameData).
Context (tfdt : mp4_box) (flags data_offset n : Z) (entry : FrameData -> bytes).
Hypothesis entry_len : forall f, zlen (entry f) = n.
Hypothesis n_range : 0 <= n <= 16.
Hypothesis tfdt_wf : zlen (fst tfdt) = 4 /\ zlen (snd tfdt) <= 12.
Hypothesis frames_ok : Forall frame_ok frames.
Hypothesis frames_fit : fits frames.

Let trun := trun_box flags entry data_offset frames.

Lemma traf_boxes_wf : Forall wf_box [tfhd_box track_id; tfdt; trun].
Proof using entry_len n_range tfdt_wf frames_ok frames_fit.
  unfold fits in frames_fit. pose proof (total_size_nonneg frames frames_ok).
  pose proof (zlen_nonneg frames).
  constructor; [|constructor; [|constructor; [|constructor]]]; unfold wf_box, u32_max.
  - split; [reflexivity|]. cbn [snd tfhd_box]. zlen_simpl. lia.
  - lia.
  - split; [reflexivity|]. cbn [snd trun trun_box]. zlen_simpl. rewrite (zlen_entries _ n) by done. nia.
Qed.

Lemma zlen_traf :
  zlen (boxes_bytes [tfhd_box track_id; tfdt; trun])
  = 16 + (8 + zlen (snd tfdt)) + (20 + n * zlen frames).
Proof using entry_len n_range tfdt_wf frames_ok frames_fit.
  pose proof traf_boxes_wf as Hwf.
  rewrite !boxes_bytes_cons. rewrite !zlen_app.
  apply list.Forall_cons in Hwf as [H1 Hwf]. apply list.Forall_cons in Hwf as [H2 Hwf].
  apply list.Forall_cons in Hwf as [H3 _]. rewrite !zlen_box_bytes by done.
  unfold box_size, trun, trun_box, tfhd_box, boxes_bytes. cbn [snd map concat]. zlen_simpl.
  rewrite (zlen_entries _ n) by done. lia.
Qed.

Lemma moof_boxes_wf : Forall wf_box (moof_boxes self track_id tfdt trun).
Proof using entry_len n_range tfdt_wf frames_ok frames_fit.
  unfold moof_boxes. pose proof zlen_traf as Ht.
  unfold fits in frames_fit. pose proof (total_size_nonneg frames frames_ok). pose proof (zlen_nonneg frames).
  constructor; [|constructor; [|constructor]]; (split; [reflexivity|]); unfold u32_max.
  - cbn [snd mfhd_box]. zlen_simpl. lia.
  - cbn [snd]. rewrite Ht. nia.
Qed.

Lemma zlen_moof :
  zlen (boxes_bytes (moof_boxes self track_id tfdt trun))
  = moof_size (8 + zlen (snd tfdt)) n (zlen frames) - 8.
Proof using entry_len n_range tfdt_wf frames_ok frames_fit.
  pose proof moof_boxes_wf as Hwf. unfold moof_boxes in *. rewrite boxes_bytes_cons, boxes_bytes_single, zlen_app.
  apply list.Forall_cons in Hwf as [H1 Hwf]. apply list.Forall_cons in Hwf as [H2 _].
  rewrite !zlen_box_bytes by done. unfold box_size. cbn [snd]. rewrite zlen_traf.
  unfold mfhd_box, moof_size. cbn [snd]. zlen_simpl. lia.
Qed.

Lemma fragment_boxes_wf : Forall wf_box (fragment_boxes self track_id tfdt trun frames).
Proof using entry_len n_range tfdt_wf frames_ok frames_fit.
  unfold fragment_boxes. pose proof zlen_moof as Hm.
  unfold fits in frames_fit. pose proof (total_size_nonneg frames frames_ok). pose proof (zlen_nonneg frames).
  constructor; [|constructor; [|constructor]]; (split; [reflexivity|]); unfold u32_max.
  - cbn [snd]. rewrite Hm. unfold moof_size. nia.
  - cbn [snd mdat_box]. rewrite zlen_frame_data by done. lia.
Qed.

(** The sample data starts where the [mdat] payload does. *)
Lemma fragment_payload_at :
  exists head, boxes_bytes (fragment_boxes self track_id tfdt trun frames)
    = head ++ concat (map fd_data frames) /\
  zlen head = moof_size (8 + zlen (snd tfdt)) n (zlen frames) + 8.
Proof using entry_len n_range tfdt_wf frames_ok frames_fit.
  pose proof fragment_boxes_wf as Hwf. unfold fragment_boxes in *.
  apply list.Forall_cons in Hwf as [H1 Hwf]. apply list.Forall_cons in Hwf as [H2 _].
  eexists (box_bytes (str "moof", _) ++ be_bytes 4 (8 + zlen (concat (map fd_data frames))) ++ str "mdat").
  split.
  - rewrite boxes_bytes_cons, boxes_bytes_single. unfold box_bytes at 2. cbn [fst snd mdat_box].
    by rewrite <- !app_assoc.
  - rewrite !zlen_app, zlen_box_bytes by done. unfold box_size. cbn [snd]. rewrite zlen_moof.
    rewrite zlen_be_bytes. change (zlen (str "mdat")) with 4. lia.
Qed.
End FragmentBoxes.

(** ** Reading back *)

Lemma u32_at_mid l x k i : is_u32 x -> i = zlen l -> u32_at (l ++ be_bytes 4 x ++ k) i = Some x.
Proof. intros. unfold u32_at. by rewrite be32_at_mid. Qed.

Lemma trun_field_mid flags mask l x k i :
  is_u32 x -> i = zlen l -> Z.land flags mask <> 0 ->
  trun_field flags mask (l ++ be_bytes 4 x ++ k) i = Some (Some x, i + 4).
Proof.
  intros Hx Hi Hm. unfold trun_field. rewrite (proj2 (Z.eqb_neq _ _) Hm). by rewrite u32_at_mid.
Qed.

Definition sample_of_frame_v2 (f : FrameData) : FragSample :=
  {| fs_data := fd_data f; fs_duration := fd_duration f; fs_flags := Some (sample_flags f);
     fs_composition := Some (fd_composition_offset f) |}.

Definition sample_of_frame (f : FrameData) : FragSample :=
  {| fs_data := fd_data f; fs_duration := fd_duration f; fs_flags := None; fs_composition := None |}.

Lemma sample_flags_u32 f : is_u32 (sample_flags f).
Proof. unfold sample_flags, is_u32, u32_max. case_match; lia. Qed.

Lemma read_trun_v2 frames pre head post : Forall frame_ok frames ->
  read_trun_samples (length frames) 3841 (pre ++ concat (map trun_entry_v2 frames)) (zlen pre)
    (head ++ concat (map fd_data frames) ++ post) (zlen head)
  = Some (map sample_of_frame_v2 frames).
Proof.
  intros Hok. revert pre head. induction Hok as [|f frames Hf _ IH]; intros pre head; [done|].
  destruct Hf as (Hsz & Hs & Hd & Hc). cbn [length map concat read_trun_samples].
  set (trun := pre ++ trun_entry_v2 f ++ concat (map trun_entry_v2 frames)).
  assert (Htrun : forall l x k i mask, trun = l ++ be_bytes 4 x ++ k -> is_u32 x -> i = zlen l ->
    Z.land 3841 mask <> 0 -> trun_field 3841 mask trun i = Some (Some x, i + 4)).
  { intros l x k i mask -> ? ?. by apply trun_field_mid. }
  assert (Hco : be_bytes 4 (as_u32 (fd_composition_offset f)) = be_bytes 4 (fd_composition_offset f))
    by apply (be_bytes_mod 4).
  rewrite (Htrun pre (fd_duration f) _ (zlen pre) 256 ltac:(unfold trun, trun_entry_v2; rewrite ?Hco; by rewrite <- !app_assoc)) by done.
  rewrite (Htrun (pre ++ be_bytes 4 (fd_duration f)) (fd_size f) _ (zlen pre + 4) 512
    ltac:(unfold trun, trun_entry_v2; rewrite ?Hco; by rewrite <- !app_assoc)) by (done || zlia).
  rewrite (Htrun (pre ++ be_bytes 4 (fd_duration f) ++ be_bytes 4 (fd_size f)) (sample_flags f) _
    (zlen pre + 4 + 4) 1024 ltac:(unfold trun, trun_entry_v2; rewrite ?Hco; by rewrite <- !app_assoc))
    by (done || zlia || apply sample_flags_u32).
  rewrite (Htrun (pre ++ be_bytes 4 (fd_duration f) ++ be_bytes 4 (fd_size f) ++ be_bytes 4 (sample_flags f))
    (as_u32 (fd_composition_offset f)) (concat (map trun_entry_v2 frames))
    (zlen pre + 4 + 4 + 4) 2048 ltac:(unfold trun, trun_entry_v2; rewrite ?Hco; by rewrite <- !app_assoc))
    by (done || zlia || apply as_u32_range).
  rewrite <- (app_assoc (fd_data f)), slice_app_mid by (done || lia). rewrite Hsz.
  unfold trun.
  replace (zlen pre + 4 + 4 + 4 + 4) with (zlen (pre ++ trun_entry_v2 f))
    by (rewrite zlen_app, zlen_trun_entry_v2; lia).
  replace (zlen head + zlen (fd_data f)) with (zlen (head ++ fd_data f)) by zlia.
  specialize (IH (pre ++ trun_entry_v2 f) (head ++ fd_data f)). rewrite <- !app_assoc in IH.
  rewrite IH. unfold sample_of_frame_v2 at 1. cbn [option_map]. by rewrite as_i32_pattern.
Qed.

Lemma read_trun_v1 frames pre head post : Forall frame_ok frames ->
  read_trun_samples (length frames) 769 (pre ++ concat (map trun_entry frames)) (zlen pre)
    (head ++ concat (map fd_data frames) ++ post) (zlen head)
  = Some (map sample_of_frame frames).
Proof.
  intros Hok. revert pre head. induction Hok as [|f frames Hf _ IH]; intros pre head; [done|].
  destruct Hf as (Hsz & Hs & Hd & Hc). cbn [length map concat read_trun_samples].
  set (trun := pre ++ trun_entry f ++ concat (map trun_entry frames)).
  assert (Htrun : forall l x k i mask, trun = l ++ be_bytes 4 x ++ k -> is_u32 x -> i = zlen l ->
    Z.land 769 mask <> 0 -> trun_field 769 mask trun i = Some (Some x, i + 4)).
  { intros l x k i mask -> ? ?. by apply trun_field_mid. }
  rewrite (Htrun pre (fd_duration f) _ (zlen pre) 256 ltac:(unfold trun, trun_entry; by rewrite <- !app_assoc)) by done.
  rewrite (Htrun (pre ++ be_bytes 4 (fd_duration f)) (fd_size f) _ (zlen pre + 4) 512
    ltac:(unfold trun, trun_entry; by rewrite <- !app_assoc)) by (done || zlia).
  assert (Habsent : forall i, trun_field 769 1024 trun i = Some (None, i) /\
    trun_field 769 2048 trun i = Some (None, i)) by done.
  rewrite (proj1 (Habsent _)), (proj2 (Habsent _)).
  rewrite <- (app_assoc (fd_data f)), slice_app_mid by (done || lia). rewrite Hsz.
  unfold trun.
  replace (zlen pre + 4 + 4) with (zlen (pre ++ trun_entry f))
    by (rewrite zlen_app, zlen_trun_entry; lia).
  replace (zlen head + zlen (fd_data f)) with (zlen (head ++ fd_data f)) by zlia.
  specialize (IH (pre ++ trun_entry f) (head ++ fd_data f)). rewrite <- !app_assoc in IH.
  by rewrite IH.
Qed.

(** Following the boxes down to the sample data. *)
Lemma demux_fragment self track_id frames tfdt time flags entry n samples :
  (forall f, zlen (entry f) = n) -> 0 <= n <= 16 -> fst tfdt = str "tfdt" ->
  zlen (snd tfdt) <= 12 -> Forall frame_ok frames -> fits frames ->
  is_u32 (sequence_number self) -> is_u32 track_id -> 0 <= flags < 2 ^ 24 ->
  read_tfdt (snd tfdt) = Some time ->
  let data_offset := moof_size (8 + zlen (snd tfdt)) n (zlen frames) + 8 in
  (forall pre head, read_trun_samples (length frames) flags (pre ++ concat (map entry frames))
     (zlen pre) (head ++ concat (map fd_data frames) ++ []) (zlen head) = Some samples) ->
  demux (boxes_bytes (fragment_boxes self track_id tfdt
    (trun_box flags entry data_offset frames) frames))
  = Some {| fg_sequence := sequence_number self; fg_track := track_id; fg_decode_time := time;
            fg_samples := samples |}.
Proof.
  intros Hen Hn Htf Htl Hok Hfit Hseq Htid Hfl Htime data_offset Hread.
  assert (Htw : zlen (fst tfdt) = 4 /\ zlen (snd tfdt) <= 12) by (rewrite Htf; done).
  pose proof (zlen_nonneg frames) as Hn0. pose proof (total_size_nonneg frames Hok) as Hts.
  assert (Hoff : 0 <= data_offset < 2 ^ 31).
  { unfold data_offset, moof_size, fits in *. pose proof (zlen_nonneg (snd tfdt)). nia. }
  destruct (fragment_payload_at self track_id frames tfdt flags data_offset n entry
    Hen Hn Htw Hok Hfit) as (head & Hfrag & Hhead). fold data_offset in Hhead.
  pose proof (parse_boxes_bytes _ (fragment_boxes_wf self track_id frames tfdt flags data_offset n entry
    Hen Hn Htw Hok Hfit)) as Hparse.
  revert Hfrag Hparse. generalize (boxes_bytes (fragment_boxes self track_id tfdt
    (trun_box flags entry data_offset frames) frames)).
  intros fragment -> Hparse. unfold demux. rewrite Hparse. cbn [fragment_boxes mdat_box]. clear Hparse.
  change (negb (str_eqb (str "moof") (str "moof") && str_eqb (str "mdat") (str "mdat"))) with false.
  cbv iota. rewrite parse_boxes_bytes by (eapply moof_boxes_wf; done).
  change (find_box (str "mfhd") _) with (Some (snd (mfhd_box self))).
  change (find_box (str "traf") _) with
    (Some (boxes_bytes [tfhd_box track_id; tfdt; trun_box flags entry data_offset frames])).
  cbv iota beta. rewrite parse_boxes_bytes by (eapply traf_boxes_wf; done).
  destruct tfdt as [ty tfdt]. cbn [fst snd] in *. subst ty.
  change (find_box (str "tfhd") _) with (Some (snd (tfhd_box track_id))).
  change (find_box (str "tfdt") _) with (Some tfdt).
  change (find_box (str "trun") _) with (Some (snd (trun_box flags entry data_offset frames))).
  cbv iota beta. rewrite Htime. cbn [snd mfhd_box tfhd_box trun_box].
  assert (Hmid : forall l x i, is_u32 x -> i = zlen l -> u32_at (l ++ be_bytes 4 x) i = Some x).
  { intros l x i Hx Hi. rewrite <- (app_nil_r (l ++ _)), <- app_assoc. by apply u32_at_mid. }
  rewrite (Hmid (be_bytes 4 0) (sequence_number self)) by done.
  rewrite (Hmid [0; 2; 0; 0] track_id) by done.
  pose proof (fun k => u32_at_mid [] (2 ^ 24 + flags) k 0) as Hhd. cbn [app] in Hhd.
  rewrite Hhd by (done || (unfold is_u32, u32_max; lia)).
  rewrite u32_at_mid by solve [by zlen_simpl | unfold is_u32, u32_max, fits in *; lia].
  rewrite (app_assoc (be_bytes 4 _)), u32_at_mid
    by solve [by zlen_simpl | unfold is_u32, u32_max; lia].
  replace ((2 ^ 24 + flags) mod 2 ^ 24) with flags.
  2:{ rewrite <- (Z.mul_1_l (2 ^ 24)) at 1. rewrite Z.add_comm, Z.mod_add by lia. by rewrite Z.mod_small. }
  replace (as_i32 data_offset) with data_offset.
  2:{ unfold as_i32, as_signed. rewrite Z.mod_small by lia.
      destruct (Z.ltb_spec data_offset (2 ^ (32 - 1))); lia. }
  rewrite <- Hhead.
  unfold zlen at 1. rewrite Nat2Z.id. rewrite (app_assoc _ (be_bytes 4 (zlen head))).
  set (pre := (_ ++ _) ++ be_bytes 4 (zlen head)).
  rewrite <- (app_nil_r (concat (map fd_data frames))).
  replace 12 with (zlen pre) by (unfold pre; by zlen_simpl). by rewrite Hread.
Qed.

(** ** The fragment constructors *)

(** What the converter needs to stay within its integer widths. *)
Definition can_advance (self : FragmentedMp4Converter) (frames : list FrameData) : Prop :=
  0 <= sequence_number self < u32_max /\ 0 <= base_media_decode_time self /\
  base_media_decode_time self + total_duration frames <= u64_max.

Definition advanced (self : FragmentedMp4Converter) (frames : list FrameData)
  : FragmentedMp4Converter :=
  {| sequence_number := sequence_number self + 1;
     base_media_decode_time := base_media_decode_time self + total_duration frames;
     converter_track_id := converter_track_id self |}.

Lemma advance_done self frames :
  Forall frame_ok frames -> can_advance self frames ->
  advance self frames = Done (advanced self frames).
Proof.
  intros Hok (Hs & Hb & Ht). pose proof (total_duration_nonneg frames Hok).
  unfold advance, add_u32, add_u64. rewrite checked_done by lia. cbn [exec_bind].
  rewrite checked_sum_done; [| |unfold total_duration in *; lia].
  - cbn [exec_bind]. fold (total_duration frames). by rewrite checked_done by lia.
  - rewrite Forall_map. eapply Forall_impl; [exact Hok|]. intros f (_ & _ & Hd & _).
    unfold is_u32 in Hd. cbn. lia.
Qed.

Lemma create_mdat_box frames :
  Forall frame_ok frames -> fits frames ->
  create_mdat frames = Done (ROk (box_bytes (mdat_box frames))).
Proof.
  intros Hok Hfit. unfold fits in Hfit. pose proof (zlen_nonneg frames).
  pose proof (total_size_nonneg frames Hok).
  unfold create_mdat, add_u32, total_size in *. rewrite checked_sum_done; [| |unfold u32_max; lia].
  - cbn [exec_bind]. rewrite checked_done by (unfold u32_max; lia). cbn [exec_bind].
    fold (total_size frames). by rewrite <- (zlen_frame_data frames Hok).
  - rewrite Forall_map. eapply Forall_impl; [exact Hok|]. intros f (_ & Hs & _ & _).
    unfold is_u32 in Hs. cbn. lia.
Qed.

Lemma wrap_traf self track_id frames tfdt flags data_offset n entry :
  (forall f, zlen (entry f) = n) -> 0 <= n <= 16 ->
  zlen (fst tfdt) = 4 /\ zlen (snd tfdt) <= 12 -> Forall frame_ok frames -> fits frames ->
  (let! traf := wrap_box (str "traf") (box_bytes (tfhd_box track_id) ++ box_bytes tfdt
     ++ box_bytes (trun_box flags entry data_offset frames)) in
   let! moof := wrap_box (str "moof") (box_bytes (mfhd_box self) ++ traf) in
   Done (ROk (E := io_error) moof))
  = Done (ROk (box_bytes (str "moof",
      boxes_bytes (moof_boxes self track_id tfdt (trun_box flags entry data_offset frames))))).
Proof.
  intros Hen Hn Htw Hok Hfit. set (trun := trun_box flags entry data_offset frames).
  assert (Htraf : box_bytes (tfhd_box track_id) ++ box_bytes tfdt ++ box_bytes trun
    = boxes_bytes [tfhd_box track_id; tfdt; trun])
    by (unfold boxes_bytes; cbn [map concat]; by rewrite app_nil_r).
  rewrite Htraf.
  pose proof (moof_boxes_wf self track_id frames tfdt flags data_offset n entry Hen Hn Htw Hok Hfit) as Hm.
  apply list.Forall_cons in Hm as [_ Hm]. apply list.Forall_cons in Hm as [[_ Hm] _].
  rewrite wrap_box_done by done. cbn [exec_bind].
  pose proof (fragment_boxes_wf self track_id frames tfdt flags data_offset n entry Hen Hn Htw Hok Hfit) as Hg.
  apply list.Forall_cons in Hg as [[_ Hg] _]. cbn [snd] in Hg. fold trun in Hg.
  assert (Hmoof : box_bytes (mfhd_box self)
      ++ box_bytes (str "traf", boxes_bytes [tfhd_box track_id; tfdt; trun])
    = boxes_bytes (moof_boxes self track_id tfdt trun))
    by (unfold moof_boxes; by rewrite (boxes_bytes_cons (mfhd_box self)), boxes_bytes_single).
  rewrite Hmoof. by rewrite wrap_box_done.
Qed.

Lemma create_fragment_v2_boxes self frames track_id timescale :
  Forall frame_ok frames -> fits frames -> can_advance self frames ->
  create_fragment_v2 self frames track_id timescale
  = Done (advanced self frames, ROk (boxes_bytes (fragment_boxes self track_id (tfdt_box self)
      (trun_box 3841 trun_entry_v2 (moof_size (tfdt_size self) 16 (zlen frames) + 8) frames) frames))).
Proof.
  intros Hok Hfit Hadv. unfold create_fragment_v2, create_moof_v2, create_traf_v2, try_bind.
  rewrite create_mfhd_box. cbn [exec_bind]. rewrite create_tfhd_box. cbn [exec_bind].
  rewrite create_tfdt_auto_box by apply Hadv. cbn [exec_bind].
  rewrite create_trun_v2_box by done. cbn [exec_bind].
  pose proof (wrap_traf self track_id frames (tfdt_box self) 3841
    (moof_size (tfdt_size self) 16 (zlen frames) + 8) 16 trun_entry_v2 zlen_trun_entry_v2) as Hw.
  specialize (Hw ltac:(lia)). rewrite zlen_tfdt_box in Hw.
  specialize (Hw ltac:(split; [reflexivity|unfold tfdt_size; case_match; lia]) Hok Hfit).
  destruct (wrap_box (str "traf") _) as [traf| |]; try done. cbn [exec_bind] in *.
  destruct (wrap_box (str "moof") _) as [moof| |]; try done. cbn [exec_bind] in *.
  injection Hw as ->. unfold create_mdat_v2. rewrite create_mdat_box by done. cbn [exec_bind].
  rewrite advance_done by done. unfold fragment_boxes. by rewrite (boxes_bytes_pair (str "moof", _)).
Qed.

Lemma create_fragment_boxes self frames track_id timescale :
  Forall frame_ok frames -> fits frames -> can_advance self frames ->
  create_fragment self frames track_id timescale
  = Done (advanced self frames, ROk (boxes_bytes (fragment_boxes self track_id (tfdt_box_v1 self)
      (trun_box 769 trun_entry (moof_size 16 8 (zlen frames) + 8) frames) frames))).
Proof.
  intros Hok Hfit Hadv. unfold create_fragment, create_moof, create_traf, try_bind.
  rewrite create_mfhd_box. cbn [exec_bind]. rewrite create_tfhd_box. cbn [exec_bind].
  rewrite create_tfdt_box_v1. cbn [exec_bind]. rewrite create_trun_box by done. cbn [exec_bind].
  pose proof (wrap_traf self track_id frames (tfdt_box_v1 self) 769
    (moof_size 16 8 (zlen frames) + 8) 8 trun_entry zlen_trun_entry ltac:(lia)
    ltac:(done) Hok Hfit) as Hw.
  destruct (wrap_box (str "traf") _) as [traf| |]; try done. cbn [exec_bind] in *.
  destruct (wrap_box (str "moof") _) as [moof| |]; try done. cbn [exec_bind] in *.
  injection Hw as ->. rewrite create_mdat_box by done. cbn [exec_bind].
  rewrite advance_done by done. unfold fragment_boxes. by rewrite (boxes_bytes_pair (str "moof", _)).
Qed.

Lemma create_fragment_v2_demux self frames track_id timescale :
  Forall frame_ok frames -> fits frames -> can_advance self frames -> is_u32 track_id ->
  exists fragment,
    create_fragment_v2 self frames track_id timescale
      = Done (advanced self frames, ROk fragment) /\
    demux fragment = Some {|
      fg_sequence := sequence_number self; fg_track := track_id;
      fg_decode_time := base_media_decode_time self;
      fg_samples := map sample_of_frame_v2 frames |}.
Proof.
  intros Hok Hfit Hadv Htid. eexists. split; [by apply create_fragment_v2_boxes|].
  destruct Hadv as (Hs & Hb & Ht). pose proof (total_duration_nonneg frames Hok).
  replace (tfdt_size self) with (8 + zlen (snd (tfdt_box self))) by (rewrite zlen_tfdt_box; lia).
  apply (demux_fragment self track_id frames (tfdt_box self) _ 3841 trun_entry_v2 16);
    [apply zlen_trun_entry_v2|lia|done| |done|done| |done|lia| |].
  - rewrite zlen_tfdt_box. unfold tfdt_size. case_match; lia.
  - unfold is_u32. lia.
  - unfold tfdt_box. cbn [snd]. destruct (Z.ltb_spec u32_max (base_media_decode_time self)).
    + cbn [app read_tfdt]. pose proof (be64_at_mid [1; 0; 0; 0] (base_media_decode_time self) [] 4) as Hm.
      rewrite app_nil_r in Hm. cbn [app] in Hm. rewrite Hm; [done| |done]. unfold is_u64. lia.
    + change (u32_at (be_bytes 4 0 ++ be_bytes 4 (base_media_decode_time self)) 4
        = Some (base_media_decode_time self)).
      rewrite <- (app_nil_r (be_bytes 4 (base_media_decode_time self))).
      apply u32_at_mid; [unfold is_u32; lia|by zlen_simpl].
  - intros pre head. by apply read_trun_v2.
Qed.

(** C2: A fragment made by [create_fragment_v2] reads back: a demultiplexer
    that knows only the box format recovers the sequence number, track, decode
    time and, through the [trun] flags and the data offset, every frame with
    its data, duration, sync flag and signed composition offset. The 64-bit
    [tfdt] is used when the decode time needs it. *)
Theorem create_fragment_v2_roundtrip self frames track_id timescale :
  Forall frame_ok frames -> fits frames -> can_advance self frames -> is_u32 track_id ->
  exists fragment,
    create_fragment_v2 self frames track_id timescale
      = Done (advanced self frames, ROk fragment) /\
    demux fragment = Some {|
      fg_sequence := sequence_number self; fg_track := track_id;
      fg_decode_time := base_media_decode_time self;
      fg_samples := map sample_of_frame_v2 frames |}.
Proof. apply create_fragment_v2_demux. Qed.

(** The same for the version-1 constructor [create_fragment], whose [trun]
    carries no flags and no composition offsets and whose decode time is the
    low 32 bits of the converter's clock. *)
Theorem create_fragment_roundtrip self frames track_id timescale :
  Forall frame_ok frames -> fits frames -> can_advance self frames -> is_u32 track_id ->
  exists fragment,
    create_fragment self frames track_id timescale
      = Done (advanced self frames, ROk fragment) /\
    demux fragment = Some {|
      fg_sequence := sequence_number self; fg_track := track_id;
      fg_decode_time := as_u32 (base_media_decode_time self);
      fg_samples := map sample_of_frame frames |}.
Proof.
  intros Hok Hfit Hadv Htid. eexists. split; [by apply create_fragment_boxes|].
  destruct Hadv as (Hs & Hb & Ht).
  apply (demux_fragment self track_id frames (tfdt_box_v1 self) _ 769 trun_entry 8);
    [apply zlen_trun_entry|lia|done|done|done|done| |done|lia| |].
  - unfold is_u32. lia.
  - change (u32_at (be_bytes 4 0 ++ be_bytes 4 (as_u32 (base_media_decode_time self))) 4
        = Some (as_u32 (base_media_decode_time self))).
    rewrite <- (app_nil_r (be_bytes 4 (as_u32 _))).
    apply u32_at_mid; [apply as_u32_range|by zlen_simpl].
  - intros pre head. by apply read_trun_v1.
Qed.

(** ** Streams of fragments *)

(** Successive calls on one converter. *)
Fixpoint fragment_stream (self : FragmentedMp4Converter) (groups : list (list FrameData))
    (track_id timescale : Z) : exec (FragmentedMp4Converter * list bytes) :=
  match groups with
  | [] => Done (self, [])
  | frames :: groups' =>
      let! (self', r) := create_fragment_v2 self frames track_id timescale in
      match r with
      | RErr _ => Done (self', [])
      | ROk fragment =>
          let! (self'', rest) := fragment_stream self' groups' track_id timescale in
          Done (self'', fragment :: rest)
      end
  end.

Definition stream_duration (groups : list (list FrameData)) : Z :=
  fold_right Z.add 0 (map total_duration groups).

Lemma stream_duration_nonneg groups :
  Forall (Forall frame_ok) groups -> 0 <= stream_duration groups.
Proof.
  unfold stream_duration. induction 1 as [|g gs Hg _ IH]; cbn; [done|].
  pose proof (total_duration_nonneg g Hg). lia.
Qed.

(** C26: Fragments made one after the other form a gapless stream: the fragment
    of group [i] carries sequence number start + [i], the frames of that group,
    and a decode time equal to the converter's initial time plus the durations
    of all earlier groups. *)
Theorem fragment_stream_continuous self groups track_id timescale :
  Forall (Forall frame_ok) groups -> Forall fits groups -> is_u32 track_id ->
  0 <= sequence_number self -> sequence_number self + zlen groups <= u32_max ->
  0 <= base_media_decode_time self ->
  base_media_decode_time self + stream_duration groups <= u64_max ->
  exists self' fragments,
    fragment_stream self groups track_id timescale = Done (self', fragments) /\
    length fragments = length groups /\
    base_media_decode_time self' = base_media_decode_time self + stream_duration groups /\
    forall i frames, groups !! i = Some frames ->
      exists fragment, fragments !! i = Some fragment /\
        demux fragment = Some {|
          fg_sequence := sequence_number self + Z.of_nat i; fg_track := track_id;
          fg_decode_time := base_media_decode_time self + stream_duration (take i groups);
          fg_samples := map sample_of_frame_v2 frames |}.
Proof.
  intros Hok Hfit Htid. revert self Hfit. induction Hok as [|g gs Hg Hgs IH];
    intros self Hfit Hs0 Hs Hb0 Hb.
  { exists self, []. repeat split; try done. unfold stream_duration. cbn. lia. }
  apply list.Forall_cons in Hfit as [Hfg Hfgs]. rewrite zlen_cons in Hs.
  pose proof (zlen_nonneg gs). pose proof (stream_duration_nonneg gs Hgs) as Hd.
  change (stream_duration (g :: gs)) with (total_duration g + stream_duration gs) in *.
  pose proof (total_duration_nonneg g Hg).
  destruct (create_fragment_v2_demux self g track_id timescale Hg Hfg) as (fragment & Hc & Hdm);
    [unfold can_advance; lia|done|].
  destruct (IH (advanced self g) Hfgs) as (self' & fragments & Hrun & Hlen & Hbase & Hall);
    try (cbn; lia).
  exists self', (fragment :: fragments). cbn [fragment_stream]. rewrite Hc. cbn [exec_bind].
  rewrite Hrun. cbn [exec_bind advanced base_media_decode_time sequence_number] in *.
  repeat split; [cbn; lia|lia|].
  intros [|i] frames Hi; cbn [lookup list_lookup] in Hi.
  - injection Hi as <-. exists fragment. split; [done|]. rewrite Hdm. do 2 f_equal; cbn; lia.
  - destruct (Hall i frames Hi) as (fr & Hfr & Hdfr). exists fr. split; [done|].
    rewrite Hdfr. cbn [take].
    change (stream_duration (g :: take i gs)) with (total_duration g + stream_duration (take i gs)).
    do 2 f_equal; lia.
Qed.

(** ** Initialization segments *)

Definition trex_box (track_id : Z) : mp4_box :=
  (str "trex", be_bytes 4 0 ++ be_bytes 4 track_id ++ be_bytes 4 1 ++ be_bytes 4 0
               ++ be_bytes 4 0 ++ be_bytes 4 0).
Definition mvex_box : mp4_box := (str "mvex", boxes_bytes [trex_box 1; trex_box 2]).

(** [create_init_segment] with [needs_mvex] appends one [mvex] box with
    the two [trex] boxes to the children of a well-formed [moov], fixes the
    size field, and keeps the [ftyp] and every original child. *)
Theorem create_init_segment_children ftyp children :
  wf_box ftyp -> Forall wf_box children -> 100 + zlen (boxes_bytes children) <= u32_max ->
  create_init_segment (box_bytes ftyp) (box_bytes (str "moov", boxes_bytes children)) true
  = Done (ROk (boxes_bytes [ftyp; (str "moov", boxes_bytes (children ++ [mvex_box]))])).
Proof.
  intros Hf Hc Hsz. pose proof (zlen_nonneg (boxes_bytes children)).
  assert (Hwf : wf_box (str "moov", boxes_bytes children)) by (split; [done|cbn [snd]; lia]).
  unfold create_init_segment, try_bind, add_mvex_to_moov.
  rewrite zlen_box_bytes by done. unfold box_size. cbn [snd].
  destruct (Z.ltb_spec (8 + zlen (boxes_bytes children)) 8); [lia|].
  pose proof (box_header_at [] _ [] 0 Hwf eq_refl) as Hh.
  pose proof (box_type_at [] _ [] 4 8 Hwf eq_refl eq_refl) as Ht.
  cbn [app] in Hh, Ht. rewrite app_nil_r in Hh, Ht. rewrite Hh, Ht. cbn [exec_bind fst].
  rewrite str_eqb_refl. cbn [negb].
  change create_mvex with (Done (ROk (E := io_error) (box_bytes mvex_box))). unfold try_bind.
  cbn [exec_bind]. change (as_u32 (zlen (box_bytes mvex_box))) with 72.
  unfold add_u32, box_size. cbn [snd]. rewrite checked_done by lia. cbn [exec_bind].
  assert (Hrest : slice_from (box_bytes (str "moov", boxes_bytes children)) 8
    = Done (boxes_bytes children)).
  { unfold slice_from, box_bytes. cbn [fst snd].
    rewrite (app_assoc (be_bytes 4 _)), <- (app_nil_r (boxes_bytes children)) at 1 2.
    apply slice_app_mid; [by zlen_simpl|]. by rewrite app_nil_r, !zlen_app. }
  rewrite Hrest. cbn [exec_bind]. do 2 f_equal. rewrite boxes_bytes_pair. f_equal.
  unfold box_bytes at 2. cbn [fst snd]. rewrite boxes_bytes_app, boxes_bytes_single.
  f_equal. f_equal. rewrite zlen_app. change (zlen (box_bytes mvex_box)) with 72. lia.
Qed.

(** ** Witnesses *)

Ltac concrete_frames :=
  repeat match goal with
  | |- Forall _ _ => constructor
  | |- frame_ok _ => unfold frame_ok
  | |- _ /\ _ => split
  | |- True => exact I
  | |- _ => progress (unfold fits, can_advance, total_size, total_duration, is_u32, is_u64, u32_max, u64_max)
  end; try reflexivity; try (vm_compute; first [reflexivity | discriminate]).

Lemma create_fragment_v2_roundtrip_witness :
  exists fragment,
    create_fragment_v2 new_converter demo_frames 1 1000
      = Done (advanced new_converter demo_frames, ROk fragment) /\
    demux fragment = Some {| fg_sequence := 1; fg_track := 1; fg_decode_time := 0;
      fg_samples := map sample_of_frame_v2 demo_frames |}.
Proof. apply (create_fragment_v2_roundtrip new_converter demo_frames 1 1000); concrete_frames. Defined.

Lemma create_fragment_roundtrip_witness :
  exists fragment,
    create_fragment new_converter demo_frames 1 1000
      = Done (advanced new_converter demo_frames, ROk fragment) /\
    demux fragment = Some {| fg_sequence := 1; fg_track := 1; fg_decode_time := 0;
      fg_samples := map sample_of_frame demo_frames |}.
Proof. apply (create_fragment_roundtrip new_converter demo_frames 1 1000); concrete_frames. Defined.

Lemma fragment_stream_continuous_witness :
  exists self' fragments,
    fragment_stream new_converter [demo_frames; demo_frames] 1 1000 = Done (self', fragments) /\
    length fragments = 2%nat /\ base_media_decode_time self' = 3800.
Proof.
  destruct (fragment_stream_continuous new_converter [demo_frames; demo_frames] 1 1000)
    as (self' & fragments & H & Hl & Hb & _); concrete_frames.
  exists self', fragments. split; [exact H|]. split; [exact Hl|]. exact Hb.
Defined.

Lemma create_init_segment_children_witness :
  create_init_segment (box_bytes (str "ftyp", str "isom")) (box_bytes (str "moov", boxes_bytes [])) true
  = Done (ROk (boxes_bytes [(str "ftyp", str "isom"); (str "moov", boxes_bytes ([] ++ [mvex_box]))])).
Proof.
  apply create_init_segment_children; [split; [reflexivity|]|constructor|];
    unfold u32_max; vm_compute; discriminate.
Defined.
