(* ===== verification/Mp4Data.v ===== *)
(** * Data of the MP4 parser

    The types of [core/src/media/mp4_parser.rs]: parsed boxes, tracks,
    segments and the parser's state, with the accessors and the box
    serializer that only need the data. *)

From S2P Require Import Prelude Rust Mp4Box SampleTable Fmp4.

#[local] Open Scope Z_scope.

Record BoxHeader : Type := {
  box_type : rstring;
  bh_size : Z;
  content_start : Z;
}.

Inductive BoxContent : Type :=
| FileType (major_brand : rstring) (minor_version : Z) (compatible_brands : list rstring)
| MovieHeader (creation_time modification_time timescale duration : Z)
| Track (track_id duration : Z) (media_type : rstring)
| Raw (data : bytes).

Record Mp4Box : Type := { header : BoxHeader; content : BoxContent }.

Record Mp4Track : Type := {
  track_id : Z;
  media_type : rstring;
  timescale : Z;
  track_duration : Z;
  codec : rstring;
  codec_mime_type : rstring;
  codec_params : option rstring;
  sample_table : option SampleTable;
}.

Record MseSegment : Type := {
  segment_type : rstring;
  ms_data : bytes;
  ms_timestamp : option Z;
  ms_duration : option Z;
  ms_is_keyframe : bool;
  ms_track_id : Z;
}.

Record Mp4Parser : Type := {
  boxes : list Mp4Box;
  tracks : list Mp4Track;
  is_fragmented : bool;
  fmp4_converter : FragmentedMp4Converter;
  mdat_payload_offset : Z;
  pending_sample_table : option SampleTable;
}.

(** [Mp4Parser::new()]. *)
Definition new_parser : Mp4Parser := {|
  boxes := []; tracks := []; is_fragmented := false; fmp4_converter := new_converter;
  mdat_payload_offset := 0; pending_sample_table := None;
|}.

Definition invalid_data (m : rstring) : io_error := IoError InvalidData m.

(** ** Accessors *)

Definition is_type (b : Mp4Box) (ty : rstring) : bool := str_eqb (box_type (header b)) ty.

Definition is_media (ty : rstring) (t : Mp4Track) : bool := str_eqb (media_type t) ty.

(** [self.tracks.iter().find(|t| t.media_type == ty)]. *)
Definition find_track (ty : rstring) (ts : list Mp4Track) : option Mp4Track := List.find (is_media ty) ts.

Definition has_audio_track (self : Mp4Parser) : bool := existsb (is_media (str "soun")) (tracks self).
Definition has_video_track (self : Mp4Parser) : bool := existsb (is_media (str "vide")) (tracks self).

Definition get_video_codec_info (self : Mp4Parser) : option (rstring * rstring) :=
  option_map (fun t => (codec t, codec_mime_type t)) (find_track (str "vide") (tracks self)).
Definition get_audio_codec_info (self : Mp4Parser) : option (rstring * rstring) :=
  option_map (fun t => (codec t, codec_mime_type t)) (find_track (str "soun") (tracks self)).

(** ** Serializing a parsed box *)

Definition content_bytes (c : BoxContent) : bytes :=
  match c with
  | Raw data => data
  | FileType major_brand minor_version compatible_brands =>
      major_brand ++ be_bytes 4 minor_version ++ concat compatible_brands
  | _ => []
  end.

Definition serialize_box (b : Mp4Box) : exec bytes :=
  if negb (zlen (box_type (header b)) =? 4) then Done []
  else
    let content_data := content_bytes (content b) in
    if 100000000 <? zlen content_data then Done []
    else
      let! total_size := add_u32 8 (as_u32 (zlen content_data)) in
      if 100000000 <? total_size then Done []
      else
        let data := be_bytes 4 total_size ++ box_type (header b) ++ content_data in
        if 8 <=? zlen data then
          let! ty := slice data 4 8 in
          let! parsed_size := be32_at data 0 in
          if negb (parsed_size =? as_u32 (zlen data)) then Done []
          else if negb (str_eqb (from_utf8_lossy ty) (box_type (header b))) then Done []
          else Done data
        else Done data.

(** [is_likely_keyframe]: every fifth segment, or an SPS or PPS NAL start. *)
Fixpoint windows_any (f : Z -> Z -> Z -> Z -> bool) (data : bytes) : bool :=
  match data with
  | a :: (b :: c :: d :: _) as rest => f a b c d || windows_any f rest
  | _ => false
  end.

Definition is_likely_keyframe (data : bytes) (segment_index : Z) : bool :=
  if segment_index mod 5 =? 0 then true
  else if 4 <? zlen data then
    windows_any (fun w0 w1 w2 w3 =>
      (w0 =? 0) && (w1 =? 0) && (w2 =? 1) &&
      (let nal_type := Z.land w3 31 in (nal_type =? 7) || (nal_type =? 8))) data
  else false.

(** ** Facts *)

(** A raw box of a four-character type that is valid UTF-8 and at most
    100 MB long is written as its box bytes. *)
Definition serializable (b : Mp4Box) : Prop :=
  zlen (box_type (header b)) = 4 /\ from_utf8_lossy (box_type (header b)) = box_type (header b) /\
  8 + zlen (content_bytes (content b)) <= 100000000.

Definition as_box (b : Mp4Box) : mp4_box := (box_type (header b), content_bytes (content b)).

Lemma serializable_wf b : serializable b -> wf_box (as_box b).
Proof. intros (Ht & _ & Hs). split; [done|]. unfold as_box, u32_max. cbn. lia. Qed.

Lemma serialize_box_done b : serializable b -> serialize_box b = Done (box_bytes (as_box b)).
Proof.
  intros Hser. pose proof (serializable_wf b Hser) as Hwf. destruct Hser as (Ht & Hu & Hs).
  pose proof (zlen_nonneg (content_bytes (content b))).
  unfold serialize_box. rewrite Ht. cbn [Z.eqb Pos.eqb negb].
  destruct (Z.ltb_spec 100000000 (zlen (content_bytes (content b)))); [lia|].
  unfold add_u32. rewrite as_u32_small by (unfold is_u32, u32_max; lia).
  rewrite checked_done by (unfold u32_max; lia). cbn [exec_bind].
  destruct (Z.ltb_spec 100000000 (8 + zlen (content_bytes (content b)))); [lia|].
  change (be_bytes 4 (8 + zlen (content_bytes (content b))) ++ box_type (header b) ++ content_bytes (content b))
    with (box_bytes (as_box b)).
  rewrite zlen_box_bytes by done. unfold box_size. cbn [as_box snd].
  destruct (Z.leb_spec 8 (8 + zlen (content_bytes (content b)))); [|lia].
  pose proof (box_header_at [] (as_box b) [] 0 Hwf eq_refl) as Hh.
  pose proof (box_type_at [] (as_box b) [] 4 8 Hwf eq_refl eq_refl) as Hty.
  cbn [app] in Hh, Hty. rewrite app_nil_r in Hh, Hty. rewrite Hh, Hty. cbn [exec_bind].
  unfold box_size. cbn [as_box fst snd]. rewrite as_u32_small by (unfold is_u32, u32_max; lia).
  rewrite Z.eqb_refl. cbn [negb]. rewrite Hu, str_eqb_refl. done.
Qed.

Lemma serialize_box_returns b : zlen (content_bytes (content b)) < 2 ^ 32 ->
  returns (serialize_box b) (fun _ => True).
Proof.
  intros Hc. pose proof (zlen_nonneg (content_bytes (content b))). unfold serialize_box.
  repeat case_match; try (by eexists). reflect_bools.
  unfold add_u32. rewrite as_u32_small by (unfold is_u32, u32_max; lia).
  rewrite checked_done by (unfold u32_max; lia). cbn [exec_bind].
  case_match; [by eexists|]. case_match; [|by eexists]. reflect_bools.
  destruct (slice_returns (be_bytes 4 (8 + zlen (content_bytes (content b))) ++
    box_type (header b) ++ content_bytes (content b)) 4 8) as (ty & -> & _); [lia|lia|].
  cbn [exec_bind]. rewrite be32_at_be_bytes by (unfold is_u32, u32_max; lia). cbn [exec_bind].
  repeat case_match; by eexists.
Qed.
