(* ===== verification/Mp4Moov.v ===== *)
(** * Rewriting [moov] boxes

    Models the functions of [core/src/media/mp4_parser.rs] that rebuild a
    [moov] box for Media Source Extensions: finding the handler and the id of
    a track, dropping tracks, filtering [mvex], and appending the [mvex] box a
    regular file lacks. *)

From S2P Require Import Prelude Rust Mp4Box SampleTable Fmp4 Mp4Data.

#[local] Open Scope Z_scope.

(** ** Looking into a track *)

(** The loop of [is_video_track] and [track_has_handler_type] over the
    children of [mdia]; [at_] is where in the [hdlr] box the handler is read. *)
Definition scan_mdia (trak_data : bytes) (at_ mdia_end mdia_cursor : Z) (handler : rstring)
  : exec (option bool) :=
  scan_boxes trak_data mdia_end
    (fun (_ : unit) mdia_cursor _ inner_box_type =>
       if str_eqb inner_box_type (str "hdlr") && (mdia_cursor + 16 <=? mdia_end) then
         let! found := slice trak_data (mdia_cursor + at_) (mdia_cursor + at_ + 4) in
         Done (Break (Some (str_eqb (from_utf8_lossy found) handler)))
       else Done (Continue tt))
    (fun _ => Done None) mdia_cursor tt.

Definition scan_trak (trak_data : bytes) (at_ : Z) (handler : rstring) : exec bool :=
  scan_boxes trak_data (zlen trak_data)
    (fun (_ : unit) cursor box_size box_type =>
       if str_eqb box_type (str "mdia") then
         let! inner := scan_mdia trak_data at_ (cursor + box_size) (cursor + 8) handler in
         match inner with
         | Some b => Done (Break b)
         | None => Done (Continue tt)
         end
       else Done (Continue tt))
    (fun _ => Done false) 8 tt.

Definition is_video_track (trak_data : bytes) : exec bool := scan_trak trak_data 12 (str "vide").

Definition track_has_handler_type (trak_data : bytes) (handler_type : rstring) : exec bool :=
  scan_trak trak_data 16 handler_type.

Definition extract_track_id_from_trak (trak_data : bytes) : exec (option Z) :=
  scan_boxes trak_data (zlen trak_data)
    (fun (_ : unit) cursor _ box_type =>
       if str_eqb box_type (str "tkhd") && (cursor + 24 <=? zlen trak_data) then
         let! track_id := be32_at trak_data (cursor + 20) in
         Done (Break (Some track_id))
       else Done (Continue tt))
    (fun _ => Done None) 8 tt.

(** ** Dropping tracks *)

Definition create_video_only_moov (moov_content : bytes) : exec bytes :=
  scan_boxes moov_content (zlen moov_content)
    (fun output cursor box_size box_type =>
       if str_eqb box_type (str "trak") then
         let! trak := slice moov_content cursor (cursor + box_size) in
         let! video := is_video_track trak in
         Done (Continue (if video then output ++ trak else output))
       else
         let! other := slice moov_content cursor (cursor + box_size) in
         Done (Continue (output ++ other)))
    (fun output => Done output) 0 [].

Definition filter_mvex_for_tracks (mvex_data : bytes) (kept_track_ids : list Z) : exec bytes :=
  if zlen mvex_data <? 8 then Done []
  else
    scan_boxes mvex_data (zlen mvex_data)
      (fun mvex_content cursor box_size box_type =>
         if str_eqb box_type (str "trex") then
           if cursor + 16 <=? zlen mvex_data then
             let! track_id := be32_at mvex_data (cursor + 12) in
             if bool_decide (track_id ∈ kept_track_ids) then
               let! trex := slice mvex_data cursor (cursor + box_size) in
               Done (Continue (mvex_content ++ trex))
             else Done (Continue mvex_content)
           else Done (Continue mvex_content)
         else
           let! other := slice mvex_data cursor (cursor + box_size) in
           Done (Continue (mvex_content ++ other)))
      (fun mvex_content =>
         if zlen mvex_content =? 0 then Done []
         else wrap_box (str "mvex") mvex_content)
      8 [].

Definition filter_moov_for_track_type (moov_content : bytes) (keep_type : rstring) : exec bytes :=
  scan_boxes moov_content (zlen moov_content)
    (fun '(output, kept_track_ids, mvex_data) cursor box_size box_type =>
       if str_eqb box_type (str "trak") then
         let! trak_data := slice moov_content cursor (cursor + box_size) in
         let! keep := track_has_handler_type trak_data keep_type in
         if keep then
           let! id := extract_track_id_from_trak trak_data in
           let kept' := match id with Some i => kept_track_ids ++ [i] | None => kept_track_ids end in
           Done (Continue (output ++ trak_data, kept', mvex_data))
         else Done (Continue (output, kept_track_ids, mvex_data))
       else if str_eqb box_type (str "mvex") then
         Done (Continue (output, kept_track_ids, Some (cursor, box_size)))
       else
         let! other := slice moov_content cursor (cursor + box_size) in
         Done (Continue (output ++ other, kept_track_ids, mvex_data)))
    (fun '(output, kept_track_ids, mvex_data) =>
       match mvex_data with
       | Some (mvex_start, mvex_size) =>
           let! mvex := slice moov_content mvex_start (mvex_start + mvex_size) in
           let! filtered := filter_mvex_for_tracks mvex kept_track_ids in
           Done (output ++ filtered)
       | None => Done output
       end)
    0 ([], [], None).

Definition build_moov_box (content : bytes) : exec bytes := wrap_box (str "moov") content.

(** ** The [mvex] box of a regular file *)

Definition create_trex_box (track_id : Z) : exec (result bytes io_error) :=
  let trex_content := [0; 0; 0; 0]
    ++ [as_u8 (Z.shiftr track_id 24); as_u8 (Z.shiftr track_id 16); as_u8 (Z.shiftr track_id 8);
        as_u8 track_id]
    ++ [0; 0; 0; 1] ++ [0; 0; 0; 0] ++ [0; 0; 0; 0] ++ [0; 0; 0; 0] in
  let! trex := wrap_box (str "trex") trex_content in
  Done (ROk trex).

Fixpoint trex_boxes (ts : list Mp4Track) : exec (result bytes io_error) :=
  match ts with
  | [] => Done (ROk [])
  | t :: ts' =>
      let? trex := create_trex_box (track_id t) in
      let? rest := trex_boxes ts' in
      Done (ROk (trex ++ rest))
  end.

Definition create_mvex_box (self : Mp4Parser) : exec (result bytes io_error) :=
  let? mvex_content := trex_boxes (tracks self) in
  let! mvex := wrap_box (str "mvex") mvex_content in
  Done (ROk mvex).

(** The test for AC-3 audio made here and in
    [create_fragments_from_regular_mp4]. *)
Definition has_ac3_params (self : Mp4Parser) : bool :=
  existsb (fun t => is_media (str "soun") t &&
                    match codec_params t with Some p => str_eqb p (str "AC-3") | None => false end)
    (tracks self).

Definition create_mse_compatible_moov (self : Mp4Parser) (original_moov : Mp4Box)
  : exec (result bytes io_error) :=
  match content original_moov with
  | Raw original_content =>
      let! modified_content :=
        if has_ac3_params self then create_video_only_moov original_content
        else Done original_content in
      let? mvex_box := create_mvex_box self in
      let! moov := wrap_box (str "moov") (modified_content ++ mvex_box) in
      Done (ROk moov)
  | _ => Done (RErr (invalid_data (str "Invalid moov box content")))
  end.

(** ** Separate initialization segments *)

(** The last [ftyp], serialized, and the last raw [moov] content. *)
Definition find_ftyp_moov (bs : list Mp4Box) : exec (option bytes * option bytes) :=
  for_each (fun '(ftyp_data, moov_data) b =>
    if is_type b (str "ftyp") then
      let! data := serialize_box b in Done (Some data, moov_data)
    else if is_type b (str "moov") then
      match content b with
      | Raw c => Done (ftyp_data, Some c)
      | _ => Done (ftyp_data, moov_data)
      end
    else Done (ftyp_data, moov_data)) bs (None, None).

Definition init_for (moov_content ftyp : bytes) (keep : rstring) : exec bytes :=
  let! filtered := filter_moov_for_track_type moov_content keep in
  let! moov := build_moov_box filtered in
  Done (ftyp ++ moov).

Definition generate_separate_init_segments (self : Mp4Parser)
  : exec (result (bytes * option bytes) io_error) :=
  let! found := find_ftyp_moov (boxes self) in
  match found with
  | (None, _) => Done (RErr (invalid_data (str "No ftyp box found in MP4")))
  | (Some _, None) => Done (RErr (invalid_data (str "No moov box found in MP4")))
  | (Some ftyp, Some moov_content) =>
      if negb (has_video_track self) then
        Done (RErr (invalid_data (str "No video track found in MP4")))
      else
        let! video_init := init_for moov_content ftyp (str "vide") in
        if has_audio_track self then
          let! audio_init := init_for moov_content ftyp (str "soun") in
          Done (ROk (video_init, Some audio_init))
        else Done (ROk (video_init, None))
  end.

(** ** Reference: standard tracks and movies *)

(** A [hdlr] content: version and flags, the [pre_defined] field, the handler
    type, and what follows. *)
Record std_trak : Type := {
  tk_head : bytes;         (* tkhd version, flags, creation and modification time *)
  tk_id : Z;
  tk_tail : bytes;         (* rest of tkhd *)
  tk_mid : list mp4_box;   (* between tkhd and mdia *)
  md_before : list mp4_box; (* mdhd and what else precedes hdlr *)
  hd_flags : bytes;
  hd_pre_defined : bytes;
  hd_handler : bytes;
  hd_rest : bytes;
  md_after : list mp4_box;
  tk_after : list mp4_box;
}.

Definition hdlr_box (t : std_trak) : mp4_box :=
  (str "hdlr", hd_flags t ++ hd_pre_defined t ++ hd_handler t ++ hd_rest t).
Definition mdia_children (t : std_trak) : list mp4_box := md_before t ++ hdlr_box t :: md_after t.
Definition mdia_box (t : std_trak) : mp4_box := (str "mdia", boxes_bytes (mdia_children t)).
Definition tkhd_box (t : std_trak) : mp4_box :=
  (str "tkhd", tk_head t ++ be_bytes 4 (tk_id t) ++ tk_tail t).
Definition trak_children (t : std_trak) : list mp4_box :=
  tkhd_box t :: tk_mid t ++ mdia_box t :: tk_after t.
Definition trak_box (t : std_trak) : mp4_box := (str "trak", boxes_bytes (trak_children t)).

Definition not_type (ty : string) (b : mp4_box) : Prop := fst b <> str ty.

(** Field widths of the standard, and boxes that fit their headers. *)
Definition std_trak_ok (t : std_trak) : Prop :=
  zlen (tk_head t) = 12 /\ is_u32 (tk_id t) /\ zlen (hd_flags t) = 4 /\
  zlen (hd_pre_defined t) = 4 /\ zlen (hd_handler t) = 4 /\
  Forall (not_type "mdia") (tk_mid t) /\ Forall (not_type "hdlr") (md_before t) /\
  Forall wf_box (trak_children t) /\ Forall wf_box (mdia_children t) /\ wf_box (trak_box t).

Inductive moov_child : Type :=
| Trak (t : std_trak)
| Mvex (trexes : list (Z * bytes)) (others : list mp4_box)
| Other (b : mp4_box).

(** A [trex]: version and flags, the track id, the defaults. *)
Definition trex_of (x : Z * bytes) : mp4_box :=
  (str "trex", be_bytes 4 0 ++ be_bytes 4 (fst x) ++ snd x).
Definition mvex_of (trexes : list (Z * bytes)) (others : list mp4_box) : mp4_box :=
  (str "mvex", boxes_bytes (others ++ map trex_of trexes)).

Definition child_box (c : moov_child) : mp4_box :=
  match c with
  | Trak t => trak_box t
  | Mvex trexes others => mvex_of trexes others
  | Other b => b
  end.

Definition child_ok (c : moov_child) : Prop :=
  wf_box (child_box c) /\
  match c with
  | Trak t => std_trak_ok t
  | Mvex trexes others =>
      Forall (fun x => is_u32 (fst x)) trexes /\ Forall (not_type "trex") others /\
      Forall wf_box (others ++ map trex_of trexes)
  | Other b => not_type "trak" b /\ not_type "mvex" b
  end.

(** The handler a player sees, and the movie with only the tracks that have it. *)
Definition has_handler (h : rstring) (t : std_trak) : bool := str_eqb (from_utf8_lossy (hd_handler t)) h.

Definition kept_ids (h : rstring) (cs : list moov_child) : list Z :=
  omap (fun c => match c with Trak t => if has_handler h t then Some (tk_id t) else None | _ => None end) cs.

Definition keep_child (h : rstring) (c : moov_child) : bool :=
  match c with Trak t => has_handler h t | Mvex _ _ => false | Other _ => true end.

Definition last_mvex (cs : list moov_child) : option (list (Z * bytes) * list mp4_box) :=
  foldl (fun acc c => match c with Mvex t o => Some (t, o) | _ => acc end) None cs.

Definition kept_mvex (ids : list Z) (m : option (list (Z * bytes) * list mp4_box)) : list mp4_box :=
  match m with
  | None => []
  | Some (trexes, others) =>
      match others, List.filter (fun x => bool_decide (fst x ∈ ids)) trexes with
      | [], [] => []
      | _, kept => [mvex_of kept others]
      end
  end.

Definition filtered_moov (h : rstring) (cs : list moov_child) : list mp4_box :=
  map child_box (List.filter (keep_child h) cs) ++ kept_mvex (kept_ids h cs) (last_mvex cs).

(** ** Looking into standard tracks *)

Lemma box_bytes_split b : box_bytes b = be_bytes 4 (8 + zlen (snd b)) ++ fst b ++ snd b.
Proof. done. Qed.

(** A box of children at an offset, taken apart into header and children. *)
Lemma box_bytes_children ty cs :
  box_bytes (ty, boxes_bytes cs) = (be_bytes 4 (8 + zlen (boxes_bytes cs)) ++ ty) ++ boxes_bytes cs.
Proof. unfold box_bytes. cbn [fst snd]. by rewrite app_assoc. Qed.

Lemma zlen_box_head ty n : zlen ty = 4 -> zlen (be_bytes 4 n ++ ty) = 8.
Proof. intros. zlia. Qed.

(** The four bytes of a [hdlr] box that start at 12 and at 16. *)
Definition handler_field (at_ : Z) (t : std_trak) : bytes :=
  if at_ =? 12 then hd_pre_defined t else hd_handler t.

Lemma hdlr_field at_ t l k : std_trak_ok t -> at_ = 12 \/ at_ = 16 ->
  slice (l ++ box_bytes (hdlr_box t) ++ k) (zlen l + at_) (zlen l + at_ + 4)
  = Done (handler_field at_ t).
Proof.
  intros (_ & _ & Hf & Hp & Hh & _) Hat. unfold box_bytes, hdlr_box. cbn [fst snd].
  rewrite <- !app_assoc.
  destruct Hat as [-> | ->]; cbn [handler_field Z.eqb Pos.eqb].
  - rewrite (app_assoc l), (app_assoc _ (str "hdlr")), (app_assoc _ (hd_flags t)).
    apply slice_app_mid; zlen_simpl; change (zlen (str "hdlr")) with 4; lia.
  - rewrite (app_assoc l), (app_assoc _ (str "hdlr")), (app_assoc _ (hd_flags t)),
      (app_assoc _ (hd_pre_defined t)).
    apply slice_app_mid; zlen_simpl; change (zlen (str "hdlr")) with 4; lia.
Qed.

Lemma not_type_false ty b : is_ascii (str ty) = true -> not_type ty b ->
  str_eqb (from_utf8_lossy (fst b)) (str ty) = false.
Proof. intros Ha Hb. rewrite str_eqb_lossy by done. by apply str_eqb_neq. Qed.

Lemma scan_mdia_std at_ t h l k : std_trak_ok t -> at_ = 12 \/ at_ = 16 ->
  scan_mdia (l ++ box_bytes (mdia_box t) ++ k) at_ (zlen l + box_size (mdia_box t)) (zlen l + 8) h
  = Done (Some (str_eqb (from_utf8_lossy (handler_field at_ t)) h)).
Proof.
  intros Hok Hat. pose proof Hok as (_ & _ & Hf & Hp & Hh & _ & Hbefore & _ & Hwf & _).
  unfold scan_mdia.
  set (hd := be_bytes 4 (8 + zlen (boxes_bytes (mdia_children t))) ++ str "mdia").
  assert (Hsplit : box_bytes (mdia_box t) = hd ++ boxes_bytes (mdia_children t))
    by apply box_bytes_children.
  rewrite Hsplit.
  replace (zlen l + 8) with (zlen (l ++ hd)) by (subst hd; zlen_simpl; done).
  unfold mdia_children in Hwf. apply list.Forall_app in Hwf as [Hwb Hwa].
  apply list.Forall_cons in Hwa as [Hwh Hwa].
  assert (Hsz : box_size (mdia_box t) = 8 + zlen (boxes_bytes (md_before t))
            + box_size (hdlr_box t) + zlen (boxes_bytes (md_after t))).
  { unfold box_size at 1, mdia_box, mdia_children. cbn [snd].
    rewrite boxes_bytes_app, boxes_bytes_cons, !zlen_app, zlen_box_bytes by done. lia. }
  assert (Hlh : zlen (l ++ hd) = zlen l + 8) by (subst hd; zlen_simpl; done).
  assert (H20 : 20 <= box_size (hdlr_box t)) by (unfold box_size, hdlr_box; cbn [snd]; zlia).
  eapply (scan_boxes_find _ _ _ _ (md_before t) (hdlr_box t) (l ++ hd) (boxes_bytes (md_after t) ++ k)).
  - unfold mdia_children. rewrite boxes_bytes_app, boxes_bytes_cons, <- !app_assoc. done.
  - zlia.
  - done.
  - done.
  - intros l' c k' _ Hc. rewrite list.Forall_forall in Hbefore.
    by rewrite not_type_false by (done || by apply Hbefore).
  - intros l' k' Hd Hl'. rewrite Hd.
    rewrite from_utf8_lossy_ascii, str_eqb_refl by done.
    destruct (Z.leb_spec (zlen l' + 16) (zlen l + box_size (mdia_box t))); [|zlia]. cbn [andb].
    by rewrite hdlr_field.
Qed.

(** The bytes of a standard track around its [mdia]. *)
Lemma trak_bytes_split t : exists hd, zlen hd = 8 /\
  box_bytes (trak_box t) = hd ++ boxes_bytes (tkhd_box t :: tk_mid t) ++ box_bytes (mdia_box t)
    ++ boxes_bytes (tk_after t).
Proof.
  unfold trak_box. rewrite box_bytes_children. eexists. split; [by apply (zlen_box_head (str "trak"))|].
  unfold trak_children. rewrite app_comm_cons, boxes_bytes_app, boxes_bytes_cons. done.
Qed.

Lemma scan_trak_std at_ t h : std_trak_ok t -> at_ = 12 \/ at_ = 16 ->
  scan_trak (box_bytes (trak_box t)) at_ h = Done (str_eqb (from_utf8_lossy (handler_field at_ t)) h).
Proof.
  intros Hok Hat. pose proof Hok as (_ & _ & _ & _ & _ & Hmid & _ & Hwf & _ & Hwt).
  unfold scan_trak. destruct (trak_bytes_split t) as (hd & Hhd & Hsplit). rewrite Hsplit.
  unfold trak_children in Hwf. rewrite app_comm_cons in Hwf. apply list.Forall_app in Hwf as [Hwb Hwa].
  apply list.Forall_cons in Hwa as [Hwm Hwa].
  rewrite <- Hhd at 1.
  eapply (scan_boxes_find _ _ _ _ (tkhd_box t :: tk_mid t) (mdia_box t) hd); [done| |done|done| |].
  - zlen_simpl. rewrite zlen_box_bytes by done. zlia.
  - intros l c k _ Hc. apply elem_of_cons in Hc as [-> | Hc]; [done|].
    rewrite list.Forall_forall in Hmid. by rewrite not_type_false by (done || by apply Hmid).
  - intros l k Hd _. rewrite Hd. rewrite from_utf8_lossy_ascii, str_eqb_refl by done.
    by rewrite scan_mdia_std.
Qed.

Lemma track_has_handler_type_std t h : std_trak_ok t ->
  track_has_handler_type (box_bytes (trak_box t)) h = Done (has_handler h t).
Proof. intros. unfold track_has_handler_type. rewrite scan_trak_std by auto. done. Qed.

Lemma extract_track_id_std t : std_trak_ok t ->
  extract_track_id_from_trak (box_bytes (trak_box t)) = Done (Some (tk_id t)).
Proof.
  intros (Hh & Hid & _ & _ & _ & _ & _ & Hwf & _). unfold extract_track_id_from_trak.
  unfold trak_box. rewrite box_bytes_children. unfold trak_children. rewrite boxes_bytes_cons.
  set (hd := be_bytes 4 _ ++ str "trak"). assert (Hhd : zlen hd = 8) by by apply (zlen_box_head (str "trak")).
  apply list.Forall_cons in Hwf as [Hwt _].
  rewrite <- Hhd at 1.
  assert (Hlen : 24 <= box_size (tkhd_box t)) by (unfold box_size, tkhd_box; cbn [snd]; zlia).
  eapply (scan_boxes_find _ _ _ _ [] (tkhd_box t) hd); [done| |done|done| |].
  - change (zlen (boxes_bytes [])) with 0. rewrite !zlen_app, zlen_box_bytes by done. zlia.
  - intros l c k _ Hc. by apply elem_of_nil in Hc.
  - intros l k Hd _. rewrite Hd. rewrite from_utf8_lossy_ascii, str_eqb_refl by done.
    replace (zlen l + 24 <=? _) with true
      by (symmetry; rewrite Z.leb_le, !zlen_app, zlen_box_bytes by done; zlia).
    cbn [andb].
    unfold tkhd_box, box_bytes. cbn [fst snd]. rewrite <- !app_assoc.
    rewrite (app_assoc l), (app_assoc _ (str "tkhd")), (app_assoc _ (tk_head t)).
    rewrite be32_at_mid; [done|done|]. zlen_simpl. change (zlen (str "tkhd")) with 4. lia.
Qed.

(** ** Filtering [mvex] and [moov] *)

Lemma zlen_boxes_bytes_pos bs : Forall wf_box bs -> bs <> [] -> 8 <= zlen (boxes_bytes bs).
Proof.
  intros Hwf Hne. destruct Hwf as [|b bs Hb Hwf]; [done|].
  rewrite boxes_bytes_cons, zlen_app, zlen_box_bytes by done.
  pose proof (box_size_range b Hb). zlia.
Qed.

Lemma zlen_boxes_filter {A} (f : A -> mp4_box) p (l : list A) :
  zlen (boxes_bytes (map f (List.filter p l))) <= zlen (boxes_bytes (map f l)).
Proof.
  induction l as [|x l IH]; [done|]. cbn [List.filter map]. rewrite boxes_bytes_cons.
  destruct (p x); cbn [map]; rewrite ?boxes_bytes_cons, !zlen_app; zlia.
Qed.

Definition keep_trex (ids : list Z) (x : Z * bytes) : bool := bool_decide (fst x ∈ ids).

Lemma trex_id_at l x k : is_u32 (fst x) ->
  be32_at (l ++ box_bytes (trex_of x) ++ k) (zlen l + 12) = Done (fst x).
Proof.
  intros Hx. unfold trex_of, box_bytes. cbn [fst snd]. rewrite <- !app_assoc.
  rewrite (app_assoc l), (app_assoc _ (str "trex")), (app_assoc _ (be_bytes 4 0)).
  rewrite be32_at_mid; [done|done|]. zlen_simpl. change (zlen (str "trex")) with 4. lia.
Qed.

(** What the loop of [filter_mvex_for_tracks] does with one box. *)
Definition mvex_round (ids : list Z) (acc : bytes) (b : mp4_box) : exec (step bytes bytes) :=
  if str_eqb (fst b) (str "trex") then
    let! id := be32_at (box_bytes b) 12 in
    Done (Continue (if bool_decide (id ∈ ids) then acc ++ box_bytes b else acc))
  else Done (Continue (acc ++ box_bytes b)).

Lemma fold_mvex_trexes ids fin off trexes acc :
  Forall (fun x => is_u32 (fst x)) trexes ->
  fold_boxes (fun s (_ : Z) b => mvex_round ids s b) fin off (map trex_of trexes) acc
  = fin (acc ++ boxes_bytes (map trex_of (List.filter (keep_trex ids) trexes))).
Proof.
  intros Ht. revert off acc. induction Ht as [|x trexes Hx Ht IH]; intros off acc.
  - cbn. by rewrite app_nil_r.
  - cbn [map fold_boxes]. unfold mvex_round at 1.
    pose proof (trex_id_at [] x [] Hx) as Hid. cbn [app] in Hid. rewrite app_nil_r in Hid.
    change (zlen [] + 12) with 12 in Hid.
    unfold trex_of at 1. cbn [fst]. rewrite str_eqb_refl, Hid. cbn [exec_bind]. rewrite IH.
    cbn [List.filter]. unfold keep_trex at 2. case_match; [|done].
    cbn [map]. by rewrite boxes_bytes_cons, app_assoc.
Qed.

Lemma fold_mvex ids fin off others trexes acc :
  Forall (not_type "trex") others -> Forall (fun x => is_u32 (fst x)) trexes ->
  fold_boxes (fun s (_ : Z) b => mvex_round ids s b) fin off (others ++ map trex_of trexes) acc
  = fin (acc ++ boxes_bytes (others ++ map trex_of (List.filter (keep_trex ids) trexes))).
Proof.
  intros Ho Ht. revert off acc. induction Ho as [|b others Hb Ho IH]; intros off acc.
  - by apply fold_mvex_trexes.
  - cbn [app fold_boxes]. unfold mvex_round at 1.
    rewrite (proj2 (str_eqb_neq _ _)) by exact Hb. cbn [exec_bind]. rewrite IH.
    by rewrite boxes_bytes_cons, app_assoc.
Qed.

Lemma filter_mvex_std trexes others ids : child_ok (Mvex trexes others) ->
  filter_mvex_for_tracks (box_bytes (mvex_of trexes others)) ids
  = Done (boxes_bytes (kept_mvex ids (Some (trexes, others)))).
Proof.
  intros (Hwb & Hids & Hoth & Hwf). cbn [child_box] in Hwb. unfold filter_mvex_for_tracks.
  pose proof (box_size_range _ Hwb). rewrite zlen_box_bytes by done.
  destruct (Z.ltb_spec (box_size (mvex_of trexes others)) 8); [lia|].
  set (hd := be_bytes 4 (8 + zlen (boxes_bytes (others ++ map trex_of trexes))) ++ str "mvex").
  assert (Hsplit : box_bytes (mvex_of trexes others) = hd ++ boxes_bytes (others ++ map trex_of trexes))
    by apply box_bytes_children.
  rewrite Hsplit.
  assert (Hhd : zlen hd = 8) by by apply (zlen_box_head (str "mvex")).
  set (kept := List.filter (keep_trex ids) trexes).
  assert (Hlim : box_size (mvex_of trexes others) = zlen hd + zlen (boxes_bytes (others ++ map trex_of trexes)))
    by (unfold box_size, mvex_of; cbn [snd]; lia).
  rewrite <- Hhd at 1.
  rewrite (scan_boxes_fold _ _ _ _ (fun s (_ : Z) b => mvex_round ids s b)
    (others ++ map trex_of trexes) hd []); [|by rewrite app_nil_r|done|done|].
  - rewrite fold_mvex by done. fold kept. cbn [app].
    assert (Hwk : Forall wf_box (others ++ map trex_of kept)).
    { rewrite list.Forall_app in Hwf |- *. split; [|apply Forall_map_filter]; apply Hwf. }
    assert (Hbound : 8 + zlen (boxes_bytes (others ++ map trex_of kept)) <= u32_max).
    { destruct Hwb as [_ Hwb]. unfold mvex_of in Hwb. cbn [snd] in Hwb.
      rewrite boxes_bytes_app, zlen_app in *.
      pose proof (zlen_boxes_filter trex_of (keep_trex ids) trexes). subst kept. lia. }
    unfold kept_mvex. change (List.filter _ trexes) with kept.
    destruct others as [|o others], kept as [|x kept]; cbn [app map] in *; try done.
    all: match goal with |- context [zlen (boxes_bytes ?l)] =>
           pose proof (zlen_boxes_bytes_pos l Hwk ltac:(done));
           destruct (Z.eqb_spec (zlen (boxes_bytes l)) 0); [lia|] end.
    all: rewrite wrap_box_done by done; by rewrite boxes_bytes_single.
  - intros s l b k Hd Hin. unfold mvex_round. rewrite Hd.
    rewrite str_eqb_lossy by done. apply elem_of_app in Hin as [Hin | (x & -> & Hx)%elem_of_map].
    + rewrite list.Forall_forall in Hoth. specialize (Hoth b Hin).
      rewrite (proj2 (str_eqb_neq _ _)) by exact Hoth.
      rewrite (box_at l b k) by (done || (rewrite list.Forall_forall in Hwf; apply Hwf, elem_of_app; auto)).
      done.
    + rewrite list.Forall_forall in Hids. specialize (Hids x Hx).
      assert (Hwx : wf_box (trex_of x)).
      { rewrite list.Forall_forall in Hwf. apply Hwf, elem_of_app. right. apply elem_of_map. by exists x. }
      replace (str_eqb (fst (trex_of x)) (str "trex")) with true by done.
      pose proof (trex_id_at [] x [] Hids) as Hid. cbn [app] in Hid. rewrite app_nil_r in Hid.
      change (zlen [] + 12) with 12 in Hid. rewrite Hid. cbn [exec_bind].
      replace (zlen l + 16 <=? _) with true.
      2:{ symmetry. rewrite Z.leb_le, Hlim, <- zlen_app, Hd. unfold trex_of, box_bytes. cbn [fst snd].
          zlen_simpl. change (zlen (str "trex")) with 4. zlia. }
      rewrite trex_id_at by done. cbn [exec_bind].
      case_bool_decide; [|done]. by rewrite (box_at l (trex_of x) k) by done.
Qed.

(** The loop of [filter_moov_for_track_type] on one box, for a movie of the
    reference form. *)
Definition moov_state : Type := (bytes * list Z * option (Z * Z))%type.

Definition moov_round (h : rstring) (st : moov_state) (off : Z) (b : mp4_box)
  : exec (step moov_state bytes) :=
  let '(output, kept_track_ids, mvex_data) := st in
  if str_eqb (fst b) (str "trak") then
    let! keep := track_has_handler_type (box_bytes b) h in
    if keep then
      let! id := extract_track_id_from_trak (box_bytes b) in
      let kept' := match id with Some i => kept_track_ids ++ [i] | None => kept_track_ids end in
      Done (Continue (output ++ box_bytes b, kept', mvex_data))
    else Done (Continue (output, kept_track_ids, mvex_data))
  else if str_eqb (fst b) (str "mvex") then
    Done (Continue (output, kept_track_ids, Some (off, box_size b)))
  else Done (Continue (output ++ box_bytes b, kept_track_ids, mvex_data)).

(** The remembered [mvex] position points at the last [mvex] seen. *)
Definition mvex_at (data : bytes) (mv : option (Z * Z))
    (m : option (list (Z * bytes) * list mp4_box)) : Prop :=
  match mv, m with
  | None, None => True
  | Some (off, size), Some (trexes, others) =>
      child_ok (Mvex trexes others) /\ size = box_size (mvex_of trexes others) /\
      exists l k, data = l ++ box_bytes (mvex_of trexes others) ++ k /\ off = zlen l
  | _, _ => False
  end.

Lemma fold_moov data h fin cs pre out ids mv acc :
  data = pre ++ boxes_bytes (map child_box cs) -> Forall child_ok cs -> mvex_at data mv acc ->
  exists mv', fold_boxes (moov_round h) fin (zlen pre) (map child_box cs) (out, ids, mv)
    = fin (out ++ boxes_bytes (map child_box (List.filter (keep_child h) cs)), ids ++ kept_ids h cs, mv')
  /\ mvex_at data mv' (foldl (fun acc c => match c with Mvex t o => Some (t, o) | _ => acc end) acc cs).
Proof.
  intros Hd Hcs. revert pre out ids mv acc Hd. induction Hcs as [|c cs Hc Hcs IH];
    intros pre out ids mv acc Hd Hmv.
  { exists mv. split; [|done]. cbn. by rewrite !app_nil_r. }
  cbn [map] in Hd. rewrite boxes_bytes_cons in Hd. pose proof (proj1 Hc) as Hwf.
  assert (Hstep : forall out' ids' mv' acc', mvex_at data mv' acc' -> exists mv'',
    fold_boxes (moov_round h) fin (zlen pre + box_size (child_box c)) (map child_box cs) (out', ids', mv')
    = fin (out' ++ boxes_bytes (map child_box (List.filter (keep_child h) cs)), ids' ++ kept_ids h cs, mv'')
    /\ mvex_at data mv'' (foldl (fun acc c => match c with Mvex t o => Some (t, o) | _ => acc end) acc' cs)).
  { intros. rewrite <- zlen_box_bytes, <- zlen_app by done. apply IH; [by rewrite <- app_assoc|done]. }
  cbn [map fold_boxes foldl]. unfold moov_round at 1. unfold kept_ids. cbn [omap list_omap].
  destruct c as [t|trexes others|b]; cbn [child_box] in *; cbn [List.filter keep_child].
  - destruct Hc as [_ Hok]. replace (str_eqb (fst (trak_box t)) (str "trak")) with true by done.
    rewrite track_has_handler_type_std by done. cbn [exec_bind].
    destruct (has_handler h t); cbn [exec_bind]; [|by apply Hstep].
    rewrite extract_track_id_std by done. cbn [exec_bind map].
    edestruct Hstep as (mv' & -> & Hmv'); [done|]. exists mv'. split; [|done].
    by rewrite boxes_bytes_cons, <- !app_assoc.
  - replace (str_eqb (fst (mvex_of trexes others)) (str "trak")) with false by done.
    replace (str_eqb (fst (mvex_of trexes others)) (str "mvex")) with true by done.
    cbn [exec_bind]. apply Hstep. split; [done|]. split; [done|]. by exists pre, (boxes_bytes (map child_box cs)).
  - destruct Hc as [_ [Ht Hm]]. rewrite !(proj2 (str_eqb_neq _ _)) by done. cbn [exec_bind map].
    edestruct Hstep as (mv' & -> & Hmv'); [done|]. exists mv'. split; [|done].
    by rewrite boxes_bytes_cons, <- !app_assoc.
Qed.

Lemma filter_moov_std h cs : Forall child_ok cs ->
  filter_moov_for_track_type (boxes_bytes (map child_box cs)) h = Done (boxes_bytes (filtered_moov h cs)).
Proof.
  intros Hcs. unfold filter_moov_for_track_type.
  remember (boxes_bytes (map child_box cs)) as data eqn:Hdata. change 0 with (zlen (@nil Z)) at 1.
  assert (Hwf : Forall wf_box (map child_box cs)).
  { rewrite list.Forall_forall in Hcs. apply list.Forall_forall. intros b (c & -> & Hc)%elem_of_map. by apply Hcs. }
  rewrite (scan_boxes_fold _ _ _ _ (moov_round h) (map child_box cs) [] []);
    [|by rewrite app_nil_r|by rewrite Hdata|done|].
  - edestruct (fold_moov data h) as (mv' & -> & Hmv'); [done|done|exact (I : mvex_at data None None)|].
    cbn beta iota. unfold filtered_moov. rewrite boxes_bytes_app.
    change (foldl _ None cs) with (last_mvex cs) in Hmv'. cbn [app].
    destruct mv' as [[off size]|], (last_mvex cs) as [[trexes others]|]; unfold mvex_at in Hmv'; try done.
    + destruct Hmv' as (Hok & -> & l & k & Hd & ->). rewrite Hd. rewrite box_at by (done || apply Hok).
      cbn [exec_bind]. by rewrite filter_mvex_std.
    + cbn. by rewrite app_nil_r.
  - intros [[out ids] mv] l b k Hd (c & -> & Hc)%elem_of_map.
    rewrite list.Forall_forall in Hcs. specialize (Hcs c Hc). destruct Hcs as [Hwb Hc'].
    unfold moov_round. rewrite !str_eqb_lossy by done. rewrite Hd, (box_at l (child_box c) k) by done. done.
Qed.

(** ** Initialization segments *)

(** A parsed file with one [ftyp] and one [moov]. *)
Definition neither_ftyp_moov (b : Mp4Box) : Prop :=
  is_type b (str "ftyp") = false /\ is_type b (str "moov") = false.

Lemma find_ftyp_moov_skip bs : Forall neither_ftyp_moov bs ->
  forall st, for_each (fun '(ftyp_data, moov_data) b =>
    if is_type b (str "ftyp") then
      let! data := serialize_box b in Done (Some data, moov_data)
    else if is_type b (str "moov") then
      match content b with
      | Raw c => Done (ftyp_data, Some c)
      | _ => Done (ftyp_data, moov_data)
      end
    else Done (ftyp_data, moov_data)) bs st = Done st.
Proof.
  induction 1 as [|b bs [Hf Hm] _ IH]; intros [f m]; [done|].
  cbn [for_each]. rewrite Hf, Hm. cbn [exec_bind]. apply IH.
Qed.

Lemma find_ftyp_moov_std pre ftyp mid moov post moov_content :
  Forall neither_ftyp_moov pre -> Forall neither_ftyp_moov mid -> Forall neither_ftyp_moov post ->
  box_type (header ftyp) = str "ftyp" -> serializable ftyp ->
  box_type (header moov) = str "moov" -> content moov = Raw moov_content ->
  find_ftyp_moov (pre ++ ftyp :: mid ++ moov :: post)
  = Done (Some (box_bytes (as_box ftyp)), Some moov_content).
Proof.
  intros Hpre Hmid Hpost Hf Hser Hm Hc. unfold find_ftyp_moov.
  rewrite for_each_app, find_ftyp_moov_skip by done. cbn [exec_bind for_each].
  unfold is_type at 1. rewrite Hf, str_eqb_refl, serialize_box_done by done. cbn [exec_bind].
  rewrite for_each_app, find_ftyp_moov_skip by done. cbn [exec_bind for_each].
  unfold is_type at 1 2. rewrite Hm, str_eqb_refl. replace (str_eqb (str "moov") (str "ftyp")) with false by done.
  rewrite Hc. cbn [exec_bind]. by rewrite find_ftyp_moov_skip.
Qed.

Lemma zlen_kept_mvex ids trexes others :
  zlen (boxes_bytes (kept_mvex ids (Some (trexes, others)))) <= zlen (box_bytes (mvex_of trexes others)).
Proof.
  assert (H : zlen (boxes_bytes [mvex_of (List.filter (keep_trex ids) trexes) others])
          <= zlen (box_bytes (mvex_of trexes others))).
  { rewrite boxes_bytes_single. unfold mvex_of, box_bytes. cbn [fst snd].
    rewrite !boxes_bytes_app. pose proof (zlen_boxes_filter trex_of (keep_trex ids) trexes). zlia. }
  unfold kept_mvex. fold (keep_trex ids). destruct others; [|exact H].
  change (fun x => bool_decide (fst x ∈ ids)) with (keep_trex ids).
  revert H. destruct (List.filter (keep_trex ids) trexes); [|done].
  intros _. change (zlen (boxes_bytes [])) with 0. zlia.
Qed.

(** Filtering never makes a movie longer. *)
Lemma zlen_filtered_moov h cs : zlen (boxes_bytes (filtered_moov h cs)) <= zlen (boxes_bytes (map child_box cs)).
Proof.
  unfold filtered_moov. rewrite boxes_bytes_app. generalize (kept_ids h cs) as ids. intros ids.
  assert (Hgen : forall acc, zlen (boxes_bytes (map child_box (List.filter (keep_child h) cs)))
     + zlen (boxes_bytes (kept_mvex ids (foldl (fun acc c => match c with Mvex t o => Some (t, o) | _ => acc end) acc cs)))
     <= zlen (boxes_bytes (map child_box cs)) + zlen (boxes_bytes (kept_mvex ids acc))).
  { induction cs as [|c cs IH]; intros acc; cbn [List.filter map foldl]; [lia|].
    rewrite boxes_bytes_cons. destruct c as [t|trexes others|b]; cbn [keep_child child_box].
    - specialize (IH acc). destruct (has_handler h t); cbn [map]; rewrite ?boxes_bytes_cons; cbn [child_box]; zlia.
    - specialize (IH (Some (trexes, others))). pose proof (zlen_kept_mvex ids trexes others).
      pose proof (zlen_nonneg (boxes_bytes (kept_mvex ids acc))). zlia.
    - specialize (IH acc). cbn [map]. rewrite boxes_bytes_cons. cbn [child_box]. zlia. }
  specialize (Hgen None). change (zlen (boxes_bytes (kept_mvex ids None))) with 0 in Hgen.
  fold (last_mvex cs) in Hgen. zlia.
Qed.

Lemma init_for_std cs ftyp h : Forall child_ok cs -> 8 + zlen (boxes_bytes (map child_box cs)) <= u32_max ->
  init_for (boxes_bytes (map child_box cs)) ftyp h
  = Done (ftyp ++ box_bytes (str "moov", boxes_bytes (filtered_moov h cs))).
Proof.
  intros Hcs Hlen. unfold init_for. rewrite filter_moov_std by done. cbn [exec_bind].
  unfold build_moov_box. pose proof (zlen_filtered_moov h cs). by rewrite wrap_box_done by lia.
Qed.

(** ** Totality on arbitrary bytes *)

Ltac exec_done := eexists; split; [reflexivity|]; cbv beta iota.

Lemma is_video_track_returns trak : Forall is_byte trak -> returns (is_video_track trak) (fun _ => True).
Proof.
  intros Hb. unfold is_video_track, scan_trak.
  apply (scan_boxes_returns _ _ _ _ (fun _ _ => True)); [lia|lia|done|done| |by exec_done].
  intros _ c size ty _ Hc Hs Hl. case_match; [|by exec_done].
  assert (Hin : returns (scan_mdia trak 12 (c + size) (c + 8) (str "vide")) (fun _ => True)).
  { unfold scan_mdia. apply (scan_boxes_returns _ _ _ _ (fun _ _ => True)); [lia|lia|done|done| |by exec_done].
    intros _ c' size' ty' _ Hc' Hs' Hl'. case_match eqn:E; [|by exec_done]. reflect_bools.
    destruct (slice_returns trak (c' + 12) (c' + 12 + 4)) as (m & -> & _); [lia|lia|]. by exec_done. }
  destruct Hin as (o & -> & _). cbn. by destruct o; exec_done.
Qed.

Lemma create_video_only_moov_returns moov : Forall is_byte moov ->
  returns (create_video_only_moov moov) (fun out => zlen out <= zlen moov).
Proof.
  intros Hb. unfold create_video_only_moov.
  apply (scan_boxes_returns _ _ _ _ (fun c acc => zlen acc <= Z.min c (zlen moov))); [lia|lia|done|zlia| |].
  2:{ intros c s Hs. exec_done. lia. }
  intros s c size ty Hs Hc Hsz Hl.
  destruct (slice_returns moov c (c + size)) as (m & -> & Hm & Hsplit); [lia|lia|]. cbn [exec_bind].
  case_match; [|exec_done; zlia].
  destruct (is_video_track_returns m) as (v & -> & _).
  { rewrite Hsplit in Hb. rewrite !list.Forall_app in Hb. apply Hb. }
  cbn. exec_done. destruct v; zlia.
Qed.

Lemma filter_mvex_returns mvex ids : Forall is_byte mvex -> zlen mvex <= u32_max ->
  returns (filter_mvex_for_tracks mvex ids) (fun out => zlen out <= zlen mvex).
Proof.
  intros Hb Hlen. unfold filter_mvex_for_tracks. pose proof (zlen_nonneg mvex).
  destruct (Z.ltb_spec (zlen mvex) 8); [by exec_done|].
  apply (scan_boxes_returns _ _ _ _ (fun c acc => 8 + zlen acc <= Z.min c (zlen mvex))); [lia|lia|done|zlia| |].
  - intros s c size ty Hs Hc Hsz Hl.
    destruct (slice_returns mvex c (c + size)) as (m & -> & Hm & _); [lia|lia|]. cbn [exec_bind].
    case_match; [|exec_done; zlia]. destruct (Z.leb_spec (c + 16) (zlen mvex)); [|exec_done; zlia].
    destruct (be32_at_returns mvex (c + 12)) as (id & -> & _); [done|lia|lia|]. cbn [exec_bind].
    case_bool_decide; exec_done; zlia.
  - intros c s Hs. case_match; [by exec_done|]. rewrite wrap_box_done by lia. exec_done.
    rewrite zlen_box_bytes by (split; [done|cbn; lia]). unfold box_size. cbn. lia.
Qed.

Lemma extract_track_id_returns trak : Forall is_byte trak ->
  returns (extract_track_id_from_trak trak) (fun o => match o with Some i => is_u32 i | None => True end).
Proof.
  intros Hb. unfold extract_track_id_from_trak.
  apply (scan_boxes_returns _ _ _ _ (fun _ _ => True)); [lia|lia|done|done| |by exec_done].
  intros _ c size ty _ Hc Hs Hl. case_match eqn:E; [|by exec_done]. reflect_bools.
  destruct (be32_at_returns trak (c + 20)) as (id & -> & Hid); [done|lia|lia|]. by exec_done.
Qed.

(** ** Properties *)

(** C25: For a file with an [ftyp] box and a [moov] box made of standard
    children, the separate initialization segments are the [ftyp] followed by
    the movie with exactly the tracks of one handler type, and an [mvex] that
    lists exactly those tracks; the audio segment is there exactly when the
    parser has an audio track. Reading the segments back box by box gives those
    boxes. *)
Theorem generate_separate_init_segments_spec self pre ftyp mid moov post cs :
  boxes self = pre ++ ftyp :: mid ++ moov :: post ->
  Forall neither_ftyp_moov pre -> Forall neither_ftyp_moov mid -> Forall neither_ftyp_moov post ->
  box_type (header ftyp) = str "ftyp" -> serializable ftyp ->
  box_type (header moov) = str "moov" -> content moov = Raw (boxes_bytes (map child_box cs)) ->
  Forall child_ok cs -> 8 + zlen (boxes_bytes (map child_box cs)) <= u32_max ->
  has_video_track self = true ->
  exists video audio,
    generate_separate_init_segments self = Done (ROk (video, audio)) /\
    parse_boxes (length video) video
      = Some [as_box ftyp; (str "moov", boxes_bytes (filtered_moov (str "vide") cs))] /\
    match audio with
    | Some a => has_audio_track self = true /\
        parse_boxes (length a) a
          = Some [as_box ftyp; (str "moov", boxes_bytes (filtered_moov (str "soun") cs))]
    | None => has_audio_track self = false
    end.
Proof.
  intros Hb Hpre Hmid Hpost Hf Hser Hm Hc Hcs Hlen Hv.
  assert (Hparse : forall h, let seg := box_bytes (as_box ftyp) ++ box_bytes (str "moov", boxes_bytes (filtered_moov h cs)) in
    parse_boxes (length seg) seg = Some [as_box ftyp; (str "moov", boxes_bytes (filtered_moov h cs))]).
  { intros h seg. subst seg. rewrite <- boxes_bytes_pair. apply parse_boxes_bytes.
    constructor; [by apply serializable_wf|]. constructor; [|done]. split; [done|].
    pose proof (zlen_filtered_moov h cs). cbn [snd]. lia. }
  unfold generate_separate_init_segments. rewrite Hb.
  rewrite (find_ftyp_moov_std _ _ _ _ _ (boxes_bytes (map child_box cs))) by done. cbn [exec_bind].
  rewrite Hv. cbn [negb]. rewrite !init_for_std by done. cbn [exec_bind].
  destruct (has_audio_track self) eqn:Ha; do 2 eexists; (split; [reflexivity|]); split; [apply Hparse| |apply Hparse|done].
  split; [done|apply Hparse].
Qed.

Definition demo_trak (id : Z) (pre_defined handler : string) : std_trak := {|
  tk_head := replicate 12 0; tk_id := id; tk_tail := []; tk_mid := []; md_before := [];
  hd_flags := [0; 0; 0; 0]; hd_pre_defined := str pre_defined; hd_handler := str handler; hd_rest := [];
  md_after := []; tk_after := [] |}.

Definition demo_children : list moov_child :=
  [Other (str "mvhd", [1; 2]); Trak (demo_trak 1 "vide" "vide"); Trak (demo_trak 2 "abcd" "soun");
   Mvex [(1, []); (2, [])] []].

Definition raw_box (ty : string) (data : bytes) : Mp4Box :=
  {| header := {| box_type := str ty; bh_size := 8 + zlen data; content_start := 8 |}; content := Raw data |}.

Definition demo_track (id : Z) (ty : string) (params : option string) : Mp4Track :=
  {| track_id := id; media_type := str ty; timescale := 1000; track_duration := 0; codec := [];
     codec_mime_type := []; codec_params := option_map str params; sample_table := None |}.

Definition demo_parser : Mp4Parser :=
  {| boxes := [raw_box "ftyp" [7]; raw_box "moov" (boxes_bytes (map child_box demo_children))];
     tracks := [demo_track 1 "vide" None; demo_track 2 "soun" None]; is_fragmented := false;
     fmp4_converter := new_converter; mdat_payload_offset := 0; pending_sample_table := None |}.

Ltac box_demo := box_demo_with
  ltac:(unfold child_ok, std_trak_ok, not_type, serializable, neither_ftyp_moov in *).

Lemma demo_children_ok : Forall child_ok demo_children.
Proof. unfold demo_children. box_demo. Qed.

Lemma generate_separate_init_segments_spec_witness :
  exists video audio, generate_separate_init_segments demo_parser = Done (ROk (video, audio)) /\
    parse_boxes (length video) video
      = Some [as_box (raw_box "ftyp" [7]); (str "moov", boxes_bytes (filtered_moov (str "vide") demo_children))] /\
    match audio with
    | Some a => has_audio_track demo_parser = true /\
        parse_boxes (length a) a
          = Some [as_box (raw_box "ftyp" [7]); (str "moov", boxes_bytes (filtered_moov (str "soun") demo_children))]
    | None => has_audio_track demo_parser = false
    end.
Proof.
  apply (generate_separate_init_segments_spec demo_parser [] (raw_box "ftyp" [7]) []
    (raw_box "moov" (boxes_bytes (map child_box demo_children))) [] demo_children);
    try reflexivity; try apply list.Forall_nil; try exact I.
  - box_demo.
  - exact demo_children_ok.
  - vm_compute. discriminate.
Defined.

(** What [create_video_only_moov] keeps: it reads the handler four bytes early. *)
Definition video_only_child (c : moov_child) : bool :=
  match c with
  | Trak t => str_eqb (from_utf8_lossy (hd_pre_defined t)) (str "vide")
  | _ => true
  end.

Lemma fold_video_only (fin : bytes -> exec bytes) cs off out : Forall child_ok cs ->
  fold_boxes (fun s (_ : Z) b =>
      if str_eqb (fst b) (str "trak") then
        let! video := is_video_track (box_bytes b) in
        Done (Continue (if video then s ++ box_bytes b else s))
      else Done (Continue (s ++ box_bytes b))) fin off (map child_box cs) out
  = fin (out ++ boxes_bytes (map child_box (List.filter video_only_child cs))).
Proof.
  intros Hcs. revert off out. induction Hcs as [|c cs Hc Hcs IH]; intros off out.
  - cbn. by rewrite app_nil_r.
  - cbn [map fold_boxes List.filter]. destruct c as [t|trexes others|b]; cbn [child_box video_only_child].
    + replace (str_eqb (fst (trak_box t)) (str "trak")) with true by done.
      unfold is_video_track at 1. rewrite scan_trak_std by (try apply Hc; auto). cbn [exec_bind].
      change (handler_field 12 t) with (hd_pre_defined t). rewrite IH.
      case_match; [|done]. cbn [map]. by rewrite boxes_bytes_cons, app_assoc.
    + replace (str_eqb (fst (mvex_of trexes others)) (str "trak")) with false by done.
      cbn [exec_bind map]. by rewrite IH, boxes_bytes_cons, app_assoc.
    + destruct Hc as [_ [Ht _]]. rewrite (proj2 (str_eqb_neq _ _)) by done.
      cbn [exec_bind map]. by rewrite IH, boxes_bytes_cons, app_assoc.
Qed.

Lemma create_video_only_std cs : Forall child_ok cs ->
  create_video_only_moov (boxes_bytes (map child_box cs))
  = Done (boxes_bytes (map child_box (List.filter video_only_child cs))).
Proof.
  intros Hcs. unfold create_video_only_moov.
  remember (boxes_bytes (map child_box cs)) as data eqn:Hdata. change 0 with (zlen (@nil Z)) at 1.
  assert (Hwf : Forall wf_box (map child_box cs)).
  { rewrite list.Forall_forall in Hcs. apply list.Forall_forall.
    intros b (c & -> & Hc)%elem_of_map. by apply Hcs. }
  erewrite (scan_boxes_fold _ _ _ _ _ (map child_box cs) [] []);
    [|by rewrite app_nil_r|by rewrite Hdata|done|].
  - by rewrite fold_video_only.
  - intros s l b k Hd Hin. rewrite list.Forall_forall in Hwf.
    rewrite str_eqb_lossy by done. rewrite Hd, (box_at l b k) by (done || by apply Hwf). done.
Qed.

(** On a movie of standard children [create_video_only_moov] keeps every box
    that is not a track, and a track exactly when the four bytes at offset 12 of
    its [hdlr] box, the [pre_defined] field, spell [vide]; the handler type at
    offset 16 plays no role. *)
Theorem create_video_only_moov_keeps cs : Forall child_ok cs ->
  create_video_only_moov (boxes_bytes (map child_box cs))
  = Done (boxes_bytes (map child_box (List.filter video_only_child cs))).
Proof. apply create_video_only_std. Qed.

(** A standard movie with video and audio, whose [pre_defined] fields are zero
    as the standard requires, loses its video track too. *)
Definition zero_movie : list moov_child :=
  let zero t := {| tk_head := tk_head t; tk_id := tk_id t; tk_tail := tk_tail t; tk_mid := tk_mid t;
    md_before := md_before t; hd_flags := hd_flags t; hd_pre_defined := [0; 0; 0; 0];
    hd_handler := hd_handler t; hd_rest := hd_rest t; md_after := md_after t; tk_after := tk_after t |} in
  [Other (str "mvhd", [1; 2]); Trak (zero (demo_trak 1 "abcd" "vide")); Trak (zero (demo_trak 2 "abcd" "soun"))].

Lemma create_video_only_moov_keeps_witness :
  create_video_only_moov (boxes_bytes (map child_box zero_movie))
  = Done (boxes_bytes (map child_box [Other (str "mvhd", [1; 2])])).
Proof.
  refine (create_video_only_moov_keeps zero_movie _). unfold zero_movie. box_demo.
Defined.

(** On arbitrary bytes the rewriting functions of [moov] and [mvex] end
    without a panic, never return more bytes than they are given, and the
    track id they find is a [u32]. *)
Theorem moov_rewriting_total data ids : Forall is_byte data -> zlen data <= u32_max ->
  returns (create_video_only_moov data) (fun out => zlen out <= zlen data) /\
  returns (filter_mvex_for_tracks data ids) (fun out => zlen out <= zlen data) /\
  returns (extract_track_id_from_trak data) (fun o => match o with Some i => is_u32 i | None => True end).
Proof.
  intros Hb Hl. split; [by apply create_video_only_moov_returns|].
  split; [by apply filter_mvex_returns | by apply extract_track_id_returns].
Qed.

Lemma moov_rewriting_total_witness :
  let data := [0; 0; 0; 12; 116; 114; 97; 107; 255; 0; 0; 9; 200] in
  returns (create_video_only_moov data) (fun out => zlen out <= zlen data) /\
  returns (filter_mvex_for_tracks data [1]) (fun out => zlen out <= zlen data) /\
  returns (extract_track_id_from_trak data) (fun o => match o with Some i => is_u32 i | None => True end).
Proof. intros data. apply (moov_rewriting_total data [1]); box_demo. Defined.

(** A track whose [hdlr] box ends within the handler type. *)
Definition short_hdlr_trak (hdlr_content : bytes) : bytes :=
  box_bytes (str "trak", box_bytes (str "mdia", box_bytes (str "hdlr", hdlr_content))).

(** [track_has_handler_type] checks that 16 bytes of the [hdlr] box are there
    and reads 20: it panics on a track whose last bytes are a [hdlr] content of 8
    to 11 bytes, where [is_video_track], which reads 16, returns. *)
Theorem track_has_handler_type_short_hdlr c h : Forall is_byte c -> 8 <= zlen c < 12 ->
  track_has_handler_type (short_hdlr_trak c) h = Panic /\
  returns (is_video_track (short_hdlr_trak c)) (fun _ => True).
Proof.
  intros Hb Hc. split.
  2:{ apply is_video_track_returns. unfold short_hdlr_trak, box_bytes.
      assert (Hs : forall s, Forall is_byte (str s)).
      { intros s. unfold str. apply list.Forall_forall. intros x (a & -> & _)%elem_of_map.
        unfold is_byte. pose proof (Ascii.nat_ascii_bounded a). lia. }
      cbn [fst snd]. rewrite !list.Forall_app. repeat split; auto using be_bytes_bytes. }
  assert (Hc' : exists a0 a1 a2 a3 a4 a5 a6 a7 r, c = [a0;a1;a2;a3;a4;a5;a6;a7] ++ r /\ zlen r < 4).
  { unfold zlen in *. do 8 (destruct c as [|? c]; [cbn in Hc; lia|]). do 9 eexists. split; [reflexivity|]. cbn in *. lia. }
  destruct Hc' as (a0 & a1 & a2 & a3 & a4 & a5 & a6 & a7 & r & -> & Hr).
  destruct r as [|? [|? [|? [|? r]]]]; [vm_compute..|]; try reflexivity.
  unfold zlen in Hr. cbn in Hr. lia.
Qed.

Lemma track_has_handler_type_short_hdlr_witness :
  track_has_handler_type (short_hdlr_trak [0; 0; 0; 0; 0; 0; 0; 0; 118; 105]) (str "vide") = Panic /\
  returns (is_video_track (short_hdlr_trak [0; 0; 0; 0; 0; 0; 0; 0; 118; 105])) (fun _ => True).
Proof. apply track_has_handler_type_short_hdlr; box_demo. Defined.

(** ** The MSE-compatible movie *)

(** The [trex] box of a track: default sample description 1, no other default. *)
Definition track_trex (t : Mp4Track) : mp4_box :=
  trex_of (track_id t, be_bytes 4 1 ++ be_bytes 4 0 ++ be_bytes 4 0 ++ be_bytes 4 0).

Lemma create_trex_box_done t : create_trex_box (track_id t) = Done (ROk (box_bytes (track_trex t))).
Proof.
  unfold create_trex_box.
  assert (Hb : [as_u8 (Z.shiftr (track_id t) 24); as_u8 (Z.shiftr (track_id t) 16);
                as_u8 (Z.shiftr (track_id t) 8); as_u8 (track_id t)] = be_bytes 4 (track_id t)).
  { unfold as_u8. rewrite !Z.shiftr_div_pow2 by lia. cbn [be_bytes].
    change (2 ^ (8 * Z.of_nat 0)) with 1. by rewrite Z.div_1_r. }
  rewrite Hb. rewrite wrap_box_done by (unfold u32_max; zlen_simpl; lia). done.
Qed.

Lemma wf_track_trex t : wf_box (track_trex t).
Proof. split; [done|]. unfold track_trex, trex_of, u32_max. cbn [fst snd]. zlen_simpl. lia. Qed.

Lemma trex_boxes_done ts : trex_boxes ts = Done (ROk (boxes_bytes (map track_trex ts))).
Proof.
  induction ts as [|t ts IH]; [done|]. cbn [trex_boxes map].
  unfold try_bind. rewrite create_trex_box_done. cbn [exec_bind]. rewrite IH. done.
Qed.

Lemma zlen_trex_boxes ts : zlen (boxes_bytes (map track_trex ts)) = 32 * zlen ts.
Proof.
  induction ts as [|t ts IH]; [done|]. cbn [map].
  rewrite boxes_bytes_cons, zlen_app, IH, zlen_box_bytes by apply wf_track_trex.
  unfold box_size, track_trex, trex_of. cbn [fst snd]. zlen_simpl. lia.
Qed.

Definition mvex_box (ts : list Mp4Track) : mp4_box := (str "mvex", boxes_bytes (map track_trex ts)).

(** The boxes of the MSE-compatible movie. *)
Definition mse_children (self : Mp4Parser) (cs : list moov_child) : list mp4_box :=
  map child_box (if has_ac3_params self then List.filter video_only_child cs else cs) ++ [mvex_box (tracks self)].

Lemma mse_children_wf self cs : Forall child_ok cs ->
  zlen (boxes_bytes (map child_box cs)) + 32 * zlen (tracks self) + 16 <= u32_max ->
  Forall wf_box (mse_children self cs) /\ 8 + zlen (boxes_bytes (mse_children self cs)) <= u32_max.
Proof.
  intros Hcs Hlen. pose proof (zlen_nonneg (tracks self)). unfold mse_children.
  pose proof (zlen_nonneg (boxes_bytes (map child_box cs))).
  set (children := if has_ac3_params self then _ else _).
  assert (Hkeep : zlen (boxes_bytes (map child_box children)) <= zlen (boxes_bytes (map child_box cs))).
  { subst children. case_match; [apply zlen_boxes_filter|lia]. }
  assert (Hwc : Forall child_ok children).
  { subst children. case_match; [by apply Forall_filter_keep|done]. }
  assert (Hwm : wf_box (mvex_box (tracks self))).
  { split; [done|]. unfold mvex_box. cbn [snd]. rewrite zlen_trex_boxes. lia. }
  split.
  - apply list.Forall_app. split; [|by apply List.Forall_cons].
    rewrite list.Forall_forall in Hwc. apply list.Forall_forall.
    intros b (c & -> & Hin)%elem_of_map. by apply Hwc.
  - rewrite boxes_bytes_app, boxes_bytes_single, zlen_app, zlen_box_bytes by done.
    unfold box_size, mvex_box. cbn [snd]. rewrite zlen_trex_boxes. lia.
Qed.

Lemma create_mse_std self moov cs :
  content moov = Raw (boxes_bytes (map child_box cs)) -> Forall child_ok cs ->
  zlen (boxes_bytes (map child_box cs)) + 32 * zlen (tracks self) + 16 <= u32_max ->
  create_mse_compatible_moov self moov = Done (ROk (box_bytes (str "moov", boxes_bytes (mse_children self cs)))).
Proof.
  intros Hc Hcs Hlen. destruct (mse_children_wf self cs Hcs Hlen) as [Hwf Hz].
  unfold mse_children in *. set (children := if has_ac3_params self then _ else _) in *.
  apply list.Forall_app in Hwf as [_ Hwm]. apply list.Forall_cons in Hwm as [Hwm _]. unfold create_mse_compatible_moov. rewrite Hc.
  replace (if has_ac3_params self then _ else _) with (Done (boxes_bytes (map child_box children))).
  2:{ subst children. case_match; [symmetry; by apply create_video_only_std|done]. }
  cbn [exec_bind]. unfold create_mvex_box, try_bind. rewrite trex_boxes_done. cbn [exec_bind].
  rewrite wrap_box_done by apply Hwm. cbn [exec_bind].
  fold (mvex_box (tracks self)). rewrite <- (boxes_bytes_single (mvex_box _)), <- boxes_bytes_app.
  by rewrite wrap_box_done by lia.
Qed.

(** The MSE-compatible movie of a standard movie is one [moov] box whose
    children are the original ones, or, when an audio track is marked AC-3,
    those [create_video_only_moov] keeps, followed by an [mvex] box with one
    [trex] per track of the parser, in order. *)
Theorem create_mse_compatible_moov_spec self moov cs :
  content moov = Raw (boxes_bytes (map child_box cs)) -> Forall child_ok cs ->
  zlen (boxes_bytes (map child_box cs)) + 32 * zlen (tracks self) + 16 <= u32_max ->
  let children := if has_ac3_params self then List.filter video_only_child cs else cs in
  exists data, create_mse_compatible_moov self moov = Done (ROk data) /\
    parse_boxes (length data) data
      = Some [(str "moov", boxes_bytes (map child_box children ++ [mvex_box (tracks self)]))] /\
    parse_boxes (length data) (boxes_bytes (map child_box children ++ [mvex_box (tracks self)]))
      = Some (map child_box children ++ [mvex_box (tracks self)]).
Proof.
  intros Hc Hcs Hlen children. destruct (mse_children_wf self cs Hcs Hlen) as [Hwf Hz].
  eexists. split; [by apply create_mse_std|].
  change (map child_box children ++ [mvex_box (tracks self)]) with (mse_children self cs). split.
  - rewrite <- boxes_bytes_single. apply parse_boxes_bytes. by apply Forall_singleton.
  - apply parse_boxes_roundtrip; [done|]. pose proof (length_boxes_bytes _ Hwf).
    unfold box_bytes. cbn [fst snd]. rewrite !length_app. lia.
Qed.

Lemma create_mse_compatible_moov_spec_witness :
  let parser := {| boxes := []; tracks := [demo_track 1 "vide" None; demo_track 2 "soun" (Some "AC-3")];
     is_fragmented := false; fmp4_converter := new_converter; mdat_payload_offset := 0;
     pending_sample_table := None |} in
  let moov := raw_box "moov" (boxes_bytes (map child_box demo_children)) in
  let children := if has_ac3_params parser then List.filter video_only_child demo_children else demo_children in
  exists data, create_mse_compatible_moov parser moov = Done (ROk data) /\
    parse_boxes (length data) data
      = Some [(str "moov", boxes_bytes (map child_box children ++ [mvex_box (tracks parser)]))] /\
    parse_boxes (length data) (boxes_bytes (map child_box children ++ [mvex_box (tracks parser)]))
      = Some (map child_box children ++ [mvex_box (tracks parser)]).
Proof.
  intros parser moov. apply (create_mse_compatible_moov_spec parser moov demo_children);
    [reflexivity | exact demo_children_ok | vm_compute; discriminate].
Defined.
