(* ===== verification/Mp4Moof.v ===== *)
(** * Rewriting [moof] boxes

    Models the functions of [core/src/media/mp4_parser.rs] that make movie
    fragments acceptable to Media Source Extensions: rewriting [tfhd] flags in
    place, and inserting or replacing the [tfdt] decode time. *)

From S2P Require Import Prelude Rust Mp4Box SampleTable Fmp4 Mp4Data.

#[local] Open Scope Z_scope.

(** ** [tfhd] flags *)

Definition base_data_offset_present : Z := 1.
Definition default_base_is_moof : Z := 131072. (* 0x020000 *)

(** [&mut [u8]] is threaded; the [bool] says whether the flags were changed. *)
Definition fix_single_tfhd_flags (data : bytes) (box_offset box_size : Z) : exec (bytes * bool) :=
  if box_size <? 16 then Done (data, false)
  else
    let flags_offset := box_offset + 8 + 1 in
    if zlen data <? flags_offset + 3 then Done (data, false)
    else
      let! f0 := index data flags_offset in
      let! f1 := index data (flags_offset + 1) in
      let! f2 := index data (flags_offset + 2) in
      let flags_u32 := be_val [0; f0; f1; f2] in
      let has_base_data_offset := negb (Z.land flags_u32 base_data_offset_present =? 0) in
      let has_default_base_is_moof := negb (Z.land flags_u32 default_base_is_moof =? 0) in
      if has_default_base_is_moof && negb has_base_data_offset then Done (data, false)
      else
        let new_flags := Z.lor (Z.land flags_u32 (u32_max - base_data_offset_present))
                               default_base_is_moof in
        let new_flags_bytes := be_bytes 4 new_flags in
        let! b1 := index new_flags_bytes 1 in
        let! b2 := index new_flags_bytes 2 in
        let! b3 := index new_flags_bytes 3 in
        let! data := set_index data flags_offset b1 in
        let! data := set_index data (flags_offset + 1) b2 in
        let! data := set_index data (flags_offset + 2) b3 in
        Done (data, true).

(** The loop and the recursive calls both move the cursor forward by at least
    eight bytes, so one unit of fuel per byte is enough. The recursion reads on
    to the end of the data, not to the end of the box it enters. *)
Fixpoint fix_tfhd_flags_recursive (fuel : nat) (data : bytes) (cursor modifications_made : Z)
  : exec (bytes * Z) :=
  match fuel with
  | O => OutOfFuel
  | Datatypes.S fuel =>
      if zlen data <? cursor + 8 then Done (data, modifications_made)
      else
        let! box_size := be32_at data cursor in
        if (box_size <? 8) || (zlen data <? cursor + box_size) then Done (data, modifications_made)
        else
          let! ty := slice data (cursor + 4) (cursor + 8) in
          let box_type := from_utf8_lossy ty in
          let! after :=
            if str_eqb box_type (str "tfhd") then
              let! fixed := fix_single_tfhd_flags data cursor box_size in
              let '(data, changed) := fixed in
              if changed then
                let! n := add_u64 modifications_made 1 in Done (data, n)
              else Done (data, modifications_made)
            else if str_eqb box_type (str "traf") || str_eqb box_type (str "mfhd") then
              fix_tfhd_flags_recursive fuel data (cursor + 8) modifications_made
            else Done (data, modifications_made) in
          let '(data, modifications_made) := after in
          fix_tfhd_flags_recursive fuel data (cursor + box_size) modifications_made
  end.

Definition fix_moof_tfhd_flags (moof_box : Mp4Box) : exec (result bytes io_error) :=
  match content moof_box with
  | Raw original_data =>
      let! fixed := fix_tfhd_flags_recursive (Datatypes.S (length original_data)) original_data 0 0 in
      let! moof := wrap_box (str "moof") (fst fixed) in
      Done (ROk moof)
  | _ => Done (RErr (invalid_data (str "Invalid moof box content")))
  end.

(** ** The decode time *)

Definition create_tfdt_box (base_media_decode_time : Z) : bytes :=
  let content_size := 1 + 3 + 8 in
  let box_size := 8 + content_size in
  be_bytes 4 (as_u32 box_size) ++ str "tfdt" ++ [1] ++ [0; 0; 0] ++ be_bytes 8 base_media_decode_time.

(** The walking pattern of the two functions below: the limit is a size field,
    boxes may be shorter than their header, and the type is strict UTF-8.

    [while cursor + 8 <= size && cursor < data.len() {
       let child_size = ...; let child_type = from_utf8(..).unwrap_or("????");
       if child_size == 0 || cursor + child_size > data.len() { break; }
       ...body...
       cursor += child_size;
     }] *)
Definition walk_step {S R} (data : bytes) (size : Z)
    (body : S -> Z -> Z -> rstring -> exec (step S R)) (fin : S -> exec R)
    (st : Z * S) : exec (step (Z * S) R) :=
  let '(cursor, s) := st in
  let leave := let! r := fin s in Done (Break r) in
  if negb ((cursor + 8 <=? size) && (cursor <? zlen data)) then leave
  else
    let! child_size := be32_at data cursor in
    let! ty := slice data (cursor + 4) (cursor + 8) in
    let child_type := default (str "????") (from_utf8 ty) in
    if (child_size =? 0) || (zlen data <? cursor + child_size) then leave
    else
      let! next := body s cursor child_size child_type in
      match next with
      | Continue s' => Done (Continue (cursor + child_size, s'))
      | Break r => Done (Break r)
      end.

Definition walk_children {S R} (data : bytes) (size : Z)
    (body : S -> Z -> Z -> rstring -> exec (step S R)) (fin : S -> exec R)
    (cursor : Z) (s : S) : exec R :=
  loop (Datatypes.S (length data)) (walk_step data size body fin) (cursor, s).

Definition ensure_traf_has_tfdt (traf_data : bytes) (base_media_decode_time : Z)
  : exec (result bytes io_error) :=
  if zlen traf_data <? 8 then Done (RErr (invalid_data (str "traf data too small")))
  else
    let! traf_size := be32_at traf_data 0 in
    walk_children traf_data traf_size
      (fun '(traf_content, has_tfdt, tfhd_data) cursor child_size child_type =>
         if str_eqb child_type (str "tfhd") then
           let! tfhd := slice traf_data cursor (cursor + child_size) in
           Done (Continue (traf_content, has_tfdt, Some tfhd))
         else if str_eqb child_type (str "tfdt") then
           Done (Continue (traf_content ++ create_tfdt_box base_media_decode_time, true, tfhd_data))
         else
           let! other := slice traf_data cursor (cursor + child_size) in
           Done (Continue (traf_content ++ other, has_tfdt, tfhd_data)))
      (fun '(traf_content, has_tfdt, tfhd_data) =>
         let new_traf_content :=
           default [] tfhd_data
           ++ (if (has_tfdt : bool) then [] else create_tfdt_box base_media_decode_time)
           ++ traf_content in
         let! traf := wrap_box (str "traf") new_traf_content in
         Done (ROk traf))
      8 ([], false, None).

Definition ensure_moof_has_tfdt (moof_data : bytes) (base_media_decode_time _timescale : Z)
  : exec (result bytes io_error) :=
  if zlen moof_data <? 8 then Done (RErr (invalid_data (str "moof data too small")))
  else
    let! moof_size := be32_at moof_data 0 in
    let! moof_type := slice moof_data 4 8 in
    if negb (str_eqb moof_type (str "moof")) then Done (RErr (invalid_data (str "Not a moof box")))
    else
      walk_children moof_data moof_size
        (fun moof_content cursor child_size child_type =>
           let! child := slice moof_data cursor (cursor + child_size) in
           if str_eqb child_type (str "traf") then
             let! new_traf := ensure_traf_has_tfdt child base_media_decode_time in
             match new_traf with
             | ROk traf => Done (Continue (moof_content ++ traf))
             | RErr e => Done (Break (RErr e))
             end
           else Done (Continue (moof_content ++ child)))
        (fun moof_content =>
           let! moof := wrap_box (str "moof") moof_content in
           Done (ROk moof))
        8 [].

(** ** Facts about single [tfhd] boxes *)

(** The flags Chrome accepts. *)
Definition mse_flags (f : Z) : Z := Z.lor (Z.land f (u32_max - base_data_offset_present)) default_base_is_moof.

Definition is_flags (f : Z) : Prop := 0 <= f < 2 ^ 24.

Lemma testbit_above f n w : 0 <= f < 2 ^ w -> 0 <= w <= n -> Z.testbit f n = false.
Proof.
  intros Hf Hn. destruct (Z.eq_dec f 0) as [->|]; [apply Z.testbit_0_l|].
  apply Z.bits_above_log2; [lia|]. pose proof (proj1 (Z.log2_lt_pow2 f w ltac:(lia)) ltac:(lia)). lia.
Qed.

(** Bit by bit: all bits stay but bit 0, which is cleared, and bit 17, which is set. *)
Lemma mse_flags_testbit f n : is_flags f -> 0 <= n ->
  Z.testbit (mse_flags f) n = ((Z.testbit f n && negb (n =? 0)) || (n =? 17))%bool.
Proof.
  intros Hf Hn. unfold mse_flags. rewrite Z.lor_spec, Z.land_spec.
  destruct (Z.ltb_spec n 32).
  - assert (Hcase : exists k : nat, (k < 32)%nat /\ n = Z.of_nat k) by (exists (Z.to_nat n); lia).
    destruct Hcase as (k & Hk & ->).
    do 32 (destruct k as [|k]; [cbn; destruct (Z.testbit f _); reflexivity|]). lia.
  - rewrite (testbit_above f n 24) by (unfold is_flags in Hf; lia).
    rewrite (testbit_above default_base_is_moof n 32) by (unfold default_base_is_moof; lia).
    destruct (Z.eqb_spec n 17); [lia|]. done.
Qed.

Lemma mse_flags_range f : is_flags f -> is_flags (mse_flags f).
Proof.
  intros Hf. unfold is_flags, mse_flags, default_base_is_moof, base_data_offset_present, u32_max in *.
  assert (H0 : 0 <= Z.lor (Z.land f (4294967295 - 1)) 131072).
  { apply Z.lor_nonneg. split; [|lia]. apply Z.land_nonneg. lia. }
  split; [done|]. destruct (Z.eq_dec (Z.lor (Z.land f (4294967295 - 1)) 131072) 0) as [->|Hne]; [lia|].
  apply Z.log2_lt_pow2; [lia|]. rewrite Z.log2_lor; [|apply Z.land_nonneg; lia|lia].
  apply Z.max_lub_lt; [|cbn; lia].
  eapply Z.le_lt_trans; [apply Z.log2_land; lia|]. rewrite Z.min_lt_iff.
  left. destruct (Z.eq_dec f 0) as [->|]; [cbn; lia|]. apply Z.log2_lt_pow2; lia.
Qed.

Lemma flags_eq f g : is_flags f -> is_flags g ->
  (forall n, 0 <= n -> Z.testbit f n = Z.testbit g n) -> f = g.
Proof. intros _ _ H. by apply Z.bits_inj'. Qed.

Lemma mse_flags_fixed f : is_flags f -> Z.land f 1 = 0 -> Z.land f default_base_is_moof <> 0 ->
  mse_flags f = f.
Proof.
  intros Hf H0 H17. apply flags_eq; [by apply mse_flags_range|done|].
  intros n Hn. rewrite mse_flags_testbit by done.
  destruct (Z.eqb_spec n 0) as [->|].
  - assert (Hb : Z.testbit (Z.land f 1) 0 = false) by by rewrite H0.
    rewrite Z.land_spec in Hb. change (Z.testbit 1 0) with true in Hb. rewrite andb_true_r in Hb. by rewrite Hb.
  - destruct (Z.eqb_spec n 17) as [->|]; [|by destruct (Z.testbit f n)].
    destruct (Z.testbit f 17) eqn:E; [done|]. exfalso. apply H17.
    apply Z.bits_inj'. intros m Hm. rewrite Z.land_spec, Z.testbit_0_l.
    change default_base_is_moof with (2 ^ 17). rewrite Z.pow2_bits_eqb by lia.
    destruct (Z.eqb_spec 17 m) as [<-|]; [by rewrite E|apply andb_false_r].
Qed.

Lemma mse_flags_idemp f : is_flags f -> mse_flags (mse_flags f) = mse_flags f.
Proof.
  intros Hf. apply Z.bits_inj'. intros n Hn.
  pose proof (mse_flags_range f Hf). rewrite !mse_flags_testbit by assumption.
  destruct (Z.testbit f n), (n =? 0), (n =? 17); done.
Qed.

(** ** Reference: fragments with rewritten flags *)

(** A [tfhd] content with at least a track id gets its flags rewritten. *)
Definition mse_tfhd (c : bytes) : bytes :=
  match c with
  | v :: b1 :: b2 :: b3 :: rest =>
      if 4 <=? zlen rest then v :: be_bytes 3 (mse_flags (be_val [b1; b2; b3])) ++ rest else c
  | _ => c
  end.

Definition mse_box (b : mp4_box) : mp4_box := if str_eqb (fst b) (str "tfhd") then (fst b, mse_tfhd (snd b)) else b.

(** Whether the rewriting changes a box. *)
Definition needs_fix (b : mp4_box) : bool := negb (bool_decide (mse_box b = b)).

Inductive moof_child : Type :=
| Child (b : mp4_box)
| Traf (cs : list mp4_box).

Definition moof_child_box (n : moof_child) : mp4_box :=
  match n with Child b => b | Traf cs => (str "traf", boxes_bytes cs) end.

Definition mse_child (n : moof_child) : moof_child :=
  match n with Child b => Child (mse_box b) | Traf cs => Traf (map mse_box cs) end.

Definition count_fixes (bs : list mp4_box) : Z := zlen (List.filter needs_fix bs).
Definition leaves (ns : list moof_child) : list mp4_box :=
  flat_map (fun n => match n with Child b => [b] | Traf cs => cs end) ns.

(** A box of bytes that is not a [traf]; a [mfhd] content starts with version
    and flags zero. *)
Definition leaf_ok (b : mp4_box) : Prop :=
  wf_box b /\ Forall is_byte (snd b) /\ fst b <> str "traf" /\
  (fst b = str "mfhd" -> exists r, snd b = be_bytes 4 0 ++ r).

Definition moof_child_ok (n : moof_child) : Prop :=
  wf_box (moof_child_box n) /\ match n with Child b => leaf_ok b | Traf cs => Forall leaf_ok cs end.

(** ** Facts about the reference *)

Lemma flags_of_bytes b1 b2 b3 : Forall is_byte [b1; b2; b3] -> is_flags (be_val [b1; b2; b3]).
Proof. intros H. apply be_val_range in H. exact H. Qed.

Lemma be_bytes3_flags b1 b2 b3 : Forall is_byte [b1; b2; b3] -> be_bytes 3 (be_val [b1; b2; b3]) = [b1; b2; b3].
Proof. apply be_bytes_be_val. Qed.

Lemma be_val_be_bytes3 f : is_flags f -> be_val (be_bytes 3 f) = f.
Proof. intros H. rewrite be_val_be_bytes. by apply Z.mod_small. Qed.

Lemma mse_tfhd_form v f rest : is_flags f -> 4 <= zlen rest ->
  mse_tfhd (v :: be_bytes 3 f ++ rest) = v :: be_bytes 3 (mse_flags f) ++ rest.
Proof.
  intros Hf Hr. change (be_bytes 3 f ++ rest) with
    ((f / 2 ^ 16) mod 256 :: (f / 2 ^ 8) mod 256 :: (f / 2 ^ 0) mod 256 :: rest).
  unfold mse_tfhd. destruct (Z.leb_spec 4 (zlen rest)); [|lia].
  change [(f / 2 ^ 16) mod 256; (f / 2 ^ 8) mod 256; (f / 2 ^ 0) mod 256] with (be_bytes 3 f).
  by rewrite be_val_be_bytes3.
Qed.

(** Every [tfhd] content is too short, or of that form. *)
Lemma tfhd_content_cases c : Forall is_byte c ->
  (zlen c < 8 /\ mse_tfhd c = c) \/
  exists v f rest, c = v :: be_bytes 3 f ++ rest /\ is_flags f /\ 4 <= zlen rest.
Proof.
  intros Hb. destruct (Z.ltb_spec (zlen c) 8) as [Hlt|Hge].
  - left. split; [done|]. destruct c as [|v [|b1 [|b2 [|b3 rest]]]]; try done. cbn -[be_bytes].
    destruct (Z.leb_spec 4 (zlen rest)); [|done]. zlia.
  - right. destruct c as [|v [|b1 [|b2 [|b3 rest]]]]; try (unfold zlen in Hge; cbn in Hge; lia).
    rewrite !list.Forall_cons in Hb. destruct Hb as (_ & H1 & H2 & H3 & _).
    assert (H : Forall is_byte [b1; b2; b3]) by by repeat apply List.Forall_cons.
    exists v, (be_val [b1; b2; b3]), rest. rewrite be_bytes3_flags by done. split; [done|].
    split; [by apply flags_of_bytes|]. zlia.
Qed.

Lemma mse_tfhd_length c : Forall is_byte c -> zlen (mse_tfhd c) = zlen c /\ Forall is_byte (mse_tfhd c).
Proof.
  intros Hb. destruct (tfhd_content_cases c Hb) as [[_ ->]|(v & f & rest & -> & Hf & Hr)]; [done|].
  rewrite mse_tfhd_form by done. split; [zlia|].
  rewrite list.Forall_cons, list.Forall_app in *. split; [apply Hb|]. split; [apply be_bytes_bytes|apply Hb].
Qed.

Lemma mse_tfhd_idemp c : Forall is_byte c -> mse_tfhd (mse_tfhd c) = mse_tfhd c.
Proof.
  intros Hb. destruct (tfhd_content_cases c Hb) as [[_ Hc]|(v & f & rest & -> & Hf & Hr)]; [by rewrite !Hc|].
  rewrite !mse_tfhd_form by (done || by apply mse_flags_range). by rewrite mse_flags_idemp.
Qed.

Lemma mse_box_fst b : fst (mse_box b) = fst b.
Proof. unfold mse_box. by case_match. Qed.

Lemma mse_box_size b : leaf_ok b -> box_size (mse_box b) = box_size b.
Proof.
  intros (_ & Hb & _). unfold mse_box, box_size. case_match; [|done]. cbn [snd].
  by rewrite (proj1 (mse_tfhd_length _ Hb)).
Qed.

Lemma mse_box_idemp b : leaf_ok b -> mse_box (mse_box b) = mse_box b.
Proof.
  intros (_ & Hb & _). unfold mse_box. destruct (str_eqb (fst b) (str "tfhd")) eqn:E; [|by rewrite E].
  cbn [fst snd]. rewrite E. by rewrite mse_tfhd_idemp.
Qed.

Lemma leaf_ok_mse b : leaf_ok b -> leaf_ok (mse_box b).
Proof.
  intros Hok. pose proof Hok as ((Ht & Hs) & Hb & Hn & Hm). pose proof (mse_box_size b Hok) as Hsz.
  unfold box_size in Hsz. repeat split.
  - by rewrite mse_box_fst.
  - lia.
  - unfold mse_box. case_match; [|done]. by apply mse_tfhd_length.
  - by rewrite mse_box_fst.
  - rewrite mse_box_fst. intros E. unfold mse_box. rewrite E. by apply Hm.
Qed.

Lemma needs_fix_mse b : leaf_ok b -> needs_fix (mse_box b) = false.
Proof. intros H. unfold needs_fix. by rewrite mse_box_idemp, bool_decide_true. Qed.

(** ** Rewriting a well-formed fragment *)

Lemma mse_flags_same f : is_flags f -> mse_flags f = f ->
  Z.land f base_data_offset_present = 0 /\ Z.land f default_base_is_moof <> 0.
Proof.
  intros Hf He. split.
  - apply Z.bits_inj'. intros n Hn. rewrite Z.land_spec, Z.testbit_0_l.
    change base_data_offset_present with (2 ^ 0). rewrite Z.pow2_bits_eqb by lia.
    destruct (Z.eqb_spec 0 n) as [<-|]; [|apply andb_false_r].
    rewrite <- He, mse_flags_testbit by (done || lia). cbn. by rewrite andb_false_r.
  - intros E. assert (H : Z.testbit (Z.land f default_base_is_moof) 17 = false) by by rewrite E.
    rewrite Z.land_spec, <- He, mse_flags_testbit in H by (done || lia). cbn in H. by rewrite orb_true_r in H.
Qed.

(** Three bytes in the middle. *)
Lemma index_mid3 {A} (l : list A) a b c k : let data := l ++ a :: b :: c :: k in
  index data (zlen l) = Done a /\ index data (zlen l + 1) = Done b /\ index data (zlen l + 2) = Done c.
Proof.
  intros data. subst data. split; [by apply index_mid|]. split.
  - replace (l ++ a :: b :: c :: k) with ((l ++ [a]) ++ b :: c :: k) by by rewrite <- app_assoc.
    apply index_mid. zlia.
  - replace (l ++ a :: b :: c :: k) with ((l ++ [a; b]) ++ c :: k) by by rewrite <- app_assoc.
    apply index_mid. zlia.
Qed.

Lemma set_index_mid3 {A} (l : list A) a b c k x y z :
  set_index (l ++ a :: b :: c :: k) (zlen l) x = Done (l ++ x :: b :: c :: k) /\
  set_index (l ++ x :: b :: c :: k) (zlen l + 1) y = Done (l ++ x :: y :: c :: k) /\
  set_index (l ++ x :: y :: c :: k) (zlen l + 2) z = Done (l ++ x :: y :: z :: k).
Proof.
  split; [by apply set_index_mid|]. split.
  - pose proof (set_index_mid (l ++ [x]) b y (c :: k) (zlen l + 1)) as H.
    rewrite <- !app_assoc in H. apply H. zlia.
  - pose proof (set_index_mid (l ++ [x; y]) c z k (zlen l + 2)) as H.
    rewrite <- !app_assoc in H. apply H. zlia.
Qed.

Lemma fix_single_form pre v f rest post : is_flags f -> 4 <= zlen rest ->
  fix_single_tfhd_flags (pre ++ box_bytes (str "tfhd", v :: be_bytes 3 f ++ rest) ++ post) (zlen pre)
    (box_size (str "tfhd", v :: be_bytes 3 f ++ rest))
  = Done (pre ++ box_bytes (str "tfhd", v :: be_bytes 3 (mse_flags f) ++ rest) ++ post,
          negb (bool_decide (mse_flags f = f))).
Proof.
  intros Hf Hr. unfold fix_single_tfhd_flags.
  destruct (Z.ltb_spec (box_size (str "tfhd", v :: be_bytes 3 f ++ rest)) 16) as [Hlt|_].
  { unfold box_size in Hlt. cbn [snd] in Hlt. zlia. }
  set (hd := be_bytes 4 (8 + (1 + (3 + zlen rest))) ++ str "tfhd" ++ [v]).
  assert (Hsplit : forall g, pre ++ box_bytes (str "tfhd", v :: be_bytes 3 g ++ rest) ++ post
    = (pre ++ hd) ++ (g / 2 ^ 16) mod 256 :: (g / 2 ^ 8) mod 256 :: (g / 2 ^ 0) mod 256 :: (rest ++ post)).
  { intros g. unfold box_bytes, hd. cbn [fst snd]. zlen_simpl. by rewrite <- !app_assoc. }
  rewrite !Hsplit.
  replace (zlen pre + 8 + 1) with (zlen (pre ++ hd)) by (subst hd; zlen_simpl; change (zlen (str "tfhd")) with 4; lia).
  set (l := pre ++ hd). set (k := rest ++ post).
  destruct (Z.ltb_spec (zlen (l ++ (f / 2 ^ 16) mod 256 :: (f / 2 ^ 8) mod 256 :: (f / 2 ^ 0) mod 256 :: k)) (zlen l + 3));
    [zlia|].
  destruct (index_mid3 l ((f / 2 ^ 16) mod 256) ((f / 2 ^ 8) mod 256) ((f / 2 ^ 0) mod 256) k) as (-> & -> & ->).
  cbn [exec_bind].
  change (be_val [0; (f / 2 ^ 16) mod 256; (f / 2 ^ 8) mod 256; (f / 2 ^ 0) mod 256])
    with (be_val (be_bytes 3 f)).
  rewrite be_val_be_bytes3 by done. cbv zeta.
  destruct (negb (Z.land f default_base_is_moof =? 0) && negb (negb (Z.land f base_data_offset_present =? 0))) eqn:E.
  - rewrite negb_involutive in E. reflect_bools.
    rewrite mse_flags_fixed by done. rewrite bool_decide_true by done. done.
  - rewrite bool_decide_false.
    2:{ intros He. destruct (mse_flags_same f Hf He) as [H0 H17].
        rewrite negb_involutive, (proj2 (Z.eqb_eq _ _) H0), (proj2 (Z.eqb_neq _ _) H17) in E. done. }
    fold (mse_flags f). generalize (mse_flags f) as g. intros g.
    change (index (be_bytes 4 g) 1) with (Done ((g / 2 ^ 16) mod 256)).
    change (index (be_bytes 4 g) 2) with (Done ((g / 2 ^ 8) mod 256)).
    change (index (be_bytes 4 g) 3) with (Done ((g / 2 ^ 0) mod 256)). cbn [exec_bind].
    match goal with |- context [set_index (l ++ ?a :: ?b :: ?c :: k) _ ?x] =>
      destruct (set_index_mid3 l a b c k x ((g / 2 ^ 8) mod 256) ((g / 2 ^ 0) mod 256)) as (-> & H1 & H2) end.
    cbn [exec_bind]. rewrite H1. cbn [exec_bind]. by rewrite H2.
Qed.

(** The same for any [tfhd] of bytes. *)
Lemma fix_single_box pre b post : wf_box b -> fst b = str "tfhd" -> Forall is_byte (snd b) ->
  fix_single_tfhd_flags (pre ++ box_bytes b ++ post) (zlen pre) (box_size b)
  = Done (pre ++ box_bytes (mse_box b) ++ post, needs_fix b).
Proof.
  intros Hwf Ht Hb. destruct b as [ty c]. cbn [fst snd] in *. subst ty.
  unfold needs_fix, mse_box. cbn [fst snd]. rewrite str_eqb_refl.
  destruct (tfhd_content_cases c Hb) as [[Hlt ->]|(v & f & rest & -> & Hf & Hr)].
  - unfold fix_single_tfhd_flags, box_size. cbn [snd].
    destruct (Z.ltb_spec (8 + zlen c) 16); [|lia]. by rewrite bool_decide_true.
  - rewrite mse_tfhd_form by done. rewrite fix_single_form by done. do 3 f_equal.
    apply bool_decide_ext. split; [by intros ->|]. intros E.
    apply (f_equal (fun b => ztake 3 (tail (snd b)))) in E. cbn [snd tail] in E. rewrite !ztake_app_eq in E by done.
    apply (f_equal be_val) in E. pose proof (mse_flags_range f Hf). by rewrite !be_val_be_bytes3 in E.
Qed.

Definition child_count (n : moof_child) : nat := match n with Child _ => 1 | Traf cs => 1 + length cs end.
Definition count (ns : list moof_child) : nat := sum_list_with child_count ns.
Definition moof_bytes (ns : list moof_child) : bytes := boxes_bytes (map moof_child_box ns).

Lemma moof_bytes_cons n ns : moof_bytes (n :: ns) = box_bytes (moof_child_box n) ++ moof_bytes ns.
Proof. done. Qed.

Lemma moof_bytes_children cs ns : moof_bytes (map Child cs ++ ns) = boxes_bytes cs ++ moof_bytes ns.
Proof. unfold moof_bytes. by rewrite map_app, boxes_bytes_app, map_map, map_id. Qed.

Lemma count_children cs ns : count (map Child cs ++ ns) = (length cs + count ns)%nat.
Proof. induction cs as [|c cs IH]; [done|]. cbn. unfold count in IH. rewrite IH. done. Qed.

Lemma leaves_children cs ns : leaves (map Child cs ++ ns) = cs ++ leaves ns.
Proof. induction cs as [|c cs IH]; [done|]. cbn. unfold leaves in IH. by rewrite IH. Qed.

Lemma count_fixes_app bs bs' : count_fixes (bs ++ bs') = count_fixes bs + count_fixes bs'.
Proof. unfold count_fixes. rewrite List.filter_app. zlia. Qed.

Lemma zlen_boxes_mse cs : Forall leaf_ok cs -> zlen (boxes_bytes (map mse_box cs)) = zlen (boxes_bytes cs).
Proof.
  induction 1 as [|c cs Hc Hcs IH]; [done|]. cbn [map]. rewrite !boxes_bytes_cons, !zlen_app, IH.
  rewrite !zlen_box_bytes by (apply Hc || by apply leaf_ok_mse). by rewrite mse_box_size.
Qed.

Lemma Forall_leaf_mse cs : Forall leaf_ok cs -> Forall leaf_ok (map mse_box cs).
Proof. induction 1; cbn; constructor; auto using leaf_ok_mse. Qed.

Lemma moof_child_ok_mse n : moof_child_ok n -> moof_child_ok (mse_child n).
Proof.
  intros [Hwf Hn]. destruct n as [b|cs]; cbn in *.
  - split; [|by apply leaf_ok_mse]. by apply leaf_ok_mse.
  - split; [|by apply Forall_leaf_mse]. destruct Hwf as [Ht Hs]. split; [done|]. cbn in *.
    by rewrite zlen_boxes_mse.
Qed.

Lemma map_mse_idemp cs : Forall leaf_ok cs -> map mse_box (map mse_box cs) = map mse_box cs.
Proof. induction 1 as [|c cs Hc _ IH]; [done|]. cbn. by rewrite IH, mse_box_idemp. Qed.

Lemma mse_child_idemp n : moof_child_ok n -> mse_child (mse_child n) = mse_child n.
Proof.
  intros [_ Hn]. destruct n as [b|cs]; cbn in *; [by rewrite mse_box_idemp|by rewrite map_mse_idemp].
Qed.

Lemma count_mse ns : count (map mse_child ns) = count ns.
Proof. induction ns as [|[b|cs] ns IH]; [done|..]; cbn; unfold count in IH; rewrite IH, ?length_map; done. Qed.

Lemma count_fixes_mse ns : Forall moof_child_ok ns -> count_fixes (leaves (map mse_child ns)) = 0.
Proof.
  assert (Hl : forall cs, Forall leaf_ok cs -> count_fixes (map mse_box cs) = 0).
  { induction 1 as [|c cs Hc _ IH]; [done|]. unfold count_fixes in *. cbn. by rewrite needs_fix_mse. }
  induction 1 as [|n ns [_ Hn] _ IH]; [done|]. cbn [map leaves flat_map]. rewrite count_fixes_app.
  unfold leaves in IH. rewrite IH. destruct n as [b|cs]; cbn [mse_child].
  - change [mse_box b] with (map mse_box [b]). rewrite Hl; [done|]. by apply Forall_singleton.
  - by rewrite Hl.
Qed.

(** The header of the box the cursor stands on. *)
Lemma fix_step fuel pre b post m : wf_box b ->
  fix_tfhd_flags_recursive (Datatypes.S fuel) (pre ++ box_bytes b ++ post) (zlen pre) m =
    (let! after :=
       if str_eqb (fst b) (str "tfhd") then
         let! fixed := fix_single_tfhd_flags (pre ++ box_bytes b ++ post) (zlen pre) (box_size b) in
         let '(data, changed) := fixed in
         if changed then let! n := add_u64 m 1 in Done (data, n) else Done (data, m)
       else if str_eqb (fst b) (str "traf") || str_eqb (fst b) (str "mfhd") then
         fix_tfhd_flags_recursive fuel (pre ++ box_bytes b ++ post) (zlen pre + 8) m
       else Done (pre ++ box_bytes b ++ post, m) in
     let '(data, m) := after in
     fix_tfhd_flags_recursive fuel data (zlen pre + box_size b) m).
Proof.
  intros Hb. pose proof (box_size_range b Hb). cbn [fix_tfhd_flags_recursive].
  assert (Hlen : zlen (pre ++ box_bytes b ++ post) = zlen pre + box_size b + zlen post)
    by (rewrite !zlen_app, zlen_box_bytes by done; lia).
  pose proof (zlen_nonneg post). rewrite Hlen.
  destruct (Z.ltb_spec (zlen pre + box_size b + zlen post) (zlen pre + 8)); [lia|].
  rewrite box_header_at by done. cbn [exec_bind].
  destruct (Z.ltb_spec (box_size b) 8); [lia|].
  destruct (Z.ltb_spec (zlen pre + box_size b + zlen post) (zlen pre + box_size b)); [lia|]. cbn [orb].
  rewrite box_type_at by done. cbn [exec_bind]. by rewrite !str_eqb_lossy by done.
Qed.

(** On a fragment the rewriting replaces every [tfhd], in the tracks and
    beside them, and counts those it changes. *)
Lemma fix_rec_std fuel ns pre m : Forall moof_child_ok ns -> (count ns < fuel)%nat ->
  0 <= m -> m + count_fixes (leaves ns) <= u64_max ->
  fix_tfhd_flags_recursive fuel (pre ++ moof_bytes ns) (zlen pre) m
  = Done (pre ++ moof_bytes (map mse_child ns), m + count_fixes (leaves ns)).
Proof.
  revert ns pre m. induction fuel as [|fuel IH]; intros ns pre m Hok Hf Hm Hmax; [lia|].
  destruct ns as [|n ns].
  { cbn [fix_tfhd_flags_recursive map moof_bytes boxes_bytes concat].
    change (moof_bytes []) with (@nil Z). rewrite app_nil_r.
    destruct (Z.ltb_spec (zlen pre) (zlen pre + 8)); [|lia].
    change (count_fixes (leaves [])) with 0. by rewrite Z.add_0_r. }
  apply list.Forall_cons in Hok as [Hn Hok]. pose proof (proj1 Hn) as Hwf. cbn [count sum_list_with] in Hf.
  assert (Hcount : count_fixes (leaves (n :: ns))
    = count_fixes (match n with Child b => [b] | Traf cs => cs end) + count_fixes (leaves ns)).
  { cbn [leaves flat_map]. apply count_fixes_app. }
  rewrite Hcount in *. cbn [map]. rewrite !moof_bytes_cons, fix_step by done.
  pose proof (zlen_nonneg (List.filter needs_fix (leaves ns))) as Hpos. fold (count_fixes (leaves ns)) in Hpos.
  destruct n as [b|cs]; cbn [moof_child_box mse_child child_count] in *.
  - assert (Hsz : box_size (mse_box b) = box_size b) by by apply mse_box_size, Hn.
    assert (Hnext : forall m', 0 <= m' -> m' + count_fixes (leaves ns) <= u64_max ->
      fix_tfhd_flags_recursive fuel (pre ++ box_bytes (mse_box b) ++ moof_bytes ns) (zlen pre + box_size b) m'
      = Done (pre ++ box_bytes (mse_box b) ++ moof_bytes (map mse_child ns), m' + count_fixes (leaves ns))).
    { intros m' Hm' Hmax'. rewrite <- Hsz, <- zlen_box_bytes, <- zlen_app, !app_assoc by apply (moof_child_ok_mse (Child b) Hn).
      apply IH; [done|cbn in Hf; unfold count; lia|done|done]. }
    assert (Hone : count_fixes [b] = if needs_fix b then 1 else 0)
      by (unfold count_fixes; cbn; by destruct (needs_fix b)).
    rewrite Hone in *. destruct (str_eqb (fst b) (str "tfhd")) eqn:E.
    + apply str_eqb_eq in E. rewrite fix_single_box by (done || apply Hn). cbn [exec_bind].
      destruct (needs_fix b); cbn [exec_bind].
      * unfold add_u64. rewrite checked_done by lia. cbn [exec_bind]. rewrite Hnext by lia. do 2 f_equal; lia.
      * rewrite Hnext by lia. do 2 f_equal; lia.
    + assert (Hsame : mse_box b = b) by (unfold mse_box; by rewrite E).
      assert (Hno : needs_fix b = false) by (unfold needs_fix; by rewrite Hsame, bool_decide_true).
      rewrite Hsame in *. rewrite Hno in *. destruct Hn as (_ & _ & _ & Ht & Hmf).
      rewrite (proj2 (str_eqb_neq _ _) Ht). cbn [orb]. destruct (str_eqb (fst b) (str "mfhd")) eqn:Em.
      2:{ cbn [exec_bind]. rewrite Hnext by lia. do 2 f_equal; lia. }
      destruct (Hmf (proj1 (str_eqb_eq _ _) Em)) as (r & Hr).
      replace (fix_tfhd_flags_recursive fuel (pre ++ box_bytes b ++ moof_bytes ns) (zlen pre + 8) m)
        with (Done (pre ++ box_bytes b ++ moof_bytes ns, m)).
      2:{ destruct fuel as [|fuel']; [cbn in Hf; lia|]. cbn [fix_tfhd_flags_recursive].
          case_match; [done|]. unfold box_bytes. rewrite Hr, <- !app_assoc.
          rewrite (app_assoc pre), (app_assoc _ (fst b)).
          rewrite be32_at_mid; [done|by unfold is_u32, u32_max|]. destruct Hwf as [Hty _]. zlia. }
      cbn [exec_bind]. rewrite Hnext by lia. do 2 f_equal; lia.
  - destruct Hn as [_ Hcs]. change (str_eqb (fst (str "traf", boxes_bytes cs)) (str "tfhd")) with false.
    change (str_eqb (fst (str "traf", boxes_bytes cs)) (str "traf")) with true. cbn [orb].
    assert (Hinner : Forall moof_child_ok (map Child cs ++ ns)).
    { apply list.Forall_app. split; [|done]. apply list.Forall_forall. rewrite list.Forall_forall in Hcs.
      intros n (b & -> & Hb)%elem_of_map. split; [apply Hcs|apply Hcs]; done. }
    set (hd := be_bytes 4 (8 + zlen (boxes_bytes cs)) ++ str "traf").
    assert (Hsplit : forall cs', zlen (boxes_bytes cs') = zlen (boxes_bytes cs) ->
      box_bytes (str "traf", boxes_bytes cs') = hd ++ boxes_bytes cs').
    { intros cs' Hl. unfold box_bytes, hd. cbn [fst snd]. by rewrite Hl, <- app_assoc. }
    rewrite (Hsplit cs) by done. rewrite <- (app_assoc hd), <- moof_bytes_children, (app_assoc pre).
    replace (zlen pre + 8) with (zlen (pre ++ hd)) by (subst hd; zlen_simpl; change (zlen (str "traf")) with 4; lia).
    rewrite (IH _ _ m Hinner); [|rewrite count_children; cbn in Hf; unfold count in *; lia|done|
      rewrite leaves_children, count_fixes_app; lia].
    cbn [exec_bind]. rewrite leaves_children, count_fixes_app.
    replace (map mse_child (map Child cs ++ ns)) with (map Child (map mse_box cs) ++ map mse_child ns)
      by (by rewrite map_app, !map_map).
    rewrite moof_bytes_children, <- (app_assoc pre), (app_assoc hd), <- Hsplit by by apply zlen_boxes_mse.
    assert (Hwf' : wf_box (str "traf", boxes_bytes (map mse_box cs)))
      by (apply (moof_child_ok_mse (Traf cs)); by split).
    replace (box_size (str "traf", boxes_bytes cs)) with (zlen (box_bytes (str "traf", boxes_bytes (map mse_box cs)))).
    2:{ rewrite zlen_box_bytes by done. unfold box_size. cbn [snd]. by rewrite zlen_boxes_mse. }
    rewrite <- zlen_app, app_assoc.
    pose proof (zlen_nonneg (List.filter needs_fix cs)) as Hpos'. fold (count_fixes cs) in Hpos'.
    rewrite IH.
    + assert (Hid : map mse_child (map mse_child ns) = map mse_child ns).
      { rewrite map_map. apply map_ext_in. intros n Hin%list_elem_of_In.
        apply mse_child_idemp. rewrite list.Forall_forall in Hok. by apply Hok. }
      rewrite Hid, count_fixes_mse, <- app_assoc by done. do 2 f_equal. lia.
    + rewrite list.Forall_forall in Hok. apply list.Forall_forall. intros n' (n & -> & Hin)%elem_of_map.
      by apply moof_child_ok_mse, Hok.
    + rewrite count_mse. cbn in Hf. unfold count. lia.
    + lia.
    + rewrite count_fixes_mse by done. lia.
Qed.

(** ** Rewriting arbitrary bytes *)

Lemma fix_single_returns data off size : Forall is_byte data -> 0 <= off -> off + size <= zlen data ->
  returns (fix_single_tfhd_flags data off size) (fun '(data', _) => zlen data' = zlen data /\ Forall is_byte data').
Proof.
  intros Hb Ho Hs. unfold fix_single_tfhd_flags.
  destruct (Z.ltb_spec size 16); [by eexists|]. cbv zeta.
  destruct (Z.ltb_spec (zlen data) (off + 8 + 1 + 3)); [lia|].
  destruct (index_returns data (off + 8 + 1)) as (f0 & -> & _); [lia|].
  destruct (index_returns data (off + 8 + 1 + 1)) as (f1 & -> & _); [lia|].
  destruct (index_returns data (off + 8 + 1 + 2)) as (f2 & -> & _); [lia|]. cbn [exec_bind].
  case_match; [by eexists|]. match goal with |- context [be_bytes 4 ?g] => generalize g as nf end. intros nf.
  change (index (be_bytes 4 nf) 1) with (Done ((nf / 2 ^ 16) mod 256)).
  change (index (be_bytes 4 nf) 2) with (Done ((nf / 2 ^ 8) mod 256)).
  change (index (be_bytes 4 nf) 3) with (Done ((nf / 2 ^ 0) mod 256)). cbn [exec_bind].
  assert (Hmod : forall x, is_byte (x mod 256)) by (intros; apply Z.mod_pos_bound; lia).
  destruct (set_index_returns data (off + 8 + 1) ((nf / 2 ^ 16) mod 256)) as (d1 & -> & L1 & P1); [lia|]. cbn [exec_bind].
  destruct (set_index_returns d1 (off + 8 + 1 + 1) ((nf / 2 ^ 8) mod 256)) as (d2 & -> & L2 & P2); [lia|]. cbn [exec_bind].
  destruct (set_index_returns d2 (off + 8 + 1 + 2) ((nf / 2 ^ 0) mod 256)) as (d3 & -> & L3 & P3); [lia|]. cbn [exec_bind].
  eexists. split; [done|]. split; [lia|]. auto.
Qed.

(** Enough fuel for every path of loop rounds and calls: each moves the cursor
    eight bytes. The counter stays below the fuel's power of two. *)
Lemma fix_rec_returns fuel data cursor m : Forall is_byte data -> 0 <= cursor -> 0 <= m ->
  zlen data - cursor < Z.of_nat fuel -> (0 < fuel)%nat ->
  completes (fix_tfhd_flags_recursive fuel data cursor m) /\
  forall data' m', fix_tfhd_flags_recursive fuel data cursor m = Done (data', m') ->
    zlen data' = zlen data /\ Forall is_byte data' /\ m <= m'.
Proof.
  revert data cursor m. induction fuel as [|fuel IH]; intros data cursor m Hb Hc Hm Hf Hpos; [lia|].
  cbn [fix_tfhd_flags_recursive].
  destruct (Z.ltb_spec (zlen data) (cursor + 8)); [by split; [|intros ?? [= <- <-]]|].
  destruct (be32_at_returns data cursor Hb Hc) as (size & -> & _); [lia|]. cbn [exec_bind].
  case_match eqn:E; [by split; [|intros ?? [= <- <-]]|]. reflect_bools.
  destruct (slice_returns data (cursor + 4) (cursor + 8)) as (ty & -> & _); [lia|lia|]. cbn [exec_bind].
  match goal with |- completes (exec_bind ?a _) /\ _ => set (after := a) end.
  assert (Hafter : completes after /\ forall data' m', after = Done (data', m') ->
    zlen data' = zlen data /\ Forall is_byte data' /\ m <= m').
  { subst after. case_match.
    - destruct (fix_single_returns data cursor size Hb Hc) as ([d ch] & -> & Hl & Hd); [lia|].
      cbn [exec_bind]. destruct ch; [|by split; [|intros ?? [= <- <-]]].
      unfold add_u64, checked. case_match; [|by split]. cbn [exec_bind].
      split; [done|]. intros ?? [= <- <-]. split; [done|]. split; [done|lia].
    - case_match; [|by split; [|intros ?? [= <- <-]]]. apply IH; [done|lia|done|lia|lia]. }
  clearbody after. destruct Hafter as [Hca Ha]. destruct after as [[d m']| |]; [|by split|done].
  cbn [exec_bind]. destruct (Ha d m' eq_refl) as (Hl & Hd & Hmm).
  destruct (IH d (cursor + size) m') as [Hcc Hr]; [done|lia|lia|lia|lia|].
  split; [done|]. intros d' m'' E'. destruct (Hr d' m'' E') as (? & ? & ?). repeat split; [lia|done|lia].
Qed.

(** ** Properties of the flag rewriting *)

Lemma leaves_bound ns : Forall moof_child_ok ns -> zlen (leaves ns) <= zlen (moof_bytes ns).
Proof.
  induction 1 as [|n ns [Hwf Hn] _ IH]; [done|]. rewrite moof_bytes_cons. cbn [leaves flat_map].
  rewrite !zlen_app, zlen_box_bytes by done. fold (leaves ns). pose proof (box_size_range _ Hwf).
  destruct n as [b|cs]; cbn [moof_child_box] in *; [zlia|].
  unfold box_size. cbn [snd]. pose proof (length_boxes_bytes cs) as Hl.
  assert (Hwcs : Forall wf_box cs).
  { rewrite list.Forall_forall in Hn. apply list.Forall_forall. intros b Hb. by apply Hn. }
  specialize (Hl Hwcs). unfold zlen in *. lia.
Qed.

Lemma count_fixes_bound bs : 0 <= count_fixes bs <= zlen bs.
Proof.
  unfold count_fixes, zlen. split; [lia|]. induction bs as [|b bs IH]; [done|].
  cbn [List.filter length]. case_match; cbn [length]; lia.
Qed.

Lemma moof_child_boxes_wf ns : Forall moof_child_ok ns -> Forall wf_box (map moof_child_box ns).
Proof. induction 1 as [|n ns [Hn _] _ IH]; cbn; constructor; done. Qed.

Lemma Forall_mse_child ns : Forall moof_child_ok ns -> Forall moof_child_ok (map mse_child ns).
Proof. induction 1; cbn; constructor; auto using moof_child_ok_mse. Qed.

Lemma zlen_moof_mse ns : Forall moof_child_ok ns -> zlen (moof_bytes (map mse_child ns)) = zlen (moof_bytes ns).
Proof.
  induction 1 as [|n ns Hn _ IH]; [done|]. cbn [map]. rewrite !moof_bytes_cons, !zlen_app, IH.
  rewrite !zlen_box_bytes by (apply Hn || by apply moof_child_ok_mse). f_equal.
  destruct Hn as [_ Hn], n as [b|cs]; cbn in *; [by apply mse_box_size|].
  unfold box_size. cbn. by rewrite zlen_boxes_mse.
Qed.

(** The flags of a [tfhd] content. *)
Definition tfhd_flags (c : bytes) : Z := be_val (ztake 3 (zdrop 1 c)).

Lemma mse_tfhd_flags c : Forall is_byte c -> 8 <= zlen c ->
  Z.testbit (tfhd_flags (mse_tfhd c)) 0 = false /\ Z.testbit (tfhd_flags (mse_tfhd c)) 17 = true /\
  (forall n, 0 <= n -> n <> 0 -> n <> 17 ->
     Z.testbit (tfhd_flags (mse_tfhd c)) n = Z.testbit (tfhd_flags c) n) /\
  zdrop 4 (mse_tfhd c) = zdrop 4 c.
Proof.
  intros Hb Hl. destruct (tfhd_content_cases c Hb) as [[? _]|(v & f & rest & -> & Hf & Hr)]; [lia|].
  rewrite mse_tfhd_form by done.
  assert (Hflags : forall g, is_flags g -> tfhd_flags (v :: be_bytes 3 g ++ rest) = g).
  { intros g Hg. unfold tfhd_flags. change (zdrop 1 (v :: be_bytes 3 g ++ rest)) with (be_bytes 3 g ++ rest).
    rewrite ztake_app_eq by done. by apply be_val_be_bytes3. }
  rewrite !Hflags by (done || by apply mse_flags_range).
  split; [by rewrite mse_flags_testbit by (done || lia); cbn; rewrite andb_false_r|].
  split; [by rewrite mse_flags_testbit by (done || lia); cbn; rewrite orb_true_r|]. split; [|done].
  intros n Hn H0 H17. rewrite mse_flags_testbit by done.
  rewrite (proj2 (Z.eqb_neq _ _) H0), (proj2 (Z.eqb_neq _ _) H17). by destruct (Z.testbit f n).
Qed.

(** The search passes every child once, within its fuel. *)
Lemma count_bound ns : Forall moof_child_ok ns -> (count ns <= length (moof_bytes ns))%nat.
Proof.
  induction 1 as [|n ns [Hwf Hn] _ IH]; [cbn; lia|].
  unfold count in *. cbn [sum_list_with]. rewrite moof_bytes_cons, length_app.
  pose proof (zlen_box_bytes _ Hwf) as Hz. pose proof (box_size_range _ Hwf). unfold box_size, zlen in *.
  destruct n as [b|cs]; cbn [moof_child_box child_count snd] in *; [lia|].
  assert (Hwcs : Forall wf_box cs) by (rewrite list.Forall_forall in Hn |- *; intros b Hb; by apply Hn).
  pose proof (length_boxes_bytes cs Hwcs). lia.
Qed.

Lemma fix_moof_std moof ns :
  content moof = Raw (moof_bytes ns) -> Forall moof_child_ok ns -> 8 + zlen (moof_bytes ns) <= u32_max ->
  fix_moof_tfhd_flags moof = Done (ROk (box_bytes (str "moof", moof_bytes (map mse_child ns)))).
Proof.
  intros Hc Hok Hlen.
  pose proof (leaves_bound ns Hok). pose proof (count_fixes_bound (leaves ns)).
  pose proof (zlen_moof_mse ns Hok) as Hz. pose proof (count_bound ns Hok) as Hcount.
  unfold fix_moof_tfhd_flags. rewrite Hc.
  pose proof (fix_rec_std (Datatypes.S (length (moof_bytes ns))) ns [] 0 Hok) as Hfix.
  cbn [app] in Hfix. change (zlen []) with 0 in Hfix. rewrite Hfix by (unfold u64_max, u32_max in *; lia).
  cbn [exec_bind fst]. by rewrite wrap_box_done by lia.
Qed.

Lemma leaves_ok ns : Forall moof_child_ok ns -> Forall leaf_ok (leaves ns).
Proof.
  induction 1 as [|[b|cs] ns [_ Hn] _ IH]; cbn in *; [done| |].
  - by apply List.Forall_cons.
  - by apply list.Forall_app.
Qed.

(** [fix_moof_tfhd_flags] turns a fragment into a [moof] box of the same
    length that differs only in the flags of its [tfhd] boxes: read back, its
    children are the original ones with every [tfhd] rewritten, and in each
    rewritten [tfhd] base-data-offset-present is clear, default-base-is-moof is
    set, and the other flags and the fields after them are as before. *)
Theorem fix_moof_tfhd_flags_spec moof ns :
  content moof = Raw (moof_bytes ns) -> Forall moof_child_ok ns -> 8 + zlen (moof_bytes ns) <= u32_max ->
  let fixed := map moof_child_box (map mse_child ns) in
  exists data, fix_moof_tfhd_flags moof = Done (ROk data) /\
    zlen data = 8 + zlen (moof_bytes ns) /\
    parse_boxes (length data) data = Some [(str "moof", boxes_bytes fixed)] /\
    parse_boxes (length data) (boxes_bytes fixed) = Some fixed /\
    Forall (fun b => fst b = str "tfhd" -> 8 <= zlen (snd b) ->
      let c := snd b in let c' := snd (mse_box b) in
      Z.testbit (tfhd_flags c') 0 = false /\ Z.testbit (tfhd_flags c') 17 = true /\
      (forall n, 0 <= n -> n <> 0 -> n <> 17 -> Z.testbit (tfhd_flags c') n = Z.testbit (tfhd_flags c) n) /\
      zdrop 4 c' = zdrop 4 c) (leaves ns).
Proof.
  intros Hc Hok Hlen fixed.
  pose proof (zlen_moof_mse ns Hok) as Hz. pose proof (Forall_mse_child ns Hok) as Hok'.
  assert (Hwf : Forall wf_box [(str "moof", boxes_bytes fixed)]).
  { apply Forall_singleton. split; [done|]. cbn [snd]. subst fixed. fold (moof_bytes (map mse_child ns)). lia. }
  exists (box_bytes (str "moof", boxes_bytes fixed)). split_and!; [by apply fix_moof_std| | | |].
  - rewrite zlen_box_bytes by by apply Forall_singleton. unfold box_size. cbn [snd]. unfold fixed, moof_bytes in *. lia.
  - rewrite <- boxes_bytes_single. by apply parse_boxes_bytes.
  - apply parse_boxes_roundtrip; [by apply moof_child_boxes_wf|].
    pose proof (length_boxes_bytes fixed (moof_child_boxes_wf _ Hok')). unfold box_bytes. cbn [fst snd]. rewrite !length_app. lia.
  - pose proof (leaves_ok ns Hok) as Hleaf. rewrite list.Forall_forall in Hleaf |- *. intros b Hb Ht Hl.
    unfold mse_box. rewrite Ht, str_eqb_refl. cbn [snd]. apply mse_tfhd_flags; [by apply Hleaf|done].
Qed.

Definition demo_moof : list moof_child :=
  [Child (str "mfhd", [0; 0; 0; 0; 0; 0; 0; 1]);
   Traf [(str "tfhd", [0; 0; 0; 9; 0; 0; 0; 1; 0; 0; 0; 0; 0; 0; 1; 44; 0; 0; 0; 40]); (str "trun", [1; 2; 3])];
   Traf [(str "tfhd", [0; 2; 0; 0; 0; 0; 0; 2])]].

Ltac moof_demo := box_demo_with
  ltac:(first [ progress unfold moof_child_ok, leaf_ok, moof_child_box in *
              | let E := fresh in intros E; first [ vm_compute in E; discriminate
                  | by (eexists; reflexivity) ] ]).

Lemma demo_moof_ok : Forall moof_child_ok demo_moof.
Proof. unfold demo_moof. moof_demo. Qed.

Lemma fix_moof_tfhd_flags_spec_witness :
  let fixed := map moof_child_box (map mse_child demo_moof) in
  exists data, fix_moof_tfhd_flags
      {| header := {| box_type := str "moof"; bh_size := 0; content_start := 8 |}; content := Raw (moof_bytes demo_moof) |}
      = Done (ROk data) /\
    zlen data = 8 + zlen (moof_bytes demo_moof) /\
    parse_boxes (length data) data = Some [(str "moof", boxes_bytes fixed)] /\
    parse_boxes (length data) (boxes_bytes fixed) = Some fixed /\
    Forall (fun b => fst b = str "tfhd" -> 8 <= zlen (snd b) ->
      let c := snd b in let c' := snd (mse_box b) in
      Z.testbit (tfhd_flags c') 0 = false /\ Z.testbit (tfhd_flags c') 17 = true /\
      (forall n, 0 <= n -> n <> 0 -> n <> 17 -> Z.testbit (tfhd_flags c') n = Z.testbit (tfhd_flags c) n) /\
      zdrop 4 c' = zdrop 4 c) (leaves demo_moof).
Proof.
  intros fixed. apply fix_moof_tfhd_flags_spec; [reflexivity | exact demo_moof_ok | vm_compute; discriminate].
Defined.

(** On arbitrary bytes the flag search ends, its recursion included, with a
    content of the same length, unless the counter of changes overflows. *)
Theorem fix_tfhd_flags_total data : Forall is_byte data ->
  let run := fix_tfhd_flags_recursive (Datatypes.S (length data)) data 0 0 in
  completes run /\
  forall data' n, run = Done (data', n) -> zlen data' = zlen data /\ Forall is_byte data' /\ 0 <= n.
Proof.
  intros Hb run. apply fix_rec_returns; [done|lia|lia|unfold zlen; lia|lia].
Qed.

Lemma fix_tfhd_flags_total_witness :
  let data := [0; 0; 0; 8; 116; 114; 97; 102; 0; 0; 0; 16; 116; 102; 104; 100; 0; 0; 0; 1; 0; 0; 0; 1] in
  let run := fix_tfhd_flags_recursive (Datatypes.S (length data)) data 0 0 in
  completes run /\
  forall data' n, run = Done (data', n) -> zlen data' = zlen data /\ Forall is_byte data' /\ 0 <= n.
Proof. intros data. apply (fix_tfhd_flags_total data). box_demo_with fail. Defined.

(** A player's reading of the default sample duration of a [tfhd] content: the
    optional fields lie behind the track id, each present when its flag is. *)
Definition read_default_duration (c : bytes) : option Z :=
  let f := tfhd_flags c in
  let off := 8 + (if Z.testbit f 0 then 8 else 0) + (if Z.testbit f 1 then 4 else 0) in
  if Z.testbit f 3 then
    match be32_at c off with Done d => Some d | _ => None end
  else None.

(** Clearing base-data-offset-present without removing the field makes the
    later fields shift: where a [tfhd] carries a base data offset and a default
    sample duration (and no sample description index), a player reads the upper
    half of the offset as the duration after the rewriting. *)
Theorem fix_tfhd_shifts_fields v f track_id base duration rest :
  is_flags f -> Z.testbit f 0 = true -> Z.testbit f 1 = false -> Z.testbit f 3 = true ->
  is_u32 track_id -> is_u64 base -> is_u32 duration ->
  let c := v :: be_bytes 3 f ++ be_bytes 4 track_id ++ be_bytes 8 base ++ be_bytes 4 duration ++ rest in
  read_default_duration c = Some duration /\
  read_default_duration (snd (mse_box (str "tfhd", c))) = Some (base / 2 ^ 32).
Proof.
  intros Hf H0 H1 H3 Ht Hb Hd c. unfold mse_box. cbn [fst snd]. rewrite str_eqb_refl.
  assert (Hflags : forall g k, is_flags g -> tfhd_flags (v :: be_bytes 3 g ++ k) = g).
  { intros g k Hg. unfold tfhd_flags. change (zdrop 1 (v :: be_bytes 3 g ++ k)) with (be_bytes 3 g ++ k).
    rewrite ztake_app_eq by done. by apply be_val_be_bytes3. }
  subst c. rewrite mse_tfhd_form by (done || zlia). cbn [snd]. unfold read_default_duration.
  pose proof (mse_flags_range f Hf). rewrite !Hflags by done.
  rewrite !mse_flags_testbit by (done || lia). rewrite H0, H1, H3.
  change (negb (0 =? 0)) with false. cbn [andb orb Z.eqb Pos.eqb negb].
  assert (Hbase : be_bytes 8 base = be_bytes 4 (base / 2 ^ 32) ++ be_bytes 4 base).
  { cbn [be_bytes app]. by rewrite !Z.div_div by lia. }
  split.
  - replace (v :: be_bytes 3 f ++ be_bytes 4 track_id ++ be_bytes 8 base ++ be_bytes 4 duration ++ rest)
      with (((v :: be_bytes 3 f) ++ be_bytes 4 track_id ++ be_bytes 8 base) ++ be_bytes 4 duration ++ rest)
      by (by rewrite <- !app_assoc).
    rewrite be32_at_mid; [done|done|]. zlia.
  - rewrite Hbase, <- !app_assoc.
    match goal with |- context [be32_at (v :: be_bytes 3 ?g ++ ?a ++ ?r)] =>
      replace (v :: be_bytes 3 g ++ a ++ r) with (((v :: be_bytes 3 g) ++ a) ++ r) by (by rewrite <- !app_assoc) end.
    rewrite be32_at_mid; [done| |zlia]. unfold is_u64, is_u32, u64_max, u32_max in *.
    pose proof (Z.div_pos base (2 ^ 32)). pose proof (Z.div_lt_upper_bound base (2 ^ 32) (2 ^ 32)). lia.
Qed.

Lemma fix_tfhd_shifts_fields_witness :
  let c := 0 :: be_bytes 3 9 ++ be_bytes 4 1 ++ be_bytes 8 4096 ++ be_bytes 4 40 ++ [] in
  read_default_duration c = Some 40 /\ read_default_duration (snd (mse_box (str "tfhd", c))) = Some 0.
Proof. refine (fix_tfhd_shifts_fields 0 9 1 4096 40 [] _ _ _ _ _ _ _); vm_compute; (done || split; (done || discriminate)). Defined.

(** ** Walking children *)

Section Walk.
Context {S R : Type} (data : bytes) (size : Z).
Context (body : S -> Z -> Z -> rstring -> exec (step S R)) (fin : S -> exec R).
Context (body' : S -> mp4_box -> exec (step S R)).

(** Walking the children of a box whose size field is right folds the body
    over them. *)
Lemma walk_children_fold bs pre s :
  data = pre ++ boxes_bytes bs -> size = zlen data -> Forall wf_box bs ->
  (forall s l b k, data = l ++ box_bytes b ++ k -> b ∈ bs ->
     body s (zlen l) (box_size b) (default (str "????") (from_utf8 (fst b))) = body' s b) ->
  walk_children data size body fin (zlen pre) s = fold_boxes (fun s _ b => body' s b) fin (zlen pre) bs s.
Proof using Type.
  intros Hd Hsize Hwf Hbody. unfold walk_children.
  assert (Hfuel : (length bs < Datatypes.S (length data))%nat).
  { rewrite Hd, length_app. pose proof (length_boxes_bytes bs Hwf). lia. }
  revert Hfuel. generalize (Datatypes.S (length data)) as fuel. intros fuel Hfuel.
  revert bs pre s Hd Hwf Hbody Hfuel. induction fuel as [|fuel IH]; intros bs pre s Hd Hwf Hbody Hfuel; [lia|].
  cbn [loop]. destruct bs as [|b bs].
  - unfold walk_step. rewrite Hd in Hsize. change (boxes_bytes []) with (@nil Z) in Hsize. rewrite app_nil_r in Hsize.
    destruct (Z.leb_spec (zlen pre + 8) size); [lia|]. cbn [andb negb fold_boxes]. by destruct (fin s).
  - apply list.Forall_cons in Hwf as [Hb Hwf]. rewrite boxes_bytes_cons in *. cbn [length] in Hfuel.
    pose proof (box_size_range b Hb).
    assert (Hlen : zlen data = zlen pre + box_size b + zlen (boxes_bytes bs))
      by (rewrite Hd, !zlen_app, zlen_box_bytes by done; lia).
    pose proof (zlen_nonneg (boxes_bytes bs)).
    assert (Hstep : walk_step data size body fin (zlen pre, s) =
      (let! next := body' s b in
       match next with
       | Continue s' => Done (Continue (zlen pre + box_size b, s'))
       | Break r => Done (Break r)
       end)).
    { unfold walk_step. rewrite Hsize.
      replace ((zlen pre + 8 <=? zlen data) && (zlen pre <? zlen data)) with true
        by (symmetry; rewrite andb_true_iff, Z.leb_le, Z.ltb_lt; lia). cbn [negb].
      rewrite Hd at 1. rewrite box_header_at by done. cbn [exec_bind].
      rewrite Hd at 1. rewrite box_type_at by done. cbn [exec_bind].
      replace ((box_size b =? 0) || (zlen data <? zlen pre + box_size b)) with false
        by (symmetry; rewrite orb_false_iff, Z.eqb_neq, Z.ltb_ge; lia).
      by rewrite (Hbody s pre b (boxes_bytes bs) Hd) by left. }
    rewrite Hstep. cbn [fold_boxes].
    destruct (body' s b) as [[s'|r]| |]; cbn [exec_bind]; try done.
    replace (zlen pre + box_size b) with (zlen (pre ++ box_bytes b)) by (by rewrite zlen_app, zlen_box_bytes).
    apply IH; [by rewrite <- app_assoc|done| |lia].
    intros s0 l b0 k Hd0 Hin. apply (Hbody s0 l b0 k Hd0). by right.
Qed.
End Walk.

(** Comparing a strictly decoded type with a literal compares the bytes. *)
Lemma str_eqb_default_utf8 ty s : is_ascii s = true -> s <> str "????" ->
  str_eqb (default (str "????") (from_utf8 ty)) s = str_eqb ty s.
Proof.
  intros Ha Hs. unfold from_utf8. case_match; [done|]. cbn.
  rewrite (proj2 (str_eqb_neq _ _)) by done. symmetry. apply str_eqb_neq. intros ->.
  assert (Hu : from_utf8 s = Some s) by by apply from_utf8_ascii.
  unfold from_utf8 in Hu. by case_match.
Qed.

(** ** Reference: fragments at another time *)

Definition tfdt_box (time : Z) : mp4_box := (str "tfdt", [1; 0; 0; 0] ++ be_bytes 8 time).

Definition has_type (ty : string) (b : mp4_box) : bool := str_eqb (fst b) (str ty).

(** The last [tfhd] first, then a [tfdt] unless there is one, then the other
    children with every [tfdt] replaced. *)
Definition retimed_traf (time : Z) (bs : list mp4_box) : list mp4_box :=
  match last (List.filter (has_type "tfhd") bs) with Some b => [b] | None => [] end
  ++ (if existsb (has_type "tfdt") bs then [] else [tfdt_box time])
  ++ map (fun b => if has_type "tfdt" b then tfdt_box time else b)
       (List.filter (fun b => negb (has_type "tfhd" b)) bs).

Definition retimed_child (time : Z) (n : moof_child) : moof_child :=
  match n with Child b => Child b | Traf cs => Traf (retimed_traf time cs) end.

Lemma create_tfdt_box_bytes time : create_tfdt_box time = box_bytes (tfdt_box time).
Proof. unfold create_tfdt_box, box_bytes, tfdt_box. cbn [fst snd]. zlen_simpl. done. Qed.

Lemma wf_tfdt_box time : wf_box (tfdt_box time).
Proof. split; [done|]. unfold tfdt_box, u32_max. cbn [snd]. zlen_simpl. lia. Qed.

Definition traf_state : Type := (bytes * bool * option bytes)%type.

Definition traf_round (time : Z) (st : traf_state) (b : mp4_box) : exec (step traf_state (result bytes io_error)) :=
  let '(traf_content, has_tfdt, tfhd_data) := st in
  if has_type "tfhd" b then Done (Continue (traf_content, has_tfdt, Some (box_bytes b)))
  else if has_type "tfdt" b then
    Done (Continue (traf_content ++ create_tfdt_box time, true, tfhd_data))
  else Done (Continue (traf_content ++ box_bytes b, has_tfdt, tfhd_data)).

Lemma fold_traf time fin bs off acc h t :
  fold_boxes (fun s (_ : Z) b => traf_round time s b) fin off bs (acc, h, t)
  = fin (acc ++ boxes_bytes (map (fun b => if has_type "tfdt" b then tfdt_box time else b)
                              (List.filter (fun b => negb (has_type "tfhd" b)) bs)),
         h || existsb (has_type "tfdt") bs,
         match last (List.filter (has_type "tfhd") bs) with Some b => Some (box_bytes b) | None => t end).
Proof.
  revert off acc h t. induction bs as [|b bs IH]; intros off acc h t.
  { cbn. by rewrite app_nil_r, orb_false_r. }
  cbn [fold_boxes]. unfold traf_round at 1. cbn [List.filter existsb].
  destruct (has_type "tfhd" b) eqn:Eh; cbn [exec_bind negb].
  - assert (Ed : has_type "tfdt" b = false).
    { apply str_eqb_eq in Eh. unfold has_type. rewrite Eh. done. }
    rewrite IH, Ed. cbn [orb]. destruct (List.filter (has_type "tfhd") bs) as [|x l] eqn:Ef; [done|].
    change (last (b :: x :: l)) with (last (x :: l)).
    destruct (last (x :: l)) eqn:El; [done|]. by apply last_None in El.
  - cbn [map]. rewrite boxes_bytes_cons. destruct (has_type "tfdt" b) eqn:Ed; cbn [exec_bind].
    + rewrite IH, create_tfdt_box_bytes, <- app_assoc. by rewrite orb_true_r.
    + by rewrite IH, <- app_assoc.
Qed.

Lemma last_In {A} (l : list A) x : last l = Some x -> In x l.
Proof. intros H. apply list_elem_of_In. by apply last_Some_elem_of. Qed.

Lemma retimed_traf_wf time cs : Forall wf_box cs -> Forall wf_box (retimed_traf time cs).
Proof.
  intros Hwf. unfold retimed_traf. rewrite !list.Forall_app. split_and!.
  - case_match eqn:E; [|done]. apply Forall_singleton.
    apply last_In, List.filter_In in E as [E _]. rewrite list.Forall_forall in Hwf. by apply Hwf, list_elem_of_In.
  - case_match; [done|]. apply Forall_singleton, wf_tfdt_box.
  - apply list.Forall_forall. intros b (x & -> & Hx)%elem_of_map.
    case_match; [apply wf_tfdt_box|]. apply list_elem_of_In, List.filter_In in Hx as [Hx _].
    rewrite list.Forall_forall in Hwf. by apply Hwf, list_elem_of_In.
Qed.

Lemma ensure_traf_std time cs : wf_box (str "traf", boxes_bytes cs) -> Forall wf_box cs ->
  wf_box (str "traf", boxes_bytes (retimed_traf time cs)) ->
  ensure_traf_has_tfdt (box_bytes (str "traf", boxes_bytes cs)) time
  = Done (ROk (box_bytes (str "traf", boxes_bytes (retimed_traf time cs)))).
Proof.
  intros Hwt Hwf Hwr. unfold ensure_traf_has_tfdt.
  pose proof (box_size_range _ Hwt). rewrite zlen_box_bytes by done.
  destruct (Z.ltb_spec (box_size (str "traf", boxes_bytes cs)) 8); [lia|].
  pose proof (box_header_at [] _ [] 0 Hwt eq_refl) as Hhd. cbn [app] in Hhd. rewrite app_nil_r in Hhd.
  rewrite Hhd. cbn [exec_bind].
  set (hd := be_bytes 4 (8 + zlen (boxes_bytes cs)) ++ str "traf").
  assert (Hsplit : box_bytes (str "traf", boxes_bytes cs) = hd ++ boxes_bytes cs)
    by (unfold box_bytes, hd; cbn [fst snd]; by rewrite <- app_assoc).
  rewrite <- zlen_box_bytes, Hsplit by done. change 8 with (zlen hd) at 1.
  rewrite (walk_children_fold _ _ _ _ (traf_round time) cs hd); [|done|done|done|].
  - rewrite fold_traf. cbn [app orb].
    match goal with |- exec_bind (wrap_box _ ?c) _ = _ =>
      assert (Hc : c = boxes_bytes (retimed_traf time cs)) end.
    { unfold retimed_traf. rewrite !boxes_bytes_app. f_equal; [|f_equal].
      - case_match; cbn; by rewrite ?app_nil_r.
      - case_match; [done|]. by rewrite create_tfdt_box_bytes, boxes_bytes_single. }
    rewrite Hc, wrap_box_done by apply Hwr. done.
  - intros [[acc h] t] l b k Hd Hin. rewrite list.Forall_forall in Hwf. specialize (Hwf b Hin).
    rewrite !str_eqb_default_utf8 by done. unfold traf_round, has_type.
    rewrite Hd, (box_at l b k) by done. done.
Qed.

(** Children fit their headers when the fragment fits its own. *)
Lemma moof_parts_wf ns : zlen (moof_bytes ns) <= u32_max ->
  Forall (fun n => match n with Child b => wf_box b | Traf _ => True end) ns ->
  Forall (fun n => wf_box (moof_child_box n)) ns.
Proof.
  intros Hl. induction 1 as [|n ns Hn _ IH]; [done|]. rewrite moof_bytes_cons, zlen_app in Hl.
  pose proof (zlen_nonneg (moof_bytes ns)). pose proof (zlen_nonneg (box_bytes (moof_child_box n))).
  apply List.Forall_cons; [|apply IH; lia]. destruct n as [b|cs]; [done|].
  split; [done|]. cbn [moof_child_box] in *. unfold box_bytes in Hl. cbn [fst snd] in *. zlen_simpl.
  change (zlen (str "traf")) with 4 in Hl. lia.
Qed.

Definition moof_round (time : Z) (acc : bytes) (b : mp4_box) : exec (step bytes (result bytes io_error)) :=
  if has_type "traf" b then
    let! new_traf := ensure_traf_has_tfdt (box_bytes b) time in
    match new_traf with
    | ROk traf => Done (Continue (acc ++ traf))
    | RErr e => Done (Break (RErr e))
    end
  else Done (Continue (acc ++ box_bytes b)).

Definition plain_child (n : moof_child) : Prop :=
  match n with Child b => wf_box b /\ fst b <> str "traf" | Traf cs => Forall wf_box cs end.

Lemma fold_moof_children time ns off acc fin : Forall plain_child ns ->
  Forall (fun n => wf_box (moof_child_box n)) ns ->
  Forall (fun n => wf_box (moof_child_box n)) (map (retimed_child time) ns) ->
  fold_boxes (fun s (_ : Z) b => moof_round time s b) fin off (map moof_child_box ns) acc
  = fin (acc ++ moof_bytes (map (retimed_child time) ns)).
Proof.
  revert off acc. induction ns as [|n ns IH]; intros off acc Hok Hw Hw'; [cbn; by rewrite app_nil_r|].
  cbn [map fold_boxes] in *. apply list.Forall_cons in Hok as [Hn Hok].
  apply list.Forall_cons in Hw as [Hwn Hw]. apply list.Forall_cons in Hw' as [Hwn' Hw'].
  rewrite moof_bytes_cons. unfold moof_round at 1.
  destruct n as [b|cs]; cbn [moof_child_box retimed_child] in *.
  - unfold has_type at 1. rewrite (proj2 (str_eqb_neq _ _)) by apply Hn. cbn [exec_bind].
    by rewrite IH, <- app_assoc by done.
  - change (has_type "traf" (str "traf", boxes_bytes cs)) with true. cbv iota.
    rewrite ensure_traf_std by done. cbn [exec_bind]. by rewrite IH, <- app_assoc by done.
Qed.

Lemma ensure_moof_std time scale ns : Forall plain_child ns ->
  8 + zlen (moof_bytes ns) <= u32_max -> 8 + zlen (moof_bytes (map (retimed_child time) ns)) <= u32_max ->
  ensure_moof_has_tfdt (box_bytes (str "moof", moof_bytes ns)) time scale
  = Done (ROk (box_bytes (str "moof", moof_bytes (map (retimed_child time) ns)))).
Proof.
  intros Hok Hlen Hlen'.
  assert (Hwm : wf_box (str "moof", moof_bytes ns)) by by split.
  assert (Hw : Forall (fun n => wf_box (moof_child_box n)) ns).
  { apply moof_parts_wf; [lia|]. eapply list.Forall_impl; [exact Hok|]. intros [b|cs] Hn; [apply Hn|done]. }
  assert (Hw' : Forall (fun n => wf_box (moof_child_box n)) (map (retimed_child time) ns)).
  { apply moof_parts_wf; [lia|]. rewrite list.Forall_forall in Hok |- *. intros n' (n & -> & Hn)%elem_of_map.
    specialize (Hok n Hn). destruct n; [apply Hok|done]. }
  unfold ensure_moof_has_tfdt.
  pose proof (box_size_range _ Hwm). rewrite zlen_box_bytes by done.
  destruct (Z.ltb_spec (box_size (str "moof", moof_bytes ns)) 8); [lia|].
  pose proof (box_header_at [] _ [] 0 Hwm eq_refl) as Hhd. cbn [app] in Hhd. rewrite app_nil_r in Hhd.
  pose proof (box_type_at [] _ [] 4 8 Hwm eq_refl eq_refl) as Hty. cbn [app] in Hty. rewrite app_nil_r in Hty.
  rewrite Hhd, Hty. cbn [exec_bind fst]. rewrite str_eqb_refl. cbn [negb].
  set (hd := be_bytes 4 (8 + zlen (moof_bytes ns)) ++ str "moof").
  assert (Hsplit : box_bytes (str "moof", moof_bytes ns) = hd ++ moof_bytes ns)
    by (unfold box_bytes, hd; cbn [fst snd]; by rewrite <- app_assoc).
  rewrite <- zlen_box_bytes, Hsplit by done. change 8 with (zlen hd) at 1.
  rewrite (walk_children_fold _ _ _ _ (moof_round time) (map moof_child_box ns) hd); [|done|done| |].
  - rewrite fold_moof_children by done. cbn [app]. by rewrite wrap_box_done by lia.
  - clear - Hw. induction Hw; cbn; constructor; done.
  - intros acc l b k Hd Hin. apply elem_of_map in Hin as (n & -> & Hin).
    rewrite list.Forall_forall in Hw. specialize (Hw n Hin). cbv beta in Hw.
    rewrite Hd, (box_at l (moof_child_box n) k) by done. cbn [exec_bind].
    rewrite str_eqb_default_utf8 by done. done.
Qed.

(** ** Properties of the decode time *)

Definition is_timed (b : mp4_box) : bool := has_type "tfhd" b || has_type "tfdt" b.

Lemma retimed_traf_spec time cs :
  existsb (has_type "tfdt") (retimed_traf time cs) = true /\
  Forall (fun b => has_type "tfdt" b = true -> b = tfdt_box time) (retimed_traf time cs) /\
  List.filter (fun b => negb (is_timed b)) (retimed_traf time cs) = List.filter (fun b => negb (is_timed b)) cs.
Proof.
  unfold retimed_traf. set (hd := match last (List.filter (has_type "tfhd") cs) with Some b => [b] | None => [] end).
  set (rest := map (fun b => if has_type "tfdt" b then tfdt_box time else b)
    (List.filter (fun b => negb (has_type "tfhd" b)) cs)).
  assert (Hhd : Forall (fun b => has_type "tfhd" b = true) hd).
  { subst hd. case_match eqn:E; [|done]. apply Forall_singleton.
    by apply last_In, List.filter_In in E as [_ E]. }
  assert (Hrest : Forall (fun b => has_type "tfdt" b = true -> b = tfdt_box time) rest).
  { apply list.Forall_forall. intros b (x & -> & _)%elem_of_map. case_match; [done|]. congruence. }
  assert (Hdisj : forall b, has_type "tfhd" b = true -> has_type "tfdt" b = false).
  { intros b E%str_eqb_eq. unfold has_type. by rewrite E. }
  split; [|split].
  - rewrite !existsb_app. destruct (existsb (has_type "tfdt") cs) eqn:E; [|by rewrite orb_true_r].
    cbn [existsb]. rewrite orb_false_l. apply orb_true_iff. right.
    apply List.existsb_exists in E as (b & Hin & Hb). apply List.existsb_exists.
    exists (tfdt_box time). split; [|done]. apply list_elem_of_In, elem_of_map. exists b.
    rewrite Hb. split; [done|]. apply list_elem_of_In, List.filter_In. split; [done|].
    destruct (has_type "tfhd" b) eqn:Eh; [|done]. by rewrite (Hdisj b Eh) in Hb.
  - rewrite !list.Forall_app. split_and!; [| |done].
    + eapply list.Forall_impl; [exact Hhd|]. cbv beta. intros b Hb Hd. by rewrite (Hdisj b Hb) in Hd.
    + case_match; [done|]. by apply Forall_singleton.
  - rewrite !List.filter_app.
    replace (List.filter _ hd) with (@nil mp4_box).
    2:{ clear -Hhd. induction Hhd as [|b l Hb _ IH]; [done|]. cbn. unfold is_timed at 1. by rewrite Hb. }
    replace (List.filter _ (if existsb (has_type "tfdt") cs then [] else [tfdt_box time]))
      with (@nil mp4_box) by (by case_match).
    cbn [app]. subst rest. clear -Hdisj. induction cs as [|b cs IH]; [done|]. cbn [List.filter].
    unfold is_timed at 2. destruct (has_type "tfhd" b) eqn:Eh; cbn [negb orb]; [done|].
    cbn [map List.filter]. destruct (has_type "tfdt" b) eqn:Ed; cbn [negb]; [by rewrite <- IH|].
    unfold is_timed at 1. rewrite Eh, Ed. cbn [negb orb]. by rewrite IH.
Qed.

(** [ensure_moof_has_tfdt] rebuilds a fragment as one [moof] box whose
    children are the original ones with every [traf] retimed: each [traf] then
    has a [tfdt], every [tfdt] holds the given decode time, and the children
    other than [tfhd] and [tfdt] are unchanged and in order. *)
Theorem ensure_moof_has_tfdt_spec time scale ns : Forall plain_child ns ->
  8 + zlen (moof_bytes ns) <= u32_max -> 8 + zlen (moof_bytes (map (retimed_child time) ns)) <= u32_max ->
  let children := map moof_child_box (map (retimed_child time) ns) in
  exists data, ensure_moof_has_tfdt (box_bytes (str "moof", moof_bytes ns)) time scale = Done (ROk data) /\
    parse_boxes (length data) data = Some [(str "moof", boxes_bytes children)] /\
    parse_boxes (length data) (boxes_bytes children) = Some children /\
    Forall (fun n => match n with
      | Child _ => True
      | Traf cs =>
          existsb (has_type "tfdt") (retimed_traf time cs) = true /\
          Forall (fun b => has_type "tfdt" b = true -> b = tfdt_box time) (retimed_traf time cs) /\
          List.filter (fun b => negb (is_timed b)) (retimed_traf time cs)
            = List.filter (fun b => negb (is_timed b)) cs
      end) ns.
Proof.
  intros Hok Hlen Hlen' children.
  assert (Hwf : Forall wf_box children).
  { assert (Hw' : Forall (fun n => wf_box (moof_child_box n)) (map (retimed_child time) ns)).
    { apply moof_parts_wf; [lia|]. rewrite list.Forall_forall in Hok |- *. intros n' (n & -> & Hn)%elem_of_map.
      specialize (Hok n Hn). destruct n; [apply Hok|done]. }
    clear - Hw'. subst children. induction Hw'; cbn; constructor; done. }
  eexists. split; [by apply ensure_moof_std|]. split_and!.
  - rewrite <- boxes_bytes_single. apply parse_boxes_bytes, Forall_singleton. by split.
  - apply parse_boxes_roundtrip; [done|]. pose proof (length_boxes_bytes children Hwf).
    unfold box_bytes. cbn [fst snd]. rewrite !length_app. unfold moof_bytes, children in *. lia.
  - apply list.Forall_forall. intros [b|cs] _; [done|]. apply retimed_traf_spec.
Qed.

Lemma ensure_moof_has_tfdt_spec_witness :
  let children := map moof_child_box (map (retimed_child 5000) demo_moof) in
  exists data, ensure_moof_has_tfdt (box_bytes (str "moof", moof_bytes demo_moof)) 5000 1000 = Done (ROk data) /\
    parse_boxes (length data) data = Some [(str "moof", boxes_bytes children)] /\
    parse_boxes (length data) (boxes_bytes children) = Some children /\
    Forall (fun n => match n with
      | Child _ => True
      | Traf cs =>
          existsb (has_type "tfdt") (retimed_traf 5000 cs) = true /\
          Forall (fun b => has_type "tfdt" b = true -> b = tfdt_box 5000) (retimed_traf 5000 cs) /\
          List.filter (fun b => negb (is_timed b)) (retimed_traf 5000 cs)
            = List.filter (fun b => negb (is_timed b)) cs
      end) demo_moof.
Proof.
  intros children. apply ensure_moof_has_tfdt_spec; [|vm_compute; discriminate..].
  unfold demo_moof. box_demo_with ltac:(unfold plain_child).
Defined.

(** The header checks of [ensure_moof_has_tfdt] are errors, but a [moof]
    that ends within the header of a child it announces is a panic. *)
Theorem ensure_moof_bad_input time scale :
  (forall data, zlen data < 8 ->
     ensure_moof_has_tfdt data time scale = Done (RErr (invalid_data (str "moof data too small")))) /\
  (forall size ty rest, is_u32 size -> zlen ty = 4 -> ty <> str "moof" ->
     ensure_moof_has_tfdt (be_bytes 4 size ++ ty ++ rest) time scale
     = Done (RErr (invalid_data (str "Not a moof box")))) /\
  (forall size rest, is_u32 size -> 16 <= size -> 0 < zlen rest < 8 ->
     ensure_moof_has_tfdt (be_bytes 4 size ++ str "moof" ++ rest) time scale = Panic).
Proof.
  assert (Hhead : forall size ty rest, is_u32 size -> zlen ty = 4 ->
    let data := be_bytes 4 size ++ ty ++ rest in
    be32_at data 0 = Done size /\ slice data 4 8 = Done ty /\ zlen data = 8 + zlen rest).
  { intros size ty rest Hs Ht data. subst data. split; [by apply be32_at_be_bytes|].
    split; [apply slice_app_mid; zlia|zlia]. }
  unfold ensure_moof_has_tfdt. split_and!.
  - intros data H. by destruct (Z.ltb_spec (zlen data) 8); [|lia].
  - intros size ty rest Hs Ht Hne. destruct (Hhead size ty rest Hs Ht) as (-> & -> & Hl).
    pose proof (zlen_nonneg rest). rewrite Hl. destruct (Z.ltb_spec (8 + zlen rest) 8); [lia|].
    cbn [exec_bind]. by rewrite (proj2 (str_eqb_neq _ _)).
  - intros size rest Hs H16 Hr. destruct (Hhead size (str "moof") rest Hs eq_refl) as (-> & -> & Hl).
    rewrite Hl. destruct (Z.ltb_spec (8 + zlen rest) 8); [lia|].
    cbn [exec_bind]. rewrite str_eqb_refl. cbn [negb]. unfold walk_children. cbn [loop]. unfold walk_step at 1.
    rewrite Hl. replace ((8 + 8 <=? size) && (8 <? 8 + zlen rest)) with true
      by (symmetry; rewrite andb_true_iff, Z.leb_le, Z.ltb_lt; lia). cbn [negb].
    destruct (be32_at _ 8) eqn:E; [|done|by apply be32_at_completes in E].
    cbn [exec_bind]. unfold slice at 1. rewrite Hl.
    destruct (Z.leb_spec (8 + 8) (8 + zlen rest)); [lia|]. by rewrite andb_false_r.
Qed.

Lemma ensure_moof_bad_input_witness :
  ensure_moof_has_tfdt [0; 0; 0] 5 1000 = Done (RErr (invalid_data (str "moof data too small"))) /\
  ensure_moof_has_tfdt (be_bytes 4 8 ++ str "moov" ++ []) 5 1000 = Done (RErr (invalid_data (str "Not a moof box"))) /\
  ensure_moof_has_tfdt (be_bytes 4 100 ++ str "moof" ++ [0; 0; 0; 16; 116]) 5 1000 = Panic.
Proof.
  destruct (ensure_moof_bad_input 5 1000) as (H1 & H2 & H3). split; [|split].
  - apply H1. vm_compute. done.
  - apply H2; box_demo_with fail.
  - apply H3; box_demo_with fail.
Defined.
