(* ===== verification/Mp4Cursor.v ===== *)
(** * Reading boxes through a cursor

    The reading pattern of the [parse_*] and [extract_*] functions of
    [core/src/media/mp4_parser.rs], which walk boxes with
    [std::io::Cursor::read_exact] and [seek], with the facts about it that the
    parsers share. *)

From S2P Require Import Prelude Rust Mp4Box.

#[local] Open Scope Z_scope.

(** ** What the code does *)

(** [while cursor.position() + need <= data.len() {
       if cursor.read_exact(&mut size_bytes).is_err()
          || cursor.read_exact(&mut type_bytes).is_err() { break; }
       if box_size < 8 { break; }
       ...body...
     }]

    with [need = 1] for [position() < len] and [need = 8] in the codec
    functions. [body] gets the state, the cursor behind the header, the size of
    the content and the type, and moves the cursor itself. *)
Definition cursor_step {S R} (need : Z) (data : bytes)
    (body : S -> cursor -> Z -> rstring -> exec (step (cursor * S) R)) (fin : S -> exec R)
    (st : cursor * S) : exec (step (cursor * S) R) :=
  let '(c, s) := st in
  let leave := let! r := fin s in Done (Break r) in
  if zlen data <? position c + need then leave
  else
    match read_exact data c 4 with
    | (_, None) => leave
    | (c, Some size_bytes) =>
        match read_exact data c 4 with
        | (_, None) => leave
        | (c, Some type_bytes) =>
            let box_size := be_val size_bytes in
            if box_size <? 8 then leave
            else body s c (box_size - 8) (from_utf8_lossy type_bytes)
        end
    end.

(** Every round reads a header of eight bytes. *)
Definition cursor_boxes {S R} (need : Z) (data : bytes)
    (body : S -> cursor -> Z -> rstring -> exec (step (cursor * S) R)) (fin : S -> exec R)
    (s : S) : exec R :=
  loop (Datatypes.S (length data)) (cursor_step need data body fin) (Cursor 0, s).

(** [let mut buf = vec![0u8; n]; cursor.read_exact(&mut buf)]. *)
Definition read_vec (data : bytes) (c : cursor) (n : Z) : exec (cursor * option bytes) :=
  let! _ := alloc n in Done (read_exact data c n).

(** ** Facts *)

Lemma seek_current_forward c n : 0 <= position c -> 0 <= n -> position c + n <= u64_max ->
  position (seek_current c n) = position c + n.
Proof.
  intros. unfold seek_current.
  replace ((0 <=? position c + n) && (position c + n <=? u64_max)) with true
    by (symmetry; rewrite andb_true_iff, !Z.leb_le; lia). done.
Qed.

Lemma seek_current_ge c n : 0 <= position c -> 0 <= n -> position c <= position (seek_current c n).
Proof. intros. unfold seek_current. case_match; cbn; lia. Qed.

Lemma read_exact_ge data c n : 0 <= position c -> 0 <= n -> position c <= zlen data ->
  position c <= position (fst (read_exact data c n)).
Proof. intros. unfold read_exact. case_match; cbn; lia. Qed.

Lemma read_exact_bytes data c n c' bs : Forall is_byte data -> read_exact data c n = (c', Some bs) ->
  Forall is_byte bs.
Proof.
  intros Hb. unfold read_exact. case_match; [|done]. intros [= _ <-].
  unfold ztake, zdrop. apply Forall_take. by apply Forall_drop.
Qed.

Lemma read_vec_small data c n : n <= isize_max -> read_vec data c n = Done (read_exact data c n).
Proof. intros. unfold read_vec, alloc. by destruct (Z.leb_spec n isize_max); [|lia]. Qed.

Section Cursor.
Context {S R : Type} (need : Z) (data : bytes).
Context (body : S -> cursor -> Z -> rstring -> exec (step (cursor * S) R)) (fin : S -> exec R).

(** A walk over arbitrary bytes ends, when the body returns and does not move
    the cursor back. *)
Lemma cursor_boxes_returns (Inv : S -> Prop) (Q : R -> Prop) s :
  1 <= need -> Forall is_byte data -> Inv s ->
  (forall s c size ty, Inv s -> 8 <= position c <= zlen data -> is_u32 size -> 
     returns (body s c size ty) (fun x =>
       match x with
       | Continue (c', s') => position c <= position c' /\ Inv s'
       | Break r => Q r
       end)) ->
  (forall s, Inv s -> returns (fin s) Q) ->
  returns (cursor_boxes need data body fin s) Q.
Proof using Type.
  intros Hneed Hb Hs Hbody Hfin. unfold cursor_boxes.
  apply (loop_returns _ (fun '(c, s) => 0 <= position c /\ Inv s)
    (fun '(c, s) => Z.to_nat (Z.max 0 (zlen data - position c)))); [|done|cbn; unfold zlen; lia].
  intros [c s'] [Hc Hs']. unfold cursor_step.
  assert (Hleave : returns (let! r := fin s' in Done (Break (S := cursor * S) r))
    (fun x => match x with
      | Continue s'' => (let '(c0, s0) := s'' in 0 <= position c0 /\ Inv s0) /\
          ((let '(c0, _) := s'' in Z.to_nat (Z.max 0 (zlen data - position c0)))
            < Z.to_nat (Z.max 0 (zlen data - position c)))%nat
      | Break r => Q r end)).
  { destruct (Hfin s' Hs') as (r & -> & Hr). by eexists. }
  destruct (Z.ltb_spec (zlen data) (position c + need)); [done|].
  destruct (read_exact data c 4) as [c1 [size_bytes|]] eqn:E1; [|done].
  destruct (read_exact data c1 4) as [c2 [ty|]] eqn:E2; [|done].
  pose proof (read_exact_bytes _ _ _ _ _ Hb E1) as Hsb.
  apply read_exact_some in E1 as (Hp1 & Hl1 & Hd1); [|done|lia].
  apply read_exact_some in E2 as (Hp2 & _ & Hd2); [|lia|lia].
  pose proof (be_val_range size_bytes Hsb) as Hr. rewrite Hl1 in Hr.
  destruct (Z.ltb_spec (be_val size_bytes) 8); [done|].
  destruct (Hbody s' c2 (be_val size_bytes - 8) (from_utf8_lossy ty) Hs') as (x & -> & Hx); [lia| |].
  { unfold is_u32, u32_max. lia. }
  eexists. split; [done|]. destruct x as [[c' s'']|r]; [|done]. destruct Hx as [Hge Hinv].
  split; [split; [lia|done]|]. lia.
Qed.

(** The same for a body that may panic: the walk does not run out of fuel. *)
Lemma cursor_boxes_completes s :
  1 <= need -> Forall is_byte data ->
  (forall s c size ty, 8 <= position c <= zlen data -> is_u32 size ->
     completes (body s c size ty) /\
     forall c' s', body s c size ty = Done (Continue (c', s')) -> position c <= position c') ->
  (forall s, completes (fin s)) ->
  completes (cursor_boxes need data body fin s).
Proof using Type.
  intros Hneed Hb Hbody Hfin. unfold cursor_boxes.
  assert (Hround : forall c s, 0 <= position c ->
    completes (cursor_step need data body fin (c, s)) /\
    forall c' s', cursor_step need data body fin (c, s) = Done (Continue (c', s')) ->
      position c < position c' /\ position c < zlen data).
  { intros c s' Hc. unfold cursor_step.
    assert (Hleave : completes (let! r := fin s' in Done (Break (S := cursor * S) r)) /\
      forall c' s'', (let! r := fin s' in Done (Break (S := cursor * S) r)) = Done (Continue (c', s'')) ->
        position c < position c' /\ position c < zlen data).
    { specialize (Hfin s'). by destruct (fin s'). }
    destruct (Z.ltb_spec (zlen data) (position c + need)); [done|].
    destruct (read_exact data c 4) as [c1 [size_bytes|]] eqn:E1; [|done].
    destruct (read_exact data c1 4) as [c2 [ty|]] eqn:E2; [|done].
    pose proof (read_exact_bytes _ _ _ _ _ Hb E1) as Hsb.
    apply read_exact_some in E1 as (Hp1 & Hl1 & Hd1); [|done|lia].
    apply read_exact_some in E2 as (Hp2 & _ & Hd2); [|lia|lia].
    pose proof (be_val_range size_bytes Hsb) as Hr. rewrite Hl1 in Hr.
    destruct (Z.ltb_spec (be_val size_bytes) 8); [done|].
    destruct (Hbody s' c2 (be_val size_bytes - 8) (from_utf8_lossy ty)) as [H1 H2]; [lia| |].
    { unfold is_u32, u32_max. lia. }
    split; [done|]. intros c' s'' E. specialize (H2 _ _ E). lia. }
  apply (loop_completes _ (fun '(c, _) => 0 <= position c)
    (fun '(c, s) => Z.to_nat (Z.max 0 (zlen data - position c)))); [| |done|cbn; unfold zlen; lia].
  - intros [c s'] Hc. by apply Hround.
  - intros [c s'] [c' s''] Hc E. destruct (Hround c s' Hc) as [_ Hm]. specialize (Hm _ _ E). lia.
Qed.

(** Over well-formed boxes the walk folds the body over them, whatever the
    body does with a box when the cursor is behind its header. *)
Lemma cursor_boxes_fold (body' : S -> mp4_box -> exec (step S R)) bs s :
  1 <= need <= 8 -> data = boxes_bytes bs -> Forall wf_box bs ->
  (forall s l b k, data = l ++ box_bytes b ++ k -> b ∈ bs ->
     body s (Cursor (zlen l + 8)) (zlen (snd b)) (from_utf8_lossy (fst b)) =
       (let! x := body' s b in
        match x with
        | Continue s' => Done (Continue (Cursor (zlen l + box_size b), s'))
        | Break r => Done (Break r)
        end)) ->
  cursor_boxes need data body fin s = fold_boxes (fun s _ b => body' s b) fin 0 bs s.
Proof using Type.
  intros Hneed Hd Hwf Hbody. unfold cursor_boxes.
  assert (Hfuel : (length bs < Datatypes.S (length data))%nat).
  { rewrite Hd. pose proof (length_boxes_bytes bs Hwf). lia. }
  revert Hfuel. generalize (Datatypes.S (length data)) as fuel. intros fuel Hfuel.
  change 0 with (zlen (@nil Z)). change (boxes_bytes bs) with ([] ++ boxes_bytes bs) in Hd.
  revert Hd. generalize (@nil Z) as pre. intros pre Hd.
  revert bs pre s Hd Hwf Hbody Hfuel. induction fuel as [|fuel IH]; intros bs pre s Hd Hwf Hbody Hfuel; [lia|].
  cbn [loop]. unfold cursor_step at 1. cbn [position]. destruct bs as [|b bs].
  - change (boxes_bytes []) with (@nil Z) in Hd. rewrite app_nil_r in Hd.
    destruct (Z.ltb_spec (zlen data) (zlen pre + need)); [|subst; lia]. cbn. by destruct (fin s).
  - apply list.Forall_cons in Hwf as [Hb Hwf]. rewrite boxes_bytes_cons in *. cbn [length] in Hfuel.
    pose proof (box_size_range b Hb).
    assert (Hlen : zlen data = zlen pre + box_size b + zlen (boxes_bytes bs))
      by (rewrite Hd, !zlen_app, zlen_box_bytes by done; lia).
    pose proof (zlen_nonneg (boxes_bytes bs)).
    destruct (Z.ltb_spec (zlen data) (zlen pre + need)); [lia|].
    assert (Hr1 : read_exact data (Cursor (zlen pre)) 4 = (Cursor (zlen pre + 4), Some (be_bytes 4 (8 + zlen (snd b))))).
    { rewrite Hd. unfold box_bytes. rewrite <- !app_assoc. by apply read_exact_app. }
    assert (Hr2 : read_exact data (Cursor (zlen pre + 4)) 4 = (Cursor (zlen pre + 8), Some (fst b))).
    { pose proof (read_exact_app (pre ++ be_bytes 4 (8 + zlen (snd b))) (fst b) (snd b ++ boxes_bytes bs) 4) as Hr.
      rewrite zlen_app, zlen_be_bytes in Hr. rewrite Hd. unfold box_bytes. rewrite <- !app_assoc in *.
      replace (zlen pre + Z.of_nat 4) with (zlen pre + 4) in Hr by lia.
      replace (zlen pre + 8) with (zlen pre + 4 + 4) by lia. apply Hr. destruct Hb; lia. }
    rewrite Hr1, Hr2. cbv zeta. rewrite be_val_be_bytes_u32.
    2:{ unfold is_u32, box_size in *. lia. }
    fold (box_size b). destruct (Z.ltb_spec (box_size b) 8); [lia|].
    replace (box_size b - 8) with (zlen (snd b)) by (unfold box_size; lia).
    rewrite (Hbody s pre b (boxes_bytes bs) Hd) by left. cbn [fold_boxes].
    destruct (body' s b) as [[s'|r]| |]; cbn [exec_bind]; try done.
    replace (zlen pre + box_size b) with (zlen (pre ++ box_bytes b)) by (by rewrite zlen_app, zlen_box_bytes).
    apply IH; [by rewrite <- app_assoc|done| |lia].
    intros s0 l b0 k Hd0 Hin. apply (Hbody s0 l b0 k Hd0). by right.
Qed.
End Cursor.

(** Reading a content at its offset. *)
Lemma read_content l b k : wf_box b ->
  read_exact (l ++ box_bytes b ++ k) (Cursor (zlen l + 8)) (zlen (snd b))
  = (Cursor (zlen l + box_size b), Some (snd b)).
Proof.
  intros [Ht _]. unfold box_bytes. rewrite <- !app_assoc.
  pose proof (read_exact_app (l ++ be_bytes 4 (8 + zlen (snd b)) ++ fst b) (snd b) k (zlen (snd b)) eq_refl) as Hr.
  rewrite <- !app_assoc in Hr. rewrite !zlen_app, zlen_be_bytes, Ht in Hr.
  replace (zlen l + (Z.of_nat 4 + 4)) with (zlen l + 8) in Hr by lia. rewrite Hr.
  unfold box_size. do 2 f_equal. lia.
Qed.

Lemma read_content_vec l b k : wf_box b ->
  read_vec (l ++ box_bytes b ++ k) (Cursor (zlen l + 8)) (zlen (snd b))
  = Done (Cursor (zlen l + box_size b), Some (snd b)).
Proof.
  intros Hb. rewrite read_vec_small; [by rewrite read_content|].
  destruct Hb as [_ Hs]. unfold u32_max, isize_max in *. lia.
Qed.

(** Skipping a content. *)
Lemma skip_content l (b : mp4_box) k : wf_box b -> zlen (l ++ box_bytes b ++ k) <= isize_max ->
  seek_current (Cursor (zlen l + 8)) (zlen (snd b)) = Cursor (zlen l + box_size b).
Proof.
  intros Hb Hl. rewrite !zlen_app, zlen_box_bytes in Hl by done. pose proof (zlen_nonneg l).
  pose proof (zlen_nonneg k). pose proof (zlen_nonneg (snd b)). unfold seek_current, box_size in *. cbn [position].
  replace ((0 <=? zlen l + 8 + zlen (snd b)) && (zlen l + 8 + zlen (snd b) <=? u64_max)) with true
    by (symmetry; rewrite andb_true_iff, !Z.leb_le; unfold u64_max, isize_max in *; lia).
  f_equal. lia.
Qed.

(** Reading a vector of a 32-bit size moves the cursor forward. *)
Lemma read_vec_cases data c size : Forall is_byte data -> 0 <= position c <= zlen data -> is_u32 size ->
  exists c' o, read_vec data c size = Done (c', o) /\ position c <= position c' /\
    match o with Some bs => Forall is_byte bs /\ zlen bs = size | None => True end.
Proof.
  intros Hb Hc Hs. rewrite read_vec_small by (unfold is_u32, u32_max, isize_max in *; lia).
  destruct (read_exact data c size) as [c' [bs|]] eqn:E; exists c'; eexists; (split; [done|]).
  - pose proof (read_exact_bytes _ _ _ _ _ Hb E).
    apply read_exact_some in E as (Hp & Hl & _); [|unfold is_u32 in *; lia..]. unfold is_u32 in *. split; [lia|done].
  - apply read_exact_none in E. split; [lia|done].
Qed.
