(* ===== verification/Mp4Codec.v ===== *)
(** * Codec detection

    Models how [core/src/media/mp4_parser.rs] derives codec strings and MIME
    types from a sample description: [parse_stsd_box], [extract_avc_profile],
    [extract_aac_object_type] and [parse_esds_for_aac_object_type]. The two
    functions that only log the AudioSpecificConfig have no effect and no
    counterpart. *)

From S2P Require Import Prelude Rust Format Mp4Box Mp4Data Mp4Cursor.

#[local] Open Scope Z_scope.

(** ** Formatting *)

(** The character [QUOTE] as a string. *)
Definition quote : rstring := [34].

(** [format!] of a MIME type with a codecs parameter. *)
Definition mime (kind codecs : rstring) : rstring := kind ++ str "; codecs=" ++ quote ++ codecs ++ quote.
Definition video_mime (codecs : rstring) : rstring := mime (str "video/mp4") codecs.
Definition audio_mime (codecs : rstring) : rstring := mime (str "audio/mp4") codecs.

(** ** H.264 *)

Definition extract_avc_profile (data : bytes) : exec rstring :=
  cursor_boxes 8 data
    (fun (_ : unit) c content_size box_type =>
       if str_eqb box_type (str "avcC") && (11 <=? content_size + 8) then
         let! read := read_vec data c content_size in
         match read with
         | (c, Some config_data) =>
             if 3 <=? zlen config_data then
               let! profile := index config_data 1 in
               let! compatibility := index config_data 2 in
               let! level := index config_data 3 in
               Done (Break (hex_upper profile ++ hex_upper compatibility ++ hex_upper level))
             else Done (Continue (c, tt))
         | (c, None) => Done (Continue (c, tt))
         end
       else Done (Continue (seek_current c content_size, tt)))
    (fun _ => Done (str "42E01E")) tt.

(** ** AAC *)

(** [while offset < len && (data[offset] & 0x80) != 0 { offset += 1; }] on the
    bytes from [offset] on: how many are skipped. *)
Fixpoint skip_length (data : bytes) : Z :=
  match data with
  | b :: data' => if Z.land b 128 =? 0 then 0 else 1 + skip_length data'
  | [] => 0
  end.

(** From the byte after the descriptor tag: its length is skipped, then the
    object type read. *)
Definition object_type_after (esds_data : bytes) (offset : Z) : exec Z :=
  let offset := offset + skip_length (zdrop offset esds_data) in
  let offset := if offset <? zlen esds_data then offset + 1 else offset in
  if offset <? zlen esds_data then index esds_data offset else Done 2.

Definition find_decoder_config (esds_data : bytes) (offset : Z) : exec (step Z Z) :=
  if offset + 5 <? zlen esds_data then
    let! tag := index esds_data offset in
    if tag =? 4 then let! ot := object_type_after esds_data (offset + 1) in Done (Break ot)
    else Done (Continue (offset + 1))
  else Done (Break 2).

Definition parse_esds_for_aac_object_type (esds_data : bytes) : exec Z :=
  if zlen esds_data <? 20 then Done 2
  else loop (Datatypes.S (length esds_data)) (find_decoder_config esds_data) 4.

Definition extract_aac_object_type (data : bytes) : exec Z :=
  cursor_boxes 8 data
    (fun (_ : unit) c content_size box_type =>
       if str_eqb box_type (str "esds") && (20 <=? content_size + 8) then
         let! read := read_vec data c content_size in
         match read with
         | (c, Some esds_data) =>
             let! ot := parse_esds_for_aac_object_type esds_data in Done (Break ot)
         | (c, None) => Done (Continue (c, tt))
         end
       else Done (Continue (seek_current c content_size, tt)))
    (fun _ => Done 2) tt.

(** The codec string of an object type. *)
Definition aac_codec_string (object_type : Z) : rstring :=
  if object_type =? 64 then str "mp4a.40.2"
  else if object_type =? 2 then str "mp4a.40.2"
  else if object_type =? 5 then str "mp4a.40.5"
  else if object_type =? 29 then str "mp4a.40.29"
  else str "mp4a.40.2".

(** ** The sample description *)

(** Codec, MIME type and parameters. *)
Abbreviation codec_info := (rstring * rstring * option rstring)%type.

Definition parse_stsd_box (data : bytes) (media_type : rstring) : exec (result codec_info io_error) :=
  if zlen data <? 8 then Done (RErr (invalid_data (str "stsd box too small")))
  else
    let! remaining_data := slice_from data 8 in
    if zlen remaining_data <? 8 then Done (RErr (invalid_data (str "No sample description entries")))
    else
      let! fmt := slice remaining_data 4 8 in
      let format := from_utf8_lossy fmt in
      if str_eqb media_type (str "vide") && str_eqb format (str "avc1") then
        let! entry := slice_from remaining_data 8 in
        let! profile_level := extract_avc_profile entry in
        Done (ROk (str "H.264", video_mime (str "avc1." ++ profile_level), Some profile_level))
      else if str_eqb media_type (str "soun") && str_eqb format (str "mp4a") then
        let esds_offset := if 36 <? zlen remaining_data then 36 else 8 in
        let! entry := slice_from remaining_data esds_offset in
        let! object_type := extract_aac_object_type entry in
        Done (ROk (str "AAC", audio_mime (aac_codec_string object_type), Some (hex_lower object_type)))
      else if str_eqb media_type (str "soun") && starts_with format (str "mp4a") then
        Done (ROk (str "AAC", audio_mime (str "mp4a.40.2"), Some (str "2")))
      else if str_eqb media_type (str "soun") && str_eqb format (str "ac-3") then
        Done (ROk (str "AC-3", audio_mime (str "ac-3"), None))
      else if str_eqb media_type (str "vide") then
        Done (ROk (str "H.264", video_mime (str "avc1.42E01E"), None))
      else if str_eqb media_type (str "soun") then
        Done (ROk (str "AAC", audio_mime (str "mp4a.40.2"), None))
      else
        Done (RErr (invalid_data (str "Unsupported format: " ++ format ++ str " for media type " ++ media_type))).

(** ** Facts about the decoder configuration *)

Lemma skip_length_app more last rest :
  Forall (fun b => Z.land b 128 <> 0) more -> Z.land last 128 = 0 ->
  skip_length (more ++ last :: rest) = zlen more.
Proof.
  intros Hm Hl. induction Hm as [|b more Hb _ IH]; cbn [app skip_length].
  - by rewrite (proj2 (Z.eqb_eq _ _) Hl).
  - rewrite (proj2 (Z.eqb_neq _ _) Hb), IH. rewrite zlen_cons. done.
Qed.

Lemma skip_length_range data : 0 <= skip_length data <= zlen data.
Proof. induction data as [|b data IH]; cbn [skip_length]; [done|]. case_match; zlia. Qed.

Lemma object_type_after_returns data offset : Forall is_byte data -> 0 <= offset ->
  returns (object_type_after data offset) is_byte.
Proof.
  intros Hb Ho. unfold object_type_after.
  pose proof (skip_length_range (zdrop offset data)) as [H0 _].
  set (o := if offset + skip_length (zdrop offset data) <? zlen data then _ else _).
  assert (Ho' : 0 <= o) by (subst o; case_match; lia).
  destruct (Z.ltb_spec o (zlen data)).
  - destruct (index_returns data o) as (b & -> & Hin); [lia|]. eexists. split; [done|].
    rewrite list.Forall_forall in Hb. by apply Hb.
  - eexists. split; [done|]. unfold is_byte. lia.
Qed.

(** The descriptor search never leaves the data, and its result is a byte. *)
Lemma parse_esds_returns data : Forall is_byte data ->
  returns (parse_esds_for_aac_object_type data) is_byte.
Proof.
  intros Hb. unfold parse_esds_for_aac_object_type.
  destruct (Z.ltb_spec (zlen data) 20); [eexists; split; [done|unfold is_byte; lia]|].
  apply (loop_returns _ (fun o => 4 <= o) (fun o => Z.to_nat (Z.max 0 (zlen data - o)))); [|lia|unfold zlen in *; lia].
  intros o Ho. unfold find_decoder_config.
  destruct (Z.ltb_spec (o + 5) (zlen data)); [|eexists; split; [done|unfold is_byte; lia]].
  destruct (index_returns data o) as (tag & -> & _); [lia|]. cbn [exec_bind]. case_match.
  - destruct (object_type_after_returns data (o + 1) Hb) as (ot & -> & Hot); [lia|]. by eexists.
  - eexists. split; [done|]. cbv beta iota. lia.
Qed.

(** The bytes before the first tag 4 are stepped over. *)
Lemma find_decoder_config_skip data pre before k fuel :
  data = before ++ pre ++ k -> Forall (fun b => b <> 4) pre -> zlen before + zlen pre + 5 < zlen data ->
  (length pre < fuel)%nat ->
  loop fuel (find_decoder_config data) (zlen before)
  = loop (fuel - length pre) (find_decoder_config data) (zlen (before ++ pre)).
Proof.
  intros Hd Hp. revert before fuel Hd. induction Hp as [|b pre Hb _ IH]; intros before fuel Hd Hlen Hf.
  - cbn [length]. by rewrite app_nil_r, Nat.sub_0_r.
  - destruct fuel as [|fuel]; [cbn in Hf; lia|]. cbn [loop length] in *. unfold find_decoder_config at 1.
    destruct (Z.ltb_spec (zlen before + 5) (zlen data)); [|zlia].
    replace (index data (zlen before)) with (Done b) by (rewrite Hd; cbn [app]; by rewrite index_mid).
    cbn [exec_bind]. rewrite (proj2 (Z.eqb_neq _ _) Hb).
    replace (zlen before + 1) with (zlen (before ++ [b])) by zlia.
    cbn [exec_bind]. rewrite (IH (before ++ [b]) fuel); [|by rewrite Hd, <- app_assoc|zlia|lia]. by rewrite <- app_assoc.
Qed.

Definition not_four (b : Z) : Prop := b <> 4.

(** A standard [esds] content: version and flags, the ES descriptor before the
    decoder configuration, and the object type behind the latter's length. *)
Lemma parse_esds_std flags pre more last ot rest :
  zlen flags = 4 -> Forall not_four pre ->
  Forall (fun b => Z.land b 128 <> 0) more -> Z.land last 128 = 0 ->
  20 <= zlen (flags ++ pre ++ 4 :: more ++ last :: ot :: rest) -> 3 <= zlen rest ->
  parse_esds_for_aac_object_type (flags ++ pre ++ 4 :: more ++ last :: ot :: rest) = Done ot.
Proof.
  intros Hf Hp Hm Hl H20 Hr. unfold parse_esds_for_aac_object_type.
  destruct (Z.ltb_spec (zlen (flags ++ pre ++ 4 :: more ++ last :: ot :: rest)) 20); [lia|].
  remember (flags ++ pre ++ 4 :: more ++ last :: ot :: rest) as data eqn:Hd.
  rewrite <- Hf. rewrite (find_decoder_config_skip data pre flags (4 :: more ++ last :: ot :: rest));
    [|done|done| |].
  2:{ rewrite Hd. zlia. }
  2:{ rewrite Hd, !length_app. lia. }
  destruct (Datatypes.S (length data) - length pre)%nat as [|fuel] eqn:Ef.
  { rewrite Hd, !length_app in Ef. lia. }
  cbn [loop]. unfold find_decoder_config at 1.
  destruct (Z.ltb_spec (zlen (flags ++ pre) + 5) (zlen data)); [|rewrite Hd in *; zlia].
  replace (index data (zlen (flags ++ pre))) with (Done 4)
    by (rewrite Hd, app_assoc; by rewrite index_mid).
  cbn [exec_bind Z.eqb Pos.eqb]. unfold object_type_after.
  assert (Hdrop : zdrop (zlen (flags ++ pre) + 1) data = more ++ last :: ot :: rest).
  { replace data with ((flags ++ pre ++ [4]) ++ more ++ last :: ot :: rest) by (rewrite Hd; by rewrite <- !app_assoc).
    apply zdrop_app_eq. zlia. }
  rewrite Hdrop, skip_length_app by done.
  assert (Hlen : zlen data = zlen (flags ++ pre) + 1 + zlen more + 2 + zlen rest) by (rewrite Hd; zlia).
  pose proof (zlen_nonneg rest).
  destruct (Z.ltb_spec (zlen (flags ++ pre) + 1 + zlen more) (zlen data)); [|lia].
  destruct (Z.ltb_spec (zlen (flags ++ pre) + 1 + zlen more + 1) (zlen data)); [|lia].
  replace data with ((flags ++ pre ++ 4 :: more ++ [last]) ++ ot :: rest)
    by (rewrite Hd, <- !app_assoc; cbn; by rewrite <- app_assoc).
  rewrite index_mid by zlia. done.
Qed.

(** ** Searching the sample entry *)

Lemma extract_aac_returns data : Forall is_byte data -> returns (extract_aac_object_type data) is_byte.
Proof.
  intros Hb. unfold extract_aac_object_type.
  apply (cursor_boxes_returns _ _ _ _ (fun _ => True)); [lia|done|done| |].
  2:{ intros _ _. eexists. split; [done|]. unfold is_byte. lia. }
  intros _ c size ty _ Hc Hs. case_match.
  - rewrite read_vec_small by (unfold is_u32, u32_max, isize_max in *; lia). cbn [exec_bind].
    destruct (read_exact data c size) as [c' [esds|]] eqn:E.
    + destruct (parse_esds_returns esds) as (ot & -> & Hot); [by eapply read_exact_bytes|]. by eexists.
    + eexists. split; [done|]. split; [|done]. apply read_exact_none in E. lia.
  - eexists. split; [done|]. split; [|done]. apply seek_current_ge; unfold is_u32 in *; lia.
Qed.

Lemma extract_avc_completes data : Forall is_byte data -> completes (extract_avc_profile data).
Proof.
  intros Hb. unfold extract_avc_profile. apply cursor_boxes_completes; [lia|done| |done].
  intros _ c size ty Hc Hs. case_match.
  - rewrite read_vec_small by (unfold is_u32, u32_max, isize_max in *; lia). cbn [exec_bind].
    destruct (read_exact data c size) as [c' [config|]] eqn:E.
    + apply read_exact_some in E as (Hp & _ & _); [|unfold is_u32 in *; lia..].
      split; [|intros c'' s'']; case_match; try (intros [= <- _]; unfold is_u32 in *; lia);
        unfold index, completes; repeat case_match; done.
    + apply read_exact_none in E. split; [done|]. intros c'' s'' [= <- _]. lia.
  - split; [done|]. intros c' s' [= <- _]. apply seek_current_ge; unfold is_u32 in *; lia.
Qed.

Lemma slice_bytes data i j m : Forall is_byte data -> slice data i j = Done m -> Forall is_byte m.
Proof.
  intros Hb. unfold slice. case_match; [|done]. intros [= <-]. unfold ztake, zdrop.
  apply Forall_take. by apply Forall_drop.
Qed.

Lemma parse_stsd_completes data mt : Forall is_byte data -> completes (parse_stsd_box data mt).
Proof.
  intros Hb. unfold parse_stsd_box. case_match; [done|]. unfold slice_from.
  destruct (slice data 8 (zlen data)) as [rd| |] eqn:E1; [|done|by apply slice_completes in E1].
  cbn [exec_bind]. case_match; [done|]. pose proof (slice_bytes _ _ _ _ Hb E1) as Hrd.
  destruct (slice rd 4 8) as [fmt| |] eqn:E2; [|done|by apply slice_completes in E2]. cbn [exec_bind].
  case_match.
  { destruct (slice rd 8 (zlen rd)) as [e| |] eqn:E3; [|done|by apply slice_completes in E3]. cbn [exec_bind].
    pose proof (extract_avc_completes e (slice_bytes _ _ _ _ Hrd E3)). by destruct (extract_avc_profile e). }
  case_match; [|by repeat case_match].
  match goal with |- completes (exec_bind ?x _) => destruct x as [e| |] eqn:E3 end; [|done|by apply slice_completes in E3].
  cbn [exec_bind]. destruct (extract_aac_returns e (slice_bytes _ _ _ _ Hrd E3)) as (ot & -> & _). done.
Qed.

(** The first [esds] box large enough decides. *)
Lemma extract_aac_std skipped esds post ot :
  Forall wf_box (skipped ++ (str "esds", esds) :: post) ->
  zlen (boxes_bytes (skipped ++ (str "esds", esds) :: post)) <= isize_max ->
  Forall (fun b => fst b <> str "esds") skipped -> 12 <= zlen esds ->
  parse_esds_for_aac_object_type esds = Done ot ->
  extract_aac_object_type (boxes_bytes (skipped ++ (str "esds", esds) :: post)) = Done ot.
Proof.
  intros Hwf Hlen Hsk He Hot. unfold extract_aac_object_type.
  remember (boxes_bytes (skipped ++ (str "esds", esds) :: post)) as data eqn:Hdata.
  rewrite (cursor_boxes_fold 8 data _ _ (fun (_ : unit) b =>
      if str_eqb (fst b) (str "esds") && (20 <=? box_size b)
      then let! ot := parse_esds_for_aac_object_type (snd b) in Done (Break ot)
      else Done (Continue tt)) (skipped ++ (str "esds", esds) :: post)); [|lia|done|done|].
  - clear Hdata Hlen Hwf. generalize 0 as off. induction Hsk as [|b skipped Hb _ IH]; intros off.
    + cbn [app fold_boxes fst snd]. rewrite str_eqb_refl. unfold box_size at 1. cbn [snd].
      destruct (Z.leb_spec 20 (8 + zlen esds)); [|lia]. cbn [andb]. by rewrite Hot.
    + cbn [app fold_boxes]. rewrite (proj2 (str_eqb_neq _ _) Hb). cbn [andb exec_bind]. apply IH.
  - intros [] l b k Hd Hin. rewrite list.Forall_forall in Hwf. specialize (Hwf b Hin).
    rewrite str_eqb_lossy by done. replace (zlen (snd b) + 8) with (box_size b) by (unfold box_size; lia).
    rewrite Hd in *. case_match.
    + rewrite (read_content_vec l b k) by done. cbn [exec_bind]. by destruct (parse_esds_for_aac_object_type (snd b)).
    + cbn [exec_bind]. by rewrite (skip_content _ b k).
Qed.

(** ** Properties *)

(** A standard AAC sample entry (28 bytes of fields, then boxes with an
    [esds] among them) is described as AAC with the codec string of the object
    type its decoder configuration carries, however long the descriptor's
    length encoding and whatever boxes come first. *)
Theorem parse_stsd_aac head size fields skipped post flags pre more last ot rest :
  zlen head = 8 -> is_u32 size -> zlen fields = 28 -> zlen flags = 4 ->
  Forall not_four pre -> Forall (fun b => Z.land b 128 <> 0) more -> Z.land last 128 = 0 -> 3 <= zlen rest ->
  let esds := flags ++ pre ++ 4 :: more ++ last :: ot :: rest in
  let entry := boxes_bytes (skipped ++ (str "esds", esds) :: post) in
  20 <= zlen esds -> Forall wf_box (skipped ++ (str "esds", esds) :: post) -> zlen entry <= isize_max ->
  Forall (fun b => fst b <> str "esds") skipped ->
  parse_stsd_box (head ++ be_bytes 4 size ++ str "mp4a" ++ fields ++ entry) (str "soun")
  = Done (ROk (str "AAC", audio_mime (aac_codec_string ot), Some (hex_lower ot))).
Proof.
  intros Hh Hs Hf Hfl Hp Hm Hl Hr esds entry H20 Hwf Hlen Hsk.
  pose proof (parse_esds_std flags pre more last ot rest Hfl Hp Hm Hl H20 Hr) as Hot.
  pose proof (extract_aac_std skipped esds post ot Hwf Hlen Hsk ltac:(lia) Hot) as Hx. fold entry in Hx.
  assert (Hentry : 0 < zlen entry).
  { unfold entry. rewrite boxes_bytes_app, boxes_bytes_cons, !zlen_app.
    apply list.Forall_app in Hwf as [_ Hwf]. apply list.Forall_cons in Hwf as [Hwf _].
    rewrite zlen_box_bytes by done. pose proof (box_size_range _ Hwf). zlia. }
  clearbody esds entry. unfold parse_stsd_box.
  set (tail := be_bytes 4 size ++ str "mp4a" ++ fields ++ entry).
  assert (Htail : zlen tail = 36 + zlen entry) by (subst tail; zlen_simpl; change (zlen (str "mp4a")) with 4; lia).
  destruct (Z.ltb_spec (zlen (head ++ tail)) 8); [zlia|].
  unfold slice_from.
  pose proof (slice_app_mid head tail [] 8 (zlen (head ++ tail))) as Hsl. rewrite !app_nil_r in Hsl.
  rewrite Hsl by zlia. cbn [exec_bind]. destruct (Z.ltb_spec (zlen tail) 8); [lia|].
  assert (Hty : slice tail 4 8 = Done (str "mp4a")) by (unfold tail; by rewrite slice_app_mid).
  rewrite Hty. cbn [exec_bind]. rewrite from_utf8_lossy_ascii by done.
  change (str_eqb (str "soun") (str "vide")) with false. rewrite !str_eqb_refl. cbn [andb].
  destruct (Z.ltb_spec 36 (zlen tail)); [|lia].
  pose proof (slice_app_mid (be_bytes 4 size ++ str "mp4a" ++ fields) entry [] 36 (zlen tail)) as Hsl2.
  rewrite !app_nil_r, <- !app_assoc in Hsl2. fold tail in Hsl2.
  rewrite Hsl2 by (zlen_simpl; change (zlen (str "mp4a")) with 4; lia). cbn [exec_bind]. by rewrite Hx.
Qed.

Lemma parse_stsd_aac_witness :
  let esds := [0;0;0;0] ++ [3; 25; 0; 1; 0] ++ 4 :: [128; 128] ++ 17 :: 64 :: [21; 0; 0; 0; 0; 0; 0] in
  let entry := boxes_bytes ([(str "wave", [1])] ++ (str "esds", esds) :: []) in
  parse_stsd_box (replicate 8 0 ++ be_bytes 4 200 ++ str "mp4a" ++ replicate 28 0 ++ entry) (str "soun")
  = Done (ROk (str "AAC", audio_mime (str "mp4a.40.2"), Some (str "40"))).
Proof.
  intros esds entry.
  refine (parse_stsd_aac (replicate 8 0) 200 (replicate 28 0) [(str "wave", [1])] [] [0;0;0;0] [3; 25; 0; 1; 0]
    [128; 128] 17 64 [21; 0; 0; 0; 0; 0; 0] _ _ _ _ _ _ _ _ _ _ _ _);
  box_demo_with ltac:(unfold not_four).
Defined.

(** A video sample entry starts with six reserved zero bytes, and the search
    for [avcC] reads them as a box size: whatever profile the entry carries, a
    standard [avc1] description comes out as the default [avc1.42E01E]. *)
Theorem parse_stsd_avc_default head size rest :
  zlen head = 8 -> is_u32 size ->
  parse_stsd_box (head ++ be_bytes 4 size ++ str "avc1" ++ [0; 0; 0; 0] ++ rest) (str "vide")
  = Done (ROk (str "H.264", video_mime (str "avc1.42E01E"), Some (str "42E01E"))).
Proof.
  intros Hh Hs. unfold parse_stsd_box. set (entry := [0; 0; 0; 0] ++ rest).
  set (tail := be_bytes 4 size ++ str "avc1" ++ entry).
  assert (Htail : zlen tail = 12 + zlen rest) by (subst tail entry; zlen_simpl; change (zlen (str "avc1")) with 4; lia).
  pose proof (zlen_nonneg rest).
  destruct (Z.ltb_spec (zlen (head ++ tail)) 8); [zlia|]. unfold slice_from.
  pose proof (slice_app_mid head tail [] 8 (zlen (head ++ tail))) as Hsl. rewrite !app_nil_r in Hsl.
  rewrite Hsl by zlia. cbn [exec_bind]. destruct (Z.ltb_spec (zlen tail) 8); [lia|].
  assert (Hty : slice tail 4 8 = Done (str "avc1")) by (unfold tail; by rewrite slice_app_mid).
  rewrite Hty. cbn [exec_bind]. rewrite from_utf8_lossy_ascii by done. rewrite !str_eqb_refl. cbn [andb].
  pose proof (slice_app_mid (be_bytes 4 size ++ str "avc1") entry [] 8 (zlen tail)) as Hsl2.
  rewrite !app_nil_r, <- !app_assoc in Hsl2. fold tail in Hsl2.
  rewrite Hsl2 by (subst entry; zlen_simpl; change (zlen (str "avc1")) with 4; lia). cbn [exec_bind].
  assert (Hx : extract_avc_profile entry = Done (str "42E01E")); [|by rewrite Hx].
  unfold extract_avc_profile, cursor_boxes. cbn [loop]. unfold cursor_step at 1. cbn [position].
  destruct (Z.ltb_spec (zlen entry) (0 + 8)); [done|].
  assert (Hr : read_exact entry (Cursor 0) 4 = (Cursor 4, Some [0; 0; 0; 0])).
  { pose proof (read_exact_app [] [0; 0; 0; 0] rest 4 eq_refl) as Hr. exact Hr. }
  rewrite Hr. destruct (read_exact entry (Cursor 4) 4) as [c [ty|]]; done.
Qed.

Lemma parse_stsd_avc_default_witness :
  let avcC := box_bytes (str "avcC", [1; 100; 0; 40; 255]) in
  parse_stsd_box (replicate 8 0 ++ be_bytes 4 115 ++ str "avc1" ++ [0; 0; 0; 0] ++ replicate 74 0 ++ avcC) (str "vide")
  = Done (ROk (str "H.264", video_mime (str "avc1.42E01E"), Some (str "42E01E"))).
Proof. intros avcC. refine (parse_stsd_avc_default (replicate 8 0) 115 _ _ _); box_demo_with fail. Defined.

(** When the search does reach an [avcC] box, the profile is its second to
    fourth content bytes in upper-case hexadecimal; a content of exactly three
    bytes passes the length test and panics at the fourth. *)
Theorem extract_avc_profile_spec v p c l rest skipped :
  Forall (fun b => wf_box b /\ fst b <> str "avcC") skipped ->
  8 + zlen (v :: p :: c :: l :: rest) <= u32_max ->
  zlen (boxes_bytes skipped) + 12 + zlen rest <= isize_max ->
  extract_avc_profile (boxes_bytes (skipped ++ [(str "avcC", v :: p :: c :: l :: rest)]))
    = Done (hex_upper p ++ hex_upper c ++ hex_upper l) /\
  extract_avc_profile (boxes_bytes (skipped ++ [(str "avcC", [v; p; c])])) = Panic.
Proof.
  intros Hsk Hl Hlen.
  assert (Hgen : forall config, 3 <= zlen config -> 8 + zlen config <= u32_max ->
    zlen (boxes_bytes skipped) + 8 + zlen config <= isize_max ->
    extract_avc_profile (boxes_bytes (skipped ++ [(str "avcC", config)])) =
    (let! profile := index config 1 in let! compatibility := index config 2 in
     let! level := index config 3 in Done (hex_upper profile ++ hex_upper compatibility ++ hex_upper level))).
  { intros config H3 Hmax Htot. unfold extract_avc_profile.
    set (hit := (str "avcC", config)) in *.
    assert (Hwf : Forall wf_box (skipped ++ [hit])).
    { apply list.Forall_app. split; [|apply Forall_singleton; by split].
      eapply list.Forall_impl; [exact Hsk|]. by intros b [Hb _]. }
    remember (boxes_bytes (skipped ++ [hit])) as data eqn:Hdata.
    assert (Hdl : zlen data <= isize_max).
    { rewrite Hdata, boxes_bytes_app, boxes_bytes_single, zlen_app, zlen_box_bytes by by split.
      unfold box_size, hit. cbn [snd]. lia. }
    rewrite (cursor_boxes_fold 8 data _ _ (fun (_ : unit) b =>
        if str_eqb (fst b) (str "avcC") && (11 <=? box_size b)
        then let! profile := index (snd b) 1 in let! compatibility := index (snd b) 2 in
             let! level := index (snd b) 3 in
             Done (Break (hex_upper profile ++ hex_upper compatibility ++ hex_upper level))
        else Done (Continue tt)) (skipped ++ [hit])); [|lia|done|done|].
    - clear - Hsk H3. generalize 0 as off. induction Hsk as [|b skipped [_ Hb] _ IH]; intros off.
      + cbn [app fold_boxes]. unfold hit at 1 2. cbn [fst snd]. rewrite str_eqb_refl.
        unfold box_size at 1. cbn [snd]. destruct (Z.leb_spec 11 (8 + zlen config)); [|lia]. cbn [andb].
        unfold hit. cbn [snd]. by repeat (destruct (index config _); cbn [exec_bind]).
      + cbn [app fold_boxes]. rewrite (proj2 (str_eqb_neq _ _) Hb). cbn [andb exec_bind]. apply IH.
    - intros [] l' b k Hd Hin. rewrite list.Forall_forall in Hwf. specialize (Hwf b Hin).
      rewrite str_eqb_lossy by done. replace (zlen (snd b) + 8) with (box_size b) by (unfold box_size; lia).
      rewrite Hd in *. case_match eqn:E.
      + reflect_bools. rewrite (read_content_vec l' b k) by done. cbn [exec_bind].
        destruct (Z.leb_spec 3 (zlen (snd b))); [|unfold box_size in *; lia].
        by repeat (destruct (index (snd b) _); cbn [exec_bind]).
      + cbn [exec_bind]. by rewrite (skip_content _ b k). }
  split; (rewrite Hgen; [done|zlia..]).
Qed.

Lemma extract_avc_profile_spec_witness :
  extract_avc_profile (boxes_bytes ([(str "pasp", [0; 1])] ++ [(str "avcC", [1; 100; 0; 40])])) = Done (str "640028") /\
  extract_avc_profile (boxes_bytes ([(str "pasp", [0; 1])] ++ [(str "avcC", [1; 100; 0])])) = Panic.
Proof. refine (extract_avc_profile_spec 1 100 0 40 [] [(str "pasp", [0; 1])] _ _ _); box_demo_with fail. Defined.
