(* ===== verification/Mp4Parse.v ===== *)
(** * The MP4 parser

    Models [Mp4Parser::parse] and the box parsers below it in
    [core/src/media/mp4_parser.rs]: the top-level box loop, [moov], [trak],
    [tkhd], [mdia], [mdhd], [hdlr], [minf] and [stbl]. A method on [&mut self]
    takes the parser and returns it, with the result, so that what a failing
    method changed before it failed is kept. *)

From S2P Require Import Prelude Rust Mp4Box SampleTable Fmp4 Mp4Data Mp4Cursor Mp4Codec.

#[local] Open Scope Z_scope.

(** ** State updates *)

Definition set_pending (self : Mp4Parser) (st : option SampleTable) : Mp4Parser :=
  {| boxes := boxes self; tracks := tracks self; is_fragmented := is_fragmented self;
     fmp4_converter := fmp4_converter self; mdat_payload_offset := mdat_payload_offset self;
     pending_sample_table := st |}.

Definition push_track (self : Mp4Parser) (t : Mp4Track) : Mp4Parser :=
  {| boxes := boxes self; tracks := tracks self ++ [t]; is_fragmented := is_fragmented self;
     fmp4_converter := fmp4_converter self; mdat_payload_offset := mdat_payload_offset self;
     pending_sample_table := pending_sample_table self |}.

Definition clear_boxes (self : Mp4Parser) : Mp4Parser :=
  {| boxes := []; tracks := []; is_fragmented := is_fragmented self;
     fmp4_converter := fmp4_converter self; mdat_payload_offset := mdat_payload_offset self;
     pending_sample_table := pending_sample_table self |}.

(** The bookkeeping of [parse] for a parsed box. *)
Definition record_box (self : Mp4Parser) (b : Mp4Box) : Mp4Parser :=
  {| boxes := boxes self ++ [b]; tracks := tracks self;
     is_fragmented := if is_type b (str "moof") then true else is_fragmented self;
     fmp4_converter := fmp4_converter self;
     mdat_payload_offset :=
       if is_type b (str "mdat") then content_start (header b) else mdat_payload_offset self;
     pending_sample_table := pending_sample_table self |}.

(** ** The sample table box *)

(** Assignments to the fields of a sample table. *)
Definition with_sizes (t : SampleTable) (v : list Z) : SampleTable :=
  {| sample_sizes := v; time_to_sample := time_to_sample t; sample_to_chunk := sample_to_chunk t;
     chunk_offsets := chunk_offsets t; sync_samples := sync_samples t; composition_offsets := composition_offsets t |}.
Definition with_stts (t : SampleTable) (v : list (Z * Z)) : SampleTable :=
  {| sample_sizes := sample_sizes t; time_to_sample := v; sample_to_chunk := sample_to_chunk t;
     chunk_offsets := chunk_offsets t; sync_samples := sync_samples t; composition_offsets := composition_offsets t |}.
Definition with_stsc (t : SampleTable) (v : list (Z * Z * Z)) : SampleTable :=
  {| sample_sizes := sample_sizes t; time_to_sample := time_to_sample t; sample_to_chunk := v;
     chunk_offsets := chunk_offsets t; sync_samples := sync_samples t; composition_offsets := composition_offsets t |}.
Definition with_offsets (t : SampleTable) (v : list Z) : SampleTable :=
  {| sample_sizes := sample_sizes t; time_to_sample := time_to_sample t; sample_to_chunk := sample_to_chunk t;
     chunk_offsets := v; sync_samples := sync_samples t; composition_offsets := composition_offsets t |}.
Definition with_stss (t : SampleTable) (v : list Z) : SampleTable :=
  {| sample_sizes := sample_sizes t; time_to_sample := time_to_sample t; sample_to_chunk := sample_to_chunk t;
     chunk_offsets := chunk_offsets t; sync_samples := v; composition_offsets := composition_offsets t |}.
Definition with_ctts (t : SampleTable) (v : list (Z * Z)) : SampleTable :=
  {| sample_sizes := sample_sizes t; time_to_sample := time_to_sample t; sample_to_chunk := sample_to_chunk t;
     chunk_offsets := chunk_offsets t; sync_samples := sync_samples t; composition_offsets := v |}.

Definition stbl_state : Type := (option (result codec_info io_error) * SampleTable)%type.

(** The [match] on the type of a child of [stbl]. *)
Definition stbl_child (media_type : rstring) (st : stbl_state) (box_type : rstring) (content_data : bytes)
  : exec stbl_state :=
  let '(codec_result, t) := st in
  if str_eqb box_type (str "stsd") then
    let! r := parse_stsd_box content_data media_type in Done (Some r, t)
  else if str_eqb box_type (str "stsz") then
    let! v := parse_stsz content_data in Done (codec_result, with_sizes t v)
  else if str_eqb box_type (str "stts") then
    let! v := parse_stts content_data in Done (codec_result, with_stts t v)
  else if str_eqb box_type (str "stsc") then
    let! v := parse_stsc content_data in Done (codec_result, with_stsc t v)
  else if str_eqb box_type (str "stco") then
    let! v := parse_stco content_data in Done (codec_result, with_offsets t v)
  else if str_eqb box_type (str "co64") then
    let! v := parse_co64 content_data in Done (codec_result, with_offsets t v)
  else if str_eqb box_type (str "stss") then
    let! v := parse_stss content_data in Done (codec_result, with_stss t v)
  else if str_eqb box_type (str "ctts") then
    let! v := parse_ctts content_data in Done (codec_result, with_ctts t v)
  else Done (codec_result, t).

Definition no_description : result codec_info io_error :=
  RErr (IoError NotFound (str "No sample description found")).

(** What follows the loop: the table is kept when it has samples. *)
Definition stbl_end (self : Mp4Parser) (st : stbl_state) : Mp4Parser * result codec_info io_error :=
  let '(codec_result, t) := st in
  (match sample_sizes t with [] => self | _ => set_pending self (Some t) end,
   default no_description codec_result).

Definition parse_stbl_box (self : Mp4Parser) (data : bytes) (media_type : rstring)
  : exec (Mp4Parser * result codec_info io_error) :=
  let fin st := Done (stbl_end self st) in
  cursor_boxes 1 data
    (fun st c content_size box_type =>
       let! read := read_vec data c content_size in
       match read with
       | (_, None) => let! r := fin st in Done (Break r)
       | (c, Some content_data) =>
           let! st := stbl_child media_type st box_type content_data in
           Done (Continue (c, st))
       end)
    fin (None, default_table).

(** ** The media boxes *)

Definition fallback_codec (media_type : rstring) : codec_info :=
  if str_eqb media_type (str "vide") then (str "H.264", video_mime (str "avc1.42E01E"), None)
  else if str_eqb media_type (str "soun") then (str "AAC", audio_mime (str "mp4a.40.2"), None)
  else (str "Unknown", str "application/octet-stream", None).

Definition parse_minf_box (self : Mp4Parser) (data : bytes) (media_type : rstring)
  : exec (Mp4Parser * result codec_info io_error) :=
  cursor_boxes 1 data
    (fun (_ : unit) c content_size box_type =>
       if str_eqb box_type (str "stbl") then
         let! read := read_vec data c content_size in
         match read with
         | (c, Some content_data) =>
             let! r := parse_stbl_box self content_data media_type in Done (Break r)
         | (c, None) => Done (Continue (c, tt))
         end
       else Done (Continue (seek_current c content_size, tt)))
    (fun _ => Done (self, ROk (fallback_codec media_type))) tt.

Definition parse_hdlr_box (data0 : bytes) (c : cursor) (content_size : Z)
  : exec (cursor * result rstring io_error) :=
  if content_size <? 12 then Done (c, RErr (invalid_data (str "hdlr box too small")))
  else
    let! read := read_vec data0 c content_size in
    match read with
    | (c, Some data) => let! h := slice data 8 12 in Done (c, ROk (from_utf8_lossy h))
    | (c, None) => Done (c, RErr eof_error)
    end.

Definition parse_mdhd_box (data0 : bytes) (c : cursor) (content_size : Z)
  : exec (cursor * result (Z * Z) io_error) :=
  if content_size <? 20 then Done (c, RErr (invalid_data (str "mdhd box too small")))
  else
    let! read := read_vec data0 c content_size in
    match read with
    | (c, Some data) =>
        let! timescale := be32_at data 12 in
        let! duration := be32_at data 16 in
        Done (c, ROk (timescale, duration))
    | (c, None) => Done (c, RErr eof_error)
    end.

Definition parse_tkhd_box (data0 : bytes) (c : cursor) (content_size : Z)
  : exec (cursor * result Z io_error) :=
  if content_size <? 12 then Done (c, RErr (invalid_data (str "tkhd box too small")))
  else
    let! read := read_vec data0 c content_size in
    match read with
    | (c, Some data) =>
        if 16 <=? zlen data then
          let! track_id := be32_at data 12 in Done (c, ROk track_id)
        else Done (c, RErr (invalid_data (str "tkhd box data too small")))
    | (c, None) => Done (c, RErr eof_error)
    end.

(** [MdiaBoxResult]. *)
Record MdiaBoxResult : Type := {
  md_media_type : rstring;
  md_timescale : Z;
  md_duration : Z;
  md_codec : codec_info;
}.

(** The initial values of the locals. *)
Definition mdia_default : MdiaBoxResult :=
  {| md_media_type := []; md_timescale := 1000; md_duration := 0; md_codec := ([], [], None) |}.

Definition parse_mdia_box (self : Mp4Parser) (data : bytes)
  : exec (Mp4Parser * result MdiaBoxResult io_error) :=
  cursor_boxes 1 data
    (fun '(self, m) c content_size box_type =>
       if str_eqb box_type (str "mdhd") then
         let! r := parse_mdhd_box data c content_size in
         match r with
         | (c, ROk (ts, dur)) =>
             Done (Continue (c, (self, {| md_media_type := md_media_type m; md_timescale := ts;
                                          md_duration := dur; md_codec := md_codec m |})))
         | (c, RErr _) => Done (Continue (seek_current c content_size, (self, m)))
         end
       else if str_eqb box_type (str "hdlr") then
         let! r := parse_hdlr_box data c content_size in
         match r with
         | (c, ROk handler_type) =>
             Done (Continue (c, (self, {| md_media_type := handler_type; md_timescale := md_timescale m;
                                          md_duration := md_duration m; md_codec := md_codec m |})))
         | (c, RErr _) => Done (Continue (seek_current c content_size, (self, m)))
         end
       else if str_eqb box_type (str "minf") then
         let! read := read_vec data c content_size in
         match read with
         | (c, Some content_data) =>
             let! r := parse_minf_box self content_data (md_media_type m) in
             match r with
             | (self, ROk codec) =>
                 Done (Continue (c, (self, {| md_media_type := md_media_type m; md_timescale := md_timescale m;
                                              md_duration := md_duration m; md_codec := codec |})))
             | (self, RErr _) => Done (Continue (c, (self, m)))
             end
         | (c, None) => Done (Continue (c, (self, m)))
         end
       else Done (Continue (seek_current c content_size, (self, m))))
    (fun '(self, m) => Done (self, ROk m)) (self, mdia_default).

(** ** Tracks and the movie *)

(** What follows the loop of [parse_trak_box]. *)
Definition finish_trak (self : Mp4Parser) (track_id : Z) (m : MdiaBoxResult) : Mp4Parser :=
  if (0 <? track_id) && negb (match md_media_type m with [] => true | _ => false end) then
    let '(codec, mime, params) := md_codec m in
    push_track (set_pending self None)
      {| track_id := track_id; media_type := md_media_type m; timescale := md_timescale m;
         track_duration := md_duration m; codec := codec; codec_mime_type := mime; codec_params := params;
         sample_table := pending_sample_table self |}
  else self.

Definition parse_trak_box (self : Mp4Parser) (data : bytes) : exec (Mp4Parser * result unit io_error) :=
  cursor_boxes 1 data
    (fun '(self, track_id, m) c content_size box_type =>
       if str_eqb box_type (str "tkhd") then
         let! r := parse_tkhd_box data c content_size in
         match r with
         | (c, ROk track_id_parsed) => Done (Continue (c, (self, track_id_parsed, m)))
         | (c, RErr _) => Done (Continue (seek_current c content_size, (self, track_id, m)))
         end
       else if str_eqb box_type (str "mdia") then
         let! read := read_vec data c content_size in
         match read with
         | (c, Some content_data) =>
             let! r := parse_mdia_box self content_data in
             match r with
             | (self, ROk parsed) => Done (Continue (c, (self, track_id, parsed)))
             | (self, RErr _) => Done (Continue (c, (self, track_id, m)))
             end
         | (c, None) => Done (Continue (c, (self, track_id, m)))
         end
       else Done (Continue (seek_current c content_size, (self, track_id, m))))
    (fun '(self, track_id, m) => Done (finish_trak self track_id m, ROk tt))
    (set_pending self None, 0, mdia_default).

Definition parse_moov_box (self : Mp4Parser) (data : bytes) : exec (Mp4Parser * result unit io_error) :=
  cursor_boxes 1 data
    (fun self c content_size box_type =>
       if str_eqb box_type (str "trak") then
         let! read := read_vec data c content_size in
         match read with
         | (c, Some content_data) =>
             let! r := parse_trak_box self content_data in
             Done (Continue (c, fst r))
         | (c, None) => Done (Continue (c, self))
         end
       else Done (Continue (seek_current c content_size, self)))
    (fun self => Done (self, ROk tt)) self.

(** ** Boxes and files *)

(** [data.chunks(4)], the full ones decoded. *)
Fixpoint brands (data : bytes) : list rstring :=
  match data with
  | a :: b :: c :: d :: data' => from_utf8_lossy [a; b; c; d] :: brands data'
  | _ => []
  end.

Definition parse_ftyp_box (data : bytes) : exec (result BoxContent io_error) :=
  if zlen data <? 8 then Done (RErr (invalid_data (str "ftyp box too small")))
  else
    let! major := slice data 0 4 in
    let! minor_version := be32_at data 4 in
    let! rest := slice_from data 8 in
    Done (ROk (FileType (from_utf8_lossy major) minor_version (brands rest))).

(** The content of a box with a known header; an error of the type's parser is
    only logged. *)
Definition parse_content (self : Mp4Parser) (box_type : rstring) (content_data : bytes)
  : exec (Mp4Parser * BoxContent) :=
  if str_eqb box_type (str "ftyp") then
    let! _ := parse_ftyp_box content_data in Done (self, Raw content_data)
  else if str_eqb box_type (str "moov") then
    let! r := parse_moov_box self content_data in Done (fst r, Raw content_data)
  else Done (self, Raw content_data).

Definition parse_box (self : Mp4Parser) (data : bytes) (c : cursor)
  : exec (Mp4Parser * cursor * result Mp4Box io_error) :=
  let start_pos := position c in
  match read_exact data c 8 with
  | (c, None) => Done (self, c, RErr eof_error)
  | (c, Some header_buf) =>
      let! box_size := be32_at header_buf 0 in
      let! ty := slice header_buf 4 8 in
      let box_type := from_utf8_lossy ty in
      let finish c actual_size content_start :=
        let! header_size := sub_u64 content_start start_pos in
        let! content_size := sub_u64 actual_size header_size in
        let! read := read_vec data c content_size in
        match read with
        | (c, None) => Done (self, c, RErr eof_error)
        | (c, Some content_data) =>
            let! parsed := parse_content self box_type content_data in
            let '(self, content) := parsed in
            Done (self, c, ROk {| header := {| box_type := box_type; bh_size := actual_size;
                                               content_start := content_start |};
                                  content := content |})
        end in
      if box_size =? 1 then
        match read_exact data c 8 with
        | (c, None) => Done (self, c, RErr eof_error)
        | (c, Some extended_size_buf) =>
            let! extended_size := be64_at extended_size_buf 0 in
            let! content_start := add_u64 start_pos 16 in
            finish c extended_size content_start
        end
      else
        let! content_start := add_u64 start_pos 8 in
        finish c box_size content_start
  end.

(** One round of the loop of [parse]. *)
Definition parse_round (data : bytes) (st : cursor * Mp4Parser) : exec (step (cursor * Mp4Parser) Mp4Parser) :=
  let '(c, self) := st in
  if zlen data <=? position c then Done (Break self)
  else
    let! parsed := parse_box self data c in
    match parsed with
    | (self, c, ROk box_info) => Done (Continue (c, record_box self box_info))
    | (self, _, RErr _) => Done (Break self)
    end.

(** Every box that parses takes at least its header's eight bytes. *)
Definition parse (self : Mp4Parser) (data : bytes) : exec (Mp4Parser * result unit io_error) :=
  let! self := loop (Datatypes.S (length data)) (parse_round data) (Cursor 0, clear_boxes self) in
  Done (self, ROk tt).

(** ** Reference: a file as data *)

(** A track as a multiplexer writes it. *)
Record file_track : Type := {
  ft_tkhd_head : bytes;        (* version, flags, times *)
  ft_id : Z;
  ft_tkhd_tail : bytes;
  ft_others : list mp4_box;    (* edts, udta, ... *)
  ft_mdhd_head : bytes;        (* version, flags, times *)
  ft_timescale : Z;
  ft_duration : Z;
  ft_mdhd_tail : bytes;
  ft_hdlr_head : bytes;        (* version, flags, pre_defined *)
  ft_handler : bytes;
  ft_hdlr_tail : bytes;
  ft_minf_others : list mp4_box; (* vmhd, dinf, ... *)
  ft_stsd : bytes;
  ft_table : SampleTable;
  ft_large_offsets : bool;     (* co64 rather than stco *)
}.

(** Optional tables are written when they have entries. *)
Definition opt_box {A} (ty : string) (enc : A -> bytes) (xs : list A) : list mp4_box :=
  match xs with [] => [] | _ => [(str ty, table_box enc xs)] end.

Definition stbl_boxes (f : file_track) : list mp4_box :=
  let t := ft_table f in
  [(str "stsd", ft_stsd f); (str "stts", table_box enc_pair (time_to_sample t))]
  ++ opt_box "stss" (be_bytes 4) (sync_samples t)
  ++ opt_box "ctts" enc_pair (composition_offsets t)
  ++ [(str "stsc", table_box enc_triple (sample_to_chunk t)); (str "stsz", size_box (sample_sizes t));
      if ft_large_offsets f then (str "co64", table_box (be_bytes 8) (chunk_offsets t))
      else (str "stco", table_box (be_bytes 4) (chunk_offsets t))].

Definition minf_boxes (f : file_track) : list mp4_box :=
  ft_minf_others f ++ [(str "stbl", boxes_bytes (stbl_boxes f))].

Definition mdia_boxes (f : file_track) : list mp4_box :=
  [(str "mdhd", ft_mdhd_head f ++ be_bytes 4 (ft_timescale f) ++ be_bytes 4 (ft_duration f) ++ ft_mdhd_tail f);
   (str "hdlr", ft_hdlr_head f ++ ft_handler f ++ ft_hdlr_tail f);
   (str "minf", boxes_bytes (minf_boxes f))].

Definition trak_boxes (f : file_track) : list mp4_box :=
  (str "tkhd", ft_tkhd_head f ++ be_bytes 4 (ft_id f) ++ ft_tkhd_tail f) :: ft_others f
  ++ [(str "mdia", boxes_bytes (mdia_boxes f))].

Definition table_fits (f : file_track) : Prop :=
  let t := ft_table f in
  Forall is_u32 (sample_sizes t) /\ zlen (sample_sizes t) <= u32_max /\
  Forall (fun x => is_u32 (fst x) /\ is_u32 (snd x)) (time_to_sample t) /\ zlen (time_to_sample t) <= u32_max /\
  Forall (fun x => is_u32 (fst (fst x)) /\ is_u32 (snd (fst x)) /\ is_u32 (snd x)) (sample_to_chunk t) /\
  zlen (sample_to_chunk t) <= u32_max /\
  Forall (if ft_large_offsets f then is_u64 else is_u32) (chunk_offsets t) /\ zlen (chunk_offsets t) <= u32_max /\
  Forall is_u32 (sync_samples t) /\ zlen (sync_samples t) <= u32_max /\
  Forall (fun x => is_u32 (fst x) /\ - 2 ^ 31 <= snd x < 2 ^ 31) (composition_offsets t) /\
  zlen (composition_offsets t) <= u32_max.

Definition ft_media (f : file_track) : rstring := from_utf8_lossy (ft_handler f).

(** Field widths, box sizes, and a sample description the codec detection
    gets through. *)
Definition file_track_ok (f : file_track) : Prop :=
  zlen (ft_tkhd_head f) = 12 /\ is_u32 (ft_id f) /\ 0 < ft_id f /\
  zlen (ft_mdhd_head f) = 12 /\ is_u32 (ft_timescale f) /\ is_u32 (ft_duration f) /\
  zlen (ft_hdlr_head f) = 8 /\ zlen (ft_handler f) = 4 /\ table_fits f /\
  Forall (fun b => fst b <> str "tkhd" /\ fst b <> str "mdia") (ft_others f) /\
  Forall (fun b => fst b <> str "stbl") (ft_minf_others f) /\
  Forall wf_box (trak_boxes f) /\ Forall wf_box (mdia_boxes f) /\
  Forall wf_box (minf_boxes f) /\ Forall wf_box (stbl_boxes f) /\
  returns (parse_stsd_box (ft_stsd f) (ft_media f)) (fun _ => True).

(** The track the parser should come up with. *)
Definition detected_codec (f : file_track) : codec_info :=
  match parse_stsd_box (ft_stsd f) (ft_media f) with Done (ROk c) => c | _ => ([], [], None) end.

Definition some_table (t : SampleTable) : option SampleTable :=
  match sample_sizes t with [] => None | _ => Some t end.

Definition expected_track (f : file_track) : Mp4Track :=
  let '(codec, mime, params) := detected_codec f in
  {| track_id := ft_id f; media_type := ft_media f; timescale := ft_timescale f;
     track_duration := ft_duration f; codec := codec; codec_mime_type := mime; codec_params := params;
     sample_table := some_table (ft_table f) |}.

(** ** Folding loops *)

Lemma fold_boxes_each {S R} (f : S -> mp4_box -> exec S) (fin : S -> exec R) off bs s :
  fold_boxes (fun s (_ : Z) b => let! s' := f s b in Done (Continue s')) fin off bs s
  = (let! s' := for_each f bs s in fin s').
Proof.
  revert off s. induction bs as [|b bs IH]; intros off s; [done|].
  cbn [fold_boxes for_each]. destruct (f s b); cbn [exec_bind]; [apply IH|done|done].
Qed.

Lemma for_each_same {S} (f : S -> mp4_box -> exec S) bs s :
  (forall b, b ∈ bs -> f s b = Done s) -> for_each f bs s = Done s.
Proof.
  induction bs as [|b bs IH]; intros H; [done|]. cbn [for_each].
  rewrite H by left. cbn [exec_bind]. apply IH. intros b' Hb'. apply H. by right.
Qed.

(** ** The layers *)

Section StblChildren.
Context (mt : rstring) (cr : option (result codec_info io_error)) (t : SampleTable).

Lemma stbl_child_stsd c r : parse_stsd_box c mt = Done r ->
  stbl_child mt (cr, t) (str "stsd") c = Done (Some r, t).
Proof using Type.
  intros H. change (stbl_child mt (cr, t) (str "stsd") c) with (let! r := parse_stsd_box c mt in Done (Some r, t)).
  by rewrite H.
Qed.

Lemma stbl_child_stsz xs : Forall is_u32 xs -> zlen xs <= u32_max ->
  stbl_child mt (cr, t) (str "stsz") (size_box xs) = Done (cr, with_sizes t xs).
Proof using Type.
  intros H1 H2. pose proof (parse_stsz_box xs [] H1 H2) as E. rewrite app_nil_r in E.
  change (stbl_child mt (cr, t) (str "stsz") (size_box xs))
    with (let! v := parse_stsz (size_box xs) in Done (cr, with_sizes t v)). by rewrite E.
Qed.

Lemma stbl_child_stts xs : Forall (fun x => is_u32 (fst x) /\ is_u32 (snd x)) xs -> zlen xs <= u32_max ->
  stbl_child mt (cr, t) (str "stts") (table_box enc_pair xs) = Done (cr, with_stts t xs).
Proof using Type.
  intros H1 H2. pose proof (parse_stts_box xs [] H1 H2) as E. rewrite app_nil_r in E.
  change (stbl_child mt (cr, t) (str "stts") (table_box enc_pair xs))
    with (let! v := parse_stts (table_box enc_pair xs) in Done (cr, with_stts t v)). by rewrite E.
Qed.

Lemma stbl_child_stsc xs :
  Forall (fun x => is_u32 (fst (fst x)) /\ is_u32 (snd (fst x)) /\ is_u32 (snd x)) xs -> zlen xs <= u32_max ->
  stbl_child mt (cr, t) (str "stsc") (table_box enc_triple xs) = Done (cr, with_stsc t xs).
Proof using Type.
  intros H1 H2. pose proof (parse_stsc_box xs [] H1 H2) as E. rewrite app_nil_r in E.
  change (stbl_child mt (cr, t) (str "stsc") (table_box enc_triple xs))
    with (let! v := parse_stsc (table_box enc_triple xs) in Done (cr, with_stsc t v)). by rewrite E.
Qed.

Lemma stbl_child_offsets (large : bool) xs :
  Forall (if large then is_u64 else is_u32) xs -> zlen xs <= u32_max ->
  let b : mp4_box := if large then (str "co64", table_box (be_bytes 8) xs) else (str "stco", table_box (be_bytes 4) xs) in
  stbl_child mt (cr, t) (fst b) (snd b) = Done (cr, with_offsets t xs).
Proof using Type.
  destruct large; intros H1 H2.
  - pose proof (parse_co64_box xs [] H1 H2) as E. rewrite app_nil_r in E.
    change (stbl_child mt (cr, t) (str "co64") (table_box (be_bytes 8) xs) = Done (cr, with_offsets t xs)).
    change (stbl_child mt (cr, t) (str "co64") (table_box (be_bytes 8) xs))
      with (let! v := parse_co64 (table_box (be_bytes 8) xs) in Done (cr, with_offsets t v)). by rewrite E.
  - pose proof (parse_stco_box xs [] H1 H2) as E. rewrite app_nil_r in E.
    change (stbl_child mt (cr, t) (str "stco") (table_box (be_bytes 4) xs) = Done (cr, with_offsets t xs)).
    change (stbl_child mt (cr, t) (str "stco") (table_box (be_bytes 4) xs))
      with (let! v := parse_stco (table_box (be_bytes 4) xs) in Done (cr, with_offsets t v)). by rewrite E.
Qed.

(** The optional tables; a missing one leaves the empty default. *)
Lemma stbl_opt_stss xs : Forall is_u32 xs -> zlen xs <= u32_max -> sync_samples t = [] ->
  for_each (fun st b => stbl_child mt st (fst b) (snd b)) (opt_box "stss" (be_bytes 4) xs) (cr, t)
  = Done (cr, with_stss t xs).
Proof using Type.
  intros H1 H2 Hn. destruct xs as [|x xs].
  { cbn. destruct t; cbn in *; by subst. }
  pose proof (parse_stss_box (x :: xs) [] H1 H2) as E. rewrite app_nil_r in E.
  cbn [opt_box for_each fst snd].
  change (stbl_child mt (cr, t) (str "stss") (table_box (be_bytes 4) (x :: xs)))
    with (let! v := parse_stss (table_box (be_bytes 4) (x :: xs)) in Done (cr, with_stss t v)). by rewrite E.
Qed.

Lemma stbl_opt_ctts xs : Forall (fun x => is_u32 (fst x) /\ - 2 ^ 31 <= snd x < 2 ^ 31) xs ->
  zlen xs <= u32_max -> composition_offsets t = [] ->
  for_each (fun st b => stbl_child mt st (fst b) (snd b)) (opt_box "ctts" enc_pair xs) (cr, t)
  = Done (cr, with_ctts t xs).
Proof using Type.
  intros H1 H2 Hn. destruct xs as [|x xs].
  { cbn. destruct t; cbn in *; by subst. }
  pose proof (parse_ctts_box (x :: xs) [] H1 H2) as E. rewrite app_nil_r in E.
  cbn [opt_box for_each fst snd].
  change (stbl_child mt (cr, t) (str "ctts") (table_box enc_pair (x :: xs)))
    with (let! v := parse_ctts (table_box enc_pair (x :: xs)) in Done (cr, with_ctts t v)). by rewrite E.
Qed.
End StblChildren.

Lemma stbl_fold f r : table_fits f -> parse_stsd_box (ft_stsd f) (ft_media f) = Done r ->
  for_each (fun st b => stbl_child (ft_media f) st (fst b) (snd b)) (stbl_boxes f) (None, default_table)
  = Done (Some r, ft_table f).
Proof.
  intros (H1 & H2 & H3 & H4 & H5 & H6 & H7 & H8 & H9 & H10 & H11 & H12) Hr. unfold stbl_boxes.
  cbn [app for_each fst snd]. rewrite (stbl_child_stsd _ _ _ _ r Hr). cbn [exec_bind].
  rewrite stbl_child_stts by done. cbn [exec_bind].
  rewrite for_each_app, stbl_opt_stss by done. cbn [exec_bind].
  rewrite for_each_app, stbl_opt_ctts by done. cbn [exec_bind for_each fst snd].
  rewrite stbl_child_stsc by done. cbn [exec_bind]. rewrite stbl_child_stsz by done. cbn [exec_bind].
  rewrite (stbl_child_offsets _ _ _ (ft_large_offsets f)) by done. cbn [exec_bind].
  do 2 f_equal. unfold with_offsets, with_sizes, with_stsc, with_ctts, with_stss, with_stts, default_table. cbn.
  by destruct (ft_table f).
Qed.

Lemma stbl_boxes_ascii f : Forall (fun b => is_ascii (fst b) = true) (stbl_boxes f).
Proof.
  unfold stbl_boxes, opt_box. rewrite !list.Forall_app.
  destruct (sync_samples (ft_table f)), (composition_offsets (ft_table f)), (ft_large_offsets f);
    split_and!; repeat (apply List.Forall_cons || apply List.Forall_nil); done.
Qed.

Lemma stbl_std self f : file_track_ok f ->
  exists r, parse_stsd_box (ft_stsd f) (ft_media f) = Done r /\
    parse_stbl_box self (boxes_bytes (stbl_boxes f)) (ft_media f)
    = Done (match sample_sizes (ft_table f) with [] => self | _ => set_pending self (Some (ft_table f)) end, r).
Proof.
  intros (_ & _ & _ & _ & _ & _ & _ & _ & Ht & _ & _ & _ & _ & _ & Hwf & (r & Hr & _)).
  exists r. split; [done|]. unfold parse_stbl_box.
  rewrite (cursor_boxes_fold 1 _ _ _
    (fun st b => let! st' := stbl_child (ft_media f) st (fst b) (snd b) in Done (Continue st'))
    (stbl_boxes f)); [|lia|done|done|].
  - rewrite fold_boxes_each, (stbl_fold f r) by done. done.
  - intros st l b k Hd Hin. rewrite Hd. rewrite list.Forall_forall in Hwf.
    rewrite (read_content_vec l b k) by by apply Hwf. cbn [exec_bind].
    assert (Hty : is_ascii (fst b) = true).
    { pose proof (stbl_boxes_ascii f) as Ha. rewrite list.Forall_forall in Ha. by apply Ha. }
    rewrite from_utf8_lossy_ascii by done. by destruct (stbl_child (ft_media f) st (fst b) (snd b)).
Qed.

(** The movie fits a file the machine can hold. *)
Lemma minf_std self f : file_track_ok f -> zlen (boxes_bytes (minf_boxes f)) <= isize_max ->
  exists r, parse_stsd_box (ft_stsd f) (ft_media f) = Done r /\
    parse_minf_box self (boxes_bytes (minf_boxes f)) (ft_media f)
    = Done (match sample_sizes (ft_table f) with [] => self | _ => set_pending self (Some (ft_table f)) end, r).
Proof.
  intros Hok Hlen. destruct (stbl_std self f Hok) as (r & Hr & Hstbl). exists r. split; [done|].
  destruct Hok as (_ & _ & _ & _ & _ & _ & _ & _ & _ & _ & Ho & _ & _ & Hwf & _ & _).
  unfold parse_minf_box.
  rewrite (cursor_boxes_fold 1 _ _ _
    (fun (_ : unit) b => if str_eqb (fst b) (str "stbl") then
       let! r := parse_stbl_box self (snd b) (ft_media f) in Done (Break r) else Done (Continue tt))
    (minf_boxes f)); [|lia|done|done|].
  - generalize 0 as off. unfold minf_boxes. clear Hlen Hwf.
    induction Ho as [|b bs Hb _ IH]; intros off; cbn [app fold_boxes].
    + cbn [fst snd]. rewrite str_eqb_refl, Hstbl. done.
    + rewrite (proj2 (str_eqb_neq _ _) Hb). cbn [exec_bind]. apply IH.
  - intros [] l b k Hd Hin. rewrite list.Forall_forall in Hwf. specialize (Hwf b Hin).
    rewrite Hd in *. rewrite str_eqb_lossy by done. destruct (str_eqb (fst b) (str "stbl")).
    + rewrite (read_content_vec l b k) by done. cbn [exec_bind].
      by destruct (parse_stbl_box self (snd b) (ft_media f)).
    + cbn [exec_bind]. by rewrite (skip_content _ b k).
Qed.

(** What a track leaves of the parser while it is read. *)
Definition table_pending (self : Mp4Parser) (f : file_track) : Mp4Parser :=
  match sample_sizes (ft_table f) with [] => self | _ => set_pending self (Some (ft_table f)) end.

Definition parsed_mdia (f : file_track) : MdiaBoxResult :=
  {| md_media_type := ft_media f; md_timescale := ft_timescale f; md_duration := ft_duration f;
     md_codec := detected_codec f |}.

(** The fixed boxes of a track, read at their place. *)
Lemma mdhd_std f l k : file_track_ok f ->
  let b : mp4_box := (str "mdhd", ft_mdhd_head f ++ be_bytes 4 (ft_timescale f) ++ be_bytes 4 (ft_duration f) ++ ft_mdhd_tail f) in
  wf_box b -> parse_mdhd_box (l ++ box_bytes b ++ k) (Cursor (zlen l + 8)) (zlen (snd b))
  = Done (Cursor (zlen l + box_size b), ROk (ft_timescale f, ft_duration f)).
Proof.
  intros (_ & _ & _ & Hh & Hts & Hdur & _) b Hwf. unfold parse_mdhd_box.
  destruct (Z.ltb_spec (zlen (snd b)) 20); [subst b; cbn [snd] in *; zlia|].
  rewrite (read_content_vec l b k) by done. cbn [exec_bind]. subst b. cbn [snd].
  rewrite be32_at_mid by done. cbn [exec_bind].
  rewrite (app_assoc (ft_mdhd_head f)), be32_at_mid by (done || zlia). done.
Qed.

Lemma hdlr_std f l k : file_track_ok f ->
  let b : mp4_box := (str "hdlr", ft_hdlr_head f ++ ft_handler f ++ ft_hdlr_tail f) in
  wf_box b -> parse_hdlr_box (l ++ box_bytes b ++ k) (Cursor (zlen l + 8)) (zlen (snd b))
  = Done (Cursor (zlen l + box_size b), ROk (ft_media f)).
Proof.
  intros (_ & _ & _ & _ & _ & _ & Hh & Hty & _) b Hwf. unfold parse_hdlr_box.
  destruct (Z.ltb_spec (zlen (snd b)) 12); [subst b; cbn [snd] in *; zlia|].
  rewrite (read_content_vec l b k) by done. cbn [exec_bind]. subst b. cbn [snd].
  rewrite slice_app_mid by zlia. done.
Qed.

Lemma tkhd_std f l k : file_track_ok f ->
  let b : mp4_box := (str "tkhd", ft_tkhd_head f ++ be_bytes 4 (ft_id f) ++ ft_tkhd_tail f) in
  wf_box b -> parse_tkhd_box (l ++ box_bytes b ++ k) (Cursor (zlen l + 8)) (zlen (snd b))
  = Done (Cursor (zlen l + box_size b), ROk (ft_id f)).
Proof.
  intros (Hh & Hid & _) b Hwf. unfold parse_tkhd_box.
  destruct (Z.ltb_spec (zlen (snd b)) 12); [subst b; cbn [snd] in *; zlia|].
  rewrite (read_content_vec l b k) by done. cbn [exec_bind].
  destruct (Z.leb_spec 16 (zlen (snd b))); [|subst b; cbn [snd] in *; zlia]. subst b. cbn [snd].
  rewrite be32_at_mid by done. done.
Qed.

Lemma zlen_box_in b bs : Forall wf_box bs -> b ∈ bs -> zlen (snd b) <= zlen (boxes_bytes bs).
Proof.
  induction 1 as [|x bs Hx _ IH]; intros Hin; [by apply elem_of_nil in Hin|].
  rewrite boxes_bytes_cons, zlen_app, zlen_box_bytes by done. unfold box_size.
  apply elem_of_cons in Hin as [-> | Hin]; [|specialize (IH Hin)]; zlia.
Qed.

Ltac mdia_cbn := cbn [fold_boxes exec_bind fst snd md_media_type md_timescale md_duration md_codec].

Lemma mdia_std self f : file_track_ok f -> zlen (boxes_bytes (mdia_boxes f)) <= isize_max ->
  parse_mdia_box self (boxes_bytes (mdia_boxes f)) = Done (table_pending self f, ROk (parsed_mdia f)).
Proof.
  intros Hok Hlen. pose proof Hok as (_ & _ & _ & _ & _ & _ & _ & _ & _ & _ & _ & _ & Hwf & _ & _ & _).
  assert (Hminf : zlen (boxes_bytes (minf_boxes f)) <= isize_max).
  { pose proof (zlen_box_in (str "minf", boxes_bytes (minf_boxes f)) _ Hwf) as H. cbn [snd] in H.
    etrans; [apply H|done]. right. right. left. }
  destruct (minf_std self f Hok Hminf) as (r & Hr & Hp). fold (table_pending self f) in Hp.
  unfold parse_mdia_box.
  rewrite (cursor_boxes_fold 1 _ _ _ (fun '(self, m) b =>
     if str_eqb (fst b) (str "mdhd") then
       Done (Continue (self, {| md_media_type := md_media_type m; md_timescale := ft_timescale f;
                                md_duration := ft_duration f; md_codec := md_codec m |}))
     else if str_eqb (fst b) (str "hdlr") then
       Done (Continue (self, {| md_media_type := ft_media f; md_timescale := md_timescale m;
                                md_duration := md_duration m; md_codec := md_codec m |}))
     else
       let! r := parse_minf_box self (snd b) (md_media_type m) in
       match r with
       | (self, ROk codec) =>
           Done (Continue (self, {| md_media_type := md_media_type m; md_timescale := md_timescale m;
                                    md_duration := md_duration m; md_codec := codec |}))
       | (self, RErr _) => Done (Continue (self, m))
       end) (mdia_boxes f)); [|lia|done|done|].
  - unfold mdia_boxes. mdia_cbn. change (str_eqb (str "mdhd") (str "mdhd")) with true. mdia_cbn.
    change (str_eqb (str "hdlr") (str "mdhd")) with false.
    change (str_eqb (str "hdlr") (str "hdlr")) with true. mdia_cbn.
    change (str_eqb (str "minf") (str "mdhd")) with false.
    change (str_eqb (str "minf") (str "hdlr")) with false. mdia_cbn.
    rewrite Hp. cbn [exec_bind]. unfold parsed_mdia, detected_codec. rewrite Hr.
    by destruct r as [[[c mi] p]|e].
  - intros [self' m] l b k Hd Hin. rewrite list.Forall_forall in Hwf. pose proof (Hwf b Hin) as Hb.
    rewrite Hd. unfold mdia_boxes in Hin. rewrite !elem_of_cons in Hin.
    destruct Hin as [-> | [-> | [-> | Hin]]]; [| | |by apply elem_of_nil in Hin]; cbn [fst];
      rewrite from_utf8_lossy_ascii by done.
    + change (str_eqb (str "mdhd") (str "mdhd")) with true. cbv iota. by rewrite mdhd_std.
    + change (str_eqb (str "hdlr") (str "mdhd")) with false.
      change (str_eqb (str "hdlr") (str "hdlr")) with true. cbv iota. by rewrite hdlr_std.
    + change (str_eqb (str "minf") (str "mdhd")) with false. change (str_eqb (str "minf") (str "hdlr")) with false.
      change (str_eqb (str "minf") (str "minf")) with true. cbv iota.
      rewrite (read_content_vec l _ k) by done. cbn [exec_bind snd].
      by destruct (parse_minf_box self' (boxes_bytes (minf_boxes f)) (md_media_type m)) as [[? [|]]| |].
Qed.

Lemma finish_trak_std self f : file_track_ok f ->
  finish_trak (table_pending (set_pending self None) f) (ft_id f) (parsed_mdia f)
  = push_track (set_pending self None) (expected_track f).
Proof.
  intros (_ & _ & Hid & _ & _ & _ & _ & Hh & _). unfold finish_trak.
  destruct (Z.ltb_spec 0 (ft_id f)); [|lia].
  assert (Hne : md_media_type (parsed_mdia f) <> []).
  { cbn [md_media_type parsed_mdia]. unfold ft_media. intros E.
    assert (Ha : ft_handler f = []) by (rewrite <- E; symmetry; apply from_utf8_lossy_ascii_inv; by rewrite E).
    rewrite Ha in Hh. done. }
  destruct (md_media_type (parsed_mdia f)) as [|x l] eqn:Em; [done|]. cbn [negb andb]. rewrite <- Em.
  unfold expected_track. cbn [md_codec parsed_mdia md_media_type md_timescale md_duration].
  destruct (detected_codec f) as [[c mi] p]. unfold table_pending, some_table.
  by destruct (sample_sizes (ft_table f)).
Qed.

Lemma trak_std self f : file_track_ok f -> zlen (boxes_bytes (trak_boxes f)) <= isize_max ->
  parse_trak_box self (boxes_bytes (trak_boxes f))
  = Done (push_track (set_pending self None) (expected_track f), ROk tt).
Proof.
  intros Hok Hlen. pose proof Hok as (_ & _ & _ & _ & _ & _ & _ & _ & _ & Ho & _ & Hwf & _ & _ & _ & _).
  assert (Hmdia : zlen (boxes_bytes (mdia_boxes f)) <= isize_max).
  { pose proof (zlen_box_in (str "mdia", boxes_bytes (mdia_boxes f)) _ Hwf) as H. cbn [snd] in H.
    etrans; [apply H|done]. unfold trak_boxes. right. apply elem_of_app. right. left. }
  unfold parse_trak_box.
  rewrite (cursor_boxes_fold 1 _ _ _ (fun '(self, track_id, m) b =>
     if str_eqb (fst b) (str "tkhd") then Done (Continue (self, ft_id f, m))
     else if str_eqb (fst b) (str "mdia") then
       let! r := parse_mdia_box self (snd b) in
       match r with
       | (self, ROk parsed) => Done (Continue (self, track_id, parsed))
       | (self, RErr _) => Done (Continue (self, track_id, m))
       end
     else Done (Continue (self, track_id, m))) (trak_boxes f)); [|lia|done|done|].
  - unfold trak_boxes. cbn [fold_boxes fst snd]. change (str_eqb (str "tkhd") (str "tkhd")) with true.
    cbn [exec_bind]. match goal with |- fold_boxes _ _ ?o _ _ = _ => generalize o as off end. clear Hlen Hwf.
    induction Ho as [|b bs [Hb1 Hb2] _ IH]; intros off; cbn [app fold_boxes].
    + cbn [fst snd]. change (str_eqb (str "mdia") (str "tkhd")) with false.
      change (str_eqb (str "mdia") (str "mdia")) with true. cbv iota.
      rewrite mdia_std by done. cbn [exec_bind]. by rewrite finish_trak_std.
    + rewrite (proj2 (str_eqb_neq _ _) Hb1), (proj2 (str_eqb_neq _ _) Hb2). cbn [exec_bind]. apply IH.
  - intros [[self' id] m] l b k Hd Hin. rewrite list.Forall_forall in Hwf. pose proof (Hwf b Hin) as Hb.
    rewrite Hd in *. rewrite !str_eqb_lossy by done.
    unfold trak_boxes in Hin. rewrite elem_of_cons, elem_of_app in Hin.
    destruct Hin as [-> | [Hin | Hin]].
    + cbn [fst]. change (str_eqb (str "tkhd") (str "tkhd")) with true. cbv iota. by rewrite tkhd_std.
    + rewrite list.Forall_forall in Ho. destruct (Ho b Hin) as [Hb1 Hb2].
      rewrite (proj2 (str_eqb_neq _ _) Hb1), (proj2 (str_eqb_neq _ _) Hb2). cbn [exec_bind].
      by rewrite (skip_content _ b k).
    + apply elem_of_cons in Hin as [-> | Hin]; [|by apply elem_of_nil in Hin]. cbn [fst].
      change (str_eqb (str "mdia") (str "tkhd")) with false.
      change (str_eqb (str "mdia") (str "mdia")) with true. cbv iota.
      rewrite (read_content_vec l _ k) by done. cbn [exec_bind snd].
      by destruct (parse_mdia_box self' (boxes_bytes (mdia_boxes f))) as [[? [|]]| |].
Qed.

Inductive movie_child : Type :=
| MovieTrack (f : file_track)
| MovieOther (b : mp4_box).

Definition movie_child_box (c : movie_child) : mp4_box :=
  match c with MovieTrack f => (str "trak", boxes_bytes (trak_boxes f)) | MovieOther b => b end.

Definition movie_child_ok (c : movie_child) : Prop :=
  wf_box (movie_child_box c) /\
  match c with MovieTrack f => file_track_ok f | MovieOther b => fst b <> str "trak" end.

Definition movie_bytes (cs : list movie_child) : bytes := boxes_bytes (map movie_child_box cs).

(** The parser after the movie's tracks. *)
Definition after_child (self : Mp4Parser) (c : movie_child) : Mp4Parser :=
  match c with
  | MovieTrack f => push_track (set_pending self None) (expected_track f)
  | MovieOther _ => self
  end.

Lemma moov_std self cs : Forall movie_child_ok cs -> zlen (movie_bytes cs) <= u32_max ->
  parse_moov_box self (movie_bytes cs) = Done (foldl after_child self cs, ROk tt).
Proof.
  intros Hcs Hlen. unfold parse_moov_box.
  assert (Hwf : Forall wf_box (map movie_child_box cs)).
  { rewrite list.Forall_forall in Hcs. apply list.Forall_forall. intros b (c & -> & Hc)%elem_of_map. by apply Hcs. }
  rewrite (cursor_boxes_fold 1 _ _ _ (fun self b =>
     if str_eqb (fst b) (str "trak") then
       let! r := parse_trak_box self (snd b) in Done (Continue (fst r))
     else Done (Continue self)) (map movie_child_box cs)); [|lia|done|done|].
  - generalize 0 as off. clear Hwf. revert self. unfold movie_bytes in Hlen.
    induction Hcs as [|c cs Hc _ IH]; intros self off; [done|].
    cbn [map fold_boxes foldl] in *. rewrite boxes_bytes_cons, zlen_app, zlen_box_bytes in Hlen by apply Hc.
    pose proof (zlen_nonneg (boxes_bytes (map movie_child_box cs))).
    destruct c as [f|b]; cbn [movie_child_box after_child fst snd] in *.
    + change (str_eqb (str "trak") (str "trak")) with true. cbv iota.
      rewrite trak_std by (try apply Hc; unfold box_size in Hlen; cbn [snd] in Hlen; unfold isize_max, u32_max in *; lia).
      cbn [exec_bind]. apply IH. destruct Hc as [[_ Hs] _]. unfold box_size in *. cbn [snd] in *. pose proof (zlen_nonneg (boxes_bytes (trak_boxes f))). lia.
    + destruct Hc as [Hw Ht]. rewrite (proj2 (str_eqb_neq _ _) Ht). cbn [exec_bind]. apply IH.
      pose proof (box_size_range _ Hw). cbn [movie_child_box] in *. lia.
  - intros self' l b k Hd Hin. rewrite list.Forall_forall in Hwf. pose proof (Hwf b Hin) as Hb.
    rewrite Hd in *. rewrite str_eqb_lossy by done. destruct (str_eqb (fst b) (str "trak")).
    + rewrite (read_content_vec l b k) by done. cbn [exec_bind].
      by destruct (parse_trak_box self' (snd b)) as [[? ?]| |].
    + cbn [exec_bind]. rewrite (skip_content _ b k); [done..|]. unfold isize_max, u32_max in *. lia.
Qed.

(** ** Whole files *)

Inductive file_item : Type :=
| MoovItem (cs : list movie_child)
| PlainItem (b : mp4_box).

Definition item_box (i : file_item) : mp4_box :=
  match i with MoovItem cs => (str "moov", movie_bytes cs) | PlainItem b => b end.

Definition item_ok (i : file_item) : Prop :=
  wf_box (item_box i) /\
  match i with MoovItem cs => Forall movie_child_ok cs | PlainItem b => fst b <> str "moov" end.

Definition movie_tracks (cs : list movie_child) : list Mp4Track :=
  omap (fun c => match c with MovieTrack f => Some (expected_track f) | MovieOther _ => None end) cs.
Definition file_tracks (its : list file_item) : list Mp4Track :=
  flat_map (fun i => match i with MoovItem cs => movie_tracks cs | PlainItem _ => [] end) its.

(** What is recorded of a box at an offset. *)
Definition recorded (off : Z) (b : mp4_box) : Mp4Box :=
  {| header := {| box_type := from_utf8_lossy (fst b); bh_size := box_size b; content_start := off + 8 |};
     content := Raw (snd b) |}.

Fixpoint recorded_boxes (off : Z) (bs : list mp4_box) : list Mp4Box :=
  match bs with [] => [] | b :: bs' => recorded off b :: recorded_boxes (off + box_size b) bs' end.

Definition after_item (self : Mp4Parser) (i : file_item) : Mp4Parser :=
  match i with MoovItem cs => foldl after_child self cs | PlainItem _ => self end.

Fixpoint after_file (self : Mp4Parser) (off : Z) (its : list file_item) : Mp4Parser :=
  match its with
  | [] => self
  | i :: its' =>
      after_file (record_box (after_item self i) (recorded off (item_box i))) (off + box_size (item_box i)) its'
  end.

Lemma parse_ftyp_returns data : returns (parse_ftyp_box data) (fun _ => True).
Proof.
  unfold parse_ftyp_box. destruct (Z.ltb_spec (zlen data) 8); [by eexists|].
  destruct (slice_returns data 0 4) as (m & -> & _); [lia|lia|]. cbn [exec_bind].
  destruct (be32_at_done data 4) as [v ->]; [lia|lia|]. cbn [exec_bind]. unfold slice_from.
  destruct (slice_returns data 8 (zlen data)) as (r & -> & _); [lia|lia|]. by eexists.
Qed.

Lemma parse_content_item self i : item_ok i ->
  parse_content self (from_utf8_lossy (fst (item_box i))) (snd (item_box i))
  = Done (after_item self i, Raw (snd (item_box i))).
Proof.
  intros [[_ Hs] Hi]. unfold parse_content. rewrite !str_eqb_lossy by done. destruct i as [cs|b]; cbn [item_box fst snd] in *.
  - change (str_eqb (str "moov") (str "ftyp")) with false. change (str_eqb (str "moov") (str "moov")) with true.
    cbv iota. rewrite moov_std by (done || lia). done.
  - rewrite (proj2 (str_eqb_neq _ _) Hi). case_match; [|done].
    destruct (parse_ftyp_returns (snd b)) as (r & -> & _). done.
Qed.

Lemma parse_box_item self l i k : item_ok i -> zlen (l ++ box_bytes (item_box i) ++ k) <= isize_max ->
  parse_box self (l ++ box_bytes (item_box i) ++ k) (Cursor (zlen l))
  = Done (after_item self i, Cursor (zlen l + box_size (item_box i)), ROk (recorded (zlen l) (item_box i))).
Proof.
  intros Hi Hlen. set (b := item_box i) in *. pose proof (proj1 Hi : wf_box b) as Hwf.
  pose proof (box_size_range b Hwf) as Hr. pose proof Hwf as [Ht Hs].
  rewrite !zlen_app, zlen_box_bytes in Hlen by done. pose proof (zlen_nonneg l). pose proof (zlen_nonneg k).
  unfold parse_box. cbn [position].
  assert (Hhead : read_exact (l ++ box_bytes b ++ k) (Cursor (zlen l)) 8
    = (Cursor (zlen l + 8), Some (be_bytes 4 (8 + zlen (snd b)) ++ fst b))).
  { unfold box_bytes. rewrite <- !app_assoc, (app_assoc (be_bytes 4 _)). apply read_exact_app. zlia. }
  rewrite Hhead. rewrite be32_at_be_bytes by (unfold is_u32, box_size in *; lia). cbn [exec_bind].
  pose proof (slice_app_mid (be_bytes 4 (8 + zlen (snd b))) (fst b) [] 4 8) as Hsl. rewrite app_nil_r in Hsl.
  rewrite Hsl by zlia. cbn [exec_bind]. fold (box_size b).
  destruct (Z.eqb_spec (box_size b) 1); [lia|].
  unfold add_u64, sub_u64. rewrite checked_done by (unfold u64_max, isize_max in *; lia). cbn [exec_bind].
  rewrite checked_done by (unfold u64_max, isize_max in *; lia). cbn [exec_bind].
  rewrite checked_done by (unfold u64_max, isize_max in *; lia). cbn [exec_bind].
  replace (box_size b - (zlen l + 8 - zlen l)) with (zlen (snd b)) by (unfold box_size; lia).
  rewrite (read_content_vec l b k) by done. cbn [exec_bind]. unfold b. rewrite parse_content_item by done. done.
Qed.

Lemma parse_loop_std fuel its k : forall pre self,
  let data := pre ++ boxes_bytes (map item_box its) ++ k in
  Forall item_ok its -> zlen data <= isize_max -> (length its < fuel)%nat ->
  loop fuel (parse_round data) (Cursor (zlen pre), self)
  = loop (fuel - length its) (parse_round data)
      (Cursor (zlen (pre ++ boxes_bytes (map item_box its))), after_file self (zlen pre) its).
Proof.
  revert its. induction fuel as [|fuel IH]; intros its pre self data His Hlen Hf; [lia|]. destruct its as [|i its].
  - cbn [length after_file map]. change (boxes_bytes []) with (@nil Z). by rewrite app_nil_r.
  - cbn [loop]. unfold parse_round at 1. cbn [position].
    apply list.Forall_cons in His as [Hi His]. subst data. cbn [map] in *. rewrite boxes_bytes_cons in *.
    rewrite <- app_assoc in *. cbn [length] in Hf. pose proof (box_size_range _ (proj1 Hi)).
    destruct (Z.leb_spec (zlen (pre ++ box_bytes (item_box i) ++ boxes_bytes (map item_box its) ++ k)) (zlen pre)) as [Hle|_].
    { rewrite !zlen_app, zlen_box_bytes in Hle by apply Hi. zlia. }
    rewrite parse_box_item by done. cbn [exec_bind].
    rewrite (app_assoc pre) in *. rewrite <- (zlen_box_bytes (item_box i)), <- zlen_app by apply Hi.
    rewrite IH by (done || lia). cbn [after_file length Nat.sub].
    replace (zlen pre + box_size (item_box i)) with (zlen (pre ++ box_bytes (item_box i)))
      by (by rewrite zlen_app, zlen_box_bytes by apply Hi).
    by rewrite (app_assoc pre).
Qed.

Lemma after_child_tracks cs self :
  tracks (foldl after_child self cs) = tracks self ++ movie_tracks cs /\
  boxes (foldl after_child self cs) = boxes self /\
  is_fragmented (foldl after_child self cs) = is_fragmented self.
Proof.
  revert self. induction cs as [|[f|b] cs IH]; intros self; cbn [foldl after_child movie_tracks omap list_omap].
  - by rewrite app_nil_r.
  - destruct (IH (push_track (set_pending self None) (expected_track f))) as (-> & -> & ->).
    cbn. by rewrite <- app_assoc.
  - apply IH.
Qed.

Lemma after_file_spec its : forall self off,
  tracks (after_file self off its) = tracks self ++ file_tracks its /\
  boxes (after_file self off its) = boxes self ++ recorded_boxes off (map item_box its) /\
  is_fragmented (after_file self off its)
    = is_fragmented self || existsb (fun i => str_eqb (fst (item_box i)) (str "moof")) its.
Proof.
  induction its as [|i its IH]; intros self off; cbn [after_file file_tracks flat_map map recorded_boxes existsb].
  - by rewrite !app_nil_r, orb_false_r.
  - destruct (IH (record_box (after_item self i) (recorded off (item_box i))) (off + box_size (item_box i))) as (-> & -> & ->).
    unfold record_box, is_type. cbn [tracks boxes is_fragmented recorded header box_type].
    rewrite str_eqb_lossy by done.
    assert (Ha : tracks (after_item self i) = tracks self ++ match i with MoovItem cs => movie_tracks cs | PlainItem _ => [] end /\
      boxes (after_item self i) = boxes self /\ is_fragmented (after_item self i) = is_fragmented self).
    { destruct i as [cs|b]; cbn [after_item]; [apply after_child_tracks|by rewrite app_nil_r]. }
    destruct Ha as (-> & -> & ->). rewrite <- !app_assoc. split; [done|]. split; [done|].
    destruct (str_eqb (fst (item_box i)) (str "moof")); [by rewrite orb_true_r|done].
Qed.

(** Parsing reaches whatever follows well-formed boxes. *)
Lemma parse_reaches self its cut : Forall item_ok its -> 0 < zlen cut ->
  zlen (boxes_bytes (map item_box its) ++ cut) <= isize_max ->
  let data := boxes_bytes (map item_box its) ++ cut in
  let self' := after_file (clear_boxes self) 0 its in
  exists fuel, parse self data =
    (let! x := (let! parsed := parse_box self' data (Cursor (zlen (boxes_bytes (map item_box its)))) in
                match parsed with
                | (self, c, ROk box_info) => Done (Continue (c, record_box self box_info))
                | (self, _, RErr _) => Done (Break self)
                end) in
     let! self := match x with Continue st => loop fuel (parse_round data) st | Break r => Done r end in
     Done (self, ROk tt)).
Proof.
  intros His Hpos Hlen data self'. unfold parse.
  assert (Hwf : Forall wf_box (map item_box its)).
  { rewrite list.Forall_forall in His. apply list.Forall_forall. intros b (i & -> & Hi)%elem_of_map. by apply His. }
  pose proof (length_boxes_bytes _ Hwf) as Hl. rewrite length_map in Hl.
  pose proof (parse_loop_std (Datatypes.S (length data)) its cut [] (clear_boxes self)) as Hp.
  cbn [app] in Hp. fold data in Hp. change (zlen []) with 0 in Hp.
  assert (Hdl : (length its <= length data)%nat) by (unfold data; rewrite length_app; lia).
  rewrite Hp by (done || lia). clear Hp. fold self'. rewrite Nat.sub_succ_l by done. exists (length data - length its)%nat.
  cbn [loop]. unfold parse_round at 1. cbn [position].
  destruct (Z.leb_spec (zlen data) (zlen (boxes_bytes (map item_box its)))) as [Hle|_]; [unfold data in Hle; zlia|].
  destruct (parse_box self' data _) as [[[s c] [b|e]]| |]; cbn [exec_bind]; done.
Qed.

(** The header of the box [parse_box] stands on. *)
Lemma parse_box_head pre n ty rest : is_u32 n -> zlen ty = 4 ->
  let data := pre ++ be_bytes 4 n ++ ty ++ rest in
  read_exact data (Cursor (zlen pre)) 8 = (Cursor (zlen pre + 8), Some (be_bytes 4 n ++ ty)) /\
  be32_at (be_bytes 4 n ++ ty) 0 = Done n /\ slice (be_bytes 4 n ++ ty) 4 8 = Done ty.
Proof.
  intros Hn Hty data. split; [|split].
  - unfold data. rewrite (app_assoc (be_bytes 4 n)). apply read_exact_app. zlia.
  - by apply be32_at_be_bytes.
  - pose proof (slice_app_mid (be_bytes 4 n) ty [] 4 8) as Hsl. rewrite app_nil_r in Hsl. apply Hsl; zlia.
Qed.

(** ** Properties *)

(** C3: Parsing a file of well-formed boxes, its movie made of tracks as a
    multiplexer writes them, records every top-level box with its offset and
    content and finds exactly the movie's tracks: id, handler, time scale,
    duration, detected codec and sample table of each, in order. The file
    counts as fragmented when it has a [moof] box, or when the parser had
    already seen a fragmented file: [parse] does not reset the flag. *)
Theorem parse_file self its : Forall item_ok its -> zlen (boxes_bytes (map item_box its)) <= isize_max ->
  exists self', parse self (boxes_bytes (map item_box its)) = Done (self', ROk tt) /\
    tracks self' = file_tracks its /\
    boxes self' = recorded_boxes 0 (map item_box its) /\
    is_fragmented self'
      = is_fragmented self || existsb (fun i => str_eqb (fst (item_box i)) (str "moof")) its.
Proof.
  intros His Hlen. exists (after_file (clear_boxes self) 0 its). split.
  - unfold parse.
    assert (Hwf : Forall wf_box (map item_box its)).
    { rewrite list.Forall_forall in His. apply list.Forall_forall. intros b (i & -> & Hi)%elem_of_map. by apply His. }
    pose proof (length_boxes_bytes _ Hwf) as Hl. rewrite length_map in Hl.
    pose proof (parse_loop_std (Datatypes.S (length (boxes_bytes (map item_box its)))) its [] [] (clear_boxes self)) as Hp.
    cbn [app] in Hp. rewrite app_nil_r in Hp. change (zlen []) with 0 in Hp. rewrite Hp by (done || lia).
    rewrite Nat.sub_succ_l by lia. cbn [loop]. unfold parse_round at 1. cbn [position].
    by destruct (Z.leb_spec (zlen (boxes_bytes (map item_box its))) (zlen (boxes_bytes (map item_box its)))); [|lia].
  - apply (after_file_spec its (clear_boxes self) 0).
Qed.

(** A file cut off inside its last box parses without an error: the boxes
    before are recorded as if the file ended there. *)
Theorem parse_truncated self its n ty rest : Forall item_ok its ->
  8 <= n <= u32_max -> zlen ty = 4 -> zlen rest < n - 8 ->
  zlen (boxes_bytes (map item_box its) ++ be_bytes 4 n ++ ty ++ rest) <= isize_max ->
  exists self', parse self (boxes_bytes (map item_box its) ++ be_bytes 4 n ++ ty ++ rest) = Done (self', ROk tt) /\
    tracks self' = file_tracks its /\ boxes self' = recorded_boxes 0 (map item_box its).
Proof.
  intros His Hn Hty Hrest Hlen. exists (after_file (clear_boxes self) 0 its). split.
  2:{ by destruct (after_file_spec its (clear_boxes self) 0) as (-> & -> & _). }
  pose proof (zlen_nonneg rest). set (pre := boxes_bytes (map item_box its)) in *. pose proof (zlen_nonneg pre).
  destruct (parse_reaches self its (be_bytes 4 n ++ ty ++ rest) His ltac:(zlia) Hlen) as (fuel & Hp).
  fold pre in Hp. rewrite Hp. clear Hp. unfold parse_box. cbn [position].
  destruct (parse_box_head pre n ty rest) as (-> & -> & ->); [unfold is_u32; lia|done|]. cbn [exec_bind].
  destruct (Z.eqb_spec n 1); [lia|].
  assert (Hl : zlen (pre ++ be_bytes 4 n ++ ty ++ rest) = zlen pre + 8 + zlen rest) by zlia. rewrite Hl in *.
  unfold add_u64, sub_u64. do 3 (rewrite checked_done by (unfold u64_max, isize_max, u32_max in *; lia); cbn [exec_bind]).
  replace (n - (zlen pre + 8 - zlen pre)) with (n - 8) by lia.
  rewrite read_vec_small by (unfold isize_max, u32_max in *; lia). cbn [exec_bind].
  unfold read_exact. cbn [position]. rewrite zlen_zdrop by (rewrite Hl; lia). rewrite Hl.
  by destruct (Z.leb_spec (n - 8) (zlen pre + 8 + zlen rest - Z.min (zlen pre + 8) (zlen pre + 8 + zlen rest))); [lia|].
Qed.

(** A box size below that of its header panics [parse] by underflow: sizes 0
    (which the format allows for a last box) and 2 to 7, and 64-bit sizes below
    16, wherever in the file they come. *)
Theorem parse_small_size_panics self its n ty rest : Forall item_ok its ->
  zlen ty = 4 -> (n = 0 \/ 2 <= n < 8) \/ (n = 1 /\ exists e r, rest = be_bytes 8 e ++ r /\ 0 <= e < 16) ->
  zlen (boxes_bytes (map item_box its) ++ be_bytes 4 n ++ ty ++ rest) <= isize_max ->
  parse self (boxes_bytes (map item_box its) ++ be_bytes 4 n ++ ty ++ rest) = Panic.
Proof.
  intros His Hty Hn Hlen.
  pose proof (zlen_nonneg rest). set (pre := boxes_bytes (map item_box its)) in *. pose proof (zlen_nonneg pre).
  destruct (parse_reaches self its (be_bytes 4 n ++ ty ++ rest) His ltac:(zlia) Hlen) as (fuel & Hp).
  fold pre in Hp. rewrite Hp. clear Hp. unfold parse_box. cbn [position].
  destruct (parse_box_head pre n ty rest) as (-> & -> & ->); [unfold is_u32, u32_max; lia|done|]. cbn [exec_bind].
  assert (Hl : zlen (pre ++ be_bytes 4 n ++ ty ++ rest) = zlen pre + 8 + zlen rest) by zlia. rewrite Hl in *.
  unfold add_u64, sub_u64. destruct Hn as [Hn | (-> & e & r & -> & He)].
  - destruct (Z.eqb_spec n 1); [lia|].
    do 2 (rewrite checked_done by (unfold u64_max, isize_max, u32_max in *; lia); cbn [exec_bind]).
    by rewrite checked_panic by (unfold u64_max; lia).
  - cbn [Z.eqb Pos.eqb].
    pose proof (read_exact_app (pre ++ be_bytes 4 1 ++ ty) (be_bytes 8 e) r 8 eq_refl) as Hr.
    rewrite !zlen_app, zlen_be_bytes, Hty in Hr. rewrite <- !app_assoc in Hr.
    replace (zlen pre + (Z.of_nat 4 + 4)) with (zlen pre + 8) in Hr by lia. rewrite Hr.
    pose proof (be64_at_be_bytes e []) as He64. rewrite app_nil_r in He64.
    rewrite He64 by (unfold is_u64, u64_max; lia). cbn [exec_bind]. rewrite zlen_app, zlen_be_bytes in *.
    do 2 (rewrite checked_done by (unfold u64_max, isize_max, u32_max in *; zlia); cbn [exec_bind]).
    by rewrite checked_panic by (unfold u64_max; lia).
Qed.

(** ** Termination on arbitrary bytes *)

Lemma bind_completes {A B} (x : exec A) (k : A -> exec B) :
  completes x -> (forall a, x = Done a -> completes (k a)) -> completes (exec_bind x k).
Proof. destruct x as [a| |]; cbn; [auto|done|done]. Qed.

Lemma stbl_child_completes mt st ty c : Forall is_byte c -> completes (stbl_child mt st ty c).
Proof.
  intros Hb. destruct st as [cr t]. unfold stbl_child.
  destruct (table_parsers_return c Hb) as (H1 & H2 & H3 & H4 & H5 & H6 & H7).
  pose proof (parse_stsd_completes c mt Hb).
  repeat case_match; try done; (apply bind_completes; [|done]);
    first [done | match goal with H : returns ?x _ |- completes ?x => by destruct H as (? & -> & _) end].
Qed.

Ltac walk :=
  apply cursor_boxes_completes; [lia|done| |try done].
Ltac skip_box := split; [done|]; intros ? ? [= <- _]; apply seek_current_ge; unfold is_u32 in *; lia.

Lemma parse_stbl_completes self data mt : Forall is_byte data -> completes (parse_stbl_box self data mt).
Proof.
  intros Hb. unfold parse_stbl_box. walk. intros st c size ty Hc Hs.
  destruct (read_vec_cases data c size Hb) as (c' & [bs|] & -> & Hp & Ho); [lia|done| |done]. cbn [exec_bind].
  pose proof (stbl_child_completes mt st ty bs (proj1 Ho)).
  destruct (stbl_child mt st ty bs); try done. split; [done|]. intros ? ? [= <- _]. lia.
Qed.

Lemma parse_minf_completes self data mt : Forall is_byte data -> completes (parse_minf_box self data mt).
Proof.
  intros Hb. unfold parse_minf_box. walk. intros _ c size ty Hc Hs. case_match; [|skip_box].
  destruct (read_vec_cases data c size Hb) as (c' & [bs|] & -> & Hp & Ho); [lia|done| |]; cbn [exec_bind].
  - pose proof (parse_stbl_completes self bs mt (proj1 Ho)). by destruct (parse_stbl_box self bs mt).
  - split; [done|]. intros ? ? [= <- _]. lia.
Qed.


Lemma mdhd_returns data c size : Forall is_byte data -> 0 <= position c <= zlen data -> is_u32 size ->
  exists c' r, parse_mdhd_box data c size = Done (c', r) /\ position c <= position c'.
Proof.
  intros Hb Hc Hs. unfold parse_mdhd_box. destruct (Z.ltb_spec size 20); [by do 2 eexists|].
  destruct (read_vec_cases data c size Hb Hc Hs) as (c' & [bs|] & -> & Hp & Ho); cbn [exec_bind]; [|by do 2 eexists].
  destruct (be32_at_done bs 12) as [x ->]; [lia|lia|]. cbn [exec_bind].
  destruct (be32_at_done bs 16) as [y ->]; [lia|lia|]. cbn [exec_bind]. by do 2 eexists.
Qed.

Lemma hdlr_returns data c size : Forall is_byte data -> 0 <= position c <= zlen data -> is_u32 size ->
  exists c' r, parse_hdlr_box data c size = Done (c', r) /\ position c <= position c'.
Proof.
  intros Hb Hc Hs. unfold parse_hdlr_box. destruct (Z.ltb_spec size 12); [by do 2 eexists|].
  destruct (read_vec_cases data c size Hb Hc Hs) as (c' & [bs|] & -> & Hp & Ho); cbn [exec_bind]; [|by do 2 eexists].
  destruct (slice_returns bs 8 12) as (m & -> & _); [lia|lia|]. cbn [exec_bind]. by do 2 eexists.
Qed.

Lemma tkhd_returns data c size : Forall is_byte data -> 0 <= position c <= zlen data -> is_u32 size ->
  exists c' r, parse_tkhd_box data c size = Done (c', r) /\ position c <= position c'.
Proof.
  intros Hb Hc Hs. unfold parse_tkhd_box. destruct (Z.ltb_spec size 12); [by do 2 eexists|].
  destruct (read_vec_cases data c size Hb Hc Hs) as (c' & [bs|] & -> & Hp & Ho); cbn [exec_bind]; [|by do 2 eexists].
  destruct (Z.leb_spec 16 (zlen bs)); [|by do 2 eexists].
  destruct (be32_at_done bs 12) as [x ->]; [lia|lia|]. cbn [exec_bind]. by do 2 eexists.
Qed.

Lemma parse_mdia_completes self data : Forall is_byte data -> completes (parse_mdia_box self data).
Proof.
  intros Hb. unfold parse_mdia_box. walk; [|by intros []]. intros [self' m] c size ty Hc Hs.
  assert (Hge : forall c', position c <= position c' -> position c <= position (seek_current c' size)).
  { intros c' Hp. etrans; [done|]. apply seek_current_ge; unfold is_u32 in *; lia. }
  case_match.
  { destruct (mdhd_returns data c size Hb) as (c' & [[ts d]|e] & -> & Hp); [lia|done|..]; cbn [exec_bind];
      (split; [done|]); intros ? ? [= <- _]; auto. }
  case_match.
  { destruct (hdlr_returns data c size Hb) as (c' & [h|e] & -> & Hp); [lia|done|..]; cbn [exec_bind];
      (split; [done|]); intros ? ? [= <- _]; auto. }
  case_match; [|skip_box].
  destruct (read_vec_cases data c size Hb) as (c' & [bs|] & -> & Hp & Ho); [lia|done| |]; cbn [exec_bind].
  - pose proof (parse_minf_completes self' bs (md_media_type m) (proj1 Ho)).
    destruct (parse_minf_box self' bs (md_media_type m)) as [[? [|]]| |]; try done; cbn [exec_bind];
      (split; [done|]); intros ? ? [= <- _]; lia.
  - split; [done|]. intros ? ? [= <- _]. lia.
Qed.

Lemma parse_trak_completes self data : Forall is_byte data -> completes (parse_trak_box self data).
Proof.
  intros Hb. unfold parse_trak_box. walk; [|by intros [[] ?]]. intros [[self' id] m] c size ty Hc Hs.
  assert (Hge : forall c', position c <= position c' -> position c <= position (seek_current c' size)).
  { intros c' Hp. etrans; [done|]. apply seek_current_ge; unfold is_u32 in *; lia. }
  case_match.
  { destruct (tkhd_returns data c size Hb) as (c' & [h|e] & -> & Hp); [lia|done|..]; cbn [exec_bind];
      (split; [done|]); intros ? ? [= <- _]; auto. }
  case_match; [|skip_box].
  destruct (read_vec_cases data c size Hb) as (c' & [bs|] & -> & Hp & Ho); [lia|done| |]; cbn [exec_bind].
  - pose proof (parse_mdia_completes self' bs (proj1 Ho)).
    destruct (parse_mdia_box self' bs) as [[? [|]]| |]; try done; cbn [exec_bind];
      (split; [done|]); intros ? ? [= <- _]; lia.
  - split; [done|]. intros ? ? [= <- _]. lia.
Qed.

Lemma parse_moov_completes self data : Forall is_byte data -> completes (parse_moov_box self data).
Proof.
  intros Hb. unfold parse_moov_box. walk. intros self' c size ty Hc Hs. case_match; [|skip_box].
  destruct (read_vec_cases data c size Hb) as (c' & [bs|] & -> & Hp & Ho); [lia|done| |]; cbn [exec_bind].
  - pose proof (parse_trak_completes self' bs (proj1 Ho)).
    destruct (parse_trak_box self' bs) as [[? ?]| |]; try done. cbn [exec_bind].
    split; [done|]. intros ? ? [= <- _]. cbn. lia.
  - split; [done|]. intros ? ? [= <- _]. lia.
Qed.

Lemma parse_content_completes self ty c : Forall is_byte c -> completes (parse_content self ty c).
Proof.
  intros Hb. unfold parse_content. case_match.
  - destruct (parse_ftyp_returns c) as (r & -> & _). done.
  - case_match; [|done]. pose proof (parse_moov_completes self c Hb). by destruct (parse_moov_box self c).
Qed.

Lemma parse_box_completes self data c : Forall is_byte data -> 0 <= position c ->
  completes (parse_box self data c) /\
  forall self' c' b, parse_box self data c = Done (self', c', ROk b) ->
    position c + 8 <= position c' /\ position c + 8 <= zlen data.
Proof.
  intros Hb Hc. unfold parse_box. destruct (read_exact data c 8) as [c1 [hd|]] eqn:E1; [|done].
  pose proof (read_exact_bytes _ _ _ _ _ Hb E1) as Hhb.
  apply read_exact_some in E1 as (Hp1 & Hl1 & Hd1); [|lia|lia].
  destruct (be32_at_returns hd 0 Hhb) as (size & -> & Hsize); [lia|lia|]. cbn [exec_bind].
  destruct (slice_returns hd 4 8) as (ty & -> & _); [lia|lia|]. cbn [exec_bind].
  assert (Hfin : forall c2 actual cs, position c + 8 <= position c2 ->
    let run := (let! header_size := sub_u64 cs (position c) in
        let! content_size := sub_u64 actual header_size in
        let! read := read_vec data c2 content_size in
        match read with
        | (c, None) => Done (self, c, RErr eof_error)
        | (c, Some content_data) =>
            let! parsed := parse_content self (from_utf8_lossy ty) content_data in
            let '(self, content) := parsed in
            Done (self, c, ROk {| header := {| box_type := from_utf8_lossy ty; bh_size := actual;
                                               content_start := cs |}; content := content |})
        end) in
    completes run /\ forall self' c' b, run = Done (self', c', ROk b) ->
      position c + 8 <= position c' /\ position c + 8 <= zlen data).
  { intros c2 actual cs Hc2. unfold sub_u64.
    destruct (checked u64_max (cs - position c)) as [hs| |] eqn:Ec1; [|done|by apply checked_completes in Ec1].
    cbn [exec_bind].
    destruct (checked u64_max (actual - hs)) as [n| |] eqn:Ec2; [|done|by apply checked_completes in Ec2].
    apply checked_inv in Ec2 as [-> Hn]. cbn [exec_bind]. unfold read_vec, alloc. case_match; [|done]. cbn [exec_bind].
    destruct (read_exact data c2 (actual - hs)) as [c3 [bs|]] eqn:E3; [|done].
    pose proof (read_exact_bytes _ _ _ _ _ Hb E3) as Hbs.
    apply read_exact_some in E3 as (Hp3 & _ & _); [|lia|lia].
    pose proof (parse_content_completes self (from_utf8_lossy ty) bs Hbs).
    destruct (parse_content self (from_utf8_lossy ty) bs) as [[s ct]| |]; try done. cbn [exec_bind].
    split; [done|]. intros ? ? ? [= _ <- _]. lia. }
  unfold add_u64. case_match.
  - destruct (read_exact data c1 8) as [c2 [ext|]] eqn:E2; [|done].
    pose proof (read_exact_bytes _ _ _ _ _ Hb E2) as Heb.
    apply read_exact_some in E2 as (Hp2 & Hl2 & Hd2); [|lia|lia]. unfold be64_at.
    destruct (be32_at_returns ext 0 Heb) as (hi & -> & _); [lia|lia|]. cbn [exec_bind].
    destruct (be32_at_returns ext (0 + 4) Heb) as (lo & -> & _); [lia|lia|]. cbn [exec_bind].
    destruct (checked u64_max (position c + 16)) as [cs| |] eqn:Ec; [|done|by apply checked_completes in Ec].
    cbn [exec_bind]. apply Hfin. lia.
  - destruct (checked u64_max (position c + 8)) as [cs| |] eqn:Ec; [|done|by apply checked_completes in Ec].
    cbn [exec_bind]. apply Hfin. lia.
Qed.

(** [parse] terminates on every byte string, hostile nesting included:
    every loop at every level moves its cursor on. *)
Theorem parse_terminates self data : Forall is_byte data -> completes (parse self data).
Proof.
  intros Hb. unfold parse. apply bind_completes; [|done].
  assert (Hround : forall c s, 0 <= position c -> completes (parse_round data (c, s)) /\
    forall c' s', parse_round data (c, s) = Done (Continue (c', s')) ->
      position c < position c' /\ position c < zlen data).
  { intros c s Hc. unfold parse_round. destruct (Z.leb_spec (zlen data) (position c)); [done|].
    destruct (parse_box_completes s data c Hb Hc) as [H1 H2].
    destruct (parse_box s data c) as [[[s1 c1] [b|e]]| |]; try done. cbn [exec_bind].
    split; [done|]. intros ? ? [= <- <-]. specialize (H2 _ _ _ eq_refl). lia. }
  apply (loop_completes _ (fun '(c, _) => 0 <= position c)
    (fun '(c, _) => Z.to_nat (Z.max 0 (zlen data - position c)))); [| |done|cbn; unfold zlen; lia].
  - intros [c s] Hc. by apply Hround.
  - intros [c s] [c' s'] Hc E. destruct (Hround c s Hc) as [_ Hm]. specialize (Hm _ _ E). lia.
Qed.

(** ** Witnesses *)

Definition demo_file_track : file_track := {|
  ft_tkhd_head := replicate 12 0; ft_id := 1; ft_tkhd_tail := [0; 0]; ft_others := [(str "edts", [])];
  ft_mdhd_head := replicate 12 0; ft_timescale := 90000; ft_duration := 1800; ft_mdhd_tail := [];
  ft_hdlr_head := replicate 8 0; ft_handler := str "vide"; ft_hdlr_tail := [0];
  ft_minf_others := [(str "vmhd", [0])]; ft_stsd := replicate 12 0 ++ str "hvc1";
  ft_table := {| sample_sizes := [100; 200]; time_to_sample := [(2, 900)]; sample_to_chunk := [(1, 2, 1)];
                 chunk_offsets := [48]; sync_samples := [1]; composition_offsets := [(2, -3)] |};
  ft_large_offsets := false |}.

Definition demo_file : list file_item :=
  [PlainItem (str "ftyp", str "isom0000"); MoovItem [MovieOther (str "mvhd", [1]); MovieTrack demo_file_track];
   PlainItem (str "mdat", [1; 2; 3])].

Ltac file_demo := box_demo_with ltac:(first
  [ progress unfold item_ok, movie_child_ok, file_track_ok, table_fits, returns
  | progress cbn [ft_large_offsets demo_file_track]
  | eexists; split; [vm_compute; reflexivity | exact I] ]).

Lemma demo_file_ok : Forall item_ok demo_file.
Proof. unfold demo_file. file_demo. Qed.

Lemma parse_file_witness :
  exists self', parse new_parser (boxes_bytes (map item_box demo_file)) = Done (self', ROk tt) /\
    tracks self' = file_tracks demo_file /\
    boxes self' = recorded_boxes 0 (map item_box demo_file) /\
    is_fragmented self'
      = is_fragmented new_parser || existsb (fun i => str_eqb (fst (item_box i)) (str "moof")) demo_file.
Proof. apply parse_file; [exact demo_file_ok | vm_compute; discriminate]. Defined.

Lemma parse_truncated_witness :
  exists self', parse new_parser (boxes_bytes (map item_box demo_file) ++ be_bytes 4 100 ++ str "mdat" ++ [1; 2; 3])
      = Done (self', ROk tt) /\
    tracks self' = file_tracks demo_file /\ boxes self' = recorded_boxes 0 (map item_box demo_file).
Proof. apply parse_truncated; [exact demo_file_ok | box_demo_with fail..]. Defined.

Lemma parse_small_size_panics_witness :
  parse new_parser (boxes_bytes (map item_box demo_file) ++ be_bytes 4 0 ++ str "mdat" ++ [1; 2; 3]) = Panic.
Proof. apply parse_small_size_panics; [exact demo_file_ok | done | by left; left | box_demo_with fail]. Defined.

Lemma parse_terminates_witness : completes (parse new_parser [0; 0; 0; 16; 109; 111; 111; 118; 0; 0; 0; 9; 1; 2; 3; 4; 5]).
Proof. apply parse_terminates. box_demo_with fail. Defined.
