(* ===== verification/Mp4Segments.v ===== *)
(** * Segments for Media Source Extensions

    Models [generate_mse_segments] of [core/src/media/mp4_parser.rs] and the two
    functions it chooses between: [extract_fragmented_segments] for files that
    are already fragmented and [create_fragments_from_regular_mp4], which cuts
    a regular file into one fragment per group of pictures and audio fragments
    of half a second. *)

From S2P Require Import Prelude Rust Mp4Box SampleTable Fmp4 Mp4Data Mp4Moov Mp4Moof Mp4Cursor Mp4Codec.

#[local] Open Scope Z_scope.

Definition init_segment (data : bytes) : MseSegment :=
  {| segment_type := str "initialization"; ms_data := data; ms_timestamp := None; ms_duration := None;
     ms_is_keyframe := true; ms_track_id := 0 |}.

Definition media_segment (data : bytes) (timestamp duration : Z) (key : bool) (track : Z) : MseSegment :=
  {| segment_type := str "media"; ms_data := data; ms_timestamp := Some timestamp; ms_duration := Some duration;
     ms_is_keyframe := key; ms_track_id := track |}.

(** ** Fragmented files *)

(** The checks made on a serialized [ftyp] or [moov] box before it is used. *)
Definition validated (b : Mp4Box) (box_data : bytes) : exec bool :=
  if 8 <=? zlen box_data then
    let! serialized_size := be32_at box_data 0 in
    let! serialized_type := slice box_data 4 8 in
    Done ((serialized_size =? zlen box_data)
          && str_eqb (from_utf8_lossy serialized_type) (box_type (header b)))
  else Done false.

Definition add_validated (init_data : bytes) (b : Mp4Box) : exec bytes :=
  let! box_data := serialize_box b in
  let! ok := validated b box_data in
  Done (if ok then init_data ++ box_data else init_data).

(** The loop that collects the initialization segment. *)
Definition extract_init (has_ac3_audio : bool) (bs : list Mp4Box) : exec bytes :=
  for_each (fun init_data b =>
    if is_type b (str "ftyp") then add_validated init_data b
    else if is_type b (str "moov") then
      match has_ac3_audio, content b with
      | true, Raw content =>
          let! video_only_content := create_video_only_moov content in
          let! video_only_box := wrap_box (str "moov") video_only_content in
          Done (init_data ++ video_only_box)
      | _, _ => add_validated init_data b
      end
    else Done init_data) bs [].

Definition frame_duration_of (video_track : option Mp4Track) (fragment_count : Z) : Z :=
  let timescale := match video_track with Some t => timescale t | None => 1000 end in
  let total_duration := match video_track with Some t => track_duration t | None => 0 end in
  if (0 <? fragment_count) && (0 <? total_duration) then total_duration / fragment_count
  else timescale / 30.

(** One [moof] and [mdat] pair. *)
Definition fragment_segment (moof mdat : Mp4Box) (fragment_index frame_duration timescale : Z)
  : exec (result MseSegment io_error) :=
  let? fixed_moof_data := fix_moof_tfhd_flags moof in
  let! base_media_decode_time := mul_u64 fragment_index frame_duration in
  let? moof_with_tfdt := ensure_moof_has_tfdt fixed_moof_data base_media_decode_time timescale in
  let! mdat_data := serialize_box mdat in
  let media_data := moof_with_tfdt ++ mdat_data in
  let! ms := mul_u64 base_media_decode_time 1000 in
  let! timestamp_ms := div_u64 ms timescale in
  let! dms := mul_u64 frame_duration 1000 in
  let! duration_ms := div_u64 dms timescale in
  Done (ROk (media_segment media_data timestamp_ms duration_ms
               (is_likely_keyframe media_data fragment_index) 1)).

(** The [while] loop over the boxes. *)
Fixpoint fragment_segments (bs : list Mp4Box) (fragment_index frame_duration timescale : Z)
  : exec (result (list MseSegment) io_error) :=
  match bs with
  | [] => Done (ROk [])
  | b :: rest =>
      match rest with
      | m :: rest' =>
          if is_type b (str "moof") && is_type m (str "mdat") then
            let? segment := fragment_segment b m fragment_index frame_duration timescale in
            let! next := add_u64 fragment_index 1 in
            let? segments := fragment_segments rest' next frame_duration timescale in
            Done (ROk (segment :: segments))
          else fragment_segments rest fragment_index frame_duration timescale
      | [] => Done (ROk [])
      end
  end.

Definition extract_fragmented_segments (self : Mp4Parser) : exec (result (list MseSegment) io_error) :=
  let has_ac3_audio := existsb (fun t => is_media (str "soun") t && str_eqb (codec t) (str "AC-3")) (tracks self) in
  let! init_data := extract_init has_ac3_audio (boxes self) in
  let init := match init_data with [] => [] | _ => [init_segment init_data] end in
  let video_track := find_track (str "vide") (tracks self) in
  let timescale := match video_track with Some t => timescale t | None => 1000 end in
  let fragment_count := zlen (List.filter (fun b => is_type b (str "moof")) (boxes self)) in
  let frame_duration := frame_duration_of video_track fragment_count in
  let? segments := fragment_segments (boxes self) 0 frame_duration timescale in
  Done (ROk (init ++ segments)).

(** ** Regular files *)

(** The first loop: serialized [ftyp] boxes, the last [moov], the last [mdat]
    payload. *)
Definition collect_boxes (bs : list Mp4Box) : exec (bytes * option Mp4Box * bytes) :=
  for_each (fun '(init_data, moov, mdat_data) b =>
    if is_type b (str "ftyp") then
      let! data := serialize_box b in Done (init_data ++ data, moov, mdat_data)
    else if is_type b (str "moov") then Done (init_data, Some b, mdat_data)
    else if is_type b (str "mdat") then
      match content b with
      | Raw data => Done (init_data, moov, data)
      | _ => Done (init_data, moov, mdat_data)
      end
    else Done (init_data, moov, mdat_data)) bs ([], None, []).

(** The frames of some samples; [None] when one lies outside the payload.
    [convert] builds the frame from the data and the entry. *)
Fixpoint read_frames (convert : bytes -> SampleEntry -> FrameData) (mdat_data : bytes) (mdat_offset : Z)
    (ses : list SampleEntry) : exec (option (list FrameData)) :=
  match ses with
  | [] => Done (Some [])
  | se :: ses' =>
      let! local_offset := sub_u64 (offset se) mdat_offset in
      let! last := add_u64 local_offset (size se) in
      if zlen mdat_data <? last then Done None
      else
        let! data := slice mdat_data local_offset last in
        let! rest := read_frames convert mdat_data mdat_offset ses' in
        match rest with
        | Some frames => Done (Some (convert data se :: frames))
        | None => Done None
        end
  end.

Definition video_frame (data : bytes) (se : SampleEntry) : FrameData :=
  new_frame data (duration se) (is_keyframe se) (composition_offset se).
Definition audio_frame (data : bytes) (se : SampleEntry) : FrameData :=
  new_frame data (duration se) true 0.

(** The state of the loop over the samples. *)
Record gop_state : Type := {
  gs_segments : list MseSegment;
  gs_converter : FragmentedMp4Converter;
  gop_start : Z;
  decode_time : Z;
}.

(** One group: its frames become a segment unless a sample is out of bounds. *)
Definition emit_gop (mdat_data : bytes) (mdat_offset timescale track_id : Z) (gop_samples : list SampleEntry)
    (st : gop_state) : exec (gop_state * result unit io_error) :=
  let! read := read_frames video_frame mdat_data mdat_offset gop_samples in
  match read with
  | Some ((_ :: _) as frames) =>
      let! gop_duration := checked_sum u64_max (map fd_duration frames) in
      let! ms := mul_u64 (decode_time st) 1000 in
      let! timestamp_ms := div_u64 ms timescale in
      let! r := create_fragment_v2 (gs_converter st) frames track_id timescale in
      match r with
      | (conv, RErr e) =>
          Done ({| gs_segments := gs_segments st; gs_converter := conv; gop_start := gop_start st;
                   decode_time := decode_time st |}, RErr e)
      | (conv, ROk fragment_data) =>
          let! next := add_u64 (decode_time st) gop_duration in
          Done ({| gs_segments := gs_segments st ++ [media_segment fragment_data timestamp_ms gop_duration true track_id];
                   gs_converter := conv; gop_start := gop_start st; decode_time := next |}, ROk tt)
      end
  | _ => Done (st, ROk tt)
  end.

(** One round of [for i in 0..=sample_entries.len()]. *)
Definition gop_round (mdat_data : bytes) (mdat_offset timescale track_id : Z) (entries : list SampleEntry)
    (st : gop_state) (i : Z) : exec (gop_state * result unit io_error) :=
  let! is_gop_boundary :=
    if i =? zlen entries then Done true
    else if i =? 0 then Done false
    else let! se := index entries i in Done (is_keyframe se) in
  if is_gop_boundary && (gop_start st <? i) then
    let! gop_samples := slice entries (gop_start st) i in
    let! r := emit_gop mdat_data mdat_offset timescale track_id gop_samples st in
    match r with
    | (st, RErr e) => Done (st, RErr e)
    | (st, ROk _) =>
        Done ({| gs_segments := gs_segments st; gs_converter := gs_converter st; gop_start := i;
                 decode_time := decode_time st |}, ROk tt)
    end
  else Done (st, ROk tt).

(** Rounds over given indices, stopped by the first error. *)
Fixpoint gop_rounds (mdat_data : bytes) (mdat_offset timescale track_id : Z) (entries : list SampleEntry)
    (is_ : list Z) (st : gop_state) : exec (gop_state * result unit io_error) :=
  match is_ with
  | [] => Done (st, ROk tt)
  | i :: is_ =>
      let! r := gop_round mdat_data mdat_offset timescale track_id entries st i in
      match r with
      | (st, RErr e) => Done (st, RErr e)
      | (st, ROk _) => gop_rounds mdat_data mdat_offset timescale track_id entries is_ st
      end
  end.

Definition video_gops (conv : FragmentedMp4Converter) (mdat_data : bytes) (mdat_offset timescale track_id : Z)
    (entries : list SampleEntry) : exec (gop_state * result unit io_error) :=
  gop_rounds mdat_data mdat_offset timescale track_id entries (seqZ 0 (zlen entries + 1))
    {| gs_segments := []; gs_converter := conv; gop_start := 0; decode_time := 0 |}.

(** [slice.chunks(n)]. *)
Fixpoint chunks {A} (fuel : nat) (n : nat) (l : list A) : list (list A) :=
  match fuel, l with
  | _, [] => []
  | O, _ => []
  | Datatypes.S fuel, _ => take n l :: chunks fuel n (drop n l)
  end.

Definition legacy_chunk_size : Z := 64 * 1024.

(** Without a sample table: one fragment per 64 KiB of payload. *)
Fixpoint legacy_chunks (conv : FragmentedMp4Converter) (timescale track_id chunk_index : Z)
    (cs : list bytes) : exec (FragmentedMp4Converter * result (list MseSegment) io_error) :=
  match cs with
  | [] => Done (conv, ROk [])
  | chunk :: cs =>
      let! timestamp_ms := mul_u64 chunk_index 1000 in
      let frame := new_frame chunk timescale (chunk_index =? 0) 0 in
      let! r := create_fragment conv [frame] track_id timescale in
      match r with
      | (conv, RErr e) => Done (conv, RErr e)
      | (conv, ROk fragment_data) =>
          let! rest := legacy_chunks conv timescale track_id (chunk_index + 1) cs in
          match rest with
          | (conv, RErr e) => Done (conv, RErr e)
          | (conv, ROk segments) =>
              Done (conv, ROk (media_segment fragment_data timestamp_ms timescale (chunk_index =? 0) track_id :: segments))
          end
      end
  end.

(** ** Audio *)

Definition samples_per_chunk (audio_timescale : Z) (first : SampleEntry) : Z :=
  Z.max 1 (audio_timescale / 2 / Z.max (duration first) 1).

Record audio_state : Type := {
  as_segments : list MseSegment;
  audio_converter : FragmentedMp4Converter;
  audio_decode_time : Z;
}.

Definition audio_chunk (mdat_data : bytes) (mdat_offset audio_timescale audio_track_id : Z) (st : audio_state)
    (chunk_samples : list SampleEntry) : exec audio_state :=
  let! read := read_frames audio_frame mdat_data mdat_offset chunk_samples in
  match read with
  | Some ((_ :: _) as frames) =>
      let! chunk_duration := checked_sum u64_max (map fd_duration frames) in
      let! ms := mul_u64 (audio_decode_time st) 1000 in
      let! timestamp_ms := div_u64 ms audio_timescale in
      let! r := create_fragment_v2 (audio_converter st) frames audio_track_id audio_timescale in
      let! next := add_u64 (audio_decode_time st) chunk_duration in
      match r with
      | (conv, ROk fragment_data) =>
          Done {| as_segments := as_segments st ++ [media_segment fragment_data timestamp_ms chunk_duration true audio_track_id];
                  audio_converter := conv; audio_decode_time := next |}
      | (conv, RErr _) =>
          Done {| as_segments := as_segments st; audio_converter := conv; audio_decode_time := next |}
      end
  | _ => Done st
  end.

(** The [while chunk_start < audio_samples.len()] loop takes chunks of
    [samples_per_chunk] samples until none are left. *)
Definition audio_segments (mdat_data : bytes) (mdat_offset : Z) (t : Mp4Track) : exec (list MseSegment) :=
  match sample_table t with
  | None => Done []
  | Some ast =>
      let! audio_samples := resolve_sample_offsets ast in
      match audio_samples with
      | [] => Done []
      | first :: _ =>
          let n := samples_per_chunk (timescale t) first in
          let! st := for_each (audio_chunk mdat_data mdat_offset (timescale t) (track_id t))
            (chunks (length audio_samples) (Z.to_nat n) audio_samples)
            {| as_segments := []; audio_converter := new_converter; audio_decode_time := 0 |} in
          Done (as_segments st)
      end
  end.

(** ** The whole function *)

Definition with_converter (self : Mp4Parser) (conv : FragmentedMp4Converter) : Mp4Parser :=
  {| boxes := boxes self; tracks := tracks self; is_fragmented := is_fragmented self;
     fmp4_converter := conv; mdat_payload_offset := mdat_payload_offset self;
     pending_sample_table := pending_sample_table self |}.

(** The video part: groups of pictures, or chunks when there is no table. *)
Definition video_segments (self : Mp4Parser) (mdat_data : bytes)
  : exec (Mp4Parser * result (list MseSegment) io_error) :=
  let video_track := find_track (str "vide") (tracks self) in
  let timescale := match video_track with Some t => timescale t | None => 1000 end in
  let track_id := match video_track with Some t => track_id t | None => 1 end in
  match match video_track with Some t => sample_table t | None => None end with
  | Some st =>
      let! sample_entries := resolve_sample_offsets st in
      match sample_entries with
      | [] => Done (self, RErr (invalid_data (str "Sample table resolved to zero samples")))
      | _ =>
          let! r := video_gops (fmp4_converter self) mdat_data (mdat_payload_offset self) timescale track_id sample_entries in
          match r with
          | (st, RErr e) => Done (with_converter self (gs_converter st), RErr e)
          | (st, ROk _) => Done (with_converter self (gs_converter st), ROk (gs_segments st))
          end
      end
  | None =>
      let! r := legacy_chunks (fmp4_converter self) timescale track_id 0
        (chunks (length mdat_data) (Z.to_nat legacy_chunk_size) mdat_data) in
      let '(conv, segments) := r in Done (with_converter self conv, segments)
  end.

(** The audio part, which the video-only mode leaves out. *)
Definition audio_part (self : Mp4Parser) (has_ac3_audio : bool) (mdat_data : bytes) : exec (list MseSegment) :=
  if has_ac3_audio then Done []
  else match find_track (str "soun") (tracks self) with
       | Some t => audio_segments mdat_data (mdat_payload_offset self) t
       | None => Done []
       end.

Definition create_fragments_from_regular_mp4 (self : Mp4Parser)
  : exec (Mp4Parser * result (list MseSegment) io_error) :=
  let has_ac3_audio := has_ac3_params self in
  let! collected := collect_boxes (boxes self) in
  let '(ftyp_data, original_moov, mdat_data) := collected in
  match original_moov with
  | None => Done (self, RErr (invalid_data (str "No moov box found in MP4")))
  | Some moov_box =>
      let! moov := create_mse_compatible_moov self moov_box in
      match moov with
      | RErr e => Done (self, RErr e)
      | ROk mse_moov =>
          let init_data := ftyp_data ++ mse_moov in
          let init := match init_data with [] => [] | _ => [init_segment init_data] end in
          match mdat_data with
          | [] => Done (self, ROk init)
          | _ =>
              let! video := video_segments self mdat_data in
              match video with
              | (self, RErr e) => Done (self, RErr e)
              | (self, ROk video) =>
                  let! audio := audio_part self has_ac3_audio mdat_data in
                  Done (self, ROk (init ++ video ++ audio))
              end
          end
      end
  end.

Definition generate_mse_segments (self : Mp4Parser) : exec (Mp4Parser * result (list MseSegment) io_error) :=
  if is_fragmented self then
    let! r := extract_fragmented_segments self in Done (self, r)
  else create_fragments_from_regular_mp4 self.

(** ** Reference: groups of pictures *)

(** A group ends before the next keyframe; [cur] is the group being built. *)
Fixpoint gops_from (cur es : list SampleEntry) : list (list SampleEntry) :=
  match es with
  | [] => match cur with [] => [] | _ => [cur] end
  | e :: es' =>
      match cur with
      | [] => gops_from [e] es'
      | _ => if is_keyframe e then cur :: gops_from [e] es' else gops_from (cur ++ [e]) es'
      end
  end.

Definition gops (es : list SampleEntry) : list (list SampleEntry) := gops_from [] es.

Lemma gops_from_concat cur es : concat (gops_from cur es) = cur ++ es.
Proof.
  revert cur. induction es as [|e es IH]; intros cur; cbn [gops_from].
  - destruct cur as [|c cur]; [done|]. cbn [concat]. done.
  - destruct cur as [|c cur]; [apply IH|]. case_match; [cbn [concat]; by rewrite IH|].
    by rewrite IH, <- app_assoc.
Qed.

(** A group after the first starts with a keyframe; within a group no other
    sample is one. *)
Definition starts_key (g : list SampleEntry) : Prop :=
  match g with [] => False | e :: _ => is_keyframe e = true end.
Definition no_inner_key (g : list SampleEntry) : Prop := Forall (fun e => is_keyframe e = false) (tail g).

Lemma gops_from_spec es : forall cur, cur <> [] -> no_inner_key cur ->
  Forall (fun g => g <> [] /\ no_inner_key g) (gops_from cur es) /\
  Forall starts_key (tail (gops_from cur es)) /\
  exists g gs, gops_from cur es = g :: gs /\ head g = head cur.
Proof.
  induction es as [|e es IH]; intros cur Hne Hk; cbn [gops_from].
  - destruct cur as [|c cur]; [done|]. split; [by apply Forall_singleton|]. split; [done|]. by do 2 eexists.
  - destruct cur as [|c cur]; [done|]. destruct (is_keyframe e) eqn:Ee.
    + destruct (IH [e] ltac:(discriminate) ltac:(apply List.Forall_nil)) as (H1 & H2 & (g & gs & Hg & Hh)). rewrite Hg in *. cbn [tail] in *.
      split; [by apply List.Forall_cons|]. split; [|by do 2 eexists].
      apply List.Forall_cons; [|done]. cbn in Hh. by destruct g; [|injection Hh as ->].
    + apply (IH ((c :: cur) ++ [e])); [done|]. unfold no_inner_key in *. cbn in *.
      apply list.Forall_app. split; [done|]. by apply Forall_singleton.
Qed.

(** What the payload holds for a sample. *)
Definition sample_bytes (mdat_data : bytes) (mdat_offset : Z) (se : SampleEntry) : bytes :=
  ztake (size se) (zdrop (offset se - mdat_offset) mdat_data).

Definition sample_in (mdat_data : bytes) (mdat_offset : Z) (se : SampleEntry) : Prop :=
  0 <= mdat_offset <= offset se /\ 0 <= size se /\ offset se - mdat_offset + size se <= zlen mdat_data.

Definition frames_of (convert : bytes -> SampleEntry -> FrameData) (mdat_data : bytes) (mdat_offset : Z)
    (ses : list SampleEntry) : list FrameData :=
  map (fun se => convert (sample_bytes mdat_data mdat_offset se) se) ses.

Lemma read_frames_in convert mdat_data mdat_offset ses : zlen mdat_data <= isize_max ->
  Forall (sample_in mdat_data mdat_offset) ses ->
  read_frames convert mdat_data mdat_offset ses = Done (Some (frames_of convert mdat_data mdat_offset ses)).
Proof.
  intros Hlen. induction 1 as [|se ses (Ho & Hs & Hb) _ IH]; [done|]. cbn [read_frames frames_of map].
  unfold sub_u64, add_u64, isize_max in *. rewrite checked_done by (unfold u64_max; lia). cbn [exec_bind].
  rewrite checked_done by (unfold u64_max; lia). cbn [exec_bind].
  destruct (Z.ltb_spec (zlen mdat_data) (offset se - mdat_offset + size se)); [lia|].
  unfold slice. replace ((0 <=? _) && (_ <=? _) && (_ <=? zlen mdat_data)) with true
    by (symmetry; rewrite !andb_true_iff, !Z.leb_le; lia). cbn [exec_bind].
  rewrite IH. cbn [exec_bind]. unfold sample_bytes, frames_of.
  by replace (offset se - mdat_offset + size se - (offset se - mdat_offset)) with (size se) by lia.
Qed.

(** A sample outside the payload, after samples inside it, drops the group. *)
Lemma read_frames_out convert mdat_data mdat_offset before se after : zlen mdat_data <= isize_max ->
  Forall (sample_in mdat_data mdat_offset) before ->
  0 <= mdat_offset <= offset se -> is_u64 (offset se - mdat_offset + size se) -> 0 <= size se ->
  zlen mdat_data < offset se - mdat_offset + size se ->
  read_frames convert mdat_data mdat_offset (before ++ se :: after) = Done None.
Proof.
  intros Hlen Hin Ho Hu Hs Hout. unfold is_u64, isize_max in *. induction Hin as [|e before (Heo & Hes & Heb) _ IH]; cbn [app read_frames].
  - unfold sub_u64, add_u64. rewrite checked_done by lia. cbn [exec_bind].
    rewrite checked_done by lia. cbn [exec_bind].
    by destruct (Z.ltb_spec (zlen mdat_data) (offset se - mdat_offset + size se)); [|lia].
  - unfold sub_u64, add_u64. rewrite checked_done by (unfold u64_max; lia). cbn [exec_bind].
    rewrite checked_done by (unfold u64_max; lia). cbn [exec_bind].
    destruct (Z.ltb_spec (zlen mdat_data) (offset e - mdat_offset + size e)); [lia|].
    unfold slice. replace ((0 <=? _) && (_ <=? _) && (_ <=? zlen mdat_data)) with true
      by (symmetry; rewrite !andb_true_iff, !Z.leb_le; lia). cbn [exec_bind]. by rewrite IH.
Qed.

(** ** The sample loop is a fold over the groups *)

Section Gops.
Context (mdat_data : bytes) (mdat_offset timescale track_id : Z).

Definition with_start (st : gop_state) (i : Z) : gop_state :=
  {| gs_segments := gs_segments st; gs_converter := gs_converter st; gop_start := i; decode_time := decode_time st |}.

Fixpoint emit_all (groups : list (list SampleEntry)) (st : gop_state) : exec (gop_state * result unit io_error) :=
  match groups with
  | [] => Done (st, ROk tt)
  | g :: groups =>
      let! r := emit_gop mdat_data mdat_offset timescale track_id g st in
      match r with
      | (st, RErr e) => Done (st, RErr e)
      | (st', ROk _) => emit_all groups (with_start st' (gop_start st + zlen g))
      end
  end.

Lemma emit_gop_start g st st' r : emit_gop mdat_data mdat_offset timescale track_id g st = Done (st', r) ->
  gop_start st' = gop_start st.
Proof using Type.
  unfold emit_gop. destruct (read_frames _ _ _ _) as [[[|f fs]|]| |]; try done; cbn [exec_bind]; try (by intros [= <- _]).
  destruct (checked_sum _ _); try done. cbn [exec_bind]. destruct (mul_u64 _ _); try done. cbn [exec_bind].
  destruct (div_u64 _ _); try done. cbn [exec_bind].
  destruct (create_fragment_v2 _ _ _ _) as [[conv [d|e]]| |]; try done; cbn [exec_bind].
  - destruct (add_u64 _ _); try done. cbn [exec_bind]. by intros [= <- _].
  - by intros [= <- _].
Qed.

(** One round, seen from the group being built. *)
Lemma gop_round_inside before cur e rest st : cur <> [] -> gop_start st = zlen before ->
  gop_round mdat_data mdat_offset timescale track_id (before ++ cur ++ e :: rest) st (zlen before + zlen cur)
  = (if is_keyframe e then
       let! r := emit_gop mdat_data mdat_offset timescale track_id cur st in
       match r with
       | (st, RErr e) => Done (st, RErr e)
       | (st, ROk _) => Done (with_start st (zlen before + zlen cur), ROk tt)
       end
     else Done (st, ROk tt)).
Proof using Type.
  intros Hne Hs. pose proof (zlen_nonneg before). pose proof (zlen_nonneg rest).
  assert (Hc : 0 < zlen cur) by (destruct cur; [done|zlia]).
  unfold gop_round. destruct (Z.eqb_spec (zlen before + zlen cur) (zlen (before ++ cur ++ e :: rest))); [zlia|].
  destruct (Z.eqb_spec (zlen before + zlen cur) 0); [lia|].
  rewrite app_assoc, index_mid by zlia. cbn [exec_bind]. destruct (is_keyframe e); [|done].
  rewrite Hs. destruct (Z.ltb_spec (zlen before) (zlen before + zlen cur)); [|lia]. cbn [andb].
  rewrite <- app_assoc, slice_app_mid by done. cbn [exec_bind].
  by destruct (emit_gop _ _ _ _ _ _) as [[s [u|er]]| |].
Qed.

Lemma gop_round_last before cur st : cur <> [] -> gop_start st = zlen before ->
  gop_round mdat_data mdat_offset timescale track_id (before ++ cur) st (zlen before + zlen cur)
  = (let! r := emit_gop mdat_data mdat_offset timescale track_id cur st in
     match r with
     | (st, RErr e) => Done (st, RErr e)
     | (st, ROk _) => Done (with_start st (zlen before + zlen cur), ROk tt)
     end).
Proof using Type.
  intros Hne Hs. assert (Hc : 0 < zlen cur) by (destruct cur; [done|zlia]). unfold gop_round.
  rewrite zlen_app, Z.eqb_refl. cbn [exec_bind]. rewrite Hs.
  destruct (Z.ltb_spec (zlen before) (zlen before + zlen cur)); [|lia]. cbn [andb].
  pose proof (slice_app_mid before cur [] (zlen before) (zlen before + zlen cur) eq_refl eq_refl) as Hsl.
  rewrite app_nil_r in Hsl. rewrite Hsl. cbn [exec_bind].
  by destruct (emit_gop _ _ _ _ _ _) as [[s [u|er]]| |].
Qed.

Lemma seqZ_succ i n : 0 <= n -> seqZ i (n + 1) = i :: seqZ (i + 1) n.
Proof using Type.
  intros. rewrite (seqZ_cons i (n + 1)) by lia. by replace (Z.pred (n + 1)) with n by lia.
Qed.

Lemma gop_rounds_fold rest : forall before cur st, cur <> [] -> gop_start st = zlen before ->
  gop_rounds mdat_data mdat_offset timescale track_id (before ++ cur ++ rest)
    (seqZ (zlen before + zlen cur) (zlen rest + 1)) st
  = emit_all (gops_from cur rest) st.
Proof using Type.
  induction rest as [|e rest IH]; intros before cur st Hne Hs; rewrite seqZ_succ by apply zlen_nonneg;
    cbn [gop_rounds gops_from].
  - rewrite app_nil_r, gop_round_last by done. destruct cur as [|c cur]; [done|]. cbn [emit_all].
    destruct (emit_gop _ _ _ _ _ _) as [[s [u|er]]| |]; try done. cbn [exec_bind seqZ gop_rounds].
    by rewrite Hs.
  - rewrite gop_round_inside by done. destruct cur as [|c cur]; [done|].
    replace (zlen (e :: rest)) with (zlen rest + 1) by zlia.
    destruct (is_keyframe e); cbn [exec_bind emit_all].
    + destruct (emit_gop _ _ _ _ _ _) as [[s [u|er]]| |] eqn:E; try done. cbn [exec_bind].
      apply emit_gop_start in E.
      specialize (IH (before ++ c :: cur) [e] (with_start s (zlen before + zlen (c :: cur)))).
      rewrite <- app_assoc in IH. cbn [app] in IH |- *.
      replace (zlen (before ++ c :: cur) + zlen [e]) with (zlen before + zlen (c :: cur) + 1) in IH by zlia.
      rewrite IH; [by rewrite Hs|done|cbn; zlia].
    + specialize (IH before (c :: cur ++ [e]) st). cbn [app] in *. rewrite <- app_assoc in IH.
      replace (zlen before + zlen (c :: cur ++ [e])) with (zlen before + zlen (c :: cur) + 1) in IH by zlia.
      by apply IH.
Qed.

Lemma video_gops_fold conv entries :
  video_gops conv mdat_data mdat_offset timescale track_id entries
  = emit_all (gops entries) {| gs_segments := []; gs_converter := conv; gop_start := 0; decode_time := 0 |}.
Proof using Type.
  unfold video_gops, gops. set (st := {| gs_segments := []; gs_converter := conv; gop_start := 0; decode_time := 0 |}).
  rewrite seqZ_succ by apply zlen_nonneg. cbn [gop_rounds].
  assert (H0 : gop_round mdat_data mdat_offset timescale track_id entries st 0 = Done (st, ROk tt)).
  { unfold gop_round. destruct (Z.eqb_spec 0 (zlen entries)); cbn [exec_bind]; done. }
  rewrite H0. cbn [exec_bind]. destruct entries as [|e entries]; [done|].
  cbn [gops_from]. replace (zlen (e :: entries)) with (zlen entries + 1) by zlia.
  pose proof (gop_rounds_fold entries [] [e] st) as H. cbn [app] in H.
  change (zlen [] + zlen [e]) with (0 + 1) in H. by rewrite H.
Qed.
End Gops.

(** ** Emitting groups *)

(** Samples at or after the payload, their ends within 64 bits. *)
Definition sample_addressable (mdat_offset : Z) (se : SampleEntry) : Prop :=
  0 <= mdat_offset <= offset se /\ 0 <= size se /\ offset se - mdat_offset + size se <= u64_max.

Definition ends_inside (mdat_data : bytes) (mdat_offset : Z) (se : SampleEntry) : bool :=
  offset se - mdat_offset + size se <=? zlen mdat_data.

(** A group is kept when all its samples lie in the payload. *)
Definition kept_group (mdat_data : bytes) (mdat_offset : Z) (g : list SampleEntry) : bool :=
  forallb (ends_inside mdat_data mdat_offset) g.

Lemma read_frames_spec convert mdat_data mdat_offset g : zlen mdat_data <= isize_max ->
  Forall (sample_addressable mdat_offset) g ->
  read_frames convert mdat_data mdat_offset g
  = Done (if kept_group mdat_data mdat_offset g then Some (frames_of convert mdat_data mdat_offset g) else None).
Proof.
  intros Hlen. induction 1 as [|se g (Ho & Hs & Hu) _ IH]; [done|].
  cbn [read_frames kept_group forallb frames_of map]. unfold ends_inside at 1.
  unfold sub_u64, add_u64. rewrite checked_done by lia. cbn [exec_bind].
  rewrite checked_done by lia. cbn [exec_bind].
  destruct (Z.ltb_spec (zlen mdat_data) (offset se - mdat_offset + size se)) as [Hlt|Hge].
  { destruct (Z.leb_spec (offset se - mdat_offset + size se) (zlen mdat_data)); [lia|done]. }
  destruct (Z.leb_spec (offset se - mdat_offset + size se) (zlen mdat_data)); [|lia]. cbn [andb].
  unfold slice. replace ((0 <=? _) && (_ <=? _) && (_ <=? zlen mdat_data)) with true
    by (symmetry; rewrite !andb_true_iff, !Z.leb_le; lia). cbn [exec_bind].
  rewrite IH. cbn [exec_bind]. fold (kept_group mdat_data mdat_offset g).
  replace (offset se - mdat_offset + size se - (offset se - mdat_offset)) with (size se) by lia.
  by destruct (kept_group mdat_data mdat_offset g).
Qed.

(** The stream the emitted segments form: segment [i] holds the frames of group
    [i], the sequence numbers count up, and both the decode time in the data and
    the time stamp are the durations of the groups before. *)
Definition stream_segments (conv : FragmentedMp4Converter) (timescale track_id start : Z)
    (groups : list (list FrameData)) (segments : list MseSegment) : Prop :=
  length segments = length groups /\
  forall i frames, groups !! i = Some frames ->
    exists data,
      segments !! i = Some (media_segment data ((start + stream_duration (take i groups)) * 1000 / timescale)
                              (total_duration frames) true track_id) /\
      demux data = Some {|
        fg_sequence := sequence_number conv + Z.of_nat i; fg_track := track_id;
        fg_decode_time := base_media_decode_time conv + stream_duration (take i groups);
        fg_samples := map sample_of_frame_v2 frames |}.

Lemma stream_segments_nil conv timescale track_id start : stream_segments conv timescale track_id start [] [].
Proof. split; [done|]. intros i frames Hi. by rewrite lookup_nil in Hi. Qed.

Lemma stream_segments_cons conv timescale track_id start frames groups data segments :
  demux data = Some {|
    fg_sequence := sequence_number conv; fg_track := track_id; fg_decode_time := base_media_decode_time conv;
    fg_samples := map sample_of_frame_v2 frames |} ->
  stream_segments (advanced conv frames) timescale track_id (start + total_duration frames) groups segments ->
  stream_segments conv timescale track_id start (frames :: groups)
    (media_segment data (start * 1000 / timescale) (total_duration frames) true track_id :: segments).
Proof.
  intros Hd [Hl Hall]. split; [cbn; by rewrite Hl|]. intros [|i] frames' Hi; cbn [lookup list_lookup] in Hi.
  - injection Hi as <-. exists data. cbn [take]. change (stream_duration []) with 0. rewrite !Z.add_0_r.
    split; [done|]. rewrite Hd. done.
  - destruct (Hall i frames' Hi) as (d & Hs & Hdm). exists d. cbn [take].
    change (stream_duration (frames :: take i groups)) with (total_duration frames + stream_duration (take i groups)).
    rewrite !Z.add_assoc. split; [exact Hs|]. rewrite Hdm. unfold advanced.
    cbn [sequence_number base_media_decode_time]. do 2 f_equal. lia.
Qed.

(** What the converter and the clock need for a list of groups. *)
Definition groups_fit (conv : FragmentedMp4Converter) (start : Z) (groups : list (list FrameData)) : Prop :=
  Forall (Forall frame_ok) groups /\ Forall fits groups /\
  0 <= sequence_number conv /\ sequence_number conv + zlen groups <= u32_max /\
  0 <= base_media_decode_time conv /\ base_media_decode_time conv + stream_duration groups <= u64_max /\
  0 <= start /\ (start + stream_duration groups) * 1000 <= u64_max.

Lemma groups_fit_cons conv start g gs : groups_fit conv start (g :: gs) ->
  Forall frame_ok g /\ fits g /\ can_advance conv g /\
  0 <= start /\ start * 1000 <= u64_max /\ start + total_duration g <= u64_max /\
  groups_fit (advanced conv g) (start + total_duration g) gs.
Proof.
  intros (Hok & Hfit & Hs0 & Hs & Hb0 & Hb & Ht0 & Ht).
  apply list.Forall_cons in Hok as [Hg Hgs]. apply list.Forall_cons in Hfit as [Hf Hfs].
  pose proof (total_duration_nonneg g Hg). pose proof (stream_duration_nonneg gs Hgs).
  change (stream_duration (g :: gs)) with (total_duration g + stream_duration gs) in *.
  rewrite zlen_cons in Hs. pose proof (zlen_nonneg gs). unfold can_advance, groups_fit, advanced.
  cbn [sequence_number base_media_decode_time]. split_and!; try done; lia.
Qed.

Section Emit.
Context (mdat_data : bytes) (mdat_offset timescale track_id : Z).
Context (Hlen : zlen mdat_data <= isize_max) (Hscale : 1 <= timescale) (Htid : is_u32 track_id).

Definition kept_groups (groups : list (list SampleEntry)) : list (list FrameData) :=
  map (frames_of video_frame mdat_data mdat_offset) (List.filter (kept_group mdat_data mdat_offset) groups).

Lemma emit_gop_kept g st : g <> [] -> Forall (sample_addressable mdat_offset) g ->
  kept_group mdat_data mdat_offset g = true ->
  let frames := frames_of video_frame mdat_data mdat_offset g in
  Forall frame_ok frames -> fits frames -> can_advance (gs_converter st) frames ->
  0 <= decode_time st -> decode_time st * 1000 <= u64_max -> decode_time st + total_duration frames <= u64_max ->
  exists data,
    emit_gop mdat_data mdat_offset timescale track_id g st
    = Done ({| gs_segments := gs_segments st ++ [media_segment data (decode_time st * 1000 / timescale)
                                                   (total_duration frames) true track_id];
               gs_converter := advanced (gs_converter st) frames; gop_start := gop_start st;
               decode_time := decode_time st + total_duration frames |}, ROk tt) /\
    demux data = Some {|
      fg_sequence := sequence_number (gs_converter st); fg_track := track_id;
      fg_decode_time := base_media_decode_time (gs_converter st);
      fg_samples := map sample_of_frame_v2 frames |}.
Proof using Hlen Hscale Htid.
  intros Hne Haddr Hk frames Hok Hfit Hadv H0 H1 H2. pose proof (total_duration_nonneg frames Hok).
  destruct (create_fragment_v2_demux (gs_converter st) frames track_id timescale Hok Hfit Hadv Htid) as (data & Hc & Hd).
  exists data. split; [|done]. unfold emit_gop. rewrite read_frames_spec, Hk by done. cbn [exec_bind]. fold frames.
  destruct frames as [|f fs] eqn:Ef; [unfold frames in Ef; by destruct g|].
  rewrite checked_sum_done.
  - cbn [exec_bind]. unfold mul_u64, div_u64, add_u64. rewrite checked_done by lia. cbn [exec_bind].
    destruct (Z.eqb_spec timescale 0); [lia|]. cbn [exec_bind]. rewrite Hc. cbn [exec_bind].
    fold (total_duration (f :: fs)). by rewrite checked_done by lia.
  - rewrite Forall_map. eapply Forall_impl; [exact Hok|]. intros x (_ & _ & Hx & _). unfold is_u32 in Hx. cbn. lia.
  - unfold total_duration in *. lia.
Qed.

Lemma emit_all_stream groups : forall st,
  Forall (fun g => g <> [] /\ Forall (sample_addressable mdat_offset) g) groups ->
  groups_fit (gs_converter st) (decode_time st) (kept_groups groups) ->
  exists st', emit_all mdat_data mdat_offset timescale track_id groups st = Done (st', ROk tt) /\
    exists segments, gs_segments st' = gs_segments st ++ segments /\
      stream_segments (gs_converter st) timescale track_id (decode_time st) (kept_groups groups) segments.
Proof using Hlen Hscale Htid.
  induction groups as [|g groups IH]; intros st Hg Hfit.
  - exists st. split; [done|]. exists []. rewrite app_nil_r. split; [done|]. apply stream_segments_nil.
  - apply list.Forall_cons in Hg as [[Hne Haddr] Hg]. cbn [emit_all]. unfold kept_groups in *. cbn [List.filter] in *.
    destruct (kept_group mdat_data mdat_offset g) eqn:Ek; cbn [map] in *.
    + apply groups_fit_cons in Hfit as (Hok & Hf & Hadv & H0 & H1 & H2 & Hrest).
      destruct (emit_gop_kept g st Hne Haddr Ek Hok Hf Hadv H0 H1 H2) as (data & He & Hd). rewrite He. cbn [exec_bind].
      match goal with |- context [emit_all _ _ _ _ groups ?s] => destruct (IH s Hg Hrest) as (st' & Hrun & segs & Hs & Hstr) end.
      exists st'. split; [exact Hrun|]. eexists. split; [rewrite Hs; cbn [with_start gs_segments]; by rewrite <- app_assoc|].
      cbn [app]. by apply stream_segments_cons.
    + assert (He : emit_gop mdat_data mdat_offset timescale track_id g st = Done (st, ROk tt)).
      { unfold emit_gop. by rewrite read_frames_spec, Ek. }
      rewrite He. cbn [exec_bind]. apply (IH (with_start st (gop_start st + zlen g)) Hg Hfit).
Qed.
End Emit.

(** ** Audio chunks *)

Lemma chunks_spec {A} fuel n (l : list A) : (0 < n)%nat -> (length l <= fuel)%nat ->
  concat (chunks fuel n l) = l /\ Forall (fun c => c <> [] /\ (length c <= n)%nat) (chunks fuel n l).
Proof.
  intros Hn. revert l. induction fuel as [|fuel IH]; intros l Hl.
  - destruct l; [done|cbn in Hl; lia].
  - destruct l as [|x l]; [done|]. cbn [chunks concat].
    destruct (IH (drop n (x :: l))) as [Hc Hf]; [rewrite length_drop; cbn in *; lia|].
    rewrite Hc, take_drop. split; [done|]. apply List.Forall_cons; [|done].
    split; [by destruct n; [lia|]|]. rewrite length_take. lia.
Qed.

Section Audio.
Context (mdat_data : bytes) (mdat_offset timescale track_id : Z).
Context (Hlen : zlen mdat_data <= isize_max) (Hscale : 1 <= timescale) (Htid : is_u32 track_id).

Definition kept_audio (groups : list (list SampleEntry)) : list (list FrameData) :=
  map (frames_of audio_frame mdat_data mdat_offset) (List.filter (kept_group mdat_data mdat_offset) groups).

Lemma audio_chunk_kept g st : g <> [] -> Forall (sample_addressable mdat_offset) g ->
  kept_group mdat_data mdat_offset g = true ->
  let frames := frames_of audio_frame mdat_data mdat_offset g in
  Forall frame_ok frames -> fits frames -> can_advance (audio_converter st) frames ->
  0 <= audio_decode_time st -> audio_decode_time st * 1000 <= u64_max ->
  audio_decode_time st + total_duration frames <= u64_max ->
  exists data,
    audio_chunk mdat_data mdat_offset timescale track_id st g
    = Done {| as_segments := as_segments st ++ [media_segment data (audio_decode_time st * 1000 / timescale)
                                                  (total_duration frames) true track_id];
              audio_converter := advanced (audio_converter st) frames;
              audio_decode_time := audio_decode_time st + total_duration frames |} /\
    demux data = Some {|
      fg_sequence := sequence_number (audio_converter st); fg_track := track_id;
      fg_decode_time := base_media_decode_time (audio_converter st);
      fg_samples := map sample_of_frame_v2 frames |}.
Proof using Hlen Hscale Htid.
  intros Hne Haddr Hk frames Hok Hfit Hadv H0 H1 H2. pose proof (total_duration_nonneg frames Hok).
  destruct (create_fragment_v2_demux (audio_converter st) frames track_id timescale Hok Hfit Hadv Htid) as (data & Hc & Hd).
  exists data. split; [|done]. unfold audio_chunk. rewrite read_frames_spec, Hk by done. cbn [exec_bind]. fold frames.
  destruct frames as [|f fs] eqn:Ef; [unfold frames in Ef; by destruct g|].
  rewrite checked_sum_done.
  - cbn [exec_bind]. unfold mul_u64, div_u64, add_u64. rewrite checked_done by lia. cbn [exec_bind].
    destruct (Z.eqb_spec timescale 0); [lia|]. cbn [exec_bind]. rewrite Hc. cbn [exec_bind].
    fold (total_duration (f :: fs)). by rewrite checked_done by lia.
  - rewrite Forall_map. eapply Forall_impl; [exact Hok|]. intros x (_ & _ & Hx & _). unfold is_u32 in Hx. cbn. lia.
  - unfold total_duration in *. lia.
Qed.

Lemma audio_chunks_stream groups : forall st,
  Forall (fun g => g <> [] /\ Forall (sample_addressable mdat_offset) g) groups ->
  groups_fit (audio_converter st) (audio_decode_time st) (kept_audio groups) ->
  exists st', for_each (audio_chunk mdat_data mdat_offset timescale track_id) groups st = Done st' /\
    exists segments, as_segments st' = as_segments st ++ segments /\
      stream_segments (audio_converter st) timescale track_id (audio_decode_time st) (kept_audio groups) segments.
Proof using Hlen Hscale Htid.
  induction groups as [|g groups IH]; intros st Hg Hfit.
  - exists st. split; [done|]. exists []. rewrite app_nil_r. split; [done|]. apply stream_segments_nil.
  - apply list.Forall_cons in Hg as [[Hne Haddr] Hg]. cbn [for_each]. unfold kept_audio in *. cbn [List.filter] in *.
    destruct (kept_group mdat_data mdat_offset g) eqn:Ek; cbn [map] in *.
    + apply groups_fit_cons in Hfit as (Hok & Hf & Hadv & H0 & H1 & H2 & Hrest).
      destruct (audio_chunk_kept g st Hne Haddr Ek Hok Hf Hadv H0 H1 H2) as (data & He & Hd). rewrite He. cbn [exec_bind].
      match goal with |- context [for_each _ groups ?s] => destruct (IH s Hg Hrest) as (st' & Hrun & segs & Hs & Hstr) end.
      exists st'. split; [exact Hrun|]. eexists. split; [rewrite Hs; cbn [as_segments]; by rewrite <- app_assoc|].
      cbn [app]. by apply stream_segments_cons.
    + assert (He : audio_chunk mdat_data mdat_offset timescale track_id st g = Done st).
      { unfold audio_chunk. by rewrite read_frames_spec, Ek. }
      rewrite He. cbn [exec_bind]. by apply IH.
Qed.
End Audio.

(** The chunks of an audio track. *)
Definition audio_groups (timescale : Z) (samples : list SampleEntry) : list (list SampleEntry) :=
  match samples with
  | [] => []
  | first :: _ => chunks (length samples) (Z.to_nat (samples_per_chunk timescale first)) samples
  end.

Lemma audio_groups_spec timescale samples :
  concat (audio_groups timescale samples) = samples /\ Forall (fun g => g <> []) (audio_groups timescale samples).
Proof.
  destruct samples as [|first samples]; [done|]. unfold audio_groups.
  destruct (chunks_spec (length (first :: samples)) (Z.to_nat (samples_per_chunk timescale first)) (first :: samples))
    as [Hc Hf]; [unfold samples_per_chunk; lia|done|].
  split; [done|]. eapply list.Forall_impl; [exact Hf|]. by intros g [Hg _].
Qed.

(** ** Properties *)

(** C6: The index loop over the samples of a track is a fold over its groups of
    pictures: it emits, in order, the groups of a partition of the sample list
    in which every group is non-empty, only the head of a group can be a
    keyframe, and every group but the first starts with one. *)
Theorem video_gops_refines conv mdat_data mdat_offset timescale track_id entries :
  video_gops conv mdat_data mdat_offset timescale track_id entries
    = emit_all mdat_data mdat_offset timescale track_id (gops entries)
        {| gs_segments := []; gs_converter := conv; gop_start := 0; decode_time := 0 |} /\
  concat (gops entries) = entries /\
  Forall (fun g => g <> [] /\ no_inner_key g) (gops entries) /\
  Forall starts_key (tail (gops entries)).
Proof.
  split; [apply video_gops_fold|]. split; [apply gops_from_concat|].
  destruct entries as [|e entries]; [done|]. unfold gops. cbn [gops_from].
  destruct (gops_from_spec entries [e]) as (H1 & H2 & _); [done|apply List.Forall_nil|]. done.
Qed.

Lemma video_gops_done conv mdat_data mdat_offset timescale track_id entries :
  zlen mdat_data <= isize_max -> 1 <= timescale -> is_u32 track_id ->
  Forall (sample_addressable mdat_offset) entries ->
  groups_fit conv 0 (kept_groups mdat_data mdat_offset (gops entries)) ->
  exists st, video_gops conv mdat_data mdat_offset timescale track_id entries = Done (st, ROk tt) /\
    stream_segments conv timescale track_id 0 (kept_groups mdat_data mdat_offset (gops entries)) (gs_segments st).
Proof.
  intros Hlen Hts Htid Haddr Hfit. rewrite video_gops_fold.
  set (st0 := {| gs_segments := []; gs_converter := conv; gop_start := 0; decode_time := 0 |}).
  assert (Hg : Forall (fun g => g <> [] /\ Forall (sample_addressable mdat_offset) g) (gops entries)).
  { destruct entries as [|e entries]; [apply List.Forall_nil|].
    destruct (gops_from_spec entries [e]) as (H1 & _ & _); [done|apply List.Forall_nil|].
    pose proof (gops_from_concat [] (e :: entries)) as Hc. fold (gops (e :: entries)) in Hc. cbn [app] in Hc.
    rewrite <- Hc in Haddr. apply List.Forall_concat in Haddr.
    change (gops_from [e] entries) with (gops (e :: entries)) in H1.
    rewrite list.Forall_forall in *. intros g Hin. split; [by apply H1|by apply Haddr]. }
  destruct (emit_all_stream mdat_data mdat_offset timescale track_id Hlen Hts Htid (gops entries) st0 Hg Hfit)
    as (st & Hrun & segs & Hs & Hstr).
  exists st. split; [done|]. rewrite Hs. exact Hstr.
Qed.

(** When every sample lies at or after the payload, the video part cuts the
    file into a gapless stream: one media segment per group of pictures that
    fits the payload, which demultiplexes to that group's frames with consecutive
    sequence numbers and decode times. A group that does not fit is left out and
    the later ones move up in time. The segment's time stamp is in milliseconds,
    its duration in the track's time scale. *)
Theorem video_gops_stream conv mdat_data mdat_offset timescale track_id entries :
  zlen mdat_data <= isize_max -> 1 <= timescale -> is_u32 track_id ->
  Forall (sample_addressable mdat_offset) entries ->
  groups_fit conv 0 (kept_groups mdat_data mdat_offset (gops entries)) ->
  exists st, video_gops conv mdat_data mdat_offset timescale track_id entries = Done (st, ROk tt) /\
    stream_segments conv timescale track_id 0 (kept_groups mdat_data mdat_offset (gops entries)) (gs_segments st).
Proof. apply video_gops_done. Qed.

(** A first sample before the recorded payload, as when the movie has several
    [mdat] boxes and the samples start in an earlier one, panics by underflow. *)
Theorem video_gops_before_payload conv mdat_data mdat_offset timescale track_id e entries :
  0 <= offset e < mdat_offset ->
  video_gops conv mdat_data mdat_offset timescale track_id (e :: entries) = Panic.
Proof.
  intros He. rewrite video_gops_fold. unfold gops. cbn [gops_from].
  destruct (gops_from_spec entries [e]) as (_ & _ & (g & gs & Hg & Hh)); [done|apply List.Forall_nil|].
  rewrite Hg. cbn in Hh. destruct g as [|x g]; [done|]. injection Hh as ->. cbn [emit_all].
  unfold emit_gop. cbn [read_frames]. unfold sub_u64. by rewrite checked_panic by lia.
Qed.

Lemma audio_segments_done mdat_data mdat_offset t table samples :
  sample_table t = Some table -> resolve_sample_offsets table = Done samples ->
  zlen mdat_data <= isize_max -> 1 <= timescale t -> is_u32 (track_id t) ->
  Forall (sample_addressable mdat_offset) samples ->
  let groups := audio_groups (timescale t) samples in
  groups_fit new_converter 0 (kept_audio mdat_data mdat_offset groups) ->
  concat groups = samples /\ Forall (fun g => g <> []) groups /\
  exists segments, audio_segments mdat_data mdat_offset t = Done segments /\
    stream_segments new_converter (timescale t) (track_id t) 0 (kept_audio mdat_data mdat_offset groups) segments.
Proof.
  intros Ht Hr Hlen Hts Htid Haddr groups Hfit. destruct (audio_groups_spec (timescale t) samples) as [Hc Hne].
  fold groups in Hc, Hne. split; [done|]. split; [done|].
  unfold audio_segments. rewrite Ht, Hr. cbn [exec_bind].
  destruct samples as [|first samples].
  { exists []. split; [done|]. apply stream_segments_nil. }
  assert (Hg : Forall (fun g => g <> [] /\ Forall (sample_addressable mdat_offset) g) groups).
  { rewrite <- Hc in Haddr. apply List.Forall_concat in Haddr.
    rewrite list.Forall_forall in *. intros g Hin. split; [by apply Hne|by apply Haddr]. }
  destruct (audio_chunks_stream mdat_data mdat_offset (timescale t) (track_id t) Hlen Hts Htid groups
    {| as_segments := []; audio_converter := new_converter; audio_decode_time := 0 |} Hg Hfit)
    as (st & Hrun & segs & Hs & Hstr).
  change (chunks _ _ _) with groups. rewrite Hrun. cbn [exec_bind].
  exists (as_segments st). split; [done|]. rewrite Hs. exact Hstr.
Qed.

(** The audio part cuts the resolved samples of a track into chunks, none
    empty and none left out, and emits one segment per chunk that fits the
    payload, with its own sequence numbers from 1 and decode times from 0. *)
Theorem audio_segments_stream mdat_data mdat_offset t table samples :
  sample_table t = Some table -> resolve_sample_offsets table = Done samples ->
  zlen mdat_data <= isize_max -> 1 <= timescale t -> is_u32 (track_id t) ->
  Forall (sample_addressable mdat_offset) samples ->
  let groups := audio_groups (timescale t) samples in
  groups_fit new_converter 0 (kept_audio mdat_data mdat_offset groups) ->
  concat groups = samples /\ Forall (fun g => g <> []) groups /\
  exists segments, audio_segments mdat_data mdat_offset t = Done segments /\
    stream_segments new_converter (timescale t) (track_id t) 0 (kept_audio mdat_data mdat_offset groups) segments.
Proof. apply audio_segments_done. Qed.

(** ** AC-3 *)

Lemma loop_post {S R} (body : S -> exec (step S R)) (Q : R -> Prop) fuel s r :
  (forall s r, body s = Done (Break r) -> Q r) -> loop fuel body s = Done r -> Q r.
Proof.
  intros Hb. revert s. induction fuel as [|fuel IH]; intros s; [done|]. cbn [loop].
  destruct (body s) as [[s'|r']| |] eqn:E; try done; cbn [exec_bind]; [apply IH|]. intros [= <-]. by eapply Hb.
Qed.

(** Profiles are six characters long, object types two. *)
Lemma extract_avc_length data r : extract_avc_profile data = Done r -> zlen r = 6.
Proof.
  unfold extract_avc_profile, cursor_boxes. intros H. refine (loop_post _ (fun r => zlen r = 6) _ _ _ _ H).
  clear. intros [c []] r. unfold cursor_step.
  destruct (zlen data <? position c + 8); [by intros [= <-]|].
  destruct (read_exact data c 4) as [c1 [size_bytes|]]; [|by intros [= <-]].
  destruct (read_exact data c1 4) as [c2 [ty|]]; [|by intros [= <-]].
  destruct (be_val size_bytes <? 8); [by intros [= <-]|].
  case_match; [|done]. destruct (read_vec data c2 (be_val size_bytes - 8)) as [[c3 [config|]]| |]; try done.
  cbn [exec_bind]. case_match; [|done].
  do 3 (destruct (index config _) as [?| |]; [|done|done]; cbn [exec_bind]). by intros [= <-].
Qed.

Lemma parse_stsd_params data mt c mi p : parse_stsd_box data mt = Done (ROk (c, mi, p)) -> p <> Some (str "AC-3").
Proof.
  unfold parse_stsd_box. destruct (zlen data <? 8); [done|].
  destruct (slice_from data 8) as [rd| |]; try done. cbn [exec_bind]. destruct (zlen rd <? 8); [done|].
  destruct (slice rd 4 8) as [fmt| |]; try done. cbn [exec_bind].
  case_match.
  { destruct (slice_from rd 8) as [e| |]; try done. cbn [exec_bind].
    destruct (extract_avc_profile e) as [pl| |] eqn:E; try done. cbn [exec_bind]. intros [= _ _ <-].
    apply extract_avc_length in E. intros [= ->]. done. }
  case_match.
  { match goal with |- context [slice_from rd ?o] => destruct (slice_from rd o) as [e| |]; try done end. cbn [exec_bind].
    destruct (extract_aac_object_type e) as [ot| |]; try done. cbn [exec_bind]. intros [= _ _ <-]. done. }
  repeat (case_match; [by intros [= _ _ <-]|]). done.
Qed.

(** A Dolby Digital track is recognised by its codec and never by its codec
    parameters: [parse_stsd_box] describes an [ac-3] entry with the codec [AC-3]
    and no parameters, and no description it ever makes has the parameters
    [AC-3], so the video-only mode of regular files, which tests them, is never
    entered for parsed tracks: the first audio track is cut into segments
    whatever its codec. *)
Theorem ac3_params_never_set head size rest self t mdat_data :
  zlen head = 8 -> is_u32 size ->
  Forall (fun t => codec_params t = None \/
    exists data mt c mi, parse_stsd_box data mt = Done (ROk (c, mi, codec_params t))) (tracks self) ->
  find_track (str "soun") (tracks self) = Some t ->
  parse_stsd_box (head ++ be_bytes 4 size ++ str "ac-3" ++ rest) (str "soun")
    = Done (ROk (str "AC-3", audio_mime (str "ac-3"), None)) /\
  audio_part self (has_ac3_params self) mdat_data = audio_segments mdat_data (mdat_payload_offset self) t.
Proof.
  intros Hh Hs Htr Ht. split.
  - unfold parse_stsd_box. pose proof (zlen_nonneg rest). set (tail := be_bytes 4 size ++ str "ac-3" ++ rest).
    assert (Htail : zlen tail = 8 + zlen rest) by (subst tail; zlen_simpl; change (zlen (str "ac-3")) with 4; lia).
    destruct (Z.ltb_spec (zlen (head ++ tail)) 8); [zlia|]. unfold slice_from.
    pose proof (slice_app_mid head tail [] 8 (zlen (head ++ tail))) as Hsl. rewrite !app_nil_r in Hsl.
    rewrite Hsl by zlia. cbn [exec_bind]. destruct (Z.ltb_spec (zlen tail) 8); [lia|].
    assert (Hty : slice tail 4 8 = Done (str "ac-3")) by (unfold tail; by rewrite slice_app_mid).
    rewrite Hty. done.
  - enough (has_ac3_params self = false) as -> by (cbn [audio_part]; by rewrite Ht).
    unfold has_ac3_params. clear Ht. induction Htr as [|t' ts Ht _ IH]; [done|]. cbn [existsb]. rewrite IH, orb_false_r.
    destruct (codec_params t') as [p|] eqn:Ep; [|apply andb_false_r].
    destruct Ht as [?|(data & mt & c & mi & Hp)]; [done|]. apply parse_stsd_params in Hp.
    rewrite (proj2 (str_eqb_neq p (str "AC-3"))); [apply andb_false_r|]. congruence.
Qed.

(** ** Witnesses *)

Definition demo_entry (off sz : Z) (key : bool) : SampleEntry :=
  {| offset := off; size := sz; duration := 40; is_keyframe := key; composition_offset := 0 |}.
Definition demo_entries : list SampleEntry :=
  [demo_entry 100 2 true; demo_entry 102 1 false; demo_entry 103 2 true; demo_entry 200 9 true].
Definition demo_payload : bytes := [1; 2; 3; 4; 5; 6].

Ltac segment_demo := box_demo_with ltac:(unfold sample_addressable, groups_fit, frame_ok, fits).

Lemma video_gops_stream_witness :
  exists st, video_gops new_converter demo_payload 100 1000 1 demo_entries = Done (st, ROk tt) /\
    stream_segments new_converter 1000 1 0 (kept_groups demo_payload 100 (gops demo_entries)) (gs_segments st).
Proof. apply video_gops_stream; segment_demo. Defined.

Lemma video_gops_before_payload_witness :
  video_gops new_converter demo_payload 100 1000 1 [demo_entry 48 2 true] = Panic.
Proof. apply (video_gops_before_payload new_converter demo_payload 100 1000 1 (demo_entry 48 2 true) []). segment_demo. Defined.

Definition demo_audio : Mp4Track :=
  {| track_id := 2; media_type := str "soun"; timescale := 100; track_duration := 0; codec := str "AAC";
     codec_mime_type := []; codec_params := None;
     sample_table := Some {| sample_sizes := [2; 1; 2]; time_to_sample := [(3, 40)]; sample_to_chunk := [(1, 3, 1)];
       chunk_offsets := [101]; sync_samples := []; composition_offsets := [] |} |}.
Definition demo_audio_samples : list SampleEntry :=
  [demo_entry 101 2 true; demo_entry 103 1 true; demo_entry 104 2 true].

Lemma audio_segments_stream_witness :
  let groups := audio_groups 100 demo_audio_samples in
  concat groups = demo_audio_samples /\ Forall (fun g => g <> []) groups /\
  exists segments, audio_segments demo_payload 100 demo_audio = Done segments /\
    stream_segments new_converter 100 2 0 (kept_audio demo_payload 100 groups) segments.
Proof.
  eapply (audio_segments_stream demo_payload 100 demo_audio); [reflexivity | vm_compute; reflexivity | segment_demo..].
Defined.

Definition demo_audio_parser : Mp4Parser :=
  {| boxes := []; tracks := [demo_audio]; is_fragmented := false; fmp4_converter := new_converter;
     mdat_payload_offset := 100; pending_sample_table := None |}.

Lemma ac3_params_never_set_witness :
  parse_stsd_box (replicate 8 0 ++ be_bytes 4 40 ++ str "ac-3" ++ [0; 0]) (str "soun")
    = Done (ROk (str "AC-3", audio_mime (str "ac-3"), None)) /\
  audio_part demo_audio_parser (has_ac3_params demo_audio_parser) demo_payload
    = audio_segments demo_payload 100 demo_audio.
Proof.
  apply (ac3_params_never_set (replicate 8 0) 40 [0; 0] demo_audio_parser demo_audio); [reflexivity | segment_demo | | reflexivity].
  apply List.Forall_cons; [left; reflexivity | apply List.Forall_nil].
Defined.
