(* ===== verification/Mp4Delivery.v ===== *)
(** * Segments of a whole file

    The contract of [generate_mse_segments] ([core/src/media/mp4_parser.rs]) on
    a parsed file, put together from the theorems on its parts: a regular file
    becomes an initialization segment, the stream of its groups of pictures and
    the stream of its audio chunks; a fragmented file becomes its own boxes with
    the fragments rewritten and timed. *)

From S2P Require Import Prelude Rust Mp4Box SampleTable Fmp4 Mp4Data Mp4Moov Mp4Moof Mp4Segments.

#[local] Open Scope Z_scope.

(** ** Regular files *)

Definition typed (ty : string) (b : Mp4Box) : bool := is_type b (str ty).

Definition is_raw (b : Mp4Box) : Prop := match content b with Raw _ => True | _ => False end.

(** What the collecting loop finds: the serialized [ftyp] boxes, the last
    [moov] and the payload of the last [mdat]. *)
Lemma collect_boxes_spec bs :
  Forall (fun b => typed "ftyp" b = true -> serializable b) bs ->
  Forall (fun b => typed "mdat" b = true -> is_raw b) bs ->
  collect_boxes bs = Done (boxes_bytes (map as_box (List.filter (typed "ftyp") bs)),
    last (List.filter (typed "moov") bs),
    match last (List.filter (typed "mdat") bs) with Some b => content_bytes (content b) | None => [] end).
Proof.
  unfold collect_boxes.
  match goal with |- context [for_each ?b _ _] => set (body := b) end.
  enough (H : forall init moov mdat,
    Forall (fun b => typed "ftyp" b = true -> serializable b) bs ->
    Forall (fun b => typed "mdat" b = true -> is_raw b) bs ->
    for_each body bs (init, moov, mdat) =
    Done (init ++ boxes_bytes (map as_box (List.filter (typed "ftyp") bs)),
      match last (List.filter (typed "moov") bs) with Some b => Some b | None => moov end,
      match last (List.filter (typed "mdat") bs) with Some b => content_bytes (content b) | None => mdat end)).
  { intros Hf Hr. rewrite H by done. cbn [app]. by case_match. }
  induction bs as [|b bs IH]; intros init moov mdat Hf Hr; [cbn; by rewrite app_nil_r|].
  apply list.Forall_cons in Hf as [Hf1 Hf]. apply list.Forall_cons in Hr as [Hr1 Hr].
  cbn [for_each List.filter]. unfold body at 1.
  change (is_type b (str "ftyp")) with (typed "ftyp" b). change (is_type b (str "moov")) with (typed "moov" b).
  change (is_type b (str "mdat")) with (typed "mdat" b).
  assert (Hexcl : forall x y, str x <> str y -> typed x b = true -> typed y b = false).
  { unfold typed, is_type. intros x y Hne ->%str_eqb_eq. by apply str_eqb_neq. }
  destruct (typed "ftyp" b) eqn:E1.
  { rewrite (Hexcl "ftyp" "moov"), (Hexcl "ftyp" "mdat") by done.
    rewrite serialize_box_done by auto. cbn [exec_bind map]. rewrite boxes_bytes_cons, app_assoc. by apply IH. }
  destruct (typed "moov" b) eqn:E2.
  { rewrite (Hexcl "moov" "mdat") by done. cbn [exec_bind]. rewrite IH by done. rewrite last_cons. by destruct (last _). }
  destruct (typed "mdat" b) eqn:E3.
  - specialize (Hr1 eq_refl). unfold is_raw in Hr1. destruct (content b) eqn:Ec; try done.
    cbn [exec_bind]. rewrite IH by done. rewrite last_cons.
    destruct (last (List.filter (typed "mdat") bs)); [done|]. by rewrite Ec.
  - cbn [exec_bind]. by apply IH.
Qed.

(** What a track needs to be cut: a table that resolves, samples after the
    payload's start, and frames that fit their fragments. *)
Record cuttable (payload : bytes) (at_ : Z) (conv : FragmentedMp4Converter) (t : Mp4Track)
    (samples : list SampleEntry) (kept : list (list FrameData)) : Prop := {
  cut_table : exists table, sample_table t = Some table /\ resolve_sample_offsets table = Done samples;
  cut_timescale : 1 <= timescale t;
  cut_id : is_u32 (track_id t);
  cut_addressable : Forall (sample_addressable at_) samples;
  cut_fit : groups_fit conv 0 kept;
}.

(** The audio of a file: none, or a track that can be cut. *)
Definition audio_ready (self : Mp4Parser) (payload : bytes) (groups : list (list FrameData)) : Prop :=
  match find_track (str "soun") (tracks self) with
  | None => groups = []
  | Some t => exists samples, groups = kept_audio payload (mdat_payload_offset self) (audio_groups (timescale t) samples) /\
      cuttable payload (mdat_payload_offset self) new_converter t samples groups
  end.

Lemma audio_part_spec self payload groups : zlen payload <= isize_max -> audio_ready self payload groups ->
  exists segments, audio_part self false payload = Done segments /\
    match find_track (str "soun") (tracks self) with
    | Some t => stream_segments new_converter (timescale t) (track_id t) 0 groups segments
    | None => segments = []
    end.
Proof.
  intros Hlen. unfold audio_ready, audio_part. destruct (find_track (str "soun") (tracks self)) as [t|]; [|by eexists].
  intros (samples & -> & [(table & Ht & Hr) Hts Hid Haddr Hfit]).
  destruct (audio_segments_done payload (mdat_payload_offset self) t table samples) as (_ & _ & segments & Hs); [done..|].
  by exists segments.
Qed.

Lemma video_segments_spec self payload t samples :
  find_track (str "vide") (tracks self) = Some t -> samples <> [] -> zlen payload <= isize_max ->
  let kept := kept_groups payload (mdat_payload_offset self) (gops samples) in
  cuttable payload (mdat_payload_offset self) (fmp4_converter self) t samples kept ->
  exists conv segments, video_segments self payload = Done (with_converter self conv, ROk segments) /\
    stream_segments (fmp4_converter self) (timescale t) (track_id t) 0 kept segments.
Proof.
  intros Hv Hne Hlen kept [(table & Ht & Hr) Hts Hid Haddr Hfit]. unfold video_segments. rewrite Hv, Ht, Hr.
  cbn [exec_bind]. destruct samples as [|e samples]; [done|].
  destruct (video_gops_done (fmp4_converter self) payload (mdat_payload_offset self) (timescale t) (track_id t) (e :: samples))
    as (st & Hrun & Hstr); [done..|].
  rewrite Hrun. cbn [exec_bind]. by do 2 eexists.
Qed.

(** C4: A regular file with one [moov] of standard children and a video track
    that can be cut becomes: an initialization segment that reads back as the
    [ftyp] boxes and the movie with an [mvex] box listing its tracks; then, from
    the payload of the last [mdat], one segment per group of pictures with
    consecutive sequence numbers and gapless decode times; then the audio track
    in chunks with numbers and times of their own. Only the parser's converter
    changes. *)
Theorem generate_regular_segments self moov payload cs t samples audio :
  is_fragmented self = false -> has_ac3_params self = false ->
  Forall (fun b => typed "ftyp" b = true -> serializable b) (boxes self) ->
  Forall (fun b => typed "mdat" b = true -> is_raw b) (boxes self) ->
  last (List.filter (typed "moov") (boxes self)) = Some moov ->
  last (List.filter (typed "mdat") (boxes self)) = Some payload ->
  content moov = Raw (boxes_bytes (map child_box cs)) -> Forall child_ok cs ->
  zlen (boxes_bytes (map child_box cs)) + 32 * zlen (tracks self) + 16 <= u32_max ->
  let data := content_bytes (content payload) in
  let kept := kept_groups data (mdat_payload_offset self) (gops samples) in
  data <> [] -> zlen data <= isize_max -> samples <> [] ->
  find_track (str "vide") (tracks self) = Some t ->
  cuttable data (mdat_payload_offset self) (fmp4_converter self) t samples kept ->
  audio_ready self data audio ->
  exists conv init video sound,
    generate_mse_segments self = Done (with_converter self conv, ROk (init_segment init :: video ++ sound)) /\
    parse_boxes (length init) init
      = Some (map as_box (List.filter (typed "ftyp") (boxes self))
              ++ [(str "moov", boxes_bytes (map child_box cs ++ [mvex_box (tracks self)]))]) /\
    stream_segments (fmp4_converter self) (timescale t) (track_id t) 0 kept video /\
    match find_track (str "soun") (tracks self) with
    | Some t => stream_segments new_converter (timescale t) (track_id t) 0 audio sound
    | None => sound = []
    end.
Proof.
  intros Hfrag Hac3 Hser Hraw Hmoov Hmdat Hc Hcs Hsz data kept Hne Hlen Hsne Hv Hcut Haud.
  destruct (video_segments_spec self data t samples Hv Hsne Hlen Hcut) as (conv & video & Hvideo & Hvs).
  assert (Haud' : audio_ready (with_converter self conv) data audio) by exact Haud.
  destruct (audio_part_spec _ data audio Hlen Haud') as (sound & Hsound & Hss).
  destruct (mse_children_wf self cs Hcs Hsz) as [_ Hwf].
  pose proof (create_mse_std self moov cs Hc Hcs Hsz) as Hcr.
  unfold mse_children in *. rewrite Hac3 in *.
  set (movie := (str "moov", boxes_bytes (map child_box cs ++ [mvex_box (tracks self)]))) in *.
  set (ftyps := map as_box (List.filter (typed "ftyp") (boxes self))).
  assert (Hall : Forall wf_box (ftyps ++ [movie])).
  { apply list.Forall_app. split; [|apply Forall_singleton; by split].
    apply list.Forall_forall. intros b (x & -> & Hx)%elem_of_map. apply serializable_wf.
    rewrite list.Forall_forall in Hser. apply list_elem_of_In, List.filter_In in Hx as [Hin Ht].
    apply Hser; [by apply list_elem_of_In|done]. }
  exists conv, (boxes_bytes (ftyps ++ [movie])), video, sound. split_and!; [|by apply parse_boxes_bytes|done|done].
  unfold generate_mse_segments. rewrite Hfrag. unfold create_fragments_from_regular_mp4.
  rewrite Hac3, collect_boxes_spec, Hmoov, Hmdat by done. cbn [exec_bind]. rewrite Hcr. cbn [exec_bind].
  fold movie. fold data. rewrite Hvideo, boxes_bytes_app, boxes_bytes_single. fold ftyps.
  assert (Hinit : exists x xs, boxes_bytes ftyps ++ box_bytes movie = x :: xs).
  { destruct (boxes_bytes ftyps ++ box_bytes movie) as [|x xs] eqn:E; [|by do 2 eexists].
    apply app_eq_nil in E as [_ E]. done. }
  destruct Hinit as (x & xs & ->). destruct data as [|d ds]; [done|]. cbn [exec_bind]. rewrite Hsound. done.
Qed.

(** ** Fragmented files *)

(** A fragment's [moof] box with its children, and its [mdat]; or any box that
    is not a [moof]. *)
Inductive frag_item : Type :=
| Alone (b : Mp4Box)
| Pair (moof : Mp4Box) (ns : list moof_child) (mdat : Mp4Box).

Definition item_boxes (it : frag_item) : list Mp4Box :=
  match it with Alone b => [b] | Pair moof _ mdat => [moof; mdat] end.

(** The children of a fragment for the player: flags fixed, decode time set. *)
Definition delivered (time : Z) (ns : list moof_child) : list moof_child :=
  map (retimed_child time) (map mse_child ns).

Definition frag_item_ok (it : frag_item) : Prop :=
  match it with
  | Alone b => typed "moof" b = false
  | Pair moof ns mdat =>
      typed "moof" moof = true /\ typed "mdat" mdat = true /\ serializable mdat /\
      content moof = Raw (moof_bytes ns) /\ Forall moof_child_ok ns /\
      8 + zlen (moof_bytes ns) <= u32_max /\ 8 + zlen (moof_bytes (delivered 0 ns)) <= u32_max
  end.

Definition pairs (its : list frag_item) : list (list moof_child * Mp4Box) :=
  flat_map (fun it => match it with Alone _ => [] | Pair _ ns mdat => [(ns, mdat)] end) its.

(** The size of a fragment does not depend on its decode time. *)
Lemma zlen_retimed_traf time cs :
  zlen (boxes_bytes (retimed_traf time cs)) = zlen (boxes_bytes (retimed_traf 0 cs)).
Proof.
  unfold retimed_traf. rewrite !boxes_bytes_app, !zlen_app. f_equal. f_equal; [by case_match|].
  generalize (List.filter (fun b => negb (has_type "tfhd" b)) cs) as bs.
  induction bs as [|b bs IH]; [done|]. cbn [map]. rewrite !boxes_bytes_cons, !zlen_app, IH. f_equal. by case_match.
Qed.

Lemma zlen_delivered time ns : zlen (moof_bytes (delivered time ns)) = zlen (moof_bytes (delivered 0 ns)).
Proof.
  unfold delivered. induction (map mse_child ns) as [|n ns' IH]; [done|]. cbn [map].
  rewrite !moof_bytes_cons, !zlen_app, IH. f_equal. destruct n as [b|cs]; [done|].
  cbn [retimed_child moof_child_box]. unfold box_bytes. cbn [fst snd]. zlen_simpl. by rewrite zlen_retimed_traf.
Qed.

Lemma plain_mse ns : Forall moof_child_ok ns -> Forall plain_child (map mse_child ns).
Proof.
  intros Hok%Forall_mse_child. eapply list.Forall_impl; [exact Hok|]. intros [b|cs] [Hw Hn]; cbn in *.
  - by destruct Hn as (_ & _ & Hn & _).
  - eapply list.Forall_impl; [exact Hn|]. by intros b [? _].
Qed.

(** The segment of fragment [i]. *)
Definition delivers (timescale frame_duration i : Z) (p : list moof_child * Mp4Box) (seg : MseSegment) : Prop :=
  let time := i * frame_duration in
  exists data,
    seg = media_segment data (time * 1000 / timescale) (frame_duration * 1000 / timescale)
            (is_likely_keyframe data i) 1 /\
    parse_boxes (length data) data
      = Some [(str "moof", boxes_bytes (map moof_child_box (delivered time (fst p)))); as_box (snd p)].

Lemma fragment_segment_done moof ns mdat i fd ts : frag_item_ok (Pair moof ns mdat) ->
  0 <= i -> 0 <= fd -> 1 <= ts -> i * fd * 1000 <= u64_max -> fd * 1000 <= u64_max ->
  exists seg, fragment_segment moof mdat i fd ts = Done (ROk seg) /\ delivers ts fd i (ns, mdat) seg.
Proof.
  intros (_ & _ & Hser & Hc & Hok & Hl & Hl') Hi Hfd Hts Hms Hdms. unfold fragment_segment, try_bind.
  rewrite (fix_moof_std _ ns) by done. cbn [exec_bind]. unfold mul_u64, div_u64.
  assert (0 <= i * fd) by nia. rewrite checked_done by (unfold u64_max in *; lia). cbn [exec_bind].
  rewrite ensure_moof_std; [|by apply plain_mse|by rewrite zlen_moof_mse|].
  2:{ change (map (retimed_child _) (map mse_child ns)) with (delivered (i * fd) ns). by rewrite zlen_delivered. }
  cbn [exec_bind]. rewrite serialize_box_done by done. cbn [exec_bind].
  rewrite checked_done by (unfold u64_max in *; lia). cbn [exec_bind].
  destruct (Z.eqb_spec ts 0); [lia|]. cbn [exec_bind].
  rewrite checked_done by (unfold u64_max in *; lia). cbn [exec_bind].
  eexists. split; [reflexivity|]. eexists. split; [reflexivity|]. cbn [fst snd].
  fold (delivered (i * fd) ns). unfold moof_bytes. rewrite <- boxes_bytes_pair. apply parse_boxes_bytes.
  apply List.Forall_cons; [|apply Forall_singleton; by apply serializable_wf].
  split; [done|]. cbn [snd]. change (boxes_bytes (map moof_child_box (delivered (i * fd) ns))) with (moof_bytes (delivered (i * fd) ns)).
  rewrite zlen_delivered. lia.
Qed.

Lemma fragment_segments_done its i fd ts : Forall frag_item_ok its ->
  0 <= i -> 0 <= fd -> 1 <= ts -> fd * 1000 <= u64_max -> i + zlen (pairs its) <= u64_max ->
  (i + zlen (pairs its)) * fd * 1000 <= u64_max ->
  exists segs, fragment_segments (flat_map item_boxes its) i fd ts = Done (ROk segs) /\
    length segs = length (pairs its) /\
    forall k p, pairs its !! k = Some p -> exists seg, segs !! k = Some seg /\ delivers ts fd (i + Z.of_nat k) p seg.
Proof.
  intros Hok Hi Hfd Hts Hd. revert i Hi. induction Hok as [|it its Hit Hok IH]; intros i Hi Hmax Hms.
  { exists []. by split_and!. }
  pose proof (zlen_nonneg (pairs its)) as Hp. destruct it as [b|moof ns mdat].
  - cbn [pairs flat_map app item_boxes] in *. destruct (IH i) as (segs & Hrun & Hs); [done..|].
    exists segs. split; [|done]. rewrite <- Hrun. cbn [fragment_segments].
    change (is_type b (str "moof")) with (typed "moof" b). rewrite Hit. cbn [andb].
    by destruct (flat_map item_boxes its).
  - change (pairs (Pair moof ns mdat :: its)) with ((ns, mdat) :: pairs its) in *. rewrite zlen_cons in *.
    assert (i * fd * 1000 <= u64_max) by nia.
    destruct (fragment_segment_done moof ns mdat i fd ts) as (seg & Hseg & Hdel); [done..|].
    destruct (IH (i + 1)) as (segs & Hrun & Hl & Hs); [lia|lia|nia|].
    pose proof Hit as (Hm & Hm' & _). exists (seg :: segs). split_and!.
    + cbn [flat_map item_boxes app fragment_segments]. unfold typed in Hm, Hm'. rewrite Hm, Hm'. cbn [andb].
      unfold try_bind. rewrite Hseg. cbn [exec_bind]. unfold add_u64. rewrite checked_done by lia. cbn [exec_bind].
      rewrite Hrun. done.
    + cbn. by rewrite Hl.
    + intros [|k] p Hk; cbn [lookup list_lookup] in *.
      * injection Hk as <-. exists seg. split; [done|]. by rewrite Z.add_0_r.
      * destruct (Hs k p Hk) as (seg' & ? & ?). exists seg'. split; [done|].
        by replace (i + Z.of_nat (Datatypes.S k)) with (i + 1 + Z.of_nat k) by lia.
Qed.

(** The boxes of the initialization segment. *)
Definition init_box (b : Mp4Box) : bool := typed "ftyp" b || typed "moov" b.

(** What becomes of them: with AC-3 audio a movie loses its tracks that are not
    taken for video. *)
Definition init_as (ac3 : bool) (movie : list moov_child) (b : Mp4Box) : mp4_box :=
  if ac3 && typed "moov" b then (str "moov", boxes_bytes (map child_box (List.filter video_only_child movie))) else as_box b.

Definition movie_is (movie : list moov_child) (b : Mp4Box) : Prop :=
  typed "moov" b = true -> content b = Raw (boxes_bytes (map child_box movie)).

(** A box goes into the initialization segment as it is. *)
Lemma add_validated_done init b : serializable b -> add_validated init b = Done (init ++ box_bytes (as_box b)).
Proof.
  intros Hb. pose proof (serializable_wf b Hb) as Hwf. destruct Hb as (H4 & Hu & Hs').
  unfold add_validated. rewrite serialize_box_done by done. cbn [exec_bind]. unfold validated.
  rewrite zlen_box_bytes by done. pose proof (box_size_range _ Hwf). destruct (Z.leb_spec 8 (box_size (as_box b))); [|lia].
  pose proof (box_header_at [] _ [] 0 Hwf eq_refl) as Hhd. cbn [app] in Hhd. rewrite app_nil_r in Hhd.
  pose proof (box_type_at [] _ [] 4 8 Hwf eq_refl eq_refl) as Hty. cbn [app] in Hty. rewrite app_nil_r in Hty.
  rewrite Hhd, Hty. cbn [exec_bind as_box fst]. by rewrite Hu, str_eqb_refl, Z.eqb_refl.
Qed.

Lemma extract_init_done ac3 movie bs : Forall (fun b => init_box b = true -> serializable b) bs ->
  (ac3 = true -> Forall child_ok movie /\ Forall (movie_is movie) bs) ->
  extract_init ac3 bs = Done (boxes_bytes (map (init_as ac3 movie) (List.filter init_box bs))).
Proof.
  unfold extract_init. match goal with |- context [for_each ?b _ _] => set (body := b) end. intros Hser Hmovie.
  assert (Hstep : forall init b, (init_box b = true -> serializable b) -> (ac3 = true -> Forall child_ok movie /\ movie_is movie b) ->
    body init b = Done (if init_box b then init ++ box_bytes (init_as ac3 movie b) else init)).
  { intros init b Hb Hm. unfold body, init_box, init_as, typed in *. destruct (is_type b (str "ftyp")) eqn:Hft; cbn [orb] in *.
    - replace (is_type b (str "moov")) with false; [rewrite andb_false_r; by apply add_validated_done, Hb|].
      apply str_eqb_eq in Hft. unfold is_type. by rewrite Hft.
    - destruct (is_type b (str "moov")) eqn:Hmv; [|done]. rewrite andb_true_r. specialize (Hb eq_refl).
      destruct ac3; [|by apply add_validated_done]. destruct (Hm eq_refl) as [Hcs Hraw]. unfold movie_is, typed in Hraw. rewrite (Hraw Hmv).
      rewrite create_video_only_std by done. cbn [exec_bind]. rewrite wrap_box_done; [done|].
      pose proof (zlen_boxes_filter child_box video_only_child movie). destruct Hb as (_ & _ & Hlen). rewrite (Hraw Hmv) in Hlen. cbn in Hlen. unfold u32_max. lia. }
  enough (H : forall init, for_each body bs init = Done (init ++ boxes_bytes (map (init_as ac3 movie) (List.filter init_box bs)))) by apply H.
  revert Hser Hmovie. induction bs as [|b bs IH]; intros Hser Hmovie init; [cbn; by rewrite app_nil_r|].
  apply list.Forall_cons in Hser as [Hb Hser]. cbn [for_each List.filter]. rewrite Hstep; [|done|].
  2:{ intros Ha. destruct (Hmovie Ha) as [? Hms]. by apply list.Forall_cons in Hms as [? _]. }
  cbn [exec_bind]. rewrite IH; [|done|].
  2:{ intros Ha. destruct (Hmovie Ha) as [? Hms]. by apply list.Forall_cons in Hms as [_ ?]. }
  destruct (init_box b); [|done]. cbn [map]. by rewrite boxes_bytes_cons, app_assoc.
Qed.

(** C5: A fragmented file becomes its [ftyp] and [moov] boxes, unchanged, as the
    initialization segment, and one segment per [moof] and [mdat] pair: the
    fragment with its flags fixed and every [traf] timed at its index times the
    frame duration, then the untouched payload. The frame duration divides the
    movie's duration by the number of fragments, or the second by thirty; stamps
    and durations are in milliseconds. When a track has AC-3 audio the [moov] box
    keeps only what is taken for video: of a movie of standard children
    everything that is not a track, and the tracks whose handler box has [vide] in
    its [pre_defined] field. *)
Theorem generate_fragmented_segments self its movie :
  is_fragmented self = true -> boxes self = flat_map item_boxes its -> Forall frag_item_ok its ->
  Forall (fun b => init_box b = true -> serializable b) (boxes self) ->
  let ac3 := existsb (fun t => is_media (str "soun") t && str_eqb (codec t) (str "AC-3")) (tracks self) in
  (ac3 = true -> Forall child_ok movie /\ Forall (movie_is movie) (boxes self)) ->
  let track := find_track (str "vide") (tracks self) in
  let ts := match track with Some t => timescale t | None => 1000 end in
  let n := zlen (pairs its) in
  let duration := match track with Some t => track_duration t | None => 0 end in
  let fd := if (0 <? n) && (0 <? duration) then duration / n else ts / 30 in
  1 <= ts -> fd * 1000 <= u64_max -> n <= u64_max -> n * fd * 1000 <= u64_max ->
  exists segs,
    generate_mse_segments self = Done (self, ROk
      (match List.filter init_box (boxes self) with
       | [] => []
       | bs => [init_segment (boxes_bytes (map (init_as ac3 movie) bs))]
       end ++ segs)) /\
    length segs = length (pairs its) /\
    forall k p, pairs its !! k = Some p -> exists seg, segs !! k = Some seg /\ delivers ts fd (Z.of_nat k) p seg.
Proof.
  intros Hf Hb Hok Hser ac3 Hmovie track ts n duration fd Hts Hd Hn Hms.
  assert (Hcount : zlen (List.filter (fun b => is_type b (str "moof")) (boxes self)) = n).
  { subst n. rewrite Hb. clear - Hok. induction Hok as [|it its Hit _ IH]; [done|].
    cbn [flat_map]. rewrite List.filter_app, zlen_app, IH. change (pairs (it :: its)) with
      (match it with Alone _ => [] | Pair _ ns mdat => [(ns, mdat)] end ++ pairs its). rewrite zlen_app. f_equal.
    destruct it as [b|moof ns mdat]; cbn [item_boxes List.filter].
    - change (is_type b (str "moof")) with (typed "moof" b). by rewrite (Hit : typed "moof" b = false).
    - destruct Hit as (Hm & Hm' & _). unfold typed in Hm, Hm'. rewrite Hm.
      apply str_eqb_eq in Hm'. unfold is_type at 1. by rewrite Hm'. }
  assert (Hfd0 : 0 <= fd).
  { subst fd. case_match eqn:E; [|apply Z.div_pos; lia].
    apply andb_true_iff in E as [?%Z.ltb_lt ?%Z.ltb_lt]. apply Z.div_pos; lia. }
  destruct (fragment_segments_done its 0 fd ts) as (segs & Hrun & Hl & Hs); [done|lia..|].
  exists segs. split_and!; [|done|].
  2:{ intros k p Hk. destruct (Hs k p Hk) as (seg & ? & ?). by exists seg. }
  unfold generate_mse_segments. rewrite Hf. unfold extract_fragmented_segments. fold ac3.
  rewrite (extract_init_done ac3 movie) by done. cbn [exec_bind]. rewrite Hcount. unfold frame_duration_of.
  fold track. fold duration. fold ts. fold fd. unfold try_bind. rewrite <- Hb in Hrun. rewrite Hrun. cbn [exec_bind].
  destruct (List.filter init_box (boxes self)) as [|b bs]; [done|].
  cbn [map]. rewrite boxes_bytes_cons. unfold box_bytes at 1. done.
Qed.

(** ** Witnesses *)

Definition demo_video_track : Mp4Track :=
  {| track_id := 1; media_type := str "vide"; timescale := 1000; track_duration := 80; codec := str "H.264";
     codec_mime_type := []; codec_params := None;
     sample_table := Some {| sample_sizes := [2; 1]; time_to_sample := [(2, 40)]; sample_to_chunk := [(1, 2, 1)];
       chunk_offsets := [100]; sync_samples := [1; 2]; composition_offsets := [] |} |}.

Definition demo_regular : Mp4Parser :=
  {| boxes := [raw_box "mdat" demo_payload; raw_box "ftyp" [7]; raw_box "moov" (boxes_bytes (map child_box demo_children))];
     tracks := [demo_audio; demo_video_track]; is_fragmented := false; fmp4_converter := new_converter;
     mdat_payload_offset := 100; pending_sample_table := None |}.

Definition demo_video_samples : list SampleEntry := [demo_entry 100 2 true; demo_entry 102 1 true].

Ltac cut_demo := constructor; [eexists; split; [reflexivity | vm_compute; reflexivity] | segment_demo ..].

Lemma generate_regular_segments_witness :
  exists conv init video sound,
    generate_mse_segments demo_regular = Done (with_converter demo_regular conv, ROk (init_segment init :: video ++ sound)) /\
    parse_boxes (length init) init
      = Some [(str "ftyp", [7]); (str "moov", boxes_bytes (map child_box demo_children ++ [mvex_box (tracks demo_regular)]))] /\
    stream_segments new_converter 1000 1 0 (kept_groups demo_payload 100 (gops demo_video_samples)) video /\
    stream_segments new_converter 100 2 0 (kept_audio demo_payload 100 (audio_groups 100 demo_audio_samples)) sound.
Proof.
  apply (generate_regular_segments demo_regular (raw_box "moov" (boxes_bytes (map child_box demo_children)))
    (raw_box "mdat" demo_payload) demo_children demo_video_track demo_video_samples
    (kept_audio demo_payload 100 (audio_groups 100 demo_audio_samples))); try reflexivity; try discriminate.
  - repeat apply List.Forall_cons; try apply List.Forall_nil; intros E; vm_compute in E; try discriminate.
    unfold serializable. segment_demo.
  - repeat apply List.Forall_cons; try apply List.Forall_nil; intros E; vm_compute in E; try discriminate. exact I.
  - exact demo_children_ok.
  - cut_demo.
  - exists demo_audio_samples. split; [reflexivity|]. cut_demo.
Defined.

Definition demo_items : list frag_item :=
  [Alone (raw_box "ftyp" [7]); Alone (raw_box "moov" [1; 2; 3]);
   Pair (raw_box "moof" (moof_bytes demo_moof)) demo_moof (raw_box "mdat" [4; 5]); Alone (raw_box "sidx" []);
   Pair (raw_box "moof" (moof_bytes demo_moof)) demo_moof (raw_box "mdat" [6])].

Definition demo_fragmented : Mp4Parser :=
  {| boxes := flat_map item_boxes demo_items; tracks := [demo_video_track]; is_fragmented := true;
     fmp4_converter := new_converter; mdat_payload_offset := 0; pending_sample_table := None |}.

Lemma demo_items_ok : Forall frag_item_ok demo_items.
Proof.
  repeat apply List.Forall_cons; try apply List.Forall_nil; try reflexivity.
  all: split_and!; try reflexivity; try exact demo_moof_ok; unfold serializable; segment_demo.
Qed.

(** The same file with AC-3 audio, and a movie of a video and an audio track. *)
Definition demo_ac3_movie : list moov_child :=
  [Other (str "mvhd", [1; 2]); Trak (demo_trak 1 "vide" "vide"); Trak (demo_trak 2 "abcd" "soun")].

Definition demo_ac3_items : list frag_item :=
  [Alone (raw_box "ftyp" [7]); Alone (raw_box "moov" (boxes_bytes (map child_box demo_ac3_movie)));
   Pair (raw_box "moof" (moof_bytes demo_moof)) demo_moof (raw_box "mdat" [4; 5])].

Definition demo_ac3 : Mp4Parser :=
  {| boxes := flat_map item_boxes demo_ac3_items;
     tracks := [demo_video_track; {| track_id := 2; media_type := str "soun"; timescale := 1000; track_duration := 80; codec := str "AC-3";
       codec_mime_type := []; codec_params := None; sample_table := None |}]; is_fragmented := true;
     fmp4_converter := new_converter; mdat_payload_offset := 0; pending_sample_table := None |}.

Lemma demo_ac3_items_ok : Forall frag_item_ok demo_ac3_items.
Proof.
  repeat apply List.Forall_cons; try apply List.Forall_nil; try reflexivity.
  all: split_and!; try reflexivity; try exact demo_moof_ok; unfold serializable; segment_demo.
Qed.

Lemma demo_ac3_movie_ok : Forall child_ok demo_ac3_movie.
Proof. unfold demo_ac3_movie. box_demo. Qed.

Lemma generate_fragmented_segments_witness :
  (exists segs,
    generate_mse_segments demo_fragmented = Done (demo_fragmented, ROk
      (match List.filter init_box (boxes demo_fragmented) with
       | [] => []
       | bs => [init_segment (boxes_bytes (map as_box bs))]
       end ++ segs)) /\
    length segs = length (pairs demo_items) /\
    forall k p, pairs demo_items !! k = Some p ->
      exists seg, segs !! k = Some seg /\ delivers 1000 40 (Z.of_nat k) p seg) /\
  exists segs, generate_mse_segments demo_ac3 = Done (demo_ac3, ROk
    (init_segment (boxes_bytes [(str "ftyp", [7]);
       (str "moov", boxes_bytes (map child_box [Other (str "mvhd", [1; 2]); Trak (demo_trak 1 "vide" "vide")]))]) :: segs)).
Proof.
  split.
  - apply (generate_fragmented_segments demo_fragmented demo_items [] eq_refl eq_refl demo_items_ok);
      [|discriminate|vm_compute; discriminate..].
    repeat apply List.Forall_cons; try apply List.Forall_nil; intros E; vm_compute in E; try discriminate;
      unfold serializable; segment_demo.
  - destruct (generate_fragmented_segments demo_ac3 demo_ac3_items demo_ac3_movie eq_refl eq_refl demo_ac3_items_ok) as (segs & Hrun & _);
      [| |vm_compute; discriminate..|exists segs; exact Hrun].
    + repeat apply List.Forall_cons; try apply List.Forall_nil; intros E; vm_compute in E; try discriminate;
        unfold serializable; segment_demo.
    + intros _. split; [exact demo_ac3_movie_ok|]. repeat apply List.Forall_cons; try apply List.Forall_nil; intros E; vm_compute in E; try discriminate; reflexivity.
Defined.
