(* ===== verification/Float.v ===== *)
(** * Floating-point numbers of Rust

    [f32] and [f64] as the IEEE 754 binary formats, through the executable
    specification of the Standard Library; every operation rounds to nearest,
    ties to even. NaN has no payload. Literals are quotients of two integers
    below [2 ^ 24], which the correctly rounded division turns into the float
    nearest to the decimal. *)

From Stdlib Require Import SpecFloat.
From S2P Require Import Prelude Rust.

#[local] Open Scope Z_scope.

Notation float := spec_float.

Declare Scope f32_scope.
Delimit Scope f32_scope with f32.
Declare Scope f64_scope.
Delimit Scope f64_scope with f64.

Definition f32_add : float -> float -> float := SFadd 24 128.
Definition f32_sub : float -> float -> float := SFsub 24 128.
Definition f32_mul : float -> float -> float := SFmul 24 128.
Definition f32_div : float -> float -> float := SFdiv 24 128.
Definition f64_add : float -> float -> float := SFadd 53 1024.
Definition f64_sub : float -> float -> float := SFsub 53 1024.
Definition f64_mul : float -> float -> float := SFmul 53 1024.
Definition f64_div : float -> float -> float := SFdiv 53 1024.
Definition f64_sqrt : float -> float := SFsqrt 53 1024.

Infix "+" := f32_add : f32_scope.
Infix "-" := f32_sub : f32_scope.
Infix "*" := f32_mul : f32_scope.
Infix "/" := f32_div : f32_scope.
Infix "+" := f64_add : f64_scope.
Infix "-" := f64_sub : f64_scope.
Infix "*" := f64_mul : f64_scope.
Infix "/" := f64_div : f64_scope.

(** Comparisons are false on NaN. *)
Definition float_lt (x y : float) : bool := SFltb x y.
Definition float_le (x y : float) : bool := SFleb x y.

(** [x as f32], [x as f64] of an integer. *)
Definition f32_of (n : Z) : float := binary_normalize 24 128 n 0 false.
Definition f64_of (n : Z) : float := binary_normalize 53 1024 n 0 false.

Definition f32_lit (num den : Z) : float := f32_div (f32_of num) (f32_of den).
Definition f64_lit (num den : Z) : float := f64_div (f64_of num) (f64_of den).

Definition neg_infinity : float := S754_infinity true.
Definition is_nan (x : float) : bool := match x with S754_nan => true | _ => false end.

(** [x as f32] of an [f64]. *)
Definition f64_to_f32 (x : float) : float :=
  match x with
  | S754_finite s m e => binary_normalize 24 128 (if s then Zneg m else Zpos m) e s
  | _ => x
  end.

(** [x as usize]: truncated toward zero, saturating, zero for NaN. *)
Definition float_to_usize (x : float) : Z :=
  match x with
  | S754_nan | S754_zero _ | S754_infinity true | S754_finite true _ _ => 0
  | S754_infinity false => u64_max
  | S754_finite false m e =>
      Z.min u64_max (if 0 <=? e then Zpos m * 2 ^ e else Zpos m / 2 ^ (- e))
  end.

(** [f32::min] and [f32::max] return the other operand when one is NaN. *)
Definition float_min (x y : float) : float :=
  if is_nan x then y else if is_nan y then x else if float_lt y x then y else x.
Definition float_max (x y : float) : float :=
  if is_nan x then y else if is_nan y then x else if float_lt x y then y else x.

(** [iter.sum::<f32>()] starts from negative zero. *)
Definition f32_sum (l : list float) : float := fold_left f32_add l (S754_zero true).

Lemma float_to_usize_range x : 0 <= float_to_usize x <= u64_max.
Proof.
  unfold float_to_usize, u64_max. destruct x as [| [] | | [] m e]; try lia.
  split; [|lia]. apply Z.min_glb; [lia|]. destruct (Z.leb_spec 0 e).
  - assert (0 <= 2 ^ e) by (apply Z.pow_nonneg; lia). nia.
  - apply Z.div_pos; [lia|]. apply Z.pow_pos_nonneg; lia.
Qed.

Example float_examples :
  f32_lit 8 10 = S754_finite false 13421773 (-24) /\
  float_to_usize (f32_mul (f32_of 10) (f32_lit 7 10)) = 7 /\
  float_lt (f32_lit 1 10) (f32_lit 2 10) = true /\
  f64_to_f32 (f64_lit 8 10) = f32_lit 8 10.
Proof. repeat split; vm_compute; reflexivity. Qed.

(** ** The order of floats that are not NaN

    A float is ranked by its sign and then by its exponent and mantissa; for
    negative ones these count backwards. *)

Definition rank (x : float) : Z * Z * Z :=
  match x with
  | S754_infinity s => (if s then -2 else 2, 0, 0)
  | S754_finite true m e => (-1, - e, - Zpos m)
  | S754_finite false m e => (1, e, Zpos m)
  | _ => (0, 0, 0)
  end.

Definition ranked_before (x y : Z * Z * Z) : Prop :=
  let '(a, b, c) := x in let '(a', b', c') := y in a < a' \/ a = a' /\ (b < b' \/ b = b' /\ c < c').

Lemma float_lt_rank x y : is_nan x = false -> is_nan y = false -> float_lt x y = true <-> ranked_before (rank x) (rank y).
Proof.
  intros Hx Hy. unfold float_lt, SFltb. destruct x as [sx|sx| |sx mx ex], y as [sy|sy| |sy my ey]; try done; cbn;
    try destruct sx; try destruct sy; cbn; try (split; [done|lia]); try (split; [lia|done]).
  - destruct (Z.compare_spec ex ey); [|split; [done|lia]|split; [lia|done]].
    change (Pos.compare_cont Eq mx my) with (mx ?= my)%positive. destruct (Pos.compare_spec mx my); cbn; (split; [done|lia]) || (split; [lia|done]).
  - destruct (Z.compare_spec ex ey); [|split; [lia|done]|split; [done|lia]].
    change (Pos.compare_cont Eq mx my) with (mx ?= my)%positive. destruct (Pos.compare_spec mx my); cbn; (split; [done|lia]) || (split; [lia|done]).
Qed.

Lemma float_lt_trans x y z : is_nan x = false -> is_nan y = false -> is_nan z = false ->
  float_lt x y = true -> float_lt z y = false -> float_lt x z = true.
Proof.
  intros Hx Hy Hz. rewrite !float_lt_rank by done. intros Hxy Hzy.
  assert (Hn : ~ ranked_before (rank z) (rank y)) by (rewrite <- float_lt_rank by done; congruence).
  clear Hzy. destruct (rank x) as [[a b] c], (rank y) as [[a' b'] c'], (rank z) as [[a'' b''] c'']. unfold ranked_before in *. lia.
Qed.

Lemma float_lt_irrefl x : float_lt x x = false.
Proof.
  destruct (is_nan x) eqn:Hx; [by destruct x|]. apply not_true_iff_false. rewrite float_lt_rank by done.
  destruct (rank x) as [[a b] c]. unfold ranked_before. lia.
Qed.

Lemma float_lt_asym x y : is_nan x = false -> is_nan y = false -> float_lt x y = true -> float_lt y x = false.
Proof.
  intros Hx Hy. rewrite float_lt_rank by done. intros Hl. apply not_true_iff_false. rewrite float_lt_rank by done.
  destruct (rank x) as [[a b] c], (rank y) as [[a' b'] c']. unfold ranked_before in *. lia.
Qed.
