(* ===== verification/Geo.v ===== *)
(** * Geography

    Models [core/src/overlay/topology/geo.rs]: regions, locations, the address
    lookup and the great-circle distance. Where a peer is, by its metadata and its
    addresses, is in [Locations]. *)

From Stdlib Require Import SpecFloat.
From S2P Require Import Prelude Rust Float.

#[local] Open Scope Z_scope.

(** The functions of the platform's mathematical library, whose precision Rust
    leaves unspecified. *)
Class Libm : Type := {
  sin : float -> float;
  cos : float -> float;
  atan2 : float -> float -> float;
  log10 : float -> float;
  powi : float -> Z -> float;
}.

Inductive Region : Type :=
| NorthAmerica | SouthAmerica | Europe | Asia | Africa | Oceania | UnknownRegion.

#[export] Instance Region_eq_dec : EqDecision Region.
Proof. solve_decision. Defined.

Record GeoLocation : Type := {
  latitude : float;
  longitude : float;
  country : rstring;
  region : Region;
  city : option rstring;
  asn : option rstring;
}.

Definition one_of (s : rstring) (l : list string) : bool := existsb (fun x => str_eqb s (str x)) l.

Definition country_to_region (country : rstring) : Region :=
  if one_of country ["US"; "CA"; "MX"] then NorthAmerica
  else if one_of country ["BR"; "AR"; "CL"; "CO"; "PE"; "VE"] then SouthAmerica
  else if one_of country ["GB"; "DE"; "FR"; "IT"; "ES"; "NL"; "SE"; "NO"; "FI"; "PL"] then Europe
  else if one_of country ["CN"; "JP"; "KR"; "IN"; "SG"; "TH"; "MY"; "ID"] then Asia
  else if one_of country ["ZA"; "NG"; "EG"; "KE"; "MA"] then Africa
  else if one_of country ["AU"; "NZ"] then Oceania
  else UnknownRegion.

Definition new_location (latitude longitude : float) (country : rstring) : GeoLocation :=
  {| latitude := latitude; longitude := longitude; country := country;
     region := country_to_region country; city := None; asn := None |}.

Definition is_same_region (a b : GeoLocation) : bool := bool_decide (region a = region b).

(** [f64::consts::PI] and [to_radians]. *)
Definition pi : float := S754_finite false 7074237752028440 (-51).
Definition to_radians (x : float) : float := (x * (pi / f64_of 180))%f64.

Definition earth_radius : float := f64_of 6371.

Definition distance_to `{Libm} (self other : GeoLocation) : float :=
  let lat1 := to_radians (latitude self) in
  let lon1 := to_radians (longitude self) in
  let lat2 := to_radians (latitude other) in
  let lon2 := to_radians (longitude other) in
  let dlat := (lat2 - lat1)%f64 in
  let dlon := (lon2 - lon1)%f64 in
  let a := (powi (sin (dlat / f64_of 2)) 2 + cos lat1 * cos lat2 * powi (sin (dlon / f64_of 2)) 2)%f64 in
  let c := (f64_of 2 * atan2 (f64_sqrt a) (f64_sqrt (f64_of 1 - a)))%f64 in
  (earth_radius * c)%f64.

(** [GeoIP::lookup], by the last byte of an address of either family. *)
Definition lookup_country (last_octet : Z) : rstring :=
  match last_octet mod 4 with
  | 0 => str "US"
  | 1 => str "DE"
  | 2 => str "JP"
  | _ => str "BR"
  end.

Definition lookup_location (last_octet : Z) : GeoLocation :=
  let country := lookup_country last_octet in
  let '(lat, lon) :=
    if str_eqb country (str "US") then (f64_lit 370902 10000, SFopp (f64_lit 957129 10000))
    else if str_eqb country (str "DE") then (f64_lit 511657 10000, f64_lit 104515 10000)
    else if str_eqb country (str "JP") then (f64_lit 362048 10000, f64_lit 1382529 10000)
    else if str_eqb country (str "BR") then (SFopp (f64_lit 142350 10000), SFopp (f64_lit 519253 10000))
    else (f64_of 0, f64_of 0) in
  new_location lat lon country.
