(* ===== verification/Hash.v ===== *)
(** * Hash maps and sets

    [HashMap] and [HashSet] are finite maps and sets whose iteration order is
    not specified. The order is an interface: code that iterates is defined
    for every order, and a theorem about it holds for all of them. *)

From S2P Require Import Prelude.

Class HashOrder (K : Type) `{Countable K} : Type := {
  map_iter : forall {A}, gmap K A -> list (K * A);
  set_iter : gset K -> list K;
  map_iter_perm : forall {A} (m : gmap K A), map_iter m ≡ₚ map_to_list m;
  set_iter_perm : forall s, set_iter s ≡ₚ elements s;
}.

(** One possible order. *)
#[export, program] Instance canonical_order (K : Type) `{Countable K} : HashOrder K | 100 :=
  {| map_iter A m := map_to_list m; set_iter s := elements s |}.
Next Obligation. done. Qed.
Next Obligation. done. Qed.

(** The opposite one. *)
Program Definition reverse_order (K : Type) `{Countable K} : HashOrder K :=
  {| map_iter A m := rev (map_to_list m); set_iter s := rev (elements s) |}.
Next Obligation. intros. symmetry. apply Permutation_rev. Qed.
Next Obligation. intros. symmetry. apply Permutation_rev. Qed.

(** Any order at all, by rank. *)
Program Definition ranked_order {K : Type} `{Countable K} (rank : K -> Z) : HashOrder K :=
  {| map_iter A m := sort_by_key (fun e => rank (fst e)) (map_to_list m); set_iter s := sort_by_key rank (elements s) |}.
Next Obligation. intros. apply sort_by_key_perm. Qed.
Next Obligation. intros. apply sort_by_key_perm. Qed.

Section Order.
Context {K : Type} `{Countable K} `{!HashOrder K}.

(** [map.keys()], [map.values()]. *)
Definition keys {A} (m : gmap K A) : list K := (map_iter m).*1.
Definition values {A} (m : gmap K A) : list A := (map_iter m).*2.

Lemma elem_of_map_iter {A} (m : gmap K A) k x : (k, x) ∈ map_iter m <-> m !! k = Some x.
Proof. by rewrite map_iter_perm, elem_of_map_to_list. Qed.

Lemma elem_of_set_iter (s : gset K) k : k ∈ set_iter s <-> k ∈ s.
Proof. by rewrite set_iter_perm, elem_of_elements. Qed.

Lemma elem_of_values {A} (m : gmap K A) x : x ∈ values m <-> exists k, m !! k = Some x.
Proof.
  unfold values. rewrite list_elem_of_fmap. split.
  - intros ([k y] & -> & Hk%elem_of_map_iter). by exists k.
  - intros [k Hk]. exists (k, x). by rewrite elem_of_map_iter.
Qed.

Lemma NoDup_set_iter (s : gset K) : NoDup (set_iter s).
Proof. rewrite set_iter_perm. apply NoDup_elements. Qed.

Lemma NoDup_keys {A} (m : gmap K A) : NoDup (keys m).
Proof. unfold keys. rewrite map_iter_perm. apply NoDup_fst_map_to_list. Qed.

Lemma elem_of_keys {A} (m : gmap K A) k : k ∈ keys m <-> is_Some (m !! k).
Proof.
  unfold keys. rewrite list_elem_of_fmap. split.
  - intros ([k' x] & -> & Hx%elem_of_map_iter). by exists x.
  - intros [x Hx]. exists (k, x). by rewrite elem_of_map_iter.
Qed.

Lemma length_map_iter {A} (m : gmap K A) : length (map_iter m) = size m.
Proof. by rewrite map_iter_perm, length_map_to_list. Qed.

Lemma length_set_iter (s : gset K) : length (set_iter s) = size s.
Proof. by rewrite set_iter_perm. Qed.
End Order.
