(* ===== verification/StreamTree.v ===== *)
(** * The distribution tree of a stream

    Models [core/src/overlay/tree.rs]: nodes, their capacity, the choice of
    parents, removal, temporary disconnection and rebalancing. Peer identifiers
    are any type that can key a map. [Instant]s and [Duration]s are nanoseconds;
    the time is an argument of the operations that read the clock. Depths and
    counters grow by one per operation and are not bounded by [usize]. *)

From S2P Require Import Prelude Rust Float Geo Hash.

#[local] Open Scope Z_scope.

Definition DEFAULT_MAX_CHILDREN : Z := 3.
Definition ABSOLUTE_MAX_CHILDREN : Z := 7.
Definition MIN_CONNECTION_QUALITY : float := f32_lit 1 2.
Definition MAX_EARTH_DISTANCE_KM : float := f64_of 20000.

Inductive PeerRole : Type :=
| Publisher | Relay | Consumer | HybridRelay | Gateway | UnknownRole.

#[export] Instance PeerRole_eq_dec : EqDecision PeerRole.
Proof. solve_decision. Defined.

Record RelayScoreWeights : Type := {
  bandwidth_weight : float;
  latency_weight : float;
  geo_weight : float;
  quality_weight : float;
}.

(** The fields of [TopologyConfig] that the code reads. *)
Record TopologyConfig : Type := {
  max_tree_depth : Z;
  min_relay_quality : float;
  enable_geo_aware : bool;
  max_consecutive_failures : Z;
  min_success_rate : float;
  health_record_expiry : Z;
  rebalance_threshold : Z;
  default_bandwidth : Z;
  score_weights : RelayScoreWeights;
  prefer_same_region : bool;
}.

Definition default_config : TopologyConfig :=
  {| max_tree_depth := 5; min_relay_quality := f32_lit 6 10; enable_geo_aware := true;
     max_consecutive_failures := 3; min_success_rate := f32_lit 7 10;
     health_record_expiry := 86400 * 10 ^ 9; rebalance_threshold := 10; default_bandwidth := 5000000;
     score_weights := {| bandwidth_weight := f32_lit 3 10; latency_weight := f32_lit 3 10;
                         geo_weight := f32_lit 2 10; quality_weight := f32_lit 2 10 |};
     prefer_same_region := true |}.

Section Tree.
Context {PeerId : Type} `{Countable PeerId}.

(** ** Nodes *)

Record TreeNode : Type := {
  peer_id : PeerId;
  role : PeerRole;
  parent : option PeerId;
  children : gset PeerId;
  depth : Z;
  bandwidth : Z;
  latency : Z;
  max_children : Z;
  connection_quality : float;
  last_updated : Z;
  failure_count : Z;
  location : option GeoLocation;
}.

Definition new_node (peer_id : PeerId) (role : PeerRole) (now : Z) : TreeNode :=
  {| peer_id := peer_id; role := role; parent := None; children := ∅; depth := 0; bandwidth := 0; latency := 0;
     max_children := DEFAULT_MAX_CHILDREN; connection_quality := f32_of 1; last_updated := now;
     failure_count := 0; location := None |}.

Definition source_node (peer_id : PeerId) (now : Z) : TreeNode :=
  {| peer_id := peer_id; role := Publisher; parent := None; children := ∅; depth := 0; bandwidth := 0; latency := 0;
     max_children := DEFAULT_MAX_CHILDREN + 1; connection_quality := f32_of 1; last_updated := now;
     failure_count := 0; location := None |}.

(** Assignments to fields. *)
Definition set_parent (n : TreeNode) (v : option PeerId) : TreeNode :=
  {| peer_id := peer_id n; role := role n; parent := v; children := children n; depth := depth n;
     bandwidth := bandwidth n; latency := latency n; max_children := max_children n;
     connection_quality := connection_quality n; last_updated := last_updated n;
     failure_count := failure_count n; location := location n |}.
Definition set_children (n : TreeNode) (v : gset PeerId) : TreeNode :=
  {| peer_id := peer_id n; role := role n; parent := parent n; children := v; depth := depth n;
     bandwidth := bandwidth n; latency := latency n; max_children := max_children n;
     connection_quality := connection_quality n; last_updated := last_updated n;
     failure_count := failure_count n; location := location n |}.
Definition set_depth (n : TreeNode) (v : Z) : TreeNode :=
  {| peer_id := peer_id n; role := role n; parent := parent n; children := children n; depth := v;
     bandwidth := bandwidth n; latency := latency n; max_children := max_children n;
     connection_quality := connection_quality n; last_updated := last_updated n;
     failure_count := failure_count n; location := location n |}.
Definition set_bandwidth (n : TreeNode) (v : Z) : TreeNode :=
  {| peer_id := peer_id n; role := role n; parent := parent n; children := children n; depth := depth n;
     bandwidth := v; latency := latency n; max_children := max_children n;
     connection_quality := connection_quality n; last_updated := last_updated n;
     failure_count := failure_count n; location := location n |}.
Definition set_max_children (n : TreeNode) (v : Z) : TreeNode :=
  {| peer_id := peer_id n; role := role n; parent := parent n; children := children n; depth := depth n;
     bandwidth := bandwidth n; latency := latency n; max_children := v;
     connection_quality := connection_quality n; last_updated := last_updated n;
     failure_count := failure_count n; location := location n |}.
Definition set_quality (n : TreeNode) (q : float) (failures : Z) : TreeNode :=
  {| peer_id := peer_id n; role := role n; parent := parent n; children := children n; depth := depth n;
     bandwidth := bandwidth n; latency := latency n; max_children := max_children n;
     connection_quality := q; last_updated := last_updated n;
     failure_count := failures; location := location n |}.
Definition set_metrics (n : TreeNode) (bandwidth latency now : Z) (q : float) : TreeNode :=
  {| peer_id := peer_id n; role := role n; parent := parent n; children := children n; depth := depth n;
     bandwidth := bandwidth; latency := latency; max_children := max_children n;
     connection_quality := q; last_updated := now;
     failure_count := failure_count n; location := location n |}.

Definition fan_out (n : TreeNode) : Z := Z.of_nat (size (children n)).

Definition can_accept_children (n : TreeNode) : bool :=
  negb (bool_decide (role n = Consumer))
  && (fan_out n <? max_children n)
  && float_le MIN_CONNECTION_QUALITY (connection_quality n).

Definition clamp (lo hi x : Z) : Z := if x <? lo then lo else if hi <? x then hi else x.

Definition adjust_fan_out (n : TreeNode) : TreeNode :=
  let bandwidth_capacity := bandwidth n / 500000 in
  let quality_adjusted := float_to_usize (f32_of bandwidth_capacity * connection_quality n)%f32 in
  let new_max := clamp 1 ABSOLUTE_MAX_CHILDREN quality_adjusted in
  set_max_children n (if bool_decide (role n = Publisher) then Z.max new_max DEFAULT_MAX_CHILDREN else new_max).

Definition latency_factor (latency : Z) : float :=
  if latency <? 50 then f32_of 1
  else if latency <? 100 then f32_lit 9 10
  else if latency <? 200 then f32_lit 7 10
  else if latency <? 500 then f32_lit 5 10
  else f32_lit 3 10.

Definition update_metrics (n : TreeNode) (bandwidth latency : Z) (success_rate : float) (now : Z) : TreeNode :=
  adjust_fan_out (set_metrics n bandwidth latency now (latency_factor latency * success_rate)%f32).

Definition record_failure (n : TreeNode) : TreeNode :=
  adjust_fan_out (set_quality n (connection_quality n * f32_lit 8 10)%f32 (failure_count n + 1)).

Definition record_success (n : TreeNode) : TreeNode :=
  let failures := if 0 <? failure_count n then failure_count n - 1 else failure_count n in
  adjust_fan_out (set_quality n (float_min (connection_quality n + f32_lit 1 10)%f32 (f32_of 1)) failures).

(** [HashSet::insert] and [remove]; the results of the two methods are not used
    by their callers. *)
Definition add_child (n : TreeNode) (peer_id : PeerId) : TreeNode :=
  if can_accept_children n then set_children n ({[peer_id]} ∪ children n) else n.
Definition remove_child (n : TreeNode) (peer_id : PeerId) : TreeNode :=
  set_children n (children n ∖ {[peer_id]}).

(** ** The tree *)

Record StreamTree : Type := {
  nodes : gmap PeerId TreeNode;
  source : option PeerId;
  disconnected_nodes : gmap PeerId (TreeNode * Z);
  last_rebalanced : Z;
  rebalance_count : Z;
  config : TopologyConfig;
}.

Definition new_tree (config : TopologyConfig) (now : Z) : StreamTree :=
  {| nodes := ∅; source := None; disconnected_nodes := ∅; last_rebalanced := now; rebalance_count := 0;
     config := config |}.

Definition with_nodes (self : StreamTree) (v : gmap PeerId TreeNode) : StreamTree :=
  {| nodes := v; source := source self; disconnected_nodes := disconnected_nodes self;
     last_rebalanced := last_rebalanced self; rebalance_count := rebalance_count self; config := config self |}.
Definition with_source (self : StreamTree) (v : option PeerId) : StreamTree :=
  {| nodes := nodes self; source := v; disconnected_nodes := disconnected_nodes self;
     last_rebalanced := last_rebalanced self; rebalance_count := rebalance_count self; config := config self |}.
Definition with_disconnected (self : StreamTree) (v : gmap PeerId (TreeNode * Z)) : StreamTree :=
  {| nodes := nodes self; source := source self; disconnected_nodes := v;
     last_rebalanced := last_rebalanced self; rebalance_count := rebalance_count self; config := config self |}.

Definition set_source (self : StreamTree) (peer_id : PeerId) (now : Z) : StreamTree * bool :=
  match source self with
  | Some _ => (self, false)
  | None => (with_source (with_nodes self (<[peer_id := source_node peer_id now]> (nodes self))) (Some peer_id), true)
  end.

Definition is_source (self : StreamTree) (peer_id : PeerId) : bool := bool_decide (source self = Some peer_id).

Section Ordered.
Context `{!HashOrder PeerId}.

(** The locals [best_parent], [best_depth] and [best_bandwidth]. *)
Definition best_step (peer_id : PeerId) (best : option PeerId * Z * Z) (cand : PeerId * TreeNode)
  : option PeerId * Z * Z :=
  let '(best_parent, best_depth, best_bandwidth) := best in
  let '(candidate_id, node) := cand in
  if can_accept_children node && negb (bool_decide (candidate_id = peer_id))
     && ((depth node <? best_depth)
         || ((depth node =? best_depth) && (best_bandwidth <? bandwidth node)))
  then (Some candidate_id, depth node, bandwidth node)
  else best.

Definition best_parent (ns : gmap PeerId TreeNode) (peer_id : PeerId) : option PeerId * Z * Z :=
  fold_left (best_step peer_id) (map_iter ns) (None, u64_max, 0).

(** The two mutations that make [parent_id] the parent of a peer. *)
Definition attach (ns : gmap PeerId TreeNode) (peer_id parent_id : PeerId) (new_depth : Z) : gmap PeerId TreeNode :=
  alter (fun node => set_depth (set_parent node (Some parent_id)) new_depth) peer_id
    (alter (fun node => add_child node peer_id) parent_id ns).

Definition find_parent_for_peer (self : StreamTree) (peer_id : PeerId) : StreamTree * bool :=
  match source self with
  | None => (self, false)
  | Some source_id =>
      if bool_decide (peer_id = source_id) then (self, true)
      else
        match best_parent (nodes self) peer_id with
        | (Some parent_id, best_depth, _) =>
            (with_nodes self (attach (nodes self) peer_id parent_id (best_depth + 1)), true)
        | (None, _, _) => (self, false)
        end
  end.

Definition add_peer (self : StreamTree) (peer_id : PeerId) (role : PeerRole) (bandwidth now : Z) : StreamTree * bool :=
  match nodes self !! peer_id with
  | Some _ => (self, false)
  | None =>
      let node := set_bandwidth (new_node peer_id role now) bandwidth in
      find_parent_for_peer (with_nodes self (<[peer_id := node]> (nodes self))) peer_id
  end.

(** Taking a node out: its parent forgets it, and it leaves the map. *)
Definition take_out (ns : gmap PeerId TreeNode) (peer_id : PeerId) (node : TreeNode) : gmap PeerId TreeNode :=
  delete peer_id
    (match parent node with
     | Some parent_id => alter (fun p => remove_child p peer_id) parent_id ns
     | None => ns
     end).

(** Each child of the removed node is orphaned and looks for a parent. *)
Definition reconnect_child (self : StreamTree) (child_id : PeerId) : StreamTree :=
  fst (find_parent_for_peer
    (with_nodes self (alter (fun child => set_parent child None) child_id (nodes self))) child_id).

Definition reconnect_children (self : StreamTree) (cs : gset PeerId) : StreamTree :=
  fold_left reconnect_child (set_iter cs) self.

Definition remove_peer (self : StreamTree) (peer_id : PeerId) : StreamTree * bool :=
  match nodes self !! peer_id with
  | None => (self, false)
  | Some node =>
      if is_source self peer_id then (self, false)
      else (reconnect_children (with_nodes self (take_out (nodes self) peer_id node)) (children node), true)
  end.

Definition cleanup_disconnected_nodes (self : StreamTree) (grace_period now : Z) : StreamTree :=
  with_disconnected self
    (filter (fun '(_, (_, time)) => Z.max 0 (now - time) <= grace_period) (disconnected_nodes self)).

(** [now] is the time of the disconnection, [now'] that of the clean-up. *)
Definition handle_temporary_disconnect (self : StreamTree) (peer_id : PeerId) (grace_period now now' : Z)
  : StreamTree * bool :=
  match nodes self !! peer_id with
  | None => (self, false)
  | Some node =>
      if is_source self peer_id then (self, false)
      else
        let self := with_disconnected self (<[peer_id := (node, now)]> (disconnected_nodes self)) in
        let self := with_nodes self (take_out (nodes self) peer_id node) in
        (cleanup_disconnected_nodes (reconnect_children self (children node)) grace_period now', true)
  end.

Definition handle_reconnection (self : StreamTree) (peer_id : PeerId) : StreamTree * bool :=
  match disconnected_nodes self !! peer_id with
  | None => (self, false)
  | Some (node, _) =>
      let self := with_disconnected self (delete peer_id (disconnected_nodes self)) in
      let node := record_success (set_children (set_parent node None) ∅) in
      (fst (find_parent_for_peer (with_nodes self (<[peer_id := node]> (nodes self))) peer_id), true)
  end.

(** [while let Some(node) = self.nodes.get(&current)]: it ends when parents
    do, which is not assured, so it has fuel. *)
Definition path_step (self : StreamTree) (st : PeerId * list PeerId)
  : exec (step (PeerId * list PeerId) (list PeerId)) :=
  let '(current, path) := st in
  match nodes self !! current with
  | None => Done (Break path)
  | Some node =>
      match parent node with
      | Some p => Done (Continue (p, path ++ [current]))
      | None => Done (Break (path ++ [current]))
      end
  end.

Definition get_path_to_peer (fuel : nat) (self : StreamTree) (peer_id : PeerId) : exec (option (list PeerId)) :=
  match nodes self !! peer_id with
  | None => Done None
  | Some _ =>
      let! path := loop fuel (path_step self) (peer_id, []) in
      let path := rev path in
      Done (match path with [] => None | _ => Some path end)
  end.

Record TreeStats : Type := {
  peer_count : Z;
  stats_depth : Z;
  relay_count : Z;
  leaf_count : Z;
}.

Definition get_stats (self : StreamTree) : TreeStats :=
  fold_left (fun stats node =>
    {| peer_count := peer_count stats; stats_depth := Z.max (stats_depth stats) (depth node);
       relay_count := if bool_decide (role node = Relay) then relay_count stats + 1 else relay_count stats;
       leaf_count := if bool_decide (role node = Consumer) then leaf_count stats + 1 else leaf_count stats |})
    (values (nodes self))
    {| peer_count := Z.of_nat (size (nodes self)); stats_depth := 0; relay_count := 0; leaf_count := 0 |}.

Definition get_peers_at_depth (self : StreamTree) (d : Z) : list PeerId :=
  map peer_id (List.filter (fun node => depth node =? d) (values (nodes self))).

Definition get_children (self : StreamTree) (peer_id : PeerId) : option (gset PeerId) :=
  children <$> nodes self !! peer_id.
Definition get_parent (self : StreamTree) (peer_id : PeerId) : option PeerId := nodes self !! peer_id ≫= parent.
Definition contains_peer (self : StreamTree) (peer_id : PeerId) : bool := bool_decide (is_Some (nodes self !! peer_id)).

(** ** Rebalancing *)

Context `{!Libm}.

Definition calculate_geo_score (self : StreamTree) (node1 node2 : TreeNode) : float :=
  if negb (enable_geo_aware (config self)) then f32_lit 1 2
  else
    match location node1, location node2 with
    | Some loc1, Some loc2 =>
        let distance := distance_to loc1 loc2 in
        let distance_score := f64_to_f32 (float_max (f64_of 1 - distance / MAX_EARTH_DISTANCE_KM)%f64 (f64_of 0)) in
        if prefer_same_region (config self) && is_same_region loc1 loc2
        then float_min (distance_score * f32_lit 12 10)%f32 (f32_of 1)
        else distance_score
    | _, _ => f32_lit 1 2
    end.

Definition calculate_candidate_score (self : StreamTree) (candidate child : TreeNode) (weights : RelayScoreWeights)
    (max_depth : Z) : float :=
  let depth_score :=
    if 0 <? max_depth then (f32_of 1 - f32_of (depth candidate) / f32_of max_depth)%f32 else f32_of 1 in
  let bw_score :=
    if 0 <? bandwidth candidate
    then f64_to_f32 (float_min (log10 (f64_of (bandwidth candidate)) / f64_of 10)%f64 (f64_of 1))
    else f32_of 0 in
  let lat_score :=
    if latency candidate <? 500 then (f32_of 1 - f32_of (latency candidate) / f32_of 500)%f32 else f32_of 0 in
  let geo_score := calculate_geo_score self candidate child in
  (depth_score * quality_weight weights + bw_score * bandwidth_weight weights
   + lat_score * latency_weight weights + geo_score * geo_weight weights)%f32.

Definition saturating_pred (x : Z) : Z := Z.max 0 (x - 1).

Definition overloaded (node : TreeNode) : bool :=
  ((200 <? latency node) && (1 <? fan_out node))
  || (saturating_pred (max_children node) <=? fan_out node)
  || float_lt (connection_quality node) (f32_lit 7 10).

Definition has_capacity (node : TreeNode) : bool :=
  can_accept_children node
  && (fan_out node <? saturating_pred (max_children node))
  && float_lt (f32_lit 8 10) (connection_quality node).

(** The best candidate for a child, by score. *)
Definition score_step (self : StreamTree) (child_id : PeerId) (child : TreeNode)
    (best : option PeerId * float) (candidate_id : PeerId) : option PeerId * float :=
  if bool_decide (candidate_id = child_id) then best
  else
    match nodes self !! candidate_id with
    | None => best
    | Some candidate =>
        if negb (can_accept_children candidate) then best
        else
          let score := calculate_candidate_score self candidate child (score_weights (config self))
                         (max_tree_depth (config self)) in
          if float_lt (snd best) score then (Some candidate_id, score) else best
    end.

Definition best_candidate (self : StreamTree) (child_id : PeerId) (child : TreeNode) (candidates : list PeerId)
  : option PeerId :=
  fst (fold_left (score_step self child_id child) candidates (None, neg_infinity)).

(** The mutations that move a child between two parents. *)
Definition move_child (ns : gmap PeerId TreeNode) (child_id old_parent new_parent : PeerId) : gmap PeerId TreeNode :=
  let ns := alter (fun n => remove_child n child_id) old_parent ns in
  let ns := alter (fun n => add_child n child_id) new_parent ns in
  let parent_depth := match ns !! new_parent with Some p => depth p | None => 0 end in
  alter (fun child => set_depth (set_parent child (Some new_parent)) (parent_depth + 1)) child_id ns.

Definition rebalance_child (candidates : list PeerId) (overloaded_id : PeerId) (st : StreamTree * bool)
    (child_id : PeerId) : StreamTree * bool :=
  let '(self, changes_made) := st in
  match nodes self !! child_id with
  | None => st
  | Some child_node =>
      match best_candidate self child_id child_node candidates with
      | Some new_parent_id =>
          (with_nodes self (move_child (nodes self) child_id overloaded_id new_parent_id), true)
      | None => st
      end
  end.

Definition to_move (node : TreeNode) : Z :=
  let n := fan_out node in
  if float_lt (connection_quality node) (f32_lit 5 10) then Z.max n 1 / 2 else Z.max n 1 / 3.

Definition rebalance_node (candidates : list PeerId) (st : StreamTree * bool) (overloaded_id : PeerId)
  : StreamTree * bool :=
  match nodes (fst st) !! overloaded_id with
  | None => st
  | Some node =>
      let cs := set_iter (children node) in
      fold_left (rebalance_child candidates overloaded_id) (take (Z.to_nat (Z.min (to_move node) (zlen cs))) cs) st
  end.

Definition orphan (self : StreamTree) (id : PeerId) (node : TreeNode) : bool :=
  match parent node, source self with
  | None, Some src => negb (bool_decide (id = src))
  | _, _ => false
  end.

Definition adopt (st : StreamTree * bool) (orphan_id : PeerId) : StreamTree * bool :=
  let '(self, changes_made) := st in
  let '(self, found) := find_parent_for_peer self orphan_id in
  (self, changes_made || found).

Definition rebalance (self : StreamTree) (now : Z) : StreamTree * bool :=
  let self := {| nodes := nodes self; source := source self; disconnected_nodes := disconnected_nodes self;
                 last_rebalanced := now; rebalance_count := rebalance_count self + 1; config := config self |} in
  let all := map_iter (nodes self) in
  let overloaded_nodes := map fst (List.filter (fun '(_, node) => overloaded node) all) in
  let candidates := map fst (List.filter (fun '(_, node) => has_capacity node) all) in
  match candidates, overloaded_nodes with
  | [], _ | _, [] => (self, false)
  | _, _ =>
      let st := fold_left (rebalance_node candidates) overloaded_nodes (self, false) in
      let orphans := map fst (List.filter (fun '(id, node) => orphan (fst st) id node) (map_iter (nodes (fst st)))) in
      fold_left adopt orphans st
  end.

End Ordered.
End Tree.

Arguments TreeNode PeerId {_ _}.
Arguments StreamTree PeerId {_ _}.
