(* ===== verification/StreamTreeProps.v ===== *)
(** * Properties of the distribution tree

    The invariant that links parents and children, its preservation by every
    operation of [core/src/overlay/tree.rs], the choice of the best parent, the
    paths that [get_path_to_peer] returns, and the ways the tree can go wrong. *)

From S2P Require Import Prelude Rust Float Geo Hash StreamTree.

#[local] Open Scope Z_scope.

Section Props.
Context {PeerId : Type} `{Countable PeerId}.

#[local] Abbreviation Node := (TreeNode PeerId).
#[local] Abbreviation Nodes := (gmap PeerId Node).
Implicit Types (m n : Node) (ns : Nodes) (p q c s : PeerId) (D : gset PeerId).

(** ** The invariant *)

(** Parents and children agree, except that the parent fields of the peers in
    [S] are stale and that nothing is said of the links to the peers in [D]; a node has at most seven children and consumers have none;
    the source is a node without a parent that nobody lists, and without a
    source no two nodes are linked. *)
Record linked (D S : gset PeerId) (src : option PeerId) (ns : Nodes) : Prop := {
  lk_id p n : ns !! p = Some n -> peer_id n = p;
  lk_parent p n q : ns !! p = Some n -> p ∉ S -> p ∉ D -> parent n = Some q ->
    exists m, ns !! q = Some m /\ (p ∈ children m);
  lk_child q m p : ns !! q = Some m -> (p ∈ children m) -> p ∉ D ->
    (p ∉ S) /\ exists n, ns !! p = Some n /\ parent n = Some q;
  lk_self p n : ns !! p = Some n -> p ∉ children n;
  lk_source s : src = Some s -> (s ∉ S) /\ (forall q m, ns !! q = Some m -> s ∉ children m) /\
    exists n, ns !! s = Some n /\ parent n = None;
  lk_alone p n : src = None -> ns !! p = Some n -> parent n = None /\ children n = ∅;
  lk_fan p n : ns !! p = Some n -> fan_out n <= ABSOLUTE_MAX_CHILDREN /\
    1 <= max_children n <= ABSOLUTE_MAX_CHILDREN /\ (role n = Consumer -> children n = ∅);
}.

(** Nobody has the peer as a child. *)
Definition unlisted (ns : Nodes) (c : PeerId) : Prop := forall q m, ns !! q = Some m -> c ∉ children m.

(** Who may be given a parent: nobody lists it, unless nothing is said of it. *)
Definition loose (D : gset PeerId) (ns : Nodes) (c : PeerId) : Prop := c ∉ D -> is_Some (ns !! c) /\ unlisted ns c.

Lemma linked_unlisted {D} S src ns c n : linked D S src ns -> ns !! c = Some n ->
  c ∈ S \/ parent n = None -> loose D ns c.
Proof.
  intros L Hc Hor HD. split; [by eexists|]. intros q m Hq Hin. destruct (lk_child _ _ _ _ L q m c Hq Hin HD) as (HS & n' & Hn' & Hp).
  rewrite Hc in Hn'. injection Hn' as <-. destruct Hor; [done|congruence].
Qed.

Lemma linked_weaken D D' S src ns : linked D S src ns -> D ⊆ D' -> linked D' S src ns.
Proof.
  intros L HD. split; try apply L.
  - intros p n q Hp HS HpD. apply (lk_parent _ _ _ _ L); [done..|set_solver].
  - intros q m p Hq Hin HpD. apply (lk_child _ _ _ _ L q m p); [done..|set_solver].
Qed.

(** ** Nodes *)

Lemma fan_out_add (m : Node) (c : PeerId) : can_accept_children m = true -> fan_out (add_child m c) <= max_children m.
Proof.
  intros Ha. unfold add_child. rewrite Ha. unfold can_accept_children in Ha.
  apply andb_true_iff in Ha as [[_ Hlt%Z.ltb_lt]%andb_true_iff _]. unfold fan_out in *. cbn [children set_children].
  assert (Hs : size ({[c]} ∪ children m) = (size ({[c]} : gset PeerId) + size (children m ∖ {[c]}))%nat)
    by (rewrite <- size_union by set_solver; f_equal; apply set_eq; intros x; destruct (decide (x = c)); set_solver).
  assert (children m ∖ {[c]} ⊆ children m) as Hsub%subseteq_size by set_solver. rewrite size_singleton in Hs. lia.
Qed.

Lemma can_accept_not_consumer (m : Node) : can_accept_children m = true -> role m <> Consumer.
Proof.
  unfold can_accept_children. intros [[Hr%negb_true_iff%bool_decide_eq_false _]%andb_true_iff _]%andb_true_iff. done.
Qed.

Lemma clamp_range (lo hi x : Z) : lo <= hi -> lo <= clamp lo hi x <= hi.
Proof. intros. unfold clamp. destruct (Z.ltb_spec x lo); [lia|]. destruct (Z.ltb_spec hi x); lia. Qed.

Lemma adjust_fan_out_range n :
  1 <= max_children (adjust_fan_out n) <= ABSOLUTE_MAX_CHILDREN /\
  (role n = Publisher -> DEFAULT_MAX_CHILDREN <= max_children (adjust_fan_out n)).
Proof.
  unfold adjust_fan_out, ABSOLUTE_MAX_CHILDREN, DEFAULT_MAX_CHILDREN. cbn [max_children set_max_children].
  match goal with |- context [clamp 1 7 ?x] => pose proof (clamp_range 1 7 x ltac:(lia)) end.
  case_bool_decide; split; try done; lia.
Qed.

(** ** Lookups in updated maps *)

Lemma lookup_attach (ns : Nodes) c q d p : q <> c ->
  attach ns c q d !! p =
    if decide (p = c) then (fun n => set_depth (set_parent n (Some q)) d) <$> ns !! c
    else if decide (p = q) then (fun m => add_child m c) <$> ns !! q
    else ns !! p.
Proof.
  intros Hq. unfold attach. destruct (decide (p = c)) as [->|Hc].
  - by rewrite lookup_alter_eq, lookup_alter_ne by done.
  - rewrite lookup_alter_ne by done. destruct (decide (p = q)) as [->|]; [by rewrite lookup_alter_eq|].
    by rewrite lookup_alter_ne by done.
Qed.

(** What becomes of a node: the peer [c] has the parent [q], which lists it. *)
Definition attached (c q p : PeerId) (n n' : Node) : Prop :=
  peer_id n' = peer_id n /\ role n' = role n /\ max_children n' = max_children n /\
  parent n' = (if decide (p = c) then Some q else parent n) /\
  children n' = (if decide (p = q) then {[c]} ∪ children n else children n) /\ (p = q -> fan_out n' <= max_children n).

Lemma attach_found (ns : Nodes) c q d m p n : q <> c -> ns !! q = Some m -> can_accept_children m = true ->
  ns !! p = Some n -> exists n', attach ns c q d !! p = Some n' /\ attached c q p n n'.
Proof.
  intros Hne Hq Ha Hp. rewrite lookup_attach by done. unfold attached. destruct (decide (p = c)) as [->|]; [|destruct (decide (p = q)) as [->|]].
  - rewrite Hp, (decide_False _ _ (not_eq_sym Hne)). eexists. split; [done|]. by split_and!.
  - assert (n = m) as -> by congruence. rewrite Hp. eexists. split; [done|]. pose proof (fan_out_add m c Ha) as Hf. revert Hf. unfold add_child. rewrite Ha. intros Hf. by split_and!.
  - exists n. by split_and!.
Qed.

Lemma attach_back (ns : Nodes) c q d m p n' : q <> c -> ns !! q = Some m -> can_accept_children m = true ->
  attach ns c q d !! p = Some n' -> exists n, ns !! p = Some n /\ attached c q p n n'.
Proof.
  intros Hne Hq Ha Hp. assert (Hsome : is_Some (ns !! p)).
  { revert Hp. rewrite lookup_attach by done. destruct (decide (p = c)) as [->|]; [|destruct (decide (p = q)) as [->|]]; [|by eauto..].
    by destruct (ns !! c). }
  destruct Hsome as [n Hn]. destruct (attach_found ns c q d m p n Hne Hq Ha Hn) as (n2 & Hn2 & Hat). exists n. split; [done|]. congruence.
Qed.

(** Giving a loose peer a parent that accepts it. *)
Lemma attach_linked {D} S s ns c q m d :
  linked D S (Some s) ns -> loose D ns c -> s <> c ->
  ns !! q = Some m -> can_accept_children m = true -> q <> c ->
  linked D (S ∖ {[c]}) (Some s) (attach ns c q d).
Proof.
  intros L Hc Hs Hq Ha Hqc.
  assert (Hback := fun p n' => attach_back ns c q d m p n' Hqc Hq Ha). assert (Hfwd := fun p n => attach_found ns c q d m p n Hqc Hq Ha).
  split.
  - intros p n' (n & Hn & -> & _)%Hback. exact (lk_id _ _ _ _ L p n Hn).
  - intros p n' r (n & Hn & _ & _ & _ & -> & _)%Hback HS HD Hpar.
    assert (Hlists : exists y, ns !! r = Some y /\ (p ∈ children y \/ r = q /\ p = c)).
    { destruct (decide (p = c)) as [->|Hne]; [injection Hpar as <-; exists m; auto|].
      destruct (lk_parent _ _ _ _ L p n r Hn ltac:(set_solver) HD Hpar) as (y & Hy & Hin). exists y. auto. }
    destruct Hlists as (y & Hy & Hin). destruct (Hfwd r y Hy) as (y' & Hy' & _ & _ & _ & _ & Hch & _). exists y'. split; [done|].
    rewrite Hch. destruct (decide (r = q)); [set_solver|naive_solver].
  - intros r y' p (y & Hy & _ & _ & _ & _ & Hch & _)%Hback Hin HD.
    destruct (decide (p = c)) as [->|Hpc].
    + destruct (Hc HD) as [[n Hn] Hun]. assert (r = q) as ->.
      { destruct (decide (r = q)); [done|]. rewrite Hch in Hin. by destruct (Hun r y). }
      split; [set_solver|]. destruct (Hfwd c n Hn) as (n' & Hn' & _ & _ & _ & Hpar & _). exists n'. by rewrite Hpar, decide_True.
    + destruct (lk_child _ _ _ _ L r y p Hy) as (HS & n & Hn & Hpar); [destruct (decide (r = q)); set_solver|done|].
      split; [set_solver|]. destruct (Hfwd p n Hn) as (n' & Hn' & _ & _ & _ & Hpar' & _). exists n'. by rewrite Hpar', decide_False.
  - intros p n' (n & Hn & _ & _ & _ & _ & Hch & _)%Hback Hin. pose proof (lk_self _ _ _ _ L p n Hn).
    rewrite Hch in Hin. destruct (decide (p = q)); set_solver.
  - intros s' [= <-]. destruct (lk_source _ _ _ _ L s eq_refl) as (HS & Hun & n & Hn & Hpar). split; [set_solver|]. split.
    + intros r y' (y & Hy & _ & _ & _ & _ & -> & _)%Hback. specialize (Hun r y Hy). destruct (decide (r = q)); set_solver.
    + destruct (Hfwd s n Hn) as (n' & Hn' & _ & _ & _ & Hpar' & _). exists n'. by rewrite Hpar', decide_False.
  - done.
  - intros p n' (n & Hn & _ & Hr & Hmax & _ & Hch & Hf)%Hback. destruct (lk_fan _ _ _ _ L p n Hn) as (Hfan & Hm & Hcons).
    rewrite Hmax, Hr. destruct (decide (p = q)) as [->|].
    + assert (n = m) as -> by congruence. split_and!; [specialize (Hf eq_refl); lia|lia..|]. intros Hrole. by destruct (can_accept_not_consumer m Ha).
    + unfold fan_out in *. rewrite Hch. split_and!; [done|lia..|done].
Qed.

(** ** Choosing a parent *)

(** Who may become the parent of [c], and who is at least as good as all. *)
Definition eligible (ns : Nodes) (c q : PeerId) (m : Node) : Prop :=
  ns !! q = Some m /\ can_accept_children m = true /\ q <> c.

Definition no_worse (m m' : Node) : Prop :=
  depth m < depth m' \/ (depth m = depth m' /\ bandwidth m' <= bandwidth m).

Definition best_choice (ns : Nodes) (c q : PeerId) (m : Node) : Prop :=
  eligible ns c q m /\ forall q' m', eligible ns c q' m' -> no_worse m m'.

(** What the loop knows of the entries it has passed. *)
Definition scanned (c : PeerId) (l : list (PeerId * Node)) (best : option PeerId * Z * Z) : Prop :=
  match best with
  | (None, d, b) => d = u64_max /\ b = 0 /\
      forall q m, ((q, m) ∈ l) -> can_accept_children m = true -> q = c
  | (Some q, d, b) => exists m, ((q, m) ∈ l) /\ can_accept_children m = true /\ q <> c /\ d = depth m /\ b = bandwidth m /\
      forall q' m', ((q', m') ∈ l) -> can_accept_children m' = true -> q' <> c -> no_worse m m'
  end.

Lemma scanned_skip c l best q m : scanned c l best -> (can_accept_children m = true -> q = c) ->
  scanned c (l ++ [(q, m)]) best.
Proof.
  destruct best as [[[q0|] d] b]; cbn.
  - intros (m0 & Hin & Ha0 & Hne & Hd & Hb & Hbest) Hskip. exists m0. split_and!; [set_solver|done..|].
    intros q' m' [Hin'|[= -> ->]%list_elem_of_singleton]%elem_of_app Ha'; [by apply Hbest|naive_solver].
  - intros (? & ? & Hno) Hskip. split_and!; [done..|].
    intros q' m' [Hin'|[= -> ->]%list_elem_of_singleton]%elem_of_app Ha'; [by eapply Hno|naive_solver].
Qed.

Lemma scanned_step c l best q m : scanned c l best -> depth m < u64_max ->
  scanned c (l ++ [(q, m)]) (best_step c best (q, m)).
Proof.
  intros Hs Hdm. destruct best as [[bp bd] bb]. unfold best_step.
  destruct (can_accept_children m) eqn:Ha; cbn [andb]; [|apply scanned_skip; [done|by rewrite Ha]].
  case_bool_decide as Hqc; cbn [negb andb]; [by apply scanned_skip|].
  destruct bp as [q0|].
  - destruct Hs as (m0 & Hin & Ha0 & Hne & -> & -> & Hbest). unfold no_worse in *.
    destruct ((depth m <? depth m0) || ((depth m =? depth m0) && (bandwidth m0 <? bandwidth m))) eqn:Hb.
    + assert (Hlt : depth m < depth m0 \/ (depth m = depth m0 /\ bandwidth m0 < bandwidth m)).
      { apply orb_true_iff in Hb as [?|?]; reflect_bools; lia. }
      exists m. unfold no_worse. split_and!; [set_solver|done..|].
      intros q' m' [Hin'|[= -> ->]%list_elem_of_singleton]%elem_of_app Ha' Hne'; [|lia].
      specialize (Hbest q' m' Hin' Ha' Hne'). lia.
    + assert (Hge : depth m0 < depth m \/ (depth m0 = depth m /\ bandwidth m <= bandwidth m0)).
      { apply orb_false_iff in Hb as [?%Z.ltb_ge Hb]. apply andb_false_iff in Hb as [?%Z.eqb_neq|?%Z.ltb_ge]; lia. }
      exists m0. unfold no_worse. split_and!; [set_solver|done..|].
      intros q' m' [Hin'|[= -> ->]%list_elem_of_singleton]%elem_of_app Ha' Hne'; [by apply (Hbest q')|lia].
  - destruct Hs as (-> & -> & Hno). destruct (Z.ltb_spec (depth m) u64_max); [|lia]. cbn [orb].
    exists m. unfold no_worse. split_and!; [set_solver|done..|].
    intros q' m' [Hin'|[= -> ->]%list_elem_of_singleton]%elem_of_app Ha' Hne'; [|lia]. by specialize (Hno q' m' Hin' Ha').
Qed.

Section Ordered.
Context `{!HashOrder PeerId}.

Lemma best_parent_scanned ns c : (forall p n, ns !! p = Some n -> depth n < u64_max) ->
  scanned c (map_iter ns) (best_parent ns c).
Proof.
  intros Hd. unfold best_parent.
  assert (Hall : Forall (fun e => depth (snd e) < u64_max) (map_iter ns)).
  { apply list.Forall_forall. intros [p n] Hin%elem_of_map_iter. by apply (Hd p). }
  induction (map_iter ns) as [|[q m] l IH] using rev_ind.
  - cbn. split_and!; [done..|]. intros q m Hin. by apply not_elem_of_nil in Hin.
  - apply list.Forall_app in Hall as [Hall Hm]. apply list.Forall_cons in Hm as [Hm _].
    rewrite fold_left_app. cbn [fold_left]. by apply scanned_step; [apply IH|].
Qed.

(** The outcome of the search. *)
Lemma best_parent_spec ns c : (forall p n, ns !! p = Some n -> depth n < u64_max) ->
  match best_parent ns c with
  | (None, _, _) => forall q m, ~ eligible ns c q m
  | (Some q, d, _) => exists m, best_choice ns c q m /\ d = depth m
  end.
Proof.
  intros Hd. pose proof (best_parent_scanned ns c Hd) as Hs.
  destruct (best_parent ns c) as [[[q|] d] b]; cbn in Hs.
  - destruct Hs as (m & Hin%elem_of_map_iter & Ha & Hne & -> & _ & Hbest). exists m. split; [|done]. split; [done|].
    intros q' m' (Hq' & Ha' & Hne'). apply (Hbest q'); [by apply elem_of_map_iter|done..].
  - destruct Hs as (_ & _ & Hno). intros q m (Hq & Ha & Hne). apply Hne, (Hno q m); [by apply elem_of_map_iter|done].
Qed.

(** Even without a bound on depths a chosen parent is eligible. *)
Lemma best_parent_eligible ns c q d b : best_parent ns c = (Some q, d, b) -> exists m, eligible ns c q m.
Proof.
  unfold best_parent. enough (Hgen : forall l best, (forall e, e ∈ l -> ns !! fst e = Some (snd e)) ->
    (forall q, fst (fst best) = Some q -> exists m, eligible ns c q m) ->
    forall q, fst (fst (fold_left (best_step c) l best)) = Some q -> exists m, eligible ns c q m).
  { intros Heq. apply (Hgen (map_iter ns) (None, u64_max, 0)); [|done|by rewrite Heq].
    intros [p n] Hin. by apply elem_of_map_iter. }
  clear. induction l as [|[q m] l IH]; intros best Hl Hb; [done|]. cbn [fold_left]. apply IH; [set_solver|].
  intros q' Hq'. destruct best as [[bp bd] bb]. unfold best_step in Hq'.
  destruct (can_accept_children m && negb (bool_decide (q = c)) && _) eqn:E; [|by apply Hb].
  injection Hq' as <-. apply andb_true_iff in E as [[Ha Hne%negb_true_iff%bool_decide_eq_false]%andb_true_iff _].
  exists m. split_and!; [apply (Hl (q, m)); set_solver|done..].
Qed.

(** ** Preservation *)

(** A stale parent field may be cleared, and a cleared one is not stale. *)
Lemma clear_parent_linked {D} S src ns c : linked D S src ns -> c ∈ S ->
  linked D (S ∖ {[c]}) src (alter (fun child => set_parent child None) c ns).
Proof.
  intros L HS.
  assert (Hl : forall p x, alter (fun child => set_parent child None) c ns !! p = Some x ->
    exists x', ns !! p = Some x' /\ children x = children x' /\ peer_id x = peer_id x' /\ (p <> c -> x = x') /\
      (p = c -> parent x = None) /\ max_children x = max_children x' /\ role x = role x').
  { intros p x. destruct (decide (p = c)) as [->|Hne].
    - rewrite lookup_alter_eq. destruct (ns !! c) as [n|]; [|done]. intros [= <-]. exists n. by split_and!.
    - rewrite lookup_alter_ne by done. intros Hx. exists x. by split_and!. }
  assert (Hr : forall p x', ns !! p = Some x' -> exists x,
    alter (fun child => set_parent child None) c ns !! p = Some x /\ children x = children x' /\ (p <> c -> x = x')).
  { intros p x' Hx. destruct (decide (p = c)) as [->|Hne].
    - rewrite lookup_alter_eq, Hx. eexists. by split_and!.
    - rewrite lookup_alter_ne by done. by exists x'. }
  split.
  - intros p x (x' & Hx' & _ & -> & _)%Hl. exact (lk_id _ _ _ _ L p x' Hx').
  - intros p x q (x' & Hx' & _ & _ & Heq & Hnone & _)%Hl HpS HpD Hpar.
    destruct (decide (p = c)) as [->|Hne]; [by rewrite Hnone in Hpar|]. rewrite (Heq Hne) in Hpar.
    destruct (lk_parent _ _ _ _ L p x' q Hx' ltac:(set_solver) HpD Hpar) as (m & Hm & Hin).
    destruct (Hr q m Hm) as (y & Hy & Hch & _). exists y. split; [done|]. by rewrite Hch.
  - intros q m p (m' & Hm' & Hch & _)%Hl Hin HpD. rewrite Hch in Hin.
    destruct (lk_child _ _ _ _ L q m' p Hm' Hin HpD) as (HpS & x & Hx & Hpar). split; [set_solver|].
    assert (p <> c) by (by intros ->).
    destruct (Hr p x Hx) as (y & Hy & _ & Heq). exists y. split; [done|]. by rewrite Heq.
  - intros p x (x' & Hx' & -> & _)%Hl. exact (lk_self _ _ _ _ L p x' Hx').
  - intros s Hs. destruct (lk_source _ _ _ _ L s Hs) as (HsS & Hun & x & Hx & Hpar). split; [set_solver|]. split.
    + intros q y (y' & Hy' & -> & _)%Hl. by apply (Hun q).
    + destruct (Hr s x Hx) as (y & Hy & _ & Heq). exists y. split; [done|]. rewrite Heq; [done|]. intros ->. done.
  - intros p x Hs (x' & Hx' & Hch & _ & Heq & Hnone & _)%Hl. destruct (lk_alone _ _ _ _ L p x' Hs Hx') as [? ?].
    rewrite Hch. split; [|done]. destruct (decide (p = c)); [auto|]. rewrite Heq; done.
  - intros p x (x' & Hx' & Hch & _ & _ & _ & Hmax & Hrole)%Hl. unfold fan_out. rewrite Hch, Hmax, Hrole.
    apply (lk_fan _ _ _ _ L p x' Hx').
Qed.

(** What an operation may not change. *)
Definition same_peers (a b : StreamTree PeerId) : Prop :=
  source b = source a /\ disconnected_nodes b = disconnected_nodes a /\
  forall p, is_Some (nodes b !! p) <-> is_Some (nodes a !! p).

Lemma same_peers_refl a : same_peers a a.
Proof. done. Qed.

Lemma same_peers_trans t1 t2 t3 : same_peers t1 t2 -> same_peers t2 t3 -> same_peers t1 t3.
Proof.
  intros (E1 & E2 & Hp) (E3 & E4 & Hq). split_and!; [congruence..|]. intros p. by rewrite Hq.
Qed.

(** Searching a parent for a loose peer. *)
Lemma find_parent_linked {D} S self c : linked D S (source self) (nodes self) -> c ∉ S -> loose D (nodes self) c ->
  let self' := fst (find_parent_for_peer self c) in
  same_peers self self' /\ linked D S (source self') (nodes self').
Proof.
  intros L HS Hc. unfold find_parent_for_peer. destruct (source self) as [s|] eqn:Hs; [|by cbn; rewrite Hs].
  case_bool_decide as Hcs; [by cbn; rewrite Hs|].
  destruct (best_parent (nodes self) c) as [[[q|] d] b] eqn:Hb; [|by cbn; rewrite Hs].
  destruct (best_parent_eligible _ _ _ _ _ Hb) as (m & Hq & Ha & Hne). cbn. rewrite Hs.
  pose proof (attach_linked S s (nodes self) c q m (d + 1) L Hc (not_eq_sym Hcs) Hq Ha Hne) as L'.
  replace (S ∖ {[c]}) with S in L' by set_solver. split; [|done]. split_and!; [done..|]. cbn.
  intros p. rewrite lookup_attach by done. destruct (decide (p = c)) as [->|]; [by rewrite fmap_is_Some|].
  destruct (decide (p = q)) as [->|]; [by rewrite fmap_is_Some|done].
Qed.

Lemma reconnect_child_linked {D} S self c : linked D S (source self) (nodes self) -> c ∈ S -> (c ∉ D -> is_Some (nodes self !! c)) ->
  let self' := reconnect_child self c in
  same_peers self self' /\ linked D (S ∖ {[c]}) (source self') (nodes self').
Proof.
  intros L HS Hc. pose proof (clear_parent_linked S _ _ c L HS) as L1. unfold reconnect_child.
  set (self1 := with_nodes self _).
  assert (Hsame : same_peers self self1).
  { split_and!; [done..|]. intros p. cbn. destruct (decide (p = c)) as [->|].
    - by rewrite lookup_alter_eq, fmap_is_Some.
    - by rewrite lookup_alter_ne. }
  destruct (find_parent_linked (D := D) (S ∖ {[c]}) self1 c) as [Hs2 L2]; [done|set_solver| |].
  - intros HD. destruct (Hc HD) as [n Hn].
    apply (linked_unlisted (D := D) (S ∖ {[c]}) (source self1) _ c (set_parent n None)); [done|cbn; by rewrite lookup_alter_eq, Hn|by right|done].
  - split; [|done]. by eapply same_peers_trans.
Qed.

Lemma reconnect_list_linked {D} l self : NoDup l -> linked D (list_to_set l) (source self) (nodes self) ->
  Forall (fun c => c ∉ D -> is_Some (nodes self !! c)) l ->
  let self' := fold_left reconnect_child l self in
  same_peers self self' /\ linked D ∅ (source self') (nodes self').
Proof.
  revert self. induction l as [|c l IH]; intros self Hnd L Hin; [done|]. cbn [fold_left].
  apply NoDup_cons in Hnd as [Hc Hnd]. apply list.Forall_cons in Hin as [Hc' Hin].
  destruct (reconnect_child_linked _ self c L ltac:(set_solver) Hc') as [Hs1 L1].
  replace (list_to_set (c :: l) ∖ {[c]}) with (list_to_set l : gset PeerId) in L1 by set_solver.
  destruct (IH _ Hnd L1) as [Hs2 L2].
  { eapply list.Forall_impl; [exact Hin|]. intros p Hp HD. by apply Hs1, Hp. }
  split; [|done]. by eapply same_peers_trans.
Qed.
End Ordered.

(** Taking a node out leaves the parent fields of its children stale. *)
Lemma take_out_linked {D} src ns p n : linked D ∅ src ns -> ns !! p = Some n -> src <> Some p ->
  linked D (children n) src (take_out ns p n) /\
  (forall x, is_Some (take_out ns p n !! x) <-> x <> p /\ is_Some (ns !! x)).
Proof.
  intros L Hp Hsrc.
  assert (Hback : forall x y, take_out ns p n !! x = Some y -> x <> p /\ exists y', ns !! x = Some y' /\
    peer_id y = peer_id y' /\ parent y = parent y' /\ max_children y = max_children y' /\ role y = role y' /\
    children y ⊆ children y' /\ (parent n = Some x -> p ∉ children y)).
  { intros x y. unfold take_out. rewrite lookup_delete_Some. intros [Hne Hx]. split; [done|].
    destruct (parent n) as [q|] eqn:Epar; [|by exists y].
    destruct (decide (x = q)) as [->|Hxq].
    - rewrite lookup_alter_eq in Hx. destruct (ns !! q) as [y'|]; [|done]. injection Hx as <-.
      exists y'. split_and!; try done; cbn; set_solver.
    - rewrite lookup_alter_ne in Hx by done. exists y. split_and!; try done. congruence. }
  assert (Hfwd : forall x y', x <> p -> ns !! x = Some y' -> exists y, take_out ns p n !! x = Some y /\
    parent y = parent y' /\ (forall c, c <> p -> c ∈ children y' -> c ∈ children y)).
  { intros x y' Hne Hx. unfold take_out. rewrite lookup_delete_ne by done.
    destruct (parent n) as [q|]; [|by exists y'].
    destruct (decide (x = q)) as [->|Hxq].
    - rewrite lookup_alter_eq, Hx. eexists. split_and!; [done..|]. cbn. set_solver.
    - rewrite lookup_alter_ne by done. by exists y'. }
  split.
  2:{ intros x. split.
      - intros [y Hy]. apply Hback in Hy as (? & y' & Hy' & _). by eauto.
      - intros [Hne [y' Hy']]. destruct (Hfwd x y' Hne Hy') as (y & Hy & _). by exists y. }
  split.
  - intros x y (_ & y' & Hy' & -> & _)%Hback. exact (lk_id _ _ _ _ L x y' Hy').
  - intros x y r (Hne & y' & Hy' & _ & Hpar & _)%Hback Hx HD Hr. rewrite Hpar in Hr.
    destruct (lk_parent _ _ _ _ L x y' r Hy' ltac:(set_solver) HD Hr) as (m & Hm & Hin).
    assert (r <> p) by (intros ->; rewrite Hp in Hm; by injection Hm as <-).
    destruct (Hfwd r m) as (m' & Hm' & _ & Hch); [done..|]. exists m'. auto.
  - intros r y x (Hne & y' & Hy' & _ & _ & _ & _ & Hsub & Hnp)%Hback Hin HD.
    destruct (lk_child _ _ _ _ L r y' x Hy' ltac:(set_solver) HD) as (_ & z & Hz & Hpar).
    assert (Hxp : x <> p).
    { intros ->. rewrite Hp in Hz. injection Hz as <-. by apply (Hnp Hpar). }
    destruct (Hfwd x z Hxp Hz) as (z' & Hz' & Hpar' & _). split; [|exists z'; by rewrite Hpar'].
    intros Hxn. destruct (lk_child _ _ _ _ L p n x Hp Hxn HD) as (_ & z2 & Hz2 & Hpar2). congruence.
  - intros x y (_ & y' & Hy' & _ & _ & _ & _ & Hsub & _)%Hback. pose proof (lk_self _ _ _ _ L x y' Hy'). set_solver.
  - intros s Hs. destruct (lk_source _ _ _ _ L s Hs) as (_ & Hun & y & Hy & Hpar).
    assert (s <> p) by congruence. split; [by apply (Hun p)|]. split.
    + intros q z (_ & z' & Hz' & _ & _ & _ & _ & Hsub & _)%Hback. specialize (Hun q z' Hz'). set_solver.
    + destruct (Hfwd s y) as (y' & Hy' & Hpar' & _); [done..|]. exists y'. by rewrite Hpar'.
  - intros x y Hs (_ & y' & Hy' & _ & -> & _ & _ & Hsub & _)%Hback.
    destruct (lk_alone _ _ _ _ L x y' Hs Hy') as [? Hch]. split; [done|]. rewrite Hch in Hsub. set_solver.
  - intros x y (_ & y' & Hy' & _ & _ & Hmax & Hrole & Hsub & _)%Hback.
    destruct (lk_fan _ _ _ _ L x y' Hy') as (Hf & Hm & Hc). rewrite Hmax, Hrole. split_and!; [|lia..|].
    + unfold fan_out in *. pose proof (subseteq_size _ _ Hsub). lia.
    + intros Hr. specialize (Hc Hr). rewrite Hc in Hsub. set_solver.
Qed.

(** An unconnected node. *)
Definition isolated (p : PeerId) (n : Node) : Prop :=
  peer_id n = p /\ parent n = None /\ children n = ∅ /\ 1 <= max_children n <= ABSOLUTE_MAX_CHILDREN.

(** A node that comes, or comes in the place of another: of that one and its
    children nothing is said then. *)
Lemma insert_linked {D} src ns p n : linked D ∅ src ns -> isolated p n ->
  (forall old, ns !! p = Some old -> p ∈ D /\ children old ⊆ D) -> linked D ∅ src (<[p := n]> ns).
Proof.
  intros L (Hid & Hpar & Hch & Hmax) Hold. split.
  - intros x y [[<- <-]|[Hne Hx]]%lookup_insert_Some; [done|by apply (lk_id _ _ _ _ L)].
  - intros x y q [[<- <-]|[Hne Hx]]%lookup_insert_Some _ HD Hq; [congruence|].
    destruct (lk_parent _ _ _ _ L x y q Hx ltac:(set_solver) HD Hq) as (m & Hm & Hin). exists m. split; [|done].
    rewrite lookup_insert_ne; [done|]. intros ->. destruct (Hold m Hm). set_solver.
  - intros q m x [[<- <-]|[Hne Hx]]%lookup_insert_Some Hin HD; [rewrite Hch in Hin; set_solver|].
    destruct (lk_child _ _ _ _ L q m x Hx Hin HD) as (_ & y & Hy & ?). split; [set_solver|]. exists y.
    rewrite lookup_insert_ne; [done|]. intros ->. by destruct (Hold y Hy).
  - intros x y [[<- <-]|[Hne Hx]]%lookup_insert_Some; [rewrite Hch; set_solver|by apply (lk_self _ _ _ _ L)].
  - intros s Hs. destruct (lk_source _ _ _ _ L s Hs) as (_ & Hun & y & Hy & ?). split; [set_solver|]. split.
    + intros q m [[<- <-]|[Hne Hx]]%lookup_insert_Some; [rewrite Hch; set_solver|by apply (Hun q)].
    + destruct (decide (p = s)) as [->|Hne]; [exists n; by rewrite lookup_insert_eq|]. exists y. by rewrite lookup_insert_ne.
  - intros x y Hs [[<- <-]|[Hne Hx]]%lookup_insert_Some; [done|by apply (lk_alone _ _ _ _ L x)].
  - intros x y [[<- <-]|[Hne Hx]]%lookup_insert_Some; [|by apply (lk_fan _ _ _ _ L x)].
    unfold fan_out, ABSOLUTE_MAX_CHILDREN. rewrite Hch, size_empty. unfold ABSOLUTE_MAX_CHILDREN in Hmax. split_and!; [lia..|done].
Qed.

(** The first source: a node that is there becomes it, or a new one. *)
Lemma choose_source_linked {D} ns s : linked D ∅ None ns -> is_Some (ns !! s) -> linked D ∅ (Some s) ns.
Proof.
  intros L [n Hn]. split; try apply L; try done.
  intros s' [= <-]. split; [set_solver|]. split.
  - intros q m Hq. destruct (lk_alone _ _ _ _ L q m eq_refl Hq) as [_ ->]. set_solver.
  - exists n. split; [done|]. by apply (lk_alone _ _ _ _ L s).
Qed.

Lemma replace_alone_linked {D} ns s n : linked D ∅ None ns -> isolated s n -> linked D ∅ None (<[s := n]> ns).
Proof.
  intros L Hn. rewrite <- insert_delete_eq. apply insert_linked; [|done|by intros old; rewrite lookup_delete_eq].
  assert (Hd : forall x y, delete s ns !! x = Some y -> ns !! x = Some y) by (intros x y; rewrite lookup_delete_Some; tauto).
  split.
  - intros x y Hx%Hd. by apply (lk_id _ _ _ _ L).
  - intros x y q Hx%Hd _ _ Hq. destruct (lk_alone _ _ _ _ L x y eq_refl Hx). congruence.
  - intros q m x Hq%Hd Hin. destruct (lk_alone _ _ _ _ L q m eq_refl Hq) as [_ Hch]. rewrite Hch in Hin. set_solver.
  - intros x y Hx%Hd. by apply (lk_self _ _ _ _ L).
  - done.
  - intros x y _ Hx%Hd. by apply (lk_alone _ _ _ _ L x).
  - intros x y Hx%Hd. by apply (lk_fan _ _ _ _ L x).
Qed.

(** Changing the measurements of a node. *)
Lemma measure_linked {D} src ns p (f : Node -> Node) : linked D ∅ src ns ->
  (forall n, peer_id (f n) = peer_id n /\ parent (f n) = parent n /\ children (f n) = children n /\ role (f n) = role n /\
     1 <= max_children (f n) <= ABSOLUTE_MAX_CHILDREN) ->
  linked D ∅ src (alter f p ns).
Proof.
  intros L Hf.
  assert (Hb : forall x y, alter f p ns !! x = Some y -> exists y', ns !! x = Some y' /\ peer_id y = peer_id y' /\
    parent y = parent y' /\ children y = children y' /\ role y = role y' /\ 1 <= max_children y <= ABSOLUTE_MAX_CHILDREN).
  { intros x y. destruct (decide (x = p)) as [->|Hne].
    - rewrite lookup_alter_eq. destruct (ns !! p) as [y'|]; [|done]. intros [= <-]. exists y'. split; [done|]. apply Hf.
    - rewrite lookup_alter_ne by done. intros Hx. exists y. split_and!; try done; by apply (lk_fan _ _ _ _ L x). }
  assert (Hw : forall x y', ns !! x = Some y' -> exists y, alter f p ns !! x = Some y /\
    parent y = parent y' /\ children y = children y').
  { intros x y' Hx. destruct (decide (x = p)) as [->|Hne].
    - rewrite lookup_alter_eq, Hx. eexists. split; [done|]. split; apply Hf.
    - rewrite lookup_alter_ne by done. by exists y'. }
  split.
  - intros x y (y' & Hy' & -> & _)%Hb. by apply (lk_id _ _ _ _ L).
  - intros x y q (y' & Hy' & _ & -> & _)%Hb HS HD Hq. destruct (lk_parent _ _ _ _ L x y' q Hy' HS HD Hq) as (m & Hm & Hin).
    destruct (Hw q m Hm) as (m' & Hm' & _ & Hch). exists m'. by rewrite Hch.
  - intros q m x (m' & Hm' & _ & _ & -> & _)%Hb Hin HD. destruct (lk_child _ _ _ _ L q m' x Hm' Hin HD) as (? & y & Hy & ?).
    destruct (Hw x y Hy) as (y' & Hy' & Hpar & _). split; [done|]. exists y'. by rewrite Hpar.
  - intros x y (y' & Hy' & _ & _ & -> & _)%Hb. by apply (lk_self _ _ _ _ L x).
  - intros s Hs. destruct (lk_source _ _ _ _ L s Hs) as (? & Hun & y & Hy & ?). split; [done|]. split.
    + intros q m (m' & Hm' & _ & _ & -> & _)%Hb. by apply (Hun q).
    + destruct (Hw s y Hy) as (y' & Hy' & Hpar & _). exists y'. by rewrite Hpar.
  - intros x y Hs (y' & Hy' & _ & -> & -> & _)%Hb. by apply (lk_alone _ _ _ _ L x).
  - intros x y (y' & Hy' & _ & _ & Hch & -> & Hmax)%Hb. destruct (lk_fan _ _ _ _ L x y' Hy') as (Hfan & _ & Hc).
    unfold fan_out in *. by rewrite Hch.
Qed.

(** ** Rebalancing *)

Lemma detach_linked {D} src ns o m c : linked D ∅ src ns -> ns !! o = Some m -> c ∈ children m -> is_Some (ns !! c) ->
  let ns' := alter (fun n => remove_child n c) o ns in
  linked D {[c]} src ns' /\ loose D ns' c.
Proof.
  intros L Ho Hc Hsome ns'. assert (Hco : c <> o) by (intros ->; by destruct (lk_self _ _ _ _ L o m Ho)).
  assert (Hb : forall x y, ns' !! x = Some y -> exists y', ns !! x = Some y' /\ peer_id y = peer_id y' /\
    parent y = parent y' /\ max_children y = max_children y' /\ role y = role y' /\ children y ⊆ children y' /\
    (x = o -> c ∉ children y)).
  { intros x y. unfold ns'. destruct (decide (x = o)) as [->|Hne].
    - rewrite lookup_alter_eq, Ho. intros [= <-]. exists m. split_and!; try done; cbn; set_solver.
    - rewrite lookup_alter_ne by done. by exists y. }
  assert (Hw : forall x y', ns !! x = Some y' -> exists y, ns' !! x = Some y /\ parent y = parent y' /\
    (forall p, p <> c -> p ∈ children y' -> p ∈ children y)).
  { intros x y' Hx. unfold ns'. destruct (decide (x = o)) as [->|Hne].
    - rewrite lookup_alter_eq, Hx. eexists. split_and!; [done..|]. cbn. set_solver.
    - rewrite lookup_alter_ne by done. by exists y'. }
  assert (Hun : c ∉ D -> unlisted ns' c).
  { intros HD q y Hy Hin. destruct (Hb q y Hy) as (y' & Hy' & _ & _ & _ & _ & Hsub & Hno).
    destruct (lk_child _ _ _ _ L q y' c Hy' ltac:(set_solver) HD) as (_ & z & Hz & Hpz).
    destruct (lk_child _ _ _ _ L o m c Ho Hc HD) as (_ & nc & Hnc & Hpc).
    apply Hno; [congruence|done]. }
  split.
  2:{ intros HD. split; [|by apply Hun]. unfold ns'. by rewrite lookup_alter_ne by done. }
  split.
  - intros x y (y' & Hy' & -> & _)%Hb. by apply (lk_id _ _ _ _ L).
  - intros x y q (y' & Hy' & _ & -> & _)%Hb Hx HD Hq.
    destruct (lk_parent _ _ _ _ L x y' q Hy' ltac:(set_solver) HD Hq) as (z & Hz & Hin).
    destruct (Hw q z Hz) as (z' & Hz' & _ & Hch). exists z'. split; [done|]. apply Hch; [set_solver|done].
  - intros q y x Hy Hin HD. assert (x <> c) by (intros ->; by apply (Hun HD q y)).
    destruct (Hb q y Hy) as (y' & Hy' & _ & _ & _ & _ & Hsub & _).
    destruct (lk_child _ _ _ _ L q y' x Hy' ltac:(set_solver) HD) as (_ & z & Hz & Hpz).
    destruct (Hw x z Hz) as (z' & Hz' & Hpar & _). split; [set_solver|]. exists z'. by rewrite Hpar.
  - intros x y (y' & Hy' & _ & _ & _ & _ & Hsub & _)%Hb. pose proof (lk_self _ _ _ _ L x y' Hy'). set_solver.
  - intros s Hs. destruct (lk_source _ _ _ _ L s Hs) as (_ & Huns & y & Hy & Hpar). split_and!.
    + intros ->%elem_of_singleton. by apply (Huns o m).
    + intros q z (z' & Hz' & _ & _ & _ & _ & Hsub & _)%Hb. specialize (Huns q z' Hz'). set_solver.
    + destruct (Hw s y Hy) as (y' & Hy' & Hpar' & _). exists y'. by rewrite Hpar'.
  - intros x y Hs (y' & Hy' & _ & -> & _ & _ & Hsub & _)%Hb. destruct (lk_alone _ _ _ _ L x y' Hs Hy') as [? Hch].
    split; [done|]. rewrite Hch in Hsub. set_solver.
  - intros x y (y' & Hy' & _ & _ & -> & -> & Hsub & _)%Hb. destruct (lk_fan _ _ _ _ L x y' Hy') as (Hf & Hm & Hcons).
    split_and!; [|lia..|].
    + unfold fan_out in *. pose proof (subseteq_size _ _ Hsub). lia.
    + intros Hr. specialize (Hcons Hr). rewrite Hcons in Hsub. set_solver.
Qed.

Lemma can_accept_remove m c : can_accept_children m = true -> can_accept_children (remove_child m c) = true.
Proof.
  unfold can_accept_children. cbn [role children connection_quality max_children remove_child set_children].
  intros [[Hr Hf%Z.ltb_lt]%andb_true_iff Hq]%andb_true_iff. rewrite Hr, Hq, andb_true_r. cbn [andb].
  apply Z.ltb_lt. unfold fan_out in *. cbn [children remove_child set_children].
  assert (children m ∖ {[c]} ⊆ children m) as Hsub%subseteq_size by set_solver. lia.
Qed.

(** A child moves to a candidate that accepts it. *)
Lemma move_child_linked {D} s ns o m c q mq : linked D ∅ (Some s) ns -> ns !! o = Some m -> c ∈ children m -> is_Some (ns !! c) ->
  ns !! q = Some mq -> can_accept_children mq = true -> q <> c ->
  let ns' := move_child ns c o q in
  linked D ∅ (Some s) ns' /\ (forall x, is_Some (ns' !! x) <-> is_Some (ns !! x)) /\
  (forall x, x <> c -> x ∈ children m -> exists m', ns' !! o = Some m' /\ (x ∈ children m')).
Proof.
  intros L Ho Hc Hsome Hq Ha Hqc ns'. assert (Hco : c <> o) by (intros ->; by destruct (lk_self _ _ _ _ L o m Ho)).
  destruct (detach_linked _ _ o m c L Ho Hc Hsome) as [L1 Hun]. set (ns1 := alter (fun n => remove_child n c) o ns) in *.
  assert (Hq1 : exists mq1, ns1 !! q = Some mq1 /\ can_accept_children mq1 = true /\
    (forall x, x <> c -> x ∈ children mq -> x ∈ children mq1)).
  { unfold ns1. destruct (decide (q = o)) as [->|Hne].
    - rewrite lookup_alter_eq, Hq. eexists. split_and!; [done|by apply can_accept_remove|]. cbn. set_solver.
    - rewrite lookup_alter_ne by done. by exists mq. }
  destruct Hq1 as (mq1 & Hq1 & Ha1 & Hkeep).
  assert (Hsc : s <> c).
  { intros ->. destruct (lk_source _ _ _ _ L c eq_refl) as (_ & Huns & _). by apply (Huns o m). }
  assert (Hns' : ns' = attach ns1 c q (match alter (fun n => add_child n c) q ns1 !! q with Some p => depth p | None => 0 end + 1)) by done.
  split_and!.
  - rewrite Hns'. replace (∅ : gset PeerId) with ({[c]} ∖ {[c]} : gset PeerId) by set_solver.
    by apply (attach_linked _ s ns1 c q mq1).
  - intros x. rewrite Hns', lookup_attach by done.
    assert (Hdom : forall x, is_Some (ns1 !! x) <-> is_Some (ns !! x)).
    { intros y. unfold ns1. destruct (decide (y = o)) as [->|]; [by rewrite lookup_alter_eq, fmap_is_Some|by rewrite lookup_alter_ne]. }
    destruct (decide (x = c)) as [->|]; [by rewrite fmap_is_Some|].
    destruct (decide (x = q)) as [->|]; [by rewrite fmap_is_Some|done].
  - intros x Hx Hin. rewrite Hns', lookup_attach, decide_False by done.
    assert (Ho1 : exists m1, ns1 !! o = Some m1 /\ (x ∈ children m1)).
    { unfold ns1. rewrite lookup_alter_eq, Ho. eexists. split; [done|]. cbn. set_solver. }
    destruct Ho1 as (m1 & Ho1 & Hin1). destruct (decide (o = q)) as [<-|]; [|by exists m1].
    rewrite Ho1. eexists. split; [done|]. unfold add_child.
    destruct (can_accept_children m1); [cbn; set_solver|done].
Qed.

Section Rebalance.
Context `{!HashOrder PeerId, !Libm}.

Lemma best_candidate_spec self c child cands q :
  best_candidate self c child cands = Some q -> exists m, eligible (nodes self) c q m.
Proof.
  unfold best_candidate. enough (Hgen : forall l best, (forall q, fst best = Some q -> exists m, eligible (nodes self) c q m) ->
    forall q, fst (fold_left (score_step self c child) l best) = Some q -> exists m, eligible (nodes self) c q m).
  { by apply Hgen. }
  clear. induction l as [|x l IH]; intros best Hb; [done|]. cbn [fold_left]. apply IH. intros q. unfold score_step.
  case_bool_decide as Hx; [apply Hb|]. destruct (nodes self !! x) as [m|] eqn:Em; [|apply Hb].
  destruct (can_accept_children m) eqn:Ea; cbn [negb]; [|apply Hb]. case_match; [|apply Hb].
  cbn. intros [= <-]. by exists m.
Qed.

(** What the loops of [rebalance] maintain. *)
Definition balanced D (t0 t : StreamTree PeerId) : Prop := same_peers t0 t /\ linked D ∅ (source t) (nodes t).

Lemma rebalance_child_ok {D} cands o t0 self b c m : balanced D t0 self ->
  nodes self !! o = Some m -> c ∈ children m ->
  let st := rebalance_child cands o (self, b) c in
  balanced D t0 (fst st) /\
  (forall x, x <> c -> x ∈ children m -> exists m', nodes (fst st) !! o = Some m' /\ (x ∈ children m')).
Proof.
  intros [Hs L] Ho Hc. unfold rebalance_child. cbn zeta.
  assert (Hsame : forall x, x <> c -> x ∈ children m -> exists m', nodes self !! o = Some m' /\ (x ∈ children m')) by eauto.
  destruct (nodes self !! c) as [nc|] eqn:Enc; [|done].
  destruct (best_candidate self c nc cands) as [q|] eqn:Eq; [|done].
  destruct (best_candidate_spec _ _ _ _ _ Eq) as (mq & Hq & Ha & Hne). cbn [fst].
  destruct (source self) as [s|] eqn:Es.
  2:{ destruct (lk_alone _ _ _ _ L o m eq_refl Ho) as [_ Hch]. rewrite Hch in Hc. set_solver. }
  destruct (move_child_linked s (nodes self) o m c q mq L Ho Hc ltac:(by eexists) Hq Ha Hne) as (L' & Hdom & Hkeep).
  split; [|done]. split; [|cbn; by rewrite Es]. eapply same_peers_trans; [exact Hs|]. done.
Qed.

Lemma rebalance_children_ok {D} cands o t0 l self b : NoDup l -> balanced D t0 self ->
  (forall x, x ∈ l -> exists m, nodes self !! o = Some m /\ (x ∈ children m)) ->
  balanced D t0 (fst (fold_left (rebalance_child cands o) l (self, b))).
Proof.
  revert self b. induction l as [|c l IH]; intros self b Hnd Hb Hl; [done|]. cbn [fold_left].
  apply NoDup_cons in Hnd as [Hc Hnd]. destruct (Hl c ltac:(set_solver)) as (m & Ho & Hin).
  destruct (rebalance_child_ok cands o t0 self b c m Hb Ho Hin) as [Hb' Hkeep].
  destruct (rebalance_child cands o (self, b) c) as [self' b']. apply IH; [done|done|].
  intros x Hx. apply Hkeep; [set_solver|]. destruct (Hl x ltac:(set_solver)) as (m' & Ho' & Hin'). congruence.
Qed.

Lemma rebalance_node_ok {D} cands t0 st o : balanced D t0 (fst st) -> balanced D t0 (fst (rebalance_node cands st o)).
Proof.
  intros Hb. destruct st as [self b]. unfold rebalance_node. cbn [fst] in *.
  destruct (nodes self !! o) as [m|] eqn:Eo; [|done]. apply rebalance_children_ok; [|done|].
  - apply (sublist_NoDup _ (set_iter (children m))); [apply NoDup_set_iter|]. apply sublist_take.
  - intros x Hx. exists m. split; [done|]. apply elem_of_set_iter. apply elem_of_take in Hx as (i & Hi & _). by eapply list_elem_of_lookup_2.
Qed.

(** The parents of other peers stay. *)
Lemma find_parent_parents (self : StreamTree PeerId) c x y : x <> c ->
  nodes (fst (find_parent_for_peer self c)) !! x = Some y ->
  exists y', nodes self !! x = Some y' /\ parent y = parent y'.
Proof.
  intros Hx. unfold find_parent_for_peer. destruct (source self) as [s|]; [|by eauto].
  case_bool_decide; [by eauto|]. destruct (best_parent (nodes self) c) as [[[q|] d] b] eqn:Eb; [|by eauto]. cbn.
  destruct (best_parent_eligible _ _ _ _ _ Eb) as (m & Hq & Ha & Hne).
  rewrite lookup_attach, decide_False by done. destruct (decide (x = q)) as [->|]; [|by eauto].
  rewrite Hq. cbn. intros [= <-]. exists m. split; [done|]. unfold add_child. by rewrite Ha.
Qed.

Lemma adopt_ok {D} t0 l self b : NoDup l -> balanced D t0 self ->
  (forall x, x ∈ l -> exists n, nodes self !! x = Some n /\ parent n = None) ->
  balanced D t0 (fst (fold_left adopt l (self, b))).
Proof.
  revert self b. induction l as [|c l IH]; intros self b Hnd [Hs L] Hl; [done|]. cbn [fold_left].
  apply NoDup_cons in Hnd as [Hc Hnd]. destruct (Hl c ltac:(set_solver)) as (n & Hn & Hpar).
  destruct (find_parent_linked ∅ self c L ltac:(set_solver) (linked_unlisted ∅ _ _ c n L Hn (or_intror Hpar))) as [Hs' L'].
  unfold adopt at 2.
  pose proof (find_parent_parents self c) as Hothers. destruct (find_parent_for_peer self c) as [self' found].
  cbn [fst] in *. apply IH; [done|split; [by eapply same_peers_trans|done]|].
  intros x Hx. destruct (Hl x ltac:(set_solver)) as (y & Hy & Hyp). assert (x <> c) by set_solver.
  assert (Hsome : is_Some (nodes self' !! x)) by (apply Hs'; eauto). destruct Hsome as [y' Hy'].
  exists y'. split; [done|]. destruct (Hothers x y' ltac:(done) Hy') as (y'' & Hy'' & ->). congruence.
Qed.

Lemma rebalance_balanced {D} self now : linked D ∅ (source self) (nodes self) ->
  let t := fst (rebalance self now) in same_peers self t /\ linked D ∅ (source t) (nodes t).
Proof.
  intros L. unfold rebalance.
  set (t0 := {| nodes := nodes self; source := source self; disconnected_nodes := disconnected_nodes self;
                last_rebalanced := now; rebalance_count := rebalance_count self + 1; config := config self |}).
  assert (Hb0 : balanced D t0 t0) by done. assert (Hsame : same_peers self t0) by done.
  set (cands := map fst (List.filter _ _)). set (os := map fst (List.filter _ _)).
  assert (Hgoal : forall t, balanced D t0 t -> same_peers self t /\ linked D ∅ (source t) (nodes t)).
  { intros t [Ht Lt]. split; [by eapply same_peers_trans|done]. }
  assert (Hfold : balanced D t0 (fst (fold_left (rebalance_node cands) os (t0, false)))).
  { generalize false at 1. intros b0. assert (Hb1 : balanced D t0 (fst (t0, b0))) by done. revert Hb1.
    generalize (t0, b0). induction os as [|o os IH]; intros st Hst; [done|]. cbn [fold_left]. by apply IH, rebalance_node_ok. }
  assert (Hall : balanced D t0 (fst (fold_left adopt
    (map fst (List.filter (fun '(id, node) => orphan (fst (fold_left (rebalance_node cands) os (t0, false))) id node)
       (map_iter (nodes (fst (fold_left (rebalance_node cands) os (t0, false)))))))
    (fold_left (rebalance_node cands) os (t0, false))))).
  { destruct (fold_left (rebalance_node cands) os (t0, false)) as [t b]. cbn [fst] in *. apply adopt_ok; [|done|].
    - apply (sublist_NoDup _ (keys (nodes t))); [apply NoDup_keys|]. unfold keys.
      induction (map_iter (nodes t)) as [|[k n] l IH]; cbn; [done|]. case_match; cbn; [by apply sublist_skip|by apply sublist_cons].
    - intros x (e & -> & He%list_elem_of_In)%elem_of_map. apply List.filter_In in He as [Hin Ho]. destruct e as [k n].
      apply list_elem_of_In, elem_of_map_iter in Hin. exists n. split; [done|]. unfold orphan in Ho. by destruct (parent n). }
  destruct cands; [by apply Hgoal|]. destruct os; [by apply Hgoal|]. by apply Hgoal.
Qed.
End Rebalance.

(** ** The tree as a state machine *)

Definition tree_ok (D : gset PeerId) (t : StreamTree PeerId) : Prop :=
  linked D ∅ (source t) (nodes t) /\
  forall p n time, disconnected_nodes t !! p = Some (n, time) -> peer_id n = p.

Section Removal.
Context `{!HashOrder PeerId}.

Lemma reconnect_children_ok {D} self cs : linked D cs (source self) (nodes self) ->
  (forall c, c ∈ cs -> c ∉ D -> is_Some (nodes self !! c)) ->
  same_peers self (reconnect_children self cs) /\
  linked D ∅ (source self) (nodes (reconnect_children self cs)).
Proof.
  intros L Hin. unfold reconnect_children.
  assert (Hcs : list_to_set (set_iter cs) = cs).
  { apply set_eq. intros x. by rewrite elem_of_list_to_set, elem_of_set_iter. }
  rewrite <- Hcs in L.
  destruct (reconnect_list_linked (set_iter cs) self (NoDup_set_iter cs) L) as [Hs L'].
  { apply list.Forall_forall. intros c Hc%elem_of_set_iter. by apply Hin. }
  split; [done|]. destruct Hs as (Hsrc & _). by rewrite <- Hsrc.
Qed.

(** A node leaves, and its children look for parents. *)
Lemma leave_ok {D} self p n : linked D ∅ (source self) (nodes self) -> nodes self !! p = Some n -> source self <> Some p ->
  let t := reconnect_children (with_nodes self (take_out (nodes self) p n)) (children n) in
  source t = source self /\ disconnected_nodes t = disconnected_nodes self /\
  linked D ∅ (source self) (nodes t) /\
  (forall x, is_Some (nodes t !! x) <-> x <> p /\ is_Some (nodes self !! x)).
Proof.
  intros L Hp Hsrc t. destruct (take_out_linked _ _ p n L Hp Hsrc) as [L1 Hdom].
  destruct (reconnect_children_ok (with_nodes self (take_out (nodes self) p n)) (children n) L1) as [(Hs & Hd & Hx) L2].
  { intros c Hc HD. apply Hdom. destruct (lk_child _ _ _ _ L p n c Hp Hc HD) as (_ & y & Hy & _). split; [|by eexists].
    intros ->. by destruct (lk_self _ _ _ _ L p n Hp). }
  split_and!; [done..|]. intros x. unfold t. rewrite Hx. apply Hdom.
Qed.

Lemma add_peer_linked {D} self p r bw now : linked D ∅ (source self) (nodes self) ->
  let t := fst (add_peer self p r bw now) in
  source t = source self /\ disconnected_nodes t = disconnected_nodes self /\ linked D ∅ (source self) (nodes t) /\
  (forall x, is_Some (nodes t !! x) <-> x = p \/ is_Some (nodes self !! x)).
Proof.
  intros L. unfold add_peer. destruct (nodes self !! p) as [n|] eqn:Ep.
  { cbn. split_and!; [done..|]. intros x. split; [by right|]. intros [->|?]; [by eexists|done]. }
  set (node := set_bandwidth (new_node p r now) bw). set (self1 := with_nodes self _).
  assert (L1 : linked D ∅ (source self1) (nodes self1)).
  { apply insert_linked; [done|by split_and!; try done; vm_compute; discriminate|by rewrite Ep]. }
  destruct (find_parent_linked ∅ self1 p L1 ltac:(set_solver)) as [(Hs & Hd & Hx) L2].
  { by apply (linked_unlisted ∅ (source self1) _ p node); [|apply lookup_insert_eq|right]. }
  cbn zeta. split_and!; [done|done|by rewrite Hs in L2|]. intros x. rewrite Hx. cbn [nodes self1 with_nodes].
  destruct (decide (x = p)) as [->|Hne]; [rewrite lookup_insert_eq; split; [by left|by eexists]|].
  rewrite lookup_insert_ne by done. naive_solver.
Qed.
End Removal.

(** Of whom nothing is said any more once a peer is brought back that is there:
    of the peer, which others may list, and of the children it had. *)
Definition disturbed (t : StreamTree PeerId) (p : PeerId) : gset PeerId :=
  match disconnected_nodes t !! p, nodes t !! p with Some _, Some n => {[p]} ∪ children n | _, _ => ∅ end.

(** One operation, with any iteration order and mathematical library, and whom it
    disturbs: bringing back a peer replaces its node whether it is there or not. *)
Inductive tree_step (t : StreamTree PeerId) : gset PeerId -> StreamTree PeerId -> Prop :=
| step_set_source p now : tree_step t ∅ (fst (set_source t p now))
| step_add_peer (O : HashOrder PeerId) p r bw now : tree_step t ∅ (fst (add_peer t p r bw now))
| step_publish (O : HashOrder PeerId) p r bw now : source t = None ->
    tree_step t ∅ (fst (add_peer (with_source t (Some p)) p r bw now))
| step_remove_peer (O : HashOrder PeerId) p : tree_step t ∅ (fst (remove_peer t p))
| step_disconnect (O : HashOrder PeerId) p grace now now' :
    tree_step t ∅ (fst (handle_temporary_disconnect t p grace now now'))
| step_reconnect (O : HashOrder PeerId) p : tree_step t (disturbed t p) (fst (handle_reconnection t p))
| step_update_metrics p bw lat rate now :
    tree_step t ∅ (with_nodes t (alter (fun n => update_metrics n bw lat rate now) p (nodes t)))
| step_record_failure p : tree_step t ∅ (with_nodes t (alter record_failure p (nodes t)))
| step_record_success p : tree_step t ∅ (with_nodes t (alter record_success p (nodes t)))
| step_rebalance (O : HashOrder PeerId) (M : Libm) now : tree_step t ∅ (fst (rebalance t now)).

(** The runs of a tree, with everybody they have disturbed; and a step that
    disturbs nobody. *)
Inductive tree_run (t0 : StreamTree PeerId) : gset PeerId -> StreamTree PeerId -> Prop :=
| run_begins : tree_run t0 ∅ t0
| run_goes_on D t E t' : tree_run t0 D t -> tree_step t E t' -> tree_run t0 (D ∪ E) t'.

Definition calm_step (t t' : StreamTree PeerId) : Prop := tree_step t ∅ t'.

Lemma reconnect_absent t (O : HashOrder PeerId) p : nodes t !! p = None -> calm_step t (fst (handle_reconnection t p)).
Proof.
  intros Hp. unfold calm_step. replace ∅ with (disturbed t p) at 1; [apply step_reconnect|].
  unfold disturbed. rewrite Hp. by destruct (disconnected_nodes t !! p).
Qed.

Lemma measures_ok D t p f : tree_ok D t ->
  (forall n, f n = adjust_fan_out (f n) /\ peer_id (f n) = peer_id n /\ parent (f n) = parent n /\
     children (f n) = children n /\ role (f n) = role n) -> tree_ok D (with_nodes t (alter f p (nodes t))).
Proof.
  intros [L Hd] Hf. split; [|done]. apply measure_linked; [done|]. intros n. destruct (Hf n) as (E & ? & ? & ? & ?).
  split_and!; try done; rewrite E; apply adjust_fan_out_range.
Qed.

Lemma adjust_idem (n : Node) : adjust_fan_out n = adjust_fan_out (adjust_fan_out n).
Proof. done. Qed.

(** The first publisher becomes the source as it joins. *)
Lemma publish_ok `{!HashOrder PeerId} D t p r bw now : tree_ok D t -> source t = None ->
  tree_ok D (fst (add_peer (with_source t (Some p)) p r bw now)).
Proof.
  intros [L Hd] Hnone. rewrite Hnone in L. unfold add_peer. cbn [nodes with_source].
  destruct (nodes t !! p) as [n|] eqn:Ep.
  - split; [|done]. apply choose_source_linked; [done|by eexists].
  - unfold find_parent_for_peer. cbn [source with_nodes with_source]. rewrite bool_decide_true by done.
    split; [|done]. apply choose_source_linked; [|cbn; rewrite lookup_insert_eq; by eexists].
    apply insert_linked; [done|by split_and!; try done; vm_compute; discriminate|by rewrite Ep].
Qed.

(** A peer that is brought back. *)
Lemma reconnection_ok `{!HashOrder PeerId} D t p : tree_ok D t -> disturbed t p ⊆ D ->
  let t' := fst (handle_reconnection t p) in tree_ok D t' /\ source t' = source t.
Proof.
  intros [L Hd] HD. unfold handle_reconnection. destruct (disconnected_nodes t !! p) as [[n time]|] eqn:Ep; [|done]. cbn [fst].
  set (node := record_success _). set (self1 := with_nodes _ _).
  assert (L1 : linked D ∅ (source self1) (nodes self1)).
  { apply insert_linked; [done| |].
    - split_and!; try done; [exact (Hd p n time Ep)|apply adjust_fan_out_range..].
    - intros old Hold. unfold disturbed in HD. rewrite Ep in HD. cbn [nodes with_disconnected] in Hold. rewrite Hold in HD. set_solver. }
  destruct (find_parent_linked ∅ self1 p L1 ltac:(set_solver)) as [(Hs & Hdc & _) L2].
  { by apply (linked_unlisted ∅ (source self1) _ p node); [|apply lookup_insert_eq|right]. }
  split; [|done]. split; [done|]. rewrite Hdc. cbn. intros x y time' [_ Hx]%lookup_delete_Some. by apply (Hd x y time').
Qed.

(** A peer that is lost for a moment. *)
Lemma disconnect_ok `{!HashOrder PeerId} D t p grace now now' : tree_ok D t ->
  let t' := fst (handle_temporary_disconnect t p grace now now') in tree_ok D t' /\ source t' = source t.
Proof.
  intros [L Hd]. unfold handle_temporary_disconnect. destruct (nodes t !! p) as [n|] eqn:Ep; [|done]. unfold is_source.
  case_bool_decide; [done|]. cbn [fst]. set (t1 := with_disconnected t _).
  destruct (leave_ok t1 p n L Ep ltac:(done)) as (Hs & Hdc & L' & _). split; [|done].
  rewrite <- Hs in L'. split; [exact L'|]. unfold cleanup_disconnected_nodes. cbn [disconnected_nodes with_disconnected].
  intros x y time [Hx _]%map_lookup_filter_Some. rewrite Hdc in Hx. cbn in Hx.
  apply lookup_insert_Some in Hx as [[<- [= <- <-]]|[_ Hx]]; [exact (lk_id _ _ _ _ L p n Ep)|by apply (Hd x y time)].
Qed.

(** The invariant is kept for those who are not disturbed, and nothing replaces a
    source. *)
Lemma tree_step_ok D t E t' : tree_ok D t -> tree_step t E t' -> E ⊆ D ->
  tree_ok D t' /\ (forall s, source t = Some s -> source t' = Some s).
Proof.
  intros Hok Hstep. pose proof Hok as [L Hd].
  destruct Hstep as [p now|O p r bw now|O p r bw now Hnone|O p|O p grace now now'|O p|p bw lat rate now|p|p|O M now]; intros HE.
  - unfold set_source. destruct (source t) as [s|] eqn:Es; cbn; [split; [split; [by rewrite Es|done]|by rewrite Es]|]. split; [|done].
    split; [|done]. cbn. apply choose_source_linked; [|rewrite lookup_insert_eq; by eexists].
    apply replace_alone_linked; [done|]. split_and!; try done; vm_compute; discriminate.
  - destruct (add_peer_linked t p r bw now L) as (Hs & Hdc & L' & _). rewrite Hs. split; [|done]. split; [by rewrite Hs|by rewrite Hdc].
  - split; [by apply publish_ok|congruence].
  - unfold remove_peer. destruct (nodes t !! p) as [n|] eqn:Ep; [|done]. unfold is_source.
    case_bool_decide; [done|]. destruct (leave_ok t p n L Ep ltac:(done)) as (Hs & Hdc & L' & _).
    cbn [fst]. rewrite Hs. split; [|done]. split; [by rewrite Hs|by rewrite Hdc].
  - destruct (disconnect_ok D t p grace now now' Hok) as [? ->]. done.
  - destruct (reconnection_ok D t p Hok HE) as [? ->]. done.
  - split; [|done]. apply measures_ok; [done|]. intros n. split_and!; [apply adjust_idem|done..].
  - split; [|done]. apply measures_ok; [done|]. intros n. split_and!; [apply adjust_idem|done..].
  - split; [|done]. apply measures_ok; [done|]. intros n. split_and!; [apply adjust_idem|done..].
  - destruct (rebalance_balanced t now L) as [(Hs & Hdc & _) L']. rewrite Hs. split; [|done]. split; [done|]. by rewrite Hdc.
Qed.

Lemma calm_steps_source t t' s : tree_ok ∅ t -> source t = Some s -> rtc calm_step t t' ->
  tree_ok ∅ t' /\ source t' = Some s.
Proof.
  intros Hok Hs Hr. revert Hok Hs. induction Hr as [|a b c Hab _ IH]; [done|]. intros Hok Hs.
  destruct (tree_step_ok ∅ a ∅ b Hok Hab ltac:(done)) as [Hok' Hkeep]. apply IH; [done|by apply Hkeep].
Qed.

Lemma new_tree_ok config now : tree_ok ∅ (new_tree config now).
Proof. split; [|done]. split; cbn; try done; intros; by rewrite lookup_empty in *. Qed.

Lemma run_ok config now D t : tree_run (new_tree config now) D t -> tree_ok D t.
Proof.
  induction 1 as [|D t E t' _ [L Hd] Hstep]; [apply new_tree_ok|].
  apply (tree_step_ok (D ∪ E) t E t'); [|done|set_solver]. split; [|done]. apply (linked_weaken D); [done|set_solver].
Qed.

Lemma calm_reachable_ok config now t : rtc calm_step (new_tree config now) t -> tree_ok ∅ t.
Proof.
  intros Hr. pose proof (new_tree_ok config now) as Hok. induction Hr as [|a b c Hab _ IH]; [done|].
  apply IH. by eapply tree_step_ok.
Qed.

Lemma calm_run t0 t : rtc calm_step t0 t -> tree_run t0 ∅ t.
Proof.
  intros Hr. apply rtc_ind_r with (P := fun t => tree_run t0 ∅ t) in Hr; [done|apply run_begins|].
  intros y z _ Hyz IH. replace (∅ : gset PeerId) with (∅ ∪ ∅ : gset PeerId) by set_solver. by eapply run_goes_on.
Qed.

(** C30: In every tree that the operations build, parents and children agree: a
    peer's parent is a node that lists it, and a listed child is a node with
    that parent. This is so of all peers but those that were brought back while
    they were in the tree, and those that were the children of such a peer when
    it was. Of all nodes without exception: they carry their own identifier,
    nobody is its own child, no node has more than seven children and consumers
    have none, and the source is a node without a parent that nobody lists. *)
Theorem tree_links config now D t : tree_run (new_tree config now) D t ->
  (forall p q, p ∉ D -> (exists n, nodes t !! p = Some n /\ parent n = Some q) <->
                        (exists m, nodes t !! q = Some m /\ (p ∈ children m))) /\
  (forall p n, nodes t !! p = Some n -> peer_id n = p /\ (p ∉ children n) /\ fan_out n <= 7 /\
     1 <= max_children n <= 7 /\ (role n = Consumer -> children n = ∅)) /\
  (forall s, source t = Some s -> (exists n, nodes t !! s = Some n /\ parent n = None) /\
     forall q m, nodes t !! q = Some m -> s ∉ children m).
Proof.
  intros [L _]%run_ok. split_and!.
  - intros p q HD. split.
    + intros (n & Hn & Hq). by apply (lk_parent _ _ _ _ L p n q Hn); [set_solver| |].
    + intros (m & Hm & Hin). by destruct (lk_child _ _ _ _ L q m p Hm Hin HD) as (_ & ?).
  - intros p n Hn. destruct (lk_fan _ _ _ _ L p n Hn) as (Hf & Hm & Hc). unfold ABSOLUTE_MAX_CHILDREN in *.
    split_and!; [exact (lk_id _ _ _ _ L p n Hn)|exact (lk_self _ _ _ _ L p n Hn)|lia..|done].
  - intros s Hs. destruct (lk_source _ _ _ _ L s Hs) as (_ & Hun & Hn). done.
Qed.

(** C31: The parent found for a peer is a node other than the peer that accepts
    children, of the least depth and, at that depth, of the greatest bandwidth;
    the search fails exactly when no node accepts, and then changes nothing. *)
Theorem find_parent_optimal `{!HashOrder PeerId} self c s :
  source self = Some s -> c <> s -> (forall p n, nodes self !! p = Some n -> depth n < u64_max) ->
  ((forall q m, ~ eligible (nodes self) c q m) /\ find_parent_for_peer self c = (self, false)) \/
  (exists q m, best_choice (nodes self) c q m /\
     find_parent_for_peer self c = (with_nodes self (attach (nodes self) c q (depth m + 1)), true)).
Proof.
  intros Hs Hne Hd. pose proof (best_parent_spec (nodes self) c Hd) as Hb.
  unfold find_parent_for_peer. rewrite Hs, bool_decide_false by done.
  destruct (best_parent (nodes self) c) as [[[q|] d] b]; [right|by left].
  destruct Hb as (m & Hm & ->). by exists q, m.
Qed.
End Props.

(** ** Witnesses *)

Section Witness.
#[local] Existing Instance canonical_order.

Definition demo_join (t : StreamTree positive) (p : positive) (r : PeerRole) : StreamTree positive :=
  fst (add_peer t p r 1000000 0).

Definition demo_tree : StreamTree positive :=
  demo_join (demo_join (fst (set_source (new_tree default_config 0) 1%positive 0)) 2%positive Relay) 3%positive Consumer.

(** Relay 2 is lost and joins again, a consumer comes, and relay 2 is brought
    back although it is there. *)
Definition brought_back : StreamTree positive :=
  fst (handle_reconnection (demo_join (demo_join (fst (handle_temporary_disconnect demo_tree 2%positive 100 0 0)) 2%positive Relay)
    4%positive Consumer) 2%positive).

Lemma brought_back_run : tree_run (new_tree default_config 0) {[2]}%positive brought_back.
Proof.
  evar (D : gset positive). replace ({[2]} : gset positive)%positive with D; subst D.
  - unfold brought_back. eapply run_goes_on; [|apply (step_reconnect _ (canonical_order positive))].
    do 2 (eapply run_goes_on; [|apply (step_add_peer _ (canonical_order positive))]).
    eapply run_goes_on; [|apply (step_disconnect _ (canonical_order positive))].
    unfold demo_tree. do 2 (eapply run_goes_on; [|apply (step_add_peer _ (canonical_order positive))]).
    eapply run_goes_on; [|apply step_set_source]. apply run_begins.
  - apply (bool_decide_unpack _). vm_compute. exact I.
Qed.

Lemma tree_links_witness :
  (forall p q, p ∉ ({[2]}%positive : gset positive) -> (exists n, nodes brought_back !! p = Some n /\ parent n = Some q) <->
               (exists m, nodes brought_back !! q = Some m /\ (p ∈ children m))) /\
  (forall p n, nodes brought_back !! p = Some n -> peer_id n = p /\ (p ∉ children n) /\ fan_out n <= 7 /\
     1 <= max_children n <= 7 /\ (role n = Consumer -> children n = ∅)) /\
  (forall s, source brought_back = Some s -> (exists n, nodes brought_back !! s = Some n /\ parent n = None) /\
     forall q m, nodes brought_back !! q = Some m -> s ∉ children m).
Proof. exact (tree_links default_config 0 {[2]}%positive brought_back brought_back_run). Defined.

Lemma find_parent_optimal_witness :
  ((forall q m, ~ eligible (nodes demo_tree) 3%positive q m) /\ find_parent_for_peer demo_tree 3%positive = (demo_tree, false)) \/
  (exists q m, best_choice (nodes demo_tree) 3%positive q m /\
     find_parent_for_peer demo_tree 3%positive = (with_nodes demo_tree (attach (nodes demo_tree) 3%positive q (depth m + 1)), true)).
Proof.
  apply (find_parent_optimal demo_tree 3%positive 1%positive); [vm_compute; reflexivity|discriminate|].
  assert (Hall : forallb (fun e => depth (snd e) <? u64_max) (map_to_list (nodes demo_tree)) = true) by (vm_compute; reflexivity).
  intros p n Hp. rewrite forallb_forall in Hall. apply Z.ltb_lt, (Hall (p, n)), list_elem_of_In.
  by apply elem_of_map_to_list.
Defined.
End Witness.
