(* ===== verification/StreamTreePaths.v ===== *)
(** * Paths in the distribution tree

    When the walk of [get_path_to_peer] in [core/src/overlay/tree.rs] ends and
    what it returns; which operations keep the tree free of cycles; and runs of
    the public operations that tie a knot. *)

From S2P Require Import Prelude Rust Float Geo Hash StreamTree StreamTreeProps.

#[local] Open Scope Z_scope.

Section Paths.
Context {PeerId : Type} `{Countable PeerId}.

#[local] Abbreviation Node := (TreeNode PeerId).
#[local] Abbreviation Nodes := (gmap PeerId Node).

(** Ranks that fall from a node to its parent. *)
Definition acyclic (ns : Nodes) : Prop :=
  exists r : PeerId -> nat, forall p n q, ns !! p = Some n -> parent n = Some q -> (r q < r p)%nat.

(** Each peer of the list is followed by its parent. *)
Definition climbs (ns : Nodes) (l : list PeerId) : Prop :=
  forall i a b, l !! i = Some a -> l !! Datatypes.S i = Some b -> exists n, ns !! a = Some n /\ parent n = Some b.

Lemma climbs_snoc ns l a b : climbs ns (l ++ [a]) -> (exists n, ns !! a = Some n /\ parent n = Some b) ->
  climbs ns ((l ++ [a]) ++ [b]).
Proof.
  intros Hc Hab i x y Hx Hy. destruct (decide (Datatypes.S i < length (l ++ [a]))%nat) as [Hlt|Hge].
  - rewrite lookup_app_l in Hx, Hy by lia. by apply (Hc i).
  - rewrite length_app in Hge. cbn in Hge. rewrite lookup_app_r in Hy by (rewrite length_app; cbn; lia).
    rewrite length_app in Hy. cbn in Hy. apply list_lookup_singleton_Some in Hy as [Hi <-].
    assert (i = length l) as -> by lia. rewrite lookup_app_l in Hx by (rewrite length_app; cbn; lia).
    rewrite lookup_app_r, Nat.sub_diag in Hx by lia. injection Hx as <-. done.
Qed.

(** How many nodes rank below a node of the tree, itself included. *)
Definition height (ns : Nodes) (r : PeerId -> nat) (p : PeerId) : nat :=
  size (filter (fun x => (r x <= r p)%nat) (dom ns)).

Lemma height_bound ns r p : (height ns r p <= size ns)%nat.
Proof. unfold height. rewrite <- (size_dom (D := gset PeerId)). apply subseteq_size. set_solver. Qed.

Lemma height_lt ns r p q : (r q < r p)%nat -> is_Some (ns !! p) -> (height ns r q < height ns r p)%nat.
Proof.
  intros Hr Hp. unfold height. apply subset_size. split.
  - intros x. rewrite !elem_of_filter. intros [? ?]. split; [lia|done].
  - intros Hsub. specialize (Hsub p). rewrite !elem_of_filter in Hsub.
    destruct Hsub as [Hle _]; [|lia]. split; [lia|]. by apply elem_of_dom.
Qed.

(** The walk from a peer to a node without a parent. *)
Lemma get_path_spec (t : StreamTree PeerId) p n fuel :
  linked ∅ ∅ (source t) (nodes t) -> acyclic (nodes t) -> nodes t !! p = Some n ->
  (size (nodes t) < fuel)%nat ->
  exists up root m,
    get_path_to_peer fuel t p = Done (Some (rev up)) /\ head up = Some p /\ climbs (nodes t) up /\
    last up = Some root /\ nodes t !! root = Some m /\ parent m = None.
Proof.
  intros L [r Hr] Hp Hf. unfold get_path_to_peer. rewrite Hp.
  set (Inv := fun st : PeerId * list PeerId => is_Some (nodes t !! fst st) /\
    climbs (nodes t) (snd st ++ [fst st]) /\ head (snd st ++ [fst st]) = Some p).
  set (Q := fun up : list PeerId => head up = Some p /\ climbs (nodes t) up /\
    exists root m, last up = Some root /\ nodes t !! root = Some m /\ parent m = None).
  destruct (loop_returns (path_step t) Inv (fun st => height (nodes t) r (fst st)) Q) with (fuel := fuel) (s := (p, @nil PeerId))
    as (up & -> & Hh & Hc & root & m & Hl & Hm & Hpar).
  - intros [cur path] ([x Hx] & Hc & Hh). cbn [fst snd] in *. unfold path_step. rewrite Hx.
    destruct (parent x) as [q|] eqn:Eq.
    + eexists. split; [reflexivity|]. destruct (lk_parent _ _ _ _ L cur x q Hx ltac:(set_solver) ltac:(set_solver) Eq) as (m & Hm & _).
      split; [|by apply height_lt; eauto]. split_and!; cbn [fst snd]; [by eexists|by apply climbs_snoc; eauto|].
      destruct path; done.
    + eexists. split; [reflexivity|]. split_and!; [done..|]. exists cur, x. by rewrite last_snoc.
  - split_and!; cbn; [by eexists| |done]. intros i a b Ha Hb. by destruct i.
  - cbn [fst]. pose proof (height_bound (nodes t) r p). lia.
  - cbn [exec_bind]. exists up, root, m. split_and!; try done. destruct up as [|u up]; [done|].
    destruct (rev (u :: up)) eqn:E; [|done]. apply (f_equal (@length _)) in E. rewrite length_rev in E. done.
Qed.

(** ** Operations that keep the tree acyclic *)

(** Nobody has the peer as a parent. *)
Definition childless (ns : Nodes) (c : PeerId) : Prop := forall x n, ns !! x = Some n -> parent n <> Some c.

Lemma attach_acyclic ns c q d : acyclic ns -> childless ns c -> q <> c -> acyclic (attach ns c q d).
Proof.
  intros [r Hr] Hc Hq. exists (fun x => if decide (x = c) then Datatypes.S (r q) else r x).
  intros p n q' Hp Hpar. cbn beta. rewrite lookup_attach in Hp by done.
  destruct (decide (p = c)) as [->|Hpc].
  - destruct (ns !! c) as [nc|]; [|done]. injection Hp as <-. injection Hpar as <-.
    rewrite (decide_False (P := q = c)) by done. lia.
  - assert (Hold : exists n', ns !! p = Some n' /\ parent n' = Some q').
    { destruct (decide (p = q)) as [->|]; [|by eauto]. destruct (ns !! q) as [m|]; [|done]. injection Hp as <-.
      exists m. split; [done|]. revert Hpar. unfold add_child. by destruct (can_accept_children m). }
    destruct Hold as (n' & Hn' & Hp').
    rewrite decide_False by (intros ->; by apply (Hc p n')). by apply (Hr p n').
Qed.

Lemma acyclic_weaken ns ns' : acyclic ns ->
  (forall p n q, ns' !! p = Some n -> parent n = Some q -> exists n', ns !! p = Some n' /\ parent n' = Some q) ->
  acyclic ns'.
Proof. intros [r Hr] Hw. exists r. intros p n q Hp Hq. destruct (Hw p n q Hp Hq) as (n' & ? & ?). eauto. Qed.

Section Ordered.
Context `{!HashOrder PeerId}.

Lemma find_parent_acyclic (t : StreamTree PeerId) c : acyclic (nodes t) -> childless (nodes t) c ->
  acyclic (nodes (fst (find_parent_for_peer t c))).
Proof.
  intros Ha Hc. unfold find_parent_for_peer. destruct (source t) as [s|]; [|done]. case_bool_decide; [done|].
  destruct (best_parent (nodes t) c) as [[[q|] d] b] eqn:Eb; [|done].
  destruct (best_parent_eligible _ _ _ _ _ Eb) as (m & Hq & _ & Hne). by apply attach_acyclic.
Qed.

Lemma add_peer_acyclic t p r bw now : linked ∅ ∅ (source t) (nodes t) -> acyclic (nodes t) ->
  acyclic (nodes (fst (add_peer t p r bw now))).
Proof.
  intros L Ha. unfold add_peer. destruct (nodes t !! p) eqn:Ep; [done|].
  apply find_parent_acyclic; cbn.
  - apply (acyclic_weaken (nodes t)); [done|]. intros x n q [[<- <-]|[_ Hx]]%lookup_insert_Some Hq; [done|eauto].
  - intros x n [[<- <-]|[_ Hx]]%lookup_insert_Some; [done|]. intros Hq.
    destruct (lk_parent _ _ _ _ L x n p Hx ltac:(set_solver) ltac:(set_solver) Hq) as (m & Hm & _). congruence.
Qed.

(** Orphaned consumers attach anywhere without closing a cycle. *)
Lemma reconnect_consumers_acyclic l t : acyclic (nodes t) -> Forall (childless (nodes t)) l ->
  Forall (fun c => forall n, nodes t !! c = Some n -> role n = Consumer) l ->
  acyclic (nodes (fold_left reconnect_child l t)).
Proof.
  revert t. induction l as [|c l IH]; intros t Ha Hch Hcons; [done|]. cbn [fold_left].
  apply list.Forall_cons in Hch as [Hc Hch]. apply list.Forall_cons in Hcons as [Hcc Hcons].
  unfold reconnect_child at 2. set (t1 := with_nodes t _).
  assert (Hpar : forall x y q, nodes t1 !! x = Some y -> parent y = Some q -> exists y', nodes t !! x = Some y' /\ parent y' = Some q).
  { intros x y q. cbn. destruct (decide (x = c)) as [->|]; [|rewrite lookup_alter_ne by done; eauto].
    rewrite lookup_alter_eq. destruct (nodes t !! c); [|done]. by intros [= <-]. }
  assert (Hrole : forall x y, nodes t1 !! x = Some y -> exists y', nodes t !! x = Some y' /\ role y = role y').
  { intros x y. cbn. destruct (decide (x = c)) as [->|]; [|rewrite lookup_alter_ne by done; eauto].
    rewrite lookup_alter_eq. destruct (nodes t !! c); [|done]. intros [= <-]. by eexists. }
  assert (Hc1 : childless (nodes t1) c).
  { intros x y Hx Hq. destruct (Hpar x y c Hx Hq) as (y' & Hy' & Hq'). by apply (Hc x y'). }
  pose proof (find_parent_acyclic t1 c (acyclic_weaken _ _ Ha Hpar) Hc1) as Ha2.
  (* What the other orphans see after the search. *)
  assert (Hstep : forall x y, nodes (fst (find_parent_for_peer t1 c)) !! x = Some y -> exists y', nodes t1 !! x = Some y' /\
    role y = role y' /\ (parent y = parent y' \/ exists q m, parent y = Some q /\ nodes t1 !! q = Some m /\ can_accept_children m = true)).
  { intros x y. unfold find_parent_for_peer. destruct (source t1) as [s|]; [|by eauto 6]. case_bool_decide; [by eauto 6|].
    destruct (best_parent (nodes t1) c) as [[[q|] d] b] eqn:Eb; [|by eauto 6].
    destruct (best_parent_eligible _ _ _ _ _ Eb) as (m & Hq & Hacc & Hne). cbn [fst nodes with_nodes].
    rewrite lookup_attach by done. destruct (decide (x = c)) as [->|].
    - destruct (nodes t1 !! c) as [y'|]; [|done]. intros [= <-]. exists y'. split_and!; [done..|right]. by exists q, m.
    - destruct (decide (x = q)) as [->|]; [|by eauto 6]. rewrite Hq. intros [= <-]. exists m.
      unfold add_child. rewrite Hacc. auto. }
  apply IH; [done| |].
  - rewrite list.Forall_forall in Hch, Hcons |- *. intros c' Hc' x y Hx Hq.
    destruct (Hstep x y Hx) as (y' & Hy' & _ & [Hp|(q & m & Hp & Hm & Hacc)]).
    + rewrite Hp in Hq. destruct (Hpar x y' c' Hy' Hq) as (z & Hz & Hzq). by apply (Hch c' Hc' x z).
    + assert (q = c') as -> by congruence. destruct (Hrole c' m Hm) as (m' & Hm' & Hr).
      apply can_accept_not_consumer in Hacc. rewrite Hr in Hacc. by apply Hacc, (Hcons c' Hc' m').
  - rewrite list.Forall_forall in Hcons |- *. intros c' Hc' y Hy. destruct (Hstep c' y Hy) as (y' & Hy' & -> & _).
    destruct (Hrole c' y' Hy') as (z & Hz & ->). by apply (Hcons c' Hc').
Qed.

(** A peer all of whose children are consumers leaves without closing a cycle. *)
Lemma leave_acyclic t p n : linked ∅ ∅ (source t) (nodes t) -> acyclic (nodes t) -> nodes t !! p = Some n ->
  source t <> Some p ->
  (forall c m, c ∈ children n -> nodes t !! c = Some m -> role m = Consumer) ->
  acyclic (nodes (reconnect_children (with_nodes t (take_out (nodes t) p n)) (children n))).
Proof.
  intros L Ha Hp Hs Hc. unfold reconnect_children.
  assert (Hback : forall x y, take_out (nodes t) p n !! x = Some y -> exists y', nodes t !! x = Some y' /\
    parent y = parent y' /\ role y = role y').
  { intros x y. unfold take_out. intros [_ Hx]%lookup_delete_Some. destruct (parent n) as [q|]; [|by eauto].
    destruct (decide (x = q)) as [->|]; [|rewrite lookup_alter_ne in Hx by done; by eauto].
    rewrite lookup_alter_eq in Hx. destruct (nodes t !! q) as [y'|]; [|done]. injection Hx as <-. by exists y'. }
  apply reconnect_consumers_acyclic; cbn [nodes with_nodes].
  - apply (acyclic_weaken (nodes t)); [done|]. intros x y q (y' & Hy' & Hq & _)%Hback. rewrite Hq. eauto.
  - apply list.Forall_forall. intros c Hc'%elem_of_set_iter x y (y' & Hy' & Hq & _)%Hback Hyc. rewrite Hq in Hyc.
    destruct (lk_parent _ _ _ _ L x y' c Hy' ltac:(set_solver) ltac:(set_solver) Hyc) as (m & Hm & Hin).
    specialize (Hc c m Hc' Hm). destruct (lk_fan _ _ _ _ L c m Hm) as (_ & _ & Hempty). rewrite (Hempty Hc) in Hin. set_solver.
  - apply list.Forall_forall. intros c Hc'%elem_of_set_iter m (m' & Hm' & _ & ->)%Hback. by apply (Hc c).
Qed.
End Ordered.

(** The operations that cannot close a cycle: a peer only leaves when its
    children are consumers, and nothing is rebalanced. *)
Definition only_consumers (t : StreamTree PeerId) (p : PeerId) : Prop :=
  forall n c m, nodes t !! p = Some n -> c ∈ children n -> nodes t !! c = Some m -> role m = Consumer.

Inductive safe_step (t : StreamTree PeerId) : StreamTree PeerId -> Prop :=
| safe_set_source p now : safe_step t (fst (set_source t p now))
| safe_add_peer (O : HashOrder PeerId) p r bw now : safe_step t (fst (add_peer t p r bw now))
| safe_publish (O : HashOrder PeerId) p r bw now : source t = None ->
    safe_step t (fst (add_peer (with_source t (Some p)) p r bw now))
| safe_remove_peer (O : HashOrder PeerId) p : only_consumers t p -> safe_step t (fst (remove_peer t p))
| safe_disconnect (O : HashOrder PeerId) p grace now now' : only_consumers t p ->
    safe_step t (fst (handle_temporary_disconnect t p grace now now'))
| safe_reconnect (O : HashOrder PeerId) p : nodes t !! p = None -> safe_step t (fst (handle_reconnection t p)).

Lemma safe_calm_step t t' : safe_step t t' -> calm_step t t'.
Proof. destruct 1; try (by unfold calm_step; eauto using tree_step). by apply reconnect_absent. Qed.

(** Isolated nodes that join do not change who is whose parent. *)
Lemma insert_acyclic (ns : Nodes) p n : acyclic ns -> parent n = None -> acyclic (<[p := n]> ns).
Proof.
  intros Ha Hn. apply (acyclic_weaken ns); [done|].
  intros x y q [[<- <-]|[_ Hx]]%lookup_insert_Some Hq; [congruence|eauto].
Qed.

Lemma insert_childless src (ns : Nodes) p n : linked ∅ ∅ src ns -> ns !! p = None -> parent n = None ->
  childless (<[p := n]> ns) p.
Proof.
  intros L Hp Hn x y [[<- <-]|[_ Hx]]%lookup_insert_Some Hq; [congruence|].
  destruct (lk_parent _ _ _ _ L x y p Hx ltac:(set_solver) ltac:(set_solver) Hq) as (m & Hm & _). congruence.
Qed.

Lemma safe_step_acyclic t t' : tree_ok ∅ t -> acyclic (nodes t) -> safe_step t t' -> acyclic (nodes t').
Proof.
  intros [L Hd] Ha. destruct 1 as [p now|O p r bw now|O p r bw now Hnone|O p Hc|O p grace now now' Hc|O p Hnone].
  - unfold set_source. destruct (source t); [done|]. by apply insert_acyclic.
  - by apply add_peer_acyclic.
  - unfold add_peer. cbn [nodes with_source]. destruct (nodes t !! p); [done|]. unfold find_parent_for_peer.
    cbn [source with_nodes with_source]. rewrite bool_decide_true by done. by apply insert_acyclic.
  - unfold remove_peer. destruct (nodes t !! p) as [n|] eqn:Ep; [|done]. unfold is_source. case_bool_decide; [done|].
    apply leave_acyclic; [done..|]. intros c m. by apply Hc.
  - unfold handle_temporary_disconnect. destruct (nodes t !! p) as [n|] eqn:Ep; [|done]. unfold is_source.
    case_bool_decide; [done|]. cbn [fst]. unfold cleanup_disconnected_nodes. cbn [nodes with_disconnected].
    set (t1 := with_disconnected t _). apply (leave_acyclic t1); [done..|]. intros c m. by apply Hc.
  - unfold handle_reconnection. destruct (disconnected_nodes t !! p) as [[n time]|] eqn:Ep; [|done]. cbn [fst].
    apply find_parent_acyclic; cbn [nodes with_nodes with_disconnected].
    + by apply insert_acyclic.
    + by eapply insert_childless.
Qed.

Lemma safe_reachable config now t : rtc safe_step (new_tree config now) t -> tree_ok ∅ t /\ acyclic (nodes t).
Proof.
  intros Hr. pose proof (new_tree_ok (PeerId := PeerId) config now) as H0.
  assert (Ha0 : acyclic (nodes (new_tree (PeerId := PeerId) config now))).
  { exists (fun _ => 0%nat). cbn. intros x y q Hx. by rewrite lookup_empty in Hx. }
  induction Hr as [|a b c Hab _ IH]; [done|]. apply IH; [|by eapply safe_step_acyclic].
  by apply (tree_step_ok ∅ a ∅ b H0); [apply safe_calm_step|].
Qed.

(** In a tree grown by joining peers, and by the departure of peers whose
    children are consumers, [get_path_to_peer] ends within one step per node and
    returns the path down to the peer: it starts at a node without a parent,
    every entry is the parent of the next, and it ends at the peer. *)
Theorem safe_tree_paths config now t p n fuel :
  rtc safe_step (new_tree config now) t -> nodes t !! p = Some n -> (size (nodes t) < fuel)%nat ->
  exists up root m,
    get_path_to_peer fuel t p = Done (Some (rev up)) /\ head up = Some p /\
    (forall i a b, up !! i = Some a -> up !! Datatypes.S i = Some b -> get_parent t a = Some b) /\
    last up = Some root /\ nodes t !! root = Some m /\ parent m = None.
Proof.
  intros Hr Hp Hf.
  destruct (safe_reachable config now t Hr) as [[L _] Ha].
  destruct (get_path_spec t p n fuel L Ha Hp Hf) as (up & root & m & Hrun & Hh & Hc & Hl).
  exists up, root, m. split_and!; [done|done| |by apply Hl..]. intros i a b Hi Hj.
  destruct (Hc i a b Hi Hj) as (x & Hx & Hq). unfold get_parent. by rewrite Hx.
Qed.
End Paths.

(** ** Knots *)

(** Two peers that are each other's parent are never left again. *)
Lemma knot_never_ends {PeerId} `{Countable PeerId} (t : StreamTree PeerId) a b :
  get_parent t a = Some b -> get_parent t b = Some a -> forall fuel, get_path_to_peer fuel t a = OutOfFuel.
Proof.
  unfold get_parent. intros Ha Hb fuel. apply bind_Some in Ha as (na & Hna & Ha). apply bind_Some in Hb as (nb & Hnb & Hb).
  unfold get_path_to_peer. rewrite Hna.
  enough (Hloop : forall fuel path cur, cur = a \/ cur = b -> loop fuel (path_step t) (cur, path) = OutOfFuel).
  { rewrite Hloop by by left. done. }
  clear fuel. induction fuel as [|fuel IH]; intros path cur Hcur; [done|]. cbn [loop]. unfold path_step at 1.
  destruct Hcur as [->| ->]; [rewrite Hna, Ha|rewrite Hnb, Hb]; cbn [exec_bind]; apply IH; auto.
Qed.

Section Knot.
#[local] Existing Instance canonical_order.

Definition join (t : StreamTree positive) (p : positive * PeerRole) : StreamTree positive :=
  fst (add_peer t (fst p) (snd p) 1000000 0).

(** Source 1 with relay 2 and consumers 3, 4, 5; relay 6 and consumers 7, 8
    under relay 2; relay 9 under relay 6. *)
Definition knot_tree : StreamTree positive :=
  fold_left join [(2, Relay); (3, Consumer); (4, Consumer); (5, Consumer); (6, Relay); (7, Consumer); (8, Consumer); (9, Relay)]%positive
    (fst (set_source (new_tree default_config 0) 1%positive 0)).

(** A departure can close a cycle. In a tree built by joins alone, the
    removal of a relay re-attaches its children one by one to any node that
    accepts, and relay 6, orphaned once the source is full again, goes under its
    own child 9. Both then have a parent, so no rebalancing looks at them, and
    the path query for either never ends. *)
Theorem remove_peer_ties_knot :
  let t := fst (remove_peer knot_tree 2%positive) in
  rtc calm_step (new_tree default_config 0) t /\
  get_parent t 6%positive = Some 9%positive /\ get_parent t 9%positive = Some 6%positive /\
  forall fuel, get_path_to_peer fuel t 6%positive = OutOfFuel.
Proof.
  assert (Hab : let t := fst (remove_peer knot_tree 2%positive) in
    get_parent t 6%positive = Some 9%positive /\ get_parent t 9%positive = Some 6%positive)
    by (vm_compute; done).
  destruct Hab as [Ha Hb]. split_and!; [|done|done|by apply (knot_never_ends _ 6%positive 9%positive)].
  eapply rtc_r; [|apply (step_remove_peer _ (canonical_order positive))].
  unfold knot_tree. eapply rtc_l; [apply (step_set_source _ 1%positive 0)|].
  generalize (fst (set_source (new_tree default_config 0) 1%positive 0)) as t0.
  generalize [(2, Relay); (3, Consumer); (4, Consumer); (5, Consumer); (6, Relay); (7, Consumer); (8, Consumer); (9, Relay)]%positive as l.
  induction l as [|p l IH]; intros t0; [done|]. cbn [fold_left]. eapply rtc_l; [|apply IH].
  apply (step_add_peer _ (canonical_order positive)).
Qed.

(** Relay 2 is lost for a moment, joins again and serves consumer 4, and then
    its reconnection is reported. *)
Definition rejoin_tree : StreamTree positive :=
  let t := fst (set_source (new_tree default_config 0) 1%positive 0) in
  let t := fold_left join [(2, Relay); (3, Consumer); (5, Consumer); (6, Consumer)]%positive t in
  let t := fst (handle_temporary_disconnect t 2%positive (10 ^ 9) 0 0) in
  fold_left join [(2, Relay); (4, Consumer)]%positive t.

(** [handle_reconnection] puts the remembered node in the place of a live
    one. When the peer has joined again meanwhile, its new children keep it as
    their parent and it no longer lists them: consumer 4 is not served, and not
    being an orphan it is never given another parent. *)
Theorem reconnection_drops_children :
  get_children rejoin_tree 2%positive = Some {[4%positive]} /\
  let t := fst (handle_reconnection rejoin_tree 2%positive) in
  snd (handle_reconnection rejoin_tree 2%positive) = true /\
  get_parent t 4%positive = Some 2%positive /\ get_children t 2%positive = Some ∅ /\
  forallb (fun q => match get_children t q with
                    | Some cs => negb (bool_decide (4%positive ∈ cs))
                    | None => true
                    end) [1; 2; 3; 4; 5; 6]%positive = true.
Proof. vm_compute. done. Qed.
End Knot.

(** ** Witnesses *)

Section Witness.
#[local] Existing Instance canonical_order.

Lemma knot_tree_safe : rtc safe_step (new_tree default_config 0) knot_tree.
Proof.
  unfold knot_tree. eapply rtc_l; [apply (safe_set_source _ 1%positive 0)|].
  generalize (fst (set_source (new_tree default_config 0) 1%positive 0)) as t0.
  generalize [(2, Relay); (3, Consumer); (4, Consumer); (5, Consumer); (6, Relay); (7, Consumer); (8, Consumer); (9, Relay)]%positive as l.
  induction l as [|p l IH]; intros t0; [done|]. cbn [fold_left]. eapply rtc_l; [|apply IH].
  apply (safe_add_peer _ (canonical_order positive)).
Qed.

Lemma safe_tree_paths_witness :
  exists up root m,
    get_path_to_peer 10 knot_tree 9%positive = Done (Some (rev up)) /\ head up = Some 9%positive /\
    (forall i a b, up !! i = Some a -> up !! Datatypes.S i = Some b -> get_parent knot_tree a = Some b) /\
    last up = Some root /\ nodes knot_tree !! root = Some m /\ parent m = None.
Proof.
  destruct (nodes knot_tree !! 9%positive) as [n|] eqn:En; [|vm_compute in En; discriminate].
  apply (safe_tree_paths default_config 0 knot_tree 9%positive n 10 knot_tree_safe En).
  apply Nat.ltb_lt. vm_compute. reflexivity.
Defined.
End Witness.
