(* ===== verification/Topology.v ===== *)
(** * The topology manager

    Models [core/src/overlay/topology/manager.rs] and [health.rs]: the trees of
    the streams, the health records of connections and the periodic tasks. Each
    method takes its locks for its whole body, so it is one step; the rounds of
    the periodic tasks are steps too. *)

From Stdlib Require Import SpecFloat.
From S2P Require Import Prelude Rust Float Geo Hash StreamTree StreamTreeProps.

#[local] Open Scope Z_scope.

(** ** Connection health *)

Record ConnectionHealth : Type := {
  quality : float;
  success_rate : float;
  last_success : Z;
  consecutive_failures : Z;
  history : list (Z * float);
  last_checked : Z;
  is_degraded : bool;
}.

Definition default_health (now : Z) : ConnectionHealth :=
  {| quality := f32_of 1; success_rate := f32_of 1; last_success := now; consecutive_failures := 0;
     history := []; last_checked := now; is_degraded := false |}.

Definition add_to_history (h : list (Z * float)) (now : Z) (q : float) : list (Z * float) :=
  let h := h ++ [(now, q)] in
  if 10 <? zlen h then tail h else h.

Definition recalculate_quality (h : list (Z * float)) (success_rate : float) : float :=
  match h with
  | [] => success_rate
  | _ => (f32_sum (map snd h) / f32_of (zlen h))%f32
  end.

Definition health_success (self : ConnectionHealth) (now now' : Z) : ConnectionHealth :=
  let rate := (success_rate self * f32_lit 9 10 + f32_lit 1 10)%f32 in
  let h := add_to_history (history self) now' (f32_of 1) in
  {| quality := recalculate_quality h rate; success_rate := rate; last_success := now; consecutive_failures := 0;
     history := h; last_checked := last_checked self; is_degraded := is_degraded self |}.

Definition health_failure (self : ConnectionHealth) (now : Z) : ConnectionHealth :=
  let rate := (success_rate self * f32_lit 9 10)%f32 in
  let h := add_to_history (history self) now (f32_of 0) in
  {| quality := recalculate_quality h rate; success_rate := rate; last_success := last_success self;
     consecutive_failures := consecutive_failures self + 1;
     history := h; last_checked := last_checked self; is_degraded := is_degraded self |}.

Definition set_degraded (self : ConnectionHealth) (v : bool) : ConnectionHealth :=
  {| quality := quality self; success_rate := success_rate self; last_success := last_success self;
     consecutive_failures := consecutive_failures self; history := history self;
     last_checked := last_checked self; is_degraded := v |}.

Definition update_degraded_status (self : ConnectionHealth) (quality_threshold : float) (max_failures : Z)
    (min_success_rate : float) (now : Z) : ConnectionHealth :=
  {| quality := quality self; success_rate := success_rate self; last_success := last_success self;
     consecutive_failures := consecutive_failures self; history := history self; last_checked := now;
     is_degraded := (max_failures <? consecutive_failures self)
       || float_lt (quality self) quality_threshold || float_lt (success_rate self) min_success_rate |}.

Definition is_expired (self : ConnectionHealth) (now max_age : Z) : bool :=
  max_age <? Z.max 0 (now - last_checked self).

(** *** The record of a run of outcomes *)

(** One recorded outcome with the times the two clock readings give. *)
Definition record_outcome (self : ConnectionHealth) (o : bool * Z * Z) : ConnectionHealth :=
  match o with (ok, now, now') => if ok then health_success self now now' else health_failure self now' end.

Definition outcome_value (b : bool) : float := if b then f32_of 1 else f32_of 0.
Definition successes (l : list bool) : Z := Z.of_nat (length (List.filter (fun b => b) l)).

(** How many failures the list ends with. *)
Fixpoint trailing_failures (acc : Z) (l : list bool) : Z :=
  match l with [] => acc | true :: l => trailing_failures 0 l | false :: l => trailing_failures (acc + 1) l end.

Lemma history_window h now q l : map snd h = last_n 10 l ->
  map snd (add_to_history h now q) = last_n 10 (l ++ [q]).
Proof.
  intros Hh. pose proof (length_last_n 10 l) as Hlen. rewrite last_n_snoc by lia. unfold last_n at 1. rewrite <- Hh in *.
  unfold add_to_history, zlen. rewrite length_app. rewrite length_app, length_map in *. cbn [length] in *.
  destruct (Z.ltb_spec 10 (Z.of_nat (length h + 1))).
  - replace (length h + 1 - 10)%nat with 1%nat by lia. destruct h; cbn; [done|]. by rewrite map_app.
  - replace (length h + 1 - 10)%nat with 0%nat by lia. by rewrite map_app.
Qed.

(** Sums of up to ten zeros and ones are exact. *)
Lemma outcome_sum l : (length l <= 10)%nat -> l <> [] ->
  f32_sum (map outcome_value l) = f32_of (successes l).
Proof.
  intros Hlen Hne. assert (Hadd : forall k b, (k < 10)%nat ->
    f32_add (f32_of (Z.of_nat k)) (outcome_value b) = f32_of (Z.of_nat (if b then S k else k))).
  { intros k b Hk. do 10 (destruct k as [|k]; [by destruct b; vm_compute|]). lia. }
  unfold f32_sum. destruct l as [|b l]; [done|]. cbn [map fold_left length] in *.
  replace (f32_add (S754_zero true) (outcome_value b)) with (f32_of (Z.of_nat (if b then 1 else 0))) by (by destruct b; vm_compute).
  unfold successes. cbn [List.filter]. 
  enough (Hg : forall k, (k + length l <= 10)%nat -> fold_left f32_add (map outcome_value l) (f32_of (Z.of_nat k)) =
    f32_of (Z.of_nat (k + length (List.filter (fun b => b) l)))).
  { rewrite Hg by (destruct b; lia). destruct b; [done|]. done. }
  clear b Hne Hlen. induction l as [|b l IH]; intros k Hk; [by rewrite Nat.add_0_r|]. cbn [map fold_left length List.filter] in *.
  rewrite Hadd by lia. destruct b; rewrite IH by lia; cbn [length]; do 2 f_equal; lia.
Qed.

Lemma trailing_failures_snoc acc l b :
  trailing_failures acc (l ++ [b]) = if b then 0 else trailing_failures acc l + 1.
Proof. revert acc. induction l as [|x l IH]; intros acc; cbn; [by destruct b|]. by destruct x; rewrite IH. Qed.

Lemma outcomes_snoc h o all : map snd (history h) = map outcome_value (last_n 10 all) ->
  consecutive_failures h = trailing_failures 0 all ->
  let h' := record_outcome h o in
  let all' := all ++ [fst (fst o)] in
  map snd (history h') = map outcome_value (last_n 10 all') /\
  consecutive_failures h' = trailing_failures 0 all' /\
  quality h' = recalculate_quality (history h') (success_rate h').
Proof.
  intros Hh Hc. destruct o as [[b t] t']. cbn [fst]. cbn zeta. rewrite trailing_failures_snoc, <- last_n_map, map_app.
  rewrite <- last_n_map in Hh.
  destruct b; cbn [record_outcome health_success health_failure history consecutive_failures quality success_rate];
    (split_and!; [by apply history_window|by rewrite ?Hc|done]).
Qed.

Lemma quality_of_window h rate l : map snd h = map outcome_value l -> (0 < length l <= 10)%nat ->
  recalculate_quality h rate = (f32_of (successes l) / f32_of (zlen l))%f32.
Proof.
  intros Hh Hl. assert (Hlen : zlen h = zlen l).
  { unfold zlen. f_equal. rewrite <- (length_map snd h), Hh. apply length_map. }
  unfold recalculate_quality. destruct h as [|e h]; [destruct l; cbn in *; [lia|done]|].
  rewrite Hlen, Hh, outcome_sum; [done|lia|destruct l; cbn in *; [lia|done]].
Qed.

Lemma share_range k n : 0 <= k <= n -> 0 < n <= 10 ->
  float_le (f32_of 0) (f32_of k / f32_of n)%f32 = true /\ float_le (f32_of k / f32_of n)%f32 (f32_of 1) = true.
Proof.
  intros Hk Hn. assert (n = 1 \/ n = 2 \/ n = 3 \/ n = 4 \/ n = 5 \/ n = 6 \/ n = 7 \/ n = 8 \/ n = 9 \/ n = 10) as Hor by lia.
  assert (k = 0 \/ k = 1 \/ k = 2 \/ k = 3 \/ k = 4 \/ k = 5 \/ k = 6 \/ k = 7 \/ k = 8 \/ k = 9 \/ k = 10) as Hor' by lia.
  repeat (destruct Hor as [->|Hor]); [..|subst n]; repeat (destruct Hor' as [->|Hor']); try subst k; try lia; by vm_compute.
Qed.

(** The quality of a connection is the share of successes among its last ten
    outcomes, a number of the unit interval, and [consecutive_failures] counts
    the failures since the last success, whatever happened before. *)
Theorem health_of_outcomes now os :
  let h := fold_left record_outcome os (default_health now) in
  let all := map (fun o => fst (fst o)) os in
  let recent := last_n 10 all in
  map snd (history h) = map outcome_value recent /\
  consecutive_failures h = trailing_failures 0 all /\
  quality h = (if decide (os = []) then f32_of 1 else (f32_of (successes recent) / f32_of (zlen recent))%f32) /\
  float_le (f32_of 0) (quality h) = true /\ float_le (quality h) (f32_of 1) = true.
Proof.
  set (P os := let h := fold_left record_outcome os (default_health now) in let all := map (fun o => fst (fst o)) os in
    map snd (history h) = map outcome_value (last_n 10 all) /\ consecutive_failures h = trailing_failures 0 all /\
    (os = [] -> quality h = f32_of 1) /\ (os <> [] -> quality h = recalculate_quality (history h) (success_rate h))).
  assert (HP : P os).
  { induction os as [|o os (Hh & Hc & _)] using rev_ind; [done|]. unfold P. rewrite fold_left_app, map_app.
    destruct (outcomes_snoc _ o _ Hh Hc) as (? & ? & ?). split_and!; try done. by destruct os. }
  destruct HP as (Hh & Hc & H0 & Hq). cbn zeta. split_and!; [done|done|..]; clear Hc.
  all: destruct (decide (os = [])) as [E|E]; [rewrite H0 by done; done|rewrite (Hq E)].
  all: assert (Hlen : (0 < length (last_n 10 (map (fun o => fst (fst o)) os)) <= 10)%nat)
    by (unfold last_n; rewrite length_drop, length_map; destruct os; cbn [length]; [done|lia]).
  all: rewrite (quality_of_window _ _ _ Hh Hlen); try done.
  all: apply share_range; [unfold successes|]; unfold zlen; [|lia].
  all: split; [lia|]; apply inj_le, List.filter_length_le.
Qed.

(** ** The manager *)

(** The errors of the methods, by what their message says. *)
Inductive TopologyError : Type := StreamNotFound | PeerNotInStream | NoSource.

Section Manager.
Context {PeerId StreamId : Type} `{Countable PeerId, Countable StreamId}.
(** What is known of a connected peer; the manager only stores it. *)
Context {Peer : Type}.

Record TopologyManager : Type := {
  manager_config : TopologyConfig;
  peers : gmap PeerId Peer;
  trees : gmap StreamId (StreamTree PeerId);
  connection_health : gmap PeerId ConnectionHealth;
}.

Definition with_trees (self : TopologyManager) (v : gmap StreamId (StreamTree PeerId)) : TopologyManager :=
  {| manager_config := manager_config self; peers := peers self; trees := v;
     connection_health := connection_health self |}.
Definition with_health (self : TopologyManager) (v : gmap PeerId ConnectionHealth) : TopologyManager :=
  {| manager_config := manager_config self; peers := peers self; trees := trees self; connection_health := v |}.
Definition with_peers (self : TopologyManager) (v : gmap PeerId Peer) : TopologyManager :=
  {| manager_config := manager_config self; peers := v; trees := trees self;
     connection_health := connection_health self |}.

Definition new_manager (config : TopologyConfig) : TopologyManager :=
  {| manager_config := config; peers := ∅; trees := ∅; connection_health := ∅ |}.

Section Ordered.
Context `{!HashOrder PeerId, !HashOrder StreamId, !Libm}.

Definition add_peer_to_stream (self : TopologyManager) (stream_id : StreamId) (peer : PeerId) (r : PeerRole) (now : Z)
  : TopologyManager :=
  let tree := default (new_tree (manager_config self) now) (trees self !! stream_id) in
  let tree := if bool_decide (r = Publisher) && bool_decide (source tree = None)
              then with_source tree (Some peer) else tree in
  let tree := fst (add_peer tree peer r (default_bandwidth (manager_config self)) now) in
  let tree := if rebalance_threshold (manager_config self) <? Z.of_nat (size (nodes tree))
              then fst (rebalance tree now) else tree in
  with_trees self (<[stream_id := tree]> (trees self)).

Definition remove_peer_from_stream (self : TopologyManager) (stream_id : StreamId) (peer : PeerId) (now : Z)
  : TopologyManager * result unit TopologyError :=
  match trees self !! stream_id with
  | None => (self, RErr StreamNotFound)
  | Some tree =>
      let tree := fst (remove_peer tree peer) in
      if bool_decide (nodes tree = ∅) then (with_trees self (delete stream_id (trees self)), ROk tt)
      else (with_trees self (<[stream_id := fst (rebalance tree now)]> (trees self)), ROk tt)
  end.

Definition health_of (self : TopologyManager) (peer : PeerId) (now : Z) : ConnectionHealth :=
  default (default_health now) (connection_health self !! peer).

Definition record_connection_success (self : TopologyManager) (peer : PeerId) (now now' : Z) : TopologyManager :=
  let health := health_success (health_of self peer now) now now' in
  let health := if float_le (min_relay_quality (manager_config self)) (quality health)
                then set_degraded health false else health in
  with_health self (<[peer := health]> (connection_health self)).

Definition record_connection_failure (self : TopologyManager) (peer : PeerId) (now : Z) : TopologyManager :=
  let health := health_failure (health_of self peer now) now in
  let health := if max_consecutive_failures (manager_config self) <=? consecutive_failures health
                then set_degraded health true else health in
  with_health self (<[peer := health]> (connection_health self)).

Definition update_peer (self : TopologyManager) (id : PeerId) (peer : Peer) : TopologyManager :=
  with_peers self (<[id := peer]> (peers self)).

Definition manager_remove_peer (self : TopologyManager) (peer : PeerId) : TopologyManager :=
  with_trees (with_peers self (delete peer (peers self)))
    ((fun tree => match nodes tree !! peer with Some _ => fst (remove_peer tree peer) | None => tree end) <$> trees self).

Definition get_relay_path (fuel : nat) (self : TopologyManager) (stream_id : StreamId) (target : PeerId)
  : exec (result (list PeerId) TopologyError) :=
  match trees self !! stream_id with
  | None => Done (RErr StreamNotFound)
  | Some tree =>
      let! path := get_path_to_peer fuel tree target in
      match path with
      | Some path => Done (ROk path)
      | None => Done (RErr PeerNotInStream)
      end
  end.

Definition get_stream_peers (self : TopologyManager) (stream_id : StreamId) : result (list PeerId) TopologyError :=
  match trees self !! stream_id with
  | None => RErr StreamNotFound
  | Some tree => ROk (keys (nodes tree))
  end.

Definition get_stream_publisher (self : TopologyManager) (stream_id : StreamId) : result PeerId TopologyError :=
  match trees self !! stream_id with
  | None => RErr StreamNotFound
  | Some tree => match source tree with Some s => ROk s | None => RErr NoSource end
  end.

Definition rebalance_stream (self : TopologyManager) (stream_id : StreamId) (now : Z)
  : TopologyManager * result unit TopologyError :=
  match trees self !! stream_id with
  | None => (self, RErr StreamNotFound)
  | Some tree => (with_trees self (<[stream_id := fst (rebalance tree now)]> (trees self)), ROk tt)
  end.

(** One round of [periodic_rebalance]: the identifiers are read once, then each
    stream that is still there is rebalanced under a lock of its own. *)
Definition periodic_rebalance (self : TopologyManager) (now : Z) : TopologyManager :=
  fold_left (fun self id => fst (rebalance_stream self id now)) (keys (trees self)) self.

(** What [monitor_connection_health] does for one peer, under a lock of its own.
    The task has the configuration that was there when it started. *)
Definition check_health (config : TopologyConfig) (now : Z) (self : TopologyManager) (peer : PeerId) : TopologyManager :=
  with_health self (<[peer := update_degraded_status (health_of self peer now) (min_relay_quality config)
    (max_consecutive_failures config) (min_success_rate config) now]> (connection_health self)).

Definition cleanup_health_records (self : TopologyManager) (max_age now : Z) : TopologyManager :=
  with_health self (filter (fun '(_, h) => is_expired h now max_age = false) (connection_health self)).

(** One of its rounds. *)
Definition monitor_connection_health (config : TopologyConfig) (self : TopologyManager) (now : Z) : TopologyManager :=
  let self := fold_left (check_health config now) (keys (peers self)) self in
  cleanup_health_records self (health_record_expiry config) now.

Definition update_config (self : TopologyManager) (config : TopologyConfig) : TopologyManager :=
  {| manager_config := config; peers := peers self; trees := trees self; connection_health := connection_health self |}.
End Ordered.

(** ** The manager as a state machine *)

(** Every method and every part of a periodic task that holds its locks, with
    any iteration order and mathematical library. *)
Inductive manager_step (m : TopologyManager) : TopologyManager -> Prop :=
| step_add (O : HashOrder PeerId) (M : Libm) id p r now : manager_step m (add_peer_to_stream m id p r now)
| step_remove (O : HashOrder PeerId) (M : Libm) id p now : manager_step m (fst (remove_peer_from_stream m id p now))
| step_success p now now' : manager_step m (record_connection_success m p now now')
| step_failure p now : manager_step m (record_connection_failure m p now)
| step_update_peer p info : manager_step m (update_peer m p info)
| step_remove_peer_all (O : HashOrder PeerId) p : manager_step m (manager_remove_peer m p)
| step_rebalance_stream (O : HashOrder PeerId) (M : Libm) id now : manager_step m (fst (rebalance_stream m id now))
| step_check_health config p now : manager_step m (check_health config now m p)
| step_cleanup age now : manager_step m (cleanup_health_records m age now)
| step_update_config config : manager_step m (update_config m config).

(** What a manager does to one tree: a run of tree operations. *)
Lemma grow_steps `{!HashOrder PeerId} (t : StreamTree PeerId) p r bw now :
  calm_step t (fst (add_peer (if bool_decide (r = Publisher) && bool_decide (source t = None)
                              then with_source t (Some p) else t) p r bw now)).
Proof.
  destruct (bool_decide (r = Publisher) && _) eqn:E; [|by apply step_add_peer].
  apply andb_true_iff in E as [_ Hs%bool_decide_eq_true]. by apply step_publish.
Qed.

(** Each tree of the next state is new or comes from the same stream's tree by
    tree operations; and a tree only goes when it is left without a node. *)
Lemma manager_step_trees m m' : manager_step m m' ->
  (forall id t', trees m' !! id = Some t' ->
     exists t config now, (trees m !! id = Some t \/ t = new_tree config now) /\ rtc calm_step t t') /\
  (forall id t, trees m !! id = Some t ->
     (exists t', trees m' !! id = Some t' /\ rtc calm_step t t') \/
     (exists t', rtc calm_step t t' /\ nodes t' = ∅)).
Proof.
  assert (Hsame : forall m', trees m' = trees m ->
    (forall id t', trees m' !! id = Some t' ->
       exists t config now, (trees m !! id = Some t \/ t = new_tree config now) /\ rtc calm_step t t') /\
    (forall id t, trees m !! id = Some t ->
       (exists t', trees m' !! id = Some t' /\ rtc calm_step t t') \/
       (exists t', rtc calm_step t t' /\ nodes t' = ∅))).
  { intros m1 ->. split; [|by eauto using rtc_refl].
    intros id t' Ht'. exists t', (manager_config m), 0. split; [by left|apply rtc_refl]. }
  assert (Hput : forall m1 id t1, trees m1 = <[id := t1]> (trees m) ->
    (exists t config now, (trees m !! id = Some t \/ (trees m !! id = None /\ t = new_tree config now)) /\ rtc calm_step t t1) ->
    (forall id t', trees m1 !! id = Some t' ->
       exists t config now, (trees m !! id = Some t \/ t = new_tree config now) /\ rtc calm_step t t') /\
    (forall id t, trees m !! id = Some t ->
       (exists t', trees m1 !! id = Some t' /\ rtc calm_step t t') \/
       (exists t', rtc calm_step t t' /\ nodes t' = ∅))).
  { intros m1 id t1 -> (t & config & now & Hor & Hsteps). split.
    - intros id' t' [[<- <-]|[_ Ht']]%lookup_insert_Some; [exists t, config, now; naive_solver|].
      exists t', config, now. split; [by left|apply rtc_refl].
    - intros id' t' Ht'. left. destruct (decide (id' = id)) as [->|Hne].
      + rewrite lookup_insert_eq. exists t1. split; [done|]. destruct Hor as [Hor|[Hor _]]; [|congruence].
        by assert (t' = t) as -> by congruence.
      + rewrite lookup_insert_ne by done. by exists t'. }
  destruct 1 as [O M id p r now|O M id p now|p now now'|p now|p info|O p|O M id now|config p now|age now|config]; try by apply Hsame.
  - eapply (Hput _ id); [done|].
    exists (default (new_tree (manager_config m) now) (trees m !! id)), (manager_config m), now. split.
    { destruct (trees m !! id); [by left|by right]. }
    eapply rtc_l; [apply (grow_steps _ p r (default_bandwidth (manager_config m)) now)|].
    destruct (rebalance_threshold _ <? _); [apply rtc_once, step_rebalance|apply rtc_refl].
  - unfold remove_peer_from_stream. destruct (trees m !! id) as [t|] eqn:Et; [|by apply Hsame].
    case_bool_decide as Hempty; cbn [fst].
    + split.
      * intros id' t'. cbn. intros [_ Ht']%lookup_delete_Some. exists t', (manager_config m), 0. split; [by left|apply rtc_refl].
      * intros id' t' Ht'. destruct (decide (id' = id)) as [->|Hne].
        -- right. assert (t' = t) as -> by congruence. exists (fst (remove_peer t p)). split; [|done].
           apply rtc_once, step_remove_peer.
        -- left. cbn. rewrite lookup_delete_ne by done. by exists t'.
    + eapply (Hput _ id); [done|]. exists t, (manager_config m), now. split; [by left|].
      eapply rtc_l; [apply step_remove_peer|]. apply rtc_once, step_rebalance.
  - unfold manager_remove_peer. cbn [trees with_trees with_peers].
    assert (Hone : forall t : StreamTree PeerId, rtc calm_step t
      (match nodes t !! p with Some _ => fst (remove_peer t p) | None => t end)).
    { intros t. case_match; [apply rtc_once, step_remove_peer|apply rtc_refl]. }
    split.
    + intros id t'. rewrite lookup_fmap. intros (t & Ht & ->)%fmap_Some. exists t, (manager_config m), 0. split; [by left|apply Hone].
    + intros id t Ht. left. rewrite lookup_fmap, Ht. eexists. split; [done|apply Hone].
  - unfold rebalance_stream. destruct (trees m !! id) as [t|] eqn:Et; [|by apply Hsame].
    eapply (Hput _ id); [done|]. exists t, (manager_config m), now. split; [by left|]. apply rtc_once, step_rebalance.
Qed.

Lemma manager_reaches m m' : rtc manager_step m m' ->
  (forall id t, trees m !! id = Some t -> exists config now, rtc calm_step (new_tree config now) t) ->
  forall id t, trees m' !! id = Some t -> exists config now, rtc calm_step (new_tree config now) t.
Proof.
  induction 1 as [|m m1 m2 Hs _ IH]; [done|]. intros Hm. apply IH. intros id t Ht.
  destruct (proj1 (manager_step_trees _ _ Hs) id t Ht) as (t0 & config & now & [Ht0| ->] & Hr); [|by eauto].
  destruct (Hm id t0 Ht0) as (config' & now' & Hr0). exists config', now'. by etrans.
Qed.

Lemma manager_keeps m m' id t s : tree_ok ∅ t -> trees m !! id = Some t -> source t = Some s ->
  rtc manager_step m m' -> exists t', trees m' !! id = Some t' /\ tree_ok ∅ t' /\ source t' = Some s.
Proof.
  intros Hok Ht Hs Hr. revert t Hok Ht Hs. induction Hr as [|m m1 m2 Hstep _ IH]; [by eauto|]. intros t Hok Ht Hs.
  destruct (proj2 (manager_step_trees _ _ Hstep) id t Ht) as [(t' & Ht' & Hr)|(t' & Hr & Hempty)].
  - destruct (calm_steps_source t t' s Hok Hs Hr) as [Hok' Hs']. by apply (IH t').
  - destruct (calm_steps_source t t' s Hok Hs Hr) as [[L _] Hs'].
    destruct (lk_source _ _ _ _ L s Hs') as (_ & _ & n & Hn & _). by rewrite Hempty, lookup_empty in Hn.
Qed.

(** C37: The trees of a manager that operates are the trees of the tree's own state
    machine: whatever the manager does, and in whichever order its methods and
    periodic tasks run, each stream's tree is reached from an empty one by the
    operations of [StreamTree], none of which brings back a peer that is there. *)
Theorem manager_refines_trees config m id t :
  rtc manager_step (new_manager config) m -> trees m !! id = Some t ->
  exists config' now, rtc calm_step (new_tree config' now) t.
Proof.
  intros Hr Ht. apply (manager_reaches (new_manager config) m Hr) with (id := id); [|done].
  intros id' t'. cbn. by rewrite lookup_empty.
Qed.

(** A stream that has a publisher keeps it: from then on, under every sequence
    of the manager's operations, the stream exists, its tree has the same
    source, which is a node of the tree without a parent, and
    [get_stream_publisher] returns it. In particular the removal of an empty
    tree never happens for it. *)
Theorem publisher_stays config m m' id t s :
  rtc manager_step (new_manager config) m -> trees m !! id = Some t -> source t = Some s ->
  rtc manager_step m m' ->
  get_stream_publisher m' id = ROk s /\
  exists t' n, trees m' !! id = Some t' /\ nodes t' !! s = Some n /\ parent n = None.
Proof.
  intros Hr Ht Hs Hr'.
  destruct (manager_reaches (new_manager config) m Hr) with (id := id) (t := t) as (config' & now & Hok%calm_reachable_ok); [|done|].
  { intros id' t'. cbn. by rewrite lookup_empty. }
  destruct (manager_keeps m m' id t s Hok Ht Hs Hr') as (t' & Ht' & [L _] & Hs').
  destruct (lk_source _ _ _ _ L s Hs') as (_ & _ & n & Hn & Hp). unfold get_stream_publisher. rewrite Ht', Hs'. split; [done|]. by exists t', n.
Qed.
End Manager.

Arguments TopologyManager PeerId StreamId {_ _ _ _} Peer.

(** ** Examples *)

Section Examples.
#[local] Existing Instance canonical_order.
#[local] Instance no_libm : Libm := {| sin x := x; cos x := x; atan2 x _ := x; log10 x := x; powi x _ := x |}.

#[local] Abbreviation Manager := (TopologyManager positive positive unit).

(** A publisher and two relays on a stream. *)
Definition demo_manager : Manager :=
  add_peer_to_stream (add_peer_to_stream (add_peer_to_stream (new_manager default_config)
    1%positive 1%positive Publisher 0) 1%positive 2%positive Relay 0) 1%positive 3%positive Consumer 0.

Lemma demo_steps : rtc manager_step (new_manager default_config : Manager) demo_manager.
Proof.
  eapply rtc_l; [apply (step_add _ (canonical_order positive) no_libm 1%positive 1%positive Publisher 0)|].
  eapply rtc_l; [apply (step_add _ (canonical_order positive) no_libm 1%positive 2%positive Relay 0)|].
  eapply rtc_l; [apply (step_add _ (canonical_order positive) no_libm 1%positive 3%positive Consumer 0)|].
  apply rtc_refl.
Qed.

Definition demo_stream : StreamTree positive := default (new_tree default_config 0) (trees demo_manager !! 1%positive).

Lemma manager_refines_trees_witness :
  exists config' now, rtc calm_step (new_tree config' now) demo_stream.
Proof. apply (manager_refines_trees default_config demo_manager 1%positive); [apply demo_steps|by vm_compute]. Defined.

(** The publisher leaves, and everybody else too. *)
Lemma publisher_stays_witness :
  let m := manager_remove_peer (manager_remove_peer demo_manager 1%positive) 2%positive in
  get_stream_publisher m 1%positive = ROk 1%positive /\
  exists t n, trees m !! 1%positive = Some t /\ nodes t !! 1%positive = Some n /\ parent n = None.
Proof.
  apply (publisher_stays default_config demo_manager _ 1%positive demo_stream 1%positive);
    [apply demo_steps|by vm_compute|by vm_compute|].
  eapply rtc_l; [apply (step_remove_peer_all _ (canonical_order positive) 1%positive)|].
  eapply rtc_l; [apply (step_remove_peer_all _ (canonical_order positive) 2%positive)|].
  apply rtc_refl.
Defined.

(** Three failures after ten successes: [record_connection_failure] marks the
    connection, whose failures reach the limit; the next round of the monitor,
    which asks for more than the limit, clears the mark. *)
Example degraded_mark_cleared :
  let m := fold_left (fun m _ => record_connection_success m 1%positive 0 0) (seq 0 10) (new_manager default_config : Manager) in
  let m := fold_left (fun m _ => record_connection_failure m 1%positive 0) (seq 0 3) m in
  is_degraded (health_of m 1%positive 0) = true /\
  is_degraded (health_of (check_health default_config 0 m 1%positive) 1%positive 0) = false.
Proof. split; vm_compute; reflexivity. Qed.
End Examples.
