(* ===== verification/Peers.v ===== *)
(** * Peers

    The records of [core/src/overlay/peer.rs]: what is known of a peer, its
    connection, and the operations on them. Identifiers of peers belong to
    libp2p; [to_base58] is a parameter. Times are nanoseconds, but [last_seen]
    is in seconds; operations that read the clock take it as an argument. *)

From S2P Require Import Prelude Rust Format StreamTree.

#[local] Open Scope Z_scope.

Inductive ConnectionStatus : Type := Connected | Connecting | Disconnected | ConnError.

#[export] Instance ConnectionStatus_eq_dec : EqDecision ConnectionStatus.
Proof. solve_decision. Defined.

(** [LocalPeerId::short_id], of the identifier in base58. *)
Definition short_id (b58 : rstring) : rstring := if zlen b58 <=? 10 then b58 else ztake 7 b58 ++ str "..".

Section Peers.
Context {PeerId : Type}.

Record PeerInfo : Type := {
  info_id : PeerId;
  addresses : list rstring;
  info_role : PeerRole;
  info_status : ConnectionStatus;
  last_seen : Z;
  protocols : list rstring;
  info_metadata : gmap rstring rstring;
  info_latency_ms : option Z;
  region : option rstring;
  bandwidth_capacity : option Z;
}.

(** [PeerInfo::default], with the identifier it draws. *)
Definition default_info (random : PeerId) (now_secs : Z) : PeerInfo :=
  {| info_id := random; addresses := []; info_role := UnknownRole; info_status := Disconnected; last_seen := now_secs;
     protocols := []; info_metadata := ∅; info_latency_ms := None; region := None; bandwidth_capacity := None |}.

Definition with_status (i : PeerInfo) (v : ConnectionStatus) : PeerInfo :=
  {| info_id := info_id i; addresses := addresses i; info_role := info_role i; info_status := v; last_seen := last_seen i;
     protocols := protocols i; info_metadata := info_metadata i; info_latency_ms := info_latency_ms i;
     region := region i; bandwidth_capacity := bandwidth_capacity i |}.

(** What the Identify protocol tells. *)
Definition identify_info (i : PeerInfo) (listen_addrs protos : list rstring) (agent_version protocol_version : rstring) : PeerInfo :=
  {| info_id := info_id i; addresses := addresses i ++ listen_addrs; info_role := info_role i; info_status := info_status i;
     last_seen := last_seen i; protocols := protos;
     info_metadata := <[str "protocol_version" := protocol_version]> (<[str "agent_version" := agent_version]> (info_metadata i));
     info_latency_ms := info_latency_ms i; region := region i; bandwidth_capacity := bandwidth_capacity i |}.

Record PeerConnection : Type := {
  conn_peer : PeerId;
  is_outbound : bool;
  conn_status : ConnectionStatus;
  connected_at : option Z;
  conn_last_activity : Z;
  bytes_sent : Z;
  bytes_received : Z;
  conn_latency_ms : option Z;
  failed_attempts : Z;
  conn_is_blocked : bool;
}.

Definition new_connection (peer : PeerId) (outbound : bool) (now : Z) : PeerConnection :=
  {| conn_peer := peer; is_outbound := outbound; conn_status := Connecting; connected_at := None; conn_last_activity := now;
     bytes_sent := 0; bytes_received := 0; conn_latency_ms := None; failed_attempts := 0; conn_is_blocked := false |}.

Definition mark_connected (c : PeerConnection) (now : Z) : PeerConnection :=
  {| conn_peer := conn_peer c; is_outbound := is_outbound c; conn_status := Connected; connected_at := Some now;
     conn_last_activity := conn_last_activity c; bytes_sent := bytes_sent c; bytes_received := bytes_received c;
     conn_latency_ms := conn_latency_ms c; failed_attempts := failed_attempts c; conn_is_blocked := conn_is_blocked c |}.

Definition with_traffic (c : PeerConnection) (out inn now : Z) : PeerConnection :=
  {| conn_peer := conn_peer c; is_outbound := is_outbound c; conn_status := conn_status c; connected_at := connected_at c;
     conn_last_activity := now; bytes_sent := out; bytes_received := inn;
     conn_latency_ms := conn_latency_ms c; failed_attempts := failed_attempts c; conn_is_blocked := conn_is_blocked c |}.

Definition update_activity (c : PeerConnection) (now : Z) : PeerConnection := with_traffic c (bytes_sent c) (bytes_received c) now.

Definition record_sent (c : PeerConnection) (n now : Z) : exec PeerConnection :=
  let! total := add_u64 (bytes_sent c) n in Done (with_traffic c total (bytes_received c) now).
Definition record_received (c : PeerConnection) (n now : Z) : exec PeerConnection :=
  let! total := add_u64 (bytes_received c) n in Done (with_traffic c (bytes_sent c) total now).

Definition is_idle (c : PeerConnection) (timeout now : Z) : bool := timeout <? Z.max 0 (now - conn_last_activity c).

Definition update_latency (c : PeerConnection) (ms : Z) : PeerConnection :=
  {| conn_peer := conn_peer c; is_outbound := is_outbound c; conn_status := conn_status c; connected_at := connected_at c;
     conn_last_activity := conn_last_activity c; bytes_sent := bytes_sent c; bytes_received := bytes_received c;
     conn_latency_ms := Some ms; failed_attempts := failed_attempts c; conn_is_blocked := conn_is_blocked c |}.

Record Peer : Type := {
  known_id : PeerId;
  known_info : PeerInfo;
  connection : option PeerConnection;
  discovered_at : Z;
  connection_attempts : Z;
  last_error : option rstring;
  is_whitelisted : bool;
  last_connected : option Z;
  is_blocked : bool;
  settings : gmap rstring rstring;
}.

Definition new_peer (p : PeerId) (i : PeerInfo) (now : Z) : Peer :=
  {| known_id := p; known_info := i; connection := None; discovered_at := now; connection_attempts := 0; last_error := None;
     is_whitelisted := false; last_connected := None; is_blocked := false; settings := ∅ |}.

Definition with_info (p : Peer) (i : PeerInfo) (c : option PeerConnection) (last : option Z) : Peer :=
  {| known_id := known_id p; known_info := i; connection := c; discovered_at := discovered_at p; connection_attempts := connection_attempts p;
     last_error := last_error p; is_whitelisted := is_whitelisted p; last_connected := last; is_blocked := is_blocked p;
     settings := settings p |}.

Definition with_attempts (p : Peer) (n : Z) (blocked : bool) : Peer :=
  {| known_id := known_id p; known_info := known_info p; connection := connection p; discovered_at := discovered_at p; connection_attempts := n;
     last_error := last_error p; is_whitelisted := is_whitelisted p; last_connected := last_connected p; is_blocked := blocked;
     settings := settings p |}.

Definition is_connected (p : Peer) : bool :=
  match connection p with Some c => bool_decide (conn_status c = Connected) | None => false end.

Definition increment_attempts (p : Peer) : exec Peer :=
  let! n := add_u32 (connection_attempts p) 1 in Done (with_attempts p n (is_blocked p)).
Definition should_backoff (p : Peer) (max_attempts : Z) : bool := max_attempts <? connection_attempts p.
Definition reset_attempts (p : Peer) : Peer := with_attempts p 0 (is_blocked p).
Definition block (p : Peer) : Peer := with_attempts p (connection_attempts p) true.
Definition unblock (p : Peer) : Peer := with_attempts p (connection_attempts p) false.

Definition set_connecting (p : Peer) : exec Peer :=
  increment_attempts (with_info p (with_status (known_info p) Connecting) (connection p) (last_connected p)).
Definition set_connected (p : Peer) (c : PeerConnection) (now : Z) : Peer :=
  with_info p (with_status (known_info p) Connected) (Some c) (Some now).
Definition set_disconnected (p : Peer) : Peer :=
  with_info p (with_status (known_info p) Disconnected) None (last_connected p).
End Peers.

Arguments PeerInfo : clear implicits.
Arguments PeerConnection : clear implicits.
Arguments Peer : clear implicits.
