(* ===== verification/Mesh.v ===== *)
(** * The mesh of a stream

    Models [core/src/overlay/mesh/network.rs] and the manager of meshes in
    [mesh/mod.rs]: nodes with at most five links, a new peer linked to the source
    and to the peers of the highest bandwidth, and the links made again when a
    peer leaves. *)

From S2P Require Import Prelude Rust Float Geo Hash StreamTree.

#[local] Open Scope Z_scope.

Definition MAX_MESH_PEERS : Z := 5.

Section Mesh.
Context {PeerId : Type} `{Countable PeerId}.

(** ** Nodes *)

Record MeshNode : Type := {
  mesh_peer_id : PeerId;
  mesh_role : PeerRole;
  peers : gset PeerId;
  mesh_bandwidth : Z;
  mesh_is_source : bool;
}.

Definition new_mesh_node (peer_id : PeerId) (role : PeerRole) (is_source : bool) : MeshNode :=
  {| mesh_peer_id := peer_id; mesh_role := role; peers := ∅; mesh_bandwidth := 0; mesh_is_source := is_source |}.

Definition with_peers (n : MeshNode) (v : gset PeerId) : MeshNode :=
  {| mesh_peer_id := mesh_peer_id n; mesh_role := mesh_role n; peers := v;
     mesh_bandwidth := mesh_bandwidth n; mesh_is_source := mesh_is_source n |}.

Definition with_bandwidth (n : MeshNode) (v : Z) : MeshNode :=
  {| mesh_peer_id := mesh_peer_id n; mesh_role := mesh_role n; peers := peers n;
     mesh_bandwidth := v; mesh_is_source := mesh_is_source n |}.

Definition can_accept_connections (self : MeshNode) : bool := Z.of_nat (size (peers self)) <? MAX_MESH_PEERS.

Definition node_add_peer (self : MeshNode) (peer_id : PeerId) : MeshNode * bool :=
  if can_accept_connections self then (with_peers self ({[peer_id]} ∪ peers self), true) else (self, false).

Definition node_remove_peer (self : MeshNode) (peer_id : PeerId) : MeshNode * bool :=
  (with_peers self (peers self ∖ {[peer_id]}), bool_decide (peer_id ∈ peers self)).

(** ** The mesh *)

Record StreamMesh : Type := {
  mesh_stream_id : list Z;
  mesh_nodes : gmap PeerId MeshNode;
  mesh_source : option PeerId;
}.

Definition new_mesh (stream_id : list Z) : StreamMesh :=
  {| mesh_stream_id := stream_id; mesh_nodes := ∅; mesh_source := None |}.

Definition with_mesh_nodes (self : StreamMesh) (v : gmap PeerId MeshNode) : StreamMesh :=
  {| mesh_stream_id := mesh_stream_id self; mesh_nodes := v; mesh_source := mesh_source self |}.

Definition mesh_set_source (self : StreamMesh) (peer_id : PeerId) : StreamMesh * bool :=
  match mesh_source self with
  | Some _ => (self, false)
  | None =>
      ({| mesh_stream_id := mesh_stream_id self;
          mesh_nodes := <[peer_id := new_mesh_node peer_id Publisher true]> (mesh_nodes self);
          mesh_source := Some peer_id |}, true)
  end.

(** The other nodes that have room, by falling bandwidth. *)
Definition candidates `{!HashOrder PeerId} (ns : gmap PeerId MeshNode) (peer_id : PeerId) : list (PeerId * Z) :=
  sort_by_key (fun c => - snd c)
    (map (fun e => (fst e, mesh_bandwidth (snd e)))
       (List.filter (fun e => negb (bool_decide (fst e = peer_id)) && can_accept_connections (snd e)) (map_iter ns))).

(** The source first: it takes the peer, and then the peer takes it. *)
Definition connect_to_source (ns : gmap PeerId MeshNode) (source : option PeerId) (peer_id : PeerId)
  : gmap PeerId MeshNode * bool :=
  match source with
  | Some source_id =>
      if decide (source_id = peer_id) then (ns, false)
      else
        match ns !! source_id with
        | Some source_node =>
            if can_accept_connections source_node then
              let ns := <[source_id := fst (node_add_peer source_node peer_id)]> ns in
              match ns !! peer_id with
              | Some node => (<[peer_id := fst (node_add_peer node source_id)]> ns, true)
              | None => (ns, false)
              end
            else (ns, false)
        | None => (ns, false)
        end
  | None => (ns, false)
  end.

(** Then the candidates in turn, until the peer has no room. *)
Fixpoint connect_to_candidates (ns : gmap PeerId MeshNode) (peer_id : PeerId) (cs : list PeerId) (connected : bool)
  : gmap PeerId MeshNode * bool :=
  match cs with
  | [] => (ns, connected)
  | candidate_id :: cs =>
      match ns !! peer_id with
      | Some node =>
          if negb (can_accept_connections node) then (ns, connected)
          else if bool_decide (candidate_id ∈ peers node) then connect_to_candidates ns peer_id cs connected
          else
            let ns := <[peer_id := fst (node_add_peer node candidate_id)]> ns in
            match ns !! candidate_id with
            | Some candidate_node =>
                connect_to_candidates (<[candidate_id := fst (node_add_peer candidate_node peer_id)]> ns) peer_id cs true
            | None => connect_to_candidates ns peer_id cs connected
            end
      | None => connect_to_candidates ns peer_id cs connected
      end
  end.

Definition connect_peer_to_mesh `{!HashOrder PeerId} (self : StreamMesh) (peer_id : PeerId) : StreamMesh * bool :=
  match mesh_nodes self !! peer_id with
  | None => (self, false)
  | Some _ =>
      let cs := candidates (mesh_nodes self) peer_id in
      let '(ns, connected) := connect_to_source (mesh_nodes self) (mesh_source self) peer_id in
      let '(ns, connected) := connect_to_candidates ns peer_id (map fst cs) connected in
      (with_mesh_nodes self ns, connected)
  end.

Definition mesh_add_peer `{!HashOrder PeerId} (self : StreamMesh) (peer_id : PeerId) (role : PeerRole) (bandwidth : Z)
  : StreamMesh * bool :=
  match mesh_nodes self !! peer_id with
  | Some _ => (self, false)
  | None =>
      let is_source := bool_decide (mesh_source self = Some peer_id) in
      let node := with_bandwidth (new_mesh_node peer_id role is_source) bandwidth in
      connect_peer_to_mesh (with_mesh_nodes self (<[peer_id := node]> (mesh_nodes self))) peer_id
  end.

(** Every peer that has room when the round starts is connected in turn. *)
Definition connect_all `{!HashOrder PeerId} (self : StreamMesh) (ids : list PeerId) : StreamMesh * bool :=
  fold_left (fun '(self, changes) peer_id => let '(self, c) := connect_peer_to_mesh self peer_id in (self, changes || c))
    ids (self, false).

Definition mesh_rebalance `{!HashOrder PeerId} (self : StreamMesh) : StreamMesh * bool :=
  connect_all self (map fst (List.filter (fun e => can_accept_connections (snd e)) (map_iter (mesh_nodes self)))).

Definition disconnect (ns : gmap PeerId MeshNode) (peer_id : PeerId) (ids : list PeerId) : gmap PeerId MeshNode :=
  fold_left (fun ns connected_id => alter (fun n => fst (node_remove_peer n peer_id)) connected_id ns) ids ns.

Definition mesh_remove_peer `{!HashOrder PeerId} (self : StreamMesh) (peer_id : PeerId) : StreamMesh * bool :=
  match mesh_nodes self !! peer_id with
  | None => (self, false)
  | Some node =>
      if decide (mesh_source self = Some peer_id) then (self, false)
      else
        let ns := disconnect (mesh_nodes self) peer_id (set_iter (peers node)) in
        (fst (mesh_rebalance (with_mesh_nodes self (delete peer_id ns))), true)
  end.

Record MeshStats : Type := {
  peer_count : Z;
  source_connected_count : Z;
  avg_connections : float;
  max_connections : Z;
}.

Definition degree (n : MeshNode) : Z := Z.of_nat (size (peers n)).

Definition mesh_get_stats `{!HashOrder PeerId} (self : StreamMesh) : MeshStats :=
  let es := map_iter (mesh_nodes self) in
  match es with
  | [] => {| peer_count := 0; source_connected_count := 0; avg_connections := f64_of 0; max_connections := 0 |}
  | _ =>
      {| peer_count := zlen es;
         source_connected_count :=
           match mesh_source self with
           | Some source_id => zlen (List.filter (fun e => bool_decide (source_id ∈ peers (snd e)) && negb (bool_decide (fst e = source_id))) es)
           | None => 0
           end;
         avg_connections := f64_div (f64_of (fold_left Z.add (map (fun e => degree (snd e)) es) 0)) (f64_of (zlen es));
         max_connections := fold_left Z.max (map (fun e => degree (snd e)) es) 0 |}
  end.

Definition get_connected_peers (self : StreamMesh) (peer_id : PeerId) : option (gset PeerId) := peers <$> mesh_nodes self !! peer_id.
Definition mesh_contains_peer (self : StreamMesh) (peer_id : PeerId) : bool := bool_decide (is_Some (mesh_nodes self !! peer_id)).

(** ** All meshes *)

Definition Meshes : Type := gmap (list Z) StreamMesh.

Definition mesh_add_stream (ms : Meshes) (stream_id : list Z) : Meshes * bool :=
  match ms !! stream_id with
  | Some _ => (ms, false)
  | None => (<[stream_id := new_mesh stream_id]> ms, true)
  end.

Definition mesh_remove_stream (ms : Meshes) (stream_id : list Z) : Meshes * bool :=
  (delete stream_id ms, bool_decide (is_Some (ms !! stream_id))).

Definition mesh_add_peer_to_stream `{!HashOrder PeerId} (ms : Meshes) (stream_id : list Z) (peer_id : PeerId) (role : PeerRole)
  : Meshes * bool :=
  match ms !! stream_id with
  | Some mesh => let '(mesh, r) := mesh_add_peer mesh peer_id role 1000000 in (<[stream_id := mesh]> ms, r)
  | None => (ms, false)
  end.

Definition mesh_remove_peer_from_stream `{!HashOrder PeerId} (ms : Meshes) (stream_id : list Z) (peer_id : PeerId)
  : Meshes * bool :=
  match ms !! stream_id with
  | Some mesh => let '(mesh, r) := mesh_remove_peer mesh peer_id in (<[stream_id := mesh]> ms, r)
  | None => (ms, false)
  end.

Definition get_stream_stats `{!HashOrder PeerId} (ms : Meshes) (stream_id : list Z) : option MeshStats :=
  mesh_get_stats <$> ms !! stream_id.

(** The meshes do not depend on each other; the result counts those that
    changed. *)
Definition rebalance_all `{!HashOrder PeerId, !HashOrder (list Z)} (ms : Meshes) : Meshes * Z :=
  ((fun mesh => fst (mesh_rebalance mesh)) <$> ms, zlen (List.filter (fun mesh => snd (mesh_rebalance mesh)) (values ms))).
End Mesh.

Arguments MeshNode PeerId {_ _}.
Arguments StreamMesh PeerId {_ _}.

(** ** Properties *)

Section Properties.
Context {PeerId : Type} `{Countable PeerId}.

#[local] Abbreviation StreamMesh := (StreamMesh PeerId).
#[local] Abbreviation Nodes := (gmap PeerId (MeshNode PeerId)).

(** *** Links *)

(** [a] lists [b] among its peers, and [a] can take another link. *)
Definition links (ns : Nodes) (a b : PeerId) : Prop := exists n, ns !! a = Some n /\ b ∈ peers n.
Definition has_room (ns : Nodes) (a : PeerId) : Prop := exists n, ns !! a = Some n /\ can_accept_connections n = true.

(** One end of a link. *)
Definition add_link (ns : Nodes) (a b : PeerId) : Nodes := alter (fun n => fst (node_add_peer n b)) a ns.

#[local] Instance has_room_dec ns a : Decision (has_room ns a).
Proof.
  unfold has_room. destruct (ns !! a) as [n|] eqn:Ha.
  - destruct (can_accept_connections n) eqn:Hc; [left; by exists n|right; intros (n' & [= <-] & ?); congruence].
  - right. by intros (n' & ? & _).
Defined.

Lemma add_link_lookup ns a b n : ns !! a = Some n -> add_link ns a b = <[a := fst (node_add_peer n b)]> ns.
Proof.
  intros Ha. apply map_eq. intros i. unfold add_link. destruct (decide (i = a)) as [->|Hne].
  - by rewrite lookup_alter_eq, lookup_insert_eq, Ha.
  - by rewrite lookup_alter_ne, lookup_insert_ne.
Qed.

Lemma add_link_links ns a b x y : links (add_link ns a b) x y <-> links ns x y \/ (x = a /\ y = b /\ has_room ns a).
Proof.
  unfold links, add_link, has_room. destruct (decide (x = a)) as [->|Hne].
  - rewrite lookup_alter_eq. destruct (ns !! a) as [n|] eqn:Ha; cbn.
    + unfold node_add_peer. destruct (can_accept_connections n) eqn:Hc; cbn.
      * split.
        -- intros (m & [= <-] & Hy). cbn in Hy. apply elem_of_union in Hy as [->%elem_of_singleton|Hy]; [right; by eauto|left; by eauto].
        -- intros [(m & [= <-] & Hy)|(_ & -> & _)]; eexists; (split; [done|]); cbn; set_solver.
      * split; [intros (m & [= <-] & Hy); left; by eauto|]. intros [?|(_ & _ & m & [= <-] & Hm)]; [done|congruence].
    + split; [by intros (m & ? & _)|]. intros [(m & ? & _)|(_ & _ & m & ? & _)]; done.
  - rewrite lookup_alter_ne by done. split; [by left|]. by intros [?|[? _]].
Qed.

Lemma add_link_room ns a b x : x <> a -> has_room (add_link ns a b) x <-> has_room ns x.
Proof. intros Hne. unfold has_room, add_link. by rewrite lookup_alter_ne. Qed.

Lemma add_link_room_less ns a b x : has_room (add_link ns a b) x -> has_room ns x.
Proof.
  intros Hr. destruct (decide (x = a)) as [->|Hne]; [|by apply add_link_room in Hr].
  destruct Hr as (n & Hn & Hc). unfold add_link in Hn. rewrite lookup_alter_eq in Hn.
  destruct (ns !! a) as [m|] eqn:Ha; [|done]. cbn in Hn. injection Hn as <-. exists m. split; [done|]. revert Hc.
  unfold node_add_peer. destruct (can_accept_connections m) eqn:Hm; cbn; congruence.
Qed.

Lemma add_link_some ns a b x : is_Some (add_link ns a b !! x) <-> is_Some (ns !! x).
Proof.
  unfold add_link. destruct (decide (x = a)) as [->|Hne]; [rewrite lookup_alter_eq|by rewrite lookup_alter_ne]. by destruct (ns !! a).
Qed.

Lemma add_link_comm ns a b c d : a <> c -> add_link (add_link ns a b) c d = add_link (add_link ns c d) a b.
Proof. intros Hne. unfold add_link, alter, map_alter. by apply partial_alter_partial_alter_ne. Qed.

(** *** The loops in terms of links *)

Lemma connect_to_source_links ns source p : is_Some (ns !! p) ->
  fst (connect_to_source ns source p) =
  match source with
  | Some s => if decide (s <> p /\ has_room ns s) then add_link (add_link ns s p) p s else ns
  | None => ns
  end.
Proof.
  intros [n Hp]. unfold connect_to_source. destruct source as [s|]; [|done].
  destruct (decide (s = p)) as [->|Hne]; [by rewrite decide_False by tauto|].
  destruct (ns !! s) as [sn|] eqn:Hs.
  - destruct (can_accept_connections sn) eqn:Hc.
    + rewrite decide_True by (split; [done|by exists sn]). rewrite lookup_insert_ne, Hp by done. cbn [fst].
      rewrite (add_link_lookup ns s p sn) by done. rewrite (add_link_lookup _ p s n); [done|by rewrite lookup_insert_ne].
    + rewrite decide_False; [done|]. intros (_ & m & Hm & ?). congruence.
  - rewrite decide_False; [done|]. intros (_ & m & ? & _). congruence.
Qed.

(** One turn of the loop over the candidates. *)
Definition link_both (ns : Nodes) (p c : PeerId) : Nodes := add_link (add_link ns p c) c p.

Lemma connect_to_candidates_step ns p c cs b node : ns !! p = Some node -> is_Some (ns !! c) -> c <> p ->
  connect_to_candidates ns p (c :: cs) b =
  if can_accept_connections node then
    if bool_decide (c ∈ peers node) then connect_to_candidates ns p cs b
    else connect_to_candidates (link_both ns p c) p cs true
  else (ns, b).
Proof.
  intros Hp [cn Hc] Hne. cbn. rewrite Hp. destruct (can_accept_connections node); cbn [negb]; [|done].
  destruct (bool_decide (c ∈ peers node)); [done|]. rewrite lookup_insert_ne, Hc by done.
  unfold link_both. rewrite (add_link_lookup ns p c node) by done.
  by rewrite (add_link_lookup _ c p cn) by (by rewrite lookup_insert_ne).
Qed.

(** *** The invariant *)

(** What lists a peer is listed back by it, unless the peer is the source and the
    other one of [D]. *)
Definition listed_back (D : gset PeerId) (source : option PeerId) (ns : Nodes) (a b : PeerId) : Prop :=
  links ns b a \/ (source = Some b /\ is_Some (ns !! b) /\ a ∈ D).

(** Nobody has more than five links or one to itself, nodes are stored under
    their own identifier, the source is the node that is marked, and whatever a
    node other than the source lists, lists it back. *)
Definition mesh_ok (D : gset PeerId) (source : option PeerId) (ns : Nodes) : Prop :=
  (forall a n, ns !! a = Some n -> (degree n <= MAX_MESH_PEERS /\ a ∉ peers n) /\ mesh_peer_id n = a /\
     mesh_is_source n = bool_decide (source = Some a)) /\
  (forall a b, links ns a b -> source <> Some a -> listed_back D source ns a b) /\
  (forall s, source = Some s -> is_Some (ns !! s)).

Lemma add_link_node ns a b x n : a <> b -> add_link ns a b !! x = Some n ->
  exists m, ns !! x = Some m /\ mesh_peer_id n = mesh_peer_id m /\ mesh_is_source n = mesh_is_source m /\
    (degree m <= MAX_MESH_PEERS -> degree n <= MAX_MESH_PEERS) /\ (x ∉ peers m -> x ∉ peers n).
Proof.
  intros Hne Hn. unfold add_link in Hn. destruct (decide (x = a)) as [->|Hx].
  - rewrite lookup_alter_eq in Hn. destruct (ns !! a) as [m|]; [|done]. cbn in Hn. injection Hn as <-. exists m.
    unfold node_add_peer. destruct (can_accept_connections m) eqn:Hc; [|done]. split_and!; [done..| |set_solver].
    intros _. unfold degree, can_accept_connections in *. apply Z.ltb_lt in Hc. cbn.
    rewrite size_union_alt, size_singleton. pose proof (subseteq_size (peers m ∖ {[b]}) (peers m) ltac:(set_solver)). lia.
  - rewrite lookup_alter_ne in Hn by done. by exists n.
Qed.

(** Linking two nodes of which the first has room, unless it is the source, and
    the second has. *)
Lemma link_ok {D} source ns a b : mesh_ok D source ns -> a <> b -> is_Some (ns !! a) ->
  has_room ns b -> (source <> Some b -> has_room ns a) -> mesh_ok D source (add_link (add_link ns b a) a b).
Proof.
  intros (Hn & Hs & Hsrc) Hne Ha Hb Hroom. split_and!.
  - intros x n Hx. apply add_link_node in Hx as (m1 & Hx & -> & -> & Hd1 & Hp1); [|done].
    apply add_link_node in Hx as (m2 & Hx & -> & -> & Hd2 & Hp2); [|done]. destruct (Hn x m2 Hx) as ((Hd & Hp) & Hrest). auto.
  - intros x y.
    unfold listed_back. rewrite !add_link_links, !add_link_some. rewrite (add_link_room ns b a a) by done.
    intros [[Hl|(-> & -> & _)]|(-> & -> & Hr)] Hx.
    + destruct (Hs x y Hl Hx) as [?|?]; [by left; left; left|by right].
    + left; right. split_and!; [done..|]. by apply Hroom.
    + left; left; right. by split_and!.
  - intros s Hs'. rewrite !add_link_some. by apply Hsrc.
Qed.

Lemma connect_to_source_ok {D} source ns p : mesh_ok D source ns -> is_Some (ns !! p) ->
  mesh_ok D source (fst (connect_to_source ns source p)).
Proof.
  intros Hok Hp. rewrite connect_to_source_links by done. destruct source as [s|]; [|done].
  destruct (decide _) as [[Hne Hr]|]; [|done]. by apply link_ok.
Qed.

(** A candidate still has room when its turn comes, or there is nothing to do
    about it. *)
Definition ready (ns : Nodes) (p c : PeerId) : Prop :=
  c <> p /\ is_Some (ns !! c) /\ (has_room ns c \/ links ns p c \/ ~ has_room ns p).

Lemma ready_add_link ns a b p c : c <> a -> ready ns p c -> ready (add_link ns a b) p c.
Proof.
  intros Hne (Hp & Hs & Hor). split; [done|]. split; [by apply add_link_some|]. destruct Hor as [Hr|[Hl|Hr]].
  - left. by apply add_link_room.
  - right; left. apply add_link_links. by left.
  - right; right. intros Hr'. by apply add_link_room_less in Hr'.
Qed.

Lemma connect_to_candidates_ok {D} source ns p cs b : mesh_ok D source ns -> is_Some (ns !! p) -> NoDup cs ->
  Forall (ready ns p) cs -> mesh_ok D source (fst (connect_to_candidates ns p cs b)).
Proof.
  revert ns b. induction cs as [|c cs IH]; intros ns b Hok Hp Hnd Hr; [done|].
  apply NoDup_cons in Hnd as [Hc Hnd]. apply list.Forall_cons in Hr as [(Hne & Hs & Hor) Hr].
  pose proof Hp as [node Hnode]. rewrite (connect_to_candidates_step ns p c cs b node) by done.
  destruct (can_accept_connections node) eqn:Hroom; [|done]. case_bool_decide as Hin; [by apply IH|].
  assert (Hpr : has_room ns p) by (by exists node).
  destruct Hor as [Hcr|[(n & Hn & Hl)|Hn]]; [|simplify_eq|done].
  assert (Hswap : link_both ns p c = add_link (add_link ns c p) p c).
  { by apply add_link_comm. }
  rewrite Hswap. apply IH; [by apply link_ok|by rewrite !add_link_some|done|].
  apply list.Forall_forall. intros c' Hc'. rewrite list.Forall_forall in Hr. specialize (Hr c' Hc').
  apply ready_add_link; [by destruct Hr|]. apply ready_add_link; [|done]. by intros ->.
Qed.

Lemma candidates_spec `{!HashOrder PeerId} ns p :
  NoDup (map fst (candidates ns p)) /\
  (forall c w, (c, w) ∈ candidates ns p <-> c <> p /\ exists n, ns !! c = Some n /\ can_accept_connections n = true /\ w = mesh_bandwidth n) /\
  StronglySorted (fun x y => snd y <= snd x) (candidates ns p).
Proof.
  unfold candidates. split_and!.
  - rewrite sort_by_key_perm, map_map. cbn. apply NoDup_map_filter. rewrite map_iter_perm. apply NoDup_fst_map_to_list.
  - intros c w. rewrite sort_by_key_perm, elem_of_map. split.
    + intros ([a n] & [= -> ->] & Hin). apply list_elem_of_In, filter_In in Hin as [Hin Hb].
      apply list_elem_of_In, elem_of_map_iter in Hin. apply andb_prop in Hb as [Hb1 Hb2]. cbn in *.
      apply negb_true_iff, bool_decide_eq_false in Hb1. split; [done|]. by exists n.
    + intros (Hne & n & Hn & Hc & ->). exists (c, n). split; [done|]. apply list_elem_of_In, filter_In.
      split; [by apply list_elem_of_In, elem_of_map_iter|]. cbn. by rewrite Hc, bool_decide_false.
  - eapply StronglySorted_weaken; [|apply sort_by_key_sorted]. cbn. lia.
Qed.

Lemma candidates_ready `{!HashOrder PeerId} source ns p : is_Some (ns !! p) ->
  Forall (ready (fst (connect_to_source ns source p)) p) (map fst (candidates ns p)).
Proof.
  intros Hp. apply list.Forall_forall. intros c ([c' w] & -> & Hin)%elem_of_map. cbn [fst].
  apply (proj1 (proj2 (candidates_spec ns p))) in Hin as (Hne & n & Hn & Hc & _).
  assert (Hr : has_room ns c') by (by exists n).
  rewrite connect_to_source_links by done. destruct source as [s|]; [|by split_and!; [|exists n|left]].
  destruct (decide _) as [[Hs Hsr]|]; [|by split_and!; [|exists n|left]].
  destruct (decide (c' = s)) as [->|Hcs].
  - split; [done|]. split; [by rewrite !add_link_some|]. right. destruct (decide (has_room ns p)) as [Hpr|Hpr].
    + left. apply add_link_links. right. split_and!; [done..|]. by apply add_link_room.
    + right. intros Hr'. by apply add_link_room_less, add_link_room_less in Hr'.
  - apply ready_add_link; [done|]. apply ready_add_link; [done|]. by split_and!; [|exists n|left].
Qed.

Lemma connect_ok `{!HashOrder PeerId} {D} (self : StreamMesh) p : mesh_ok D (mesh_source self) (mesh_nodes self) ->
  mesh_source (fst (connect_peer_to_mesh self p)) = mesh_source self /\
  mesh_ok D (mesh_source self) (mesh_nodes (fst (connect_peer_to_mesh self p))).
Proof.
  intros Hok. unfold connect_peer_to_mesh. destruct (mesh_nodes self !! p) as [n|] eqn:Hp; [|done].
  assert (Hsome : is_Some (mesh_nodes self !! p)) by (by exists n).
  pose proof (connect_to_source_ok _ _ p Hok Hsome) as Hok1.
  pose proof (candidates_ready (mesh_source self) (mesh_nodes self) p Hsome) as Hready.
  assert (Hp1 : is_Some (fst (connect_to_source (mesh_nodes self) (mesh_source self) p) !! p)).
  { rewrite connect_to_source_links by done. destruct (mesh_source self); [|done]. destruct (decide _); [|done]. by rewrite !add_link_some. }
  destruct (connect_to_source _ _ p) as [ns1 c1]. cbn [fst] in *.
  pose proof (connect_to_candidates_ok _ ns1 p (map fst (candidates (mesh_nodes self) p)) c1 Hok1 Hp1
    (proj1 (candidates_spec _ p)) Hready) as Hok2.
  destruct (connect_to_candidates ns1 p _ c1) as [ns2 c2]. done.
Qed.

Lemma connect_all_ok `{!HashOrder PeerId} {D} (self : StreamMesh) ids : mesh_ok D (mesh_source self) (mesh_nodes self) ->
  mesh_source (fst (connect_all self ids)) = mesh_source self /\
  mesh_ok D (mesh_source self) (mesh_nodes (fst (connect_all self ids))).
Proof.
  unfold connect_all. generalize false as b. revert self. induction ids as [|p ids IH]; intros self b Hok; [done|]. cbn.
  destruct (connect_ok self p Hok) as [Hs Hok']. destruct (connect_peer_to_mesh self p) as [self' c]. cbn [fst] in *.
  rewrite <- Hs in Hok' |- *. by apply IH.
Qed.

(** Taking a peer out of the lists of some nodes. *)
Lemma disconnect_lookup (ns : Nodes) (p : PeerId) (ids : list PeerId) x : disconnect ns p ids !! x =
  (if decide (x ∈ ids) then (fun n => with_peers n (peers n ∖ {[p]})) <$> ns !! x else ns !! x).
Proof.
  unfold disconnect. revert ns. induction ids as [|i ids IH]; intros ns; [done|]. cbn [fold_left]. rewrite IH.
  destruct (decide (x = i)) as [->|Hne].
  - rewrite lookup_alter_eq, (decide_True (P := i ∈ i :: ids)) by by left.
    destruct (decide (i ∈ ids)); [|done]. destruct (ns !! i) as [n|]; [|done]. cbn. f_equal. unfold with_peers. cbn. f_equal. set_solver.
  - rewrite lookup_alter_ne by done. by rewrite (decide_ext (x ∈ ids) (x ∈ i :: ids)) by set_solver.
Qed.

Lemma remove_ok `{!HashOrder PeerId} {D} source (ns : Nodes) p node : mesh_ok D source ns -> ns !! p = Some node -> source <> Some p ->
  mesh_ok D source (delete p (disconnect ns p (set_iter (peers node)))).
Proof.
  intros (Hn & Hs & Hsrc) Hp Hne.
  assert (Hl : forall x n', delete p (disconnect ns p (set_iter (peers node))) !! x = Some n' ->
    x <> p /\ exists n, ns !! x = Some n /\ peers n' ⊆ peers n /\ mesh_peer_id n' = mesh_peer_id n /\ mesh_is_source n' = mesh_is_source n /\
      (peers n' = peers n \/ peers n' = peers n ∖ {[p]}) /\ (x ∈ peers node -> p ∉ peers n')).
  { intros x n' [Hx Hn']%lookup_delete_Some. split; [done|]. rewrite disconnect_lookup in Hn'. revert Hn'.
    destruct (decide _) as [Hin|Hin]; rewrite elem_of_set_iter in Hin.
    - destruct (ns !! x) as [n|]; [|done]. cbn. intros [= <-]. exists n. cbn. split_and!; [done|set_solver|done|done|by right|set_solver].
    - intros Hnx. exists n'. by split_and!; [| | | |left|]. }
  assert (Hl2 : forall x n, ns !! x = Some n -> x <> p -> exists n', delete p (disconnect ns p (set_iter (peers node))) !! x = Some n' /\
    forall y, y <> p -> y ∈ peers n -> y ∈ peers n').
  { intros x n Hx Hxp. rewrite lookup_delete_ne, disconnect_lookup, Hx by done.
    destruct (decide _); eexists; (split; [done|]); cbn; set_solver. }
  split_and!.
  - intros a n' Ha. apply Hl in Ha as (Hap & n & Hna & Hsub & -> & -> & _). destruct (Hn a n Hna) as ((Hd & Ha) & Hid & Hso).
    split_and!; [|set_solver|done|done]. unfold degree in *. pose proof (subseteq_size _ _ Hsub). lia.
  - intros a b (n' & Ha & Hb) Has. pose proof Ha as Ha'. apply Hl in Ha as (Hap & n & Hna & Hsub & _ & _ & _ & Hnot).
    destruct (Hs a b) as [(m & Hm & Ham)|(Hb1 & (m & Hm) & HaD)]; [by exists n; split; [|set_solver]|done| |].
    + left. destruct (decide (b = p)) as [->|Hbp].
      * simplify_eq. by destruct (Hnot Ham).
      * destruct (Hl2 b m Hm Hbp) as (m' & Hm' & Hkeep). exists m'. split; [done|]. by apply Hkeep.
    + right. split_and!; [done| |done]. destruct (Hl2 b m Hm) as (m' & Hm' & _); [congruence|by exists m'].
  - intros s' Hs'. destruct (Hsrc s' Hs') as [n Hns]. destruct (Hl2 s' n Hns) as (n' & Hn' & _); [congruence|by exists n'].
Qed.

(** ** The mesh as a state machine *)

(** Who lists a peer that is made the source without being listed any more: the
    node of the peer is replaced by one without links. *)
Definition forgotten (self : StreamMesh) (p : PeerId) : gset PeerId :=
  match mesh_source self, mesh_nodes self !! p with None, Some n => peers n | _, _ => ∅ end.

(** One operation, and who is forgotten by it. *)
Inductive mesh_step (self : StreamMesh) : gset PeerId -> StreamMesh -> Prop :=
| mesh_sets_source p : mesh_step self (forgotten self p) (fst (mesh_set_source self p))
| mesh_adds (O : HashOrder PeerId) p role bandwidth : mesh_step self ∅ (fst (mesh_add_peer self p role bandwidth))
| mesh_removes (O : HashOrder PeerId) p : mesh_step self ∅ (fst (mesh_remove_peer self p))
| mesh_rebalances (O : HashOrder PeerId) : mesh_step self ∅ (fst (mesh_rebalance self)).

Inductive mesh_run (self0 : StreamMesh) : gset PeerId -> StreamMesh -> Prop :=
| mesh_begins : mesh_run self0 ∅ self0
| mesh_goes_on D self E self' : mesh_run self0 D self -> mesh_step self E self' -> mesh_run self0 (D ∪ E) self'.

Lemma mesh_calm self0 D self self' : mesh_run self0 D self -> mesh_step self ∅ self' -> mesh_run self0 D self'.
Proof. intros Hr Hs. replace D with (D ∪ ∅) by set_solver. by eapply mesh_goes_on. Qed.

Lemma new_node_ok D source ns p (n : MeshNode PeerId) : mesh_ok D source ns -> ns !! p = None -> peers n = ∅ -> mesh_peer_id n = p ->
  mesh_is_source n = bool_decide (source = Some p) -> mesh_ok D source (<[p := n]> ns).
Proof.
  intros (Hn & Hs & Hsrc) Hp Hpe Hid Hso.
  assert (Hkeep : forall x, is_Some (ns !! x) -> x <> p) by (intros x [m Hm] ->; congruence). split_and!.
  - intros a m Ha. apply lookup_insert_Some in Ha as [[<- <-]|[Hne Ha]]; [|by apply Hn].
    rewrite Hpe. unfold degree. rewrite Hpe, size_empty. split_and!; [done|set_solver|done|done].
  - intros a b (m & Ha & Hb) Has. apply lookup_insert_Some in Ha as [[<- <-]|[Hne Ha]]; [set_solver|].
    destruct (Hs a b) as [(m' & Hm' & Hb')|(Hb1 & Hb2 & Hb3)]; [by exists m|done|left|right].
    + exists m'. split; [|done]. rewrite lookup_insert_ne; [done|]. intros <-. congruence.
    + split_and!; [done| |done]. rewrite lookup_insert_ne; [done|]. intros <-. by apply (Hkeep p).
  - intros s' Hs'. destruct (Hsrc s' Hs') as [m Hm]. destruct (decide (p = s')) as [->|]; [|rewrite lookup_insert_ne by done; by exists m].
    rewrite lookup_insert_eq. by eexists.
Qed.

(** A peer is made the source: it may have been there. *)
Lemma set_source_ok D self p : mesh_ok D (mesh_source self) (mesh_nodes self) -> forgotten self p ⊆ D ->
  mesh_ok D (mesh_source (fst (mesh_set_source self p))) (mesh_nodes (fst (mesh_set_source self p))).
Proof.
  intros Hok HD. unfold mesh_set_source, forgotten in *. destruct (mesh_source self) eqn:Hsrc; [cbn; by rewrite Hsrc|].
  cbn [fst mesh_source mesh_nodes]. destruct Hok as (Hn & Hs & _). split_and!.
  - intros a m Ha. apply lookup_insert_Some in Ha as [[<- <-]|[Hne Ha]].
    + cbn. by rewrite bool_decide_true.
    + destruct (Hn a m Ha) as ((Hd & Hdn) & Hid & ->). split_and!; [done..|]. by rewrite !bool_decide_false by congruence.
  - intros a b (m & Ha & Hb) Has. apply lookup_insert_Some in Ha as [[<- <-]|[Hne Ha]]; [done|].
    destruct (Hs a b) as [(m' & Hm' & Hb')|(? & _)]; [by exists m|done| |done].
    destruct (decide (p = b)) as [->|Hpb]; [right|left].
    + rewrite Hm' in HD. split_and!; [done|rewrite lookup_insert_eq; by eexists|set_solver].
    + exists m'. by rewrite lookup_insert_ne.
  - intros s' [= <-]. rewrite lookup_insert_eq. by eexists.
Qed.

Lemma mesh_ok_weaken D D' source ns : mesh_ok D source ns -> D ⊆ D' -> mesh_ok D' source ns.
Proof.
  intros (Hn & Hs & Hsrc) HD. split_and!; [done| |done]. intros a b Hab Ha.
  destruct (Hs a b Hab Ha) as [?|(? & ? & ?)]; [by left|right]. split_and!; [done..|set_solver].
Qed.

Lemma mesh_step_ok D self E self' : mesh_ok D (mesh_source self) (mesh_nodes self) -> mesh_step self E self' -> E ⊆ D ->
  mesh_ok D (mesh_source self') (mesh_nodes self').
Proof.
  intros Hok Hstep HE. destruct Hstep as [p|O p role bandwidth|O p|O]; [by apply set_source_ok|..].
  - unfold mesh_add_peer. destruct (mesh_nodes self !! p) eqn:Hp; [done|].
    match goal with |- context [connect_peer_to_mesh ?m p] => destruct (connect_ok (D := D) m p) as [Hs1 Hs2]; [by apply new_node_ok|] end.
    by rewrite Hs1.
  - unfold mesh_remove_peer. destruct (mesh_nodes self !! p) as [node|] eqn:Hp; [|done]. destruct (decide _) as [|Hne]; [done|].
    cbn [fst]. unfold mesh_rebalance.
    match goal with |- context [connect_all ?m ?l] => destruct (connect_all_ok (D := D) m l) as [Hs1 Hs2]; [by apply remove_ok|] end.
    by rewrite Hs1.
  - unfold mesh_rebalance. match goal with |- context [connect_all ?m ?l] => destruct (connect_all_ok (D := D) m l) as [Hs1 Hs2]; [done|] end.
    by rewrite Hs1.
Qed.

Lemma mesh_run_ok stream_id D self : mesh_run (new_mesh stream_id) D self -> mesh_ok D (mesh_source self) (mesh_nodes self).
Proof.
  induction 1 as [|D self E self' _ IH Hstep].
  - split_and!; [done| |done]. intros a b (n & Hn & _). cbn in Hn. by rewrite lookup_empty in Hn.
  - apply (mesh_step_ok _ self E); [|done|set_solver]. apply (mesh_ok_weaken D); [done|set_solver].
Qed.

(** C32: Whatever joins and leaves, in every iteration order: nobody has more than
    five links, nobody is linked to itself, the source is never lost, and the
    link of a node other than the source leads to a node that is in the mesh and
    lists it back. A link to the source need not be listed by it when the peer
    was linked to it before it was made the source, which makes it forget its
    links. *)
Theorem mesh_links stream_id D self : mesh_run (new_mesh stream_id) D self ->
  (forall a n, mesh_nodes self !! a = Some n -> degree n <= 5 /\ a ∉ peers n) /\
  (forall s, mesh_source self = Some s -> exists n, mesh_nodes self !! s = Some n /\ mesh_is_source n = true) /\
  (forall a n b, mesh_nodes self !! a = Some n -> b ∈ peers n -> mesh_source self <> Some a ->
     exists m, mesh_nodes self !! b = Some m /\ (a ∈ peers m \/ (mesh_source self = Some b /\ a ∈ D))).
Proof.
  intros (Hn & Hs & Hsrc)%mesh_run_ok. split_and!.
  - intros a n Ha. by apply Hn.
  - intros s Hs'. destruct (Hsrc s Hs') as [n Hns]. exists n. split; [done|]. destruct (Hn s n Hns) as (_ & _ & ->). by apply bool_decide_true.
  - intros a n b Ha Hb Hne. destruct (Hs a b) as [(m & Hm & Hin)|(Hb1 & (m & Hm) & HD)]; [by exists n|done|exists m; auto..].
Qed.

(** ** Who a new peer is linked to *)

Lemma filter_skip_one (P : gset PeerId) c cs : c ∉ cs ->
  List.filter (fun x => negb (bool_decide (x ∈ {[c]} ∪ P))) cs = List.filter (fun x => negb (bool_decide (x ∈ P))) cs.
Proof. intros Hc. apply filter_ext_in. intros x Hx. f_equal. apply bool_decide_ext. set_solver. Qed.

(** The loop takes the first candidates that are not linked yet, as many as
    there is room for. *)
Lemma candidates_taken ns p cs b node : ns !! p = Some node -> NoDup cs ->
  Forall (fun c => c <> p /\ is_Some (ns !! c) /\ (c ∈ peers node \/ has_room ns c)) cs ->
  let taken := take (Z.to_nat (5 - degree node)) (List.filter (fun c => negb (bool_decide (c ∈ peers node))) cs) in
  let '(ns', r) := connect_to_candidates ns p cs b in
  (exists node', ns' !! p = Some node' /\ peers node' = peers node ∪ list_to_set taken) /\
  r = b || negb (bool_decide (taken = [])) /\ (forall x y, links ns x y -> links ns' x y) /\ Forall (fun c => links ns' c p) taken.
Proof.
  revert ns b node. induction cs as [|c cs IH]; intros ns b node Hp Hnd Hr taken.
  { subst taken. cbn. rewrite take_nil. cbn. rewrite orb_false_r. split_and!; [|done|done|done]. exists node. split; [done|set_solver]. }
  apply NoDup_cons in Hnd as [Hc Hnd]. apply list.Forall_cons in Hr as [(Hne & Hs & Hor) Hr].
  rewrite (connect_to_candidates_step ns p c cs b node) by done. unfold can_accept_connections, MAX_MESH_PEERS.
  fold (degree node). destruct (Z.ltb_spec (degree node) 5) as [Hroom|Hfull].
  2:{ subst taken. replace (Z.to_nat (5 - degree node)) with 0%nat by lia. cbn. rewrite orb_false_r.
      split_and!; [|done|done|done]. exists node. split; [done|set_solver]. }
  subst taken. cbn [List.filter]. destruct (bool_decide (c ∈ peers node)) eqn:Hin; cbn [negb]; [by apply IH|].
  apply bool_decide_eq_false in Hin. destruct Hor as [|Hcr]; [done|].
  pose proof Hs as [cn Hcn].
  set (node1 := with_peers node ({[c]} ∪ peers node)).
  assert (Hadd : fst (node_add_peer node c) = node1).
  { unfold node_add_peer, can_accept_connections, MAX_MESH_PEERS. fold (degree node). by destruct (Z.ltb_spec (degree node) 5); [|lia]. }
  assert (Hp1 : link_both ns p c !! p = Some node1).
  { unfold link_both, add_link. rewrite lookup_alter_ne by done. by rewrite lookup_alter_eq, Hp, <- Hadd. }
  assert (Hdeg : degree node1 = degree node + 1).
  { unfold degree, node1. cbn [peers with_peers]. rewrite size_union, size_singleton by set_solver. lia. }
  specialize (IH (link_both ns p c) true node1 Hp1 Hnd). rewrite Hdeg in IH. cbn [peers with_peers node1] in IH.
  rewrite filter_skip_one in IH by done. cbn zeta in IH.
  destruct (connect_to_candidates (link_both ns p c) p cs true) as [ns' r].
  destruct IH as ((node' & Hnode' & Hpeers) & Hb & Hmono & Htaken).
  { apply list.Forall_forall. intros x Hx. rewrite list.Forall_forall in Hr. destruct (Hr x Hx) as (Hxp & Hxs & Hxr).
    split_and!; [done|unfold link_both; by rewrite !add_link_some|]. destruct Hxr as [Hxr|Hxr]; [left; set_solver|right].
    unfold link_both. rewrite !add_link_room; [done|done|by intros ->]. }
  replace (Z.to_nat (5 - degree node)) with (S (Z.to_nat (5 - (degree node + 1)))) by lia. cbn [take].
  assert (Hpr : has_room ns p) by (exists node; split; [done|]; apply Z.ltb_lt; exact Hroom).
  split_and!.
  - exists node'. split; [done|]. rewrite Hpeers. cbn [list_to_set foldr]. set_solver.
  - rewrite Hb, (bool_decide_false (_ :: _ = [])) by done. by rewrite orb_true_r.
  - intros x y Hl. apply Hmono, add_link_links. left. apply add_link_links. by left.
  - constructor; [|done]. apply Hmono, add_link_links. right. split_and!; [done..|]. by apply add_link_room.
Qed.

(** The source's link, when it has room. *)
Definition source_link (ns : Nodes) (source : option PeerId) : gset PeerId :=
  match source with Some s => if decide (has_room ns s) then {[s]} else ∅ | None => ∅ end.

Lemma source_link_room ns source s : s ∈ source_link ns source <-> source = Some s /\ has_room ns s.
Proof.
  unfold source_link. destruct source as [s'|]; [|split; [set_solver|by intros [? _]]].
  destruct (decide (has_room ns s')); rewrite ?elem_of_singleton; [|split; [set_solver|by intros [[= ->] ?]]].
  split; [by intros ->|by intros [[= ->] _]].
Qed.

(** The node as the loop over the candidates finds it. *)
Lemma new_node_after_source ns source p (n : MeshNode PeerId) : ns !! p = None -> source <> Some p -> peers n = ∅ ->
  let '(ns1, r) := connect_to_source (<[p := n]> ns) source p in
  (exists n1, ns1 !! p = Some n1 /\ peers n1 = source_link ns source) /\
  r = negb (bool_decide (source_link ns source = ∅)) /\
  (forall c, c <> p -> has_room ns c -> is_Some (ns1 !! c) /\ (c ∈ source_link ns source \/ has_room ns1 c)) /\
  (forall s, s ∈ source_link ns source -> links ns1 s p).
Proof.
  intros Hp Hsp Hn. assert (Hother : forall c, c <> p -> has_room (<[p := n]> ns) c <-> has_room ns c).
  { intros c Hc. unfold has_room. by rewrite lookup_insert_ne. }
  assert (Hsame : ~ (exists s, source = Some s /\ has_room ns s) -> (exists n1, <[p := n]> ns !! p = Some n1 /\ peers n1 = source_link ns source) /\
    false = negb (bool_decide (source_link ns source = ∅)) /\
    (forall c, c <> p -> has_room ns c -> is_Some (<[p := n]> ns !! c) /\ (c ∈ source_link ns source \/ has_room (<[p := n]> ns) c)) /\
    (forall s, s ∈ source_link ns source -> links (<[p := n]> ns) s p)).
  { intros Hno. assert (He : source_link ns source = ∅).
    { apply leibniz_equiv, equiv_empty. intros s [-> Hs]%source_link_room. destruct Hno. by exists s. }
    rewrite He. split_and!; [exists n; by rewrite lookup_insert_eq|by rewrite bool_decide_true| |set_solver].
    intros c Hc Hr. split; [|right; by apply Hother]. destruct Hr as (m & Hm & _). rewrite lookup_insert_ne by done. by exists m. }
  unfold connect_to_source. destruct source as [s|]; [|apply Hsame; by intros (? & ? & _)].
  destruct (decide (s = p)) as [->|Hne]; [done|]. rewrite lookup_insert_ne by done.
  destruct (ns !! s) as [sn|] eqn:Hs; [|apply Hsame; intros (? & [= <-] & m & ? & _); congruence].
  destruct (can_accept_connections sn) eqn:Hc; [|apply Hsame; intros (? & [= <-] & m & ? & ?); congruence].
  assert (Hr : has_room ns s) by (by exists sn).
  assert (Hl : source_link ns (Some s) = {[s]}) by (unfold source_link; by rewrite decide_True).
  rewrite lookup_insert_ne, lookup_insert_eq, Hl by done.
  assert (Hcn : can_accept_connections n = true) by (unfold can_accept_connections; by rewrite Hn, size_empty).
  split_and!.
  - rewrite lookup_insert_eq. eexists. split; [done|]. unfold node_add_peer. rewrite Hcn. cbn. rewrite Hn. set_solver.
  - by rewrite bool_decide_false by set_solver.
  - intros c Hcp Hcr. destruct (decide (c = s)) as [->|Hcs].
    + rewrite lookup_insert_ne, lookup_insert_eq by done. split; [by eexists|left; set_solver].
    + rewrite !lookup_insert_ne by done. destruct Hcr as (m & Hm & Hmc). split; [by exists m|right].
      exists m. by rewrite !lookup_insert_ne by done.
  - intros s' ->%elem_of_singleton. exists (fst (node_add_peer sn p)). rewrite lookup_insert_ne, lookup_insert_eq by done.
    split; [done|]. unfold node_add_peer. rewrite Hc. cbn. set_solver.
Qed.

(** The nodes with room, by name. *)
Definition with_room `{!HashOrder PeerId} (ns : Nodes) : list PeerId :=
  map fst (List.filter (fun e => can_accept_connections (snd e)) (map_iter ns)).

Lemma elem_of_with_room `{!HashOrder PeerId} ns c : c ∈ with_room ns <-> has_room ns c.
Proof.
  unfold with_room. rewrite elem_of_map. split.
  - intros ([a n] & -> & Hin). apply list_elem_of_In, filter_In in Hin as [Hin Hc]. exists n. split; [|done].
    by apply elem_of_map_iter, list_elem_of_In.
  - intros (n & Hn & Hc). exists (c, n). split; [done|]. apply list_elem_of_In, filter_In. split; [|done].
    by apply list_elem_of_In, elem_of_map_iter.
Qed.

Lemma NoDup_with_room `{!HashOrder PeerId} ns : NoDup (with_room ns).
Proof. apply NoDup_map_filter. rewrite map_iter_perm. apply NoDup_fst_map_to_list. Qed.

(** The source and the candidates beside it are the nodes with room. *)
Lemma candidates_perm `{!HashOrder PeerId} ns source p n : ns !! p = None -> source <> Some p ->
  elements (source_link ns source) ++
    List.filter (fun c => negb (bool_decide (c ∈ source_link ns source))) (map fst (candidates (<[p := n]> ns) p))
  ≡ₚ with_room ns.
Proof.
  intros Hp Hsp. destruct (candidates_spec (<[p := n]> ns) p) as (Hnd & Hin & _). apply NoDup_Permutation; [|apply NoDup_with_room|].
  - apply NoDup_app. split_and!; [apply NoDup_elements| |by apply NoDup_filter_keep].
    intros x Hx%elem_of_elements [_ Hf]%list_elem_of_In%filter_In. by rewrite bool_decide_true in Hf.
  - intros x. rewrite elem_of_app, elem_of_elements, elem_of_with_room. split.
    + intros [[_ ?]%source_link_room|Hx]; [done|]. apply list_elem_of_In, filter_In in Hx as [Hx _].
      apply list_elem_of_In, elem_of_map in Hx as ([c w] & -> & Hx). apply Hin in Hx as (Hne & m & Hm & Hc & _).
      rewrite lookup_insert_ne in Hm by done. by exists m.
    + intros (m & Hm & Hc). destruct (decide (x ∈ source_link ns source)) as [|Hx]; [by left|right].
      apply list_elem_of_In, filter_In. rewrite bool_decide_false by done. split; [|done]. apply list_elem_of_In, elem_of_map.
      exists (x, mesh_bandwidth m). split; [done|]. apply Hin. assert (x <> p) by congruence. split; [done|].
      exists m. by rewrite lookup_insert_ne.
Qed.

Lemma source_link_size ns source : (size (source_link ns source) <= 1)%nat.
Proof.
  unfold source_link. destruct source as [s|]; [destruct (decide _)|]; rewrite ?size_singleton, ?size_empty; lia.
Qed.

Lemma size_add_list (X : gset PeerId) l : NoDup (elements X ++ l) -> size (X ∪ list_to_set l) = (size X + length l)%nat.
Proof.
  intros (_ & Hd & Hl)%NoDup_app. rewrite size_union, size_list_to_set; [done|done|].
  intros x Hx Hxl. apply elem_of_list_to_set in Hxl. by destruct (Hd x (proj2 (elem_of_elements _ _) Hx)).
Qed.

Lemma list_to_set_empty (l : list PeerId) : (list_to_set l : gset PeerId) = ∅ <-> l = [].
Proof. destruct l; [done|]. split; [set_solver|done]. Qed.

(** Of the candidates that are not linked yet, none of the first few has less
    bandwidth than one after them. *)
Lemma candidates_best_first `{!HashOrder PeerId} ns p n (P : gset PeerId) k a b na nb :
  let F := List.filter (fun c => negb (bool_decide (c ∈ P))) (map fst (candidates (<[p := n]> ns) p)) in
  a ∈ take k F -> b ∈ drop k F -> ns !! a = Some na -> ns !! b = Some nb -> mesh_bandwidth nb <= mesh_bandwidth na.
Proof.
  intros F Ha Hb Hna Hnb. destruct (candidates_spec (<[p := n]> ns) p) as (_ & Hin & Hsorted).
  unfold F in Ha, Hb. rewrite filter_map_comm in Ha, Hb. rewrite firstn_map in Ha. rewrite skipn_map in Hb.
  apply elem_of_map in Ha as ([a' wa] & -> & Ha), Hb as ([b' wb] & -> & Hb). cbn [fst] in *.
  assert (Hle : wb <= wa).
  { assert (HsF := StronglySorted_filter _ (fun x => negb (bool_decide (fst x ∈ P))) _ Hsorted).
    rewrite <- (take_drop k (List.filter _ _)) in HsF. apply StronglySorted_app in HsF as (Hlt & _ & _). by apply (Hlt _ _ Ha Hb). }
  assert (Hw : forall c w m, (c, w) ∈ List.filter (fun x => negb (bool_decide (fst x ∈ P))) (candidates (<[p := n]> ns) p) ->
    ns !! c = Some m -> w = mesh_bandwidth m).
  { intros c w m [Hc _]%list_elem_of_In%filter_In Hm. apply list_elem_of_In, Hin in Hc as (Hne & m' & Hm' & _ & ->).
    rewrite lookup_insert_ne in Hm' by done. congruence. }
  rewrite <- (Hw a' wa na), <- (Hw b' wb nb); [done| |done| |done].
  - eapply elem_of_sublist; [done|apply sublist_drop].
  - eapply elem_of_sublist; [done|apply sublist_take].
Qed.

Lemma union_empty (X : gset PeerId) l : bool_decide (X ∪ list_to_set l = ∅) = bool_decide (X = ∅) && bool_decide (l = []).
Proof.
  destruct (decide (X = ∅)) as [->|Hx].
  - rewrite (bool_decide_true (∅ = ∅)) by done. apply bool_decide_ext. rewrite (left_id_L ∅ (∪)). apply list_to_set_empty.
  - rewrite (bool_decide_false (X = ∅)) by done. apply bool_decide_false. set_solver.
Qed.

(** C33: A peer that joins is linked, from both ends, to the source if that has room
    and to the peers with the most bandwidth among those that have, in every
    iteration order: it is given five links or as many as there are nodes with
    room, no node that is passed over has more bandwidth than one that is taken,
    and the call answers whether there was any link. *)
Theorem new_peer_links `{!HashOrder PeerId} (self : StreamMesh) p role bandwidth :
  mesh_nodes self !! p = None -> mesh_source self <> Some p ->
  let '(self', r) := mesh_add_peer self p role bandwidth in
  exists n, mesh_nodes self' !! p = Some n /\
    (forall c, c ∈ peers n -> has_room (mesh_nodes self) c /\ links (mesh_nodes self') c p) /\
    (forall s, mesh_source self = Some s -> has_room (mesh_nodes self) s -> s ∈ peers n) /\
    degree n = Z.min 5 (zlen (with_room (mesh_nodes self))) /\
    (forall a b na nb, a ∈ peers n -> mesh_source self <> Some a -> b ∉ peers n ->
       mesh_nodes self !! a = Some na -> mesh_nodes self !! b = Some nb -> can_accept_connections nb = true ->
       mesh_bandwidth nb <= mesh_bandwidth na) /\
    r = negb (bool_decide (peers n = ∅)).
Proof.
  intros Hp Hsp. unfold mesh_add_peer. rewrite Hp. unfold connect_peer_to_mesh. cbn [mesh_nodes mesh_source with_mesh_nodes].
  set (n0 := with_bandwidth _ _). rewrite lookup_insert_eq. set (ns := mesh_nodes self) in *. set (source := mesh_source self) in *.
  pose proof (new_node_after_source ns source p n0 Hp Hsp eq_refl) as Hsrc.
  pose proof (candidates_perm ns source p n0 Hp Hsp) as Hperm.
  destruct (candidates_spec (<[p := n0]> ns) p) as (Hnd & Hin & _).
  destruct (connect_to_source (<[p := n0]> ns) source p) as [ns1 r1].
  destruct Hsrc as ((n1 & Hn1 & Hpeers1) & Hr1 & Hrest & Hslinks).
  assert (Hroom : forall c, c ∈ map fst (candidates (<[p := n0]> ns) p) -> c <> p /\ has_room ns c).
  { intros c ([c' w] & -> & Hc)%elem_of_map. apply Hin in Hc as (Hne & m & Hm & Hc & _). rewrite lookup_insert_ne in Hm by done.
    split; [done|by exists m]. }
  pose proof (candidates_taken ns1 p (map fst (candidates (<[p := n0]> ns) p)) r1 n1 Hn1 Hnd) as Ht. rewrite Hpeers1 in Ht.
  set (F := List.filter _ _) in Ht, Hperm. cbn zeta in Ht. unfold degree in Ht. rewrite Hpeers1 in Ht.
  destruct (connect_to_candidates ns1 p _ r1) as [ns2 r2].
  destruct Ht as ((n & Hn & Hpeers) & Hr2 & Hmono & Htaken).
  { apply list.Forall_forall. intros c Hc. destruct (Hroom c Hc) as [Hne Hcr]. split; [done|]. by apply Hrest. }
  set (k := Z.to_nat (5 - Z.of_nat (size (source_link ns source)))) in *.
  exists n. cbn [mesh_nodes with_mesh_nodes]. split; [done|]. rewrite Hpeers.
  pose proof (source_link_size ns source) as Hsize.
  assert (HndF : NoDup (elements (source_link ns source) ++ take k F)).
  { apply (sublist_NoDup _ (elements (source_link ns source) ++ F)); [rewrite Hperm; apply NoDup_with_room|].
    apply sublist_app; [done|apply sublist_take]. }
  split_and!.
  - intros c [Hc|Hc%elem_of_list_to_set]%elem_of_union.
    + split; [by apply source_link_room in Hc as [_ ?]|]. by apply Hmono, Hslinks.
    + rewrite list.Forall_forall in Htaken. split; [|by apply Htaken]. apply elem_of_with_room. rewrite <- Hperm.
      apply elem_of_app. right. eapply elem_of_sublist; [done|apply sublist_take].
  - intros s Hs Hsr. apply elem_of_union. left. by apply source_link_room.
  - unfold degree. rewrite Hpeers, size_add_list by done. rewrite length_take. unfold zlen. rewrite <- Hperm, length_app.
    change (length (elements (source_link ns source))) with (size (source_link ns source)). lia.
  - intros a b na nb Ha Has Hb Hna Hnb Hbr.
    apply elem_of_union in Ha as [[? _]%source_link_room|Ha%elem_of_list_to_set]; [done|].
    assert (HbF : b ∈ drop k F).
    { assert (Hbp : b ∈ elements (source_link ns source) ++ F) by (rewrite Hperm; apply elem_of_with_room; by exists nb).
      rewrite <- (take_drop k F) in Hbp. rewrite !elem_of_app, elem_of_elements in Hbp. set_solver. }
    by apply (candidates_best_first ns p n0 (source_link ns source) k a b).
  - by rewrite Hr2, Hr1, union_empty, negb_andb.
Qed.
End Properties.

(** ** Witnesses *)

Definition join_all `{!HashOrder positive} (self : StreamMesh positive) (js : list (positive * Z)) : StreamMesh positive :=
  fold_left (fun self '(p, bandwidth) => fst (mesh_add_peer self p Consumer bandwidth)) js self.

Lemma join_all_reachable `{!HashOrder positive} self0 D self js : mesh_run self0 D self -> mesh_run self0 D (join_all self js).
Proof.
  revert self. induction js as [|[p bandwidth] js IH]; intros self Hr; [done|]. cbn.
  apply IH. eapply mesh_calm; [done|apply mesh_adds].
Qed.

Section Demo.
#[local] Existing Instance canonical_order.

(** A source and seven peers; the first five fill up everything. *)
Definition demo_empty : StreamMesh positive := fst (mesh_set_source (new_mesh [7]) 1%positive).
Definition demo_full : StreamMesh positive :=
  join_all demo_empty [(2%positive, 10); (3%positive, 10); (4%positive, 10); (5%positive, 10); (6%positive, 10); (7%positive, 9); (8%positive, 8)].

Lemma demo_full_reachable : mesh_run (new_mesh [7]) ∅ demo_full.
Proof.
  apply join_all_reachable. apply (mesh_calm _ ∅ (new_mesh [7])); [apply mesh_begins|]. apply (mesh_sets_source (new_mesh [7])).
Qed.

(** The order in which the source comes last. *)
Definition source_last : HashOrder positive := ranked_order (fun p => if bool_decide (p = 1%positive) then 100 else Zpos p).

(** The exception for the source in [mesh_links] is needed. When a peer leaves a
    full mesh and the others are connected again, a peer can be filled up before
    its own turn, and the source then lists it without being listed. When that
    peer leaves, the source keeps the link to a peer that is gone. *)
Theorem source_link_one_sided : exists self p self',
  mesh_run (new_mesh [7]) ∅ self /\ mesh_source self = Some 1%positive /\
  (exists source node, mesh_nodes self !! 1%positive = Some source /\ mesh_nodes self !! p = Some node /\
     p ∈ peers source /\ 1%positive ∉ peers node) /\
  mesh_remove_peer (HashOrder0 := source_last) self p = (self', true) /\ mesh_nodes self' !! p = None /\
  exists source, mesh_nodes self' !! 1%positive = Some source /\ p ∈ peers source.
Proof.
  set (self := fst (mesh_remove_peer (HashOrder0 := source_last) demo_full 2%positive)).
  exists self, 7%positive, (fst (mesh_remove_peer (HashOrder0 := source_last) self 7%positive)).
  split; [eapply mesh_calm; [apply demo_full_reachable|by apply mesh_removes]|]. split; [by vm_compute|]. split.
  - exists (default (new_mesh_node 1%positive Publisher true) (mesh_nodes self !! 1%positive)),
      (default (new_mesh_node 7%positive Consumer false) (mesh_nodes self !! 7%positive)).
    split; [by vm_compute|]. split; [by vm_compute|].
    split; [by apply (bool_decide_unpack _); vm_compute|by apply (bool_decide_unpack (_ ∉ _)); vm_compute].
  - split; [by vm_compute|]. split; [by vm_compute|].
    exists (default (new_mesh_node 1%positive Publisher true) (mesh_nodes (fst (mesh_remove_peer (HashOrder0 := source_last) self 7%positive)) !! 1%positive)).
    split; [by vm_compute|]. by apply (bool_decide_unpack _); vm_compute.
Qed.

(** A peer that is made the source after it joined forgets its links, and the
    others keep theirs. *)
Example late_source_forgets :
  let self := fst (mesh_set_source (join_all (new_mesh [7]) [(2%positive, 10); (3%positive, 10)]) 2%positive) in
  get_connected_peers self 2%positive = Some ∅ /\ get_connected_peers self 3%positive = Some {[2%positive]}.
Proof. split; by vm_compute. Qed.

(** Peer 3 is forgotten as peer 2 is made the source. *)
Definition demo_late : StreamMesh positive := fst (mesh_set_source (join_all (new_mesh [7]) [(2%positive, 10); (3%positive, 10)]) 2%positive).

Lemma demo_late_reachable : mesh_run (new_mesh [7]) {[3%positive]} demo_late.
Proof.
  replace ({[3%positive]} : gset positive) with (∅ ∪ forgotten (join_all (new_mesh [7]) [(2%positive, 10); (3%positive, 10)]) 2%positive)
    by (apply (bool_decide_unpack _); vm_compute; exact I).
  eapply mesh_goes_on; [apply join_all_reachable, mesh_begins|apply mesh_sets_source].
Qed.

Lemma mesh_links_witness :
  (forall a n, mesh_nodes demo_full !! a = Some n -> degree n <= 5 /\ a ∉ peers n) /\
  forall a n b, mesh_nodes demo_late !! a = Some n -> b ∈ peers n -> mesh_source demo_late <> Some a ->
    exists m, mesh_nodes demo_late !! b = Some m /\ (a ∈ peers m \/ (mesh_source demo_late = Some b /\ a ∈ ({[3%positive]} : gset positive))).
Proof.
  split; [apply (mesh_links [7] ∅ demo_full demo_full_reachable)|apply (mesh_links [7] {[3%positive]} demo_late demo_late_reachable)].
Defined.

(** A ninth peer is linked to the two that have room. *)
Lemma new_peer_links_witness :
  snd (mesh_add_peer demo_full 9%positive Consumer 1) = true /\
  get_connected_peers (fst (mesh_add_peer demo_full 9%positive Consumer 1)) 9%positive = Some {[7%positive; 8%positive]} /\
  exists n, mesh_nodes (fst (mesh_add_peer demo_full 9%positive Consumer 1)) !! 9%positive = Some n /\ degree n = Z.min 5 (zlen (with_room (mesh_nodes demo_full))).
Proof.
  assert (Hp : mesh_nodes demo_full !! 9%positive = None) by (vm_compute; reflexivity).
  assert (Hs : mesh_source demo_full = Some 1%positive) by (vm_compute; reflexivity).
  pose proof (new_peer_links demo_full 9%positive Consumer 1 Hp ltac:(rewrite Hs; discriminate)) as Hnew.
  destruct (mesh_add_peer demo_full 9%positive Consumer 1) as [self' r] eqn:Ha.
  destruct Hnew as (n & Hn & _ & _ & Hd & Hr).
  assert (Hr' : r = true /\ get_connected_peers self' 9%positive = Some {[7%positive; 8%positive]}).
  { replace self' with (fst (mesh_add_peer demo_full 9%positive Consumer 1)) by (by rewrite Ha).
    replace r with (snd (mesh_add_peer demo_full 9%positive Consumer 1)) by (by rewrite Ha). split; vm_compute; reflexivity. }
  destruct Hr' as [-> Hc]. cbn [fst snd]. split; [reflexivity|]. split; [exact Hc|]. exists n. by split.
Defined.
End Demo.
