(* ===== verification/Moderation.v ===== *)
(** * Moderation

    Models [core/src/moderation/manager.rs] and its types: block list, whitelist
    and flags, the exchange of lists between nodes, and the file that keeps
    them. A call holds each lock for one access; the calls are taken one after
    the other, and their writes of the file in any order. Times are seconds, given
    to the calls that read the clock. *)

From S2P Require Import Prelude Rust Format Hash.

#[local] Open Scope Z_scope.

(** ** Types *)

Record BlockEntry : Type := {
  blocked_id : rstring;
  block_reason : option rstring;
  blocked_at : Z;
}.

Inductive FlagReason : Type :=
| Spam | Inappropriate | Copyright | Abuse | Other (s : rstring).

Definition show_flag_reason (self : FlagReason) : rstring :=
  match self with
  | Spam => str "Spam"
  | Inappropriate => str "Inappropriate"
  | Copyright => str "Copyright"
  | Abuse => str "Abuse"
  | Other s => str "Other: " ++ s
  end.

Record FlagEntry : Type := {
  flagged_stream : rstring;
  flag_reason : FlagReason;
  flag_details : option rstring;
  flag_reporter : option rstring;
  flagged_at : Z;
}.

Record ModerationList : Type := {
  list_version : Z;
  node_id : option rstring;
  created_at : Z;
  list_blocked : list BlockEntry;
  list_whitelisted : list rstring;
  list_flagged : list FlagEntry;
}.

Definition empty_list : ModerationList :=
  {| list_version := 1; node_id := None; created_at := 0; list_blocked := []; list_whitelisted := []; list_flagged := [] |}.

Record ModerationConfig : Type := {
  persistence_path : option rstring;
  auto_persist : bool;
  whitelist_only : bool;
}.

(** ** The manager *)

Record ModerationManager : Type := {
  mod_config : ModerationConfig;
  blocked_peers : gmap rstring BlockEntry;
  whitelist : gset rstring;
  flags : list FlagEntry;
}.

Definition new_moderation (config : ModerationConfig) : ModerationManager :=
  {| mod_config := config; blocked_peers := ∅; whitelist := ∅; flags := [] |}.

Definition with_lists (self : ModerationManager) (b : gmap rstring BlockEntry) (w : gset rstring) (f : list FlagEntry)
  : ModerationManager :=
  {| mod_config := mod_config self; blocked_peers := b; whitelist := w; flags := f |}.

Definition is_peer_allowed (self : ModerationManager) (peer_id : rstring) : bool :=
  if bool_decide (is_Some (blocked_peers self !! peer_id)) then false
  else if whitelist_only (mod_config self) then bool_decide (peer_id ∈ whitelist self)
  else true.

Definition is_stream_flagged (self : ModerationManager) (stream_id : rstring) : bool :=
  existsb (fun f => str_eqb (flagged_stream f) stream_id) (flags self).

Definition list_blocked_peers `{!HashOrder rstring} (self : ModerationManager) : list BlockEntry := values (blocked_peers self).

(** [import_list] adds to what is there. *)
Definition import_list (self : ModerationManager) (l : ModerationList) : ModerationManager :=
  with_lists self
    (fold_left (fun m entry => <[blocked_id entry := entry]> m) (list_blocked l) (blocked_peers self))
    (fold_left (fun s peer_id => {[peer_id]} ∪ s) (list_whitelisted l) (whitelist self))
    (flags self ++ list_flagged l).

Definition export_list `{!HashOrder rstring} (self : ModerationManager) (now : Z) : ModerationList :=
  {| list_version := 1; node_id := None; created_at := now; list_blocked := values (blocked_peers self);
     list_whitelisted := set_iter (whitelist self); list_flagged := flags self |}.

(** The operations on the lists alone, with their answers. *)
Definition block_entry (self : ModerationManager) (peer_id : rstring) (reason : option rstring) (now : Z) : ModerationManager :=
  with_lists self (<[peer_id := {| blocked_id := peer_id; block_reason := reason; blocked_at := now |}]> (blocked_peers self))
    (whitelist self) (flags self).

Definition unblock_entry (self : ModerationManager) (peer_id : rstring) : ModerationManager * bool :=
  (with_lists self (delete peer_id (blocked_peers self)) (whitelist self) (flags self),
   bool_decide (is_Some (blocked_peers self !! peer_id))).

Definition whitelist_entry (self : ModerationManager) (peer_id : rstring) : ModerationManager :=
  with_lists self (blocked_peers self) ({[peer_id]} ∪ whitelist self) (flags self).

Definition remove_whitelist_entry (self : ModerationManager) (peer_id : rstring) : ModerationManager * bool :=
  (with_lists self (blocked_peers self) (whitelist self ∖ {[peer_id]}) (flags self), bool_decide (peer_id ∈ whitelist self)).

Definition flag_entry (self : ModerationManager) (f : FlagEntry) : ModerationManager :=
  with_lists self (blocked_peers self) (whitelist self) (flags self ++ [f]).

Definition unflag_entries (self : ModerationManager) (stream_id : rstring) : ModerationManager * Z :=
  let kept := List.filter (fun f => negb (str_eqb (flagged_stream f) stream_id)) (flags self) in
  (with_lists self (blocked_peers self) (whitelist self) kept, zlen (flags self) - zlen kept).

(** ** The file *)

(** [serde_json] for a type, and the file system. *)
Class Json (A : Type) : Type := {
  to_json : A -> option rstring;
  from_json : rstring -> option A;
  json_roundtrip : forall x s, to_json x = Some s -> from_json s = Some x;
}.

Class FileSystem (Disk : Type) : Type := {
  read_file : Disk -> rstring -> option rstring;
  write_file : Disk -> rstring -> rstring -> Disk * bool;
  read_written : forall d path data, snd (write_file d path data) = true ->
    read_file (fst (write_file d path data)) path = Some data;
}.

Section Persistence.
Context {Disk : Type} `{!FileSystem Disk, !Json ModerationList, !HashOrder rstring}.

Definition save_to_file (self : ModerationManager) (disk : Disk) (path : rstring) (now : Z) : Disk * bool :=
  match to_json (export_list self now) with
  | Some data => write_file disk path data
  | None => (disk, false)
  end.

Definition load_from_file (self : ModerationManager) (disk : Disk) (path : rstring) : ModerationManager * bool :=
  match read_file disk path with
  | Some data => match from_json data with Some l => (import_list self l, true) | None => (self, false) end
  | None => (self, false)
  end.

(** The result says whether the file was written when it had to be. *)
Definition maybe_persist (self : ModerationManager) (disk : Disk) (now : Z) : Disk * bool :=
  if auto_persist (mod_config self) then
    match persistence_path (mod_config self) with
    | Some path => save_to_file self disk path now
    | None => (disk, true)
    end
  else (disk, true).

(** The calls of the manager. *)
Inductive mod_op : Type :=
| BlockPeer (peer_id : rstring) (reason : option rstring)
| UnblockPeer (peer_id : rstring)
| WhitelistPeer (peer_id : rstring)
| RemoveWhitelist (peer_id : rstring)
| FlagStream (stream_id : rstring) (reason : FlagReason) (details reporter : option rstring)
| UnflagStream (stream_id : rstring)
| ImportList (l : ModerationList).

(** What a call does to the lists, and whether it then persists. *)
Definition mod_effect (self : ModerationManager) (op : mod_op) (now : Z) : ModerationManager * bool :=
  match op with
  | BlockPeer peer_id reason => (block_entry self peer_id reason now, true)
  | UnblockPeer peer_id => unblock_entry self peer_id
  | WhitelistPeer peer_id => (whitelist_entry self peer_id, true)
  | RemoveWhitelist peer_id => remove_whitelist_entry self peer_id
  | FlagStream stream_id reason details reporter =>
      (flag_entry self {| flagged_stream := stream_id; flag_reason := reason; flag_details := details;
                          flag_reporter := reporter; flagged_at := now |}, true)
  | UnflagStream stream_id => let '(self, removed) := unflag_entries self stream_id in (self, 0 <? removed)
  | ImportList l => (import_list self l, false)
  end.

Definition mod_call (st : ModerationManager * Disk) (op : mod_op) (now : Z) : (ModerationManager * Disk) * bool :=
  let '(self, persists) := mod_effect (fst st) op now in
  if persists : bool then let '(disk, ok) := maybe_persist self (snd st) now in ((self, disk), ok) else ((self, snd st), true).
End Persistence.

(** ** The policy *)

(** What a list of calls, the last one first, says of a peer: whether it is on
    the block list, and on the whitelist. *)
Fixpoint last_block (ops : list mod_op) (p : rstring) : bool :=
  match ops with
  | [] => false
  | BlockPeer q _ :: ops => str_eqb q p || last_block ops p
  | UnblockPeer q :: ops => negb (str_eqb q p) && last_block ops p
  | ImportList l :: ops => existsb (fun e => str_eqb (blocked_id e) p) (list_blocked l) || last_block ops p
  | _ :: ops => last_block ops p
  end.

Fixpoint last_whitelist (ops : list mod_op) (p : rstring) : bool :=
  match ops with
  | [] => false
  | WhitelistPeer q :: ops => str_eqb q p || last_whitelist ops p
  | RemoveWhitelist q :: ops => negb (str_eqb q p) && last_whitelist ops p
  | ImportList l :: ops => existsb (fun q => str_eqb q p) (list_whitelisted l) || last_whitelist ops p
  | _ :: ops => last_whitelist ops p
  end.

Fixpoint last_flag (ops : list mod_op) (s : rstring) : bool :=
  match ops with
  | [] => false
  | FlagStream t _ _ _ :: ops => str_eqb t s || last_flag ops s
  | UnflagStream t :: ops => negb (str_eqb t s) && last_flag ops s
  | ImportList l :: ops => existsb (fun f => str_eqb (flagged_stream f) s) (list_flagged l) || last_flag ops s
  | _ :: ops => last_flag ops s
  end.

Definition mod_run (self : ModerationManager) (ops : list (mod_op * Z)) : ModerationManager :=
  fold_left (fun self '(op, now) => fst (mod_effect self op now)) ops self.

Lemma imported_blocks (es : list BlockEntry) (m : gmap rstring BlockEntry) (p : rstring) :
  bool_decide (is_Some (fold_left (fun m entry => <[blocked_id entry := entry]> m) es m !! p)) =
  existsb (fun e => str_eqb (blocked_id e) p) es || bool_decide (is_Some (m !! p)).
Proof.
  revert m. induction es as [|e es IH]; intros m; [done|]. cbn. rewrite IH. destruct (str_eqb_spec (blocked_id e) p) as [->|Hne].
  - rewrite lookup_insert_eq, bool_decide_true by (by eexists). by rewrite orb_true_r.
  - by rewrite lookup_insert_ne.
Qed.

Lemma imported_whitelist (ps : list rstring) (s : gset rstring) (p : rstring) :
  bool_decide (p ∈ fold_left (fun s peer_id => {[peer_id]} ∪ s) ps s) = existsb (fun q => str_eqb q p) ps || bool_decide (p ∈ s).
Proof.
  revert s. induction ps as [|q ps IH]; intros s; [done|]. cbn. rewrite IH. destruct (str_eqb_spec q p) as [->|Hne].
  - rewrite (bool_decide_true (p ∈ {[p]} ∪ s)) by set_solver. by rewrite orb_true_r.
  - f_equal. apply bool_decide_ext. set_solver.
Qed.

Lemma existsb_unflag fs t s :
  existsb (fun f => str_eqb (flagged_stream f) s) (List.filter (fun f => negb (str_eqb (flagged_stream f) t)) fs) =
  negb (str_eqb t s) && existsb (fun f => str_eqb (flagged_stream f) s) fs.
Proof.
  induction fs as [|f fs IH]; [by rewrite andb_false_r|]. cbn.
  destruct (str_eqb_spec (flagged_stream f) t) as [->|Hne]; cbn; rewrite IH; [by destruct (str_eqb t s)|].
  destruct (str_eqb_spec (flagged_stream f) s) as [Heq|]; cbn; [|done].
  destruct (str_eqb_spec t s) as [->|]; [congruence|done].
Qed.

(** What a call does to each of the three verdicts. *)
Lemma effect_blocked self op now p :
  bool_decide (is_Some (blocked_peers (fst (mod_effect self op now)) !! p)) =
  match op with
  | BlockPeer q _ => str_eqb q p || bool_decide (is_Some (blocked_peers self !! p))
  | UnblockPeer q => negb (str_eqb q p) && bool_decide (is_Some (blocked_peers self !! p))
  | ImportList l => existsb (fun e => str_eqb (blocked_id e) p) (list_blocked l) || bool_decide (is_Some (blocked_peers self !! p))
  | _ => bool_decide (is_Some (blocked_peers self !! p))
  end.
Proof.
  destruct op as [q r|q|q|q|s r d rep|s|l]; cbn; try done.
  - destruct (str_eqb_spec q p) as [->|Hne]; [rewrite lookup_insert_eq; by apply bool_decide_true; eexists|by rewrite lookup_insert_ne].
  - destruct (str_eqb_spec q p) as [->|Hne]; [|by rewrite lookup_delete_ne]. rewrite lookup_delete_eq. by apply bool_decide_false; intros [? ?].
  - apply imported_blocks.
Qed.

Lemma effect_whitelist self op now p :
  bool_decide (p ∈ whitelist (fst (mod_effect self op now))) =
  match op with
  | WhitelistPeer q => str_eqb q p || bool_decide (p ∈ whitelist self)
  | RemoveWhitelist q => negb (str_eqb q p) && bool_decide (p ∈ whitelist self)
  | ImportList l => existsb (fun q => str_eqb q p) (list_whitelisted l) || bool_decide (p ∈ whitelist self)
  | _ => bool_decide (p ∈ whitelist self)
  end.
Proof.
  destruct op as [q r|q|q|q|s r d rep|s|l]; cbn; try done.
  - destruct (str_eqb_spec q p) as [->|Hne]; [apply bool_decide_true; set_solver|apply bool_decide_ext; set_solver].
  - destruct (str_eqb_spec q p) as [->|Hne]; [apply bool_decide_false; set_solver|apply bool_decide_ext; set_solver].
  - apply imported_whitelist.
Qed.

Lemma effect_flags self op now s :
  is_stream_flagged (fst (mod_effect self op now)) s =
  match op with
  | FlagStream t _ _ _ => str_eqb t s || is_stream_flagged self s
  | UnflagStream t => negb (str_eqb t s) && is_stream_flagged self s
  | ImportList l => existsb (fun f => str_eqb (flagged_stream f) s) (list_flagged l) || is_stream_flagged self s
  | _ => is_stream_flagged self s
  end.
Proof.
  unfold is_stream_flagged. destruct op as [q r|q|q|q|t r d rep|t|l]; cbn; try done.
  - rewrite existsb_app. cbn. by rewrite orb_false_r, orb_comm.
  - apply existsb_unflag.
  - by rewrite existsb_app, orb_comm.
Qed.

Lemma effect_config self op now : mod_config (fst (mod_effect self op now)) = mod_config self.
Proof. by destruct op. Qed.

(** The decisions of a manager are the policy of its history: a peer is refused
    when the last call about its blocking blocked or imported it, and otherwise
    admitted, in whitelist mode only if the last call about that put it on the
    whitelist; a stream is flagged unless every flag it got was taken back. *)
Theorem moderation_policy config ops :
  let self := mod_run (new_moderation config) ops in
  let history := rev (map fst ops) in
  (forall p, is_peer_allowed self p = negb (last_block history p) && (negb (whitelist_only config) || last_whitelist history p)) /\
  (forall s, is_stream_flagged self s = last_flag history s).
Proof.
  intros self history.
  assert (Hall : mod_config self = config /\
    (forall p, bool_decide (is_Some (blocked_peers self !! p)) = last_block history p) /\
    (forall p, bool_decide (p ∈ whitelist self) = last_whitelist history p) /\
    (forall s, is_stream_flagged self s = last_flag history s)).
  { subst self history. induction ops as [|[op now] ops (Hc & Hb & Hw & Hf)] using rev_ind.
    - split_and!; [done| | |done]; intros p; by apply bool_decide_false; cbn; [rewrite lookup_empty; intros [? ?]|set_solver] || done.
    - unfold mod_run. rewrite fold_left_app. cbn [fold_left]. fold (mod_run (new_moderation config) ops).
      rewrite map_app, rev_app_distr. cbn [map rev app fst]. split_and!.
      + by rewrite effect_config.
      + intros p. rewrite effect_blocked, Hb. by destruct op.
      + intros p. rewrite effect_whitelist, Hw. by destruct op.
      + intros s. rewrite effect_flags, Hf. by destruct op. }
  destruct Hall as (Hc & Hb & Hw & Hf). split; [|done]. intros p. unfold is_peer_allowed. rewrite Hc, <- Hb, <- Hw.
  destruct (bool_decide _); [done|]. by destruct (whitelist_only config).
Qed.

(** ** Exchange *)

(** Entries are stored under the peer they name. *)
Definition keyed (self : ModerationManager) : Prop := map_Forall (fun k e => blocked_id e = k) (blocked_peers self).

Lemma import_keyed (es : list BlockEntry) (m : gmap rstring BlockEntry) : map_Forall (fun k e => blocked_id e = k) m ->
  map_Forall (fun k e => blocked_id e = k) (fold_left (fun m entry => <[blocked_id entry := entry]> m) es m).
Proof. revert m. induction es as [|e es IH]; intros m Hm; [done|]. cbn. apply IH. by apply map_Forall_insert_2. Qed.

Lemma effect_keyed self op now : keyed self -> keyed (fst (mod_effect self op now)).
Proof.
  unfold keyed. intros Hk. destruct op as [q r|q|q|q|s r d rep|s|l]; cbn; try done.
  - by apply map_Forall_insert_2.
  - by apply map_Forall_delete.
  - by apply import_keyed.
Qed.

Lemma run_keyed config ops : keyed (mod_run (new_moderation config) ops).
Proof.
  induction ops as [|[op now] ops IH] using rev_ind; [by apply map_Forall_empty|].
  unfold mod_run. rewrite fold_left_app. by apply effect_keyed.
Qed.

(** Reading a map back from its values. *)
Lemma import_values `{!HashOrder rstring} (m m' : gmap rstring BlockEntry) : map_Forall (fun k e => blocked_id e = k) m ->
  fold_left (fun m entry => <[blocked_id entry := entry]> m) (values m) m' = m ∪ m'.
Proof.
  intros Hk.
  assert (Hgen : forall es (m' : gmap rstring BlockEntry), fold_left (fun m entry => <[blocked_id entry := entry]> m) es m' =
    list_to_map (rev (map (fun e => (blocked_id e, e)) es)) ∪ m').
  { induction es as [|e es IH]; intros m0; cbn; [by rewrite (left_id_L ∅ (∪))|].
    rewrite IH, list_to_map_app. cbn. rewrite <- (assoc_L (∪)). by rewrite insert_empty, <- insert_union_singleton_l. }
  rewrite Hgen. f_equal.
  assert (Hv : map (fun e => (blocked_id e, e)) (values m) = map_iter m).
  { unfold values. rewrite map_map. rewrite <- (map_id (map_iter m)) at 2. apply map_ext_in. intros [k e] Hin.
    apply list_elem_of_In, elem_of_map_iter in Hin. cbn. by rewrite (Hk k e Hin). }
  rewrite Hv. rewrite <- (list_to_map_to_list m) at 2.
  assert (Hp : rev (map_iter m) ≡ₚ map_to_list m) by (by rewrite <- Permutation_rev, map_iter_perm).
  apply list_to_map_proper; [|done]. rewrite Hp. apply NoDup_fst_map_to_list.
Qed.

Lemma import_set `{!HashOrder rstring} (s s' : gset rstring) :
  fold_left (fun s peer_id => {[peer_id]} ∪ s) (set_iter s) s' = s ∪ s'.
Proof.
  assert (Hgen : forall l (s' : gset rstring), fold_left (fun s peer_id => {[peer_id]} ∪ s) l s' = list_to_set l ∪ s').
  { induction l as [|x l IH]; intros s0; cbn; [by rewrite (left_id_L ∅ (∪))|]. rewrite IH. set_solver. }
  rewrite Hgen. f_equal. apply leibniz_equiv. intros x. by rewrite elem_of_list_to_set, elem_of_set_iter.
Qed.

Lemma import_export `{!HashOrder rstring} (self other : ModerationManager) now : keyed self ->
  import_list other (export_list self now) =
  with_lists other (blocked_peers self ∪ blocked_peers other) (whitelist self ∪ whitelist other) (flags other ++ flags self).
Proof.
  intros Hk. unfold import_list, export_list. cbn [list_blocked list_whitelisted list_flagged].
  by rewrite import_values, import_set.
Qed.

(** An exported list carries everything: a fresh node that imports it makes the
    same lists, in whatever order the maps are iterated, and a node that has
    lists of its own joins the two, the imported entries replacing its own. In
    particular a node that imports its own list keeps its decisions, and gets
    every flag a second time. *)
Theorem exported_lists `{!HashOrder rstring} config ops now :
  let self := mod_run (new_moderation config) ops in
  (forall config', import_list (new_moderation config') (export_list self now) =
     {| mod_config := config'; blocked_peers := blocked_peers self; whitelist := whitelist self; flags := flags self |}) /\
  (forall other, import_list other (export_list self now) =
     {| mod_config := mod_config other; blocked_peers := blocked_peers self ∪ blocked_peers other;
        whitelist := whitelist self ∪ whitelist other; flags := flags other ++ flags self |}) /\
  (forall p, is_peer_allowed (import_list self (export_list self now)) p = is_peer_allowed self p) /\
  flags (import_list self (export_list self now)) = flags self ++ flags self.
Proof.
  intros self. pose proof (run_keyed config ops) as Hk. fold self in Hk. split_and!.
  - intros c. rewrite import_export by done. unfold with_lists. cbn. by rewrite !(right_id_L ∅ (∪)).
  - intros other. by rewrite import_export.
  - intros p. rewrite import_export by done. unfold is_peer_allowed. cbn. by rewrite !(idemp_L (∪)).
  - by rewrite import_export.
Qed.

(** ** The file keeps up *)

Section File.
Context {Disk : Type} `{!FileSystem Disk, !Json ModerationList, !HashOrder rstring}.

Definition is_import (op : mod_op) : bool := match op with ImportList _ => true | _ => false end.

(** Calls in turn, as long as the file can be written. *)
Fixpoint mod_calls (st : ModerationManager * Disk) (ops : list (mod_op * Z)) : (ModerationManager * Disk) * bool :=
  match ops with
  | [] => (st, true)
  | (op, now) :: ops => let '(st, ok) := mod_call st op now in if ok : bool then mod_calls st ops else (st, false)
  end.

Lemma filter_length_same {A} (p : A -> bool) l : zlen (List.filter p l) = zlen l -> List.filter p l = l.
Proof.
  induction l as [|x l IH]; [done|]. cbn [List.filter]. destruct (p x); rewrite ?zlen_cons.
  - intros H. f_equal. apply IH. lia.
  - intros H. pose proof (filter_length_le p l). unfold zlen in H. lia.
Qed.

(** A call that does not persist has changed nothing, unless it imports. *)
Lemma effect_idle self op now : is_import op = false -> snd (mod_effect self op now) = false -> fst (mod_effect self op now) = self.
Proof.
  destruct self as [c b w f]. destruct op as [q r|q|q|q|s r d rep|s|l]; cbn; try done.
  - intros _ Hn%bool_decide_eq_false. unfold with_lists. cbn. by rewrite delete_id by (by apply eq_None_not_Some).
  - intros _ Hn%bool_decide_eq_false. unfold with_lists. cbn. f_equal. set_solver.
  - intros _ Hn%Z.ltb_ge. unfold with_lists. cbn. f_equal. apply filter_length_same.
    assert (Hle : zlen (List.filter (fun f0 => negb (str_eqb (flagged_stream f0) s)) f) <= zlen f)
      by (unfold zlen; pose proof (filter_length_le (fun f0 => negb (str_eqb (flagged_stream f0) s)) f); lia). lia.
Qed.

(** The file holds the manager's lists. *)
Definition in_file (self : ModerationManager) (disk : Disk) (path : rstring) : Prop :=
  forall config, load_from_file (new_moderation config) disk path =
    ({| mod_config := config; blocked_peers := blocked_peers self; whitelist := whitelist self; flags := flags self |}, true).

Lemma saved_in_file self disk path now : keyed self -> snd (save_to_file self disk path now) = true ->
  in_file self (fst (save_to_file self disk path now)) path.
Proof.
  intros Hk. unfold save_to_file. destruct (to_json _) as [data|] eqn:Hj; [|done]. intros Hw config.
  unfold load_from_file. rewrite (read_written _ _ _ Hw), (json_roundtrip _ _ Hj). f_equal.
  rewrite import_export by done. unfold with_lists. cbn. by rewrite !(right_id_L ∅ (∪)).
Qed.

Lemma call_in_file self disk path op now : keyed self -> auto_persist (mod_config self) = true ->
  persistence_path (mod_config self) = Some path -> is_import op = false ->
  snd (mod_call (self, disk) op now) = true ->
  let '(self', disk') := fst (mod_call (self, disk) op now) in
  mod_config self' = mod_config self /\ keyed self' /\ (self' = self /\ disk' = disk \/ in_file self' disk' path).
Proof.
  intros Hk Ha Hp Hi. unfold mod_call. cbn [fst snd].
  pose proof (effect_idle self op now Hi) as Hidle. pose proof (effect_keyed self op now Hk) as Hk'.
  pose proof (effect_config self op now) as Hc. destruct (mod_effect self op now) as [self' []]; cbn [fst snd] in *.
  - unfold maybe_persist. rewrite Hc, Ha, Hp. pose proof (saved_in_file self' disk path now Hk') as Hs.
    destruct (save_to_file self' disk path now) as [disk' ok]. cbn in *. intros ->. split_and!; [done..|right; by apply Hs].
  - intros _. split_and!; [done..|left]. by rewrite Hidle.
Qed.

(** With a file configured and writable, what the calls leave is what a node
    finds when it starts again from the file: either they changed nothing, and
    left the file alone, or loading it gives exactly the lists. Calls that
    import are excluded, because they do not persist. *)
Theorem file_keeps_up config path disk ops : auto_persist config = true -> persistence_path config = Some path ->
  Forall (fun o => is_import (fst o) = false) ops -> snd (mod_calls (new_moderation config, disk) ops) = true ->
  let '(self, disk') := fst (mod_calls (new_moderation config, disk) ops) in
  self = new_moderation config /\ disk' = disk \/ in_file self disk' path.
Proof.
  intros Ha Hp Hi.
  assert (Hgen : forall self d, keyed self -> mod_config self = config ->
    self = new_moderation config /\ d = disk \/ in_file self d path -> snd (mod_calls (self, d) ops) = true ->
    let '(self', d') := fst (mod_calls (self, d) ops) in self' = new_moderation config /\ d' = disk \/ in_file self' d' path).
  { induction ops as [|[op now] ops IH]; intros self d Hk Hc Hor; [done|]. apply list.Forall_cons in Hi as [Hi0 Hi]. cbn [fst] in Hi0.
    cbn [mod_calls]. pose proof (call_in_file self d path op now Hk) as Hcall. rewrite Hc in Hcall. specialize (Hcall Ha Hp Hi0).
    destruct (mod_call (self, d) op now) as [[self' d'] []]; [|done]. cbn in Hcall. destruct Hcall as (Hc' & Hk' & Hor'); [done|].
    apply IH; [done|done|done|]. destruct Hor' as [[-> ->]|]; [done|by right]. }
  apply Hgen; [by apply map_Forall_empty|done|by left].
Qed.

(** Writes are not ordered with the changes they carry: when a call that changed
    the lists first writes last, the file misses the later change. *)
Lemma late_write_wins (self1 self2 : ModerationManager) disk path now : keyed self1 ->
  snd (save_to_file self1 (fst (save_to_file self2 disk path now)) path now) = true ->
  in_file self1 (fst (save_to_file self1 (fst (save_to_file self2 disk path now)) path now)) path.
Proof. intros Hk Hw. by apply saved_in_file. Qed.
End File.

(** ** Witnesses *)

Section Demo.
#[local] Existing Instance canonical_order.

(** A stand-in for JSON: a list as one number. *)
#[local] Instance BlockEntry_eq_dec : EqDecision BlockEntry.
Proof. solve_decision. Defined.
#[local] Instance FlagReason_eq_dec : EqDecision FlagReason.
Proof. solve_decision. Defined.
#[local] Instance FlagEntry_eq_dec : EqDecision FlagEntry.
Proof. solve_decision. Defined.
#[local] Instance ModerationList_eq_dec : EqDecision ModerationList.
Proof. solve_decision. Defined.
#[local, program] Instance BlockEntry_countable : Countable BlockEntry :=
  inj_countable' (fun e => (blocked_id e, block_reason e, blocked_at e))
    (fun '(a, b, c) => {| blocked_id := a; block_reason := b; blocked_at := c |}) _.
Next Obligation. by intros []. Qed.
Definition reason_code (r : FlagReason) : Z + rstring :=
  match r with Spam => inl 0 | Inappropriate => inl 1 | Copyright => inl 2 | Abuse => inl 3 | Other s => inr s end.
Definition reason_of_code (x : Z + rstring) : FlagReason :=
  match x with inl n => if n =? 0 then Spam else if n =? 1 then Inappropriate else if n =? 2 then Copyright else Abuse | inr s => Other s end.
#[local] Instance FlagReason_countable : Countable FlagReason.
Proof. refine (inj_countable' reason_code reason_of_code _). by intros []. Defined.
#[local, program] Instance FlagEntry_countable : Countable FlagEntry :=
  inj_countable' (fun e => (flagged_stream e, flag_reason e, flag_details e, flag_reporter e, flagged_at e))
    (fun '(a, b, c, d, e) => {| flagged_stream := a; flag_reason := b; flag_details := c; flag_reporter := d; flagged_at := e |}) _.
Next Obligation. by intros []. Qed.
#[local, program] Instance ModerationList_countable : Countable ModerationList :=
  inj_countable' (fun l => (list_version l, node_id l, created_at l, list_blocked l, list_whitelisted l, list_flagged l))
    (fun '(a, b, c, d, e, f) => {| list_version := a; node_id := b; created_at := c; list_blocked := d; list_whitelisted := e; list_flagged := f |}) _.
Next Obligation. by intros []. Qed.

Definition demo_from_json (s : rstring) : option ModerationList := match s with [Zpos p] => decode p | _ => None end.
#[local] Instance demo_json : Json ModerationList.
Proof.
  refine {| to_json l := Some [Zpos (encode l)]; from_json := demo_from_json |}.
  intros l s [= <-]. apply decode_encode.
Defined.

#[local, program] Instance demo_disk : FileSystem (gmap rstring rstring) :=
  {| read_file d path := d !! path; write_file d path data := (<[path := data]> d, true) |}.
Next Obligation. intros. apply lookup_insert_eq. Qed.

Definition demo_moderation : ModerationConfig :=
  {| persistence_path := Some (str "/var/obn"); auto_persist := true; whitelist_only := false |}.
Definition demo_calls : list (mod_op * Z) :=
  [(BlockPeer (str "eve") None, 1); (FlagStream (str "s") Spam None None, 2); (UnblockPeer (str "bob"), 3)].

Lemma file_keeps_up_witness :
  let '(self, disk) := fst (mod_calls (new_moderation demo_moderation, ∅) demo_calls) in
  is_peer_allowed self (str "eve") = false /\ in_file self disk (str "/var/obn").
Proof.
  pose proof (file_keeps_up demo_moderation (str "/var/obn") (∅ : gmap rstring rstring) demo_calls eq_refl eq_refl
    ltac:(repeat constructor) ltac:(vm_compute; reflexivity)) as Hk.
  assert (He : is_peer_allowed (fst (fst (mod_calls (new_moderation demo_moderation, (∅ : gmap rstring rstring)) demo_calls))) (str "eve") = false)
    by (vm_compute; reflexivity).
  destruct (fst (mod_calls (new_moderation demo_moderation, (∅ : gmap rstring rstring)) demo_calls)) as [self disk].
  split; [exact He|]. destruct Hk as [[-> _]|Hk]; [|exact Hk]. vm_compute in He. discriminate.
Defined.

(** What is imported is not in the file until the next change. *)
Example import_is_not_saved :
  let '(self, disk) := fst (mod_calls (new_moderation demo_moderation, (∅ : gmap rstring rstring))
    [(ImportList {| list_version := 1; node_id := None; created_at := 0;
        list_blocked := [{| blocked_id := str "eve"; block_reason := None; blocked_at := 0 |}]; list_whitelisted := []; list_flagged := [] |}, 1)]) in
  is_peer_allowed self (str "eve") = false /\ disk = ∅.
Proof. split; vm_compute; reflexivity. Qed.
End Demo.
