(* ===== verification/JsonTree.v ===== *)
(** * JSON values

    [serde_json::Value] without fractions, the text of values as an interface,
    and what the derived [Serialize] and [Deserialize] of the program's types do
    with values. *)

From S2P Require Import Prelude Rust Format Hash.

#[local] Open Scope Z_scope.

Inductive jvalue : Type :=
| JNull
| JBool (b : bool)
| JNumber (n : Z)
| JString (s : rstring)
| JArray (l : list jvalue)
| JObject (fields : list (rstring * jvalue)).

Definition field (name : string) (v : jvalue) : rstring * jvalue := (str name, v).
Definition jopt {A} (f : A -> jvalue) (x : option A) : jvalue := match x with Some x => f x | None => JNull end.

(** A key of an object: [None] when it is there twice, which the derived
    implementations refuse. *)
Fixpoint keyed (name : rstring) (fields : list (rstring * jvalue)) : list jvalue :=
  match fields with
  | [] => []
  | (k, v) :: fields => if str_eqb k name then v :: keyed name fields else keyed name fields
  end.
Definition get_field (name : string) (fields : list (rstring * jvalue)) : option (option jvalue) :=
  match keyed (str name) fields with [] => Some None | [v] => Some (Some v) | _ => None end.

(** ** Text *)

(** What a value of the program can be: keys are distinct, text is UTF-8. *)
Definition is_text (s : rstring) : Prop := from_utf8 s = Some s.
Definition is_number (n : Z) : Prop := - 2 ^ 63 <= n <= u64_max.

Fixpoint canonical (v : jvalue) : Prop :=
  match v with
  | JNull | JBool _ => True
  | JNumber n => is_number n
  | JString s => is_text s
  | JArray l => fold_right (fun x P => canonical x /\ P) True l
  | JObject fields => NoDup (map fst fields) /\ fold_right (fun e P => is_text (fst e) /\ canonical (snd e) /\ P) True fields
  end.

Lemma canonical_array l : canonical (JArray l) <-> Forall canonical l.
Proof. cbn. induction l as [|x l IH]; cbn; [by rewrite list.Forall_nil|]. by rewrite list.Forall_cons, IH. Qed.

Lemma canonical_object fields : canonical (JObject fields) <->
  NoDup (map fst fields) /\ Forall (fun e => is_text (fst e) /\ canonical (snd e)) fields.
Proof.
  cbn. apply and_iff_compat_l. induction fields as [|e fields IH]; cbn; [by rewrite list.Forall_nil|]. rewrite list.Forall_cons, <- IH. tauto.
Qed.

(** How deep arrays and objects nest. The reader counts down from 128 and gives
    up at zero: 127 containers inside one another are read, no more. *)
Fixpoint depth (v : jvalue) : nat :=
  match v with
  | JArray l => S (fold_right (fun x n => Nat.max (depth x) n) 0%nat l)
  | JObject fields => S (fold_right (fun e n => Nat.max (depth (snd e)) n) 0%nat fields)
  | _ => 0
  end.
Definition max_depth : nat := 127.

Class JsonText : Type := {
  print : jvalue -> rstring;
  read : rstring -> option jvalue;
  read_print : forall v, canonical v -> (depth v <= max_depth)%nat -> read (print v) = Some v;
  read_deep : forall v, (max_depth < depth v)%nat -> read (print v) = None;
}.

Lemma depth_of_leaves {A} (f : A -> jvalue) l : (forall x, depth (f x) = 0%nat) -> depth (JArray (map f l)) = 1%nat.
Proof. intros Hf. cbn. f_equal. induction l as [|x l IH]; [done|]. cbn. by rewrite Hf, IH. Qed.

(** ** Reading fields *)

Definition as_string (v : jvalue) : option rstring := match v with JString s => Some s | _ => None end.
Definition as_number_u64 (v : jvalue) : option Z := match v with JNumber n => if (0 <=? n) && (n <=? u64_max) then Some n else None | _ => None end.
Definition as_number_u8 (v : jvalue) : option Z := match v with JNumber n => if (0 <=? n) && (n <=? 255) then Some n else None | _ => None end.

(** A field that must be there, and an [Option], which need not. *)
Definition required {A} (read : jvalue -> option A) (name : string) (fields : list (rstring * jvalue)) : option A :=
  match get_field name fields with Some (Some v) => read v | _ => None end.
Definition optional {A} (read : jvalue -> option A) (name : string) (fields : list (rstring * jvalue)) : option (option A) :=
  match get_field name fields with
  | Some (Some JNull) | Some None => Some None
  | Some (Some v) => Some <$> read v
  | None => None
  end.

Lemma required_found {A} (read : jvalue -> option A) name fields v r :
  get_field name fields = Some (Some v) -> read v = r -> required read name fields = r.
Proof. unfold required. by intros -> ->. Qed.

Lemma optional_found {A} (read : jvalue -> option A) (f : A -> jvalue) name fields x :
  get_field name fields = Some (Some (jopt f x)) -> (forall y, x = Some y -> f y <> JNull /\ read (f y) = Some y) ->
  optional read name fields = Some x.
Proof.
  unfold optional. intros ->. destruct x as [y|]; [|done]. intros Hy. destruct (Hy y eq_refl) as [Hn Hr]. cbn [jopt].
  rewrite Hr. by destruct (f y).
Qed.

(** [Vec<u8>] and [HashMap<String, String>]. *)
Fixpoint byte_list (l : list jvalue) : option bytes :=
  match l with
  | [] => Some []
  | v :: l => match as_number_u8 v, byte_list l with Some b, Some bs => Some (b :: bs) | _, _ => None end
  end.
Definition as_byte_list (v : jvalue) : option bytes := match v with JArray l => byte_list l | _ => None end.

Fixpoint string_entries (fields : list (rstring * jvalue)) : option (list (rstring * rstring)) :=
  match fields with
  | [] => Some []
  | (k, v) :: fields => match as_string v, string_entries fields with Some s, Some es => Some ((k, s) :: es) | _, _ => None end
  end.
Definition as_string_map (v : jvalue) : option (gmap rstring rstring) :=
  match v with JObject fields => (fun es => list_to_map (rev es)) <$> string_entries fields | _ => None end.

Definition byte_list_json (data : bytes) : jvalue := JArray (map JNumber data).
Definition string_map_json `{!HashOrder rstring} (m : gmap rstring rstring) : jvalue := JObject (map (fun e => (fst e, JString (snd e))) (map_iter m)).

Lemma as_number_u64_ok n : is_u64 n -> as_number_u64 (JNumber n) = Some n.
Proof. intros Hn. cbn. unfold is_u64 in Hn. rewrite (proj2 (Z.leb_le 0 n)), (proj2 (Z.leb_le n u64_max)) by lia. done. Qed.

Lemma byte_list_ok data : Forall is_byte data -> as_byte_list (byte_list_json data) = Some data.
Proof.
  cbn. induction 1 as [|b data Hb _ IH]; [done|]. cbn. rewrite IH. unfold is_byte in Hb.
  by rewrite (proj2 (Z.leb_le 0 b)), (proj2 (Z.leb_le b 255)) by lia.
Qed.

Lemma string_map_ok `{!HashOrder rstring} m : as_string_map (string_map_json m) = Some m.
Proof.
  cbn. assert (He : forall es, string_entries (map (fun e => (fst e, JString (snd e))) es) = Some es).
  { induction es as [|[k s] es IH]; [done|]. cbn. by rewrite IH. }
  rewrite He. cbn. f_equal.
  assert (Hp : rev (map_iter m) ≡ₚ map_to_list m) by (by rewrite <- Permutation_rev, map_iter_perm).
  etransitivity; [apply (list_to_map_proper _ (map_to_list m)); [rewrite Hp; apply NoDup_fst_map_to_list|exact Hp]|apply list_to_map_to_list].
Qed.

Lemma canonical_bytes data : Forall is_byte data -> canonical (byte_list_json data).
Proof.
  intros Hd. apply canonical_array. induction Hd as [|b data Hb _ IH]; constructor; [|done]. unfold is_byte in Hb. cbn. unfold is_number, u64_max. lia.
Qed.

Lemma canonical_map `{!HashOrder rstring} m : map_Forall (fun k v => is_text k /\ is_text v) m -> canonical (string_map_json m).
Proof.
  intros Hm. apply canonical_object. split.
  - rewrite map_map. cbn. change (map (fun e => fst e) (map_iter m)) with (keys m). apply NoDup_keys.
  - apply list.Forall_forall. intros e (e' & -> & He')%list_elem_of_fmap. destruct e' as [k v]. apply elem_of_map_iter in He'. cbn. by apply Hm.
Qed.

Lemma depth_bytes data : depth (byte_list_json data) = 1%nat.
Proof. by apply depth_of_leaves. Qed.

Lemma depth_map `{!HashOrder rstring} m : depth (string_map_json m) = 1%nat.
Proof. unfold string_map_json. cbn. f_equal. by induction (map_iter m) as [|e l IH]. Qed.

(** ** A text *)

(** Induction that reaches into arrays and objects. *)
Fixpoint jvalue_nested_ind (P : jvalue -> Prop) (Hnull : P JNull) (Hbool : forall b, P (JBool b)) (Hnum : forall n, P (JNumber n))
  (Hstr : forall s, P (JString s)) (Harr : forall l, Forall P l -> P (JArray l))
  (Hobj : forall fields, Forall (fun e => P (snd e)) fields -> P (JObject fields)) (v : jvalue) : P v :=
  match v with
  | JNull => Hnull
  | JBool b => Hbool b
  | JNumber n => Hnum n
  | JString s => Hstr s
  | JArray l => Harr l ((fix all l : Forall P l := match l with
      | [] => list.Forall_nil_2 P
      | x :: l => list.Forall_cons_2 P x l (jvalue_nested_ind P Hnull Hbool Hnum Hstr Harr Hobj x) (all l) end) l)
  | JObject fields => Hobj fields ((fix all l : Forall (fun e => P (snd e)) l := match l with
      | [] => list.Forall_nil_2 _
      | x :: l => list.Forall_cons_2 _ x l (jvalue_nested_ind P Hnull Hbool Hnum Hstr Harr Hobj (snd x)) (all l) end) fields)
  end.

Fixpoint to_tree (v : jvalue) : gen_tree (Z + rstring) :=
  match v with
  | JNull => GenNode 0 []
  | JBool b => GenNode 1 (if b then [GenNode 0 []] else [])
  | JNumber n => GenNode 2 [GenLeaf (inl n)]
  | JString s => GenNode 3 [GenLeaf (inr s)]
  | JArray l => GenNode 4 (map to_tree l)
  | JObject fields => GenNode 5 (map (fun e => GenNode 0 [GenLeaf (inr (fst e)); to_tree (snd e)]) fields)
  end.

Fixpoint of_tree (t : gen_tree (Z + rstring)) : jvalue :=
  match t with
  | GenNode 1 [] => JBool false
  | GenNode 1 _ => JBool true
  | GenNode 2 [GenLeaf (inl n)] => JNumber n
  | GenNode 3 [GenLeaf (inr s)] => JString s
  | GenNode 4 l => JArray (map of_tree l)
  | GenNode 5 l => JObject (map (fun t => match t with GenNode _ [GenLeaf (inr k); t] => (k, of_tree t) | _ => ([], JNull) end) l)
  | _ => JNull
  end.

Lemma of_to_tree v : of_tree (to_tree v) = v.
Proof.
  induction v as [|b|n|s|l IH|fields IH] using jvalue_nested_ind; [done|by destruct b|done|done|..].
  - change (JArray (map of_tree (map to_tree l)) = JArray l). f_equal. induction IH as [|x l Hx _ IHl]; [done|]. cbn. by rewrite Hx, IHl.
  - cbn [to_tree of_tree]. f_equal. induction IH as [|[k v] fields Hx _ IHl]; [done|]. cbn in *. by rewrite Hx, IHl.
Qed.

(** A stand-in for the text of values: a number. *)
Definition coded_print (v : jvalue) : rstring := [Zpos (encode (to_tree v))].
Definition coded_read (s : rstring) : option jvalue :=
  match s with
  | [Zpos p] => match of_tree <$> decode p with Some v => if (depth v <=? max_depth)%nat then Some v else None | None => None end
  | _ => None
  end.

Lemma coded_read_eq v : coded_read (coded_print v) = if (depth v <=? max_depth)%nat then Some v else None.
Proof. unfold coded_print, coded_read. by rewrite decode_encode; cbn; rewrite of_to_tree. Qed.

Lemma coded_read_print v : canonical v -> (depth v <= max_depth)%nat -> coded_read (coded_print v) = Some v.
Proof. intros _ Hd. by rewrite coded_read_eq, (proj2 (Nat.leb_le _ _) Hd). Qed.

Lemma coded_read_deep v : (max_depth < depth v)%nat -> coded_read (coded_print v) = None.
Proof. intros Hd. by rewrite coded_read_eq, (proj2 (Nat.leb_gt _ _) Hd). Qed.

Definition coded_json : JsonText :=
  {| print := coded_print; read := coded_read; read_print := coded_read_print; read_deep := coded_read_deep |}.
