(* ===== verification/Segment.v ===== *)
(** * Stream segments

    Models [core/src/media/segment.rs] and [wire_format.rs]: segments, the
    builder that numbers them, the conversions from samples and to and from the
    chunks of the overlay ([core/src/overlay/relay/types.rs]), and the segments
    sent over the network. Both [StreamId] types are byte strings. The encoding
    of [bincode] and the hash of [blake3] are interfaces. *)

From S2P Require Import Prelude Rust Format Fmp4 Mp4Data Mp4Segments Mp4Delivery.

#[local] Open Scope Z_scope.

(** ** Media types and stream identifiers *)

Inductive MediaType : Type := Video | Audio | Metadata | Initialization.

#[export] Instance MediaType_eq_dec : EqDecision MediaType.
Proof. solve_decision. Defined.

Definition to_u8 (self : MediaType) : Z :=
  match self with Video => 0 | Audio => 1 | Metadata => 2 | Initialization => 3 end.

Definition from_u8 (value : Z) : option MediaType :=
  match value with
  | 0 => Some Video
  | 1 => Some Audio
  | 2 => Some Metadata
  | 3 => Some Initialization
  | _ => None
  end.

(** [Display] of a media type. *)
Definition show_media_type (self : MediaType) : rstring :=
  match self with
  | Video => str "video" | Audio => str "audio" | Metadata => str "metadata" | Initialization => str "init"
  end.

Abbreviation StreamId := bytes.

(** [Display] of a stream identifier: the text it spells, or its bytes in
    hexadecimal. *)
Definition show_stream_id (self : StreamId) : rstring :=
  match from_utf8 self with
  | Some s => s
  | None => hex_string self
  end.

Definition to_string_lossy (self : StreamId) : rstring := from_utf8_lossy self.

(** ** Segments *)

Record StreamSegment : Type := {
  seg_stream_id : StreamId;
  seg_sequence : Z;
  pts_us : Z;
  duration_us : Z;
  seg_media_type : MediaType;
  seg_data : bytes;
  seg_is_keyframe : bool;
  seg_track_id : Z;
}.

Definition video (id : StreamId) (sequence pts duration : Z) (data : bytes) (is_keyframe : bool) : StreamSegment :=
  {| seg_stream_id := id; seg_sequence := sequence; pts_us := pts; duration_us := duration;
     seg_media_type := Video; seg_data := data; seg_is_keyframe := is_keyframe; seg_track_id := 1 |}.

Definition audio (id : StreamId) (sequence pts duration : Z) (data : bytes) : StreamSegment :=
  {| seg_stream_id := id; seg_sequence := sequence; pts_us := pts; duration_us := duration;
     seg_media_type := Audio; seg_data := data; seg_is_keyframe := false; seg_track_id := 2 |}.

(** The time stamp of a metadata segment is the clock's. *)
Definition metadata (id : StreamId) (sequence : Z) (data : bytes) (now_us : Z) : StreamSegment :=
  {| seg_stream_id := id; seg_sequence := sequence; pts_us := now_us; duration_us := 0;
     seg_media_type := Metadata; seg_data := data; seg_is_keyframe := false; seg_track_id := 0 |}.

Definition initialization (id : StreamId) (data : bytes) : StreamSegment :=
  {| seg_stream_id := id; seg_sequence := 0; pts_us := 0; duration_us := 0;
     seg_media_type := Initialization; seg_data := data; seg_is_keyframe := true; seg_track_id := 0 |}.

Definition duration_ms (self : StreamSegment) : Z := duration_us self / 1000.
Definition pts_ms (self : StreamSegment) : Z := pts_us self / 1000.
Definition is_init (self : StreamSegment) : bool := bool_decide (seg_media_type self = Initialization).

(** ** The builder *)

Record SegmentBuilder : Type := {
  builder_stream_id : StreamId;
  video_sequence : Z;
  audio_sequence : Z;
  meta_sequence : Z;
}.

Definition new_builder (id : StreamId) : SegmentBuilder :=
  {| builder_stream_id := id; video_sequence := 0; audio_sequence := 0; meta_sequence := 0 |}.

Definition next_video (self : SegmentBuilder) (pts duration : Z) (data : bytes) (is_keyframe : bool)
  : exec (SegmentBuilder * StreamSegment) :=
  let seq := video_sequence self in
  let! next := add_u64 seq 1 in
  Done ({| builder_stream_id := builder_stream_id self; video_sequence := next;
           audio_sequence := audio_sequence self; meta_sequence := meta_sequence self |},
        video (builder_stream_id self) seq pts duration data is_keyframe).

Definition next_audio (self : SegmentBuilder) (pts duration : Z) (data : bytes)
  : exec (SegmentBuilder * StreamSegment) :=
  let seq := audio_sequence self in
  let! next := add_u64 seq 1 in
  Done ({| builder_stream_id := builder_stream_id self; video_sequence := video_sequence self;
           audio_sequence := next; meta_sequence := meta_sequence self |},
        audio (builder_stream_id self) seq pts duration data).

Definition next_metadata (self : SegmentBuilder) (data : bytes) (now_us : Z)
  : exec (SegmentBuilder * StreamSegment) :=
  let seq := meta_sequence self in
  let! next := add_u64 seq 1 in
  Done ({| builder_stream_id := builder_stream_id self; video_sequence := video_sequence self;
           audio_sequence := audio_sequence self; meta_sequence := next |},
        metadata (builder_stream_id self) seq data now_us).

Definition builder_initialization (self : SegmentBuilder) (data : bytes) : StreamSegment :=
  initialization (builder_stream_id self) data.

(** ** Conversions from samples *)

Definition from_mse_segment (mse : MseSegment) (id : StreamId) (sequence : Z) : exec StreamSegment :=
  let media_type :=
    if str_eqb (segment_type mse) (str "initialization") then Initialization
    else if ms_track_id mse =? 2 then Audio else Video in
  let! pts := mul_u64 (default 0 (ms_timestamp mse)) 1000 in
  let! duration := mul_u64 (default 0 (ms_duration mse)) 1000 in
  Done {| seg_stream_id := id; seg_sequence := sequence; pts_us := pts; duration_us := duration;
          seg_media_type := media_type; seg_data := ms_data mse; seg_is_keyframe := ms_is_keyframe mse;
          seg_track_id := as_u8 (ms_track_id mse) |}.

(** The track that a media type stands for. *)
Definition track_of (media_type : MediaType) : Z :=
  match media_type with Video => 1 | Audio => 2 | _ => 0 end.

Definition from_sample (sample : Sample) (id : StreamId) (sequence pts timescale : Z) (media_type : MediaType)
  : exec StreamSegment :=
  let! duration :=
    if 0 <? timescale then let! us := mul_u64 (smp_duration sample) 1000000 in div_u64 us timescale
    else mul_u64 (smp_duration sample) 1000 in
  Done {| seg_stream_id := id; seg_sequence := sequence; pts_us := pts; duration_us := duration;
          seg_media_type := media_type; seg_data := smp_data sample; seg_is_keyframe := smp_is_keyframe sample;
          seg_track_id := track_of media_type |}.

(** A sample of the file readers; durations are nanoseconds. *)
Record MediaSample : Type := {
  sample_data : bytes;
  sample_timestamp : Z;
  sample_duration : Z;
  is_sync : bool;
  sample_track_id : Z;
}.

(** [duration.as_micros() as u64]. *)
Definition as_micros (nanos : Z) : Z := as_u64 (nanos / 1000).

Definition from_media_sample (sample : MediaSample) (id : StreamId) (sequence : Z) : StreamSegment :=
  {| seg_stream_id := id; seg_sequence := sequence; pts_us := as_micros (sample_timestamp sample);
     duration_us := as_micros (sample_duration sample);
     seg_media_type := if sample_track_id sample =? 2 then Audio else Video;
     seg_data := sample_data sample; seg_is_keyframe := is_sync sample;
     seg_track_id := as_u8 (sample_track_id sample) |}.

(** The segments of a parsed file, numbered from zero: the loop of
    [generate_stream_segments]. *)
Fixpoint number_segments (id : StreamId) (i : Z) (mse : list MseSegment) : exec (list StreamSegment) :=
  match mse with
  | [] => Done []
  | m :: mse => let! s := from_mse_segment m id i in let! rest := number_segments id (i + 1) mse in Done (s :: rest)
  end.

Definition generate_stream_segments (self : Mp4Parser) (id : StreamId)
  : exec (Mp4Parser * result (list StreamSegment) io_error) :=
  let! r := generate_mse_segments self in
  match r with
  | (self, RErr e) => Done (self, RErr e)
  | (self, ROk mse) => let! segments := number_segments id 0 mse in Done (self, ROk segments)
  end.

(** ** Chunks of the overlay *)

Record StreamChunk {PeerId : Type} : Type := {
  chunk_id : Z;
  chunk_stream_id : StreamId;
  chunk_data : bytes;
  chunk_timestamp : Z;
  chunk_sequence : Z;
  content_type : rstring;
  chunk_is_keyframe : bool;
  chunk_source : option PeerId;
}.
Arguments StreamChunk PeerId : clear implicits.

(** The media type that a content type names; anything unknown is video. *)
Definition media_type_of (content : rstring) : MediaType :=
  if str_eqb content (str "video") then Video
  else if str_eqb content (str "audio") then Audio
  else if str_eqb content (str "metadata") || str_eqb content (str "meta") then Metadata
  else if str_eqb content (str "init") || str_eqb content (str "initialization") then Initialization
  else Video.

Definition content_type_of (media_type : MediaType) : rstring :=
  match media_type with
  | Video => str "video" | Audio => str "audio" | Metadata => str "metadata" | Initialization => str "init"
  end.

Section Chunks.
Context {PeerId : Type}.

(** [StreamSegment::from(chunk)]. *)
Definition from_chunk (chunk : StreamChunk PeerId) : exec StreamSegment :=
  let media_type := media_type_of (content_type chunk) in
  let! pts := mul_u64 (chunk_timestamp chunk) 1000 in
  Done {| seg_stream_id := chunk_stream_id chunk; seg_sequence := chunk_sequence chunk; pts_us := pts;
          duration_us := 0; seg_media_type := media_type; seg_data := chunk_data chunk;
          seg_is_keyframe := chunk_is_keyframe chunk; seg_track_id := track_of media_type |}.

Definition to_overlay_chunk (self : StreamSegment) (id : Z) : StreamChunk PeerId :=
  {| chunk_id := id; chunk_stream_id := seg_stream_id self; chunk_data := seg_data self;
     chunk_timestamp := pts_us self / 1000; chunk_sequence := seg_sequence self;
     content_type := content_type_of (seg_media_type self); chunk_is_keyframe := seg_is_keyframe self;
     chunk_source := None |}.

(** [StreamChunk::from_stream_segment]. *)
Definition from_stream_segment (segment : StreamSegment) : StreamChunk PeerId :=
  to_overlay_chunk segment (seg_sequence segment).
End Chunks.

(** ** The wire format *)

(** The hash function of [blake3]: some 32 bytes. *)
Class Blake3 : Type := {
  blake3 : bytes -> bytes;
  length_blake3 : forall data, zlen (blake3 data) = 32;
}.

(** [bincode] on a type: decoding what was encoded gives the value back. *)
Class Bincode (A : Type) : Type := {
  bin_serialize : A -> option bytes;
  bin_deserialize : bytes -> option A;
  bin_roundtrip : forall a data, bin_serialize a = Some data -> bin_deserialize data = Some a;
}.

Definition WIRE_FORMAT_VERSION : Z := 2.

Record WireSegment : Type := {
  version : Z;
  wire_stream_id : bytes;
  wire_sequence : Z;
  wire_pts_us : Z;
  wire_duration_us : Z;
  wire_media_type : Z;
  wire_track_id : Z;
  wire_is_keyframe : bool;
  wire_hash : bytes;
  wire_data : bytes;
}.

Definition compute_content_hash `{Blake3} (data : bytes) : bytes := ztake 16 (blake3 data).

Definition verify_integrity `{Blake3} (self : WireSegment) : bool :=
  bool_decide (wire_hash self = compute_content_hash (wire_data self)).

Definition is_compatible (self : WireSegment) : bool := version self <=? WIRE_FORMAT_VERSION.

Definition media_type_enum (self : WireSegment) : option MediaType := from_u8 (wire_media_type self).

Definition wire_of_segment `{Blake3} (segment : StreamSegment) : WireSegment :=
  {| version := WIRE_FORMAT_VERSION; wire_stream_id := seg_stream_id segment; wire_sequence := seg_sequence segment;
     wire_pts_us := pts_us segment; wire_duration_us := duration_us segment;
     wire_media_type := to_u8 (seg_media_type segment); wire_track_id := seg_track_id segment;
     wire_is_keyframe := seg_is_keyframe segment; wire_hash := compute_content_hash (seg_data segment);
     wire_data := seg_data segment |}.

Definition segment_of_wire (wire : WireSegment) : StreamSegment :=
  {| seg_stream_id := wire_stream_id wire; seg_sequence := wire_sequence wire; pts_us := wire_pts_us wire;
     duration_us := wire_duration_us wire; seg_media_type := default Video (from_u8 (wire_media_type wire));
     seg_data := wire_data wire; seg_is_keyframe := wire_is_keyframe wire; seg_track_id := wire_track_id wire |}.

(** [to_wire_bytes]. *)
Definition to_wire_bytes `{Blake3, !Bincode WireSegment} (self : StreamSegment) : option bytes :=
  bin_serialize (wire_of_segment self).

Record WireSegmentBatch : Type := { batch_version : Z; batch_segments : list WireSegment }.

Definition batch_from_segments `{Blake3} (segments : list StreamSegment) : WireSegmentBatch :=
  {| batch_version := WIRE_FORMAT_VERSION; batch_segments := map wire_of_segment segments |}.

Definition into_segments (self : WireSegmentBatch) : list StreamSegment := map segment_of_wire (batch_segments self).

(** ** Properties *)

(** *** Numbering *)

(** A call of the builder. *)
Inductive request : Type :=
| ReqVideo (pts duration : Z) (data : bytes) (key : bool)
| ReqAudio (pts duration : Z) (data : bytes)
| ReqMetadata (data : bytes) (now_us : Z).

Definition request_type (r : request) : MediaType :=
  match r with ReqVideo _ _ _ _ => Video | ReqAudio _ _ _ => Audio | ReqMetadata _ _ => Metadata end.

Definition serve (st : SegmentBuilder * list StreamSegment) (r : request) : exec (SegmentBuilder * list StreamSegment) :=
  let '(self, made) := st in
  let! r := match r with
            | ReqVideo pts d data key => next_video self pts d data key
            | ReqAudio pts d data => next_audio self pts d data
            | ReqMetadata data now => next_metadata self data now
            end in
  let '(self, s) := r in
  Done (self, made ++ [s]).

(** The request numbered [n] among those of its type, as a segment. *)
Definition answer (id : StreamId) (n : Z) (r : request) : StreamSegment :=
  match r with
  | ReqVideo pts d data key => video id n pts d data key
  | ReqAudio pts d data => audio id n pts d data
  | ReqMetadata data now => metadata id n data now
  end.

Definition count_type (t : MediaType) (rs : list request) : Z :=
  zlen (List.filter (fun r => bool_decide (request_type r = t)) rs).

Definition builder_at (id : StreamId) (rs : list request) : SegmentBuilder :=
  {| builder_stream_id := id; video_sequence := count_type Video rs; audio_sequence := count_type Audio rs;
     meta_sequence := count_type Metadata rs |}.

Lemma count_type_snoc t rs r : count_type t (rs ++ [r]) = count_type t rs + (if decide (request_type r = t) then 1 else 0).
Proof.
  unfold count_type. rewrite List.filter_app, zlen_app. f_equal. cbn [List.filter].
  by destruct (decide (request_type r = t)); [rewrite bool_decide_true|rewrite bool_decide_false].
Qed.

Lemma count_type_range t rs : 0 <= count_type t rs <= zlen rs.
Proof. unfold count_type, zlen. pose proof (List.filter_length_le (fun r => bool_decide (request_type r = t)) rs). lia. Qed.

Lemma serve_step id rs r made : zlen rs < u64_max ->
  serve (builder_at id rs, made) r =
  Done (builder_at id (rs ++ [r]), made ++ [answer id (count_type (request_type r) rs) r]).
Proof.
  intros Hn. unfold builder_at. rewrite !count_type_snoc.
  pose proof (count_type_range (request_type r) rs). unfold serve, next_video, next_audio, next_metadata, add_u64.
  destruct r; cbn -[checked count_type] in *; rewrite checked_done by lia; cbn -[count_type];
    by rewrite !Z.add_0_r.
Qed.

(** The builder numbers each type of media on its own, from zero and without a
    gap: whatever is asked of it in whatever order, every request is answered
    by a segment of its stream with its data, numbered by how many requests of
    the same type came before. *)
Theorem builder_numbers id rs : zlen rs <= u64_max ->
  exists made b, for_each serve rs (new_builder id, []) = Done (b, made) /\ length made = length rs /\
    forall i r, rs !! i = Some r -> made !! i = Some (answer id (count_type (request_type r) (take i rs)) r).
Proof.
  intros Hn. exists (imap (fun i r => answer id (count_type (request_type r) (take i rs)) r) rs), (builder_at id rs).
  split_and!; [|apply length_imap|intros i r Hr; by rewrite list_lookup_imap, Hr].
  induction rs as [|r rs IH] using rev_ind; [done|]. rewrite zlen_app in Hn. change (zlen [r]) with 1 in Hn.
  rewrite for_each_app, IH by lia. cbn [exec_bind for_each]. rewrite serve_step by lia. cbn [exec_bind]. do 2 f_equal.
  rewrite imap_app. f_equal; [|cbn; by rewrite Nat.add_0_r, take_app_length].
  apply imap_ext. intros i x Hx. by rewrite take_app_le by (apply lookup_lt_Some in Hx; lia).
Qed.

(** *** Conversions *)

(** The segment that [from_mse_segment] makes when it ends. *)
Definition unified (id : StreamId) (sequence : Z) (m : MseSegment) : StreamSegment :=
  {| seg_stream_id := id; seg_sequence := sequence; pts_us := default 0 (ms_timestamp m) * 1000;
     duration_us := default 0 (ms_duration m) * 1000;
     seg_media_type := if str_eqb (segment_type m) (str "initialization") then Initialization
                       else if ms_track_id m =? 2 then Audio else Video;
     seg_data := ms_data m; seg_is_keyframe := ms_is_keyframe m; seg_track_id := as_u8 (ms_track_id m) |}.

(** Times whose microseconds fit. *)
Definition times_fit (m : MseSegment) : Prop :=
  is_u64 (default 0 (ms_timestamp m) * 1000) /\ is_u64 (default 0 (ms_duration m) * 1000).

Lemma from_mse_segment_done m id sequence : times_fit m -> from_mse_segment m id sequence = Done (unified id sequence m).
Proof. intros [? ?]. unfold from_mse_segment, mul_u64. by rewrite !checked_done. Qed.

Lemma number_segments_done id i mse : Forall times_fit mse ->
  number_segments id i mse = Done (imap (fun k m => unified id (i + Z.of_nat k) m) mse).
Proof.
  intros H. revert i. induction H as [|m mse Hm _ IH]; intros i; [done|]. cbn [number_segments imap].
  rewrite from_mse_segment_done, IH by done. cbn [exec_bind]. rewrite Z.add_0_r. do 2 f_equal.
  apply imap_ext. intros k x _. cbn. f_equal. lia.
Qed.

(** The unified segments of a parsed file are its segments in order, numbered
    from zero across the initialization segment, video and audio: milliseconds
    become microseconds, the data and the key flag are kept, and the media type
    is read off the track number, two being audio. The durations, which a
    regular file states in the units of its track, are scaled like milliseconds. *)
Theorem generate_stream_segments_spec self self' mse id :
  generate_mse_segments self = Done (self', ROk mse) -> Forall times_fit mse ->
  exists segments, generate_stream_segments self id = Done (self', ROk segments) /\
    length segments = length mse /\
    forall i m, mse !! i = Some m -> segments !! i = Some (unified id (Z.of_nat i) m).
Proof.
  intros Hg Hf. exists (imap (fun k m => unified id (Z.of_nat k) m) mse). split_and!.
  - unfold generate_stream_segments. rewrite Hg. cbn [exec_bind]. by rewrite number_segments_done.
  - apply length_imap.
  - intros i m Hm. by rewrite list_lookup_imap, Hm.
Qed.

(** A segment that went through a chunk of the overlay: what is lost is the
    fraction of a millisecond, the duration, and the track beyond its type. *)
Definition through_chunk (s : StreamSegment) : StreamSegment :=
  {| seg_stream_id := seg_stream_id s; seg_sequence := seg_sequence s; pts_us := pts_us s / 1000 * 1000;
     duration_us := 0; seg_media_type := seg_media_type s; seg_data := seg_data s;
     seg_is_keyframe := seg_is_keyframe s; seg_track_id := track_of (seg_media_type s) |}.

Lemma media_type_content t : media_type_of (content_type_of t) = t.
Proof. by destruct t. Qed.

Lemma from_chunk_done {PeerId} (c : StreamChunk PeerId) : 0 <= chunk_timestamp c ->
  (from_chunk c = Panic <-> u64_max < chunk_timestamp c * 1000) /\
  (chunk_timestamp c * 1000 <= u64_max -> from_chunk c = Done
    {| seg_stream_id := chunk_stream_id c; seg_sequence := chunk_sequence c; pts_us := chunk_timestamp c * 1000;
       duration_us := 0; seg_media_type := media_type_of (content_type c); seg_data := chunk_data c;
       seg_is_keyframe := chunk_is_keyframe c; seg_track_id := track_of (media_type_of (content_type c)) |}).
Proof.
  intros H0. unfold from_chunk, mul_u64. split; [|intros H; by rewrite checked_done by lia].
  destruct (Z.le_gt_cases (chunk_timestamp c * 1000) u64_max).
  - rewrite checked_done by lia. cbn. split; [done|lia].
  - rewrite checked_panic by lia. cbn. split; [lia|done].
Qed.

(** Segments and chunks convert into each other. A segment comes back from its
    chunk with its time cut to milliseconds and its duration lost; a chunk whose
    content type is one of the four the code writes comes back as it was, its
    source dropped; and the conversion of a chunk panics exactly when its time
    stamp in microseconds exceeds 64 bits, which a peer can send. *)
Theorem chunk_conversions {PeerId} :
  (forall s id, is_u64 (pts_us s) -> from_chunk (to_overlay_chunk (PeerId := PeerId) s id) = Done (through_chunk s)) /\
  (forall (c : StreamChunk PeerId) t, content_type c = content_type_of t -> is_u64 (chunk_timestamp c * 1000) ->
    chunk_source c = None -> exists s, from_chunk c = Done s /\ to_overlay_chunk s (chunk_id c) = c) /\
  (forall c : StreamChunk PeerId, 0 <= chunk_timestamp c ->
    (from_chunk c = Panic <-> u64_max < chunk_timestamp c * 1000)).
Proof.
  unfold is_u64. split_and!.
  - intros s id Hp. pose proof (Z.div_mod (pts_us s) 1000 ltac:(lia)). pose proof (Z.mod_pos_bound (pts_us s) 1000 ltac:(lia)).
    destruct (from_chunk_done (to_overlay_chunk (PeerId := PeerId) s id)) as [_ Hd]; [cbn; lia|].
    rewrite Hd by (cbn; lia). cbn. by rewrite media_type_content.
  - intros c t Ht Hts Hs. eexists. split; [by apply from_chunk_done; lia|]. rewrite Ht, media_type_content.
    unfold to_overlay_chunk. cbn. rewrite Z.div_mul by lia. destruct c; cbn in *. by subst.
  - intros c H0. by apply from_chunk_done.
Qed.

(** *** The wire *)

Section Wire.
Context `{Blake3}.

Lemma from_u8_to_u8 t : from_u8 (to_u8 t) = Some t.
Proof. by destruct t. Qed.

Lemma segment_of_wire_of_segment s : segment_of_wire (wire_of_segment s) = s.
Proof. unfold segment_of_wire. cbn. rewrite from_u8_to_u8. by destruct s. Qed.

Lemma wire_of_segment_valid s : verify_integrity (wire_of_segment s) = true /\
  is_compatible (wire_of_segment s) = true /\ media_type_enum (wire_of_segment s) = Some (seg_media_type s) /\
  zlen (wire_hash (wire_of_segment s)) = 16.
Proof.
  split_and!; [by apply bool_decide_eq_true|done|apply from_u8_to_u8|].
  cbn. unfold compute_content_hash. apply zlen_ztake. rewrite length_blake3. lia.
Qed.

(** C38: A segment survives the network: the bytes it is sent as decode to a wire
    segment of a supported version and a known media type whose hash matches
    its data, and that converts back to the same segment; batches do as well. *)
Theorem wire_roundtrip `{!Bincode WireSegment, !Bincode WireSegmentBatch} :
  (forall s data, to_wire_bytes s = Some data -> exists w, bin_deserialize data = Some w /\
     verify_integrity w = true /\ is_compatible w = true /\ media_type_enum w = Some (seg_media_type s) /\
     segment_of_wire w = s) /\
  (forall ss data, bin_serialize (batch_from_segments ss) = Some data -> exists b, bin_deserialize data = Some b /\
     into_segments b = ss).
Proof.
  split.
  - intros s data Hs. exists (wire_of_segment s). destruct (wire_of_segment_valid s) as (? & ? & ? & _).
    split_and!; [by apply bin_roundtrip|done..|apply segment_of_wire_of_segment].
  - intros ss data Hs. eexists. split; [by apply bin_roundtrip|]. unfold into_segments. cbn. rewrite map_map.
    rewrite <- (map_id ss) at 2. apply map_ext. apply segment_of_wire_of_segment.
Qed.
End Wire.

(** ** Witnesses *)

Lemma builder_numbers_witness :
  exists made b, for_each serve [ReqVideo 0 40 [1] true; ReqAudio 0 20 [2]; ReqVideo 40 40 [3] false] (new_builder [7], [])
    = Done (b, made) /\ length made = 3%nat /\
    made !! 2%nat = Some (video [7] 1 40 40 [3] false).
Proof.
  destruct (builder_numbers [7] [ReqVideo 0 40 [1] true; ReqAudio 0 20 [2]; ReqVideo 40 40 [3] false] ltac:(vm_compute; done))
    as (made & b & H1 & H2 & H3).
  exists made, b. split_and!; [exact H1|exact H2|]. by apply (H3 2%nat (ReqVideo 40 40 [3] false)).
Defined.

Definition demo_generated : Mp4Parser * list MseSegment :=
  match generate_mse_segments demo_regular with
  | Done (self, ROk mse) => (self, mse)
  | _ => (demo_regular, [])
  end.

Lemma generate_stream_segments_spec_witness :
  exists segments, generate_stream_segments demo_regular [7] = Done (fst demo_generated, ROk segments) /\
    length segments = length (snd demo_generated) /\
    exists s, segments !! 1%nat = Some s /\ seg_sequence s = 1 /\ seg_media_type s = Video.
Proof.
  destruct (generate_stream_segments_spec demo_regular (fst demo_generated) (snd demo_generated) [7]) as (segs & H1 & H2 & H3).
  - vm_compute. reflexivity.
  - apply list.Forall_forall. intros m Hm.
    assert (Hb : forallb (fun m => (0 <=? default 0 (ms_timestamp m)) && (default 0 (ms_timestamp m) <? 1000000)
      && (0 <=? default 0 (ms_duration m)) && (default 0 (ms_duration m) <? 1000000)) (snd demo_generated) = true)
      by (vm_compute; reflexivity).
    rewrite forallb_forall in Hb. specialize (Hb m (proj1 (list_elem_of_In _ _) Hm)).
    unfold times_fit, is_u64, u64_max. blia.
  - exists segs. split_and!; [exact H1|exact H2|]. destruct (snd demo_generated !! 1%nat) as [m|] eqn:E; [|vm_compute in E; discriminate].
    exists (unified [7] 1 m). split_and!; [by apply (H3 1%nat)|reflexivity|].
    vm_compute in E. injection E as <-. reflexivity.
Defined.

Lemma chunk_conversions_witness :
  from_chunk (to_overlay_chunk (PeerId := positive) (video [7] 3 1234567 40000 [1] true) 9)
    = Done (through_chunk (video [7] 3 1234567 40000 [1] true)) /\
  from_chunk (PeerId := positive) {| chunk_id := 0; chunk_stream_id := [7]; chunk_data := []; chunk_timestamp := u64_max;
    chunk_sequence := 0; content_type := str "video"; chunk_is_keyframe := false; chunk_source := None |} = Panic.
Proof.
  destruct (chunk_conversions (PeerId := positive)) as (H1 & _ & H3). split.
  - apply H1. vm_compute. split; discriminate.
  - apply H3; vm_compute; [discriminate|reflexivity].
Defined.

(** A hash and an encoding to instantiate the interfaces with. *)
#[local, program] Instance demo_blake3 : Blake3 := {| blake3 data := replicate 32 (zlen data) |}.
Next Obligation. done. Qed.

Definition demo_encode (w : WireSegment) : bytes :=
  [version w; wire_sequence w; wire_pts_us w; wire_duration_us w; wire_media_type w; wire_track_id w;
   if wire_is_keyframe w then 1 else 0; zlen (wire_stream_id w); zlen (wire_hash w)]
  ++ wire_stream_id w ++ wire_hash w ++ wire_data w.

Definition demo_decode (l : bytes) : option WireSegment :=
  match l with
  | v :: s :: p :: d :: m :: t :: k :: n :: h :: rest =>
      Some {| version := v; wire_stream_id := ztake n rest; wire_sequence := s; wire_pts_us := p; wire_duration_us := d;
              wire_media_type := m; wire_track_id := t; wire_is_keyframe := k =? 1;
              wire_hash := ztake h (zdrop n rest); wire_data := zdrop h (zdrop n rest) |}
  | _ => None
  end.

Lemma demo_decode_encode w : demo_decode (demo_encode w) = Some w.
Proof.
  unfold demo_encode. cbn [app demo_decode]. rewrite !zdrop_app_exact, !ztake_app_exact.
  by destruct w as [? ? ? ? ? ? ? [] ? ?].
Qed.

#[local, program] Instance demo_bincode : Bincode WireSegment :=
  {| bin_serialize w := Some (demo_encode w); bin_deserialize := demo_decode |}.
Next Obligation. intros w data [= <-]. apply demo_decode_encode. Qed.

Fixpoint demo_decode_all (n : nat) (l : bytes) : option (list WireSegment) :=
  match n, l with
  | O, _ => Some []
  | S n, len :: l => w ← demo_decode (ztake len l); ws ← demo_decode_all n (zdrop len l); Some (w :: ws)
  | S _, [] => None
  end.

Lemma demo_decode_all_encode ws :
  demo_decode_all (length ws) (concat (map (fun w => zlen (demo_encode w) :: demo_encode w) ws)) = Some ws.
Proof.
  induction ws as [|w ws IH]; [done|]. cbn [length map concat app demo_decode_all].
  rewrite ztake_app_exact, zdrop_app_exact, demo_decode_encode. cbn -[demo_encode zlen]. by rewrite IH.
Qed.

Definition demo_encode_batch (b : WireSegmentBatch) : bytes :=
  batch_version b :: zlen (batch_segments b)
    :: concat (map (fun w => zlen (demo_encode w) :: demo_encode w) (batch_segments b)).

Definition demo_decode_batch (l : bytes) : option WireSegmentBatch :=
  match l with
  | v :: n :: l => ws ← demo_decode_all (Z.to_nat n) l; Some {| batch_version := v; batch_segments := ws |}
  | _ => None
  end.

#[local, program] Instance demo_bincode_batch : Bincode WireSegmentBatch :=
  {| bin_serialize b := Some (demo_encode_batch b); bin_deserialize := demo_decode_batch |}.
Next Obligation.
  intros [v ws] data [= <-]. unfold demo_decode_batch, demo_encode_batch. cbn [batch_version batch_segments].
  unfold zlen at 1. by rewrite Nat2Z.id, demo_decode_all_encode.
Qed.

Lemma wire_roundtrip_witness :
  let s := video [7] 3 1234567 40000 [1] true in
  exists w, bin_deserialize (demo_encode (wire_of_segment s)) = Some w /\
    verify_integrity w = true /\ is_compatible w = true /\ media_type_enum w = Some Video /\ segment_of_wire w = s.
Proof. destruct wire_roundtrip as [H _]. exact (H (video [7] 3 1234567 40000 [1] true) _ eq_refl). Defined.
