(* ===== verification/PubSub.v ===== *)
(** * Publish and subscribe

    Models [core/src/pubsub/]: the messages of [message.rs], the validators of
    [validation.rs], and the subscriptions and local publication of
    [gossipsub.rs]. Monotonic times are nanoseconds and times of day
    milliseconds; both are arguments. The text of peer identifiers and of JSON
    values, [hex], the hash of [blake3] and the encoding of [bincode] are
    interfaces. *)

From stdpp Require Import sorting.
From S2P Require Import Prelude Rust Format Hash Segment.

#[local] Open Scope Z_scope.

Inductive ValidationResult : Type := Accept | Reject | Pending | Ignore.

#[export] Instance ValidationResult_eq_dec : EqDecision ValidationResult.
Proof. solve_decision. Defined.

Abbreviation TopicId := rstring.

Inductive MessageType : Type := Data | Control | MetadataMessage | MediaChunk | Announcement.

(** [to_string] of the types that belong to other packages. *)
Class Text (A : Type) : Type := to_text : A -> rstring.

Section PubSub.
Context {PeerId Json : Type} `{!Text PeerId, !Text Json}.

(** ** Messages *)

Inductive MessagePayload : Type :=
| Binary (data : bytes)
| TextPayload (text : rstring)
| JsonPayload (json : Json).

Definition as_bytes (self : MessagePayload) : bytes :=
  match self with Binary data => data | TextPayload text => text | JsonPayload json => to_text json end.

Definition payload_size (self : MessagePayload) : Z :=
  match self with Binary data => zlen data | TextPayload text => zlen text | JsonPayload json => zlen (to_text json) end.

Record Message : Type := {
  msg_id : rstring;
  topic : TopicId;
  publisher : option rstring;
  message_type : MessageType;
  payload : MessagePayload;
  msg_sequence : option Z;
  timestamp : Z;
  ttl : Z;
  headers : gmap rstring rstring;
}.

Definition generate_message_id `{Blake3, Hex} (topic : TopicId) (data : bytes) (timestamp : Z) : rstring :=
  hex_encode (ztake 16 (blake3 (topic ++ data ++ be_bytes 8 timestamp))).

Definition binary `{Blake3, Hex} (topic : TopicId) (data : bytes) (now_ms : Z) : Message :=
  {| msg_id := generate_message_id topic data now_ms; topic := topic; publisher := None; message_type := Data;
     payload := Binary data; msg_sequence := None; timestamp := now_ms; ttl := 0; headers := ∅ |}.

Definition is_expired (self : Message) (now_ms : Z) : exec bool :=
  if ttl self =? 0 then Done false
  else let! deadline := add_u64 (timestamp self) (ttl self) in Done (deadline <? now_ms).

Definition size `{!HashOrder rstring} (self : Message) : Z :=
  32 + payload_size (payload self)
  + fold_left (fun acc '(k, v) => acc + (zlen k + zlen v)) (map_iter (headers self)) 0.

(** ** Validators *)

(** The trait. A validator keeps its state behind locks, which [validate]
    returns changed; [now] and [now_ms] are the clocks it reads. *)
Class MessageValidator (V : Type) : Type := {
  validate : V -> Message -> option PeerId -> Z -> Z -> exec (V * ValidationResult);
  async_validate : V -> Message -> option PeerId -> Z -> Z -> exec (V * ValidationResult);
}.

(** *** The basic validator *)

Record TopicValidationRules : Type := {
  rule_max_message_size : option Z;
  allowed_publishers : list PeerId;
  validation_required : bool;
}.

Record BasicValidator : Type := {
  max_message_size : Z;
  basic_max_messages_per_second : Z;
  topic_rules : gmap TopicId TopicValidationRules;
}.

Definition new_basic_validator : BasicValidator :=
  {| max_message_size := 1024 * 1024; basic_max_messages_per_second := 100; topic_rules := ∅ |}.

Definition get_max_message_size (self : BasicValidator) (topic_id : TopicId) : Z :=
  match topic_rules self !! topic_id with
  | Some rules => match rule_max_message_size rules with Some size => size | None => max_message_size self end
  | None => max_message_size self
  end.

Definition is_publisher_allowed (self : BasicValidator) (topic_id : TopicId) (publisher : rstring) : bool :=
  match topic_rules self !! topic_id with
  | Some rules =>
      match allowed_publishers rules with
      | [] => true
      | allowed => existsb (fun p => str_eqb (to_text p) publisher) allowed
      end
  | None => true
  end.

Definition basic_validate `{!HashOrder rstring} (self : BasicValidator) (message : Message) (now_ms : Z)
  : exec ValidationResult :=
  if get_max_message_size self (topic message) <? size message then Done Reject
  else
    let! expired := is_expired message now_ms in
    if expired : bool then Done Ignore
    else
      match publisher message with
      | Some p => Done (if is_publisher_allowed self (topic message) p then Accept else Reject)
      | None => Done Accept
      end.

#[export] Instance basic_validator `{!HashOrder rstring} : MessageValidator BasicValidator := {|
  validate self message source now now_ms := let! r := basic_validate self message now_ms in Done (self, r);
  async_validate self message source now now_ms := Done (self, Accept);
|}.

(** *** The validator of stream data *)

Record StreamDataValidator : Type := {
  max_messages_per_second : Z;
  rate_tracker : gmap rstring (Z * Z);
  sequence_tracker : gmap rstring Z;
}.

Definition new_stream_data_validator (max_messages_per_second : Z) : StreamDataValidator :=
  {| max_messages_per_second := max_messages_per_second; rate_tracker := ∅; sequence_tracker := ∅ |}.

Definition is_stream_data_topic (topic : TopicId) : bool :=
  starts_with topic (str "stream/") && ends_with topic (str "/data").

Definition check_rate_limit (max : Z) (tracker : gmap rstring (Z * Z)) (source_id : rstring) (now : Z)
  : gmap rstring (Z * Z) * bool :=
  let entry := default (0, now) (tracker !! source_id) in
  if 1 <=? seconds_since now (snd entry) then (<[source_id := (1, now)]> tracker, true)
  else
    let count := fst entry + 1 in
    (<[source_id := (count, snd entry)]> tracker, count <=? max).

Definition check_sequence (tracker : gmap rstring Z) (stream_key : rstring) (sequence : Z)
  : exec (gmap rstring Z * ValidationResult) :=
  match tracker !! stream_key with
  | Some last_seq =>
      if sequence =? last_seq then Done (tracker, Ignore)
      else if sequence <? last_seq then Done (<[stream_key := sequence]> tracker, Accept)
      else
        let! next := add_u64 last_seq 1 in
        Done (<[stream_key := sequence]> tracker, Accept)
  | None => Done (<[stream_key := sequence]> tracker, Accept)
  end.

Definition stream_key `{Hex} (wire : WireSegment) : rstring :=
  hex_encode (wire_stream_id wire) ++ str ":" ++ decimal (wire_track_id wire).

(** Who a message counts for: the peer it came from, or else who it says
    published it. *)
Definition source_id (message : Message) (source : option PeerId) : rstring :=
  match source with
  | Some p => to_text p
  | None => default [] (publisher message)
  end.

(** Step by step: the topic, the rate, the structure, then the sequence. *)
Definition check_segment `{Hex, !Bincode WireSegment} (self : StreamDataValidator) (data : bytes)
  : exec (StreamDataValidator * ValidationResult) :=
  match bin_deserialize data with
  | None => Done (self, Reject)
  | Some wire =>
      if negb (is_compatible wire) then Done (self, Reject)
      else
        match media_type_enum wire with
        | None => Done (self, Reject)
        | Some _ =>
            let! r := check_sequence (sequence_tracker self) (stream_key wire) (wire_sequence wire) in
            Done ({| max_messages_per_second := max_messages_per_second self; rate_tracker := rate_tracker self;
                     sequence_tracker := fst r |}, snd r)
        end
  end.

Definition stream_validate `{Hex, !Bincode WireSegment} (self : StreamDataValidator) (message : Message)
    (source : option PeerId) (now : Z) : exec (StreamDataValidator * ValidationResult) :=
  if negb (is_stream_data_topic (topic message)) then Done (self, Accept)
  else
    let id := source_id message source in
    let '(tracker, ok) :=
      match id with
      | [] => (rate_tracker self, true)
      | _ => check_rate_limit (max_messages_per_second self) (rate_tracker self) id now
      end in
    let self := {| max_messages_per_second := max_messages_per_second self; rate_tracker := tracker;
                   sequence_tracker := sequence_tracker self |} in
    if ok : bool then check_segment self (as_bytes (payload message)) else Done (self, Reject).

#[export] Instance stream_data_validator `{Hex, !Bincode WireSegment} : MessageValidator StreamDataValidator := {|
  validate self message source now now_ms := stream_validate self message source now;
  async_validate self message source now now_ms := Done (self, Accept);
|}.

(** *** Composition *)

(** [Box<dyn MessageValidator>]. *)
Inductive DynValidator : Type := Dyn (V : Type) (_ : MessageValidator V) (v : V).

Definition dyn_validate (d : DynValidator) (message : Message) (source : option PeerId) (now now_ms : Z)
  : exec (DynValidator * ValidationResult) :=
  match d with
  | Dyn V Iv v => let! r := validate v message source now now_ms in Done (Dyn V Iv (fst r), snd r)
  end.

Definition dyn_async_validate (d : DynValidator) (message : Message) (source : option PeerId) (now now_ms : Z)
  : exec (DynValidator * ValidationResult) :=
  match d with
  | Dyn V Iv v => let! r := async_validate v message source now now_ms in Done (Dyn V Iv (fst r), snd r)
  end.

(** The loop over the validators; [pending] is the flag set so far. *)
Fixpoint composite_loop (vs : list DynValidator) (pending : bool) (message : Message) (source : option PeerId)
    (now now_ms : Z) : exec (list DynValidator * ValidationResult) :=
  match vs with
  | [] => Done ([], if pending then Pending else Accept)
  | v :: vs =>
      let! r := dyn_validate v message source now now_ms in
      match snd r with
      | Reject => Done (fst r :: vs, Reject)
      | Ignore => Done (fst r :: vs, Ignore)
      | Pending => let! rest := composite_loop vs true message source now now_ms in Done (fst r :: fst rest, snd rest)
      | Accept => let! rest := composite_loop vs pending message source now now_ms in Done (fst r :: fst rest, snd rest)
      end
  end.

Definition composite_validate (validators : list DynValidator) (message : Message) (source : option PeerId)
    (now now_ms : Z) : exec (list DynValidator * ValidationResult) :=
  composite_loop validators false message source now now_ms.

(** Each validator validates again before its asynchronous part. *)
Fixpoint composite_async_validate (vs : list DynValidator) (message : Message) (source : option PeerId)
    (now now_ms : Z) : exec (list DynValidator * ValidationResult) :=
  match vs with
  | [] => Done ([], Accept)
  | v :: vs =>
      let! r := dyn_validate v message source now now_ms in
      match snd r with
      | Reject => Done (fst r :: vs, Reject)
      | Ignore => Done (fst r :: vs, Ignore)
      | _ =>
          let! r := dyn_async_validate (fst r) message source now now_ms in
          match snd r with
          | Reject => Done (fst r :: vs, Reject)
          | Ignore => Done (fst r :: vs, Ignore)
          | _ => let! rest := composite_async_validate vs message source now now_ms in Done (fst r :: fst rest, snd rest)
          end
      end
  end.

(** ** The service *)

Record GossipSubService : Type := {
  max_subscriptions : Z;
  topics : gset TopicId;
  validator : list DynValidator;
  active_subscriptions : Z;
}.

(** The validators every service has. *)
Definition default_validators `{!HashOrder rstring, Hex, !Bincode WireSegment} : list DynValidator :=
  [Dyn BasicValidator _ new_basic_validator; Dyn StreamDataValidator _ (new_stream_data_validator 100)].

Definition new_service `{!HashOrder rstring, Hex, !Bincode WireSegment} (max_subscriptions : Z) : GossipSubService :=
  {| max_subscriptions := max_subscriptions; topics := ∅; validator := default_validators; active_subscriptions := 0 |}.

Inductive PubSubError : Type := SubscriptionError | ValidationError.

Definition with_topics (self : GossipSubService) (v : gset TopicId) : GossipSubService :=
  {| max_subscriptions := max_subscriptions self; topics := v; validator := validator self;
     active_subscriptions := Z.of_nat (base.size v) |}.

Definition subscribe (self : GossipSubService) (topic : TopicId) : GossipSubService * result unit PubSubError :=
  if bool_decide (topic ∈ topics self) then (self, ROk tt)
  else if max_subscriptions self <=? Z.of_nat (base.size (topics self)) then (self, RErr SubscriptionError)
  else (with_topics self ({[topic]} ∪ topics self), ROk tt).

Definition unsubscribe (self : GossipSubService) (topic : TopicId) : GossipSubService * result unit PubSubError :=
  if bool_decide (topic ∈ topics self) then (with_topics self (topics self ∖ {[topic]}), ROk tt) else (self, ROk tt).

Definition publish_message (self : GossipSubService) (message : Message) (now now_ms : Z)
  : exec (GossipSubService * result rstring PubSubError) :=
  let! r := composite_validate (validator self) message None now now_ms in
  let self := {| max_subscriptions := max_subscriptions self; topics := topics self; validator := fst r;
                 active_subscriptions := active_subscriptions self |} in
  Done (self, match snd r with
              | Accept | Pending => ROk (msg_id message)
              | Reject | Ignore => RErr ValidationError
              end).

Definition publish `{Blake3, Hex} (self : GossipSubService) (topic : TopicId) (data : bytes) (now now_ms : Z)
  : exec (GossipSubService * result rstring PubSubError) :=
  publish_message self (binary topic data now_ms) now now_ms.
End PubSub.

(** ** Properties of the rate limit *)

(** The decisions on a run of messages, given by source and time. *)
Fixpoint rate_run (max : Z) (tracker : gmap rstring (Z * Z)) (ms : list (rstring * Z)) : list bool :=
  match ms with
  | [] => []
  | (s, t) :: ms => let '(tracker, ok) := check_rate_limit max tracker s t in ok :: rate_run max tracker ms
  end.

(** The same for one source, whose entry is all the run depends on. *)
Definition rate_step (max : Z) (entry : option (Z * Z)) (t : Z) : (Z * Z) * bool :=
  let e := default (0, t) entry in
  if 1 <=? seconds_since t (snd e) then ((1, t), true) else ((fst e + 1, snd e), fst e + 1 <=? max).

Fixpoint source_run (max : Z) (entry : option (Z * Z)) (ts : list Z) : list bool :=
  match ts with
  | [] => []
  | t :: ts => let '(e, ok) := rate_step max entry t in ok :: source_run max (Some e) ts
  end.

Definition from_source (s : rstring) (ms : list (rstring * Z)) : list Z :=
  map snd (List.filter (fun m => str_eqb (fst m) s) ms).

(** The decisions on the messages of one source. *)
Definition decisions (s : rstring) (ms : list (rstring * Z)) (oks : list bool) : list bool :=
  map snd (List.filter (fun p => str_eqb (fst (fst p)) s) (combine ms oks)).

Definition count_true (l : list bool) : Z := zlen (List.filter (fun b => b) l).

Lemma check_rate_limit_step max tracker s t :
  check_rate_limit max tracker s t =
  (<[s := fst (rate_step max (tracker !! s) t)]> tracker, snd (rate_step max (tracker !! s) t)).
Proof. unfold check_rate_limit, rate_step. by case_match. Qed.

Lemma decisions_run max tracker s ms :
  decisions s ms (rate_run max tracker ms) = source_run max (tracker !! s) (from_source s ms).
Proof.
  revert tracker. induction ms as [|[x t] ms IH]; intros tracker; [done|]. cbn [rate_run].
  rewrite check_rate_limit_step. unfold decisions, from_source. cbn [combine List.filter fst].
  destruct (str_eqb_spec x s) as [->|Hne]; cbn [map snd source_run].
  - destruct (rate_step max (tracker !! s) t) as [e ok]. cbn [fst snd]. f_equal. fold (decisions s ms (rate_run max (<[s := e]> tracker) ms)).
    rewrite IH. by rewrite lookup_insert_eq.
  - rewrite <- (lookup_insert_ne tracker x s (fst (rate_step max (tracker !! x) t))) by done. by rewrite <- IH.
Qed.

Lemma le_last t ts : Forall (Z.le t) ts -> t <= default t (last ts).
Proof.
  intros H. destruct (last ts) as [x|] eqn:E; cbn; [|lia]. rewrite list.Forall_forall in H. apply H.
  apply last_Some in E as [l ->]. set_solver.
Qed.

(** A window that has seen [c] messages lets through what is left of the limit,
    and every further second at most one limit. *)
Lemma source_run_bound max c w ts : StronglySorted Z.le (w :: ts) ->
  count_true (source_run max (Some (c, w)) ts)
  <= Z.max 0 (max - c) + Z.max 1 max * ((default w (last ts) - w) / second).
Proof.
  unfold second. revert c w. induction ts as [|t ts IH]; intros c w Hs.
  { cbn. rewrite Z.sub_diag, Z.div_0_l by lia. change (count_true []) with 0. lia. }
  apply StronglySorted_inv in Hs as [Hst [Hwt Hw]%list.Forall_cons].
  pose proof (proj2 (StronglySorted_inv Hst)) as Ht%le_last.
  replace (default w (last (t :: ts))) with (default t (last ts)) by (rewrite last_cons; by destruct (last ts)).
  cbn [source_run]. unfold rate_step, seconds_since, second. change (default (0, t) (Some (c, w))) with (c, w); cbn [fst snd]. rewrite (Z.max_r 0 (t - w)) by lia.
  destruct (Z.leb_spec 1 ((t - w) / 1000000000)) as [H1|H1].
  - specialize (IH 1 t Hst). unfold count_true in *. cbn [List.filter]. rewrite zlen_cons.
    assert (1 + (default t (last ts) - t) / 1000000000 <= (default t (last ts) - w) / 1000000000).
    { rewrite <- Z.div_add_l by lia. apply Z.div_le_mono; [lia|].
      pose proof (Z.mul_div_le (t - w) 1000000000 ltac:(lia)). lia. }
    nia.
  - assert (Hsw : StronglySorted Z.le (w :: ts)) by (constructor; [by apply StronglySorted_inv in Hst as [? _]|done]).
    specialize (IH (c + 1) w Hsw). unfold count_true in *. cbn [List.filter].
    assert (Hmono : (default w (last ts) - w) / 1000000000 <= (default t (last ts) - w) / 1000000000).
    { apply Z.div_le_mono; [lia|]. destruct (last ts); cbn in *; lia. }
    destruct (Z.leb_spec (c + 1) max); [rewrite zlen_cons|]; nia.
Qed.

Lemma filter_count_mono {A} (p q : A -> bool) l : (forall x, p x = true -> q x = true) ->
  zlen (List.filter p l) <= zlen (List.filter q l).
Proof.
  intros H. induction l as [|x l IH]; [done|]. cbn. specialize (H x).
  destruct (p x), (q x); rewrite ?zlen_cons; try lia; by specialize (H eq_refl).
Qed.

(** A refusal means that the window is full of earlier messages. *)
Lemma source_run_refusal max entry hist ts i t :
  StronglySorted Z.le ts ->
  (forall c w, entry = Some (c, w) -> Forall (Z.le w) ts /\ c <= zlen (List.filter (fun x => w <=? x) hist)) ->
  ts !! i = Some t -> source_run max entry ts !! i = Some false ->
  max <= zlen (List.filter (fun x => t - second <? x) (hist ++ take i ts)).
Proof.
  revert entry hist i. induction ts as [|x ts IH]; intros entry hist i Hs He Ht Hf; [done|].
  apply StronglySorted_inv in Hs as [Hs Hx].
  assert (Hd : let e := default (0, x) entry in snd e <= x /\ Forall (Z.le (snd e)) ts /\
    fst e <= zlen (List.filter (fun y => snd e <=? y) hist)).
  { destruct entry as [[c w]|]; cbn; [|split_and!; [lia|done|apply zlen_nonneg]].
    destruct (He c w eq_refl) as [[? ?]%list.Forall_cons ?]. done. }
  destruct Hd as (Hwx & Hw & Hc). cbn [source_run] in Hf. unfold rate_step in Hf.
  destruct (default (0, x) entry) as [c w]. cbn [fst snd] in *. unfold seconds_since, second in *.
  rewrite (Z.max_r 0 (x - w)) in Hf by lia.
  destruct (Z.leb_spec 1 ((x - w) / 1000000000)) as [H1|H1]; (destruct i as [|i]; cbn in Ht, Hf; [injection Ht as <-|]).
  - done.
  - change (hist ++ take (S i) (x :: ts)) with (hist ++ [x] ++ take i ts). rewrite (app_assoc hist [x]). apply (IH (Some (1, x)) (hist ++ [x]) i); [done| |done..].
    intros c' w' [= <- <-]. split; [done|]. rewrite List.filter_app, zlen_app. cbn [List.filter].
    rewrite (proj2 (Z.leb_le x x)) by lia. change (zlen [x]) with 1. pose proof (zlen_nonneg (List.filter (fun y => x <=? y) hist)). lia.
  - injection Hf as Hf%Z.leb_gt. cbn [take]. rewrite app_nil_r. transitivity c; [lia|]. etransitivity; [exact Hc|].
    apply filter_count_mono. intros y Hy%Z.leb_le. apply Z.ltb_lt.
    pose proof (Z.div_mod (x - w) 1000000000 ltac:(lia)). pose proof (Z.mod_pos_bound (x - w) 1000000000 ltac:(lia)). lia.
  - change (hist ++ take (S i) (x :: ts)) with (hist ++ [x] ++ take i ts). rewrite (app_assoc hist [x]). apply (IH (Some (c + 1, w)) (hist ++ [x]) i); [done| |done..].
    intros c' w' [= <- <-]. split; [done|]. rewrite List.filter_app, zlen_app. cbn [List.filter].
    rewrite (proj2 (Z.leb_le w x)) by lia. change (zlen [x]) with 1. lia.
Qed.

(** The rate limit, for the messages of one source among any others and in the
    order of their times. From the first to the last message, each second begun
    lets at most the limit through (or one message, if the limit is zero). And
    nothing is refused early: when a message is refused, at least as many
    messages as the limit came from the same source within the second before. *)
Theorem rate_limit_bounds max s ms first :
  let ts := from_source s ms in
  let oks := decisions s ms (rate_run max ∅ ms) in
  StronglySorted Z.le ts -> head ts = Some first ->
  count_true oks <= Z.max 1 max * ((default first (last ts) - first) / second + 1) /\
  (forall i t, ts !! i = Some t -> oks !! i = Some false ->
     max <= zlen (List.filter (fun x => t - second <? x) (take i ts))).
Proof.
  intros ts oks Hs Hh. subst oks. rewrite decisions_run, lookup_empty. fold ts. split.
  - destruct ts as [|t ts]; [done|]. injection Hh as ->.
    pose proof (source_run_bound max 0 first (first :: ts)) as Hb.
    assert (Hss : StronglySorted Z.le (first :: first :: ts)).
    { constructor; [done|]. apply StronglySorted_inv in Hs as [_ ?]. constructor; [lia|done]. }
    specialize (Hb Hss). change (source_run max (Some (0, first)) (first :: ts)) with (source_run max None (first :: ts)) in Hb.
    nia.
  - intros i t Ht Hf. by apply (source_run_refusal max None [] ts i t).
Qed.

(** ** Properties of the sequence check *)

Section Sequences.
Context `{HX : Hex}.

(** The part of a wire segment that orders it: its stream, its track, its
    number. *)
Definition well_typed (w : WireSegment) : Prop :=
  Forall is_byte (wire_stream_id w) /\ 0 <= wire_track_id w <= u8_max /\ is_u64 (wire_sequence w).

Definition same_track (v w : WireSegment) : bool :=
  bool_decide (wire_stream_id v = wire_stream_id w) && (wire_track_id v =? wire_track_id w).

(** The keys of the tracker tell streams and tracks apart. *)
Lemma stream_key_inj v w : well_typed v -> well_typed w ->
  stream_key v = stream_key w <-> same_track v w = true.
Proof.
  intros (Hv & Htv & _) (Hw & Htw & _). unfold same_track, stream_key. rewrite andb_true_iff, bool_decide_eq_true, Z.eqb_eq.
  split; [|by intros [-> ->]]. change (str ":") with [58]. unfold u8_max in *. intros H.
  assert (Hsplit : forall a b c d : rstring, 58 ∉ a -> 58 ∉ b -> a ++ [58] ++ c = b ++ [58] ++ d -> a = b /\ c = d).
  { intros a. induction a as [|x a IH]; intros [|y b] c d Ha Hb; cbn [app]; intros [= Heq].
    - done.
    - subst. by apply not_elem_of_cons in Hb as [? _].
    - subst. by apply not_elem_of_cons in Ha as [? _].
    - subst. apply not_elem_of_cons in Ha as [_ Ha], Hb as [_ Hb]. by destruct (IH b c d Ha Hb) as [-> ->]. }
  apply Hsplit in H as [H1 H2]; [|by apply hex_encode_free..].
  split; [by apply hex_encode_inj|apply decimal_inj; [unfold is_u64, u64_max; lia..|done]].
Qed.

(** What the validator does with a run of wire segments. *)
Fixpoint sequence_run (tracker : gmap rstring Z) (ws : list WireSegment) : exec (list ValidationResult) :=
  match ws with
  | [] => Done []
  | w :: ws =>
      let! r := check_sequence tracker (stream_key w) (wire_sequence w) in
      let! rest := sequence_run (fst r) ws in
      Done (snd r :: rest)
  end.

(** The segment that came last on the same track. *)
Definition previous (w : WireSegment) (before : list WireSegment) : option WireSegment :=
  last (List.filter (same_track w) before).

Definition sequence_verdict (before : list WireSegment) (w : WireSegment) : ValidationResult :=
  match previous w before with
  | Some p => if wire_sequence p =? wire_sequence w then Ignore else Accept
  | None => Accept
  end.

Definition tracks_sequences (tracker : gmap rstring Z) (before : list WireSegment) : Prop :=
  forall w, well_typed w -> tracker !! stream_key w = wire_sequence <$> previous w before.

Lemma check_sequence_spec tracker before w : tracks_sequences tracker before ->
  Forall well_typed before -> well_typed w ->
  exists tracker', check_sequence tracker (stream_key w) (wire_sequence w) = Done (tracker', sequence_verdict before w) /\
    tracks_sequences tracker' (before ++ [w]).
Proof.
  intros Ht Hb Hw. unfold check_sequence, sequence_verdict. rewrite (Ht w Hw).
  assert (Hnew : tracks_sequences (<[stream_key w := wire_sequence w]> tracker) (before ++ [w])).
  { intros v Hv. unfold previous. rewrite List.filter_app. cbn [List.filter].
    destruct (same_track v w) eqn:E.
    - rewrite last_snoc. apply stream_key_inj in E as ->; [|done..]. by rewrite lookup_insert_eq.
    - rewrite app_nil_r, lookup_insert_ne; [by apply Ht|]. intros Heq. symmetry in Heq.
      apply stream_key_inj in Heq; [congruence|done..]. }
  destruct (previous w before) as [p|] eqn:Ep; cbn [fmap option_fmap option_map]; [|by eexists].
  assert (Hp : well_typed p).
  { rewrite list.Forall_forall in Hb. apply Hb. unfold previous in Ep. apply last_Some in Ep as [l El].
    assert (Hin : p ∈ List.filter (same_track w) before) by (rewrite El; set_solver).
    by apply list_elem_of_In, List.filter_In in Hin as [Hin%list_elem_of_In _]. }
  rewrite (Z.eqb_sym (wire_sequence p)). destruct (Z.eqb_spec (wire_sequence w) (wire_sequence p)) as [Heq|Hne].
  - eexists. split; [done|]. intros v Hv. rewrite (Ht v Hv). unfold previous at 2. rewrite List.filter_app. cbn [List.filter].
    destruct (same_track v w) eqn:E; [|by rewrite app_nil_r]. rewrite last_snoc. cbn. rewrite Heq.
    assert (Hkey : stream_key v = stream_key w) by (by apply stream_key_inj).
    rewrite <- (Ht v Hv), Hkey, (Ht w Hw), Ep. done.
  - destruct (Z.ltb_spec (wire_sequence w) (wire_sequence p)); [by eexists|].
    destruct Hp as (_ & _ & Hp), Hw as (_ & _ & Hw). unfold is_u64, add_u64 in *. rewrite checked_done by lia. by eexists.
Qed.

(** Wire segments of any streams and tracks interleaved: the check never
    panics, at the largest sequence number either, and it ignores a segment
    exactly when the one before it on the same stream and track had the same
    number. Everything else is accepted, segments that arrive late included. *)
Theorem sequence_check_spec ws : Forall well_typed ws ->
  sequence_run ∅ ws = Done (imap (fun i w => sequence_verdict (take i ws) w) ws).
Proof.
  intros Hws. assert (Hgen : forall before tracker ws, tracks_sequences tracker before -> Forall well_typed before ->
    Forall well_typed ws ->
    sequence_run tracker ws = Done (imap (fun i w => sequence_verdict (before ++ take i ws) w) ws)).
  { clear ws Hws. intros before tracker ws. revert before tracker. induction ws as [|w ws IH]; intros before tracker Ht Hb Hws; [done|].
    apply list.Forall_cons in Hws as [Hw Hws].
    destruct (check_sequence_spec tracker before w Ht Hb Hw) as (tracker' & Hrun & Ht'). cbn [sequence_run].
    rewrite Hrun. cbn [exec_bind fst snd imap]. rewrite (IH (before ++ [w])); [|done|by apply Forall_app_2, Forall_singleton|done].
    cbn [exec_bind take]. rewrite app_nil_r. do 2 f_equal. apply imap_ext. intros i x _. cbn. by rewrite <- app_assoc. }
  apply (Hgen [] ∅); [|done..]. intros w _. apply lookup_empty.
Qed.

End Sequences.

(** A late segment moves the tracker back, so that what came before it can be
    replayed: of the numbers 5, 4, 5, 4 all are accepted. *)
Example replay_accepted :
  let w n := {| version := 2; wire_stream_id := [7]; wire_sequence := n; wire_pts_us := 0; wire_duration_us := 0;
                wire_media_type := 0; wire_track_id := 1; wire_is_keyframe := false; wire_hash := []; wire_data := [] |} in
  sequence_run (HX := lowercase_hex) ∅ [w 5; w 4; w 5; w 4] = Done [Accept; Accept; Accept; Accept].
Proof. reflexivity. Qed.

(** ** Properties of the service *)

Section Service.
Context {PeerId Json : Type} `{!Text PeerId, !Text Json, !HashOrder rstring, Hex, !Bincode WireSegment}.

#[local] Abbreviation Message := (Message (Json := Json)).
#[local] Abbreviation DynValidator := (DynValidator (PeerId := PeerId) (Json := Json)).
#[local] Abbreviation GossipSubService := (GossipSubService (PeerId := PeerId) (Json := Json)).

(** A fresh stream validator answers every message. *)
Lemma fresh_stream_validate max (m : Message) (source : option PeerId) now :
  exists v r, stream_validate (new_stream_data_validator max) m source now = Done (v, r).
Proof.
  unfold stream_validate. destruct (is_stream_data_topic (topic m)); cbn [negb]; [|by do 2 eexists].
  assert (Hseg : forall tracker, exists v r, check_segment {| max_messages_per_second := max; rate_tracker := tracker;
    sequence_tracker := ∅ |} (as_bytes (payload m)) = Done (v, r)).
  { intros tracker. unfold check_segment. destruct (bin_deserialize _) as [w|]; [|by do 2 eexists].
    destruct (is_compatible w); cbn [negb]; [|by do 2 eexists]. destruct (media_type_enum w); [|by do 2 eexists].
    unfold check_sequence. cbn [sequence_tracker]. rewrite lookup_empty. by do 2 eexists. }
  destruct (match source_id m source with [] => _ | _ => _ end) as [tracker []]; [apply Hseg|by do 2 eexists].
Qed.

(** Publishing a message through a fresh service panics exactly when the
    message is small enough to be examined and its time stamp and lifetime, both
    of which a peer chooses, add up to more than 64 bits. Publishing data, which
    makes the message itself, always returns. *)
Theorem publish_panics `{Blake3} k (m : Message) now now_ms :
  0 <= timestamp m -> 0 <= ttl m ->
  (publish_message (new_service k : GossipSubService) m now now_ms = Panic <->
     size m <= 1024 * 1024 /\ ttl m <> 0 /\ u64_max < timestamp m + ttl m) /\
  (forall t data, exists s r, publish (new_service k : GossipSubService) t data now now_ms = Done (s, r)).
Proof.
  intros Hts Httl.
  assert (Hrun : forall m' : Message, (exists r, basic_validate (PeerId := PeerId) new_basic_validator m' now_ms = Done r) ->
    exists s r, publish_message (new_service k : GossipSubService) m' now now_ms = Done (s, r)).
  { intros m' [r Hr]. unfold publish_message, composite_validate, new_service, default_validators. cbn [validator composite_loop dyn_validate validate basic_validator stream_data_validator].
    rewrite Hr. cbn [exec_bind fst snd]. destruct (fresh_stream_validate 100 m' None now) as (v & r' & Hv).
    destruct r; try (do 2 eexists; reflexivity); rewrite Hv; cbn [exec_bind fst snd]; destruct r'; by do 2 eexists. }
  assert (Hbasic : basic_validate (PeerId := PeerId) new_basic_validator m now_ms = Panic <->
    size m <= 1024 * 1024 /\ ttl m <> 0 /\ u64_max < timestamp m + ttl m).
  { unfold basic_validate, get_max_message_size. cbn [topic_rules new_basic_validator max_message_size]. rewrite lookup_empty.
    destruct (Z.ltb_spec (1024 * 1024) (size m)); [split; [done|lia]|]. unfold is_expired, add_u64.
    destruct (Z.eqb_spec (ttl m) 0); cbn [exec_bind]; [destruct (publisher m); (split; [done|lia])|].
    destruct (Z.le_gt_cases (timestamp m + ttl m) u64_max).
    - rewrite checked_done by lia. cbn [exec_bind]. split; [|lia]. destruct (_ <? now_ms); [done|]. by destruct (publisher m).
    - rewrite checked_panic by lia. split; [intros _; split_and!; lia|done]. }
  split.
  - rewrite <- Hbasic. split.
    + intros Hp. destruct (basic_validate _ m now_ms) as [r| |] eqn:E; [|done|].
      * destruct (Hrun m (ex_intro _ r E)) as (s & r' & Hr). congruence.
      * exfalso. revert E. unfold basic_validate, is_expired, add_u64, checked.
        destruct (_ <? _); [done|]. destruct (ttl m =? 0); cbn [exec_bind]; [by destruct (publisher m)|].
        destruct (_ && _); cbn [exec_bind]; [|done]. destruct (_ <? now_ms); [done|]. by destruct (publisher m).
    + intros Hp. unfold publish_message, composite_validate, new_service, default_validators.
      cbn [validator composite_loop dyn_validate validate basic_validator stream_data_validator]. by rewrite Hp.
  - intros t data. apply Hrun. unfold basic_validate. destruct (_ <? _); [by eexists|]. cbn [is_expired binary ttl publisher]. by eexists.
Qed.

(** Validating asynchronously validates once more first, so that a segment just
    accepted is taken for its own duplicate. *)
Lemma async_validation_ignores v v' (m : Message) now now_ms :
  is_stream_data_topic (topic m) = true -> publisher m = None ->
  stream_validate (PeerId := PeerId) v m None now = Done (v', Accept) ->
  exists vs, composite_async_validate [Dyn StreamDataValidator _ v' : DynValidator] m None now now_ms = Done (vs, Ignore).
Proof.
  intros Ht Hp Hv. cbn [composite_async_validate dyn_validate validate stream_data_validator].
  enough (Hagain : stream_validate (PeerId := PeerId) v' m None now = Done (v', Ignore)) by (rewrite Hagain; by eexists).
  revert Hv. unfold stream_validate, source_id. rewrite Ht, Hp. cbn [negb default]. unfold check_segment.
  destruct (bin_deserialize (as_bytes (payload m))) as [w|]; [|done].
  destruct (is_compatible w); cbn [negb]; [|done]. destruct (media_type_enum w); [|done].
  cbn [sequence_tracker]. unfold check_sequence at 1.
  assert (Hdone : forall tr, tr !! stream_key w = Some (wire_sequence w) ->
    check_sequence tr (stream_key w) (wire_sequence w) = Done (tr, Ignore)).
  { intros tr Htr. unfold check_sequence. by rewrite Htr, Z.eqb_refl. }
  assert (Hins : forall tr, (<[stream_key w := wire_sequence w]> tr : gmap rstring Z) !! stream_key w = Some (wire_sequence w))
    by (intros; apply lookup_insert_eq).
  destruct (sequence_tracker v !! stream_key w) as [last|]; cbn [exec_bind fst snd max_messages_per_second rate_tracker].
  - destruct (wire_sequence w =? last); [done|]. destruct (wire_sequence w <? last); cbn [exec_bind fst snd].
    + intros [= <-]. cbn [sequence_tracker]. by rewrite Hdone.
    + unfold add_u64, checked. destruct (_ && _); [|done]. cbn [exec_bind fst snd]. intros [= <-]. cbn [sequence_tracker]. by rewrite Hdone.
  - intros [= <-]. cbn [sequence_tracker]. by rewrite Hdone.
Qed.

(** A call on the subscriptions. *)
Definition subscription_step (self : GossipSubService) (op : bool * TopicId) : GossipSubService :=
  if fst op then fst (subscribe self (snd op)) else fst (unsubscribe self (snd op)).

(** The subscriptions stay within their limit and the metric counts them,
    whatever is subscribed and unsubscribed; and a subscription fails only for a
    new topic while the limit is reached. *)
Theorem subscription_limit k ops : 0 <= k ->
  let self := fold_left subscription_step ops (new_service k) in
  Z.of_nat (base.size (topics self)) <= k /\ active_subscriptions self = Z.of_nat (base.size (topics self)) /\
  forall t, snd (subscribe self t) = RErr SubscriptionError <->
    (t ∉ topics self) /\ Z.of_nat (base.size (topics self)) = k.
Proof.
  intros Hk self. subst self.
  set (Inv (s : GossipSubService) := Z.of_nat (base.size (topics s)) <= k /\ active_subscriptions s = Z.of_nat (base.size (topics s)) /\
    max_subscriptions s = k : Prop).
  assert (Hinv : Inv (fold_left subscription_step ops (new_service k))).
  { assert (H0 : Inv (new_service k)) by (split_and!; [exact Hk|done..]). revert H0. generalize (new_service k : GossipSubService) as s.
    induction ops as [|[add t] ops IH]; intros s Hs; [done|]. cbn [fold_left]. apply IH. destruct Hs as (Hsz & Ha & Hm).
    unfold subscription_step, subscribe, unsubscribe. cbn [fst snd]. destruct add.
    - case_bool_decide as Hin; [done|]. destruct (Z.leb_spec (max_subscriptions s) (Z.of_nat (base.size (topics s)))); [done|].
      unfold Inv. cbn [topics active_subscriptions max_subscriptions with_topics fst].
      rewrite size_union, size_singleton by set_solver. lia.
    - case_bool_decide as Hin; [|done]. unfold Inv. cbn [topics active_subscriptions max_subscriptions with_topics fst].
      pose proof (subseteq_size (topics s ∖ {[t]}) (topics s) ltac:(set_solver)). lia. }
  destruct Hinv as (Hsz & Ha & Hm). split_and!; [done..|]. intros t. unfold subscribe. rewrite Hm.
  case_bool_decide as Hin; [cbn; split; [done|by intros [? _]]|].
  destruct (Z.leb_spec k (Z.of_nat (base.size (topics (fold_left subscription_step ops (new_service k)))))); cbn;
    (split; [|done || lia]); [intros _; split; [done|lia]|done].
Qed.
End Service.

(** ** Witnesses *)

Section Witness.
#[local] Existing Instance demo_blake3.
#[local] Existing Instance demo_bincode.
#[local] Existing Instance lowercase_hex.
#[local] Existing Instance canonical_order.
#[local] Instance text_positive : Text positive := fun p => decimal (Zpos p).

Definition demo_messages : list (rstring * Z) :=
  [([65], 0); ([65], 10); ([66], 15); ([65], 20); ([65], 1000000005)].

Lemma rate_limit_bounds_witness :
  count_true (decisions [65] demo_messages (rate_run 2 ∅ demo_messages)) <= 2 * (1000000005 / second + 1) /\
  2 <= zlen (List.filter (fun x => 20 - second <? x) [0; 10]).
Proof.
  destruct (rate_limit_bounds 2 [65] demo_messages 0) as [H1 H2].
  - repeat constructor; vm_compute; discriminate.
  - reflexivity.
  - split; [exact H1|]. apply (H2 2%nat 20); vm_compute; reflexivity.
Defined.

Definition demo_wire (id : bytes) (track n : Z) : WireSegment :=
  {| version := 2; wire_stream_id := id; wire_sequence := n; wire_pts_us := 0; wire_duration_us := 0;
     wire_media_type := 0; wire_track_id := track; wire_is_keyframe := false; wire_hash := []; wire_data := [] |}.

Lemma sequence_check_spec_witness :
  let ws := [demo_wire [7] 1 5; demo_wire [7] 2 5; demo_wire [7] 1 5; demo_wire [7] 1 u64_max] in
  sequence_run ∅ ws = Done [Accept; Accept; Ignore; Accept].
Proof.
  intros ws. refine (eq_trans (sequence_check_spec ws _) _); [|reflexivity].
  repeat apply List.Forall_cons; try apply List.Forall_nil; (split_and!; [repeat constructor; done|done..]).
Defined.

Definition demo_message (timestamp ttl : Z) : Message (Json := positive) :=
  {| msg_id := [1]; topic := str "stream/7/data"; publisher := None; message_type := Data; payload := Binary [1];
     msg_sequence := None; timestamp := timestamp; ttl := ttl; headers := ∅ |}.

Lemma publish_panics_witness :
  publish_message (new_service 50 : GossipSubService (PeerId := positive)) (demo_message 1 u64_max) 0 0 = Panic.
Proof.
  apply (publish_panics 50 (demo_message 1 u64_max) 0 0); [done..|]. split_and!; vm_compute; done.
Defined.

Lemma subscription_limit_witness :
  let self := fold_left subscription_step [(true, [1]); (true, [2]); (false, [1]); (true, [3]); (true, [4])]
    (new_service 2 : GossipSubService (PeerId := positive) (Json := positive)) in
  Z.of_nat (base.size (topics self)) <= 2.
Proof.
  apply (subscription_limit (PeerId := positive) (Json := positive) 2
    [(true, [1]); (true, [2]); (false, [1]); (true, [3]); (true, [4])]). done.
Defined.
End Witness.
