(* ===== verification/WebLimits.v ===== *)
(** * What the web server admits

    Models the gates of [node/src/web_server.rs]: the slots for WebSocket
    connections, the check of identifiers, the limit of requests per address with
    its cleanup, and the token of the administration interface. *)

From S2P Require Import Prelude Rust Format Hash Segment PubSub.

#[local] Open Scope Z_scope.

(** ** Connection slots *)

(** The counter, the guards that are held, and the requests that have counted
    themselves in and are about to count themselves out again. The counter is
    atomic; what surrounds it is not. *)
Record Slots : Type := { ws_count : Z; guards : Z; backing_out : Z }.

Definition no_slots : Slots := {| ws_count := 0; guards := 0; backing_out := 0 |}.

(** [try_acquire_ws_slot] up to its decision: the counter goes up either way. *)
Definition try_acquire_ws_slot (max_ws_connections : Z) (self : Slots) : Slots * bool :=
  let prev := ws_count self in
  if max_ws_connections =? 0 then ({| ws_count := prev + 1; guards := guards self + 1; backing_out := backing_out self |}, true)
  else if max_ws_connections <=? prev
       then ({| ws_count := prev + 1; guards := guards self; backing_out := backing_out self + 1 |}, false)
       else ({| ws_count := prev + 1; guards := guards self + 1; backing_out := backing_out self |}, true).

(** The counter going down after a refusal, and when a guard is dropped. *)
Definition back_out (self : Slots) : Slots :=
  {| ws_count := ws_count self - 1; guards := guards self; backing_out := backing_out self - 1 |}.
Definition drop_guard (self : Slots) : Slots :=
  {| ws_count := ws_count self - 1; guards := guards self - 1; backing_out := backing_out self |}.

Inductive slot_step (max : Z) (self : Slots) : Slots -> Prop :=
| slot_acquire : slot_step max self (fst (try_acquire_ws_slot max self))
| slot_back_out : 0 < backing_out self -> slot_step max self (back_out self)
| slot_drop : 0 < guards self -> slot_step max self (drop_guard self).

(** However requests and disconnections overlap, there are never more
    connections than the limit, the counter is the connections and the refusals
    that are not finished, so it comes back to zero with them, and a request
    that meets no unfinished refusal is refused only when the limit is reached. *)
Theorem slots_bounded max self : 0 <= max -> rtc (slot_step max) no_slots self ->
  (max <> 0 -> guards self <= max) /\ ws_count self = guards self + backing_out self /\ 0 <= guards self /\ 0 <= backing_out self /\
  (backing_out self = 0 -> snd (try_acquire_ws_slot max self) = true <-> max = 0 \/ guards self < max).
Proof.
  intros Hmax Hr.
  assert (Hi : (max <> 0 -> guards self <= max) /\ ws_count self = guards self + backing_out self /\ 0 <= guards self /\ 0 <= backing_out self).
  { revert self Hr. refine (rtc_ind_r _ _ _ _); [cbn; lia|]. intros y z _ Hs (H1 & H2 & H3 & H4). destruct Hs as [|Hb|Hg].
    - unfold try_acquire_ws_slot. destruct (Z.eqb_spec max 0); cbn; [lia|]. destruct (Z.leb_spec max (ws_count y)); cbn; lia.
    - cbn. lia.
    - cbn. lia. }
  destruct Hi as (H1 & H2 & H3 & H4). split_and!; [done..|]. intros H0. unfold try_acquire_ws_slot.
  destruct (Z.eqb_spec max 0); cbn; [split; [by left|done]|]. destruct (Z.leb_spec max (ws_count self)); cbn; split; intros; lia || done.
Qed.

(** A refusal that is not finished counts: it can cost a request the slot that
    is free. *)
Example refused_with_a_free_slot : exists self, rtc (slot_step 1) no_slots self /\ guards self = 0 /\
  snd (try_acquire_ws_slot 1 self) = false.
Proof.
  exists {| ws_count := 1; guards := 0; backing_out := 1 |}. split; [|done].
  eapply rtc_l; [apply slot_acquire|]. eapply rtc_l; [apply slot_acquire|]. by apply rtc_once, slot_drop.
Qed.

(** ** Identifiers *)

Definition is_id_char (c : Z) : bool :=
  ((48 <=? c) && (c <=? 57)) || ((65 <=? c) && (c <=? 90)) || ((97 <=? c) && (c <=? 122)) || (c =? 45) || (c =? 95).

(** All accepted characters are single bytes, so bytes and characters agree. *)
Definition validate_id (id : rstring) (max_len : Z) : bool :=
  negb (bool_decide (id = [])) && (zlen id <=? max_len) && forallb is_id_char id.

(** ** Requests per address *)

Section RateLimiter.
Context {Ip : Type} `{Countable Ip}.

Record RateLimiterState : Type := { buckets : gmap Ip (Z * Z); max_requests : Z; window : Z }.

Definition new_rate_limiter (max_requests window_secs : Z) : RateLimiterState :=
  {| buckets := ∅; max_requests := max_requests; window := window_secs * 1000000000 |}.

Definition with_buckets (self : RateLimiterState) (v : gmap Ip (Z * Z)) : RateLimiterState :=
  {| buckets := v; max_requests := max_requests self; window := window self |}.

Definition expired (self : RateLimiterState) (now start : Z) : bool := window self <=? Z.max 0 (now - start).

Definition check_ip (self : RateLimiterState) (ip : Ip) (now : Z) : RateLimiterState * bool :=
  let entry := default (0, now) (buckets self !! ip) in
  if expired self now (snd entry) then (with_buckets self (<[ip := (1, now)]> (buckets self)), true)
  else if max_requests self <=? fst entry then (with_buckets self (<[ip := entry]> (buckets self)), false)
  else (with_buckets self (<[ip := (fst entry + 1, snd entry)]> (buckets self)), true).

Definition tracked_count (self : RateLimiterState) : Z := Z.of_nat (base.size (buckets self)).

Definition cleanup_expired (self : RateLimiterState) (now : Z) : RateLimiterState :=
  with_buckets self (filter (fun e => expired self now (snd (snd e)) = false) (buckets self)).

(** The middleware: whether the request goes on. *)
Definition rate_limit_middleware (rate_limit_per_ip : Z) (self : RateLimiterState) (ip : Ip) (now : Z)
  : RateLimiterState * bool :=
  if rate_limit_per_ip =? 0 then (self, true) else check_ip self ip now.

(** Requests and cleanups, each with its time. *)
Inductive traffic : Type := Request (ip : Ip) (t : Z) | Cleanup (t : Z).
Definition traffic_time (e : traffic) : Z := match e with Request _ t | Cleanup t => t end.

Fixpoint limiter_run (self : RateLimiterState) (es : list traffic) : list bool :=
  match es with
  | [] => []
  | Request ip t :: es => let '(self, ok) := check_ip self ip t in ok :: limiter_run self es
  | Cleanup t :: es => limiter_run (cleanup_expired self t) es
  end.

Definition is_request (e : traffic) : bool := match e with Request _ _ => true | Cleanup _ => false end.

(** What a cleanup may have removed: buckets that are expired by then. *)
Definition cleaned (now : Z) (self self' : RateLimiterState) : Prop :=
  max_requests self = max_requests self' /\ window self = window self' /\
  forall ip, buckets self !! ip = buckets self' !! ip \/
    (buckets self !! ip = None /\ exists e, buckets self' !! ip = Some e /\ expired self' now (snd e) = true).

Lemma expired_later self now now' start : now <= now' -> expired self now start = true -> expired self now' start = true.
Proof. unfold expired. intros Hle H1%Z.leb_le. apply Z.leb_le. lia. Qed.

Lemma cleaned_later now now' self self' : now <= now' -> cleaned now self self' -> cleaned now' self self'.
Proof.
  intros Hle (H1 & H2 & Hb). split_and!; [done..|]. intros ip. destruct (Hb ip) as [|(Hn & e & He & Hx)]; [by left|right].
  split; [done|]. exists e. split; [done|]. by eapply expired_later.
Qed.

Lemma cleaned_cleanup now self self' : cleaned now self self' -> cleaned now (cleanup_expired self now) self'.
Proof.
  intros (H1 & H2 & Hb). split_and!; [done..|]. intros ip. cbn [cleanup_expired with_buckets buckets].
  destruct (Hb ip) as [Heq|(Hn & Hx)].
  - destruct (buckets self !! ip) as [e|] eqn:He.
    + destruct (expired self now (snd e)) eqn:Hx.
      * right. split; [apply map_lookup_filter_None; right; intros e' He' Hx'; cbn in Hx'; congruence|]. exists e. split; [done|].
        unfold expired in *. by rewrite <- H2.
      * left. rewrite <- Heq. by apply map_lookup_filter_Some.
    + left. rewrite <- Heq. apply map_lookup_filter_None. by left.
  - right. split; [|done]. apply map_lookup_filter_None. by left.
Qed.

Lemma cleaned_check now self self' ip : 1 <= max_requests self -> cleaned now self self' ->
  snd (check_ip self ip now) = snd (check_ip self' ip now) /\ cleaned now (fst (check_ip self ip now)) (fst (check_ip self' ip now)).
Proof.
  intros Hmax (H1 & H2 & Hb).
  assert (Hins : forall e, cleaned now (with_buckets self (<[ip := e]> (buckets self))) (with_buckets self' (<[ip := e]> (buckets self')))).
  { intros e. split_and!; [done..|]. intros ip'. cbn. destruct (decide (ip = ip')) as [->|Hne]; [left; by rewrite !lookup_insert_eq|].
    rewrite !lookup_insert_ne by done. apply Hb. }
  unfold check_ip. destruct (Hb ip) as [->|(Hn & e & He & Hx)].
  - unfold expired. rewrite H2, H1. destruct (window self' <=? _); [split; [done|apply Hins]|].
    destruct (max_requests self' <=? _); (split; [done|apply Hins]).
  - rewrite Hn, He. change (default (0, now) (Some e)) with e. change (default (0, now) None) with (0, now). cbn [fst snd].
    rewrite Hx. destruct (expired self now now); [split; [done|apply Hins]|].
    destruct (Z.leb_spec (max_requests self) 0); [lia|]. split; [done|apply Hins].
Qed.

Lemma cleaned_run now self self' es : 1 <= max_requests self -> cleaned now self self' ->
  StronglySorted Z.le (now :: map traffic_time es) ->
  limiter_run self es = limiter_run self' (List.filter is_request es).
Proof.
  revert now self self'. induction es as [|[ip t|t] es IH]; intros now self self' Hmax Hc Hs; [done|..];
    apply StronglySorted_inv in Hs as [Hs [Hle _]%list.Forall_cons]; cbn [traffic_time map] in *;
    apply (cleaned_later now t) in Hc; try done; cbn [List.filter is_request limiter_run].
  - destruct (cleaned_check t self self' ip Hmax Hc) as [Hok Hc']. pose proof Hc' as (Hm & _).
    assert (Hmax' : 1 <= max_requests (fst (check_ip self ip t))).
    { unfold check_ip. destruct (expired _ _ _); [done|]. by destruct (max_requests self <=? _). }
    destruct (check_ip self ip t) as [s1 ok1], (check_ip self' ip t) as [s2 ok2]. cbn [fst snd] in *. subst ok2. f_equal.
    by apply (IH t).
  - apply (IH t); [done| |done]. by apply cleaned_cleanup.
Qed.

(** Forgetting expired buckets is not noticed: whenever the cleanup runs, every
    request gets the answer it would have got without it. *)
Theorem cleanup_is_invisible max_requests window_secs t0 es : 1 <= max_requests ->
  StronglySorted Z.le (t0 :: map traffic_time es) ->
  limiter_run (new_rate_limiter max_requests window_secs) es =
  limiter_run (new_rate_limiter max_requests window_secs) (List.filter is_request es).
Proof. intros Hmax Hs. apply (cleaned_run t0); [done| |done]. split_and!; [done..|]. intros ip. by left. Qed.
(** *** How much an address gets through *)

Definition limiter_next (self : RateLimiterState) (e : traffic) : RateLimiterState :=
  match e with Request ip t => fst (check_ip self ip t) | Cleanup t => cleanup_expired self t end.
Definition limiter_after (self : RateLimiterState) (es : list traffic) : RateLimiterState := fold_left limiter_next es self.

(** Whether an event is a request of an address, in a span of time, that is let
    through; and how many of these there are. *)
Definition lets_through (self : RateLimiterState) (ip : Ip) (from till : Z) (e : traffic) : Z :=
  match e with
  | Request ip' t => if bool_decide (ip' = ip) && ((from <=? t) && (t <? till)) && snd (check_ip self ip' t) then 1 else 0
  | Cleanup _ => 0
  end.
Fixpoint let_through (self : RateLimiterState) (ip : Ip) (from till : Z) (es : list traffic) : Z :=
  match es with
  | [] => 0
  | e :: es => lets_through self ip from till e + let_through (limiter_next self e) ip from till es
  end.

Lemma let_through_app self ip from till es es' :
  let_through self ip from till (es ++ es') = let_through self ip from till es + let_through (limiter_after self es) ip from till es'.
Proof. revert self. induction es as [|e es IH]; intros self; [done|]. cbn [app let_through limiter_after fold_left]. rewrite IH. unfold limiter_after. lia. Qed.

Lemma limiter_next_config self e : max_requests (limiter_next self e) = max_requests self /\ window (limiter_next self e) = window self.
Proof.
  destruct e as [ip t|t]; [|done]. cbn. unfold check_ip. destruct (expired _ _ _); [done|]. by destruct (max_requests self <=? _).
Qed.

Lemma limiter_after_config self es : max_requests (limiter_after self es) = max_requests self /\ window (limiter_after self es) = window self.
Proof.
  revert self. induction es as [|e es IH]; intros self; [done|].
  change (limiter_after self (e :: es)) with (limiter_after (limiter_next self e) es).
  destruct (IH (limiter_next self e)) as [-> ->]. apply limiter_next_config.
Qed.

(** The bucket of an address after a request of it, and the answer. *)
Definition live_bucket (self : RateLimiterState) (ip : Ip) (t : Z) : option (Z * Z) :=
  match buckets self !! ip with Some (c, b) => if expired self t b then None else Some (c, b) | None => None end.

Lemma next_request self ip t : 1 <= max_requests self ->
  buckets (limiter_next self (Request ip t)) !! ip =
    Some (match live_bucket self ip t with None => (1, t) | Some (c, b) => if max_requests self <=? c then (c, b) else (c + 1, b) end) /\
  snd (check_ip self ip t) = match live_bucket self ip t with None => true | Some (c, _) => negb (max_requests self <=? c) end.
Proof.
  intros Hmax. cbn [limiter_next]. unfold check_ip, live_bucket. destruct (buckets self !! ip) as [[c b]|]; cbn [default from_option id fst snd].
  - destruct (expired self t b); cbn; [by rewrite lookup_insert_eq|].
    destruct (max_requests self <=? c); cbn; by rewrite lookup_insert_eq.
  - destruct (expired self t t); cbn; [by rewrite lookup_insert_eq|].
    destruct (Z.leb_spec (max_requests self) 0); [lia|]. cbn. by rewrite lookup_insert_eq.
Qed.

Lemma next_other self ip e : (forall t, e <> Request ip t) ->
  buckets (limiter_next self e) !! ip = buckets self !! ip \/
  (buckets (limiter_next self e) !! ip = None /\ live_bucket self ip (traffic_time e) = None).
Proof.
  intros Hne. destruct e as [ip' t|t]; cbn [limiter_next traffic_time].
  - left. unfold check_ip. destruct (decide (ip' = ip)) as [->|Hip]; [by destruct (Hne t)|].
    destruct (expired _ _ _); [by apply lookup_insert_ne|]. destruct (max_requests self <=? _); by apply lookup_insert_ne.
  - cbn. unfold live_bucket. destruct (buckets self !! ip) as [[c b]|] eqn:Hb.
    + destruct (expired self t b) eqn:Hx; [right|left].
      * split; [|done]. apply map_lookup_filter_None. right. intros y Hy. rewrite Hb in Hy. injection Hy as <-. cbn. by rewrite Hx.
      * by apply map_lookup_filter_Some.
    + left. apply map_lookup_filter_None. by left.
Qed.

(** What an address has left of a span as long as the window. *)
Definition left_of (max win clock from : Z) (bucket : option (Z * Z)) : Z :=
  if from + win <=? clock then 0
  else match bucket with
       | Some (c, b) =>
           if clock <? b + win then
             if from <=? b then max - c else if from <? b + win then max - c + max else 2 * max
           else if from <=? clock then max else 2 * max
       | None => if from <=? clock then max else 2 * max
       end.

Definition bucket_fits (max clock : Z) (bucket : option (Z * Z)) : Prop :=
  match bucket with Some (c, b) => c <= max /\ b <= clock | None => True end.

Ltac split_spans := unfold left_of, bucket_fits, expired in *;
  repeat match goal with
         | |- context [?x <=? ?y] => destruct (Z.leb_spec x y)
         | |- context [?x <? ?y] => destruct (Z.ltb_spec x y)
         | H : context [?x <=? ?y] |- _ => destruct (Z.leb_spec x y)
         end; cbn [andb negb] in *; try lia; try done.

Lemma lets_through_left self ip clock from e : 1 <= max_requests self -> clock <= traffic_time e ->
  bucket_fits (max_requests self) clock (buckets self !! ip) ->
  bucket_fits (max_requests self) (traffic_time e) (buckets (limiter_next self e) !! ip) /\
  lets_through self ip from (from + window self) e +
    left_of (max_requests self) (window self) (traffic_time e) from (buckets (limiter_next self e) !! ip)
  <= left_of (max_requests self) (window self) clock from (buckets self !! ip).
Proof.
  intros Hmax Hle Hfit.
  assert (Hcases : (exists t, e = Request ip t) \/ forall t, e <> Request ip t).
  { destruct e as [ip' t|t]; [|by right]. destruct (decide (ip' = ip)) as [->|]; [left; by exists t|right; congruence]. }
  destruct Hcases as [[t ->]|Hne].
  - destruct (next_request self ip t Hmax) as [-> Hok]. cbn [traffic_time lets_through] in *. rewrite Hok, bool_decide_eq_true_2 by done.
    cbn [andb]. unfold live_bucket. destruct (buckets self !! ip) as [[c b]|]; [|split_spans].
    destruct (expired self t b) eqn:Hx; split_spans.
  - assert (Hz : lets_through self ip from (from + window self) e = 0).
    { destruct e as [ip' t|t]; [|done]. cbn. rewrite bool_decide_eq_false_2; [done|]. intros ->. by destruct (Hne t). }
    rewrite Hz. destruct (next_other self ip e Hne) as [->|[-> Hn]].
    + destruct (buckets self !! ip) as [[c b]|]; split_spans.
    + unfold live_bucket in Hn. destruct (buckets self !! ip) as [[c b]|]; [|split_spans]. destruct (expired self (traffic_time e) b) eqn:Hx; [|done].
      clear Hn. split_spans.
Qed.

Lemma let_through_left self ip clock from es : 1 <= max_requests self -> StronglySorted Z.le (clock :: map traffic_time es) ->
  bucket_fits (max_requests self) clock (buckets self !! ip) ->
  let_through self ip from (from + window self) es <= left_of (max_requests self) (window self) clock from (buckets self !! ip).
Proof.
  revert self clock. induction es as [|e es IH]; intros self clock Hmax Hs Hfit; cbn [let_through map] in *.
  - destruct (buckets self !! ip) as [[c b]|]; split_spans.
  - apply StronglySorted_inv in Hs as [Hs [Hle _]%list.Forall_cons].
    destruct (lets_through_left self ip clock from e Hmax Hle Hfit) as [Hfit' Hstep].
    destruct (limiter_next_config self e) as [Hm Hw]. rewrite <- Hm in Hfit', Hmax. specialize (IH _ _ Hmax Hs Hfit'). rewrite Hm, Hw in IH. lia.
Qed.

Lemma lets_through_nonneg self ip from till e : 0 <= lets_through self ip from till e.
Proof. destruct e as [ip' t|t]; cbn; [|done]. by destruct (_ && _). Qed.

Lemma let_through_nonneg self ip from till es : 0 <= let_through self ip from till es.
Proof.
  revert self. induction es as [|e es IH]; intros self; [done|]. cbn. pose proof (lets_through_nonneg self ip from till e).
  specialize (IH (limiter_next self e)). lia.
Qed.

(** A bucket began no later than the last event, and counts what was let
    through since. *)
Lemma bucket_accounts max secs ip es t till : 1 <= max -> StronglySorted Z.le (map traffic_time es ++ [t]) -> t < till ->
  let start := new_rate_limiter max secs in
  forall c b, buckets (limiter_after start es) !! ip = Some (c, b) -> b <= t /\ c <= let_through start ip b till es.
Proof.
  intros Hmax Hs Htill start. revert t Hs Htill. induction es as [|e es IH] using rev_ind; intros t Hs Htill c b; [done|].
  rewrite map_app in Hs. cbn [map] in Hs. apply StronglySorted_app in Hs as (Hcross & Hs & _).
  assert (Het : traffic_time e <= t) by (apply Hcross; [apply elem_of_app; right|]; apply elem_of_cons; by left).
  specialize (IH _ Hs ltac:(lia)). unfold limiter_after. rewrite fold_left_app. cbn [fold_left]. fold (limiter_after start es).
  rewrite let_through_app. cbn [let_through]. set (self := limiter_after start es) in *.
  assert (Hm : max_requests self = max) by apply (limiter_after_config start es). intros Hb.
  pose proof (lets_through_nonneg self ip b till e) as Hnn. pose proof (let_through_nonneg start ip b till es) as Hnn'.
  assert (Hcases : (exists u, e = Request ip u) \/ forall u, e <> Request ip u).
  { destruct e as [ip' u|u]; [|by right]. destruct (decide (ip' = ip)) as [->|]; [left; by exists u|right; congruence]. }
  destruct Hcases as [[u ->]|Hne].
  - destruct (next_request self ip u ltac:(lia)) as [Hb' Hok]. rewrite Hb' in Hb. cbn [lets_through traffic_time] in *.
    rewrite Hok, bool_decide_eq_true_2 in * by done. cbn [andb] in *. unfold live_bucket in *.
    destruct (buckets self !! ip) as [[c0 b0]|] eqn:Hb0.
    + destruct (IH c0 b0 eq_refl) as [Hle Hc]. destruct (expired self u b0).
      * injection Hb as <- <-. destruct (Z.leb_spec u u), (Z.ltb_spec u till); cbn; lia.
      * destruct (max_requests self <=? c0); injection Hb as <- <-; [lia|].
        destruct (Z.leb_spec b0 u), (Z.ltb_spec u till); cbn; lia.
    + injection Hb as <- <-. destruct (Z.leb_spec u u), (Z.ltb_spec u till); cbn; lia.
  - destruct (next_other self ip e Hne) as [Heq|[Heq _]]; rewrite Heq in Hb; [|done]. destruct (IH c b Hb). lia.
Qed.

Lemma let_through_earlier self ip from from' till es : from <= from' -> let_through self ip from' till es <= let_through self ip from till es.
Proof.
  intros Hle. revert self. induction es as [|e es IH]; intros self; [done|]. cbn [let_through]. specialize (IH (limiter_next self e)).
  enough (lets_through self ip from' till e <= lets_through self ip from till e) by lia. destruct e as [ip' t|t]; cbn; [|done].
  destruct (bool_decide _); [|done]. destruct (snd _); rewrite ?andb_true_r, ?andb_false_r; [|done]. cbn [andb]. split_spans.
Qed.

(** C40: Whatever the other addresses do and whenever the cleanup runs: in a span
    as long as the window an address gets no more than twice its limit through,
    and a request of it is refused only when a full limit of its requests was let
    through in less than a window before. *)
Theorem limiter_is_fair max secs ip t0 es : 1 <= max -> StronglySorted Z.le (t0 :: map traffic_time es) ->
  (forall from, let_through (new_rate_limiter max secs) ip from (from + secs * second) es <= 2 * max) /\
  (forall pre t post, es = pre ++ Request ip t :: post -> snd (check_ip (limiter_after (new_rate_limiter max secs) pre) ip t) = false ->
     max <= let_through (new_rate_limiter max secs) ip (t - secs * second + 1) (t + 1) pre).
Proof.
  intros Hmax Hs. set (start := new_rate_limiter max secs). split.
  - intros from. pose proof (let_through_left start ip t0 from es Hmax Hs) as Hl. change (window start) with (secs * 1000000000) in Hl.
    change (max_requests start) with max in Hl. assert (Hn : buckets start !! ip = None) by apply lookup_empty.
    rewrite Hn in Hl. specialize (Hl I). change (secs * second) with (secs * 1000000000). split_spans.
  - intros pre t post -> Hno. apply StronglySorted_inv in Hs as [Hs _]. rewrite map_app in Hs. cbn [map traffic_time] in Hs.
    change (t :: map traffic_time post) with ([t] ++ map traffic_time post) in Hs. rewrite app_assoc in Hs. apply StronglySorted_app in Hs as (_ & Hs & _).
    pose proof (bucket_accounts max secs ip pre t (t + 1) Hmax Hs ltac:(lia)) as Hacc. cbn zeta in Hacc. fold start in Hacc.
    destruct (limiter_after_config start pre) as [Hm Hw]. change (max_requests start) with max in Hm. change (window start) with (secs * 1000000000) in Hw.
    destruct (next_request (limiter_after start pre) ip t ltac:(lia)) as [_ Hok]. rewrite Hno in Hok. unfold live_bucket in Hok.
    destruct (buckets (limiter_after start pre) !! ip) as [[c b]|]; [|done]. destruct (Hacc c b eq_refl) as [Hle Hc].
    destruct (expired _ t b) eqn:Hx; [done|]. unfold expired in Hx. rewrite Hw in Hx. apply Z.leb_gt in Hx.
    symmetry in Hok. apply negb_false_iff, Z.leb_le in Hok. rewrite Hm in Hok. unfold second.
    pose proof (let_through_earlier start ip (t - secs * 1000000000 + 1) b (t + 1) pre ltac:(lia)). lia.
Qed.
End RateLimiter.

(** *** The two rate limiters *)

(** Buckets that decide alike from now on. *)
Definition alike (max : Z) (a b : option (Z * Z)) : Prop :=
  match a, b with
  | None, None => True
  | Some (c, w), Some (c', w') => w = w' /\ (c = c' \/ max <= c /\ max <= c')
  | _, _ => False
  end.

(** The limiter of the web server, which stops counting at the limit, and that
    of the message validator ([PubSub.check_rate_limit]), which counts on, give
    every source the same answers when the window is a second. *)
Theorem rate_limiters_agree max ms :
  limiter_run (new_rate_limiter max 1) (map (fun m => Request (fst m) (snd m)) ms) = rate_run max ∅ ms.
Proof.
  assert (Hgen : forall (self : RateLimiterState) tracker, max_requests self = max -> window self = 1000000000 ->
    (forall s, alike max (buckets self !! s) (tracker !! s)) ->
    limiter_run self (map (fun m => Request (fst m) (snd m)) ms) = rate_run max tracker ms).
  2:{ apply Hgen; [done..|]. intros s. by rewrite !lookup_empty. }
  induction ms as [|[s t] ms IH]; intros self tracker Hm Hw Hal; [done|]. cbn [map fst snd limiter_run rate_run].
  assert (Hstep : snd (check_ip self s t) = snd (check_rate_limit max tracker s t) /\
    max_requests (fst (check_ip self s t)) = max /\ window (fst (check_ip self s t)) = 1000000000 /\
    forall s', alike max (buckets (fst (check_ip self s t)) !! s') (fst (check_rate_limit max tracker s t) !! s')).
  { assert (Hins : forall e e' s', alike max (Some e) (Some e') -> alike max (<[s := e]> (buckets self) !! s') (<[s := e']> tracker !! s')).
    { intros e e' s' He. destruct (decide (s = s')) as [->|Hne]; [by rewrite !lookup_insert_eq|]. by rewrite !lookup_insert_ne. }
    assert (Hdef : alike max (Some (default (0, t) (buckets self !! s))) (Some (default (0, t) (tracker !! s)))).
    { specialize (Hal s). destruct (buckets self !! s) as [[c w]|], (tracker !! s) as [[c' w']|]; try done. split; [done|by left]. }
    unfold check_ip, check_rate_limit, expired, seconds_since, second. rewrite Hw.
    destruct (default (0, t) (buckets self !! s)) as [c w], (default (0, t) (tracker !! s)) as [c' w'].
    destruct Hdef as [<- Hc]. cbn [fst snd].
    assert (Hexp : (1000000000 <=? Z.max 0 (t - w)) = (1 <=? Z.max 0 (t - w) / 1000000000)).
    { pose proof (Z.div_mod (Z.max 0 (t - w)) 1000000000 ltac:(lia)). pose proof (Z.mod_pos_bound (Z.max 0 (t - w)) 1000000000 ltac:(lia)).
      destruct (Z.leb_spec 1000000000 (Z.max 0 (t - w))), (Z.leb_spec 1 (Z.max 0 (t - w) / 1000000000)); lia. }
    rewrite Hexp. destruct (1 <=? _); cbn [fst snd]; [split_and!; [done..|]; intros s'; apply Hins; split; [done|by left]|].
    rewrite Hm. destruct (Z.leb_spec max c), (Z.leb_spec (c' + 1) max); cbn [fst snd]; try lia;
      (split_and!; [done..|]; intros s'; apply Hins; split; [done|lia]). }
  destruct (check_ip self s t) as [self' ok], (check_rate_limit max tracker s t) as [tracker' ok']. cbn [fst snd] in *.
  destruct Hstep as (-> & Hm' & Hw' & Hal'). f_equal. by apply IH.
Qed.

(** ** Administration *)

Inductive AuthResult : Type := NotEnabled | InvalidToken | MissingHeader | Authorized.

(** [admin_auth_middleware], given the configured token and the header. *)
Definition admin_auth (expected : option rstring) (header : option rstring) : AuthResult :=
  match expected with
  | None => NotEnabled
  | Some t =>
      match header with
      | Some h => if starts_with h (str "Bearer ") then (if str_eqb (zdrop 7 h) t then Authorized else InvalidToken) else MissingHeader
      | None => MissingHeader
      end
  end.

(** Nothing gets through without the configured token, and nothing at all when
    there is none; the token is compared exactly. *)
Theorem admin_auth_spec expected header :
  admin_auth expected header = Authorized <-> exists t, expected = Some t /\ header = Some (str "Bearer " ++ t).
Proof.
  unfold admin_auth. split.
  - destruct expected as [t|]; [|done]. destruct header as [h|]; [|done].
    destruct (starts_with h (str "Bearer ")) eqn:Hs; [|done]. apply starts_with_spec in Hs as [t' ->].
    rewrite zdrop_app_eq by done. destruct (str_eqb_spec t' t) as [->|]; [|done]. intros _. by exists t.
  - intros (t & -> & ->). rewrite (proj2 (starts_with_spec _ _)) by (by exists t). rewrite zdrop_app_eq by done. by rewrite str_eqb_refl.
Qed.

(** ** Witnesses *)

Lemma slots_bounded_witness :
  rtc (slot_step 2) no_slots {| ws_count := 2; guards := 2; backing_out := 0 |} /\
  snd (try_acquire_ws_slot 2 {| ws_count := 2; guards := 2; backing_out := 0 |}) = false.
Proof.
  assert (Hr : rtc (slot_step 2) no_slots {| ws_count := 2; guards := 2; backing_out := 0 |}).
  { eapply rtc_l; [apply slot_acquire|]. apply rtc_once, slot_acquire. }
  split; [exact Hr|]. destruct (slots_bounded 2 _ ltac:(lia) Hr) as (_ & _ & _ & _ & Hiff). apply not_true_iff_false. rewrite Hiff by reflexivity.
  cbn. lia.
Defined.

Lemma cleanup_is_invisible_witness :
  limiter_run (Ip := positive) (new_rate_limiter 1 60)
    [Request 1%positive 0; Request 1%positive 1000000000; Cleanup 61000000000; Request 1%positive 62000000000] =
  limiter_run (Ip := positive) (new_rate_limiter 1 60) [Request 1%positive 0; Request 1%positive 1000000000; Request 1%positive 62000000000].
Proof.
  apply (cleanup_is_invisible (Ip := positive) 1 60 0
    [Request 1%positive 0; Request 1%positive 1000000000; Cleanup 61000000000; Request 1%positive 62000000000]); [lia|].
  repeat (constructor; [|repeat constructor; cbn; lia]). constructor.
Defined.

(** A limit of two a minute: both requests at the end of one window and both at
    the start of the next one are let through, the fifth is refused. *)
Lemma limiter_is_fair_witness :
  let es := [Request 1%positive 0; Request 1%positive (59 * second); Request 2%positive (59 * second); Request 1%positive (60 * second);
             Request 1%positive (60 * second); Request 1%positive (61 * second)] in
  let_through (Ip := positive) (new_rate_limiter 2 60) 1%positive (59 * second) (119 * second) es <= 4 /\
  2 <= let_through (Ip := positive) (new_rate_limiter 2 60) 1%positive (second + 1) (61 * second + 1) (take 5 es).
Proof.
  cbn zeta. match goal with |- let_through _ _ _ _ ?l <= _ /\ _ => set (es := l) end.
  assert (Hs : StronglySorted Z.le (0 :: map traffic_time es)).
  { unfold es, second. cbn [map traffic_time]. repeat (constructor; [|repeat constructor; lia]). constructor. }
  destruct (limiter_is_fair (Ip := positive) 2 60 1%positive 0 es ltac:(lia) Hs) as [Htwice Hrefused]. split.
  - exact (Htwice (59 * second)).
  - exact (Hrefused (take 5 es) (61 * second) [] eq_refl ltac:(vm_compute; reflexivity)).
Defined.
