(* ===== verification/Signaling.v ===== *)
(** * Signaling

    Models the WebRTC signaling of [node/src/web_server.rs]: rooms of peers by
    stream, the queue of messages to each peer, the handler of a connection, the
    kick of a blocked peer and the cleanup of idle rooms. Connections and the
    other tasks run concurrently; a step is one critical section of one of them.
    A message is read from a connection when the one before it is handled. *)

From S2P Require Import Prelude Rust Format Hash Moderation WebLimits.

#[local] Open Scope Z_scope.

(** ** Messages *)

(** A peer as a room lists it; [PeerInfo] has the same fields. *)
Record SignalingPeer : Type := { sp_id : rstring; sp_is_publisher : bool; sp_can_relay : bool }.

(** [SignalingMessage] of [core/src/transport/webrtc_signaling.rs]. *)
Inductive SignalingMessage : Type :=
| Offer (peer_id : rstring) (target_peer_id : option rstring) (sdp : rstring)
| Answer (peer_id target_peer_id sdp : rstring)
| IceCandidate (peer_id target_peer_id candidate : rstring) (sdp_mid : option rstring) (sdp_mline_index : option Z)
| PeerJoin (peer_id stream_id : rstring) (is_publisher : bool)
| PeerLeave (peer_id : rstring)
| PeerList (peers : list SignalingPeer)
| PeerUpdate (peer_id : rstring) (stream_id : option rstring) (is_publisher can_relay : bool)
| ErrorMessage (message : rstring).

(** ** Rooms and queues *)

Record Signaling : Type := {
  rooms : gmap rstring (list SignalingPeer);
  peer_senders : gmap rstring (list SignalingMessage);
  stream_last_active : gmap rstring Z;
}.

Definition new_signaling : Signaling := {| rooms := ∅; peer_senders := ∅; stream_last_active := ∅ |}.

Definition with_rooms (s : Signaling) (v : gmap rstring (list SignalingPeer)) : Signaling :=
  {| rooms := v; peer_senders := peer_senders s; stream_last_active := stream_last_active s |}.
Definition with_senders (s : Signaling) (v : gmap rstring (list SignalingMessage)) : Signaling :=
  {| rooms := rooms s; peer_senders := v; stream_last_active := stream_last_active s |}.
Definition with_active (s : Signaling) (v : gmap rstring Z) : Signaling :=
  {| rooms := rooms s; peer_senders := peer_senders s; stream_last_active := v |}.

Definition QUEUE_CAPACITY : Z := 64.

(** [try_send] to a peer that has a queue: a full queue loses the message. *)
Definition send_to (s : Signaling) (m : rstring * SignalingMessage) : Signaling :=
  match peer_senders s !! fst m with
  | Some q => if zlen q <? QUEUE_CAPACITY then with_senders s (<[fst m := q ++ [snd m]]> (peer_senders s)) else s
  | None => s
  end.
Definition send_all (s : Signaling) (ms : list (rstring * SignalingMessage)) : Signaling := fold_left send_to ms s.

Definition in_room (p : rstring) (peers : list SignalingPeer) : bool := existsb (fun q => str_eqb (sp_id q) p) peers.
Definition without (p : rstring) (peers : list SignalingPeer) : list SignalingPeer :=
  List.filter (fun q => negb (str_eqb (sp_id q) p)) peers.

Record Limits : Type := { max_stream_rooms : Z; max_peers_per_stream : Z; idle_cleanup_secs : Z }.

(** The section of [PeerJoin] that adds the peer to the room. *)
Definition join_room (cfg : Limits) (s : Signaling) (p stream : rstring) (is_publisher : bool)
  : Signaling * result unit rstring :=
  let new_peer := {| sp_id := p; sp_is_publisher := is_publisher; sp_can_relay := false |} in
  match rooms s !! stream with
  | None =>
      if max_stream_rooms cfg <=? Z.of_nat (size (rooms s)) then (s, RErr (str "Max stream rooms reached"))
      else (with_rooms s (<[stream := [new_peer]]> (rooms s)), ROk tt)
  | Some peers =>
      if negb (in_room p peers) && (max_peers_per_stream cfg <=? zlen peers) then (s, RErr (str "Stream room is full"))
      else (with_rooms s (<[stream := without p peers ++ [new_peer]]> (rooms s)), ROk tt)
  end.

(** The second section of [cleanup_signaling_peer]. *)
Definition leave_room (s : Signaling) (p stream : rstring) : Signaling * list (rstring * SignalingMessage) :=
  match rooms s !! stream with
  | None => (s, [])
  | Some peers =>
      let peers := without p peers in
      (with_rooms s (match peers with [] => delete stream (rooms s) | _ => <[stream := peers]> (rooms s) end),
       map (fun q => (sp_id q, PeerLeave p)) peers)
  end.

(** The update of [PeerUpdate]: the first entry of the peer. *)
Fixpoint update_peer (p : rstring) (is_publisher can_relay : bool) (peers : list SignalingPeer) : list SignalingPeer :=
  match peers with
  | [] => []
  | q :: peers =>
      if str_eqb (sp_id q) p then {| sp_id := sp_id q; sp_is_publisher := is_publisher; sp_can_relay := can_relay |} :: peers
      else q :: update_peer p is_publisher can_relay peers
  end.

(** The first section of [kick_peer_from_signaling]: the rooms, and whom to
    tell. *)
Definition kick_rooms `{!HashOrder rstring} (s : Signaling) (p : rstring) : Signaling * list rstring :=
  (with_rooms s (filter (fun e => snd e <> []) (without p <$> rooms s)),
   concat (map (fun e => map sp_id (without p (snd e))) (List.filter (fun e => in_room p (snd e)) (map_iter (rooms s))))).

(** A round of the cleanup of idle rooms. *)
Definition idle_room (cfg : Limits) (s : Signaling) (now : Z) (stream : rstring) (peers : list SignalingPeer) : bool :=
  match peers with
  | [] => true
  | _ => match stream_last_active s !! stream with
         | Some last => idle_cleanup_secs cfg <? Z.max 0 (now - last) / 1000000000
         | None => false
         end
  end.

Definition idle_cleanup (cfg : Limits) (s : Signaling) (now : Z) : Signaling :=
  let idle := fun e : rstring * list SignalingPeer => idle_room cfg s now (fst e) (snd e) in
  {| rooms := filter (fun e => idle e = false) (rooms s); peer_senders := peer_senders s;
     stream_last_active :=
       filter (fun e => match rooms s !! fst e with Some peers => idle (fst e, peers) | None => false end = false) (stream_last_active s) |}.

(** ** Connections *)

(** What a connection does: it waits for a message, goes through the sections of
    a join, tells others of an update, or goes through those of a cleanup, after
    a [PeerLeave] or at the end. *)
Inductive activity : Type :=
| Receiving
| Admitting (stream : rstring) (is_publisher : bool)
| Joined (stream : rstring) (is_publisher : bool)
| Touched (stream : rstring) (is_publisher : bool)
| Listed (stream : rstring) (is_publisher : bool) (peers : list SignalingPeer)
| Broadcasting (ids : list rstring) (m : SignalingMessage)
| Leaving (closing : bool)
| Left (closing : bool)
| Gone.

Record Conn : Type := { current_stream : option rstring; doing : activity }.

Definition with_doing (c : Conn) (a : activity) : Conn := {| current_stream := current_stream c; doing := a |}.

(** A message that is received, up to the end of the first critical section that
    it leads to. *)
Definition receive (allowed : bool) (s : Signaling) (p : rstring) (c : Conn) (m : SignalingMessage)
  : Signaling * Conn * list (rstring * SignalingMessage) :=
  match m with
  | PeerJoin _ stream is_publisher =>
      if negb (validate_id stream 128) then (s, c, [(p, ErrorMessage (str "Invalid stream ID"))])
      else if negb allowed then (s, c, [(p, ErrorMessage (str "You have been blocked from this node"))])
      else (s, with_doing c (Admitting stream is_publisher), [])
  | PeerLeave _ => (s, with_doing c (Leaving false), [])
  | Offer _ target sdp =>
      if negb allowed then (s, c, [])
      else match target with Some t => (s, c, [(t, Offer p (Some t) sdp)]) | None => (s, c, []) end
  | Answer _ target sdp => (s, c, [(target, Answer p target sdp)])
  | IceCandidate _ target candidate mid index => (s, c, [(target, IceCandidate p target candidate mid index)])
  | PeerUpdate _ _ is_publisher can_relay =>
      match current_stream c with
      | Some stream =>
          match rooms s !! stream with
          | Some peers =>
              (with_rooms s (<[stream := update_peer p is_publisher can_relay peers]> (rooms s)),
               with_doing c (Broadcasting (map sp_id (without p peers)) (PeerUpdate p (Some stream) is_publisher can_relay)), [])
          | None => (s, c, [])
          end
      | None => (s, c, [])
      end
  | PeerList _ | ErrorMessage _ => (s, c, [])
  end.

(** The next section of a connection that is not waiting. *)
Definition act (cfg : Limits) (s : Signaling) (p : rstring) (c : Conn) (now : Z)
  : Signaling * Conn * list (rstring * SignalingMessage) :=
  match doing c with
  | Admitting stream is_publisher =>
      match join_room cfg s p stream is_publisher with
      | (s, ROk _) => (s, with_doing c (Joined stream is_publisher), [])
      | (s, RErr e) => (s, with_doing c Receiving, [(p, ErrorMessage e)])
      end
  | Joined stream is_publisher =>
      (with_active s (<[stream := now]> (stream_last_active s)),
       {| current_stream := Some stream; doing := Touched stream is_publisher |}, [])
  | Touched stream is_publisher =>
      (s, with_doing c (Listed stream is_publisher (without p (default [] (rooms s !! stream)))), [])
  | Listed stream is_publisher peers =>
      (s, with_doing c Receiving,
       (p, PeerList peers) ::
       map (fun q => (sp_id q, PeerJoin p stream is_publisher)) (without p (default [] (rooms s !! stream))))
  | Broadcasting ids m => (s, with_doing c Receiving, map (fun q => (q, m)) ids)
  | Leaving closing => (with_senders s (delete p (peer_senders s)), with_doing c (Left closing), [])
  | Left closing =>
      let '(s, out) := match current_stream c with Some stream => leave_room s p stream | None => (s, []) end in
      (s, {| current_stream := None; doing := if closing then Gone else Receiving |}, out)
  | Receiving | Gone => (s, c, [])
  end.

(** ** The node *)

(** The kicks that are under way: the rooms, then the notifications, then the
    queue. *)
Inductive kick : Type :=
| KickRooms (p : rstring)
| KickNotify (p : rstring) (ids : list rstring)
| KickSender (p : rstring).

Record World : Type := {
  signaling : Signaling;
  conns : gmap rstring Conn;
  kicks : list kick;
  moderation : option ModerationManager;
}.

Definition new_world (moderation : option ModerationManager) : World :=
  {| signaling := new_signaling; conns := ∅; kicks := []; moderation := moderation |}.

Definition allowed (w : World) (p : rstring) : bool :=
  match moderation w with Some m => is_peer_allowed m p | None => true end.

Definition set_conn (w : World) (s : Signaling) (p : rstring) (c : Conn) : World :=
  {| signaling := s; conns := <[p := c]> (conns w); kicks := kicks w; moderation := moderation w |}.
Definition set_signaling (w : World) (s : Signaling) (ks : list kick) : World :=
  {| signaling := s; conns := conns w; kicks := ks; moderation := moderation w |}.
Definition set_moderation (w : World) (m : ModerationManager) (ks : list kick) : World :=
  {| signaling := signaling w; conns := conns w; kicks := ks; moderation := Some m |}.

(** What is seen of a step: a message read from a connection, and the messages
    handed to the queues on whose behalf. *)
Record seen : Type := {
  read : option (rstring * SignalingMessage);
  behalf : rstring;
  sent : list (rstring * SignalingMessage);
}.

Definition nothing : seen := {| read := None; behalf := []; sent := [] |}.

Inductive step (cfg : Limits) (w : World) : seen -> World -> Prop :=
(* a connection gets an identifier that no connection had *)
| step_connect p : conns w !! p = None ->
    step cfg w nothing (set_conn w (with_senders (signaling w) (<[p := []]> (peer_senders (signaling w)))) p
                          {| current_stream := None; doing := Receiving |})
| step_receive p c m s' c' out : conns w !! p = Some c -> doing c = Receiving ->
    receive (allowed w p) (signaling w) p c m = (s', c', out) ->
    step cfg w {| read := Some (p, m); behalf := p; sent := out |} (set_conn w (send_all s' out) p c')
| step_invalid p c e : conns w !! p = Some c -> doing c = Receiving ->
    step cfg w {| read := None; behalf := p; sent := [(p, ErrorMessage e)] |}
      (set_conn w (send_all (signaling w) [(p, ErrorMessage e)]) p c)
| step_close p c : conns w !! p = Some c -> doing c = Receiving ->
    step cfg w nothing (set_conn w (signaling w) p (with_doing c (Leaving true)))
| step_act p c now s' c' out : conns w !! p = Some c -> act cfg (signaling w) p c now = (s', c', out) ->
    step cfg w {| read := None; behalf := p; sent := out |} (set_conn w (send_all s' out) p c')
(* a queue is forwarded to its socket *)
| step_forward p m q : peer_senders (signaling w) !! p = Some (m :: q) ->
    step cfg w nothing (set_signaling w (with_senders (signaling w) (<[p := q]> (peer_senders (signaling w)))) (kicks w))
(* moderation: blocking also starts a kick *)
| step_block m p reason now : moderation w = Some m ->
    step cfg w nothing (set_moderation w (fst (mod_effect m (BlockPeer p reason) now)) (KickRooms p :: kicks w))
| step_moderate m op now : moderation w = Some m -> (forall p reason, op <> BlockPeer p reason) ->
    step cfg w nothing (set_moderation w (fst (mod_effect m op now)) (kicks w))
| step_kick_rooms (O : HashOrder rstring) p ks1 ks2 : kicks w = ks1 ++ KickRooms p :: ks2 ->
    step cfg w nothing (let '(s, ids) := kick_rooms (signaling w) p in set_signaling w s (ks1 ++ KickNotify p ids :: ks2))
| step_kick_notify p ids ks1 ks2 : kicks w = ks1 ++ KickNotify p ids :: ks2 ->
    step cfg w {| read := None; behalf := p; sent := map (fun q => (q, PeerLeave p)) ids |}
      (set_signaling w (send_all (signaling w) (map (fun q => (q, PeerLeave p)) ids)) (ks1 ++ KickSender p :: ks2))
| step_kick_sender p ks1 ks2 : kicks w = ks1 ++ KickSender p :: ks2 ->
    step cfg w nothing (set_signaling w (with_senders (signaling w) (delete p (peer_senders (signaling w)))) (ks1 ++ ks2))
(* idle rooms *)
| step_idle now : 0 < idle_cleanup_secs cfg ->
    step cfg w nothing (set_signaling w (idle_cleanup cfg (signaling w) now) (kicks w)).

Definition steps (cfg : Limits) (w w' : World) : Prop := exists l, step cfg w l w'.

(** ** Queues do not touch rooms *)

Lemma send_to_rooms s m : rooms (send_to s m) = rooms s /\ stream_last_active (send_to s m) = stream_last_active s.
Proof. unfold send_to. destruct (peer_senders s !! _) as [q|]; [|done]. by destruct (zlen q <? QUEUE_CAPACITY). Qed.

Lemma send_all_rooms s ms : rooms (send_all s ms) = rooms s.
Proof.
  revert s. induction ms as [|m ms IH]; intros s; [done|]. cbn. unfold send_all in IH. rewrite IH. apply send_to_rooms.
Qed.

Lemma send_all_active s ms : stream_last_active (send_all s ms) = stream_last_active s.
Proof.
  revert s. induction ms as [|m ms IH]; intros s; [done|]. cbn. unfold send_all in IH. rewrite IH. apply send_to_rooms.
Qed.

(** A peer is in a room. *)
Definition listed (s : Signaling) (stream p : rstring) : Prop := exists peers, rooms s !! stream = Some peers /\ p ∈ map sp_id peers.

Lemma without_ids p peers : map sp_id (without p peers) = List.filter (fun q => negb (str_eqb q p)) (map sp_id peers).
Proof. unfold without. by rewrite filter_map_comm. Qed.

Lemma elem_of_without p q peers : q ∈ map sp_id (without p peers) <-> q <> p /\ q ∈ map sp_id peers.
Proof.
  rewrite without_ids. rewrite !list_elem_of_In, filter_In. destruct (str_eqb_spec q p) as [->|Hne]; cbn; intuition congruence.
Qed.

Lemma in_room_iff p peers : in_room p peers = true <-> p ∈ map sp_id peers.
Proof.
  unfold in_room. rewrite existsb_exists, elem_of_map. split.
  - intros (q & Hq & Heq). destruct (str_eqb_spec (sp_id q) p) as [<-|]; [|done]. exists q. split; [done|]. by apply list_elem_of_In.
  - intros (q & -> & Hq). exists q. split; [by apply list_elem_of_In|]. apply str_eqb_refl.
Qed.

Lemma without_absent p peers : in_room p peers = false -> without p peers = peers.
Proof.
  intros Hn. unfold without. induction peers as [|q peers IH]; [done|]. cbn in *. apply orb_false_iff in Hn as [-> Hn]. cbn. by rewrite IH.
Qed.

Lemma update_peer_ids p a b peers : map sp_id (update_peer p a b peers) = map sp_id peers.
Proof. induction peers as [|q peers IH]; [done|]. cbn. destruct (str_eqb _ _); cbn; [done|]. by rewrite IH. Qed.

Lemma length_without p peers : (length (without p peers) <= length peers)%nat.
Proof. apply filter_length_le. Qed.

Lemma length_without_member p peers : p ∈ map sp_id peers -> (length (without p peers) < length peers)%nat.
Proof.
  intros Hp. induction peers as [|q peers IH]; [by apply not_elem_of_nil in Hp|]. cbn. pose proof (length_without p peers) as Hle.
  destruct (str_eqb_spec (sp_id q) p) as [Heq|Hne]; cbn; [unfold without in Hle; lia|].
  cbn in Hp. apply elem_of_cons in Hp as [->|Hp]; [done|]. specialize (IH Hp). unfold without in IH. lia.
Qed.

(** ** The rooms stay within their limits *)

(** A room is never empty, lists nobody twice, is named by a valid identifier,
    and there are not too many rooms or peers in one. *)
Definition room_ok (cfg : Limits) (stream : rstring) (peers : list SignalingPeer) : Prop :=
  peers <> [] /\ NoDup (map sp_id peers) /\ validate_id stream 128 = true /\ zlen peers <= Z.max 1 (max_peers_per_stream cfg).

Definition rooms_ok (cfg : Limits) (s : Signaling) : Prop :=
  Z.of_nat (size (rooms s)) <= max_stream_rooms cfg /\ map_Forall (room_ok cfg) (rooms s).

(** A join that is under way has had its identifier checked. *)
Definition conn_ok (c : Conn) : Prop :=
  match doing c with Admitting stream _ => validate_id stream 128 = true | _ => True end.

Lemma room_ok_shrink cfg stream peers peers' : room_ok cfg stream peers -> peers' <> [] ->
  map sp_id peers' `sublist_of` map sp_id peers -> room_ok cfg stream peers'.
Proof.
  intros (Hne & Hnd & Hv & Hl) Hne' Hsub. split_and!; [done|by eapply sublist_NoDup|done|].
  apply sublist_length in Hsub. rewrite !length_map in Hsub. unfold zlen in *. lia.
Qed.

Lemma without_sublist p peers : map sp_id (without p peers) `sublist_of` map sp_id peers.
Proof.
  induction peers as [|q peers IH]; [done|]. cbn. destruct (negb _); cbn; [by apply sublist_skip|by apply sublist_cons].
Qed.

Lemma join_room_ok cfg s p stream b : rooms_ok cfg s -> validate_id stream 128 = true ->
  rooms_ok cfg (fst (join_room cfg s p stream b)).
Proof.
  intros [Hsize Hall] Hv. unfold join_room. destruct (rooms s !! stream) as [peers|] eqn:Hr.
  - destruct (negb (in_room p peers) && _) eqn:Hfull; [done|]. split; cbn.
    + rewrite map_size_insert_Some; [done|by exists peers].
    + apply map_Forall_insert_2; [|done]. destruct (Hall _ _ Hr) as (Hne & Hnd & _ & Hl). split_and!; [by destruct (without p peers)| |done|].
      * rewrite map_app. cbn. apply NoDup_app. split_and!; [eapply sublist_NoDup; [exact Hnd|apply without_sublist]| |apply NoDup_singleton].
        intros x Hx ->%list_elem_of_singleton. by apply elem_of_without in Hx as [? _].
      * unfold zlen in *. rewrite length_app. cbn [length]. destruct (in_room p peers) eqn:Hin; cbn in Hfull.
        -- apply in_room_iff, length_without_member in Hin. lia.
        -- apply Z.leb_gt in Hfull. pose proof (length_without p peers). lia.
  - destruct (Z.leb_spec (max_stream_rooms cfg) (Z.of_nat (size (rooms s)))); [done|]. split; cbn.
    + rewrite map_size_insert_None by done. lia.
    + apply map_Forall_insert_2; [|done]. split_and!; [done|apply NoDup_singleton|done|]. change (zlen [_]) with 1. lia.
Qed.

Lemma leave_room_ok cfg s p stream : rooms_ok cfg s -> rooms_ok cfg (fst (leave_room s p stream)).
Proof.
  intros [Hsize Hall]. unfold leave_room. destruct (rooms s !! stream) as [peers|] eqn:Hr; [|done]. cbn.
  destruct (without p peers) as [|q qs] eqn:Hw.
  - split; cbn; [|by apply map_Forall_delete]. rewrite map_size_delete_Some by (by exists peers). lia.
  - split; cbn; [rewrite map_size_insert_Some; [done|by exists peers]|]. apply map_Forall_insert_2; [|done].
    eapply room_ok_shrink; [by apply (Hall _ _ Hr)|done|]. rewrite <- Hw. apply without_sublist.
Qed.

Lemma filter_size_le {A} (P : rstring * A -> Prop) `{!forall x, Decision (P x)} (m : gmap rstring A) : (size (filter P m) <= size m)%nat.
Proof. apply map_subseteq_size, map_filter_subseteq. Qed.

Lemma kick_rooms_ok `{!HashOrder rstring} cfg s p : rooms_ok cfg s -> rooms_ok cfg (fst (kick_rooms s p)).
Proof.
  intros [Hsize Hall]. split; cbn.
  - pose proof (filter_size_le (fun e => snd e <> []) (without p <$> rooms s)). rewrite map_size_fmap in H. lia.
  - intros stream peers [Hp Hne]%map_lookup_filter_Some. apply lookup_fmap_Some in Hp as (peers0 & <- & Hp).
    eapply room_ok_shrink; [by apply (Hall _ _ Hp)|done|apply without_sublist].
Qed.

Lemma idle_cleanup_ok cfg s now : rooms_ok cfg s -> rooms_ok cfg (idle_cleanup cfg s now).
Proof.
  intros [Hsize Hall]. split; cbn.
  - match goal with |- context [filter ?P (rooms s)] => pose proof (filter_size_le P (rooms s)) end. lia.
  - intros stream peers [Hp _]%map_lookup_filter_Some. by apply Hall.
Qed.

Lemma receive_ok cfg ok s p c m : rooms_ok cfg s -> conn_ok c ->
  let '(s', c', _) := receive ok s p c m in rooms_ok cfg s' /\ conn_ok c'.
Proof.
  intros Hs Hc. destruct m as [x t sdp|x t sdp|x t cand mid i|x stream b|x|peers|x st b r|e]; cbn; try done.
  - destruct ok; cbn; [|done]. by destruct t.
  - destruct (validate_id stream 128) eqn:Hv; cbn; [|done]. by destruct ok.
  - destruct (current_stream c) as [stream|]; [|done]. destruct (rooms s !! stream) as [peers|] eqn:Hr; [|done].
    split; [|done]. destruct Hs as [Hsize Hall]. split; cbn; [rewrite map_size_insert_Some; [done|by exists peers]|].
    apply map_Forall_insert_2; [|done]. destruct (Hall _ _ Hr) as (Hne & Hnd & Hv & Hl).
    assert (Hlen : length (update_peer p b r peers) = length peers).
    { rewrite <- (length_map sp_id), update_peer_ids. apply length_map. }
    split_and!; [|by rewrite update_peer_ids|done|unfold zlen in *; by rewrite Hlen].
    intros Hnil. rewrite Hnil in Hlen. by destruct peers.
Qed.

Lemma act_ok cfg s p c now : rooms_ok cfg s -> conn_ok c ->
  let '(s', c', _) := act cfg s p c now in rooms_ok cfg s' /\ conn_ok c'.
Proof.
  intros Hs Hc. unfold act, conn_ok in *. destruct (doing c) as [|stream b|stream b|stream b|stream b peers|ids m|cl|cl|] eqn:Hd; cbn;
    try (split; [done|by rewrite ?Hd]).
  - pose proof (join_room_ok cfg s p stream b Hs Hc) as Hj. by destruct (join_room cfg s p stream b) as [s' [[]|e]].
  - destruct (current_stream c) as [stream|]; [|by destruct cl].
    pose proof (leave_room_ok cfg s p stream Hs) as Hl. destruct (leave_room s p stream) as [s' out]. by destruct cl.
Qed.

Definition world_ok (cfg : Limits) (w : World) : Prop :=
  rooms_ok cfg (signaling w) /\ map_Forall (fun _ c => conn_ok c) (conns w).

Lemma rooms_ok_same cfg s s' : rooms s' = rooms s -> rooms_ok cfg s -> rooms_ok cfg s'.
Proof. unfold rooms_ok. by intros ->. Qed.

Lemma step_ok cfg w l w' : world_ok cfg w -> step cfg w l w' -> world_ok cfg w'.
Proof.
  intros [Hs Hc].
  destruct 1 as [p Hp|p c m s' c' out Hp Hd Hr|p c e Hp Hd|p c Hp Hd|p c now s' c' out Hp Ha|p m q Hq|m p reason now Hm|m op now Hm _
    |O p ks1 ks2 Hk|p ids ks1 ks2 Hk|p ks1 ks2 Hk|now Hi]; split; cbn; try done.
  - by apply map_Forall_insert_2.
  - pose proof (receive_ok cfg (allowed w p) (signaling w) p c m Hs (Hc p c Hp)) as Hok. rewrite Hr in Hok.
    eapply rooms_ok_same; [apply send_all_rooms|]. apply Hok.
  - pose proof (receive_ok cfg (allowed w p) (signaling w) p c m Hs (Hc p c Hp)) as Hok. rewrite Hr in Hok. destruct Hok. by apply map_Forall_insert_2.
  - eapply rooms_ok_same; [apply (send_all_rooms _ [_])|done].
  - by apply map_Forall_insert_2; [apply (Hc p)|].
  - by apply map_Forall_insert_2.
  - pose proof (act_ok cfg (signaling w) p c now Hs (Hc p c Hp)) as Hok. rewrite Ha in Hok.
    eapply rooms_ok_same; [apply send_all_rooms|]. apply Hok.
  - pose proof (act_ok cfg (signaling w) p c now Hs (Hc p c Hp)) as Hok. rewrite Ha in Hok. destruct Hok. by apply map_Forall_insert_2.
  - by apply (kick_rooms_ok cfg (signaling w) p).
  - eapply rooms_ok_same; [apply send_all_rooms|done].
  - by apply idle_cleanup_ok.
Qed.

Lemma reachable_world_ok cfg m w : 0 <= max_stream_rooms cfg -> rtc (steps cfg) (new_world m) w -> world_ok cfg w.
Proof.
  intros Hmax. revert w. refine (rtc_ind_r _ _ _ _).
  - split; [split; [done|apply map_Forall_empty]|apply map_Forall_empty].
  - intros y z _ [l Hs] Hok. by eapply step_ok.
Qed.

(** C24: In every interleaving of connections, moderation and cleanup the rooms stay
    within their limits: no more rooms than configured, in each no more peers
    than configured (or one, if that is zero), nobody twice, no empty room, and
    none with an identifier that is not valid. *)
Theorem rooms_within_limits cfg m w : 0 <= max_stream_rooms cfg -> rtc (steps cfg) (new_world m) w ->
  Z.of_nat (size (rooms (signaling w))) <= max_stream_rooms cfg /\
  forall stream peers, rooms (signaling w) !! stream = Some peers ->
    peers <> [] /\ NoDup (map sp_id peers) /\ validate_id stream 128 = true /\ zlen peers <= Z.max 1 (max_peers_per_stream cfg).
Proof.
  intros Hmax Hr. destruct (reachable_world_ok cfg m w Hmax Hr) as [[Hsize Hall] _]. split; [done|].
  intros stream peers Hp. by apply Hall.
Qed.

(** ** Messages carry the name of their sender *)

(** Who a message says it is from. *)
Definition source (m : SignalingMessage) : option rstring :=
  match m with
  | Offer p _ _ | Answer p _ _ | IceCandidate p _ _ _ _ | PeerJoin p _ _ | PeerLeave p | PeerUpdate p _ _ _ => Some p
  | PeerList _ | ErrorMessage _ => None
  end.

(** Messages on behalf of a peer: they name it, or answer it. *)
Definition honest (p : rstring) (out : list (rstring * SignalingMessage)) : Prop :=
  Forall (fun e => match source (snd e) with Some q => q = p | None => fst e = p end) out.

(** What a connection is about to broadcast names it. *)
Definition names_self (p : rstring) (c : Conn) : Prop :=
  match doing c with Broadcasting _ m => source m = Some p | _ => True end.

Lemma honest_map {A} p (f : A -> rstring * SignalingMessage) l : (forall x, source (snd (f x)) = Some p) -> honest p (map f l).
Proof. intros Hf. apply list.Forall_forall. intros e (x & -> & _)%elem_of_map. by rewrite Hf. Qed.

Lemma receive_honest ok s p c m : names_self p c ->
  let '(_, c', out) := receive ok s p c m in honest p out /\ names_self p c'.
Proof.
  intros Hc. destruct m as [x t sdp|x t sdp|x t cand mid i|x stream b|x|peers|x st b r|e]; cbn; try (split; [by repeat constructor|done]).
  - destruct ok; cbn; [destruct t|]; (split; [by repeat constructor|done]).
  - destruct (validate_id stream 128); cbn; [destruct ok|]; (split; [by repeat constructor|done]).
  - destruct (current_stream c) as [stream|]; [destruct (rooms s !! stream)|]; (split; [by repeat constructor|done]).
Qed.

Lemma act_honest cfg s p c now : names_self p c ->
  let '(_, c', out) := act cfg s p c now in honest p out /\ names_self p c'.
Proof.
  intros Hc. unfold act, names_self in *. destruct (doing c) as [|stream b|stream b|stream b|stream b peers|ids m|cl|cl|] eqn:Hd; cbn;
    try (split; [by repeat constructor|by rewrite ?Hd]).
  - destruct (join_room cfg s p stream b) as [s' [[]|e]]; (split; [by repeat constructor|done]).
  - split; [|done]. constructor; [done|]. by apply honest_map.
  - split; [|done]. by apply honest_map.
  - unfold leave_room. destruct (current_stream c) as [stream|]; [destruct (rooms s !! stream) as [peers|]|];
      (split; [|by destruct cl]); [|by constructor..]. by apply honest_map.
Qed.

(** Nobody speaks for another: whatever name a message that is read carries,
    every message that the node passes on names the connection it was read from
    (or the peer that is kicked), and lists and errors go to that connection
    only. *)
Theorem sender_not_forged cfg m w l w' : rtc (steps cfg) (new_world m) w -> step cfg w l w' ->
  (forall p msg, read l = Some (p, msg) -> p = behalf l) /\ honest (behalf l) (sent l).
Proof.
  intros Hr Hs.
  assert (Hn : map_Forall names_self (conns w)).
  { clear Hs. revert w Hr. refine (rtc_ind_r _ _ _ _); [apply map_Forall_empty|]. intros y z _ [l' Hs] Hn.
    destruct Hs as [p Hp|p c msg s' c' out Hp Hd Hr|p c e Hp Hd|p c Hp Hd|p c now s' c' out Hp Ha|p msg q Hq|m' p reason now Hm|m' op now Hm _
      |O p ks1 ks2 Hk|p ids ks1 ks2 Hk|p ks1 ks2 Hk|now Hi]; cbn; try done.
    - by apply map_Forall_insert_2.
    - apply map_Forall_insert_2; [|done]. pose proof (receive_honest (allowed y p) (signaling y) p c msg (Hn p c Hp)) as Hh. rewrite Hr in Hh. apply Hh.
    - by apply map_Forall_insert_2; [apply (Hn p)|].
    - by apply map_Forall_insert_2.
    - apply map_Forall_insert_2; [|done]. pose proof (act_honest cfg (signaling y) p c now (Hn p c Hp)) as Hh. rewrite Ha in Hh. apply Hh. }
  destruct Hs as [p Hp|p c msg s' c' out Hp Hd Hrc|p c e Hp Hd|p c Hp Hd|p c now s' c' out Hp Ha|p msg q Hq|m' p reason now Hm|m' op now Hm _
    |O p ks1 ks2 Hk|p ids ks1 ks2 Hk|p ks1 ks2 Hk|now Hi]; cbn; (split; [by intros ? ? [= <- <-] || done|]); try (by constructor).
  - pose proof (receive_honest (allowed w p) (signaling w) p c msg (Hn p c Hp)) as Hh. rewrite Hrc in Hh. apply Hh.
  - pose proof (act_honest cfg (signaling w) p c now (Hn p c Hp)) as Hh. rewrite Ha in Hh. apply Hh.
  - by apply honest_map.
Qed.

(** ** Membership *)

Lemma listed_same s s' stream p : rooms s' = rooms s -> listed s' stream p <-> listed s stream p.
Proof. unfold listed. by intros ->. Qed.

Lemma listed_join cfg s p stream b s' r stream' q : join_room cfg s p stream b = (s', r) ->
  listed s' stream' q -> listed s stream' q \/ (r = ROk tt /\ stream' = stream /\ q = p).
Proof.
  unfold join_room. destruct (rooms s !! stream) as [peers|] eqn:Hr.
  - destruct (_ && _); intros [= <- <-]; [by left|]. intros (ps & Hps & Hq). cbn in Hps.
    apply lookup_insert_Some in Hps as [[<- <-]|[Hne Hps]]; [|left; by exists ps].
    rewrite map_app in Hq. apply elem_of_app in Hq as [Hq|Hq%list_elem_of_singleton]; [|by right].
    left. exists peers. split; [done|]. by apply elem_of_without in Hq as [_ ?].
  - destruct (_ <=? _); intros [= <- <-]; [by left|]. intros (ps & Hps & Hq). cbn in Hps.
    apply lookup_insert_Some in Hps as [[<- <-]|[Hne Hps]]; [|left; by exists ps].
    apply list_elem_of_singleton in Hq. by right.
Qed.

Lemma listed_leave s p stream stream' q : listed (fst (leave_room s p stream)) stream' q ->
  listed s stream' q /\ (stream' = stream -> q <> p).
Proof.
  unfold leave_room. destruct (rooms s !! stream) as [peers|] eqn:Hr; cbn.
  - intros (ps & Hps & Hq).
    assert (Hor : (stream' = stream /\ ps = without p peers) \/ (stream' <> stream /\ rooms s !! stream' = Some ps)).
    { cbn in Hps. destruct (without p peers) as [|x xs].
      - apply lookup_delete_Some in Hps as [Hne Hps]. right. by split.
      - apply lookup_insert_Some in Hps as [[<- <-]|[Hne Hps]]; [by left|right; by split]. }
    destruct Hor as [[-> ->]|[Hne Hs]].
    + apply elem_of_without in Hq as [Hne Hq]. split; [by exists peers|done].
    + split; [by exists ps|done].
  - intros Hl. split; [done|]. intros ->. destruct Hl as (ps & Hps & _). congruence.
Qed.

Lemma listed_kick `{!HashOrder rstring} s p stream q : listed (fst (kick_rooms s p)) stream q -> listed s stream q /\ q <> p.
Proof.
  intros (ps & [Hps _]%map_lookup_filter_Some & Hq). apply lookup_fmap_Some in Hps as (peers & <- & Hps).
  apply elem_of_without in Hq as [Hne Hq]. split; [by exists peers|done].
Qed.

Lemma listed_idle cfg s now stream q : listed (idle_cleanup cfg s now) stream q -> listed s stream q.
Proof. intros (ps & [Hps _]%map_lookup_filter_Some & Hq). by exists ps. Qed.

Lemma listed_receive ok s p c m s' c' out stream q : receive ok s p c m = (s', c', out) -> listed s' stream q -> listed s stream q.
Proof.
  destruct m as [x t sdp|x t sdp|x t cand mid i|x st b|x|peers|x st b r|e]; cbn.
  - destruct ok; cbn; [destruct t|]; by intros [= <- <- <-].
  - by intros [= <- <- <-].
  - by intros [= <- <- <-].
  - destruct (validate_id st 128); cbn; [destruct ok|]; by intros [= <- <- <-].
  - by intros [= <- <- <-].
  - by intros [= <- <- <-].
  - destruct (current_stream c) as [cur|]; [|by intros [= <- <- <-]]. destruct (rooms s !! cur) as [peers|] eqn:Hr; [|by intros [= <- <- <-]].
    intros [= <- <- <-] (ps & Hps & Hq). cbn in Hps. apply lookup_insert_Some in Hps as [[<- <-]|[Hne Hps]]; [|by exists ps].
    exists peers. split; [done|]. by rewrite update_peer_ids in Hq.
  - by intros [= <- <- <-].
Qed.

(** What a section of a connection does to the rooms: it can add the connection
    itself to the room it was admitted to, and takes it out of its current one. *)
Lemma listed_act cfg s p c now s' c' out stream q : act cfg s p c now = (s', c', out) -> listed s' stream q ->
  (listed s stream q /\ (forall closing, doing c = Left closing -> current_stream c = Some stream -> q <> p)) \/
  (exists b, doing c = Admitting stream b /\ doing c' = Joined stream b /\ q = p).
Proof.
  unfold act. destruct (doing c) as [|st b|st b|st b|st b peers|ids m|cl|cl|] eqn:Hd; try (intros [= <- <- <-] Hl; left; by split).
  - destruct (join_room cfg s p st b) as [s1 [[]|e]] eqn:Hj; intros [= <- <- <-] Hl;
      (destruct (listed_join _ _ _ _ _ _ _ _ _ Hj Hl) as [?|(_ & -> & ->)]; [left; by split|]); [right; by exists b|].
    destruct (listed_join _ _ _ _ _ _ _ _ _ Hj Hl) as [?|(? & _ & _)]; [left; by split|done].
  - destruct (current_stream c) as [cur|] eqn:Hcur.
    + destruct (leave_room s p cur) as [s1 o] eqn:Hlv. intros [= <- <- <-] Hl. left.
      assert (Hl' : listed (fst (leave_room s p cur)) stream q) by (by rewrite Hlv).
      apply listed_leave in Hl' as [Hl' Hne]. split; [done|]. intros cl' _ [= ->]. by apply Hne.
    + intros [= <- <- <-] Hl. left. by split.
Qed.

(** A connection joins one room at a time when it only asks for a room while it
    is in none, or for the room it is in. *)
Definition one_room (w : World) (l : seen) : Prop :=
  match read l with
  | Some (p, PeerJoin _ stream _) =>
      forall c, conns w !! p = Some c -> current_stream c = None \/ current_stream c = Some stream
  | _ => True
  end.

Definition one_room_steps (cfg : Limits) (w w' : World) : Prop := exists l, step cfg w l w' /\ one_room w l.

(** The room that the connection is in, by its own account. *)
Definition accounted (w : World) (stream p : rstring) : Prop :=
  exists c, conns w !! p = Some c /\ (current_stream c = Some stream \/ exists b, doing c = Joined stream b).

Definition consistent (c : Conn) : Prop :=
  match doing c with
  | Admitting s _ | Joined s _ => current_stream c = None \/ current_stream c = Some s
  | Gone => current_stream c = None
  | _ => True
  end.

Definition members_ok (w : World) : Prop :=
  (forall stream p, listed (signaling w) stream p -> accounted w stream p) /\ map_Forall (fun _ c => consistent c) (conns w).

Lemma accounted_other w s p c stream q : q <> p -> accounted w stream q -> accounted (set_conn w s p c) stream q.
Proof. intros Hne (cq & Hq & Hor). exists cq. split; [|done]. cbn. by rewrite lookup_insert_ne. Qed.

Lemma act_members cfg w p c now s' c' out : members_ok w -> conns w !! p = Some c ->
  act cfg (signaling w) p c now = (s', c', out) -> members_ok (set_conn w (send_all s' out) p c').
Proof.
  intros [Hl Hc] Hp Ha. pose proof (Hc p c Hp) as Hcon. cbn in Hcon. split.
  - intros stream q Hq. apply (listed_same s') in Hq; [|apply send_all_rooms].
    destruct (listed_act _ _ _ _ _ _ _ _ _ _ Ha Hq) as [[Hold Hleft]|(b & Hadm & Hj & ->)].
    + destruct (decide (q = p)) as [->|Hne]; [|by apply accounted_other, Hl].
      destruct (Hl _ _ Hold) as (c0 & Hc0 & Hor). rewrite Hp in Hc0. injection Hc0 as <-.
      exists c'. split; [cbn; by rewrite lookup_insert_eq|]. revert Ha. unfold act, consistent in *.
      destruct (doing c) as [|st b|st b|st b|st b peers|ids m|cl|cl|] eqn:Hd.
      * intros [= <- <- <-]. left. destruct Hor as [?|[b ?]]; [done|congruence].
      * destruct Hor as [Hor|[b' ?]]; [|congruence].
        destruct (join_room cfg (signaling w) p st b) as [s1 [[]|e]]; intros [= <- <- <-]; by left.
      * intros [= <- <- <-]. left. cbn. destruct Hor as [Hor|[b' Hb']]; [destruct Hcon; congruence|congruence].
      * intros [= <- <- <-]. left. destruct Hor as [?|[b' ?]]; [done|congruence].
      * intros [= <- <- <-]. left. destruct Hor as [?|[b' ?]]; [done|congruence].
      * intros [= <- <- <-]. left. destruct Hor as [?|[b' ?]]; [done|congruence].
      * intros [= <- <- <-]. left. destruct Hor as [?|[b' ?]]; [done|congruence].
      * destruct Hor as [Hor|[b' ?]]; [|congruence]. by destruct (Hleft cl eq_refl Hor).
      * intros [= <- <- <-]. left. destruct Hor as [?|[b' ?]]; [done|congruence].
    + exists c'. split; [cbn; by rewrite lookup_insert_eq|]. right. by exists b.
  - cbn. apply map_Forall_insert_2; [|done]. revert Ha. unfold act, consistent in *.
    destruct (doing c) as [|st b|st b|st b|st b peers|ids m|cl|cl|] eqn:Hd; try (intros [= <- <- <-]; by rewrite ?Hd).
    + destruct (join_room cfg (signaling w) p st b) as [s1 [[]|e]]; by intros [= <- <- <-].
    + destruct (match current_stream c with Some _ => _ | None => _ end) as [s1 o]. intros [= <- <- <-]. by destruct cl.
Qed.

Lemma members_same_rooms w w' : rooms (signaling w') = rooms (signaling w) -> conns w' = conns w -> members_ok w -> members_ok w'.
Proof. intros Hr Hc [Hl Hall]. split; [|by rewrite Hc]. intros stream p Hlp. unfold accounted. rewrite Hc. apply Hl. by apply (listed_same (signaling w) (signaling w')) in Hlp. Qed.

(** A connection that only waits can be replaced by one that keeps the same
    account. *)
Lemma members_conn w s p c c' : members_ok w -> conns w !! p = Some c -> (forall stream q, listed s stream q -> listed (signaling w) stream q) ->
  consistent c' -> (forall stream, current_stream c = Some stream \/ (exists b, doing c = Joined stream b) ->
    current_stream c' = Some stream \/ (exists b, doing c' = Joined stream b)) -> members_ok (set_conn w s p c').
Proof.
  intros [Hl Hall] Hp Hsub Hc' Hkeep. split; [|by apply map_Forall_insert_2]. intros stream q Hq. apply Hsub, Hl in Hq.
  destruct (decide (q = p)) as [->|Hne]; [|by apply accounted_other]. destruct Hq as (c0 & Hc0 & Hor). rewrite Hp in Hc0. injection Hc0 as <-.
  exists c'. split; [cbn; by rewrite lookup_insert_eq|]. by apply Hkeep.
Qed.

Lemma receive_consistent ok s p c m s' c' out : doing c = Receiving -> receive ok s p c m = (s', c', out) ->
  (forall x stream b, m = PeerJoin x stream b -> current_stream c = None \/ current_stream c = Some stream) ->
  consistent c' /\ current_stream c' = current_stream c /\ (forall stream b, doing c' <> Joined stream b).
Proof.
  intros Hd Hr Hone. assert (Hsame : consistent c /\ current_stream c = current_stream c /\ (forall stream b, doing c <> Joined stream b))
    by (unfold consistent; by rewrite Hd).
  revert Hr. destruct m as [x t sdp|x t sdp|x t cand mid i|x st b|x|peers|x st b r|e]; cbn; try (intros [= <- <- <-]; done).
  - destruct ok; cbn; [destruct t|]; by intros [= <- <- <-].
  - destruct (validate_id st 128); cbn; [destruct ok|]; intros [= <- <- <-]; try done. split; [by apply (Hone x st b)|done].
  - destruct (current_stream c) as [cur|] eqn:Hc; [|intros [= <- <- <-]; by rewrite Hc].
    destruct (rooms s !! cur); intros [= <- <- <-]; (split; [by unfold consistent; rewrite ?Hd|]; split; [done|by intros; cbn; congruence]).
Qed.

Lemma step_members cfg w l w' : members_ok w -> step cfg w l w' -> one_room w l -> members_ok w'.
Proof.
  intros Hok Hs Hone. pose proof Hok as [Hl Hc].
  destruct Hs as [p Hp|p c m s' c' out Hp Hd Hr|p c e Hp Hd|p c Hp Hd|p c now s' c' out Hp Ha|p m q Hq|m p reason now Hm|m op now Hm _
    |O p ks1 ks2 Hk|p ids ks1 ks2 Hk|p ks1 ks2 Hk|now Hi].
  - split; [|by apply map_Forall_insert_2]. intros stream q Hq. apply (listed_same (signaling w)) in Hq; [|done]. apply Hl in Hq as (c & Hcq & Hor).
    exists c. split; [|done]. cbn. rewrite lookup_insert_ne; [done|]. intros ->. congruence.
  - cbn in Hone. destruct (receive_consistent _ _ _ _ _ _ _ _ Hd Hr) as (Hc' & Hcur & Hnj).
    { intros x stream b ->. by apply Hone. }
    eapply members_conn; [done..| |done|].
    + intros stream q Hq. apply (listed_same s') in Hq; [|apply send_all_rooms]. by eapply listed_receive.
    + intros stream [Hcs|[b Hb]]; [left; congruence|congruence].
  - eapply members_conn; [done|done| |by apply (Hc p)|done]. intros stream q Hq. by apply (listed_same (signaling w)) in Hq; [|apply (send_all_rooms _ [_])].
  - eapply members_conn; [done|done|done|done|]. intros stream [Hcs|[b Hb]]; [by left|congruence].
  - by eapply act_members.
  - by eapply members_same_rooms.
  - by eapply members_same_rooms.
  - by eapply members_same_rooms.
  - split; [|done]. intros stream q Hq. apply Hl. by apply listed_kick in Hq as [? _].
  - eapply members_same_rooms; [apply send_all_rooms|done|done].
  - by eapply members_same_rooms.
  - split; [|done]. intros stream q Hq. apply Hl. exact (listed_idle cfg _ now _ _ Hq).
Qed.

(** C23: As long as no connection asks for a second room, the rooms list only live
    connections, and each in one room at most: who disconnects is listed
    nowhere. *)
Theorem members_are_live cfg m w : rtc (one_room_steps cfg) (new_world m) w ->
  (forall stream p, listed (signaling w) stream p -> exists c, conns w !! p = Some c /\ doing c <> Gone) /\
  (forall s1 s2 p, listed (signaling w) s1 p -> listed (signaling w) s2 p -> s1 = s2).
Proof.
  intros Hr. assert (Hok : members_ok w).
  { revert w Hr. refine (rtc_ind_r _ _ _ _).
    - split; [|apply map_Forall_empty]. intros stream p (peers & Hp & _). cbn in Hp. by rewrite lookup_empty in Hp.
    - intros y z _ (l & Hs & Hone) Hok. by eapply step_members. }
  destruct Hok as [Hl Hc]. split.
  - intros stream p Hp. destruct (Hl stream p Hp) as (c & Hpc & Hor). exists c. split; [done|]. intros Hg.
    specialize (Hc p c Hpc). unfold consistent in Hc. cbn in Hc. rewrite Hg in Hc. destruct Hor as [?|[b ?]]; congruence.
  - intros s1 s2 p H1 H2. destruct (Hl s1 p H1) as (c & Hpc & Hor1), (Hl s2 p H2) as (c2 & Hpc2 & Hor2).
    rewrite Hpc in Hpc2. injection Hpc2 as <-. specialize (Hc p c Hpc). unfold consistent in Hc. cbn in Hc.
    destruct Hor1 as [Hor1|[b1 Hor1]], Hor2 as [Hor2|[b2 Hor2]]; [congruence| | |congruence].
    + rewrite Hor2 in Hc. destruct Hc; congruence.
    + rewrite Hor1 in Hc. destruct Hc; congruence.
Qed.

(** ** Blocked peers *)

(** Steps after which the peer is still not allowed. *)
Definition steps_blocked (cfg : Limits) (p : rstring) (w w' : World) : Prop := steps cfg w w' /\ allowed w' p = false.

Definition shut_out (p : rstring) (w : World) : Prop :=
  allowed w p = false /\ (forall stream, ~ listed (signaling w) stream p) /\
  forall c, conns w !! p = Some c -> forall stream b, doing c <> Admitting stream b.

Lemma receive_not_admitting s p c m s' c' out : receive false s p c m = (s', c', out) ->
  doing c = Receiving -> forall stream b, doing c' <> Admitting stream b.
Proof.
  intros Hr Hd. revert Hr. destruct m as [x t sdp|x t sdp|x t cand mid i|x st b0|x|peers|x st b0 r|e]; cbn;
    try (intros [= <- <- <-]; cbn; rewrite ?Hd; done).
  - destruct (validate_id st 128); cbn; intros [= <- <- <-]; by rewrite Hd.
  - destruct (current_stream c) as [cur|]; [destruct (rooms s !! cur)|]; intros [= <- <- <-]; cbn; rewrite ?Hd; done.
Qed.

Lemma act_not_admitting cfg s p c now s' c' out : act cfg s p c now = (s', c', out) ->
  (forall stream b, doing c <> Admitting stream b) -> forall stream b, doing c' <> Admitting stream b.
Proof.
  intros Ha Hn. revert Ha. unfold act. destruct (doing c) as [|st b|st b|st b|st b peers|ids m|cl|cl|] eqn:Hd;
    try (intros [= <- <- <-]; cbn; rewrite ?Hd; done).
  - by destruct (Hn st b).
  - destruct (match current_stream c with Some _ => _ | None => _ end) as [s1 o]. intros [= <- <- <-]. by destruct cl.
Qed.

Lemma step_shut_out cfg p w l w' : shut_out p w -> step cfg w l w' -> allowed w' p = false -> shut_out p w'.
Proof.
  intros (Hb & Hl & Hc) Hs Hb'. split; [done|].
  destruct Hs as [q Hq|q c m s' c' out Hq Hd Hr|q c e Hq Hd|q c Hq Hd|q c now s' c' out Hq Ha|q m ms Hq|m q reason now Hm|m op now Hm _
    |O q ks1 ks2 Hk|q ids ks1 ks2 Hk|q ks1 ks2 Hk|now Hi]; cbn [signaling conns set_conn set_signaling set_moderation]; try (by split).
  - split; [done|]. intros c Hpc. apply lookup_insert_Some in Hpc as [[_ <-]|[_ Hpc]]; [done|by apply Hc].
  - split.
    + intros stream Hlp. apply (listed_same s') in Hlp; [|apply send_all_rooms]. apply (Hl stream). by eapply listed_receive.
    + intros c0 Hpc. apply lookup_insert_Some in Hpc as [[-> <-]|[_ Hpc]]; [|by apply Hc]. rewrite Hb in Hr. by eapply receive_not_admitting.
  - split.
    + intros stream Hlp. apply (listed_same (signaling w)) in Hlp; [|apply (send_all_rooms _ [_])]. by apply (Hl stream).
    + intros c0 Hpc. apply lookup_insert_Some in Hpc as [[-> <-]|[_ Hpc]]; by apply Hc.
  - split; [done|]. intros c0 Hpc. apply lookup_insert_Some in Hpc as [[-> <-]|[_ Hpc]]; [done|by apply Hc].
  - split.
    + intros stream Hlp. apply (listed_same s') in Hlp; [|apply send_all_rooms].
      destruct (listed_act _ _ _ _ _ _ _ _ _ _ Ha Hlp) as [[Hold _]|(b & Hadm & _ & ->)]; [by apply (Hl stream)|by destruct (Hc c Hq stream b)].
    + intros c0 Hpc. apply lookup_insert_Some in Hpc as [[-> <-]|[_ Hpc]]; [|by apply Hc]. eapply act_not_admitting; [done|by apply Hc].
  - split; [|done]. intros stream Hlp. apply (Hl stream). by apply listed_kick in Hlp as [? _].
  - split; [|done]. intros stream Hlp. apply (listed_same (signaling w)) in Hlp; [|apply send_all_rooms]. by apply (Hl stream).
  - split; [|done]. intros stream Hlp. apply (Hl stream). exact (listed_idle cfg _ now _ _ Hlp).
Qed.

(** A peer that is not allowed, is in no room and has no join under way that was
    already admitted, stays out of every room for as long as it is not
    allowed. *)
Theorem blocked_stays_out cfg p w w' : allowed w p = false -> (forall stream, ~ listed (signaling w) stream p) ->
  (forall c, conns w !! p = Some c -> forall stream b, doing c <> Admitting stream b) ->
  rtc (steps_blocked cfg p) w w' -> forall stream, ~ listed (signaling w') stream p.
Proof.
  intros Hb Hl Hc Hr. cut (shut_out p w'); [by intros (_ & ? & _)|].
  assert (H0 : shut_out p w) by done. clear Hb Hl Hc. induction Hr as [|w1 w2 w3 [[l Hs] Hb] _ IH]; [done|]. apply IH. by eapply step_shut_out.
Qed.

(** ** Scripts *)

(** Runs that are computed: a command is a step of the node, if it is possible. *)
Inductive command : Type :=
| Connect (p : rstring)
| Read (p : rstring) (m : SignalingMessage)
| Close (p : rstring)
| Act (p : rstring) (now : Z)
| Block (p : rstring) (now : Z)
| Kick
| Idle (now : Z).

Definition exec (cfg : Limits) (w : World) (cmd : command) : option World :=
  match cmd with
  | Connect p =>
      match conns w !! p with
      | None => Some (set_conn w (with_senders (signaling w) (<[p := []]> (peer_senders (signaling w)))) p {| current_stream := None; doing := Receiving |})
      | Some _ => None
      end
  | Read p m =>
      match conns w !! p with
      | Some {| current_stream := cur; doing := Receiving |} =>
          let '(s, c, out) := receive (allowed w p) (signaling w) p {| current_stream := cur; doing := Receiving |} m in
          Some (set_conn w (send_all s out) p c)
      | _ => None
      end
  | Close p =>
      match conns w !! p with
      | Some {| current_stream := cur; doing := Receiving |} =>
          Some (set_conn w (signaling w) p {| current_stream := cur; doing := Leaving true |})
      | _ => None
      end
  | Act p now =>
      match conns w !! p with
      | Some c => let '(s, c, out) := act cfg (signaling w) p c now in Some (set_conn w (send_all s out) p c)
      | None => None
      end
  | Block p now =>
      match moderation w with
      | Some m => Some (set_moderation w (fst (mod_effect m (BlockPeer p None) now)) (KickRooms p :: kicks w))
      | None => None
      end
  | Kick =>
      match kicks w with
      | KickRooms p :: ks => let '(s, ids) := kick_rooms (HashOrder0 := canonical_order rstring) (signaling w) p in Some (set_signaling w s (KickNotify p ids :: ks))
      | KickNotify p ids :: ks => Some (set_signaling w (send_all (signaling w) (map (fun q => (q, PeerLeave p)) ids)) (KickSender p :: ks))
      | KickSender p :: ks => Some (set_signaling w (with_senders (signaling w) (delete p (peer_senders (signaling w)))) ks)
      | [] => None
      end
  | Idle now => if 0 <? idle_cleanup_secs cfg then Some (set_signaling w (idle_cleanup cfg (signaling w) now) (kicks w)) else None
  end.

(** Reading a join asks for one room only. *)
Definition asks_one_room (w : World) (cmd : command) : bool :=
  match cmd with
  | Read p (PeerJoin _ stream _) =>
      match conns w !! p with
      | Some {| current_stream := Some cur |} => str_eqb cur stream
      | _ => true
      end
  | _ => true
  end.

Lemma exec_step cfg w cmd w' : exec cfg w cmd = Some w' -> exists l, step cfg w l w' /\ (asks_one_room w cmd = true -> one_room w l).
Proof.
  destruct cmd as [p|p m|p|p now|p now| |now]; cbn.
  - destruct (conns w !! p) eqn:Hp; [done|]. intros [= <-]. exists nothing. split; [by apply step_connect|done].
  - destruct (conns w !! p) as [[cur []]|] eqn:Hp; try done.
    destruct (receive _ _ _ _ _) as [[s c] out] eqn:Hr. intros [= <-]. eexists. split; [by eapply step_receive|].
    unfold one_room. cbn. destruct m; try done. intros Hone c0 Hc0. rewrite Hp in Hc0. injection Hc0 as <-. cbn.
    destruct cur as [cur|]; [|by left]. right. f_equal. by destruct (str_eqb_spec cur stream_id).
  - destruct (conns w !! p) as [[cur []]|] eqn:Hp; try done. intros [= <-]. exists nothing. split; [|done].
    by apply (step_close cfg w p {| current_stream := cur; doing := Receiving |}).
  - destruct (conns w !! p) as [c|] eqn:Hp; [|done]. destruct (act _ _ _ _ _) as [[s c'] out] eqn:Ha. intros [= <-].
    eexists. split; [by eapply step_act|done].
  - destruct (moderation w) as [m|] eqn:Hm; [|done]. intros [= <-]. exists nothing. split; [by apply step_block|done].
  - destruct (kicks w) as [|[p|p ids|p] ks] eqn:Hk; [done| | |].
    + intros [= <-]. exists nothing. split; [|done]. by apply (step_kick_rooms cfg w (canonical_order rstring) p [] ks).
    + intros [= <-]. eexists. split; [by apply (step_kick_notify cfg w p ids [] ks)|done].
    + intros [= <-]. exists nothing. split; [by apply (step_kick_sender cfg w p [] ks)|done].
  - destruct (Z.ltb_spec 0 (idle_cleanup_secs cfg)); [|done]. intros [= <-]. exists nothing. split; [by apply step_idle|done].
Qed.

Fixpoint exec_all (cfg : Limits) (strict : bool) (w : World) (cmds : list command) : option World :=
  match cmds with
  | [] => Some w
  | cmd :: cmds =>
      if strict && negb (asks_one_room w cmd) then None
      else match exec cfg w cmd with Some w => exec_all cfg strict w cmds | None => None end
  end.

Lemma exec_all_steps cfg b w cmds w' : exec_all cfg b w cmds = Some w' -> rtc (steps cfg) w w'.
Proof.
  revert w. induction cmds as [|cmd cmds IH]; intros w; cbn; [by intros [= ->]|]. destruct (b && _); [done|].
  destruct (exec cfg w cmd) as [w1|] eqn:He; [|done]. intros Hr. destruct (exec_step cfg w cmd w1 He) as (l & Hs & _).
  eapply rtc_l; [by exists l|by apply IH].
Qed.

Lemma exec_all_one_room cfg w cmds w' : exec_all cfg true w cmds = Some w' -> rtc (one_room_steps cfg) w w'.
Proof.
  revert w. induction cmds as [|cmd cmds IH]; intros w; cbn; [by intros [= ->]|]. destruct (asks_one_room w cmd) eqn:Hone; [|done]. cbn.
  destruct (exec cfg w cmd) as [w1|] eqn:He; [|done]. intros Hr. destruct (exec_step cfg w cmd w1 He) as (l & Hs & Hl).
  eapply rtc_l; [exists l; split; [done|by apply Hl]|by apply IH].
Qed.

Definition demo_limits : Limits := {| max_stream_rooms := 20; max_peers_per_stream := 50; idle_cleanup_secs := 300 |}.
Definition no_cleanup : Limits := {| max_stream_rooms := 20; max_peers_per_stream := 50; idle_cleanup_secs := 0 |}.
Definition join_commands (p stream : rstring) : list command :=
  [Read p (PeerJoin [] stream false); Act p 0; Act p 0; Act p 0; Act p 0].

(** ** What goes wrong *)

Definition listed_b (w : World) (stream p : rstring) : bool :=
  match rooms (signaling w) !! stream with Some peers => in_room p peers | None => false end.

Lemma listed_b_listed w stream p : listed_b w stream p = true -> listed (signaling w) stream p.
Proof. unfold listed_b. destruct (rooms (signaling w) !! stream) as [peers|] eqn:Hr; [|done]. intros Hi%in_room_iff. by exists peers. Qed.

Definition is_gone (w : World) (p : rstring) : bool :=
  match conns w !! p with Some {| doing := Gone |} => true | _ => false end.

Lemma is_gone_doing w p c : is_gone w p = true -> conns w !! p = Some c -> doing c = Gone.
Proof. unfold is_gone. intros Hg Hc. rewrite Hc in Hg. by destruct c as [cur []]. Qed.

(** A connection that is gone does nothing, so without moderation and without
    the cleanup of idle rooms its entry stays. *)
Definition ghost (stream p : rstring) (w : World) : Prop :=
  moderation w = None /\ kicks w = [] /\ (exists c, conns w !! p = Some c /\ doing c = Gone) /\ listed (signaling w) stream p.

Lemma act_keeps_listed cfg s q c now s' c' out stream p : act cfg s q c now = (s', c', out) -> q <> p ->
  listed s stream p -> listed s' stream p.
Proof.
  intros Ha Hne Hl. revert Ha. unfold act. destruct (doing c) as [|st b|st b|st b|st b peers|ids m|cl|cl|];
    try (by intros [= <- <- <-]).
  - assert (Hj : listed (fst (join_room cfg s q st b)) stream p).
    { unfold join_room. destruct Hl as (ps & Hps & Hp). destruct (rooms s !! st) as [peers|] eqn:Hr.
      - destruct (_ && _); [by exists ps|]. destruct (decide (st = stream)) as [->|Hst].
        + eexists. cbn. rewrite lookup_insert_eq. split; [done|]. rewrite map_app. apply elem_of_app. left. apply elem_of_without. by simplify_eq.
        + exists ps. cbn. by rewrite lookup_insert_ne.
      - destruct (_ <=? _); [by exists ps|]. exists ps. cbn. rewrite lookup_insert_ne; [done|]. intros ->. congruence. }
    by destruct (join_room cfg s q st b) as [s1 [[]|e]]; intros [= <- <- <-].
  - destruct (current_stream c) as [cur|]; [|by intros [= <- <- <-]].
    assert (Hj : listed (fst (leave_room s q cur)) stream p).
    { unfold leave_room. destruct Hl as (ps & Hps & Hp). destruct (rooms s !! cur) as [peers|] eqn:Hr; [|by exists ps]. cbn.
      destruct (decide (cur = stream)) as [->|Hst].
      - simplify_eq. assert (Hin : p ∈ map sp_id (without q ps)) by (by apply elem_of_without).
        exists (without q ps). split; [|done]. cbn. destruct (without q ps); [by apply not_elem_of_nil in Hin|]. by rewrite lookup_insert_eq.
      - exists ps. split; [|done]. cbn. destruct (without q peers); [by rewrite lookup_delete_ne|by rewrite lookup_insert_ne]. }
    destruct (leave_room s q cur) as [s1 o]. by intros [= <- <- <-].
Qed.

Lemma receive_keeps_listed ok s q c m s' c' out stream p : receive ok s q c m = (s', c', out) ->
  listed s stream p -> listed s' stream p.
Proof.
  intros Hr Hl. revert Hr. destruct m as [x t sdp|x t sdp|x t cand mid i|x st b|x|peers|x st b r|e]; cbn; try (by intros [= <- <- <-]).
  - destruct ok; cbn; [destruct t|]; by intros [= <- <- <-].
  - destruct (validate_id st 128); cbn; [destruct ok|]; by intros [= <- <- <-].
  - destruct (current_stream c) as [cur|]; [|by intros [= <- <- <-]]. destruct (rooms s !! cur) as [peers|] eqn:Hr; [|by intros [= <- <- <-]].
    intros [= <- <- <-]. destruct Hl as (ps & Hps & Hp). destruct (decide (cur = stream)) as [->|Hne].
    + simplify_eq. eexists. cbn. rewrite lookup_insert_eq. split; [done|]. by rewrite update_peer_ids.
    + exists ps. cbn. by rewrite lookup_insert_ne.
Qed.

Lemma step_ghost cfg stream p w l w' : idle_cleanup_secs cfg = 0 -> ghost stream p w -> step cfg w l w' -> ghost stream p w'.
Proof.
  intros Hidle (Hm & Hk & (cp & Hcp & Hg) & Hl) Hs.
  destruct Hs as [q Hq|q c m s' c' out Hq Hd Hr|q c e Hq Hd|q c Hq Hd|q c now s' c' out Hq Ha|q m ms Hq|m q reason now Hm'|m op now Hm' _
    |O q ks1 ks2 Hk'|q ids ks1 ks2 Hk'|q ks1 ks2 Hk'|now Hi]; try congruence;
    try (rewrite Hk in Hk'; by destruct ks1); try lia; (split; [done|]; split; [done|]).
  - split; [|done]. exists cp. split; [|done]. cbn. rewrite lookup_insert_ne; [done|]. intros ->. congruence.
  - assert (Hne : q <> p) by (intros ->; congruence). split.
    + exists cp. split; [|done]. cbn. by rewrite lookup_insert_ne.
    + apply (listed_same s'); [apply send_all_rooms|]. by eapply receive_keeps_listed.
  - assert (Hne : q <> p) by (intros ->; congruence). split.
    + exists cp. split; [|done]. cbn. by rewrite lookup_insert_ne.
    + by apply (listed_same (signaling w)); [apply (send_all_rooms _ [_])|].
  - assert (Hne : q <> p) by (intros ->; congruence). split; [|done]. exists cp. split; [|done]. cbn. by rewrite lookup_insert_ne.
  - destruct (decide (q = p)) as [->|Hne].
    + rewrite Hcp in Hq. injection Hq as <-. unfold act in Ha. rewrite Hg in Ha. injection Ha as <- <- <-.
      split; [exists cp; cbn; by rewrite lookup_insert_eq|exact Hl].
    + split; [exists cp; split; [|done]; cbn; by rewrite lookup_insert_ne|].
      apply (listed_same s'); [apply send_all_rooms|]. by eapply act_keeps_listed.
  - split; [|done]. by exists cp.
Qed.

(** A connection that joins a second room is forgotten in the first: when it
    ends it leaves only the last one. The room it was in before lists it for ever
    after, if no cleanup of idle rooms is configured, and with it everything that
    comes with a room: it counts against the limits and is told to who joins. *)
Theorem second_room_leaves_ghost : exists w,
  rtc (steps no_cleanup) (new_world None) w /\ is_gone w (str "p") = true /\
  forall w', rtc (steps no_cleanup) w w' -> listed (signaling w') (str "a") (str "p").
Proof.
  set (cmds := [Connect (str "p")] ++ join_commands (str "p") (str "a") ++ join_commands (str "p") (str "b")
    ++ [Close (str "p"); Act (str "p") 0; Act (str "p") 0]).
  destruct (exec_all no_cleanup false (new_world None) cmds) as [w|] eqn:He.
  2:{ vm_compute in He. discriminate He. }
  exists w.
  assert (Hcheck : match exec_all no_cleanup false (new_world None) cmds with
    | Some w => is_gone w (str "p") && listed_b w (str "a") (str "p") && bool_decide (kicks w = []) && bool_decide (moderation w = None)
    | None => false end = true) by (vm_compute; reflexivity).
  rewrite He in Hcheck. apply andb_prop in Hcheck as [Hcheck Hm%bool_decide_eq_true].
  apply andb_prop in Hcheck as [Hcheck Hk%bool_decide_eq_true]. apply andb_prop in Hcheck as [Hg Hl].
  split; [by eapply exec_all_steps|]. split; [done|].
  assert (H0 : ghost (str "a") (str "p") w).
  { split_and!; [done|done| |by apply listed_b_listed]. destruct (conns w !! str "p") as [c|] eqn:Hc; [|by unfold is_gone in Hg; rewrite Hc in Hg].
    exists c. split; [done|]. by apply (is_gone_doing w (str "p")). }
  intros w' Hr. cut (ghost (str "a") (str "p") w'); [by intros (_ & _ & _ & ?)|].
  clear He Hg Hl Hk Hm. induction Hr as [|w1 w2 w3 [l Hs] _ IH]; [done|]. apply IH. exact (step_ghost no_cleanup _ _ _ l _ eq_refl H0 Hs).
Qed.

(** A block can overtake a join: the join is admitted, the peer is blocked and
    kicked out of all rooms, and then the join goes on and lists the peer. The
    kick is over, and the blocked peer is in the room. *)
Theorem join_overtaken_by_block : exists w,
  rtc (steps no_cleanup) (new_world (Some (new_moderation {| persistence_path := None; auto_persist := false; whitelist_only := false |}))) w /\
  allowed w (str "p") = false /\ kicks w = [] /\ listed (signaling w) (str "a") (str "p").
Proof.
  set (w0 := new_world _).
  set (cmds := [Connect (str "p"); Read (str "p") (PeerJoin [] (str "a") false); Block (str "p") 1; Kick; Kick; Kick; Act (str "p") 2]).
  destruct (exec_all no_cleanup false w0 cmds) as [w|] eqn:He; [|vm_compute in He; discriminate].
  exists w.
  assert (Hcheck : match exec_all no_cleanup false w0 cmds with
    | Some w => negb (allowed w (str "p")) && bool_decide (kicks w = []) && listed_b w (str "a") (str "p")
    | None => false end = true) by (vm_compute; reflexivity).
  rewrite He in Hcheck. apply andb_prop in Hcheck as [Hcheck Hl]. apply andb_prop in Hcheck as [Ha Hk%bool_decide_eq_true].
  split; [by eapply exec_all_steps|]. split; [by apply negb_true_iff|]. split; [done|by apply listed_b_listed].
Qed.

(** The last activity of a room is that of its last join: a room is cleaned up
    under peers that are connected and talk to each other. *)
Theorem busy_room_is_cleaned_up : exists w w',
  rtc (steps demo_limits) (new_world None) w /\ listed (signaling w) (str "a") (str "p") /\
  steps demo_limits w w' /\ rooms (signaling w') = ∅ /\
  exists c, conns w' !! str "p" = Some c /\ doing c = Receiving /\ current_stream c = Some (str "a").
Proof.
  set (cmds := [Connect (str "p")] ++ join_commands (str "p") (str "a")
    ++ [Read (str "p") (PeerUpdate [] None false true); Act (str "p") 301000000000]).
  destruct (exec_all demo_limits false (new_world None) cmds) as [w|] eqn:He; [|vm_compute in He; discriminate].
  exists w, (set_signaling w (idle_cleanup demo_limits (signaling w) 301000000000) (kicks w)).
  assert (Hcheck : match exec_all demo_limits false (new_world None) cmds with
    | Some w => listed_b w (str "a") (str "p") && bool_decide (rooms (idle_cleanup demo_limits (signaling w) 301000000000) = ∅) &&
        match conns w !! str "p" with Some {| current_stream := Some s; doing := Receiving |} => str_eqb s (str "a") | _ => false end
    | None => false end = true) by (vm_compute; reflexivity).
  rewrite He in Hcheck. apply andb_prop in Hcheck as [Hcheck Hc]. apply andb_prop in Hcheck as [Hl Hr%bool_decide_eq_true].
  split; [by eapply exec_all_steps|]. split; [by apply listed_b_listed|]. split; [exists nothing; by apply step_idle|]. split; [done|].
  destruct (conns w !! str "p") as [[[s|] []]|] eqn:Hp; try done. destruct (str_eqb_spec s (str "a")) as [->|]; [|done].
  exists {| current_stream := Some (str "a"); doing := Receiving |}. by cbn.
Qed.

(** ** The theorems at work *)

Definition demo_commands : list command :=
  [Connect (str "p"); Connect (str "q")] ++ join_commands (str "p") (str "a") ++ join_commands (str "q") (str "a")
  ++ [Read (str "q") (Offer (str "p") (Some (str "p")) (str "sdp")); Close (str "p"); Act (str "p") 0; Act (str "p") 0].
Definition demo_world : World := default (new_world None) (exec_all demo_limits true (new_world None) demo_commands).

Lemma demo_runs : exec_all demo_limits true (new_world None) demo_commands = Some demo_world.
Proof. vm_compute. reflexivity. Qed.

Lemma rooms_within_limits_witness : 0 <= max_stream_rooms demo_limits /\ rtc (steps demo_limits) (new_world None) demo_world /\
  listed (signaling demo_world) (str "a") (str "q") /\ Z.of_nat (size (rooms (signaling demo_world))) <= 20.
Proof.
  assert (Hmax : 0 <= max_stream_rooms demo_limits) by done.
  pose proof (exec_all_steps _ _ _ _ _ demo_runs) as Hr. split; [exact Hmax|]. split; [exact Hr|]. split.
  - apply listed_b_listed. vm_compute. reflexivity.
  - exact (proj1 (rooms_within_limits demo_limits None demo_world Hmax Hr)).
Defined.

(** The offer of [q] claims to come from [p]; what [p] is sent comes from [q]. *)
Definition before_offer : World :=
  default (new_world None) (exec_all demo_limits true (new_world None) (take 12 demo_commands)).
Lemma before_offer_runs : exec_all demo_limits true (new_world None) (take 12 demo_commands) = Some before_offer.
Proof. vm_compute. reflexivity. Qed.

Lemma sender_not_forged_witness : exists l w', step demo_limits before_offer l w' /\
  sent l = [(str "p", Offer (str "q") (Some (str "p")) (str "sdp"))] /\ honest (str "q") (sent l).
Proof.
  pose proof (exec_all_steps _ _ _ _ _ before_offer_runs) as Hr.
  assert (Hc : exists c, conns before_offer !! str "q" = Some c /\ doing c = Receiving) by (eexists; split; vm_compute; reflexivity).
  destruct Hc as (c & Hq & Hd).
  assert (Hok : allowed before_offer (str "q") = true) by (vm_compute; reflexivity).
  assert (Hrec : receive (allowed before_offer (str "q")) (signaling before_offer) (str "q") c (Offer (str "p") (Some (str "p")) (str "sdp"))
    = (signaling before_offer, c, [(str "p", Offer (str "q") (Some (str "p")) (str "sdp"))])) by (rewrite Hok; reflexivity).
  pose proof (step_receive demo_limits before_offer (str "q") c _ _ c _ Hq Hd Hrec) as Hs.
  eexists _, _. split; [exact Hs|]. split; [cbn [sent]; reflexivity|].
  exact (proj2 (sender_not_forged demo_limits None before_offer _ _ Hr Hs)).
Defined.

Lemma members_are_live_witness : rtc (one_room_steps demo_limits) (new_world None) demo_world /\
  is_gone demo_world (str "p") = true /\ ~ listed (signaling demo_world) (str "a") (str "p") /\
  exists c, conns demo_world !! str "q" = Some c /\ doing c <> Gone.
Proof.
  pose proof (exec_all_one_room _ _ _ _ demo_runs) as Hr.
  destruct (members_are_live demo_limits None demo_world Hr) as [Hlive _].
  assert (Hg : is_gone demo_world (str "p") = true) by (vm_compute; reflexivity).
  split; [exact Hr|]. split; [exact Hg|]. split.
  - intros Hp. destruct (Hlive _ _ Hp) as (c & Hc & Hd). apply Hd. by apply (is_gone_doing demo_world (str "p")).
  - apply (Hlive (str "a")). apply listed_b_listed. vm_compute. reflexivity.
Defined.

Fixpoint exec_blocked (cfg : Limits) (p : rstring) (w : World) (cmds : list command) : option World :=
  match cmds with
  | [] => Some w
  | cmd :: cmds =>
      match exec cfg w cmd with
      | Some w => if allowed w p then None else exec_blocked cfg p w cmds
      | None => None
      end
  end.

Lemma exec_blocked_steps cfg p w cmds w' : exec_blocked cfg p w cmds = Some w' -> rtc (steps_blocked cfg p) w w'.
Proof.
  revert w. induction cmds as [|cmd cmds IH]; intros w; cbn; [by intros [= ->]|].
  destruct (exec cfg w cmd) as [w1|] eqn:He; [|done]. destruct (allowed w1 p) eqn:Ha; [done|]. intros Hr.
  destruct (exec_step cfg w cmd w1 He) as (l & Hs & _). eapply rtc_l; [split; [by exists l|done]|by apply IH].
Qed.

Definition blocked_world : World :=
  new_world (Some (fst (mod_effect (new_moderation {| persistence_path := None; auto_persist := false; whitelist_only := false |})
    (BlockPeer (str "p") None) 1))).
Definition refused_commands : list command :=
  [Connect (str "p"); Connect (str "q")] ++ join_commands (str "q") (str "a") ++ [Read (str "p") (PeerJoin [] (str "a") false); Act (str "p") 2].
Definition refused_world : World := default blocked_world (exec_blocked demo_limits (str "p") blocked_world refused_commands).

Lemma blocked_stays_out_witness : allowed blocked_world (str "p") = false /\
  rtc (steps_blocked demo_limits (str "p")) blocked_world refused_world /\
  listed (signaling refused_world) (str "a") (str "q") /\ ~ listed (signaling refused_world) (str "a") (str "p").
Proof.
  assert (Hb : allowed blocked_world (str "p") = false) by (vm_compute; reflexivity).
  assert (Hr : exec_blocked demo_limits (str "p") blocked_world refused_commands = Some refused_world) by (vm_compute; reflexivity).
  apply exec_blocked_steps in Hr. split; [exact Hb|]. split; [exact Hr|]. split; [apply listed_b_listed; vm_compute; reflexivity|].
  apply (blocked_stays_out demo_limits (str "p") blocked_world refused_world Hb); [| |exact Hr].
  - intros stream (peers & Hp & _). cbn in Hp. by rewrite lookup_empty in Hp.
  - intros c Hc. cbn in Hc. by rewrite lookup_empty in Hc.
Defined.
