(* ===== verification/ClientFrames.v ===== *)
(** * What a browser is sent

    The frames of [handle_websocket] in [node/src/web_server.rs]: the opening
    (codec information and initialization segments, split when they are large)
    and the frames of a segment. A frame of text is the message that is written
    as JSON into it. Reading the JSON of a metadata segment is the class
    [MetaJson]. *)

From S2P Require Import Prelude Rust Format Float Mp4Segments Segment.

#[local] Open Scope Z_scope.

(** ** Messages *)

Record VideoInfo : Type := {
  vi_width : Z;
  vi_height : Z;
  vi_fps : float;
  vi_codec : rstring;
  vi_mime_type : option rstring;
}.

Record AudioInfo : Type := {
  ai_sample_rate : Z;
  ai_channels : Z;
  ai_codec : rstring;
  ai_mime_type : option rstring;
}.

Inductive ClientMessage : Type :=
| StreamInfo (video : option VideoInfo) (audio : option AudioInfo)
| ChunkInfo (chunk_type : rstring) (size timestamp : Z)
| ClientError (message : rstring).

Inductive WsMessage : Type :=
| TextFrame (m : ClientMessage)
| BinaryFrame (data : bytes)
| PingFrame.

(** ** The opening *)

(** What is known of a track: the codec and its MIME type. *)
Abbreviation CodecInfo := (option (rstring * rstring)).

Definition avc_mime : rstring := str "video/mp4; codecs=" ++ [34] ++ str "avc1.42E01E" ++ [34].
Definition aac_mime : rstring := str "audio/mp4; codecs=" ++ [34] ++ str "mp4a.02.2" ++ [34].

Definition stream_info (video_codec_info audio_codec_info : CodecInfo) : ClientMessage :=
  let '(video_codec, video_mime) :=
    match video_codec_info with
    | Some (codec, mime) => (codec, Some mime)
    | None => (str "H.264", Some avc_mime)
    end in
  StreamInfo
    (Some {| vi_width := 640; vi_height := 480; vi_fps := f32_of 30; vi_codec := video_codec; vi_mime_type := video_mime |})
    (match audio_codec_info with
     | Some (codec, mime) => Some {| ai_sample_rate := 48000; ai_channels := 2; ai_codec := codec; ai_mime_type := Some mime |}
     | None => None
     end).

Definition MAX_CHUNK_SIZE : Z := 512 * 1024.

(** One round of [while offset < data.len()]: the announcement and the piece. *)
Definition chunk_round (prefix : rstring) (data : bytes) (st : Z * Z * list WsMessage)
  : exec (step (Z * Z * list WsMessage) (list WsMessage)) :=
  let '(offset, chunk_num, out) := st in
  if offset <? zlen data then
    let chunk_end := Z.min (offset + MAX_CHUNK_SIZE) (zlen data) in
    let! chunk := slice data offset chunk_end in
    let chunk_num := chunk_num + 1 in
    Done (Continue (chunk_end, chunk_num,
      out ++ [TextFrame (ChunkInfo (prefix ++ decimal chunk_num) (zlen chunk) offset); BinaryFrame chunk]))
  else Done (Break out).

Definition send_chunks (prefix : rstring) (data : bytes) : exec (list WsMessage) :=
  loop (S (length data)) (chunk_round prefix data) (0, 0, []).

(** The initialization segments: the two of the tracks, or the combined one. *)
Definition init_messages (video_init audio_init initialization_segment : option bytes) : exec (list WsMessage) :=
  match video_init with
  | Some video =>
      let! body := if MAX_CHUNK_SIZE <? zlen video then send_chunks (str "init_video_chunk_") video
                   else Done [BinaryFrame video] in
      Done (TextFrame (ChunkInfo (str "init_video") (zlen video) 0) :: body ++
            match audio_init with
            | Some audio => [TextFrame (ChunkInfo (str "init_audio") (zlen audio) 0); BinaryFrame audio]
            | None => []
            end)
  | None =>
      match initialization_segment with
      | Some init =>
          let! body :=
            if MAX_CHUNK_SIZE <? zlen init then
              let! chunks := send_chunks (str "initialization_chunk_") init in
              Done (chunks ++ [TextFrame (ChunkInfo (str "initialization_complete") (zlen init) 0)])
            else Done [BinaryFrame init] in
          Done (TextFrame (ChunkInfo (str "initialization") (zlen init) 0) :: body)
      | None => Done []
      end
  end.

(** ** Segments *)

(** [serde_json::from_str] to a value, and the numbers looked up in it. *)
Class MetaJson : Type := {
  JsonValue : Type;
  parse_json : rstring -> option JsonValue;
  json_u64 : JsonValue -> rstring -> option Z;
  json_f64 : JsonValue -> rstring -> option float;
}.

Definition metadata_info `{MetaJson} (meta : JsonValue) : ClientMessage :=
  StreamInfo
    (Some {| vi_width := as_u32 (default 640 (json_u64 meta (str "video_width")));
             vi_height := as_u32 (default 480 (json_u64 meta (str "video_height")));
             vi_fps := f64_to_f32 (default (f64_of 30) (json_f64 meta (str "video_fps")));
             vi_codec := str "H.264"; vi_mime_type := Some avc_mime |})
    (Some {| ai_sample_rate := as_u32 (default 48000 (json_u64 meta (str "audio_sample_rate")));
             ai_channels := default 2 (json_u64 meta (str "audio_channels")) mod 65536;
             ai_codec := str "AAC"; ai_mime_type := Some aac_mime |}).

(** The frames of a segment; of metadata that is not JSON there are none. *)
Definition segment_frames `{MetaJson} (segment : StreamSegment) : list WsMessage :=
  match seg_media_type segment with
  | Video | Initialization =>
      let chunk_type :=
        if is_init segment then str "initialization"
        else if seg_is_keyframe segment then str "video-keyframe" else str "video" in
      [TextFrame (ChunkInfo chunk_type (zlen (seg_data segment)) (pts_ms segment)); BinaryFrame (seg_data segment)]
  | Audio => [TextFrame (ChunkInfo (str "audio") (zlen (seg_data segment)) (pts_ms segment)); BinaryFrame (seg_data segment)]
  | Metadata =>
      match from_utf8 (seg_data segment) with
      | Some meta_str => match parse_json meta_str with Some meta => [TextFrame (metadata_info meta)] | None => [] end
      | None => []
      end
  end.

Definition end_of_stream : WsMessage := TextFrame (ChunkInfo (str "end_of_stream") 0 0).

(** ** What the browser can put together *)

Definition payload (m : WsMessage) : bytes := match m with BinaryFrame data => data | _ => [] end.
Definition payloads (ms : list WsMessage) : bytes := concat (map payload ms).

(** The pieces of a large initialization segment, announced one by one. *)
Definition pieces (data : bytes) : list bytes := chunks (length data) (Z.to_nat MAX_CHUNK_SIZE) data.

Definition announced_from (prefix : rstring) (k : Z) (cs : list bytes) : list WsMessage :=
  concat (imap (fun i c => [TextFrame (ChunkInfo (prefix ++ decimal (k + Z.of_nat i + 1)) (zlen c) ((k + Z.of_nat i) * MAX_CHUNK_SIZE)); BinaryFrame c]) cs).

Lemma announced_from_cons prefix k c cs : announced_from prefix k (c :: cs) =
  TextFrame (ChunkInfo (prefix ++ decimal (k + 1)) (zlen c) (k * MAX_CHUNK_SIZE)) :: BinaryFrame c :: announced_from prefix (k + 1) cs.
Proof.
  unfold announced_from. cbn [imap concat]. rewrite Z.add_0_r. cbn [app]. do 3 f_equal. apply imap_ext. intros i x _. cbn.
  by replace (k + Z.of_nat (S i)) with (k + 1 + Z.of_nat i) by lia.
Qed.

Lemma send_chunks_from prefix data fuel : forall done rest k out, data = done ++ rest -> (length rest <= fuel)%nat ->
  rest = [] \/ zlen done = k * MAX_CHUNK_SIZE ->
  loop (S fuel) (chunk_round prefix data) (zlen done, k, out) =
  Done (out ++ announced_from prefix k (chunks fuel (Z.to_nat MAX_CHUNK_SIZE) rest)).
Proof.
  induction fuel as [|fuel IH]; intros done rest k out Hd Hf Hk.
  - destruct rest; [|cbn in Hf; lia]. rewrite app_nil_r in Hd. subst done. cbn. rewrite Z.ltb_irrefl. cbn. by rewrite app_nil_r.
  - destruct rest as [|x rest].
    { rewrite app_nil_r in Hd. subst done. cbn. rewrite Z.ltb_irrefl. cbn. by rewrite app_nil_r. }
    destruct Hk as [|Hk]; [done|]. set (n := Z.to_nat MAX_CHUNK_SIZE) in *. set (r := x :: rest) in *.
    assert (Hr : zlen data = zlen done + zlen r) by (rewrite Hd; apply zlen_app).
    assert (Hpos : 0 < zlen r) by (unfold r; rewrite zlen_cons; zlia).
    assert (Htake : zlen (take n r) = Z.min MAX_CHUNK_SIZE (zlen r)) by (unfold zlen, n, MAX_CHUNK_SIZE; rewrite length_take; lia).
    change (loop (S (S fuel)) (chunk_round prefix data) (zlen done, k, out)) with
      (let! x := chunk_round prefix data (zlen done, k, out) in
       match x with Continue s => loop (S fuel) (chunk_round prefix data) s | Break r => Done r end).
    cbn [chunk_round]. destruct (Z.ltb_spec (zlen done) (zlen data)) as [_|]; [|lia].
    rewrite Hd at 1. rewrite <- (take_drop n r) at 1.
    rewrite (slice_app_mid done (take n r) (drop n r)) by lia. cbn [exec_bind].
    replace (chunks (S fuel) n r) with (take n r :: chunks fuel n (drop n r)) by done.
    rewrite announced_from_cons, <- Hk.
    replace (Z.min (zlen done + MAX_CHUNK_SIZE) (zlen data)) with (zlen (done ++ take n r)) by (rewrite zlen_app; lia).
    rewrite (IH (done ++ take n r) (drop n r) (k + 1)).
    + by rewrite <- app_assoc.
    + by rewrite <- app_assoc, take_drop.
    + rewrite length_drop. assert (0 < n)%nat by (unfold n, MAX_CHUNK_SIZE; lia). assert (length r <= S fuel)%nat by exact Hf. lia.
    + rewrite zlen_app, Htake. destruct (decide (zlen r < MAX_CHUNK_SIZE)).
      * left. apply drop_ge. unfold zlen, n in *. lia.
      * right. lia.
Qed.

(** The loop sends the pieces of the data, each after its announcement. *)
Lemma send_chunks_spec prefix data : send_chunks prefix data = Done (announced_from prefix 0 (pieces data)).
Proof. unfold send_chunks. rewrite (send_chunks_from prefix data _ [] data 0 []); [done|done|lia|by right]. Qed.

(** Every binary frame comes right after a text that announces its size. *)
Fixpoint announced_ok (ms : list WsMessage) : Prop :=
  match ms with
  | [] => True
  | TextFrame (ChunkInfo _ size _) :: (BinaryFrame data :: rest) => size = zlen data /\ announced_ok rest
  | BinaryFrame _ :: _ => False
  | _ :: rest => announced_ok rest
  end.

Lemma announced_spec prefix k cs rest : announced_ok rest ->
  announced_ok (announced_from prefix k cs ++ rest) /\
  payloads (announced_from prefix k cs ++ rest) = concat cs ++ payloads rest /\
  forall d, BinaryFrame d ∈ announced_from prefix k cs -> d ∈ cs.
Proof.
  intros Hr. revert k. induction cs as [|c cs IH]; intros k; [split_and!; [done|done|by intros d ?%not_elem_of_nil]|].
  rewrite announced_from_cons. destruct (IH (k + 1)) as (Hok & Hp & Hin). split_and!.
  - by cbn.
  - unfold payloads in *. cbn. by rewrite Hp, app_assoc.
  - intros d [|[[= ->]|Hd]%elem_of_cons]%elem_of_cons; [done|by left|right; by apply Hin].
Qed.

Lemma pieces_spec data : concat (pieces data) = data /\ Forall (fun c => zlen c <= MAX_CHUNK_SIZE) (pieces data).
Proof.
  destruct (chunks_spec (length data) (Z.to_nat MAX_CHUNK_SIZE) data) as [Hc Hf]; [unfold MAX_CHUNK_SIZE; lia|lia|]. split; [done|].
  eapply Forall_impl; [exact Hf|]. intros c [_ Hc']. unfold zlen. rewrite <- (Z2Nat.id MAX_CHUNK_SIZE) by done. lia.
Qed.

(** One initialization segment, in a frame or in pieces, before other frames. *)
Lemma body_spec prefix chunk_type data rest : announced_ok rest ->
  exists body, (if MAX_CHUNK_SIZE <? zlen data then send_chunks prefix data else Done [BinaryFrame data]) = Done body /\
    announced_ok (TextFrame (ChunkInfo chunk_type (zlen data) 0) :: body ++ rest) /\
    payloads (body ++ rest) = data ++ payloads rest /\ forall d, BinaryFrame d ∈ body -> zlen d <= MAX_CHUNK_SIZE.
Proof.
  intros Hr. destruct (Z.ltb_spec MAX_CHUNK_SIZE (zlen data)) as [Hlt|Hle].
  - eexists. split; [apply send_chunks_spec|]. destruct (pieces_spec data) as [Hc Hf].
    destruct (announced_spec prefix 0 (pieces data) rest Hr) as (Hok & Hp & Hin). rewrite Hc in Hp. split_and!; [|done|].
    + destruct (pieces data); [rewrite <- Hc in Hlt; by cbn in Hlt|]. rewrite announced_from_cons in *. exact Hok.
    + intros d Hd. rewrite list.Forall_forall in Hf. by apply Hf, Hin.
  - eexists. split; [done|]. split_and!; [done|done|]. by intros d [= ->]%list_elem_of_singleton.
Qed.

(** However large they are, the initialization segments arrive whole: the
    binary frames are the video segment and then the audio segment, or the
    combined one, every frame is announced by its size, and none is longer than
    512 KiB unless it is the audio segment, which is not split. *)
Theorem init_segments_arrive video_init audio_init init :
  returns (init_messages video_init audio_init init) (fun ms =>
    payloads ms = match video_init with Some video => video ++ default [] audio_init | None => default [] init end /\
    announced_ok ms /\
    forall d, BinaryFrame d ∈ ms -> zlen d <= MAX_CHUNK_SIZE \/ is_Some video_init /\ audio_init = Some d).
Proof.
  unfold init_messages. destruct video_init as [video|].
  - set (rest := match audio_init with Some a => _ | None => _ end).
    destruct (body_spec (str "init_video_chunk_") (str "init_video") video rest) as (body & -> & Hok & Hp & Hle); [by destruct audio_init|].
    eexists. split; [done|]. split_and!; [|exact Hok|].
    + unfold payloads in *. cbn [map payload concat app]. rewrite Hp. f_equal. unfold rest. destruct audio_init; [|done]. cbn. by rewrite app_nil_r.
    + intros d [|[Hd|Hd]%elem_of_app]%elem_of_cons; [done|left; by apply Hle|]. right. unfold rest in Hd.
      destruct audio_init as [a|]; [|by apply not_elem_of_nil in Hd]. split; [by eexists|].
      apply elem_of_cons in Hd as [|Hd]; [done|]. by apply list_elem_of_singleton in Hd as [= ->].
  - destruct init as [i|]; [|eexists; split; [done|split_and!; [done|done|by intros d ?%not_elem_of_nil]]].
    set (rest := [TextFrame (ChunkInfo (str "initialization_complete") (zlen i) 0)]).
    destruct (Z.ltb_spec MAX_CHUNK_SIZE (zlen i)) as [Hlt|Hle].
    + destruct (body_spec (str "initialization_chunk_") (str "initialization") i rest) as (body & Hb & Hok & Hp & Hle); [done|].
      destruct (Z.ltb_spec MAX_CHUNK_SIZE (zlen i)); [|lia]. rewrite Hb. cbn [exec_bind]. eexists. split; [done|]. split_and!.
      * unfold payloads in *. cbn [map payload concat app]. rewrite Hp. apply app_nil_r.
      * exact Hok.
      * intros d [|[Hd|Hd]%elem_of_app]%elem_of_cons; [done|left; by apply Hle|by apply list_elem_of_singleton in Hd].
    + eexists. split; [done|]. split_and!; [cbn; by rewrite app_nil_r|done|].
      intros d [|Hd]%elem_of_cons; [done|]. left. by apply list_elem_of_singleton in Hd as [= ->].
Qed.
