(* ===== verification/StreamDiscovery.v ===== *)
(** * Discovery of streams

    Models [core/src/discovery/stream_discovery.rs]: announcements, the cache of
    those received, the streams a node announces itself, and the service that
    cleans up and announces again. Calls are made of critical sections, which
    interleave. JSON is an interface, and so is the conversion of text to lower
    case. *)

From S2P Require Import Prelude Rust Format Hash Moderation Segment.

#[local] Open Scope Z_scope.

Definition DEFAULT_ANNOUNCEMENT_TTL_SECS : Z := 300.

Record StreamAnnouncement : Type := {
  ann_stream_id : StreamId;
  title : rstring;
  publisher_id : bytes;
  ann_video_codec : option rstring;
  ann_audio_codec : option rstring;
  ann_video_width : option Z;
  ann_video_height : option Z;
  started_at : Z;
  announced_at : Z;
  ttl_secs : Z;
  ann_metadata : gmap rstring rstring;
}.

Definition new_announcement (id : StreamId) (name : rstring) (publisher : bytes) (now : Z) : StreamAnnouncement :=
  {| ann_stream_id := id; title := name; publisher_id := publisher; ann_video_codec := None; ann_audio_codec := None;
     ann_video_width := None; ann_video_height := None; started_at := now; announced_at := now;
     ttl_secs := DEFAULT_ANNOUNCEMENT_TTL_SECS; ann_metadata := ∅ |}.

Definition with_video (self : StreamAnnouncement) (codec : rstring) (width height : Z) : StreamAnnouncement :=
  {| ann_stream_id := ann_stream_id self; title := title self; publisher_id := publisher_id self;
     ann_video_codec := Some codec; ann_audio_codec := ann_audio_codec self;
     ann_video_width := Some width; ann_video_height := Some height; started_at := started_at self;
     announced_at := announced_at self; ttl_secs := ttl_secs self; ann_metadata := ann_metadata self |}.

Definition with_audio (self : StreamAnnouncement) (codec : rstring) : StreamAnnouncement :=
  {| ann_stream_id := ann_stream_id self; title := title self; publisher_id := publisher_id self;
     ann_video_codec := ann_video_codec self; ann_audio_codec := Some codec;
     ann_video_width := ann_video_width self; ann_video_height := ann_video_height self; started_at := started_at self;
     announced_at := announced_at self; ttl_secs := ttl_secs self; ann_metadata := ann_metadata self |}.

Definition with_metadata (self : StreamAnnouncement) (key value : rstring) : StreamAnnouncement :=
  {| ann_stream_id := ann_stream_id self; title := title self; publisher_id := publisher_id self;
     ann_video_codec := ann_video_codec self; ann_audio_codec := ann_audio_codec self;
     ann_video_width := ann_video_width self; ann_video_height := ann_video_height self; started_at := started_at self;
     announced_at := announced_at self; ttl_secs := ttl_secs self; ann_metadata := <[key := value]> (ann_metadata self) |}.

(** The same announcement with a new time, as the service sends it. *)
Definition renewed (self : StreamAnnouncement) (now : Z) : StreamAnnouncement :=
  {| ann_stream_id := ann_stream_id self; title := title self; publisher_id := publisher_id self;
     ann_video_codec := ann_video_codec self; ann_audio_codec := ann_audio_codec self;
     ann_video_width := ann_video_width self; ann_video_height := ann_video_height self; started_at := started_at self;
     announced_at := now; ttl_secs := ttl_secs self; ann_metadata := ann_metadata self |}.

(** The sum is of two numbers that a peer sent. *)
Definition is_expired (self : StreamAnnouncement) (now : Z) : exec bool :=
  let! until := add_u64 (announced_at self) (ttl_secs self) in
  Done (until <? now).

Definition summary (self : StreamAnnouncement) : rstring :=
  let codec_info :=
    match ann_video_codec self, ann_audio_codec self with
    | Some v, Some a => v ++ str "/" ++ a
    | Some v, None => v ++ str "/none"
    | None, Some a => str "none/" ++ a
    | None, None => str "unknown"
    end in
  let resolution :=
    match ann_video_width self, ann_video_height self with
    | Some w, Some h => decimal w ++ str "x" ++ decimal h
    | _, _ => str "unknown"
    end in
  title self ++ str " [" ++ resolution ++ str "] (" ++ codec_info ++ str ")".

(** ** The service *)

Record StreamDiscovery : Type := {
  max_cached_streams : Z;
  streams : gmap StreamId StreamAnnouncement;
  own_streams : list StreamAnnouncement;
}.

Definition new_discovery (max : Z) : StreamDiscovery := {| max_cached_streams := max; streams := ∅; own_streams := [] |}.

Definition with_streams (d : StreamDiscovery) (v : gmap StreamId StreamAnnouncement) : StreamDiscovery :=
  {| max_cached_streams := max_cached_streams d; streams := v; own_streams := own_streams d |}.
Definition with_own (d : StreamDiscovery) (v : list StreamAnnouncement) : StreamDiscovery :=
  {| max_cached_streams := max_cached_streams d; streams := streams d; own_streams := v |}.

(** The sections of the calls. *)
Definition other_streams (id : StreamId) (own : list StreamAnnouncement) : list StreamAnnouncement :=
  List.filter (fun s => negb (str_eqb (ann_stream_id s) id)) own.

Definition note_own (d : StreamDiscovery) (a : StreamAnnouncement) : StreamDiscovery :=
  with_own d (other_streams (ann_stream_id a) (own_streams d) ++ [a]).
Definition cache_own (d : StreamDiscovery) (a : StreamAnnouncement) : StreamDiscovery :=
  with_streams d (<[ann_stream_id a := a]> (streams d)).
Definition forget_own (d : StreamDiscovery) (id : StreamId) : StreamDiscovery := with_own d (other_streams id (own_streams d)).
Definition forget_cached (d : StreamDiscovery) (id : StreamId) : StreamDiscovery := with_streams d (delete id (streams d)).

Definition cache_full (d : StreamDiscovery) : bool := max_cached_streams d <=? Z.of_nat (size (streams d)).

(** [retain] over the cache, in the order of the map: a panic of the closure
    ends it. *)
Fixpoint retain_fresh (now : Z) (entries : list (StreamId * StreamAnnouncement)) (kept : gmap StreamId StreamAnnouncement)
  : exec (gmap StreamId StreamAnnouncement) :=
  match entries with
  | [] => Done kept
  | (id, a) :: entries =>
      let! expired := is_expired a now in
      retain_fresh now entries (if expired : bool then delete id kept else kept)
  end.

Definition cleanup_expired `{!HashOrder StreamId} (d : StreamDiscovery) (now : Z) : exec StreamDiscovery :=
  let! kept := retain_fresh now (map_iter (streams d)) (streams d) in
  Done (with_streams d kept).

Definition cache_received (d : StreamDiscovery) (a : StreamAnnouncement) : StreamDiscovery :=
  if Z.of_nat (size (streams d)) <? max_cached_streams d then with_streams d (<[ann_stream_id a := a]> (streams d)) else d.

Section Service.
Context `{!Json StreamAnnouncement, !HashOrder StreamId}.

(** [process_announcement] in one go: the time is read when the announcement is
    looked at and again by the cleanup. *)
Definition process_announcement (d : StreamDiscovery) (data : rstring) (now now' : Z)
  : exec (StreamDiscovery * result (option StreamAnnouncement) rstring) :=
  match from_json data with
  | None => Done (d, RErr (str "Failed to deserialize announcement"))
  | Some announcement =>
      let! expired := is_expired announcement now in
      if expired : bool then Done (d, ROk None)
      else
        let! d := if cache_full d then cleanup_expired d now' else Done d in
        Done (cache_received d announcement, ROk (Some announcement))
  end.

(** [announce_stream] in one go, with the answer of the overlay. *)
Definition announce_stream (d : StreamDiscovery) (a : StreamAnnouncement) (accepted : bool) : StreamDiscovery * bool :=
  match to_json a with
  | Some _ => if accepted then (cache_own (note_own d a) a, true) else (d, false)
  | None => (d, false)
  end.

Definition remove_stream (d : StreamDiscovery) (id : StreamId) : StreamDiscovery := forget_cached (forget_own d id) id.

(** The queries: a filter over the values of the cache. *)
Fixpoint filter_fresh (now : Z) (keep : StreamAnnouncement -> bool) (l : list StreamAnnouncement) : exec (list StreamAnnouncement) :=
  match l with
  | [] => Done []
  | a :: l =>
      let! expired := is_expired a now in
      let! rest := filter_fresh now keep l in
      Done (if negb expired && keep a then a :: rest else rest)
  end.

Definition list_streams (d : StreamDiscovery) (now : Z) : exec (list StreamAnnouncement) :=
  filter_fresh now (fun _ => true) (values (streams d)).
Definition get_streams_by_publisher (d : StreamDiscovery) (publisher : bytes) (now : Z) : exec (list StreamAnnouncement) :=
  filter_fresh now (fun a => str_eqb (publisher_id a) publisher) (values (streams d)).
(** Text in lower case is a parameter: the tables of Unicode. *)
Fixpoint is_prefix (p s : rstring) : bool :=
  match p, s with
  | [], _ => true
  | x :: p, y :: s => (x =? y) && is_prefix p s
  | _ :: _, [] => false
  end.
Fixpoint contains_text (s sub : rstring) : bool :=
  is_prefix sub s || match s with [] => false | _ :: s => contains_text s sub end.

Definition search_streams (to_lowercase : rstring -> rstring) (d : StreamDiscovery) (query : rstring) (now : Z) : exec (list StreamAnnouncement) :=
  let query_lower := to_lowercase query in
  filter_fresh now (fun a => contains_text (to_lowercase (title a)) query_lower) (values (streams d)).
Definition stream_count (d : StreamDiscovery) (now : Z) : exec Z :=
  let! l := list_streams d now in Done (zlen l).

Definition get_stream (d : StreamDiscovery) (id : StreamId) (now : Z) : exec (option StreamAnnouncement) :=
  match streams d !! id with
  | Some a => let! expired := is_expired a now in Done (if expired : bool then None else Some a)
  | None => Done None
  end.

(** ** Interleaving *)

(** What is left of a call, or of a round of the service, which announces a copy
    of the list again. *)
Inductive job : Type :=
| Renewing (todo : list StreamAnnouncement)
| Noting (a : StreamAnnouncement) (todo : list StreamAnnouncement)
| Caching (a : StreamAnnouncement) (todo : list StreamAnnouncement)
| Removing (id : StreamId)
| Deciding (a : StreamAnnouncement)
| Cleaning (a : StreamAnnouncement)
| Storing (a : StreamAnnouncement)
| Finished.

(** [mine] is a note for the theorems: the streams ever announced here. *)
Record Directory : Type := { discovery : StreamDiscovery; jobs : list job; mine : gset StreamId }.

Definition new_directory (max : Z) : Directory := {| discovery := new_discovery max; jobs := []; mine := ∅ |}.

Definition with_job (w : Directory) (d : StreamDiscovery) (i : nat) (j : job) : Directory :=
  {| discovery := d; jobs := <[i := j]> (jobs w); mine := mine w |}.

(** An announcement whose end is a [u64]. *)
Definition fits (a : StreamAnnouncement) : Prop := is_u64 (announced_at a + ttl_secs a).

(** The next section of a job, when the clock says [now]. *)
Inductive job_step (now : Z) (d : StreamDiscovery) : job -> StreamDiscovery -> job -> Prop :=
| js_renew_sent a todo : fits (renewed a now) -> job_step now d (Renewing (a :: todo)) d (Noting (renewed a now) todo)
| js_renew_failed a todo : job_step now d (Renewing (a :: todo)) d (Renewing todo)
| js_renew_done : job_step now d (Renewing []) d Finished
| js_note a todo : job_step now d (Noting a todo) (note_own d a) (Caching a todo)
| js_cache a todo : job_step now d (Caching a todo) (cache_own d a) (Renewing todo)
| js_remove id : job_step now d (Removing id) (forget_cached d id) Finished
| js_decide a : job_step now d (Deciding a) d (if cache_full d then Cleaning a else Storing a)
| js_clean a d' : cleanup_expired d now = Done d' -> job_step now d (Cleaning a) d' (Storing a)
| js_store a : job_step now d (Storing a) (cache_received d a) Finished.

Inductive dir_step (w : Directory) : Directory -> Prop :=
| dir_announce a : fits a -> dir_step w {| discovery := discovery w; jobs := jobs w ++ [Noting a []]; mine := {[ann_stream_id a]} ∪ mine w |}
| dir_remove id : dir_step w {| discovery := forget_own (discovery w) id; jobs := jobs w ++ [Removing id]; mine := mine w |}
| dir_receive data a now : from_json data = Some a -> is_expired a now = Done false ->
    dir_step w {| discovery := discovery w; jobs := jobs w ++ [Deciding a]; mine := mine w |}
| dir_renew : dir_step w {| discovery := discovery w; jobs := jobs w ++ [Renewing (own_streams (discovery w))]; mine := mine w |}
| dir_cleanup now d' : cleanup_expired (discovery w) now = Done d' -> dir_step w {| discovery := d'; jobs := jobs w; mine := mine w |}
| dir_job i j now d' j' : jobs w !! i = Some j -> job_step now (discovery w) j d' j' -> dir_step w (with_job w d' i j').

(** ** The cache stays within its bound *)

Lemma is_expired_fits a now : fits a -> is_expired a now = Done (announced_at a + ttl_secs a <? now).
Proof. intros Hf. unfold is_expired, add_u64. by rewrite checked_done. Qed.

Lemma is_expired_done a now b : is_expired a now = Done b -> fits a.
Proof. unfold is_expired, add_u64, fits. destruct (checked _ _) eqn:Hc; [|done..]. intros _. apply checked_inv in Hc as [_ Hc]. exact Hc. Qed.

Definition fresh (a : StreamAnnouncement) (now : Z) : bool := negb (announced_at a + ttl_secs a <? now).

Lemma fresh_fits a now : fits a -> is_expired a now = Done (negb (fresh a now)).
Proof. intros Hf. rewrite is_expired_fits by done. unfold fresh. by rewrite negb_involutive. Qed.

Lemma filter_fresh_done now keep l : Forall fits l -> filter_fresh now keep l = Done (List.filter (fun a => fresh a now && keep a) l).
Proof.
  induction 1 as [|a l Ha _ IH]; [done|]. cbn [filter_fresh List.filter]. rewrite fresh_fits, IH by done. cbn [exec_bind].
  by rewrite negb_involutive.
Qed.

Lemma filter_fresh_sub now keep l l' ann : filter_fresh now keep l = Done l' -> ann ∈ l' -> ann ∈ l.
Proof.
  revert l'. induction l as [|x l IH]; intros l'; cbn [filter_fresh]; [by intros [= <-]|].
  destruct (is_expired x now) as [expired| |]; [|done..]. destruct (filter_fresh now keep l) as [rest| |]; [|done..]. cbn. intros [= <-] Hin.
  rewrite elem_of_cons. destruct (negb expired && keep x); [apply elem_of_cons in Hin as [->|Hin]; [by left|]|]; right; by apply (IH rest).
Qed.

(** The cleanup never panics on announcements that fit, and keeps the fresh. *)
Lemma retain_fresh_spec now entries kept : Forall (fun e => fits (snd e)) entries ->
  exists kept', retain_fresh now entries kept = Done kept' /\ kept' ⊆ kept /\
    forall id, (forall a, (id, a) ∈ entries -> fresh a now = true) -> kept' !! id = kept !! id.
Proof.
  intros Hf. revert kept. induction Hf as [|[id a] entries Ha _ IH]; intros kept; [by exists kept|]. cbn [retain_fresh].
  rewrite is_expired_fits by done. cbn [exec_bind]. destruct (IH (if announced_at a + ttl_secs a <? now then delete id kept else kept)) as (kept' & -> & Hsub & Hin).
  exists kept'. split; [done|]. split.
  - etrans; [done|]. destruct (_ <? _); [apply delete_subseteq|done].
  - intros id' Hfr. rewrite Hin by (intros a' Ha'; apply Hfr; by right). destruct (announced_at a + ttl_secs a <? now) eqn:He; [|done].
    apply lookup_delete_ne. intros ->. specialize (Hfr a ltac:(by left)). unfold fresh in Hfr. by rewrite He in Hfr.
Qed.

Lemma retain_fresh_drops now entries kept kept' id a : retain_fresh now entries kept = Done kept' -> (id, a) ∈ entries -> fresh a now = false ->
  kept' !! id = None.
Proof.
  revert kept. induction entries as [|[id1 a1] entries IH]; intros kept; [by intros _ ?%not_elem_of_nil|]. cbn [retain_fresh].
  destruct (is_expired a1 now) as [b| |] eqn:He; [|done..]. cbn [exec_bind]. intros Hr [[= -> ->]|Hin]%elem_of_cons Hfr; [|by eapply IH].
  rewrite (is_expired_fits a1 now) in He by (by eapply is_expired_done). injection He as <-. unfold fresh in Hfr. apply negb_false_iff in Hfr. rewrite Hfr in Hr.
  cut (forall k, retain_fresh now entries k = Done kept' -> kept' ⊆ k).
  { intros Hsub. specialize (Hsub _ Hr). apply eq_None_not_Some. intros [x Hx]. eapply lookup_weaken in Hx; [|exact Hsub]. by rewrite lookup_delete_eq in Hx. }
  clear. induction entries as [|[id2 a2] entries IH]; intros k; cbn [retain_fresh]; [by intros [= ->]|].
  destruct (is_expired a2 now) as [b| |]; [|done..]. cbn [exec_bind]. intros Hk%IH. etrans; [done|]. destruct b; [apply delete_subseteq|done].
Qed.

Definition cached_fits (d : StreamDiscovery) : Prop := map_Forall (fun id a => ann_stream_id a = id /\ fits a) (streams d).

Lemma cleanup_done d now : cached_fits d -> exists d', cleanup_expired d now = Done d' /\ streams d' = filter (fun e => fresh (snd e) now = true) (streams d) /\
  max_cached_streams d' = max_cached_streams d /\ own_streams d' = own_streams d.
Proof.
  intros Hd. assert (Hf : Forall (fun e => fits (snd e)) (map_iter (streams d))).
  { apply list.Forall_forall. intros [id a] Ha%elem_of_map_iter. by destruct (Hd id a Ha). }
  unfold cleanup_expired. destruct (retain_fresh_spec now _ (streams d) Hf) as (kept & Hk & Hsub & Hin). rewrite Hk. eexists. split; [done|].
  split; [|done]. cbn. apply map_eq. intros id. destruct (streams d !! id) as [a|] eqn:Ha.
  - destruct (fresh a now) eqn:Hfr.
    + rewrite (proj2 (map_lookup_filter_Some _ _ _ _) (conj Ha Hfr)). rewrite Hin; [done|]. intros a' Ha'%elem_of_map_iter. congruence.
    + rewrite (retain_fresh_drops now _ _ kept id a Hk) by (by rewrite ?elem_of_map_iter). symmetry. apply map_lookup_filter_None. right.
      intros a' Ha'. cbn. congruence.
  - rewrite (proj2 (map_lookup_filter_None _ _ _)) by (by left). apply eq_None_not_Some. intros [x Hx]. eapply lookup_weaken in Hx; [|done]. congruence.
Qed.

(** Of the cache, what was not announced here. *)
Definition foreign (mine : gset StreamId) (m : gmap StreamId StreamAnnouncement) : gmap StreamId StreamAnnouncement :=
  filter (fun e => fst e ∉ mine) m.

Lemma foreign_subseteq mine m m' : m' ⊆ m -> (size (foreign mine m') <= size (foreign mine m))%nat.
Proof. intros Hs. apply map_subseteq_size. by apply map_filter_subseteq_mono. Qed.

Lemma foreign_le mine m : (size (foreign mine m) <= size m)%nat.
Proof. apply map_subseteq_size, map_filter_subseteq. Qed.

Lemma size_foreign mine m : (size m <= size (foreign mine m) + size mine)%nat.
Proof.
  assert (Hu : dom m ⊆ dom (foreign mine m) ∪ mine).
  { intros id [a Ha]%elem_of_dom. destruct (decide (id ∈ mine)); [set_solver|]. apply elem_of_union_l, elem_of_dom. exists a.
    by apply map_lookup_filter_Some. }
  apply subseteq_size in Hu. rewrite size_dom in Hu. etrans; [exact Hu|]. rewrite size_union_alt, size_dom.
  apply Nat.add_le_mono_l, subseteq_size. set_solver.
Qed.

Definition job_ok (mine : gset StreamId) (j : job) : Prop :=
  match j with
  | Renewing todo => Forall (fun a => ann_stream_id a ∈ mine) todo
  | Noting a todo | Caching a todo => (ann_stream_id a ∈ mine /\ fits a) /\ Forall (fun a => ann_stream_id a ∈ mine) todo
  | Deciding a | Cleaning a | Storing a => fits a
  | Removing _ | Finished => True
  end.

Definition dir_ok (w : Directory) : Prop :=
  let d := discovery w in
  cached_fits d /\ Z.of_nat (size (foreign (mine w) (streams d))) <= max_cached_streams d /\
  Forall (fun a => ann_stream_id a ∈ mine w) (own_streams d) /\ Forall (job_ok (mine w)) (jobs w).

Lemma other_streams_forall (P : StreamAnnouncement -> Prop) id own : Forall P own -> Forall P (other_streams id own).
Proof. intros H. apply list.Forall_forall. intros a [Ha _]%list_elem_of_In%filter_In. rewrite list.Forall_forall in H. by apply H, list_elem_of_In. Qed.

Lemma foreign_insert_mine mine m id (a : StreamAnnouncement) : id ∈ mine -> foreign mine (<[id := a]> m) = foreign mine m.
Proof. intros Hi. unfold foreign. rewrite map_filter_insert_False by (cbn; set_solver). by rewrite map_filter_delete_not by (intros; cbn; set_solver). Qed.

Lemma foreign_more mine id m : (size (foreign ({[id]} ∪ mine) m) <= size (foreign mine m))%nat.
Proof. apply map_subseteq_size. unfold foreign. apply map_filter_subseteq_ext. intros i x _. cbn. set_solver. Qed.

Lemma job_ok_more mine id j : job_ok mine j -> job_ok ({[id]} ∪ mine) j.
Proof.
  assert (Hl : forall todo, Forall (fun a => ann_stream_id a ∈ mine) todo -> Forall (fun a => ann_stream_id a ∈ {[id]} ∪ mine) todo).
  { intros todo Ht. eapply Forall_impl; [exact Ht|]. intros a Ha. cbn in *. set_solver. }
  destruct j as [todo|a todo|a todo|i|a|a|a|]; cbn; try done; [by apply Hl|..].
  - intros [[Ha Hf] Ht]. split; [split; [set_solver|done]|by apply Hl].
  - intros [[Ha Hf] Ht]. split; [split; [set_solver|done]|by apply Hl].
Qed.

Definition disc_ok (mine : gset StreamId) (d : StreamDiscovery) : Prop :=
  cached_fits d /\ Z.of_nat (size (foreign mine (streams d))) <= max_cached_streams d /\
  Forall (fun a => ann_stream_id a ∈ mine) (own_streams d).

Lemma disc_shrink mine d m : disc_ok mine d -> m ⊆ streams d -> disc_ok mine (with_streams d m).
Proof.
  intros (Hf & Hs & Ho) Hm. split_and!; cbn; [|pose proof (foreign_subseteq mine (streams d) m Hm); lia|done].
  intros id a Ha. apply Hf. by eapply lookup_weaken.
Qed.

Lemma cleanup_ok mine d now d' : disc_ok mine d -> cleanup_expired d now = Done d' -> disc_ok mine d'.
Proof.
  intros Hd Hc. destruct (cleanup_done d now) as (d1 & Hc1 & Hm & Hmax & Hown); [apply Hd|]. rewrite Hc in Hc1. injection Hc1 as <-.
  replace d' with (with_streams d (streams d')) by (destruct d'; cbn in *; by subst). apply disc_shrink; [done|]. rewrite Hm. apply map_filter_subseteq.
Qed.

Lemma job_step_ok mine now d j d' j' : disc_ok mine d -> job_ok mine j -> job_step now d j d' j' -> disc_ok mine d' /\ job_ok mine j'.
Proof.
  intros Hd Hj Hs. pose proof Hd as (Hf & Hsz & Ho). destruct Hs as [a todo Hfit|a todo| |a todo|a todo|id|a|a d' Hc|a]; cbn in Hj.
  - split; [done|]. apply list.Forall_cons in Hj as [Ha Ht]. by split.
  - split; [done|]. by apply list.Forall_cons in Hj as [_ ?].
  - done.
  - split; [|done]. destruct Hj as [[Ha _] _]. split_and!; [done|done|]. cbn. apply Forall_app_2; [by apply other_streams_forall|]. by constructor.
  - destruct Hj as [[Ha Hfit] Ht]. split; [|done]. split_and!; [|by cbn; rewrite foreign_insert_mine|done].
    cbn. apply map_Forall_insert_2; [done|exact Hf].
  - split; [|done]. apply disc_shrink; [done|]. apply delete_subseteq.
  - split; [done|]. by destruct (cache_full d).
  - split; [by eapply cleanup_ok|done].
  - split; [|done]. unfold cache_received. destruct (Z.ltb_spec (Z.of_nat (size (streams d))) (max_cached_streams d)) as [Hlt|]; [|done].
    split_and!; [cbn; by apply map_Forall_insert_2| |done]. cbn. unfold foreign.
    pose proof (foreign_le mine (streams d)) as Hle. unfold foreign in Hle.
    destruct (decide (ann_stream_id a ∈ mine)) as [Hin|Hout].
    + pose proof (foreign_insert_mine mine (streams d) (ann_stream_id a) a Hin) as He. unfold foreign in He. rewrite He. lia.
    + rewrite map_filter_insert_True by done. rewrite map_size_insert. destruct (filter _ (streams d) !! ann_stream_id a); cbn; lia.
Qed.

Lemma dir_step_ok w w' : dir_ok w -> dir_step w w' -> dir_ok w'.
Proof.
  intros (Hf & Hs & Ho & Hj) Hstep.
  assert (Hd : disc_ok (mine w) (discovery w)) by done.
  assert (Hadd : forall d j, disc_ok (mine w) d -> job_ok (mine w) j -> dir_ok {| discovery := d; jobs := jobs w ++ [j]; mine := mine w |}).
  { intros d j (? & ? & ?) Hj'. split_and!; [done..|]. cbn. apply Forall_app_2; [done|]. by constructor. }
  destruct Hstep as [a Hfit|id|data a now Hdata Hexp| |now d' Hc|i j now d' j' Hi Hjs].
  - split_and!; [done|pose proof (foreign_more (mine w) (ann_stream_id a) (streams (discovery w))); cbn; lia| |].
    + eapply Forall_impl; [exact Ho|]. intros x Hx. cbn in *. set_solver.
    + cbn. apply Forall_app_2; [eapply Forall_impl; [exact Hj|intros x; apply job_ok_more]|]. constructor; [|done]. split; [split; [set_solver|done]|done].
  - apply Hadd; [|done]. split_and!; [done|done|]. cbn. by apply other_streams_forall.
  - apply Hadd; [done|]. cbn. by eapply is_expired_done.
  - by apply Hadd.
  - destruct (cleanup_ok _ _ _ _ Hd Hc) as (? & ? & ?). by split_and!.
  - rewrite list.Forall_forall in Hj. pose proof (Hj j (list_elem_of_lookup_2 _ _ _ Hi)) as Hjj.
    destruct (job_step_ok _ _ _ _ _ _ Hd Hjj Hjs) as [(? & ? & ?) Hj']. split_and!; [done..|]. cbn. apply Forall_insert; [|done].
    by apply list.Forall_forall.
Qed.

(** However the calls and the service interleave, whatever announcements
    arrive, the cache holds at most the configured number of streams besides
    those announced here, every entry is under its own name, and no query or
    cleanup panics on it. *)
Theorem cache_bounded max w : 0 <= max -> rtc dir_step (new_directory max) w ->
  max_cached_streams (discovery w) = max /\
  Z.of_nat (size (streams (discovery w))) <= max + Z.of_nat (size (mine w)) /\
  (forall id a, streams (discovery w) !! id = Some a -> ann_stream_id a = id) /\
  (forall now, exists d', cleanup_expired (discovery w) now = Done d' /\
     streams d' = filter (fun e => fresh (snd e) now = true) (streams (discovery w))) /\
  (forall now keep, filter_fresh now keep (values (streams (discovery w))) =
     Done (List.filter (fun a => fresh a now && keep a) (values (streams (discovery w))))).
Proof.
  intros Hmax Hr. assert (Hok : dir_ok w /\ max_cached_streams (discovery w) = max).
  { revert w Hr. refine (rtc_ind_r _ _ _ _).
    - split; [|done]. split_and!; [apply map_Forall_empty| |constructor|constructor]. cbn. unfold foreign. by rewrite map_filter_empty, map_size_empty.
    - intros y z _ Hs [Hy Hm]. split; [by eapply dir_step_ok|]. destruct Hs as [a Hfit|id|data a now Hdata Hexp| |now d' Hc|i j now d' j' Hi Hjs]; try done.
      + cbn. destruct (cleanup_done (discovery y) now) as (d1 & Hc1 & _ & Hmax' & _); [apply Hy|]. rewrite Hc in Hc1. injection Hc1 as <-. congruence.
      + cbn. destruct Hjs as [| | | | | | |a d' Hc|a]; try done.
        * destruct (cleanup_done (discovery y) now) as (d1 & Hc1 & _ & Hmax' & _); [apply Hy|]. rewrite Hc in Hc1. injection Hc1 as <-. congruence.
        * unfold cache_received. by destruct (_ <? _). }
  destruct Hok as [(Hf & Hs & _) Hm]. split; [done|]. split; [|split; [|split]].
  - pose proof (size_foreign (mine w) (streams (discovery w))). lia.
  - intros id a Ha. by destruct (Hf id a Ha).
  - intros now. destruct (cleanup_done _ now Hf) as (d' & Hc & Hst & _). by exists d'.
  - intros now keep. apply filter_fresh_done, list.Forall_forall. intros a Ha. unfold values in Ha.
    apply list_elem_of_fmap in Ha as ([id x] & -> & Hx%elem_of_map_iter). by destruct (Hf id x Hx).
Qed.

(** ** Received announcements *)

Lemma is_expired_panic a now : is_expired a now = Panic <-> ~ fits a.
Proof.
  unfold is_expired, add_u64, fits, is_u64. destruct (decide (0 <= announced_at a + ttl_secs a <= u64_max)) as [Hf|Hf].
  - by rewrite checked_done.
  - by rewrite checked_panic.
Qed.

(** The cache that an announcement finds: a full one has been cleaned. *)
Definition cleaned (d : StreamDiscovery) (now : Z) : gmap StreamId StreamAnnouncement :=
  if cache_full d then filter (fun e => fresh (snd e) now = true) (streams d) else streams d.

Definition entered (d : StreamDiscovery) (now : Z) (a : StreamAnnouncement) : gmap StreamId StreamAnnouncement :=
  if Z.of_nat (size (cleaned d now)) <? max_cached_streams d then <[ann_stream_id a := a]> (cleaned d now) else cleaned d now.

Lemma process_fresh d data a now now' : cached_fits d -> from_json data = Some a -> fits a -> fresh a now = true ->
  process_announcement d data now now' = Done (with_streams d (entered d now' a), ROk (Some a)).
Proof.
  intros Hd Hdata Hf Hfr. destruct (cleanup_done d now' Hd) as (d' & Hc & Hs & Hmax & Hown).
  assert (Hd' : d' = with_streams d (filter (fun e => fresh (snd e) now' = true) (streams d))) by (destruct d, d'; cbn in *; by subst).
  unfold process_announcement. rewrite Hdata, fresh_fits, Hfr by done. cbn [negb exec_bind]. unfold entered, cleaned.
  destruct (cache_full d); [rewrite Hc, Hd'|]; cbn [exec_bind]; unfold cache_received; cbn [streams with_streams max_cached_streams];
    destruct (_ <? _); try done; by destruct d.
Qed.

(** Every branch of [process_announcement]: bad JSON is an error, an expired
    announcement is ignored, and another enters the cache if there is room after
    the expired ones were thrown out of a full one. An announcement whose time
    and lifetime add up to more than 64 bits panics the node. *)
Theorem process_announcement_spec d data now now' : cached_fits d ->
  match from_json data with
  | None => exists e, process_announcement d data now now' = Done (d, RErr e)
  | Some a =>
      (process_announcement d data now now' = Panic <-> ~ fits a) /\
      (fits a -> fresh a now = false -> process_announcement d data now now' = Done (d, ROk None)) /\
      (fits a -> fresh a now = true ->
         process_announcement d data now now' = Done (with_streams d (entered d now' a), ROk (Some a)))
  end.
Proof.
  intros Hd. destruct (from_json data) as [a|] eqn:Hdata; [|unfold process_announcement; rewrite Hdata; by eexists].
  split; [|split].
  - rewrite <- (is_expired_panic a now). split.
    + intros Hp. destruct (decide (fits a)) as [Hf|Hf]; [|by apply is_expired_panic]. destruct (fresh a now) eqn:Hfr.
      * by rewrite (process_fresh _ _ a) in Hp.
      * unfold process_announcement in Hp. by rewrite Hdata, fresh_fits, Hfr in Hp.
    + intros Hp. unfold process_announcement. by rewrite Hdata, Hp.
  - intros Hf Hfr. unfold process_announcement. by rewrite Hdata, fresh_fits, Hfr.
  - intros Hf Hfr. by apply process_fresh.
Qed.

(** When the cache is full of live streams, the new announcement of a stream
    that is in it is ignored like any other. The stream is then gone from the
    directory when its old announcement ends, although it is still announced. *)
Theorem refresh_refused d data a old now later : from_json data = Some a -> fits a -> cached_fits d ->
  streams d !! ann_stream_id a = Some old -> map_Forall (fun _ x => fresh x now = true) (streams d) -> cache_full d = true ->
  now <= later -> fresh a later = true -> fresh old later = false ->
  exists d', process_announcement d data now now = Done (d', ROk (Some a)) /\ get_stream d' (ann_stream_id a) later = Done None.
Proof.
  intros Hdata Hf Hd Hold Hall Hfull Hle Hfa Hfo.
  assert (Hnow : fresh a now = true) by (unfold fresh in *; apply negb_true_iff, Z.ltb_ge in Hfa; apply negb_true_iff, Z.ltb_ge; lia).
  eexists. split; [by apply process_fresh|]. destruct (Hd _ _ Hold) as [_ Hfold].
  unfold get_stream, entered, cleaned. rewrite Hfull, (map_filter_id _ (streams d)) by (intros i x Hx; by apply (Hall i)).
  unfold cache_full in Hfull. apply Z.leb_le in Hfull. destruct (Z.ltb_spec (Z.of_nat (size (streams d))) (max_cached_streams d)); [lia|].
  cbn [streams with_streams]. by rewrite Hold, fresh_fits, Hfo.
Qed.

(** ** What goes wrong *)

Definition demo_announcement : StreamAnnouncement := new_announcement [1] [] [] 1000.

Lemma job_rtc w i j now d' j' : jobs w !! i = Some j -> job_step now (discovery w) j d' j' -> rtc dir_step w (with_job w d' i j').
Proof. intros Hi Hs. apply rtc_once. by eapply dir_job. Qed.

(** The service announces a copy of the list of own streams: a stream that is
    removed while it does so is announced after the removal is over, and is back
    in the list and in the cache, to be announced for ever. *)
Theorem removed_stream_comes_back max : exists w w',
  rtc dir_step (new_directory max) w /\ jobs w !! 2%nat = Some Finished /\
  own_streams (discovery w) = [] /\ streams (discovery w) = ∅ /\
  rtc dir_step w w' /\ own_streams (discovery w') = [renewed demo_announcement 1060] /\
  streams (discovery w') = {[ [1] := renewed demo_announcement 1060 ]}.
Proof.
  set (a := demo_announcement). set (a' := renewed a 1060).
  assert (Hr : exists w, rtc dir_step (new_directory max) w /\ jobs w = [Finished; Noting a' []; Finished] /\
    own_streams (discovery w) = [] /\ streams (discovery w) = ∅).
  { eexists. split.
    - eapply rtc_l; [by apply (dir_announce _ a)|].
      eapply rtc_l; [eapply (dir_job _ 0 _ 0); [done|apply js_note]|]. eapply rtc_l; [eapply (dir_job _ 0 _ 0); [done|apply js_cache]|].
      eapply rtc_l; [eapply (dir_job _ 0 _ 0); [done|apply js_renew_done]|]. eapply rtc_l; [apply dir_renew|].
      eapply rtc_l; [eapply (dir_job _ 1 _ 1060); [done|by apply (js_renew_sent 1060 _ a [])]|].
      eapply rtc_l; [apply (dir_remove _ [1])|]. eapply rtc_l; [eapply (dir_job _ 2 _ 0); [done|apply js_remove]|]. apply rtc_refl.
    - split_and!; [reflexivity|reflexivity|reflexivity]. }
  destruct Hr as (w & Hr & Hj & Ho & Hs). exists w.
  set (d1 := note_own (discovery w) a'). set (w1 := with_job w d1 1 (Caching a' [])).
  set (d2 := cache_own d1 a'). exists (with_job w1 d2 1 (Renewing [])). split_and!; [done|by rewrite Hj|done|done| |cbn; by rewrite Ho|].
  - etrans; [eapply (job_rtc w 1 _ 0 d1); [by rewrite Hj|apply js_note]|]. eapply (job_rtc w1 1 _ 0 d2); [cbn; by rewrite Hj|apply js_cache].
  - cbn. rewrite Hs. reflexivity.
Qed.
End Service.

(** ** Instances for concrete runs *)

Section Demo.
#[local] Instance StreamAnnouncement_eq_dec : EqDecision StreamAnnouncement.
Proof. solve_decision. Defined.
#[local, program] Instance StreamAnnouncement_countable : Countable StreamAnnouncement :=
  inj_countable' (fun a => (ann_stream_id a, title a, publisher_id a, (ann_video_codec a, ann_audio_codec a, ann_video_width a, ann_video_height a),
      (started_at a, announced_at a, ttl_secs a), ann_metadata a))
    (fun '(a, b, c, (d, e, f, g), (h, i, j), k) => {| ann_stream_id := a; title := b; publisher_id := c; ann_video_codec := d; ann_audio_codec := e;
      ann_video_width := f; ann_video_height := g; started_at := h; announced_at := i; ttl_secs := j; ann_metadata := k |}) _.
Next Obligation. by intros []. Qed.

Definition demo_read (s : rstring) : option StreamAnnouncement := match s with [Zpos p] => decode p | _ => None end.
#[local] Instance demo_ann_json : Json StreamAnnouncement.
Proof.
  refine {| to_json a := Some [Zpos (encode a)]; from_json := demo_read |}.
  intros a s [= <-]. apply decode_encode.
Defined.

Definition demo_text (a : StreamAnnouncement) : rstring := [Zpos (encode a)].

Lemma demo_text_reads a : from_json (demo_text a) = Some a.
Proof. apply decode_encode. Qed.

(** A cache of one place, which a live stream takes. *)
Definition demo_full : StreamDiscovery := cache_received (new_discovery 1) demo_announcement.

Lemma demo_fits name now : 0 <= now <= 1000000 -> fits (new_announcement [1] name [] now).
Proof. intros Hn. unfold fits, is_u64, u64_max, new_announcement. cbn. unfold DEFAULT_ANNOUNCEMENT_TTL_SECS. lia. Qed.

Lemma demo_full_fits : cached_fits demo_full.
Proof. apply map_Forall_insert_2; [|apply map_Forall_empty]. split; [done|]. by apply demo_fits. Qed.

(** The one place is taken by an announcement that was received. *)
Lemma cache_bounded_witness : exists w, rtc dir_step (new_directory 1) w /\ streams (discovery w) = {[ [1] := demo_announcement ]} /\
  Z.of_nat (size (streams (discovery w))) <= 1 + Z.of_nat (size (mine w)).
Proof.
  assert (Hr : exists w, rtc dir_step (new_directory 1) w /\ streams (discovery w) = {[ [1] := demo_announcement ]}).
  { eexists. split.
    - eapply rtc_l; [apply (dir_receive _ (demo_text demo_announcement) demo_announcement 1000); [apply demo_text_reads|reflexivity]|].
      eapply rtc_l; [eapply (dir_job _ 0 _ 0); [reflexivity|apply js_decide]|]. eapply rtc_l; [eapply (dir_job _ 0 _ 0); [reflexivity|apply js_store]|].
      apply rtc_refl.
    - reflexivity. }
  destruct Hr as (w & Hr & Hs). exists w. split; [exact Hr|]. split; [exact Hs|]. apply (cache_bounded 1 w); [lia|exact Hr].
Defined.

Lemma process_announcement_spec_witness :
  process_announcement demo_full (demo_text (renewed demo_announcement 2000)) 2000 2000 =
    Done (with_streams demo_full {[ [1] := renewed demo_announcement 2000 ]}, ROk (Some (renewed demo_announcement 2000))).
Proof.
  pose proof (process_announcement_spec demo_full (demo_text (renewed demo_announcement 2000)) 2000 2000 demo_full_fits) as Hp.
  rewrite demo_text_reads in Hp. destruct Hp as (_ & _ & Hp). rewrite Hp; [reflexivity|by apply (demo_fits [] 2000)|reflexivity].
Defined.

Lemma refresh_refused_witness :
  let a := renewed demo_announcement 1200 in
  exists d', process_announcement demo_full (demo_text a) 1200 1200 = Done (d', ROk (Some a)) /\ get_stream d' [1] 1400 = Done None.
Proof.
  intros a. apply (refresh_refused demo_full (demo_text a) a demo_announcement 1200 1400);
    [apply demo_text_reads|by apply (demo_fits [] 1200)|exact demo_full_fits|reflexivity| |reflexivity|lia|reflexivity|reflexivity].
  apply map_Forall_insert_2; [done|apply map_Forall_empty].
Defined.
End Demo.
