(* ===== verification/Playback.v ===== *)
(** * Playback and the viewers of a node

    [StreamManager] of [node/src/web_server.rs] with the connections it serves:
    the calls that load a file, start and stop, the task that plays the loaded
    segments, the loops that receive from the overlay ([run_p2p_receive_loop],
    the loop of browse mode, and those of [/ws/relay]), and the sockets of
    viewers ([handle_websocket], frames in [ClientFrames]). A step is one
    critical section, one send or one event taken; tasks, calls and connections
    interleave freely. The segments go to the viewers through a broadcast
    channel, of which a receiver that falls behind loses the oldest. What
    [load_video_file] stores before the samples, and the three locks that an
    opening viewer reads, are one step each. *)

From S2P Require Import Prelude Rust Format Float Fmp4 Mp4Data Mp4Moov Mp4Parse Mp4Segments Mp4Delivery Segment ClientFrames.

#[local] Open Scope Z_scope.

(** ** The state of a node *)

(** What is fixed when the manager is made: [new], [with_p2p] or
    [with_discovery]. *)
Record Setup : Type := {
  enable_p2p : bool;
  overlay : bool;
  stream_id : option StreamId;
  segment_stream_id : StreamId;
}.

Definition local_only (id : StreamId) : Setup :=
  {| enable_p2p := false; overlay := false; stream_id := None; segment_stream_id := id |}.
Definition with_p2p (id : StreamId) : Setup :=
  {| enable_p2p := true; overlay := true; stream_id := Some id; segment_stream_id := id |}.
Definition with_discovery (id : StreamId) : Setup :=
  {| enable_p2p := true; overlay := true; stream_id := None; segment_stream_id := id |}.

(** [id.as_str().unwrap_or_default()]. *)
Definition id_text (id : StreamId) : rstring := default [] (from_utf8 id).

(** What was loaded or received. *)
Record Media : Type := {
  video_samples : option (list StreamSegment);
  initialization_segment : option bytes;
  video_init_segment : option bytes;
  audio_init_segment : option bytes;
  video_codec_info : CodecInfo;
  audio_codec_info : CodecInfo;
}.

Definition no_media : Media :=
  {| video_samples := None; initialization_segment := None; video_init_segment := None; audio_init_segment := None;
     video_codec_info := None; audio_codec_info := None |}.

Definition with_samples (m : Media) (v : option (list StreamSegment)) : Media :=
  {| video_samples := v; initialization_segment := initialization_segment m; video_init_segment := video_init_segment m;
     audio_init_segment := audio_init_segment m; video_codec_info := video_codec_info m; audio_codec_info := audio_codec_info m |}.
Definition with_init (m : Media) (v : option bytes) : Media :=
  {| video_samples := video_samples m; initialization_segment := v; video_init_segment := video_init_segment m;
     audio_init_segment := audio_init_segment m; video_codec_info := video_codec_info m; audio_codec_info := audio_codec_info m |}.
Definition with_track_inits (m : Media) (video audio : option bytes) : Media :=
  {| video_samples := video_samples m; initialization_segment := initialization_segment m; video_init_segment := video;
     audio_init_segment := audio; video_codec_info := video_codec_info m; audio_codec_info := audio_codec_info m |}.
Definition with_codecs (m : Media) (video audio : CodecInfo) : Media :=
  {| video_samples := video_samples m; initialization_segment := initialization_segment m;
     video_init_segment := video_init_segment m; audio_init_segment := audio_init_segment m;
     video_codec_info := video; audio_codec_info := audio |}.

(** [load_video_file] up to the lock of the samples: the codecs and the
    initialization segments are stored on the way, also when the segments fail. *)
Definition prepare_file (su : Setup) (m : Media) (file_data : bytes) : exec (Media * result (list StreamSegment) io_error) :=
  let! r := parse new_parser file_data in
  match r with
  | (_, RErr e) => Done (m, RErr e)
  | (mp4_parser, ROk _) =>
      let keep := fun (found old : CodecInfo) => match found with Some _ => found | None => old end in
      let m := with_codecs m (keep (get_video_codec_info mp4_parser) (video_codec_info m))
                             (keep (get_audio_codec_info mp4_parser) (audio_codec_info m)) in
      let! inits := generate_separate_init_segments mp4_parser in
      let m := match inits with ROk (video, audio) => with_track_inits m (Some video) audio | RErr _ => m end in
      let! r := generate_stream_segments mp4_parser (segment_stream_id su) in
      match r with
      | (_, RErr e) => Done (m, RErr e)
      | (_, ROk segments) =>
          Done (fold_left (fun m s => if is_init s then with_init m (Some (seg_data s)) else m) segments m, ROk segments)
      end
  end.

(** A receiver of the broadcast channel. *)
Record Receiver : Type := { pending : list StreamSegment; missed : Z }.
Definition new_receiver : Receiver := {| pending := []; missed := 0 |}.

Inductive client_kind : Type := Viewer | RelaySocket.

Inductive phase : Type :=
| Arriving        (* not a receiver *)
| Subscribed      (* a receiver; nothing sent *)
| Informed        (* the codec information was sent *)
| Serving
| Closed.

(** A connection. [joined_at] is a note for the theorems: how many segments had
    been broadcast when the connection became a receiver. *)
Record Client : Type := {
  client : client_kind;
  requested : option StreamId;
  at_phase : phase;
  receiver : Receiver;
  transcript : list WsMessage;
  dropped_segments : Z;
  joined_at : nat;
}.

Definition is_open (c : Client) : bool :=
  match at_phase c with Subscribed | Informed | Serving => true | Arriving | Closed => false end.

Definition with_phase (c : Client) (p : phase) : Client :=
  {| client := client c; requested := requested c; at_phase := p; receiver := receiver c; transcript := transcript c;
     dropped_segments := dropped_segments c; joined_at := joined_at c |}.
Definition with_receiver (c : Client) (r : Receiver) : Client :=
  {| client := client c; requested := requested c; at_phase := at_phase c; receiver := r; transcript := transcript c;
     dropped_segments := dropped_segments c; joined_at := joined_at c |}.
Definition send_frames (c : Client) (ms : list WsMessage) : Client :=
  {| client := client c; requested := requested c; at_phase := at_phase c; receiver := receiver c;
     transcript := transcript c ++ ms; dropped_segments := dropped_segments c; joined_at := joined_at c |}.
Definition count_dropped (c : Client) (n : Z) : Client :=
  {| client := client c; requested := requested c; at_phase := at_phase c; receiver := receiver c;
     transcript := transcript c; dropped_segments := dropped_segments c + n; joined_at := joined_at c |}.
Definition subscribe_client (c : Client) (sent : nat) (p : phase) : Client :=
  {| client := client c; requested := requested c; at_phase := p; receiver := new_receiver; transcript := transcript c;
     dropped_segments := dropped_segments c; joined_at := sent |}.

(** The task that plays the loaded segments. From [Playing] on it holds the lock
    of the samples. *)
Inductive task : Type :=
| Delayed                                              (* the first second *)
| InitFirst                                            (* publishes the initialization segment *)
| Locking                                              (* wants the lock of the samples *)
| Playing (segs : list StreamSegment) (i : nat)
| Publishing (segs : list StreamSegment) (i : nat)     (* segment [i] went to the local clients *)
| Relooping (segs : list StreamSegment)                (* publishes the initialization segment again *)
| Finishing
| Ended.

Definition holds_samples (t : task) : bool :=
  match t with Playing _ _ | Publishing _ _ | Relooping _ | Finishing => true | _ => false end.

(** Calls under way: [start_streaming] section by section, and the end of
    [load_video_file]. *)
Inductive call : Type :=
| StartFlag
| StartListen
| StartCheck                                           (* wants the lock of the samples *)
| StartSpawn
| LoadStore (segments : list StreamSegment)            (* wants the lock of the samples *)
| Returned (ok : bool).

Inductive event : Type :=
| StreamData (id : bytes) (data : bytes)
| StreamAnnounced (data : bytes)
| OtherEvent.

Inductive loop_kind : Type :=
| Receiving (target : StreamId)                        (* [run_p2p_receive_loop] *)
| Browsing
| Relaying (target : StreamId).                        (* of a relay socket *)

Inductive loop_phase : Type :=
| Checking
| Waiting
| Forwarding (s : StreamSegment)
| Halted.

Record Listener : Type := {
  listens : loop_kind;
  stop_flag : bool;              (* whether it ends when the node does not stream *)
  loop_at : loop_phase;
  owner : option nat;            (* the connection whose end aborts it *)
}.

Definition at_loop (l : Listener) (p : loop_phase) : Listener :=
  {| listens := listens l; stop_flag := stop_flag l; loop_at := p; owner := owner l |}.

(** [sent] is a note for the theorems: everything that was broadcast. *)
Record Node : Type := {
  media : Media;
  is_streaming : bool;
  segment_sequence : Z;
  clients : list Client;
  tasks : list task;
  calls : list call;
  listeners : list Listener;
  events : list event;
  published : list bytes;
  discovered : list bytes;       (* the announcements handed to the discovery *)
  sent : list StreamSegment;
}.

Definition new_node : Node :=
  {| media := no_media; is_streaming := false; segment_sequence := 0; clients := []; tasks := []; calls := [];
     listeners := []; events := []; published := []; discovered := []; sent := [] |}.

Definition set_media (n : Node) (v : Media) : Node :=
  {| media := v; is_streaming := is_streaming n; segment_sequence := segment_sequence n; clients := clients n; tasks := tasks n;
     calls := calls n; listeners := listeners n; events := events n; published := published n; discovered := discovered n; sent := sent n |}.
Definition set_streaming (n : Node) (v : bool) : Node :=
  {| media := media n; is_streaming := v; segment_sequence := segment_sequence n; clients := clients n; tasks := tasks n;
     calls := calls n; listeners := listeners n; events := events n; published := published n; discovered := discovered n; sent := sent n |}.
Definition set_sequence (n : Node) (v : Z) : Node :=
  {| media := media n; is_streaming := is_streaming n; segment_sequence := v; clients := clients n; tasks := tasks n;
     calls := calls n; listeners := listeners n; events := events n; published := published n; discovered := discovered n; sent := sent n |}.
Definition set_clients (n : Node) (v : list Client) : Node :=
  {| media := media n; is_streaming := is_streaming n; segment_sequence := segment_sequence n; clients := v; tasks := tasks n;
     calls := calls n; listeners := listeners n; events := events n; published := published n; discovered := discovered n; sent := sent n |}.
Definition set_tasks (n : Node) (v : list task) : Node :=
  {| media := media n; is_streaming := is_streaming n; segment_sequence := segment_sequence n; clients := clients n; tasks := v;
     calls := calls n; listeners := listeners n; events := events n; published := published n; discovered := discovered n; sent := sent n |}.
Definition set_calls (n : Node) (v : list call) : Node :=
  {| media := media n; is_streaming := is_streaming n; segment_sequence := segment_sequence n; clients := clients n; tasks := tasks n;
     calls := v; listeners := listeners n; events := events n; published := published n; discovered := discovered n; sent := sent n |}.
Definition set_listeners (n : Node) (v : list Listener) : Node :=
  {| media := media n; is_streaming := is_streaming n; segment_sequence := segment_sequence n; clients := clients n; tasks := tasks n;
     calls := calls n; listeners := v; events := events n; published := published n; discovered := discovered n; sent := sent n |}.
Definition set_events (n : Node) (v : list event) : Node :=
  {| media := media n; is_streaming := is_streaming n; segment_sequence := segment_sequence n; clients := clients n; tasks := tasks n;
     calls := calls n; listeners := listeners n; events := v; published := published n; discovered := discovered n; sent := sent n |}.
Definition set_published (n : Node) (v : list bytes) : Node :=
  {| media := media n; is_streaming := is_streaming n; segment_sequence := segment_sequence n; clients := clients n; tasks := tasks n;
     calls := calls n; listeners := listeners n; events := events n; published := v; discovered := discovered n; sent := sent n |}.
Definition set_discovered (n : Node) (v : list bytes) : Node :=
  {| media := media n; is_streaming := is_streaming n; segment_sequence := segment_sequence n; clients := clients n; tasks := tasks n;
     calls := calls n; listeners := listeners n; events := events n; published := published n; discovered := v; sent := sent n |}.

(** ** What the parts do *)

Section Node.
Context `{!Blake3, !Bincode WireSegment, !MetaJson}.

(** The capacity of the broadcast channel: 1000, which [tokio] may round up. *)
Context (capacity : nat).

Definition push (s : StreamSegment) (c : Client) : Client :=
  if is_open c then
    let q := pending (receiver c) ++ [s] in
    with_receiver c {| pending := trim_front capacity q; missed := missed (receiver c) + (zlen q - zlen (trim_front capacity q)) |}
  else c.

Definition receiver_count (n : Node) : Z := zlen (List.filter is_open (clients n)).

(** [segment_sender.send], which every caller guards with the count. *)
Definition broadcast (n : Node) (s : StreamSegment) : Node :=
  if 0 <? receiver_count n then
    {| media := media n; is_streaming := is_streaming n; segment_sequence := segment_sequence n;
       clients := map (push s) (clients n); tasks := tasks n; calls := calls n; listeners := listeners n;
       events := events n; published := published n; discovered := discovered n; sent := sent n ++ [s] |}
  else n.

(** [publish_stream_data] of a segment, when there is a stream to publish it
    to; the overlay may refuse it. *)
Definition publish (su : Setup) (n : Node) (s : StreamSegment) (accepted : bool) : Node :=
  match enable_p2p su && overlay su, stream_id su, to_wire_bytes s with
  | true, Some _, Some wire_bytes => if accepted then set_published n (published n ++ [wire_bytes]) else n
  | _, _, _ => n
  end.

Definition publish_init (su : Setup) (n : Node) (accepted : bool) : Node :=
  match stream_id su, initialization_segment (media n) with
  | Some id, Some init_data => publish su n (initialization (id_text id) init_data) accepted
  | _, _ => n
  end.

(** The next section of a playing task; [None] while it waits for the lock. *)
Definition task_act (su : Setup) (n : Node) (t : task) (accepted : bool) : option (Node * task) :=
  match t with
  | Delayed => Some (n, InitFirst)
  | InitFirst => Some (publish_init su n accepted, Locking)
  | Locking =>
      if existsb holds_samples (tasks n) then None
      else match video_samples (media n) with
           | Some video_segments => Some (n, Playing video_segments 0)
           | None => Some (n, if enable_p2p su then Ended else Finishing)
           end
  | Playing segs i =>
      match segs !! i with
      | Some segment =>
          if is_init segment then Some (n, Playing segs (S i))
          else if (receiver_count n =? 0) && negb (enable_p2p su) then Some (n, Finishing)
          else Some (broadcast n segment, Publishing segs i)
      | None => Some (n, if enable_p2p su then Relooping segs else Finishing)
      end
  | Publishing segs i =>
      match segs !! i with
      | Some segment => Some (publish su n segment accepted, Playing segs (S i))
      | None => Some (n, Playing segs (S i))
      end
  | Relooping segs => Some (publish_init su n accepted, Playing segs 0)
  | Finishing => Some (set_streaming n false, Ended)
  | Ended => None
  end.

(** The next section of a call; [ok] is the answer of the overlay. *)
Definition call_act (su : Setup) (n : Node) (c : call) (ok : bool) : option (Node * call) :=
  match c with
  | StartFlag => Some (set_streaming n true, StartListen)
  | StartListen =>
      match overlay su, stream_id su with
      | true, Some id =>
          if ok then
            Some (set_listeners n (listeners n ++ [{| listens := Receiving id; stop_flag := true; loop_at := Checking; owner := None |}]), StartCheck)
          else Some (n, Returned false)
      | _, _ => Some (n, StartCheck)
      end
  | StartCheck => if existsb holds_samples (tasks n) then None else Some (n, StartSpawn)
  | StartSpawn =>
      let n :=
        match overlay su, stream_id su with
        | true, None => set_listeners n (listeners n ++ [{| listens := Browsing; stop_flag := true; loop_at := Checking; owner := None |}])
        | _, _ => n
        end in
      Some (set_tasks n (tasks n ++ [Delayed]), Returned true)
  | LoadStore segments =>
      if existsb holds_samples (tasks n) then None
      else Some (set_media n (with_samples (media n) (Some segments)), Returned true)
  | Returned _ => None
  end.

Definition set_client (n : Node) (i : nat) (c : Client) : Node := set_clients n (<[i := c]> (clients n)).

Definition update_client (n : Node) (i : nat) (f : Client -> Client) : Node :=
  match clients n !! i with Some c => set_client n i (f c) | None => n end.

(** The next section of a loop that receives: it looks at its flag, takes the
    event at the front, or hands on what it took. A relay loop ends when the
    queue of its socket has no [room]. *)
Definition loop_act (n : Node) (l : Listener) (room : bool) : option (Node * loop_phase) :=
  match loop_at l with
  | Checking => Some (n, if stop_flag l && negb (is_streaming n) then Halted else Waiting)
  | Waiting =>
      match events n with
      | [] => None
      | e :: es =>
          let n := set_events n es in
          Some match listens l, e with
               | Receiving target, StreamData id data =>
                   if str_eqb (from_utf8_lossy id) (id_text target) then
                     match bin_deserialize data with
                     | Some wire_segment =>
                         let segment := segment_of_wire wire_segment in
                         (if is_init segment then set_media n (with_init (media n) (Some (seg_data segment))) else n,
                          Forwarding segment)
                     | None => (n, Checking)
                     end
                   else (n, Checking)
               | Relaying target, StreamData id data =>
                   if str_eqb (from_utf8_lossy id) (id_text target) then
                     match owner l, room with
                     | Some i, true => (update_client n i (fun c => send_frames c [BinaryFrame data]), Checking)
                     | _, _ => (n, Halted)
                     end
                   else (n, Checking)
               | (Receiving _ | Browsing), StreamAnnounced data => (set_discovered n (discovered n ++ [data]), Checking)
               | _, _ => (n, Checking)
               end
      end
  | Forwarding segment => Some (broadcast n segment, Checking)
  | Halted => None
  end.

(** A segment taken from the channel and written to the socket, which takes
    [accepted] frames before it fails. A relay socket that lags or is full stays
    open and is fed no more. *)
Definition write_frames (c : Client) (ms : list WsMessage) (accepted : nat) (next : phase) : Client :=
  if (length ms <=? accepted)%nat then with_phase (send_frames c ms) next
  else with_phase (count_dropped (send_frames c (take accepted ms)) 1) Closed.

Definition serve (c : Client) (accepted : nat) : option Client :=
  let r := receiver c in
  if 0 <? missed r then
    Some match client c with
         | Viewer => with_receiver (count_dropped c (missed r)) {| pending := pending r; missed := 0 |}
         | RelaySocket => with_phase c Arriving
         end
  else
    match pending r with
    | [] => None
    | segment :: rest =>
        let c := with_receiver c {| pending := rest; missed := 0 |} in
        Some match client c with
             | Viewer => write_frames c (segment_frames segment) accepted Serving
             | RelaySocket =>
                 match to_wire_bytes segment with
                 | Some bytes => if (accepted =? 0)%nat then with_phase c Arriving else send_frames c [BinaryFrame bytes]
                 | None => c
                 end
             end
    end.

(** The end of a connection aborts its loop. *)
Definition abort_owned (n : Node) (i : nat) : Node :=
  set_listeners n (map (fun l => if bool_decide (owner l = Some i) then at_loop l Halted else l) (listeners n)).

(** ** The node *)

Definition new_client (kind : client_kind) (req : option StreamId) : Client :=
  {| client := kind; requested := req; at_phase := Arriving; receiver := new_receiver; transcript := [];
     dropped_segments := 0; joined_at := 0 |}.

(** A viewer's first section: in browse mode it starts a loop for the stream it
    asks for, and then it becomes a receiver. *)
Definition viewer_subscribes (su : Setup) (n : Node) (i : nat) (c : Client) : Node :=
  let n :=
    match requested c, overlay su, stream_id su with
    | Some sid, true, None =>
        set_listeners n (listeners n ++ [{| listens := Receiving sid; stop_flag := false; loop_at := Checking; owner := Some i |}])
    | _, _, _ => n
    end in
  set_client n i (subscribe_client c (length (sent n)) Subscribed).

(** A subscription of a relay socket replaces the one before. *)
Definition relay_subscribes (su : Setup) (n : Node) (i : nat) (c : Client) (sid : StreamId) (room : bool) : Node :=
  let n := abort_owned n i in
  if overlay su then
    let c := with_phase (match initialization_segment (media n), room with
                         | Some init, true => send_frames c [BinaryFrame init]
                         | _, _ => c
                         end) Arriving in
    set_client (set_listeners n (listeners n ++ [{| listens := Relaying sid; stop_flag := false; loop_at := Checking; owner := Some i |}])) i c
  else set_client n i (subscribe_client c (length (sent n)) Serving).

(** [send_video_segment] and [send_audio_segment]. *)
Definition send_live (su : Setup) (n : Node) (data : bytes) (key : option bool) (now_us : Z) : Node :=
  if receiver_count n =? 0 then n
  else
    let sequence := segment_sequence n in
    broadcast (set_sequence n (sequence + 1))
      match key with
      | Some is_keyframe => video (segment_stream_id su) sequence now_us 0 data is_keyframe
      | None => audio (segment_stream_id su) sequence now_us 0 data
      end.

Inductive step (su : Setup) (n : Node) : Node -> Prop :=
(* connections *)
| step_arrive kind req : step su n (set_clients n (clients n ++ [new_client kind req]))
| step_subscribe i c : clients n !! i = Some c -> client c = Viewer -> at_phase c = Arriving -> step su n (viewer_subscribes su n i c)
| step_inform i c accepted : clients n !! i = Some c -> at_phase c = Subscribed ->
    step su n (set_client n i
      (write_frames c [TextFrame (stream_info (video_codec_info (media n)) (audio_codec_info (media n)))] accepted Informed))
| step_open i c ms accepted : clients n !! i = Some c -> at_phase c = Informed ->
    init_messages (video_init_segment (media n)) (audio_init_segment (media n)) (initialization_segment (media n)) = Done ms ->
    step su n (set_client n i (write_frames c ms accepted Serving))
| step_serve i c c' accepted : clients n !! i = Some c -> at_phase c = Serving -> serve c accepted = Some c' ->
    step su n (let n := set_client n i c' in match at_phase c' with Closed => abort_owned n i | _ => n end)
| step_idle i c accepted : clients n !! i = Some c -> at_phase c = Serving -> client c = Viewer -> is_streaming n = false ->
    pending (receiver c) = [] -> missed (receiver c) = 0 ->
    step su n (abort_owned (set_client n i (with_phase (send_frames c (take accepted [end_of_stream])) Closed)) i)
| step_disconnect i c : clients n !! i = Some c -> (at_phase c = Serving \/ client c = RelaySocket) ->
    step su n (abort_owned (set_client n i (with_phase c Closed)) i)
(* what relay sockets ask for *)
| step_relay_subscribe i c sid room : clients n !! i = Some c -> client c = RelaySocket -> at_phase c <> Closed ->
    step su n (relay_subscribes su n i c sid room)
| step_relay_unsubscribe i c : clients n !! i = Some c -> client c = RelaySocket -> at_phase c <> Closed ->
    step su n (abort_owned (set_client n i (with_phase c Arriving)) i)
| step_relay_publish data : overlay su = true -> is_Some (stream_id su) -> step su n (set_published n (published n ++ [data]))
(* calls *)
| step_load data m segments : prepare_file su (media n) data = Done (m, ROk segments) ->
    step su n (set_calls (set_media n m) (calls n ++ [LoadStore segments]))
| step_load_fails data m e : prepare_file su (media n) data = Done (m, RErr e) ->
    step su n (set_calls (set_media n m) (calls n ++ [Returned false]))
| step_start meta_json now_us :
    step su n (let n := broadcast n (metadata (segment_stream_id su) 0 meta_json now_us) in set_calls n (calls n ++ [StartFlag]))
| step_start_fails : step su n (set_calls n (calls n ++ [Returned false]))
| step_stop : step su n (set_streaming n false)
| step_live data key now_us : step su n (send_live su n data key now_us)
| step_call j c ok n' c' : calls n !! j = Some c -> call_act su n c ok = Some (n', c') -> step su n (set_calls n' (<[j := c']> (calls n')))
(* tasks *)
| step_task k t ok n' t' : tasks n !! k = Some t -> task_act su n t ok = Some (n', t') -> step su n (set_tasks n' (<[k := t']> (tasks n')))
| step_listen k l room n' p : listeners n !! k = Some l -> loop_act n l room = Some (n', p) ->
    step su n (set_listeners n' (<[k := at_loop l p]> (listeners n')))
| step_event e : overlay su = true -> step su n (set_events n (events n ++ [e])).

(** ** What a viewer gets *)

(** The frames so far, of a viewer that was handed some segments. *)
Definition transcript_ok (c : Client) (delivered : list StreamSegment) : Prop :=
  match at_phase c with
  | Subscribed => transcript c = [] /\ delivered = []
  | Informed => exists v a, transcript c = [TextFrame (stream_info v a)] /\ delivered = []
  | Serving => exists v a video audio init ms, init_messages video audio init = Done ms /\
      transcript c = TextFrame (stream_info v a) :: ms ++ concat (map segment_frames delivered)
  | Arriving => transcript c = [] /\ dropped_segments c = 0
  | Closed => True
  end.

(** The account of a receiver over what was broadcast since it became one. *)
Definition receives (log : list StreamSegment) (c : Client) (delivered : list StreamSegment) : Prop :=
  (joined_at c <= length log)%nat /\ exists pre,
    drop (joined_at c) log = pre ++ pending (receiver c) /\ delivered `sublist_of` pre /\
    zlen delivered + missed (receiver c) + dropped_segments c = zlen pre /\
    0 <= missed (receiver c) /\ 0 <= dropped_segments c /\
    ((length (drop (joined_at c) log) <= capacity)%nat -> missed (receiver c) = 0 /\ dropped_segments c = 0).

Definition viewer_ok (log : list StreamSegment) (c : Client) : Prop :=
  client c = Viewer -> at_phase c <> Closed -> exists delivered, transcript_ok c delivered /\ (is_open c = true -> receives log c delivered).

Lemma push_client s c : client (push s c) = client c /\ at_phase (push s c) = at_phase c /\ transcript (push s c) = transcript c /\
  dropped_segments (push s c) = dropped_segments c /\ is_open (push s c) = is_open c.
Proof. unfold push. by destruct (is_open c) eqn:Ho. Qed.

Lemma push_receives log s c delivered : is_open c = true -> receives log c delivered -> receives (log ++ [s]) (push s c) delivered.
Proof.
  intros Ho (Hj & pre & Hlog & Hsub & Hsum & Hm & Hd & Hfit). unfold push. rewrite Ho. unfold receives. cbn [joined_at with_receiver receiver pending missed dropped_segments].
  split; [rewrite length_app; cbn; lia|]. rewrite drop_app_le by done. set (q := pending (receiver c) ++ [s]).
  assert (Hq : drop (joined_at c) log ++ [s] = pre ++ q) by (rewrite Hlog; unfold q; by rewrite app_assoc).
  rewrite trim_front_last_n. unfold last_n. set (k := (length q - capacity)%nat).
  exists (pre ++ take k q). rewrite Hq. split_and!.
  - by rewrite <- app_assoc, take_drop.
  - by apply sublist_inserts_r.
  - rewrite zlen_app. unfold zlen. rewrite length_take, length_drop. unfold zlen in Hsum. lia.
  - unfold zlen. rewrite length_drop. lia.
  - done.
  - intros Hle. assert (Hk : k = 0%nat) by (rewrite length_app in Hle; unfold k; lia). rewrite Hk, drop_0.
    destruct Hfit as [-> ->]; [|lia]. rewrite Hlog. rewrite !length_app in *. unfold q in Hle. rewrite length_app in Hle. lia.
Qed.

Lemma push_viewer_ok log s c : viewer_ok log c -> viewer_ok (log ++ [s]) (push s c).
Proof.
  intros Hok Hv Hp. destruct (push_client s c) as (Hc & Hph & Ht & Hd & Ho). rewrite Hc in Hv. rewrite Hph in Hp.
  destruct (Hok Hv Hp) as (delivered & Htr & Hr). exists delivered. split.
  - unfold transcript_ok in *. by rewrite Hph, Ht, Hd.
  - rewrite Ho. intros Hopen. apply push_receives; auto.
Qed.

Lemma write_viewer_ok log c ms accepted next delivered : next <> Closed -> is_open (with_phase c next) = true -> receives log c delivered ->
  transcript_ok (with_phase (send_frames c ms) next) delivered -> viewer_ok log (write_frames c ms accepted next).
Proof.
  intros Hn Ho Hr Ht. unfold write_frames. destruct (length ms <=? accepted)%nat; [|by intros _ []].
  intros _ _. exists delivered. by split.
Qed.

Lemma serve_viewer_ok log c accepted c' : at_phase c = Serving -> client c = Viewer -> viewer_ok log c -> serve c accepted = Some c' ->
  viewer_ok log c'.
Proof.
  intros Hp Hv Hok Hs. destruct (Hok Hv) as (delivered & Ht & Hr); [congruence|].
  assert (Ho : is_open c = true) by (unfold is_open; by rewrite Hp). specialize (Hr Ho).
  unfold serve in Hs. rewrite Hv in Hs. destruct Hr as (Hj & pre & Hlog & Hsub & Hsum & Hm & Hd & Hfit).
  destruct (Z.ltb_spec 0 (missed (receiver c))) as [Hlag|Hno].
  - injection Hs as <-. intros _ _. exists delivered. split; [unfold transcript_ok in *; cbn; by rewrite Hp in *|]. intros _.
    split; [done|]. exists pre. cbn. split_and!; [done|done|lia|lia|lia|]. intros Hle. destruct (Hfit Hle). lia.
  - destruct (pending (receiver c)) as [|s rest] eqn:Hpend; [done|]. cbn [client with_receiver] in Hs. rewrite Hv in Hs. injection Hs as <-.
    apply (write_viewer_ok log _ _ _ _ (delivered ++ [s])); [done|done| |].
    + split; [done|]. exists (pre ++ [s]). cbn. split_and!.
      * by rewrite Hlog, <- app_assoc.
      * by apply sublist_app.
      * rewrite !zlen_app. change (zlen [s]) with 1. lia.
      * lia.
      * done.
      * intros Hle. destruct (Hfit Hle). lia.
    + unfold transcript_ok in *. rewrite Hp in Ht. cbn. destruct Ht as (v & a & video & audio & init & ms & Hi & Ht).
      exists v, a, video, audio, init, ms. split; [done|]. rewrite Ht, map_app, concat_app. cbn. by rewrite app_nil_r, <- app_assoc.
Qed.

(** The loops of relay sockets write to relay sockets only. *)
Definition loop_ok (kinds : list client_kind) (l : Listener) : Prop :=
  match listens l, owner l with Relaying _, Some i => kinds !! i = Some RelaySocket | _, _ => True end.

Definition node_ok (n : Node) : Prop :=
  Forall (viewer_ok (sent n)) (clients n) /\ Forall (loop_ok (map client (clients n))) (listeners n).

Lemma node_same n n' : clients n' = clients n -> sent n' = sent n -> listeners n' = listeners n -> node_ok n -> node_ok n'.
Proof. unfold node_ok. by intros -> -> ->. Qed.

Lemma broadcast_ok n s : node_ok n -> node_ok (broadcast n s).
Proof.
  intros [Hc Hl]. unfold broadcast. destruct (0 <? receiver_count n); [|done]. split; cbn.
  - apply list.Forall_forall. intros c (c0 & -> & Hc0)%elem_of_map. rewrite list.Forall_forall in Hc. by apply push_viewer_ok, Hc.
  - rewrite map_map. rewrite (map_ext _ client); [done|]. intros c. by destruct (push_client s c) as (-> & _).
Qed.

Lemma broadcast_same n s : listeners (broadcast n s) = listeners n /\ tasks (broadcast n s) = tasks n /\ calls (broadcast n s) = calls n /\
  media (broadcast n s) = media n /\ is_streaming (broadcast n s) = is_streaming n /\ published (broadcast n s) = published n /\
  events (broadcast n s) = events n.
Proof. unfold broadcast. by destruct (0 <? receiver_count n). Qed.

Lemma set_client_ok n i c c' : node_ok n -> clients n !! i = Some c -> client c' = client c -> viewer_ok (sent n) c' -> node_ok (set_client n i c').
Proof.
  intros [Hc Hl] Hi Hk Hv. split; cbn; [by apply Forall_insert|]. rewrite list_fmap_insert, Hk.
  by rewrite list_insert_id by (by rewrite list_lookup_fmap, Hi).
Qed.

Lemma relay_client_ok n i c c' : node_ok n -> clients n !! i = Some c -> client c = RelaySocket -> client c' = RelaySocket -> node_ok (set_client n i c').
Proof. intros Hok Hi Hc Hc'. eapply set_client_ok; [done|done|congruence|]. intros Hv. congruence. Qed.

Lemma map_listeners_ok n f : (forall l, listens (f l) = listens l /\ owner (f l) = owner l) -> node_ok n -> node_ok (set_listeners n (map f (listeners n))).
Proof.
  intros Hf [Hc Hl]. split; [done|]. cbn. apply list.Forall_forall. intros l (l0 & -> & Hl0)%elem_of_map.
  rewrite list.Forall_forall in Hl. specialize (Hl l0 Hl0). unfold loop_ok in *. by destruct (Hf l0) as [-> ->].
Qed.

Lemma abort_owned_ok n i : node_ok n -> node_ok (abort_owned n i).
Proof. apply map_listeners_ok. intros l. by destruct (bool_decide (owner l = Some i)). Qed.

Lemma add_listener_ok n l : loop_ok (map client (clients n)) l -> node_ok n -> node_ok (set_listeners n (listeners n ++ [l])).
Proof. intros Hl [Hc Hls]. split; [done|]. cbn. apply Forall_app_2; [done|]. by constructor. Qed.

Lemma publish_is su n s ok : exists v, publish su n s ok = set_published n v.
Proof.
  assert (Hid : exists v, n = set_published n v) by (exists (published n); by destruct n).
  unfold publish. destruct (enable_p2p su && overlay su); [|done]. destruct (stream_id su); [|done].
  destruct (to_wire_bytes s); [|done]. destruct ok; [by eexists|done].
Qed.

Lemma publish_init_is su n ok : exists v, publish_init su n ok = set_published n v.
Proof.
  assert (Hid : exists v, n = set_published n v) by (exists (published n); by destruct n).
  unfold publish_init. destruct (stream_id su); [|done]. destruct (initialization_segment (media n)); [|done]. apply publish_is.
Qed.

Lemma task_act_ok su n t ok n' t' : node_ok n -> task_act su n t ok = Some (n', t') -> node_ok n'.
Proof.
  intros Hn. destruct t as [| | |segs i|segs i|segs| |]; cbn; try (intros [= <- <-]; done).
  - intros [= <- <-]. by destruct (publish_init_is su n ok) as [v ->].
  - destruct (existsb _ _); [done|]. by destruct (video_samples _); intros [= <- <-].
  - destruct (segs !! i) as [s|]; [|by intros [= <- <-]]. destruct (is_init s); [by intros [= <- <-]|].
    destruct (_ && _); intros [= <- <-]; [done|by apply broadcast_ok].
  - destruct (segs !! i) as [s|]; intros [= <- <-]; [|done]. by destruct (publish_is su n s ok) as [v ->].
  - intros [= <- <-]. by destruct (publish_init_is su n ok) as [v ->].
Qed.

Lemma call_act_ok su n c ok n' c' : node_ok n -> call_act su n c ok = Some (n', c') -> node_ok n'.
Proof.
  intros Hn. destruct c as [| | | |segs|r]; cbn; try (intros [= <- <-]; done).
  - destruct (overlay su); [|by intros [= <- <-]]. destruct (stream_id su); [|by intros [= <- <-]].
    destruct ok; intros [= <- <-]; [by apply add_listener_ok|done].
  - destruct (existsb _ _); [done|]. by intros [= <- <-].
  - intros [= <- <-]. destruct (overlay su); [|done]. destruct (stream_id su); [done|]. by apply add_listener_ok.
  - destruct (existsb _ _); [done|]. by intros [= <- <-].
Qed.

Lemma loop_act_ok n k l room n' p : node_ok n -> listeners n !! k = Some l -> loop_act n l room = Some (n', p) ->
  node_ok n' /\ listeners n' = listeners n.
Proof.
  intros Hn Hk. pose proof Hn as [_ Hl]. rewrite list.Forall_forall in Hl. specialize (Hl l (list_elem_of_lookup_2 _ _ _ Hk)).
  unfold loop_act. destruct (loop_at l) as [| |s|] eqn:Hp; [by intros [= <- <-]| | |done].
  - destruct (events n) as [|e es]; [done|]. intros Hact. injection Hact as Ha. revert Ha. unfold loop_ok in Hl.
    destruct (listens l) as [target| |target], e as [id data|data|]; try (by intros [= <- <-]).
    + destruct (str_eqb _ _); [|by intros [= <- <-]]. destruct (bin_deserialize data) as [w|]; [|by intros [= <- <-]].
      destruct (is_init _); by intros [= <- <-].
    + destruct (str_eqb _ _); [|by intros [= <- <-]]. destruct (owner l) as [i|]; [|by intros [= <- <-]].
      destruct room; intros [= <- <-]; [|done]. rewrite list_lookup_fmap in Hl.
      destruct (clients n !! i) as [c|] eqn:Hi; [|done]. injection Hl as Hl.
      unfold update_client. cbn [clients set_events]. rewrite Hi. split; [|done].
      by eapply (relay_client_ok (set_events n es)).
  - intros [= <- <-]. split; [by apply broadcast_ok|apply broadcast_same].
Qed.

Lemma subscribed_ok log c : viewer_ok log c -> at_phase c = Arriving -> viewer_ok log (subscribe_client c (length log) Subscribed).
Proof.
  intros Hok Hp Hv _. destruct (Hok Hv) as (d & Ht & _); [congruence|]. unfold transcript_ok in Ht. rewrite Hp in Ht. destruct Ht as [Ht Hd].
  exists []. split; [done|]. intros _. split; [done|]. exists []. cbn. rewrite drop_all. rewrite Hd. split_and!; done.
Qed.

Lemma opening_ok log c ms accepted next : viewer_ok log c -> client c = Viewer -> (next = Informed \/ next = Serving) ->
  (forall delivered, transcript_ok c delivered -> delivered = [] /\ transcript_ok (with_phase (send_frames c ms) next) []) -> is_open c = true ->
  viewer_ok log (write_frames c ms accepted next).
Proof.
  intros Hok Hv Hn Ht Ho. destruct (Hok Hv) as (d & Htr & Hr); [by unfold is_open in Ho; destruct (at_phase c)|].
  destruct (Ht d Htr) as [-> Ht']. eapply write_viewer_ok; [|by destruct Hn as [->| ->]|by apply Hr|done]. by destruct Hn as [->| ->].
Qed.

Lemma write_frames_client c ms accepted next : client (write_frames c ms accepted next) = client c.
Proof. unfold write_frames. by destruct (_ <=? _)%nat. Qed.

Lemma serve_client c accepted c' : serve c accepted = Some c' -> client c' = client c.
Proof.
  unfold serve. destruct (0 <? missed (receiver c)); [intros [= <-]; by destruct (client c) eqn:Hc|].
  destruct (pending (receiver c)) as [|s rest]; [done|]. cbn [client with_receiver]. intros [= <-]. destruct (client c) eqn:Hc.
  - rewrite write_frames_client. done.
  - destruct (to_wire_bytes s); [|done]. by destruct (accepted =? 0)%nat.
Qed.

Lemma closed_ok log c : viewer_ok log (with_phase c Closed).
Proof. by intros _ []. Qed.

Lemma step_node_ok su n n' : node_ok n -> step su n n' -> node_ok n'.
Proof.
  intros Hok Hs. pose proof Hok as [Hc Hl]. rewrite list.Forall_forall in Hc.
  assert (Hv : forall i c, clients n !! i = Some c -> viewer_ok (sent n) c) by (intros i c Hi; apply Hc; by eapply list_elem_of_lookup_2).
  destruct Hs as [kd req|i c Hi Hk Hp|i c acc Hi Hp|i c ms acc Hi Hp Hms|i c c' acc Hi Hp Hs|i c acc Hi Hp Hk Hstr Hpe Hmi|i c Hi Hor
    |i c sid room Hi Hk Hp|i c Hi Hk Hp|data Hov Hid|data m segs Hpr|data m e Hpr|js now| | |data key now|j c ok n' c' Hj Ha|k t ok n' t' Hk Ha|k l room n' p Hk Ha|e Hov];
    try done.
  - split; cbn.
    + apply Forall_app_2; [apply Hok|]. constructor; [|done]. intros Hkd _. exists []. split; [done|]. done.
    + rewrite map_app. destruct Hok as [_ Hls]. eapply Forall_impl; [exact Hls|]. intros l Hl0. unfold loop_ok in *.
      destruct (listens l); try done. destruct (owner l); [|done]. by apply lookup_app_l_Some.
  - unfold viewer_subscribes.
    assert (Hset : forall n1, clients n1 = clients n -> sent n1 = sent n -> node_ok n1 -> node_ok (set_client n1 i (subscribe_client c (length (sent n1)) Subscribed))).
    { intros n1 Hc1 Hs1 Hn1. eapply set_client_ok; [done|by rewrite Hc1|done|]. apply subscribed_ok; [|done]. rewrite Hs1. by apply (Hv i). }
    destruct (requested c), (overlay su), (stream_id su); try by apply Hset. apply Hset; [done|done|]. by apply add_listener_ok.
  - apply (set_client_ok n i c); [done|done|apply write_frames_client|]. destruct (client c) eqn:Hk; [|intros Hk'; rewrite write_frames_client in Hk'; congruence].
    apply opening_ok; [by apply (Hv i)|done|by left| |by unfold is_open; rewrite Hp].
    intros d Ht. unfold transcript_ok in *. rewrite Hp in Ht. destruct Ht as [Ht ->]. split; [done|]. cbn. rewrite Ht. by eexists _, _.
  - apply (set_client_ok n i c); [done|done|apply write_frames_client|]. destruct (client c) eqn:Hk; [|intros Hk'; rewrite write_frames_client in Hk'; congruence].
    apply opening_ok; [by apply (Hv i)|done|by right| |by unfold is_open; rewrite Hp].
    intros d Ht. unfold transcript_ok in *. rewrite Hp in Ht. destruct Ht as (v & a & Ht & ->). split; [done|]. cbn.
    exists v, a. eexists _, _, _, ms. split; [exact Hms|]. rewrite Ht. by rewrite app_nil_r.
  - assert (Hset : node_ok (set_client n i c')).
    { apply (set_client_ok n i c); [done|done|by eapply serve_client|]. destruct (client c) eqn:Hk.
      - eapply serve_viewer_ok; [done|done|by apply (Hv i)|done].
      - intros Hk'. rewrite (serve_client _ _ _ Hs) in Hk'. congruence. }
    cbn zeta. destruct (at_phase c'); try exact Hset. by apply abort_owned_ok.
  - apply abort_owned_ok. eapply set_client_ok; [done|done|done|apply closed_ok].
  - apply abort_owned_ok. eapply set_client_ok; [done|done|done|apply closed_ok].
  - unfold relay_subscribes. destruct (overlay su).
    + eapply relay_client_ok; [|exact Hi|done|by destruct (initialization_segment _), room].
      apply add_listener_ok; [|by apply abort_owned_ok]. cbn. by rewrite list_lookup_fmap, Hi, <- Hk.
    + eapply relay_client_ok; [by apply abort_owned_ok|exact Hi|done|done].
  - apply abort_owned_ok. by eapply relay_client_ok.
  - cbn zeta. eapply node_same; [done|done|done|]. by apply broadcast_ok.
  - unfold send_live. destruct (receiver_count n =? 0); [done|]. by apply broadcast_ok.
  - apply (node_same n'); [done..|]. by eapply call_act_ok.
  - apply (node_same n'); [done..|]. by eapply task_act_ok.
  - destruct (loop_act_ok n k l room n' p Hok Hk Ha) as [[Hc' Hl'] Hsame]. split; [done|]. cbn.
    apply Forall_insert; [done|]. rewrite list.Forall_forall in Hl'. rewrite Hsame in Hl'.
    exact (Hl' l (list_elem_of_lookup_2 _ _ _ Hk)).
Qed.

Lemma reach_node_ok su n : rtc (step su) new_node n -> node_ok n.
Proof.
  revert n. refine (rtc_ind_r _ _ _ _); [split; constructor|]. intros y z _ Hs Hy. by eapply step_node_ok.
Qed.

(** C12: In every interleaving a viewer that is served was sent the opening and then
    the frames of what was broadcast since it connected, in order and nothing
    twice. What is left out is exactly what its connection counted as dropped,
    and nothing is left out as long as no more was broadcast than the channel
    holds. *)
Theorem viewer_gets_stream su n i c : rtc (step su) new_node n -> clients n !! i = Some c -> client c = Viewer -> at_phase c = Serving ->
  let late := drop (joined_at c) (sent n) in
  exists v a video audio init ms delivered past,
    init_messages video audio init = Done ms /\
    transcript c = TextFrame (stream_info v a) :: ms ++ concat (map segment_frames delivered) /\
    late = past ++ pending (receiver c) /\ delivered `sublist_of` past /\
    zlen delivered + missed (receiver c) + dropped_segments c = zlen past /\
    ((length late <= capacity)%nat -> delivered ++ pending (receiver c) = late).
Proof.
  intros Hr Hi Hv Hp. pose proof (reach_node_ok su n Hr) as Hok.
  destruct Hok as [Hok _]. rewrite list.Forall_forall in Hok.
  destruct (Hok c (list_elem_of_lookup_2 _ _ _ Hi) Hv) as (delivered & Ht & Hrec); [congruence|].
  destruct Hrec as (_ & pre & Hlog & Hsub & Hsum & Hm & Hd & Hfit); [by unfold is_open; rewrite Hp|].
  unfold transcript_ok in Ht. rewrite Hp in Ht. destruct Ht as (v & a & video & audio & init & ms & Hinit & Ht).
  exists v, a, video, audio, init, ms, delivered, pre. split_and!; [done..|]. intros Hle. destruct (Hfit Hle) as [Hm0 Hd0].
  rewrite Hlog. f_equal. apply sublist_full; [done|]. unfold zlen in Hsum. lia.
Qed.

(** ** Playing for the overlay never ends *)

(** A task in the loop over the segments. *)
Definition playing (segs : list StreamSegment) (t : task) : Prop :=
  match t with Playing s _ | Publishing s _ | Relooping s => s = segs | _ => False end.

Lemma playing_holds segs t : playing segs t -> holds_samples t = true.
Proof. by destruct t. Qed.

Lemma holder_blocks n k t : tasks n !! k = Some t -> holds_samples t = true -> existsb holds_samples (tasks n) = true.
Proof. intros Hk Ht. apply existsb_exists. exists t. split; [|done]. apply list_elem_of_In. by eapply list_elem_of_lookup_2. Qed.

Lemma task_act_frame su n t ok n' t' : task_act su n t ok = Some (n', t') ->
  tasks n' = tasks n /\ calls n' = calls n /\ media n' = media n /\ (forall segs, enable_p2p su = true -> playing segs t -> playing segs t').
Proof.
  destruct t as [| | |segs i|segs i|segs| |]; cbn; try (by intros [= <- <-]).
  - intros [= <- <-]. by destruct (publish_init_is su n ok) as [v ->].
  - destruct (existsb _ _); [done|]. by destruct (video_samples _); intros [= <- <-].
  - destruct (segs !! i) as [s|].
    + destruct (is_init s); [by intros [= <- <-]|]. destruct (enable_p2p su); cbn; rewrite ?andb_false_r, ?andb_true_r.
      * intros [= <- <-]. destruct (broadcast_same n s) as (_ & ? & ? & ? & _). by split_and!.
      * destruct (receiver_count n =? 0); intros [= <- <-]; [done|]. destruct (broadcast_same n s) as (_ & ? & ? & ? & _). by split_and!.
    + destruct (enable_p2p su); by intros [= <- <-].
  - destruct (segs !! i) as [s|]; intros [= <- <-]; [|done]. by destruct (publish_is su n s ok) as [v ->].
  - intros [= <- <-]. by destruct (publish_init_is su n ok) as [v ->].
Qed.

Lemma call_act_frame su n c ok n' c' : call_act su n c ok = Some (n', c') ->
  (exists more, tasks n' = tasks n ++ more) /\ calls n' = calls n /\
  (existsb holds_samples (tasks n) = true -> media n' = media n /\ c <> StartCheck /\ forall segs, c <> LoadStore segs).
Proof.
  assert (Hno : exists more, tasks n = tasks n ++ more) by (exists []; by rewrite app_nil_r).
  destruct c as [| | | |segs|r]; cbn; try (by intros [= <- <-]).
  - destruct (overlay su); [|by intros [= <- <-]]. destruct (stream_id su); [|by intros [= <- <-]].
    destruct ok; by intros [= <- <-].
  - destruct (existsb _ _); [done|]. by intros [= <- <-].
  - intros [= <- <-]. destruct (overlay su); [destruct (stream_id su)|]; (split; [by exists [Delayed]|done]).
  - destruct (existsb _ _); [done|]. by intros [= <- <-].
Qed.

Lemma loop_act_frame n l room n' p : loop_act n l room = Some (n', p) ->
  tasks n' = tasks n /\ calls n' = calls n /\ video_samples (media n') = video_samples (media n).
Proof.
  unfold loop_act. destruct (loop_at l) as [| |s|]; [by intros [= <- <-]| | |done].
  - destruct (events n) as [|e es]; [done|]. intros Hact. injection Hact as Ha. revert Ha.
    destruct (listens l) as [target| |target], e as [id data|data|]; try (by intros [= <- <-]).
    + destruct (str_eqb _ _); [|by intros [= <- <-]]. destruct (bin_deserialize data) as [w|]; [|by intros [= <- <-]].
      destruct (is_init _); by intros [= <- <-].
    + destruct (str_eqb _ _); [|by intros [= <- <-]]. destruct (owner l) as [i|]; [|by intros [= <- <-]].
      destruct room; intros [= <- <-]; [|done]. unfold update_client. by destruct (clients _ !! i).
  - intros [= <- <-]. destruct (broadcast_same n s) as (_ & ? & ? & -> & _). by split_and!.
Qed.

Definition waits_for_samples (c : call) : Prop := match c with StartCheck | LoadStore _ => True | _ => False end.

Lemma store_inits_samples segs m :
  video_samples (fold_left (fun m s => if is_init s then with_init m (Some (seg_data s)) else m) segs m) = video_samples m.
Proof. revert m. induction segs as [|s segs IH]; intros m; cbn [fold_left]; [done|]. rewrite IH. by destruct (is_init s). Qed.

Lemma prepare_file_samples su m data m' r : prepare_file su m data = Done (m', r) -> video_samples m' = video_samples m.
Proof.
  unfold prepare_file. destruct (parse new_parser data) as [[ps [[]|e]]| |]; cbn [exec_bind]; [|by intros [= <- _]|done..].
  destruct (generate_separate_init_segments ps) as [[[video audio]|e]| |]; cbn [exec_bind]; try done;
    (destruct (generate_stream_segments ps (segment_stream_id su)) as [[ps' [segs|e']]| |]; cbn [exec_bind]; try done;
     intros [= <- _]; by rewrite ?store_inits_samples).
Qed.

(** What stays as it is while a task plays for the overlay: the task, the
    samples, and every call that waits for them. *)
Lemma step_held su n n' k segs : enable_p2p su = true -> (exists t, tasks n !! k = Some t /\ playing segs t) -> step su n n' ->
  (exists t, tasks n' !! k = Some t /\ playing segs t) /\ video_samples (media n') = video_samples (media n) /\
  (forall j c, calls n !! j = Some c -> waits_for_samples c -> calls n' !! j = Some c).
Proof.
  intros Hp (t & Ht & Hpl) Hs. pose proof (holder_blocks n k t Ht (playing_holds segs t Hpl)) as Hheld.
  assert (Hsame : forall n1, tasks n1 = tasks n -> media n1 = media n -> calls n1 = calls n ->
    (exists t, tasks n1 !! k = Some t /\ playing segs t) /\ video_samples (media n1) = video_samples (media n) /\
    (forall j c, calls n !! j = Some c -> waits_for_samples c -> calls n1 !! j = Some c)).
  { intros n1 -> -> ->. split_and!; [by exists t|done|done]. }
  assert (Hmore : forall n1 c1, tasks n1 = tasks n -> video_samples (media n1) = video_samples (media n) -> calls n1 = calls n ++ [c1] ->
    (exists t, tasks n1 !! k = Some t /\ playing segs t) /\ video_samples (media n1) = video_samples (media n) /\
    (forall j c, calls n !! j = Some c -> waits_for_samples c -> calls n1 !! j = Some c)).
  { intros n1 c1 -> -> ->. split_and!; [by exists t|done|]. intros j c Hj _. by apply lookup_app_l_Some. }
  destruct Hs as [kd req|i c Hi Hk Hph|i c acc Hi Hph|i c ms acc Hi Hph Hms|i c c' acc Hi Hph Hs|i c acc Hi Hph Hk Hstr Hpe Hmi|i c Hi Hor
    |i c sid room Hi Hk Hph|i c Hi Hk Hph|data Hov Hid|data m sg Hpr|data m e Hpr|js now| | |data key now|j c ok n' c' Hj Ha|k' t' ok n' t'' Hk Ha|k' l room n' p Hk Ha|e Hov];
    try by apply Hsame.
  - unfold viewer_subscribes. destruct (requested c), (overlay su), (stream_id su); by apply Hsame.
  - cbn zeta. destruct (at_phase c'); by apply Hsame.
  - unfold relay_subscribes. destruct (overlay su); by apply Hsame.
  - apply Hmore with (LoadStore sg); [done|by eapply prepare_file_samples|done].
  - apply Hmore with (Returned false); [done|by eapply prepare_file_samples|done].
  - destruct (broadcast_same n (metadata (segment_stream_id su) 0 js now)) as (_ & Hbt & Hbc & Hbm & _).
    apply Hmore with StartFlag; cbn; [done|by rewrite Hbm|by rewrite Hbc].
  - by apply Hmore with (Returned false).
  - unfold send_live. destruct (receiver_count n =? 0); [by apply Hsame|].
    edestruct broadcast_same as (_ & Hbt & Hbc & Hbm & _). by apply Hsame; [rewrite Hbt|rewrite Hbm|rewrite Hbc].
  - destruct (call_act_frame su n c ok n' c' Ha) as ((more & Hmt) & Hc & Hmedia). destruct (Hmedia Hheld) as (Hm & Hnc & Hnl). cbn. split_and!.
    + exists t. split; [|done]. rewrite Hmt. by apply lookup_app_l_Some.
    + by rewrite Hm.
    + intros j' c0 Hj' Hw. rewrite Hc. rewrite list_lookup_insert_ne; [done|]. intros <-. rewrite Hj in Hj'. injection Hj' as <-.
      destruct c; try done. by destruct (Hnl segments).
  - destruct (task_act_frame su n t' ok n' t'' Ha) as (Hts & Hc & Hm & Hpl'). cbn. rewrite Hts, Hc, Hm. split_and!; [|done|done].
    destruct (decide (k' = k)) as [->|Hne].
    + rewrite Ht in Hk. injection Hk as <-. exists t''. split; [by rewrite list_lookup_insert_eq by (by eapply lookup_lt_Some)|by apply Hpl'].
    + exists t. by rewrite list_lookup_insert_ne.
  - destruct (loop_act_frame n l room n' p Ha) as (Hts & Hc & Hm). cbn. rewrite Hts, Hc, Hm. split_and!; [by exists t|done|done].
Qed.

(** Once a task plays for the overlay it plays for ever, whatever is called:
    after [stop_streaming] as before, it can always send on. It keeps the lock
    of the samples, so that no file is loaded any more, and whoever calls
    [start_streaming] or [load_video_file] waits for ever. *)
Theorem p2p_playback_never_ends su n k segs n' : enable_p2p su = true -> (exists t, tasks n !! k = Some t /\ playing segs t) ->
  rtc (step su) n n' ->
  (exists t, tasks n' !! k = Some t /\ playing segs t /\ is_Some (task_act su n' t true)) /\
  video_samples (media n') = video_samples (media n) /\
  (forall j c, calls n !! j = Some c -> waits_for_samples c -> calls n' !! j = Some c).
Proof.
  intros Hp Ht Hr. cut ((exists t, tasks n' !! k = Some t /\ playing segs t) /\ video_samples (media n') = video_samples (media n) /\
    (forall j c, calls n !! j = Some c -> waits_for_samples c -> calls n' !! j = Some c)).
  { intros ((t & Hk & Hpl) & Hm & Hc). split_and!; [|done|done]. exists t. split_and!; [done|done|]. destruct t as [| | |s i|s i|s| |]; try done; cbn.
    - destruct (s !! i) as [x|]; [|by eexists]. destruct (is_init x); [by eexists|]. destruct (_ && _); by eexists.
    - destruct (s !! i); by eexists. }
  induction Hr as [|n n1 n2 Hs _ IH]; [done|]. destruct (step_held su n n1 k segs Hp Ht Hs) as (Ht1 & Hm1 & Hc1).
  destruct (IH Ht1) as (Ht2 & Hm2 & Hc2). split_and!; [done|by rewrite Hm2|]. intros j c Hj Hw. apply Hc2; [|done]. by apply Hc1.
Qed.
End Node.
