(* ===== verification/PlaybackRuns.v ===== *)
(** * Playback, from end to end

    Runs of [Playback]: a local playback comes to its end, what one node plays
    for the overlay reaches the viewers of another in every run in which nothing
    else takes it, and what goes wrong when several loops share the events of
    the overlay. *)

From S2P Require Import Prelude Rust Format Float Segment ClientFrames Playback.

#[local] Open Scope Z_scope.

Section Runs.
Context `{!Blake3, !Bincode WireSegment, !MetaJson}.

(** What is shown of the segments: the initialization segment is sent apart. *)
Definition shown (segs : list StreamSegment) : list StreamSegment := List.filter (fun s => negb (is_init s)) segs.

Lemma take_all (segs : list StreamSegment) i : segs !! i = None -> (i <= length segs)%nat -> take i segs = segs.
Proof. intros Hn Hi. apply lookup_ge_None in Hn. apply take_ge. lia. Qed.

Lemma shown_take_S segs i s : segs !! i = Some s -> shown (take (S i) segs) = shown (take i segs) ++ shown [s].
Proof. intros Hs. unfold shown. by rewrite (take_S_r _ _ s), List.filter_app. Qed.

Lemma shown_take segs i : shown (take i segs) `prefix_of` shown segs.
Proof. rewrite <- (take_drop i segs) at 2. unfold shown. rewrite List.filter_app. by eexists. Qed.

(** What publishing a segment adds. *)
Definition wire (su : Setup) (s : StreamSegment) : list bytes :=
  match enable_p2p su && overlay su, stream_id su, to_wire_bytes s with true, Some _, Some b => [b] | _, _, _ => [] end.

Lemma publish_wire su n s : publish su n s true = set_published n (published n ++ wire su s).
Proof.
  assert (Hid : n = set_published n (published n ++ [])) by (rewrite app_nil_r; by destruct n).
  unfold publish, wire. destruct (enable_p2p su && overlay su); [|done]. destruct (stream_id su); [|done]. by destruct (to_wire_bytes s).
Qed.

Lemma wire_local su segs : enable_p2p su = false -> concat (map (wire su) segs) = [].
Proof. intros Hp. induction segs as [|s segs IH]; [done|]. cbn [map concat]. rewrite IH. unfold wire. by rewrite Hp. Qed.

Lemma receiver_count_push capacity s cs : zlen (List.filter is_open (map (push capacity s) cs)) = zlen (List.filter is_open cs).
Proof.
  induction cs as [|c cs IH]; [done|]. cbn [map List.filter]. destruct (push_client capacity s c) as (_ & _ & _ & _ & ->).
  destruct (is_open c); [|done]. by rewrite !zlen_cons, IH.
Qed.

Lemma broadcast_count capacity n s : receiver_count (broadcast capacity n s) = receiver_count n.
Proof. unfold broadcast. destruct (0 <? receiver_count n); [|done]. unfold receiver_count. cbn. apply receiver_count_push. Qed.

Lemma broadcast_sent capacity n s : sent (broadcast capacity n s) = sent n ++ (if 0 <? receiver_count n then [s] else []).
Proof. unfold broadcast. destruct (0 <? receiver_count n); [done|]. by rewrite app_nil_r. Qed.

Section Playing.
Context (capacity : nat) (su : Setup) (k : nat) (segs : list StreamSegment).

(** One node after another of the same task, which has gone on. *)
Definition goes_on (n n' : Node) (t : task) (more : list StreamSegment) (wires : list bytes) : Prop :=
  rtc (step capacity su) n n' /\ tasks n' = <[k := t]> (tasks n) /\
  sent n' = sent n ++ (if 0 <? receiver_count n then more else []) /\ published n' = published n ++ wires /\
  receiver_count n' = receiver_count n /\ media n' = media n /\ is_streaming n' = is_streaming n.

Lemma goes_on_trans n n1 n2 t1 t2 m1 m2 w1 w2 : goes_on n n1 t1 m1 w1 -> goes_on n1 n2 t2 m2 w2 -> goes_on n n2 t2 (m1 ++ m2) (w1 ++ w2).
Proof.
  intros (Hr1 & Ht1 & Hs1 & Hp1 & Hc1 & Hm1 & Hi1) (Hr2 & Ht2 & Hs2 & Hp2 & Hc2 & Hm2 & Hi2). split_and!.
  - by etrans.
  - by rewrite Ht2, Ht1, list_insert_insert_eq.
  - rewrite Hs2, Hs1, Hc1, <- app_assoc. f_equal. by destruct (0 <? receiver_count n).
  - by rewrite Hp2, Hp1, app_assoc.
  - congruence.
  - congruence.
  - congruence.
Qed.

Lemma quiet_step n t t' : tasks n !! k = Some t -> task_act capacity su n t true = Some (n, t') ->
  goes_on n (set_tasks n (<[k := t']> (tasks n))) t' [] [].
Proof.
  intros Hk Ha. split_and!; try done; [|by destruct (0 <? _); rewrite app_nil_r|by rewrite app_nil_r]. apply rtc_once. by eapply step_task.
Qed.

Lemma publish_step n s t t' : tasks n !! k = Some t -> task_act capacity su n t true = Some (publish su n s true, t') ->
  goes_on n (set_tasks (publish su n s true) (<[k := t']> (tasks n))) t' [] (wire su s).
Proof.
  intros Hk Ha. split_and!; rewrite ?publish_wire; try done; [|by cbn; destruct (0 <? _); rewrite app_nil_r]. rewrite <- publish_wire.
  apply rtc_once. replace (tasks n) with (tasks (publish su n s true)) by (by rewrite publish_wire). by eapply step_task.
Qed.

(** The task plays the segments from any place to the end. *)
Lemma play_from rest i n : drop i segs = rest -> (i <= length segs)%nat -> tasks n !! k = Some (Playing segs i) ->
  enable_p2p su = true \/ 0 < receiver_count n ->
  exists n', goes_on n n' (Playing segs (length segs)) (shown rest) (concat (map (wire su) (shown rest))).
Proof.
  revert i n. induction rest as [|s rest IH]; intros i n Hd Hi Hk Hor.
  { assert (i = length segs) as -> by (apply (f_equal length) in Hd; rewrite length_drop in Hd; cbn in Hd; lia).
    exists n. split_and!; [done|by rewrite list_insert_id|by destruct (0 <? _); rewrite app_nil_r|by rewrite app_nil_r|done..]. }
  assert (Hs : segs !! i = Some s) by (rewrite <- (Nat.add_0_r i), <- lookup_drop, Hd; done).
  assert (Hd' : drop (S i) segs = rest) by (rewrite <- Nat.add_1_r, <- drop_drop, Hd; done).
  pose proof (lookup_lt_Some _ _ _ Hs) as Hlt. cbn [shown List.filter]. fold (shown rest). destruct (is_init s) eqn:Hinit; cbn [negb].
  - assert (Ha : task_act capacity su n (Playing segs i) true = Some (n, Playing segs (S i))) by (cbn; by rewrite Hs, Hinit).
    pose proof (quiet_step n _ _ Hk Ha) as H1. destruct (IH (S i) (set_tasks n (<[k := Playing segs (S i)]> (tasks n)))) as (n' & H2); [done|lia| |done|].
    { cbn. by rewrite list_lookup_insert_eq by (by eapply lookup_lt_Some). }
    exists n'. exact (goes_on_trans _ _ _ _ _ _ _ _ _ H1 H2).
  - set (n1 := set_tasks (broadcast capacity n s) (<[k := Publishing segs i]> (tasks n))).
    assert (H1 : goes_on n n1 (Publishing segs i) [s] []).
    { destruct (broadcast_same capacity n s) as (_ & Ht & _ & Hm & Hst & Hp & _).
      split_and!; [|done|apply broadcast_sent|by rewrite app_nil_r|apply broadcast_count|done|done].
      apply rtc_once. unfold n1. rewrite <- Ht. apply (step_task _ _ _ k (Playing segs i) true); [done|]. cbn. rewrite Hs, Hinit.
      replace ((receiver_count n =? 0) && negb (enable_p2p su)) with false; [done|].
      symmetry. destruct Hor as [->|Hr]; [by rewrite andb_false_r|]. by destruct (Z.eqb_spec (receiver_count n) 0); [lia|]. }
    assert (Hk1 : tasks n1 !! k = Some (Publishing segs i)) by (cbn; by rewrite list_lookup_insert_eq by (by eapply lookup_lt_Some)).
    assert (Ha : task_act capacity su n1 (Publishing segs i) true = Some (publish su n1 s true, Playing segs (S i))) by (cbn; by rewrite Hs).
    pose proof (publish_step n1 s _ _ Hk1 Ha) as H2. set (n2 := set_tasks (publish su n1 s true) _) in H2.
    destruct (IH (S i) n2) as (n' & H3); [done|lia| | |].
    { cbn. by rewrite list_lookup_insert_eq by (by eapply lookup_lt_Some). }
    { destruct Hor as [|Hr]; [by left|right]. destruct H1 as (_ & _ & _ & _ & Hc1 & _), H2 as (_ & _ & _ & _ & Hc2 & _). congruence. }
    exists n'. exact (goes_on_trans _ _ _ _ _ _ _ _ _ (goes_on_trans _ _ _ _ _ _ _ _ _ H1 H2) H3).
Qed.
End Playing.

(** The task gets the lock and starts from the front. *)
Lemma lock_step capacity su k segs n : tasks n !! k = Some Locking -> existsb holds_samples (tasks n) = false ->
  video_samples (media n) = Some segs ->
  goes_on capacity su k n (set_tasks n (<[k := Playing segs 0]> (tasks n))) (Playing segs 0) [] [].
Proof. intros Hk Hfree Hs. eapply quiet_step; [done|]. cbn. by rewrite Hfree, Hs. Qed.

Lemma ended_frees ts k : existsb holds_samples ts = false -> existsb holds_samples (<[k := Ended]> ts) = false.
Proof.
  revert k. induction ts as [|t ts IH]; intros k; [done|]. cbn [existsb]. intros [Ht Hts]%orb_false_iff. destruct k as [|k].
  - cbn. by rewrite Hts.
  - change (<[S k := Ended]> (t :: ts)) with (t :: <[k := Ended]> ts). cbn [existsb]. by rewrite Ht, IH.
Qed.

(** Without the overlay a playback that finds a viewer comes to its end by steps
    of its own: every segment but the initialization was broadcast once and in
    order, nothing was published, the node says that it no longer streams, and
    the lock is free for the next one. *)
Theorem local_playback_ends capacity su n k segs : enable_p2p su = false -> tasks n !! k = Some Locking ->
  existsb holds_samples (tasks n) = false -> video_samples (media n) = Some segs -> 0 < receiver_count n ->
  exists n', rtc (step capacity su) n n' /\ tasks n' !! k = Some Ended /\ existsb holds_samples (tasks n') = false /\
    sent n' = sent n ++ shown segs /\ published n' = published n /\ is_streaming n' = false.
Proof.
  intros Hp Hk Hfree Hs Hc. pose proof (lock_step capacity su k segs n Hk Hfree Hs) as H1.
  pose proof (lookup_lt_Some _ _ _ Hk) as Hlt. set (n1 := set_tasks n _) in H1.
  destruct (play_from capacity su k segs segs 0 n1) as (n2 & H2); [done|lia|cbn; by rewrite list_lookup_insert_eq|by right|].
  assert (Hlen : tasks n2 !! k = Some (Playing segs (length segs))).
  { destruct H2 as (_ & -> & _). rewrite list_lookup_insert_eq; [done|]. cbn. by rewrite length_insert. }
  assert (Ha : task_act capacity su n2 (Playing segs (length segs)) true = Some (n2, Finishing)) by (cbn; by rewrite lookup_ge_None_2, Hp by lia).
  pose proof (quiet_step capacity su k n2 _ _ Hlen Ha) as H3. set (n3 := set_tasks n2 _) in H3.
  pose proof (goes_on_trans capacity su k _ _ _ _ _ _ _ _ _ (goes_on_trans capacity su k _ _ _ _ _ _ _ _ _ H1 H2) H3) as (Hr & Ht & Hsent & Hpub & _).
  assert (Hk3 : tasks n3 !! k = Some Finishing) by (rewrite Ht; by rewrite list_lookup_insert_eq).
  exists (set_tasks (set_streaming n3 false) (<[k := Ended]> (tasks n3))). split_and!.
  - eapply rtc_r; [exact Hr|]. by apply (step_task _ _ _ k Finishing true (set_streaming n3 false)).
  - cbn [tasks set_tasks]. by rewrite list_lookup_insert_eq by (by eapply lookup_lt_Some).
  - cbn [tasks set_tasks]. rewrite Ht, list_insert_insert_eq. by apply ended_frees.
  - cbn [sent set_tasks set_streaming]. rewrite Hsent. destruct (Z.ltb_spec 0 (receiver_count n)); [|lia]. cbn. by rewrite app_nil_r.
  - cbn [published set_tasks set_streaming]. rewrite Hpub. cbn. rewrite app_nil_r.
    by rewrite wire_local, app_nil_r.
  - done.
Qed.

(** ** Through the overlay *)

(** *** The node that plays *)

Section Published.
Context (capacity : nat) (id : StreamId) (k : nat) (segs : list StreamSegment) (init : bytes).
Context (Hid : from_utf8 id = Some id).

(** What it plays again and again. *)
Definition round : list StreamSegment := initialization id init :: shown segs.
Definition rounds (m : nat) : list StreamSegment := concat (repeat round m).

Lemma rounds_next m : rounds (S m) = rounds m ++ round.
Proof. unfold rounds. replace (S m) with (m + 1)%nat by lia. rewrite repeat_app, concat_app. cbn. by rewrite app_nil_r. Qed.

(** A step of the task, when the overlay takes what it publishes. *)
Inductive task_step (n : Node) : Node -> Prop :=
| task_goes t n' t' : tasks n !! k = Some t -> task_act capacity (with_p2p id) n t true = Some (n', t') ->
    task_step n (set_tasks n' (<[k := t']> (tasks n'))).

(** Any other step that publishes nothing and leaves the task and its file alone. *)
Record beside (n n' : Node) : Prop := {
  beside_step : step capacity (with_p2p id) n n';
  beside_task : tasks n' !! k = tasks n !! k;
  beside_published : published n' = published n;
  beside_samples : video_samples (media n') = video_samples (media n);
  beside_init : initialization_segment (media n') = initialization_segment (media n);
}.

Definition play_step (n n' : Node) : Prop := task_step n n' \/ beside n n'.

Lemma task_step_step n n' : task_step n n' -> step capacity (with_p2p id) n n'.
Proof. intros [t n1 t' Ht Ha]. by eapply step_task. Qed.

(** How far the task is, after [m] rounds. *)
Definition played (m : nat) (t : task) (more : list StreamSegment) : Prop :=
  match t with
  | InitFirst => m = 0%nat /\ more = []
  | Locking => m = 0%nat /\ more = [initialization id init]
  | Playing sg i => sg = segs /\ (i <= length segs)%nat /\ more = rounds m ++ initialization id init :: shown (take i segs)
  | Publishing sg i => sg = segs /\ (exists s, segs !! i = Some s /\ is_init s = false) /\
      more = rounds m ++ initialization id init :: shown (take i segs)
  | Relooping sg => sg = segs /\ more = rounds (S m)
  | Delayed | Finishing | Ended => False
  end.

Lemma played_prefix m t more : played m t more -> more `prefix_of` rounds (S m).
Proof.
  assert (Hpart : forall i, rounds m ++ initialization id init :: shown (take i segs) `prefix_of` rounds (S m)).
  { intros i. rewrite rounds_next. apply prefix_app, prefix_cons, shown_take. }
  destruct t as [| | |sg i|sg i|sg| |]; cbn [played]; try done.
  - intros [_ ->]. apply prefix_nil.
  - intros [-> ->]. exact (Hpart 0%nat).
  - intros (_ & _ & ->). apply Hpart.
  - intros (_ & _ & ->). apply Hpart.
  - by intros [_ ->].
Qed.

Record playing (base : list bytes) (n : Node) (m : nat) (t : task) : Prop := {
  playing_samples : video_samples (media n) = Some segs;
  playing_init : initialization_segment (media n) = Some init;
  playing_task : tasks n !! k = Some t;
  playing_more : exists more, played m t more /\ published n = base ++ omap to_wire_bytes more;
}.

Lemma wire_p2p s : wire (with_p2p id) s = omap to_wire_bytes [s].
Proof. unfold wire. cbn. by destruct (to_wire_bytes s). Qed.

Lemma publish_init_p2p n : initialization_segment (media n) = Some init ->
  publish_init (with_p2p id) n true = set_published n (published n ++ omap to_wire_bytes [initialization id init]).
Proof. intros Hi. unfold publish_init, id_text. cbn [stream_id with_p2p]. rewrite Hi, Hid, publish_wire. by rewrite wire_p2p. Qed.

(** What is left of a round. *)
Definition round_left (t : task) : nat :=
  match t with
  | InitFirst => 2 * length segs + 3
  | Locking => 2 * length segs + 2
  | Playing _ i => 2 * (length segs - i) + 1
  | Publishing _ i => 2 * (length segs - i)
  | _ => 0
  end.

Definition is_relooping (t : task) : bool := match t with Relooping _ => true | _ => false end.

Lemma task_plays base n m t n' t' : playing base n m t -> task_act capacity (with_p2p id) n t true = Some (n', t') ->
  let m' := if is_relooping t then S m else m in
  playing base (set_tasks n' (<[k := t']> (tasks n'))) m' t' /\ tasks n' = tasks n /\ (is_relooping t = false -> (round_left t' < round_left t)%nat).
Proof.
  intros [Hs Hi Ht (more & Hp & Hpub)] Ha.
  assert (Hput : forall n1 m1 t1 more1, played m1 t1 more1 -> media n1 = media n -> tasks n1 = tasks n ->
    published n1 = base ++ omap to_wire_bytes more1 -> playing base (set_tasks n1 (<[k := t1]> (tasks n1))) m1 t1).
  { intros n1 m1 t1 more1 Hp1 Hm1 Ht1 Hpub1. constructor; cbn; rewrite ?Hm1; [done|done| |by exists more1].
    rewrite Ht1. apply list_lookup_insert_eq. by eapply lookup_lt_Some. }
  destruct t as [| | |sg i|sg i|sg| |]; cbn [played task_act is_relooping] in *; try done.
  - destruct Hp as [-> ->]. rewrite publish_init_p2p in Ha by done. injection Ha as <- <-. split; [|split; [done|cbn; lia]].
    apply (Hput _ 0%nat Locking [initialization id init]); try done. cbn [published set_published]. rewrite Hpub.
    change (omap to_wire_bytes []) with (@nil bytes). by rewrite app_nil_r.
  - destruct Hp as [-> ->]. destruct (existsb _ _); [done|]. rewrite Hs in Ha. injection Ha as <- <-. split; [|split; [done|cbn; lia]].
    apply (Hput n 0%nat (Playing segs 0) [initialization id init]); try done. cbn. split; [done|]. split; [lia|done].
  - destruct Hp as (-> & Hle & ->). destruct (segs !! i) as [s|] eqn:Hsi.
    + pose proof (lookup_lt_Some _ _ _ Hsi) as Hlt. destruct (is_init s) eqn:His.
      * injection Ha as <- <-. split; [|split; [done|cbn; lia]]. eapply Hput; [|done|done|exact Hpub]. cbn. split; [done|]. split; [lia|].
        rewrite (shown_take_S _ _ _ Hsi). unfold shown at 3. cbn. rewrite His. cbn. by rewrite app_nil_r.
      * cbn [enable_p2p with_p2p] in Ha. rewrite andb_false_r in Ha. injection Ha as <- <-.
        destruct (broadcast_same capacity n s) as (_ & Hbt & _ & Hbm & _ & Hbp & _). split; [|split; [done|cbn; lia]].
        eapply Hput; [|done|done|by rewrite Hbp]. cbn. split; [done|]. by split; [exists s|].
    + injection Ha as <- <-. split; [|split; [done|cbn; lia]]. eapply Hput; [|done|done|exact Hpub]. cbn [played]. split; [done|].
      rewrite rounds_next, (take_all _ i Hsi Hle). done.
  - destruct Hp as (-> & (s & Hsi & His) & ->). rewrite Hsi, publish_wire in Ha. injection Ha as <- <-.
    pose proof (lookup_lt_Some _ _ _ Hsi) as Hlt. split; [|split; [done|cbn; lia]].
    apply (Hput _ m (Playing segs (S i)) ((rounds m ++ initialization id init :: shown (take i segs)) ++ [s])); try done.
    + cbn [played]. split; [done|]. split; [lia|]. rewrite (shown_take_S _ _ _ Hsi). unfold shown at 3. cbn [List.filter]. rewrite His. cbn [negb].
      by rewrite <- app_assoc.
    + cbn [published set_published]. by rewrite Hpub, wire_p2p, (omap_app _ _ [s]), app_assoc.
  - destruct Hp as [-> ->]. rewrite publish_init_p2p in Ha by done. injection Ha as <- <-. split; [|done].
    apply (Hput _ (S m) (Playing segs 0) (rounds (S m) ++ [initialization id init])); try done.
    + cbn [played]. split; [done|]. split; [lia|done].
    + cbn [published set_published]. by rewrite Hpub, (omap_app _ _ [_]), app_assoc.
Qed.

Lemma plays_on base n0 n : (exists m t, playing base n0 m t) -> rtc play_step n0 n -> exists m t, playing base n m t.
Proof.
  intros Hp. revert n. refine (rtc_ind_r _ _ _ _); [done|]. intros n n' _ Hs (m & t & Hpl). destruct Hs as [[t1 n1 t' Ht Ha]|[_ Ht Hpub Hs Hi]].
  - rewrite (playing_task _ _ _ _ Hpl) in Ht. injection Ht as <-. destruct (task_plays _ _ _ _ _ _ Hpl Ha) as [H1 _]. by eexists _, _.
  - exists m, t. destruct Hpl as [Hs0 Hi0 Ht0 Hm0]. constructor; [by rewrite Hs|by rewrite Hi|by rewrite Ht|by rewrite Hpub].
Qed.

(** No other task has the lock of the samples. *)
Definition alone (n : Node) : Prop := forall j t, j <> k -> tasks n !! j = Some t -> holds_samples t = false.

Lemma alone_free n : alone n -> tasks n !! k = Some Locking -> existsb holds_samples (tasks n) = false.
Proof.
  intros Hal Hk. apply not_true_iff_false. intros (t & Hin & Ht)%existsb_exists. apply list_elem_of_In, list_elem_of_lookup in Hin as [j Hj].
  destruct (decide (j = k)) as [->|Hne]; [|by rewrite (Hal j t Hne Hj) in Ht]. rewrite Hk in Hj. by injection Hj as <-.
Qed.

Lemma task_can_go base n m t : playing base n m t -> alone n -> exists n' t', task_act capacity (with_p2p id) n t true = Some (n', t').
Proof.
  intros [Hs Hi Ht (more & Hp & _)] Hal. destruct t as [| | |sg i|sg i|sg| |]; cbn [played task_act] in *; try done; try (by eexists _, _).
  - rewrite (alone_free n Hal Ht), Hs. by eexists _, _.
  - destruct (sg !! i); [|by eexists _, _]. destruct (is_init _); [by eexists _, _|]. destruct (_ && _); by eexists _, _.
  - destruct (sg !! i); by eexists _, _.
Qed.

Lemma alone_goes_on n n' t' : alone n -> tasks n' = tasks n -> alone (set_tasks n' (<[k := t']> (tasks n'))).
Proof. intros Hal Ht j t Hne. cbn. rewrite Ht, list_lookup_insert_ne by done. by apply Hal. Qed.

(** The task comes to the end of its round. *)
Lemma round_ends base n m t : playing base n m t -> alone n -> exists n', rtc task_step n n' /\ alone n' /\ playing base n' m (Relooping segs).
Proof.
  remember (round_left t) as w eqn:Hw. revert n t Hw. induction w as [w IH] using lt_wf_ind. intros n t Hw Hp Hal.
  destruct (is_relooping t) eqn:Hre.
  - exists n. split; [done|]. split; [done|]. destruct t; try done. pose proof (playing_more _ _ _ _ Hp) as (more & [-> _] & _). done.
  - destruct (task_can_go _ _ _ _ Hp Hal) as (n1 & t1 & Ha). pose proof (task_plays _ _ _ _ _ _ Hp Ha) as Hnext. rewrite Hre in Hnext.
    destruct Hnext as (Hp1 & Ht1 & Hless). specialize (Hless eq_refl).
    destruct (IH (round_left t1) ltac:(lia) _ t1 eq_refl Hp1 (alone_goes_on _ _ _ Hal Ht1)) as (n' & Hr & Hend). exists n'. split; [|done].
    eapply rtc_l; [|exact Hr]. apply (task_goes n t); [exact (playing_task _ _ _ _ Hp)|done].
Qed.

Lemma rounds_end base n m t : playing base n m t -> alone n -> forall r, exists n' m', (r <= m')%nat /\ rtc task_step n n' /\ alone n' /\
  playing base n' m' (Relooping segs).
Proof.
  intros Hp Hal. induction r as [|r (n1 & m1 & Hm1 & Hr1 & Hal1 & Hp1)].
  - destruct (round_ends _ _ _ _ Hp Hal) as (n' & Hr). exists n', m. split; [lia|done].
  - destruct (task_can_go _ _ _ _ Hp1 Hal1) as (n2 & t2 & Ha). destruct (task_plays _ _ _ _ _ _ Hp1 Ha) as (Hp2 & Ht2 & _). cbn [is_relooping] in Hp2.
    destruct (round_ends _ _ _ _ Hp2 (alone_goes_on _ _ _ Hal1 Ht2)) as (n3 & Hr3 & Hal3 & Hp3). exists n3, (S m1). split; [lia|].
    split; [|done]. etrans; [exact Hr1|]. eapply rtc_l; [|exact Hr3]. apply (task_goes n1 (Relooping segs)); [exact (playing_task _ _ _ _ Hp1)|done].
Qed.
End Published.

(** *** The node that receives *)

Section Received.
Context (capacity : nat) (su : Setup) (j : nat) (id : StreamId) (l : Listener).
Context (Hid : from_utf8 id = Some id) (Hl : listens l = Receiving id).

(** The bytes that an event brings for the stream, and the segment they hold. *)
Definition told (e : event) : option bytes :=
  match e with StreamData i data => if decide (from_utf8_lossy i = id) then Some data else None | _ => None end.

Definition read_segment (data : bytes) : option StreamSegment := segment_of_wire <$> bin_deserialize data.

(** Somebody watches, and the loop is not told to end. *)
Definition kept (v : Node) : Prop := 0 < receiver_count v /\ (stop_flag l = false \/ is_streaming v = true).

(** Every run in which the loop [j] alone takes events, with those that the
    overlay brought and with what else was broadcast. *)
Inductive received_run (v0 : Node) : list event -> list StreamSegment -> Node -> Prop :=
| received_begins : received_run v0 [] [] v0
| received_loop brought others v p room v1 p1 : received_run v0 brought others v -> listeners v !! j = Some (at_loop l p) ->
    loop_act capacity v (at_loop l p) room = Some (v1, p1) ->
    received_run v0 brought others (set_listeners v1 (<[j := at_loop l p1]> (listeners v1)))
| received_brings brought others v e : received_run v0 brought others v -> overlay su = true ->
    received_run v0 (brought ++ [e]) others (set_events v (events v ++ [e]))
| received_beside brought others v v1 more : received_run v0 brought others v -> step capacity su v v1 -> events v1 = events v ->
    listeners v1 !! j = listeners v !! j -> sent v1 = sent v ++ more -> kept v1 -> received_run v0 brought (others ++ more) v1.

Lemma received_trans v0 e1 o1 v1 e2 o2 v2 : received_run v0 e1 o1 v1 -> received_run v1 e2 o2 v2 -> received_run v0 (e1 ++ e2) (o1 ++ o2) v2.
Proof.
  intros H1. induction 1 as [|b2 o2 v p room v2 p2 _ IH Hp Ha|b2 o2 v e _ IH Ho|b2 o2 v v2 more _ IH Hs He Hj Hm Hk]; rewrite ?app_nil_r; [done|..].
  - by eapply received_loop.
  - rewrite app_assoc. by apply received_brings.
  - rewrite app_assoc. by eapply received_beside.
Qed.

Lemma received_steps v0 brought others v : received_run v0 brought others v -> rtc (step capacity su) v0 v.
Proof.
  induction 1 as [|b o v p room v1 p1 _ IH Hp Ha|b o v e _ IH Ho|b o v v1 more _ IH Hs _ _ _ _]; [done|..]; (eapply rtc_r; [exact IH|]); [|by apply step_event|done].
  by eapply (step_listen capacity su v j (at_loop l p)).
Qed.

(** Nothing is left for the loop to do. *)
Definition resting (v : Node) : Prop :=
  events v = [] /\ (listeners v !! j = Some (at_loop l Checking) \/ listeners v !! j = Some (at_loop l Waiting)).

Definition held (p : loop_phase) (hand : list StreamSegment) : Prop :=
  match p with Checking | Waiting => hand = [] | Forwarding s => hand = [s] | Halted => False end.

(** The account of the loop: [all] are the events there were and those brought,
    [before] what was broadcast before. *)
Record receiving (all : list event) (others before : list StreamSegment) (v : Node) (p : loop_phase) (ours hand log : list StreamSegment) : Prop := {
  receiving_at : listeners v !! j = Some (at_loop l p);
  receiving_kept : kept v;
  receiving_sent : sent v = before ++ log;
  receiving_merged : interleaving ours others log;
  receiving_held : held p hand;
  receiving_taken : ours ++ hand ++ omap read_segment (omap told (events v)) = omap read_segment (omap told all);
}.

Lemma told_taken e es : omap read_segment (omap told (e :: es)) = omap read_segment (omap told [e]) ++ omap read_segment (omap told es).
Proof. rewrite <- omap_app, <- omap_app. done. Qed.

(** A step of the loop. *)
Lemma loop_receives all others before v p room v1 p1 ours hand log : receiving all others before v p ours hand log ->
  loop_act capacity v (at_loop l p) room = Some (v1, p1) ->
  exists ours1 hand1 log1, receiving all others before (set_listeners v1 (<[j := at_loop l p1]> (listeners v1))) p1 ours1 hand1 log1.
Proof.
  intros [Hj Hk Hs Hi Hh Ht] Ha. pose proof (lookup_lt_Some _ _ _ Hj) as Hlt.
  assert (Hput : forall v1 p1 ours1 hand1 log1, listeners v1 = listeners v -> kept v1 -> sent v1 = before ++ log1 -> interleaving ours1 others log1 ->
    held p1 hand1 -> ours1 ++ hand1 ++ omap read_segment (omap told (events v1)) = omap read_segment (omap told all) ->
    receiving all others before (set_listeners v1 (<[j := at_loop l p1]> (listeners v1))) p1 ours1 hand1 log1).
  { intros w q o h g Hw Hkw Hsw Hiw Hhw Htw. constructor; try done. cbn. rewrite Hw. by apply list_lookup_insert_eq. }
  unfold loop_act in Ha. destruct p as [| |s|]; cbn [loop_at at_loop held stop_flag listens owner] in *; [| | |done].
  - subst hand. replace (stop_flag l && negb (is_streaming v)) with false in Ha
      by (destruct Hk as [_ [->| ->]]; by rewrite ?andb_false_r).
    injection Ha as <- <-. exists ours, [], log. by apply Hput.
  - subst hand. destruct (events v) as [|e es] eqn:Hev; [done|]. injection Ha as Ha. rewrite Hl in Ha. rewrite told_taken in Ht.
    assert (Hskip : omap read_segment (omap told [e]) = [] -> forall w q, w = v1 -> q = p1 -> listeners w = listeners v -> kept w -> sent w = sent v -> events w = es ->
      held q [] -> exists ours1 hand1 log1, receiving all others before (set_listeners v1 (<[j := at_loop l p1]> (listeners v1))) p1 ours1 hand1 log1).
    { intros Hnone w q <- <- Hw Hkw Hsw Hew Hq. rewrite Hnone in Ht. exists ours, [], log. apply Hput; try done; [by rewrite Hsw|by rewrite Hew]. }
    destruct e as [i data|data|]; [|injection Ha as Ha1 Ha2; by apply (Hskip eq_refl _ _ Ha1 Ha2)..].
    assert (Hname : str_eqb (from_utf8_lossy i) (id_text id) = bool_decide (from_utf8_lossy i = id)).
    { unfold id_text. by rewrite Hid. }
    rewrite Hname in Ha. destruct (decide (from_utf8_lossy i = id)) as [He|He].
    + rewrite bool_decide_true in Ha by done. destruct (bin_deserialize data) as [w|] eqn:Hd.
      * assert (Hone : omap read_segment (omap told [StreamData i data]) = [segment_of_wire w])
          by (cbn; rewrite decide_True by done; cbn; unfold read_segment; by rewrite Hd).
        rewrite Hone in Ht. injection Ha as <- <-. exists ours, [segment_of_wire w], log. by destruct (is_init _); apply Hput.
      * injection Ha as Ha1 Ha2. eapply (Hskip ltac:(cbn; rewrite decide_True by done; cbn; unfold read_segment; by rewrite Hd) _ _ Ha1 Ha2); done.
    + rewrite bool_decide_false in Ha by done. injection Ha as Ha1 Ha2.
      eapply (Hskip ltac:(cbn; by rewrite decide_False by done) _ _ Ha1 Ha2); done.
  - subst hand. injection Ha as <- <-. destruct (broadcast_same capacity v s) as (Hbl & _ & _ & _ & Hbs & _ & Hbe).
    exists (ours ++ [s]), [], (log ++ [s]). apply Hput; [done| | |by apply interleaving_left|done|].
    + destruct Hk as [Hc Hk]. split; [by rewrite broadcast_count|by rewrite Hbs].
    + rewrite broadcast_sent, Hs. destruct Hk as [Hc _]. destruct (Z.ltb_spec 0 (receiver_count v)); [|lia]. by rewrite app_assoc.
    + rewrite Hbe, <- Ht. by rewrite <- app_assoc.
Qed.

Lemma run_receives v0 brought others v : listeners v0 !! j = Some (at_loop l Checking) -> kept v0 -> received_run v0 brought others v ->
  exists p ours hand log, receiving (events v0 ++ brought) others (sent v0) v p ours hand log.
Proof.
  intros Hj Hk. induction 1 as [|brought others v p room v1 p1 _ IH Hp Ha|brought others v e _ IH Ho|brought others v v1 more _ IH Hs He Hj1 Hm Hk1].
  - exists Checking, [], [], []. constructor; rewrite ?app_nil_r; try done. constructor.
  - destruct IH as (p0 & ours & hand & log & Hr). rewrite (receiving_at _ _ _ _ _ _ _ _ Hr) in Hp.
    apply (inj Some), (f_equal loop_at) in Hp. cbn in Hp. subst p0.
    destruct (loop_receives _ _ _ _ _ _ _ _ _ _ _ Hr Ha) as (o1 & h1 & g1 & Hr1). by exists p1, o1, h1, g1.
  - destruct IH as (p & ours & hand & log & [Hp Hkp Hs Hi Hh Ht]). exists p, ours, hand, log. constructor; try done.
    cbn [events set_events].
    rewrite (app_assoc (events v0) brought [e]), (omap_app told (events v) [e]), (omap_app told (events v0 ++ brought) [e]).
    rewrite !(omap_app read_segment _ (omap told [e])), <- Ht. by rewrite <- !app_assoc.
  - destruct IH as (p & ours & hand & log & [Hp Hkp Hsp Hi Hh Ht]). exists p, ours, hand, (log ++ more).
    constructor; [by rewrite Hj1|done|by rewrite Hm, Hsp, app_assoc|by apply interleaving_more|done|by rewrite He].
Qed.

(** The loop comes to rest by steps of its own. *)
Definition loop_left (v : Node) (p : loop_phase) : nat :=
  (3 * length (events v) + match p with Forwarding _ => 2 | Checking => 1 | _ => 0 end)%nat.

Lemma loop_can_go all others before v p ours hand log : receiving all others before v p ours hand log -> ~ resting v ->
  exists v1 p1, loop_act capacity v (at_loop l p) true = Some (v1, p1) /\
    (loop_left (set_listeners v1 (<[j := at_loop l p1]> (listeners v1))) p1 < loop_left v p)%nat.
Proof.
  intros [Hj [Hc Hk] _ _ Hh _] Hrest. unfold resting in Hrest. unfold loop_act, loop_left.
  destruct p as [| |s|]; cbn [loop_at at_loop held stop_flag listens owner] in *; [| | |done].
  - eexists _, _. split; [done|]. replace (stop_flag l && negb (is_streaming v)) with false by (destruct Hk as [->| ->]; by rewrite ?andb_false_r). cbn. lia.
  - destruct (events v) as [|e es] eqn:Hev; [exfalso; auto|]. eexists _, _. split; [apply f_equal; apply surjective_pairing|].
    rewrite Hl. destruct e as [i data|data|]; [|cbn; lia..]. destruct (str_eqb _ _); [|cbn; lia]. destruct (bin_deserialize data); [|cbn; lia].
    destruct (is_init _); cbn; lia.
  - destruct (broadcast_same capacity v s) as (_ & _ & _ & _ & _ & _ & Hbe). eexists _, _. split; [done|]. cbn [events set_listeners]. rewrite Hbe. lia.
Qed.

Lemma comes_to_rest all others before v p ours hand log : receiving all others before v p ours hand log ->
  exists v', received_run v [] [] v' /\ resting v'.
Proof.
  remember (loop_left v p) as w eqn:Hw. revert v p ours hand log Hw. induction w as [w IH] using lt_wf_ind. intros v p ours hand log Hw Hr.
  assert (Hdec : resting v \/ ~ resting v).
  { unfold resting. destruct (events v); [|right; by intros [? _]]. rewrite (receiving_at _ _ _ _ _ _ _ _ Hr).
    destruct p; first [left; by auto|right; intros [_ [Heq|Heq]]; by injection Heq]. }
  destruct Hdec as [Hrest|Hmore]; [exists v; split; [constructor|done]|].
  destruct (loop_can_go _ _ _ _ _ _ _ _ Hr Hmore) as (v1 & p1 & Ha & Hless).
  destruct (loop_receives _ _ _ _ _ _ _ _ _ _ _ Hr Ha) as (o1 & h1 & g1 & Hr1).
  destruct (IH _ ltac:(subst w; exact Hless) _ p1 o1 h1 g1 eq_refl Hr1) as (v' & Hrun & Hrest). exists v'. split; [|done].
  refine (received_trans v [] [] _ [] [] v' _ Hrun). eapply received_loop; [constructor| |exact Ha]. exact (receiving_at _ _ _ _ _ _ _ _ Hr).
Qed.
End Received.

Lemma wires_read ss : Forall (fun s => is_Some (to_wire_bytes s)) ss -> omap read_segment (omap to_wire_bytes ss) = ss.
Proof.
  induction 1 as [|s ss [w Hs] _ IH]; [done|]. change (s :: ss) with ([s] ++ ss). rewrite (omap_app _ [s]), omap_app, IH. f_equal. cbn. rewrite Hs. cbn.
  unfold read_segment. unfold to_wire_bytes in Hs. rewrite (bin_roundtrip _ _ Hs). cbn. by rewrite segment_of_wire_of_segment.
Qed.

(** C13: Through the overlay, from one node to the viewers of another. A task of the
    first plays a loaded file: in every run in which the overlay takes what the
    task publishes, nothing else publishes and the file stays loaded, what has
    been published is a part, from the beginning, of the initialization segment
    and the shown segments in order, over and over, and unless another task
    holds the lock it can go on to any number of rounds. On the second a loop
    waits for the stream: in every run in which the overlay brings what was
    published for the stream, in order, among whatever else it brings, no other
    loop takes events, somebody watches and the loop is not told to end, what
    was broadcast to the viewers is a part, from the beginning, of just these
    segments, merged with what the rest of the node broadcasts; the loop can
    come to rest by steps of its own, and when it rests all of them were
    broadcast. (Where other loops wait for events too they take some of them:
    [event_is_stolen].) *)
Theorem stream_reaches_viewers capacity id n k segs init : from_utf8 id = Some id ->
  tasks n !! k = Some InitFirst -> video_samples (media n) = Some segs -> initialization_segment (media n) = Some init ->
  Forall (fun s => is_Some (to_wire_bytes s)) (initialization id init :: segs) ->
  forall n', rtc (play_step capacity id k) n n' ->
  exists more m, published n' = published n ++ omap to_wire_bytes more /\ more `prefix_of` rounds id segs init m /\
    (alone k n' -> forall r, exists n'' r', (r <= r')%nat /\ rtc (task_step capacity id k) n' n'' /\
      published n'' = published n ++ omap to_wire_bytes (rounds id segs init r')) /\
    forall capacity' su' j l v brought others v', listens l = Receiving id -> listeners v !! j = Some (at_loop l Checking) -> kept l v ->
      omap (told id) (events v ++ brought) = omap to_wire_bytes more -> received_run capacity' su' j l v brought others v' ->
      exists ours log, sent v' = sent v ++ log /\ interleaving ours others log /\ ours `prefix_of` more /\
        (exists v'', received_run capacity' su' j l v' [] [] v'' /\ resting j l v'') /\
        (resting j l v' -> ours = more).
Proof.
  intros Hid Ht Hs Hi Henc n' Hrun.
  assert (Hstart : playing id k segs init (published n) n 0 InitFirst).
  { constructor; try done. exists []. change (omap to_wire_bytes []) with (@nil bytes). by rewrite app_nil_r. }
  destruct (plays_on capacity id k segs init Hid (published n) n n') as (m & t & Hp); [by eexists _, _|done|].
  destruct (playing_more _ _ _ _ _ _ _ _ Hp) as (more & Hmore & Hpub). pose proof (played_prefix _ _ _ _ _ _ Hmore) as Hpre.
  exists more, (S m). split; [done|]. split; [done|]. split.
  - intros Hal r. destruct (rounds_end capacity id k segs init Hid _ _ _ _ Hp Hal r) as (n'' & m' & Hr & Hrun'' & _ & Hp'').
    exists n'', (S m'). split; [lia|]. split; [done|]. by destruct (playing_more _ _ _ _ _ _ _ _ Hp'') as (more'' & [_ ->] & Hpub'').
  - assert (Hall : Forall (fun s => is_Some (to_wire_bytes s)) more).
    { destruct Hpre as [rest Hpre]. rewrite list.Forall_forall in *. intros s Hin. apply Henc.
      assert (Hr : s ∈ rounds id segs init (S m)) by (rewrite Hpre; apply elem_of_app; by left). clear -Hr.
      apply list_elem_of_In, in_concat in Hr as (r & Hr & Hin). apply repeat_spec in Hr as ->. destruct Hin as [<-|Hin]; [by left|right].
      apply List.filter_In in Hin as [Hin _]. by apply list_elem_of_In. }
    intros capacity' su' j l v brought others v' Hl Hj Hk Htold Hr.
    destruct (run_receives capacity' su' j id l Hid Hl v brought others v' Hj Hk Hr) as (p & ours & hand & log & Hacc).
    pose proof (comes_to_rest capacity' su' j id l Hid Hl _ _ _ _ _ _ _ _ Hacc) as Hends. destruct Hacc as [Hat _ Hsent Hmerge Hheld Htaken].
    rewrite Htold, (wires_read _ Hall) in Htaken. exists ours, log. split; [done|]. split; [done|]. split; [by eexists|]. split; [done|].
    intros [Hq Hrest]. rewrite Hq in Htaken. assert (hand = []) as ->.
    { assert (Hph : p = Checking \/ p = Waiting) by (destruct Hrest as [Hr'|Hr']; rewrite Hr' in Hat; injection Hat as ->; auto).
      by destruct Hph as [->| ->]. }
    by rewrite app_nil_r in Htaken.
Qed.
End Runs.

(** ** Scripts *)

(** Steps by name, so that runs can be computed. *)
Inductive command : Type :=
| Arrive (kind : client_kind) (req : option StreamId)
| Subscribe (i : nat)
| Inform (i : nat)
| Open (i : nat)
| Serve (i : nat)
| Start
| Stop
| Live (data : bytes)
| RunCall (j : nat)
| RunTask (k : nat)
| Listen (k : nat)
| Bring (e : event).

Section Scripts.
Context `{!Blake3, !Bincode WireSegment, !MetaJson} (capacity : nat) (su : Setup).

Definition exec (n : Node) (cmd : command) : option Node :=
  match cmd with
  | Arrive kind req => Some (set_clients n (clients n ++ [new_client kind req]))
  | Subscribe i =>
      match clients n !! i with
      | Some c => match client c, at_phase c with Viewer, Arriving => Some (viewer_subscribes su n i c) | _, _ => None end
      | None => None
      end
  | Inform i =>
      match clients n !! i with
      | Some c =>
          match at_phase c with
          | Subscribed =>
              Some (set_client n i (write_frames c [TextFrame (stream_info (video_codec_info (media n)) (audio_codec_info (media n)))] 1 Informed))
          | _ => None
          end
      | None => None
      end
  | Open i =>
      match clients n !! i with
      | Some c =>
          match at_phase c, init_messages (video_init_segment (media n)) (audio_init_segment (media n)) (initialization_segment (media n)) with
          | Informed, Done ms => Some (set_client n i (write_frames c ms (length ms) Serving))
          | _, _ => None
          end
      | None => None
      end
  | Serve i =>
      match clients n !! i with
      | Some c =>
          match at_phase c, serve c 2 with
          | Serving, Some c' => Some (let n := set_client n i c' in match at_phase c' with Closed => abort_owned n i | _ => n end)
          | _, _ => None
          end
      | None => None
      end
  | Start => Some (let n := broadcast capacity n (metadata (segment_stream_id su) 0 [] 0) in set_calls n (calls n ++ [StartFlag]))
  | Stop => Some (set_streaming n false)
  | Live data => Some (send_live capacity su n data (Some true) 0)
  | RunCall j =>
      match calls n !! j with
      | Some c => match call_act su n c true with Some (n', c') => Some (set_calls n' (<[j := c']> (calls n'))) | None => None end
      | None => None
      end
  | RunTask k =>
      match tasks n !! k with
      | Some t => match task_act capacity su n t true with Some (n', t') => Some (set_tasks n' (<[k := t']> (tasks n'))) | None => None end
      | None => None
      end
  | Listen k =>
      match listeners n !! k with
      | Some l => match loop_act capacity n l true with Some (n', p) => Some (set_listeners n' (<[k := at_loop l p]> (listeners n'))) | None => None end
      | None => None
      end
  | Bring e => if overlay su then Some (set_events n (events n ++ [e])) else None
  end.

Lemma command_step n cmd n' : exec n cmd = Some n' -> step capacity su n n'.
Proof.
  destruct cmd as [kind req|i|i|i|i| | |data|j|k|k|e]; cbn [exec].
  - intros [= <-]. apply step_arrive.
  - destruct (clients n !! i) as [c|] eqn:Hi; [|done]. destruct (client c) eqn:Hc, (at_phase c) eqn:Hp; try done. intros [= <-]. by apply step_subscribe.
  - destruct (clients n !! i) as [c|] eqn:Hi; [|done]. destruct (at_phase c) eqn:Hp; try done. intros [= <-]. by apply step_inform.
  - destruct (clients n !! i) as [c|] eqn:Hi; [|done]. destruct (at_phase c) eqn:Hp; try done.
    destruct (init_messages _ _ _) as [ms| |] eqn:Hm; try done. intros [= <-]. by apply step_open.
  - destruct (clients n !! i) as [c|] eqn:Hi; [|done]. destruct (at_phase c) eqn:Hp; try done. destruct (serve c 2) as [c'|] eqn:Hs; [|done].
    intros [= <-]. by apply (step_serve _ _ _ i c c' 2).
  - intros [= <-]. apply step_start.
  - intros [= <-]. apply step_stop.
  - intros [= <-]. apply step_live.
  - destruct (calls n !! j) as [c|] eqn:Hj; [|done]. destruct (call_act su n c true) as [[n1 c']|] eqn:Ha; [|done]. intros [= <-]. by eapply step_call.
  - destruct (tasks n !! k) as [t|] eqn:Hk; [|done]. destruct (task_act _ su n t true) as [[n1 t']|] eqn:Ha; [|done]. intros [= <-]. by eapply step_task.
  - destruct (listeners n !! k) as [l|] eqn:Hk; [|done]. destruct (loop_act _ n l true) as [[n1 p]|] eqn:Ha; [|done]. intros [= <-]. by eapply step_listen.
  - destruct (overlay su) eqn:Ho; [|done]. intros [= <-]. by apply step_event.
Qed.

Fixpoint exec_all (n : Node) (cmds : list command) : option Node :=
  match cmds with [] => Some n | cmd :: cmds => match exec n cmd with Some n => exec_all n cmds | None => None end end.

Lemma commands_steps n cmds n' : exec_all n cmds = Some n' -> rtc (step capacity su) n n'.
Proof.
  revert n. induction cmds as [|cmd cmds IH]; intros n; cbn [exec_all]; [by intros [= ->]|].
  destruct (exec n cmd) as [n1|] eqn:He; [|done]. intros Hr. eapply rtc_l; [by apply (command_step n cmd)|by apply IH].
Qed.
End Scripts.

(** ** What goes wrong *)

#[local] Existing Instance demo_blake3.
#[local] Existing Instance demo_bincode.
#[local] Instance no_json : MetaJson :=
  {| JsonValue := unit; parse_json _ := None; json_u64 _ _ := None; json_f64 _ _ := None |}.

Definition viewer_arrives (i : nat) (req : option StreamId) : list command := [Arrive Viewer req; Subscribe i; Inform i; Open i].
Definition browse : Setup := with_discovery (str "self").
Definition demo_segment (id : StreamId) : StreamSegment := video id 7 0 0 [1; 2; 3] true.
Definition arriving (id : StreamId) : event := StreamData id (default [] (to_wire_bytes (demo_segment id))).

(** The node in browse mode, with a viewer for the stream [a]. *)
Definition watching : Node :=
  default new_node (exec_all 1000 browse new_node
    ([Start; RunCall 0; RunCall 0; RunCall 0; RunCall 0] ++ viewer_arrives 0 (Some (str "a")) ++ [Listen 0; Listen 1; Bring (arriving (str "a"))])).

(** The loops of a node share one queue of events, and each event is taken by
    one of them. A segment that a viewer waits for is lost to it when another
    loop takes it: the one of browse mode throws it away. *)
Theorem event_is_stolen : rtc (step 1000 browse) new_node watching /\
  (exists c l, clients watching !! 0%nat = Some c /\ requested c = Some (str "a") /\ at_phase c = Serving /\
     listeners watching !! 1%nat = Some l /\ listens l = Receiving (str "a") /\ loop_at l = Waiting) /\
  events watching = [arriving (str "a")] /\
  exists n', step 1000 browse watching n' /\ events n' = [] /\ sent n' = [] /\ clients n' = clients watching.
Proof.
  assert (Hr : exec_all 1000 browse new_node ([Start; RunCall 0; RunCall 0; RunCall 0; RunCall 0] ++ viewer_arrives 0 (Some (str "a"))
    ++ [Listen 0; Listen 1; Bring (arriving (str "a"))]) = Some watching) by (vm_compute; reflexivity).
  split; [by eapply commands_steps|]. split; [eexists _, _; split_and!; vm_compute; reflexivity|]. split; [vm_compute; reflexivity|].
  destruct (exec 1000 browse watching (Listen 0)) as [n'|] eqn:He; [|vm_compute in He; discriminate He]. exists n'. split; [by eapply command_step|].
  vm_compute in He. injection He as <-. split_and!; vm_compute; reflexivity.
Qed.

(** The loops of all viewers feed the same channel, so that a viewer is sent
    the segments of streams it did not ask for. *)
Theorem streams_mix : exists n c, rtc (step 1000 browse) new_node n /\ clients n !! 0%nat = Some c /\ requested c = Some (str "a") /\
  transcript c = TextFrame (stream_info None None) :: segment_frames (demo_segment (str "b")).
Proof.
  set (cmds := viewer_arrives 0 (Some (str "a")) ++ viewer_arrives 1 (Some (str "b"))
    ++ [Listen 1; Bring (arriving (str "b")); Listen 1; Listen 1; Serve 0]).
  destruct (exec_all 1000 browse new_node cmds) as [n|] eqn:He; [|vm_compute in He; discriminate He].
  exists n. destruct (clients n !! 0%nat) as [c|] eqn:Hc.
  - exists c. split; [by eapply commands_steps|]. split; [done|]. vm_compute in He. injection He as <-. vm_compute in Hc. injection Hc as <-.
    split; vm_compute; reflexivity.
  - vm_compute in He. injection He as <-. vm_compute in Hc. discriminate Hc.
Qed.

(** ** The theorems at work *)

Definition one_viewer : Node :=
  default new_node (exec_all 1000 (local_only (str "self")) new_node (viewer_arrives 0 None ++ [Live [1; 2]; Live [3]; Serve 0])).

Lemma one_viewer_runs : rtc (step 1000 (local_only (str "self"))) new_node one_viewer.
Proof. apply (commands_steps 1000 _ _ (viewer_arrives 0 None ++ [Live [1; 2]; Live [3]; Serve 0])). vm_compute. reflexivity. Qed.

Lemma viewer_gets_stream_witness : exists c delivered, rtc (step 1000 (local_only (str "self"))) new_node one_viewer /\
  clients one_viewer !! 0%nat = Some c /\ (length (sent one_viewer) = 2)%nat /\
  delivered ++ pending (receiver c) = drop (joined_at c) (sent one_viewer).
Proof.
  pose proof one_viewer_runs as Hr.
  destruct (clients one_viewer !! 0%nat) as [c|] eqn:Hc; [|vm_compute in Hc; discriminate Hc].
  assert (Hv : client c = Viewer /\ at_phase c = Serving /\ joined_at c = 0%nat) by (vm_compute in Hc; injection Hc as <-; by vm_compute).
  destruct Hv as (Hv & Hp & Hj).
  destruct (viewer_gets_stream 1000 _ one_viewer 0 c Hr Hc Hv Hp) as (v & a & video & audio & init & ms & delivered & past & _ & _ & _ & _ & _ & Hall).
  exists c, delivered. split; [exact Hr|]. split; [done|]. split; [vm_compute; reflexivity|]. apply Hall. rewrite Hj. apply Nat.leb_le. vm_compute. reflexivity.
Defined.

(** A node that has loaded two segments. *)
Definition demo_media : Media :=
  with_init (with_samples no_media (Some [initialization (str "s") [9]; demo_segment (str "s")])) (Some [9]).

Lemma local_playback_ends_witness :
  let n := set_tasks (set_media one_viewer demo_media) [Locking] in
  0 < receiver_count n /\ exists n', rtc (step 1000 (local_only (str "self"))) n n' /\ tasks n' !! 0%nat = Some Ended /\
    sent n' = sent n ++ [demo_segment (str "s")] /\ is_streaming n' = false.
Proof.
  intros n. assert (Hc : 0 < receiver_count n) by (vm_compute; reflexivity). split; [exact Hc|].
  destruct (local_playback_ends 1000 (local_only (str "self")) n 0 _ eq_refl eq_refl eq_refl eq_refl Hc) as (n' & Hr & Ht & _ & Hs & _ & Hst).
  exists n'. split_and!; [exact Hr|exact Ht|exact Hs|exact Hst].
Defined.

Lemma p2p_playback_never_ends_witness :
  let n := set_calls (set_tasks (set_media new_node demo_media) [Playing [demo_segment (str "s")] 0]) [StartCheck] in
  exists n', rtc (step 1000 (with_p2p (str "s"))) n n' /\ is_streaming n' = false /\ published n' <> [] /\
    calls n' !! 0%nat = Some StartCheck /\ exists t, tasks n' !! 0%nat = Some t /\ is_Some (task_act 1000 (with_p2p (str "s")) n' t true).
Proof.
  intros n. destruct (exec_all 1000 (with_p2p (str "s")) n [Stop; RunTask 0; RunTask 0]) as [n'|] eqn:He; [|vm_compute in He; discriminate He].
  pose proof (commands_steps _ _ _ _ _ He) as Hr.
  destruct (p2p_playback_never_ends 1000 (with_p2p (str "s")) n 0 [demo_segment (str "s")] n' eq_refl
    (ex_intro _ _ (conj eq_refl eq_refl)) Hr) as ((t & Ht & _ & Ha) & _ & Hcalls).
  exists n'. split; [exact Hr|]. split; [|split; [|split; [by apply (Hcalls 0%nat StartCheck)|by exists t]]].
  - vm_compute in He. injection He as <-. reflexivity.
  - vm_compute in He. injection He as <-. discriminate.
Defined.

Lemma brings_all su j l v bs : overlay su = true -> exists v', received_run 1000 su j l v (map (StreamData (str "s")) bs) [] v' /\
  v' = set_events v (events v ++ map (StreamData (str "s")) bs).
Proof.
  intros Ho. induction bs as [|b bs (v' & Hr & ->)] using rev_ind; [exists v; split; [constructor|rewrite app_nil_r; by destruct v]|].
  eexists. split; [rewrite map_app; by apply received_brings|]. cbn. by rewrite map_app, app_assoc.
Qed.

Lemma told_all id bs : from_utf8_lossy id = id -> omap (told id) (map (StreamData id) bs) = bs.
Proof. intros Hid. induction bs as [|b bs IH]; [done|]. cbn. rewrite decide_True by done. by rewrite IH. Qed.

Lemma stream_reaches_viewers_witness :
  let n := set_tasks (set_media new_node demo_media) [InitFirst] in
  exists n' r v ours, (2 <= r)%nat /\ rtc (step 1000 (with_p2p (str "s"))) n n' /\
    published n' = omap to_wire_bytes (rounds (str "s") [initialization (str "s") [9]; demo_segment (str "s")] [9] r) /\
    rtc (step 1000 browse) (set_listeners one_viewer [{| listens := Receiving (str "s"); stop_flag := false; loop_at := Checking; owner := Some 0%nat |}]) v /\
    sent v = sent one_viewer ++ ours /\ omap to_wire_bytes ours = published n'.
Proof.
  intros n. set (segs := [initialization (str "s") [9]; demo_segment (str "s")]).
  assert (Henc : Forall (fun s => is_Some (to_wire_bytes s)) (initialization (str "s") [9] :: segs)) by (apply list.Forall_true; intros s; by eexists).
  pose proof (stream_reaches_viewers 1000 (str "s") n 0 segs [9] eq_refl eq_refl eq_refl eq_refl Henc) as Hall.
  assert (Hal : alone 0 n) by (intros [|j] t Hne Ht; [by destruct Hne|by destruct j]).
  destruct (Hall n (rtc_refl _ _)) as (_ & _ & _ & _ & Hgo & _). destruct (Hgo Hal 2%nat) as (n' & r & Hr & Hrun & Hpub).
  assert (Hplay : rtc (play_step 1000 (str "s") 0) n n') by (eapply rtc_subrel; [|exact Hrun]; intros a b Hab; by left).
  destruct (Hall n' Hplay) as (more & m & Hmore & _ & _ & Hrecv).
  set (l := {| listens := Receiving (str "s"); stop_flag := false; loop_at := Checking; owner := Some 0%nat |}).
  set (v := set_listeners one_viewer [l]).
  destruct (brings_all browse 0%nat l v (published n') eq_refl) as (v1 & Hr1 & Hv1).
  assert (Hk : kept l v) by (split; [vm_compute; reflexivity|by left]).
  assert (Hev : events v = []) by (vm_compute; reflexivity).
  assert (Htold : omap (told (str "s")) (events v ++ map (StreamData (str "s")) (published n')) = omap to_wire_bytes more)
    by (rewrite Hev, app_nil_l, told_all by (vm_compute; reflexivity); exact Hmore).
  destruct (Hrecv 1000%nat browse 0%nat l v _ _ v1 eq_refl eq_refl Hk Htold Hr1) as (_ & _ & _ & _ & _ & (v2 & Hr2 & Hrest) & _).
  pose proof (received_trans _ _ _ _ _ _ _ _ _ _ _ Hr1 Hr2) as Hr12. rewrite app_nil_r in Hr12.
  destruct (Hrecv 1000%nat browse 0%nat l v _ _ v2 eq_refl eq_refl Hk Htold Hr12) as (ours & log & Hs & Hi & _ & _ & Hours).
  rewrite (interleaving_only _ _ Hi) in Hs. exists n', r, v2, ours. split; [exact Hr|].
  split; [eapply rtc_subrel; [|exact Hrun]; apply task_step_step|]. split; [exact Hpub|].
  split; [exact (received_steps _ _ _ _ _ _ _ _ Hr12)|]. split; [exact Hs|]. rewrite (Hours Hrest). symmetry. exact Hmore.
Defined.
