(* ===== verification/Feed.v ===== *)
(** * The task that feeds the viewers of a node

    The task that [run_web_viewer] of [node/src/main.rs] starts beside the web
    server: it starts the streaming of [Playback], takes a copy of the loaded
    segments, and sends their data to the viewers ten times over with
    [send_video_segment] and [send_audio_segment], while the task that
    [start_streaming] began plays the same segments. A step is one section
    between two waits; the times waited are not modelled. *)

From S2P Require Import Prelude Rust Format Segment ClientFrames Playback PlaybackRuns.

#[local] Open Scope Z_scope.

(** How often the task goes through the segments. *)
Definition LOOPS : nat := 10.

Definition is_video (self : StreamSegment) : bool := bool_decide (seg_media_type self = Video).
Definition is_audio (self : StreamSegment) : bool := bool_decide (seg_media_type self = Audio).

(** Where the task is; [loop_count] is the number of passes made. *)
Inductive feeder : Type :=
| Waking                                                                    (* the first two seconds *)
| Starting (j : nat)                                                        (* waits for the call [j] of [start_streaming] *)
| Fetching                                                                  (* wants the lock of the samples *)
| Looking (samples : list StreamSegment) (loop_count : nat)                 (* waits for a viewer *)
| Checking (samples : list StreamSegment) (loop_count index : nat)
| Sending (samples : list StreamSegment) (loop_count index : nat)           (* waited for the time of the segment *)
| Idling                                                                    (* no file was loaded *)
| FeedEnded.

Section Feed.
Context `{!Blake3, !Bincode WireSegment, !MetaJson} (capacity : nat) (su : Setup).

(** What the clock and the codecs contribute to a step. *)
Record Tick : Type := { codecs_ready : bool; meta_json : bytes; now_us : Z }.

(** The end of a pass. *)
Definition pass_made (samples : list StreamSegment) (loop_count : nat) : feeder :=
  if (LOOPS <=? S loop_count)%nat then FeedEnded else Looking samples (S loop_count).

(** [send_video_segment] or [send_audio_segment] of a segment's data. *)
Definition send_copy (n : Node) (segment : StreamSegment) (now_us : Z) : Node :=
  if is_video segment then send_live capacity su n (seg_data segment) (Some (seg_is_keyframe segment)) now_us
  else if is_audio segment then send_live capacity su n (seg_data segment) None now_us
  else n.

Definition feed_act (video_loaded : bool) (n : Node) (f : feeder) (t : Tick) : option (Node * feeder) :=
  match f with
  | Waking =>
      if codecs_ready t then
        let n := broadcast capacity n (metadata (segment_stream_id su) 0 (meta_json t) (now_us t)) in
        Some (set_calls n (calls n ++ [StartFlag]), Starting (length (calls n)))
      else Some (n, FeedEnded)
  | Starting j =>
      match calls n !! j with
      | Some (Returned true) => Some (n, if video_loaded then Fetching else Idling)
      | Some (Returned false) => Some (n, FeedEnded)
      | _ => None
      end
  | Fetching =>
      if existsb holds_samples (tasks n) then None
      else Some (n, match video_samples (media n) with Some samples => Looking samples 0 | None => FeedEnded end)
  | Looking samples loop_count => if receiver_count n =? 0 then None else Some (n, Checking samples loop_count 0)
  | Checking samples loop_count index =>
      match samples !! index with
      | Some segment =>
          if receiver_count n =? 0 then Some (n, pass_made samples loop_count)
          else if is_init segment then Some (n, Checking samples loop_count (S index))
          else Some (n, Sending samples loop_count index)
      | None => Some (n, pass_made samples loop_count)
      end
  | Sending samples loop_count index =>
      match samples !! index with
      | Some segment => Some (send_copy n segment (now_us t), Checking samples loop_count (S index))
      | None => None
      end
  | Idling | FeedEnded => None
  end.

(** The node with the task. [fed] is a note for the theorems: what the task has
    sent. *)
Record Served : Type := { server : Node; feeding : feeder; fed : list StreamSegment }.

Definition is_sending (f : feeder) : bool := match f with Sending _ _ _ => true | _ => false end.

Definition fed_by (s : Served) (n' : Node) : list StreamSegment :=
  fed s ++ (if is_sending (feeding s) then drop (length (sent (server s))) (sent n') else []).

Inductive served_step (video_loaded : bool) (s : Served) : Served -> Prop :=
| served_node n' : step capacity su (server s) n' ->
    served_step video_loaded s {| server := n'; feeding := feeding s; fed := fed s |}
| served_feed t n' f' : feed_act video_loaded (server s) (feeding s) t = Some (n', f') ->
    served_step video_loaded s {| server := n'; feeding := f'; fed := fed_by s n' |}.

(** The task does to the node what its calls may do. *)
Lemma feed_act_step video_loaded n f t n' f' : feed_act video_loaded n f t = Some (n', f') -> rtc (step capacity su) n n'.
Proof.
  destruct f as [|j| |samples l|samples l i|samples l i| |]; cbn [feed_act]; try done.
  - destruct (codecs_ready t); intros [= <- <-]; [|done]. apply rtc_once, step_start.
  - destruct (calls n !! j) as [[]|]; try done. destruct ok; by intros [= <- <-].
  - destruct (existsb _ _); [done|]. by intros [= <- <-].
  - destruct (_ =? _); [done|]. by intros [= <- <-].
  - destruct (samples !! i); [|by intros [= <- <-]]. destruct (_ =? _); [by intros [= <- <-]|]. destruct (is_init _); by intros [= <- <-].
  - destruct (samples !! i) as [segment|]; [|done]. intros [= <- <-]. unfold send_copy.
    destruct (is_video segment); [apply rtc_once, step_live|]. destruct (is_audio segment); [apply rtc_once, step_live|done].
Qed.

Lemma served_runs video_loaded s s' : rtc (served_step video_loaded) s s' -> rtc (step capacity su) (server s) (server s').
Proof.
  induction 1 as [s|s s1 s2 H1 _ IH]; [done|]. destruct H1 as [n' Hs|t n' f' Ha]; cbn [server] in IH.
  - by eapply rtc_l.
  - etrans; [by eapply feed_act_step|done].
Qed.

(** ** What it sends *)

(** What of the segments it sends: not the initialization, and no metadata. *)
Definition carried (segs : list StreamSegment) : list StreamSegment := List.filter (fun s => is_video s || is_audio s) segs.

(** A segment and its copy: new number and time, and no duration. *)
Record copy_of (original copy : StreamSegment) : Prop := {
  copy_data : seg_data copy = seg_data original;
  copy_type : seg_media_type copy = seg_media_type original;
  copy_key : is_video original = true -> seg_is_keyframe copy = seg_is_keyframe original;
  copy_stream : seg_stream_id copy = segment_stream_id su;
  copy_duration : duration_us copy = 0;
}.

Lemma carried_not_init s : is_video s || is_audio s = true -> is_init s = false.
Proof. unfold is_video, is_audio, is_init. by destruct (seg_media_type s). Qed.

Lemma send_live_sent n data key now : sent (send_live capacity su n data key now) = sent n ++
  (if receiver_count n =? 0 then [] else
   [match key with Some k => video (segment_stream_id su) (segment_sequence n) now 0 data k | None => audio (segment_stream_id su) (segment_sequence n) now 0 data end]).
Proof.
  unfold send_live. destruct (Z.eqb_spec (receiver_count n) 0) as [Hz|Hz]; [by rewrite app_nil_r|]. rewrite broadcast_sent.
  change (receiver_count (set_sequence n (segment_sequence n + 1))) with (receiver_count n).
  pose proof (zlen_nonneg (List.filter is_open (clients n))). unfold receiver_count in *. by destruct (Z.ltb_spec 0 (zlen (List.filter is_open (clients n)))); [|lia].
Qed.

(** Sending adds a copy, if somebody is there. *)
Lemma send_copy_sent n s now : exists more, sent (send_copy n s now) = sent n ++ more /\
  Forall2 copy_of (if receiver_count n =? 0 then [] else carried [s]) more.
Proof.
  unfold send_copy, carried. cbn [List.filter]. destruct (is_video s) eqn:Hv; [|destruct (is_audio s) eqn:Ha]; cbn [orb].
  - eexists. split; [apply send_live_sent|]. destruct (_ =? 0); [constructor|]. apply Forall2_cons. split; [|constructor].
    unfold is_video in Hv. apply bool_decide_eq_true in Hv. by constructor; rewrite ?Hv.
  - eexists. split; [apply send_live_sent|]. destruct (_ =? 0); [constructor|]. apply Forall2_cons. split; [|constructor].
    unfold is_audio in Ha. apply bool_decide_eq_true in Ha. constructor; rewrite ?Ha; try done. by rewrite Hv.
  - exists []. rewrite app_nil_r. split; [done|]. destruct (_ =? 0); constructor.
Qed.

(** ** What is sent stays sent *)

Definition log_grows (n n' : Node) : Prop := (exists more, sent n' = sent n ++ more) /\ segment_sequence n <= segment_sequence n'.

#[local] Instance log_grows_preorder : PreOrder log_grows.
Proof.
  split; [intros n; split; [exists []; by rewrite app_nil_r|lia]|].
  intros n1 n2 n3 [[m1 H1] Hs1] [[m2 H2] Hs2]. split; [|lia]. exists (m1 ++ m2). by rewrite H2, H1, app_assoc.
Qed.

Lemma log_same n n' : sent n' = sent n -> segment_sequence n' = segment_sequence n -> log_grows n n'.
Proof. intros Hs Hq. split; [exists []; by rewrite app_nil_r|lia]. Qed.

Lemma broadcast_log n s : log_grows n (broadcast capacity n s).
Proof. split; [eexists; apply broadcast_sent|]. unfold broadcast. destruct (0 <? _); cbn; lia. Qed.

#[local] Ltac logs := intros [= <- <-]; by apply log_same.

Lemma task_act_log n t ok n' t' : task_act capacity su n t ok = Some (n', t') -> log_grows n n'.
Proof.
  destruct t as [| | |segs i|segs i|segs| |]; cbn; try logs; try done.
  - destruct (publish_init_is su n ok) as [v ->]. logs.
  - destruct (existsb _ _); [done|]. destruct (video_samples _); logs.
  - destruct (segs !! i) as [s|]; [|logs]. destruct (is_init s); [logs|].
    destruct (_ && _); [logs|]. intros [= <- <-]. apply broadcast_log.
  - destruct (segs !! i) as [s|]; [|logs]. destruct (publish_is su n s ok) as [v ->]. logs.
  - destruct (publish_init_is su n ok) as [v ->]. logs.
Qed.

Lemma call_act_log n c ok n' c' : call_act su n c ok = Some (n', c') -> log_grows n n'.
Proof.
  destruct c as [| | | |segs|r]; cbn; try logs; try done.
  - destruct (overlay su); [|logs]. destruct (stream_id su); [|logs]. destruct ok; logs.
  - destruct (existsb _ _); [done|]. logs.
  - destruct (overlay su); [|logs]. destruct (stream_id su); logs.
  - destruct (existsb _ _); [done|]. logs.
Qed.

Lemma loop_act_log n l room n' p : loop_act capacity n l room = Some (n', p) -> log_grows n n'.
Proof.
  unfold loop_act. destruct (loop_at l) as [| |s|]; [logs| |intros [= <- <-]; apply broadcast_log|done].
  destruct (events n) as [|e es]; [done|]. intros Hact. injection Hact as Ha. revert Ha.
  destruct (listens l) as [target| |target], e as [id data|data|]; try logs.
  - destruct (str_eqb _ _); [|logs]. destruct (bin_deserialize data) as [w|]; [|logs]. destruct (is_init _); logs.
  - destruct (str_eqb _ _); [|logs]. destruct (owner l) as [i|]; [|logs]. destruct room; [|logs].
    unfold update_client. destruct (clients _ !! i); logs.
Qed.

Lemma send_live_log n data key now : log_grows n (send_live capacity su n data key now).
Proof.
  unfold send_live. destruct (receiver_count n =? 0); [done|]. etrans; [|apply broadcast_log]. split; [exists []; by rewrite app_nil_r|cbn; lia].
Qed.

Lemma step_log n n' : step capacity su n n' -> log_grows n n'.
Proof.
  intros Hs. destruct Hs as [kd req|i c Hi Hk Hph|i c acc Hi Hph|i c ms acc Hi Hph Hms|i c c' acc Hi Hph Hs|i c acc Hi Hph Hk Hstr Hpe Hmi|i c Hi Hor
    |i c sid room Hi Hk Hph|i c Hi Hk Hph|data Hov Hid|data m sg Hpr|data m e Hpr|js now| | |data key now|j c ok n' c' Hj Ha|k' t' ok n' t'' Hk Ha|k' l room n' p Hk Ha|e Hov];
    try by apply log_same.
  - unfold viewer_subscribes. destruct (requested c), (overlay su), (stream_id su); by apply log_same.
  - cbn zeta. destruct (at_phase c'); by apply log_same.
  - unfold relay_subscribes. destruct (overlay su); by apply log_same.
  - exact (broadcast_log n _).
  - apply send_live_log.
  - exact (call_act_log _ _ _ _ _ Ha).
  - exact (task_act_log _ _ _ _ _ Ha).
  - exact (loop_act_log _ _ _ _ _ Ha).
Qed.

Lemma runs_log n n' : rtc (step capacity su) n n' -> log_grows n n'.
Proof. induction 1 as [|n n1 n2 H1 _ IH]; [done|]. etrans; [by apply step_log|done]. Qed.

(** ** Ten passes *)

(** Whole passes, and the pass under way. *)
Definition so_far (segs : list StreamSegment) (loops : nat) (p : list StreamSegment) (copies : list StreamSegment) : Prop :=
  exists passes, length passes = loops /\ Forall (fun p => p `sublist_of` carried segs) passes /\ Forall2 copy_of (concat passes ++ p) copies.

Definition feed_ok (s : Served) : Prop :=
  match feeding s with
  | Waking | Starting _ | Fetching | Idling => fed s = []
  | Looking segs l => (l < LOOPS)%nat /\ so_far segs l [] (fed s)
  | Checking segs l i => (l < LOOPS)%nat /\ exists p, p `sublist_of` carried (take i segs) /\ so_far segs l p (fed s)
  | Sending segs l i => (l < LOOPS)%nat /\ is_Some (segs !! i) /\ exists p, p `sublist_of` carried (take i segs) /\ so_far segs l p (fed s)
  | FeedEnded => fed s = [] \/ exists segs, so_far segs LOOPS [] (fed s)
  end.

Lemma carried_take_S segs i s : segs !! i = Some s -> carried (take (S i) segs) = carried (take i segs) ++ carried [s].
Proof. intros Hs. unfold carried. by rewrite (take_S_r _ _ s), List.filter_app. Qed.

Lemma carried_take segs i : carried (take i segs) `sublist_of` carried segs.
Proof. rewrite <- (take_drop i segs) at 2. unfold carried. rewrite List.filter_app. by apply sublist_inserts_r. Qed.

Lemma pass_so_far segs l i p copies : (l < LOOPS)%nat -> p `sublist_of` carried (take i segs) -> so_far segs l p copies -> forall n,
  feed_ok {| server := n; feeding := pass_made segs l; fed := copies |}.
Proof.
  intros Hl Hp (passes & Hlen & Hsub & Hc) n. unfold pass_made, feed_ok.
  assert (Hnext : so_far segs (S l) [] copies).
  { exists (passes ++ [p]). split; [rewrite length_app; cbn; lia|]. split.
    - apply Forall_app_2; [done|]. apply list.Forall_cons. split; [|done]. etrans; [exact Hp|apply carried_take].
    - by rewrite concat_app, app_nil_r; cbn; rewrite app_nil_r. }
  destruct (Nat.leb_spec LOOPS (S l)) as [Hle|Hlt]; cbn [feeding fed].
  - right. exists segs. by replace LOOPS with (S l) by lia.
  - by split.
Qed.

(** The numbers given to the copies: each is greater than those before. *)
Definition numbered (s : Served) : Prop :=
  StronglySorted Z.lt (map seg_sequence (fed s)) /\ Forall (fun c => seg_sequence c < segment_sequence (server s)) (fed s) /\
  fed s `sublist_of` sent (server s).

Lemma send_copy_numbers n s now more : sent (send_copy n s now) = sent n ++ more ->
  (more = [] /\ segment_sequence n <= segment_sequence (send_copy n s now)) \/
  exists x, more = [x] /\ seg_sequence x = segment_sequence n /\ segment_sequence (send_copy n s now) = segment_sequence n + 1.
Proof.
  assert (Hnone : forall m, sent n = sent n ++ m -> m = []).
  { intros m Hm. rewrite <- (app_nil_r (sent n)) in Hm at 1. by apply app_inv_head in Hm. }
  assert (Hlive : forall data key, sent (send_live capacity su n data key now) = sent n ++ more ->
    (more = [] /\ segment_sequence n <= segment_sequence (send_live capacity su n data key now)) \/
    exists x, more = [x] /\ seg_sequence x = segment_sequence n /\ segment_sequence (send_live capacity su n data key now) = segment_sequence n + 1).
  { intros data key Hs. rewrite send_live_sent in Hs. apply app_inv_head in Hs as <-. unfold send_live.
    destruct (receiver_count n =? 0); [left; split; [done|lia]|right]. eexists. split; [done|]. split; [by destruct key|].
    unfold broadcast. by destruct (0 <? _). }
  unfold send_copy. destruct (is_video s); [apply Hlive|]. destruct (is_audio s); [apply Hlive|]. intros ->%Hnone. left. split; [done|lia].
Qed.

Lemma sorted_snoc {A} (R : A -> A -> Prop) l x : StronglySorted R l -> Forall (fun y => R y x) l -> StronglySorted R (l ++ [x]).
Proof.
  induction 1 as [|y l Hl IH Hy]; intros Hx; [by repeat constructor|]. apply list.Forall_cons in Hx as [Hyx Hx]. cbn. constructor; [by apply IH|].
  apply Forall_app_2; [done|]. by constructor.
Qed.

Lemma numbered_grows s n' : numbered s -> log_grows (server s) n' -> forall f, numbered {| server := n'; feeding := f; fed := fed s |}.
Proof.
  intros (Hs & Hb & Hsub) [[more Hm] Hq] f. split; [done|]. split; cbn [fed server].
  - eapply Forall_impl; [exact Hb|]. cbv beta. lia.
  - rewrite Hm. by apply sublist_inserts_r.
Qed.

Lemma numbered_sends s seg now f : numbered s ->
  numbered {| server := send_copy (server s) seg now; feeding := f; fed := fed s ++ drop (length (sent (server s))) (sent (send_copy (server s) seg now)) |}.
Proof.
  intros (Hs & Hb & Hsub). destruct (send_copy_sent (server s) seg now) as (more & Hm & _).
  pose proof (send_copy_numbers _ _ _ _ Hm) as Hn. unfold numbered. cbn [fed server]. rewrite Hm, drop_app_length.
  destruct Hn as [[-> Hle]|(x & -> & Hx & Hq)].
  - rewrite !app_nil_r. split; [done|]. split; [|done]. eapply Forall_impl; [exact Hb|]. cbv beta. lia.
  - rewrite map_app. split; [|split].
    + apply sorted_snoc; [done|]. apply list.Forall_forall. intros k (c & -> & Hc)%elem_of_map. rewrite list.Forall_forall in Hb. specialize (Hb c Hc). cbv beta in Hb. lia.
    + apply Forall_app_2; [eapply Forall_impl; [exact Hb|]; cbv beta; lia|]. constructor; [lia|constructor].
    + by apply sublist_app.
Qed.

Lemma feed_preserved video_loaded s s' : feed_ok s -> numbered s -> served_step video_loaded s s' -> feed_ok s' /\ numbered s'.
Proof.
  intros Hok Hnum [n' Hs|t n' f' Ha]; [split; [done|by apply numbered_grows, step_log]|].
  pose proof (runs_log _ _ (feed_act_step _ _ _ _ _ _ Ha)) as Hgrow. revert Ha. unfold fed_by, feed_ok in *.
  destruct (feeding s) as [|j| |segs l|segs l i|segs l i| |] eqn:Hf; cbn [feed_act is_sending]; try done; rewrite ?app_nil_r;
    try (intros Ha; split; [revert Ha|by apply numbered_grows]).
  - destruct (codecs_ready t); intros [= <- <-]; cbn; [done|by left].
  - destruct (calls _ !! j) as [[]|]; try done. destruct ok; intros [= <- <-]; cbn; [by destruct video_loaded|by left].
  - destruct (existsb _ _); [done|]. intros [= <- <-]. destruct (video_samples _) as [segs|]; cbn; [|by left].
    split; [unfold LOOPS; lia|]. rewrite Hok. by exists [].
  - destruct Hok as [Hl Hso]. destruct (_ =? _); [done|]. intros [= <- <-]. cbn. split; [done|]. exists []. by split; [apply sublist_nil_l|].
  - destruct Hok as (Hl & p & Hp & Hso). destruct (segs !! i) as [seg|] eqn:Hseg; [|intros [= <- <-]; by eapply pass_so_far].
    destruct (_ =? _); [intros [= <- <-]; by eapply pass_so_far|]. destruct (is_init seg) eqn:Hi; intros [= <- <-]; cbn [feeding fed]; (split; [done|]).
    + exists p. split; [|done]. rewrite (carried_take_S _ _ _ Hseg). by apply sublist_inserts_r.
    + split; [by exists seg|]. by exists p.
  - destruct Hok as (Hl & [seg Hseg] & p & Hp & Hso). rewrite Hseg. intros [= <- <-]. split; [|by apply numbered_sends].
    destruct (send_copy_sent (server s) seg (now_us t)) as (more & Hm & Hc). rewrite Hm, drop_app_length. cbn [feeding fed]. split; [done|].
    exists (p ++ (if receiver_count (server s) =? 0 then [] else carried [seg])). rewrite (carried_take_S _ _ _ Hseg). split.
    + apply sublist_app; [done|]. destruct (_ =? 0); [apply sublist_nil_l|done].
    + destruct Hso as (passes & Hlen & Hsub & Hcp). exists passes. split; [done|]. split; [done|]. rewrite app_assoc. by apply Forall2_app.
Qed.

Definition in_passes (s : Served) : Prop :=
  exists segs passes, (length passes <= LOOPS)%nat /\ Forall (fun p => p `sublist_of` carried segs) passes /\ Forall2 copy_of (concat passes) (fed s) /\
    (feeding s = FeedEnded -> fed s <> [] -> length passes = LOOPS).

Lemma feed_in_passes s : feed_ok s -> in_passes s.
Proof.
  intros Hok. unfold feed_ok in Hok.
  assert (Hpart : forall segs l p, (l < LOOPS)%nat -> p `sublist_of` carried segs -> so_far segs l p (fed s) -> feeding s <> FeedEnded -> in_passes s).
  { intros segs l p Hl Hp (passes & Hlen & Hall & Hc) Hne. exists segs, (passes ++ [p]). rewrite length_app, concat_app. cbn. rewrite app_nil_r.
    split; [lia|]. split; [by apply Forall_app_2; [|constructor]|]. by split. }
  assert (Hnone : fed s = [] -> in_passes s).
  { intros He. exists [], []. rewrite He. split; [cbn; lia|]. split; [constructor|]. by split; [constructor|]. }
  destruct (feeding s) as [|j| |segs l|segs l i|segs l i| |] eqn:Hf; try (by apply Hnone).
  - destruct Hok as [Hl Hso]. by apply (Hpart segs l []); [|apply sublist_nil_l| |].
  - destruct Hok as (Hl & p & Hp & Hso). apply (Hpart segs l p); [done| |done|done]. etrans; [exact Hp|apply carried_take].
  - destruct Hok as (Hl & _ & p & Hp & Hso). apply (Hpart segs l p); [done| |done|done]. etrans; [exact Hp|apply carried_take].
  - destruct Hok as [He|(segs & passes & Hlen & Hall & Hc)]; [by apply Hnone|]. rewrite app_nil_r in Hc. exists segs, passes.
    split; [lia|]. split; [done|]. by split.
Qed.

Lemma feed_runs_ok video_loaded s s' : feed_ok s -> numbered s -> rtc (served_step video_loaded) s s' -> feed_ok s' /\ numbered s'.
Proof. intros Hok Hn Hr. induction Hr as [s|s s1 s2 Hstep _ IH]; [done|]. destruct (feed_preserved _ _ _ Hok Hn Hstep). by apply IH. Qed.

(** Whatever else happens on the node, the task makes at most ten passes over one
    list of segments: in each it sends copies of some of them, in order, all
    under new numbers, and when it ends after sending anything it has made all
    ten. *)
Theorem feed_sends_passes video_loaded n s : rtc (served_step video_loaded) {| server := n; feeding := Waking; fed := [] |} s ->
  (exists segs passes, (length passes <= LOOPS)%nat /\ Forall (fun p => p `sublist_of` carried segs) passes /\ Forall2 copy_of (concat passes) (fed s) /\
    (feeding s = FeedEnded -> fed s <> [] -> length passes = LOOPS)) /\
  StronglySorted Z.lt (map seg_sequence (fed s)) /\ fed s `sublist_of` sent (server s).
Proof.
  intros Hr. destruct (feed_runs_ok video_loaded {| server := n; feeding := Waking; fed := [] |} s) as [Hok (Hsort & _ & Hsub)]; [done| |done|].
  - split; [constructor|]. split; [constructor|apply sublist_nil_l].
  - split; [by apply feed_in_passes|done].
Qed.

(** ** Together with the playback *)

(** Steps of a node that plays for viewers only, as long as somebody watches and
    nothing else is started or sent: those of the playing task and of the feeding
    task, and any other. *)
Inductive own_step (s : Served) : Served -> Prop :=
| own_task t ok n' t' : tasks (server s) = [t] -> task_act capacity su (server s) t ok = Some (n', t') ->
    own_step s {| server := set_tasks n' [t']; feeding := feeding s; fed := fed s |}
| own_feed t n' f' : feed_act true (server s) (feeding s) t = Some (n', f') ->
    own_step s {| server := n'; feeding := f'; fed := fed_by s n' |}.

Inductive other_step (s : Served) : Served -> Prop :=
| other_goes n' : step capacity su (server s) n' -> sent n' = sent (server s) -> tasks n' = tasks (server s) ->
    video_samples (media n') = video_samples (media (server s)) -> 0 < receiver_count n' ->
    other_step s {| server := n'; feeding := feeding s; fed := fed s |}.

(** A run, and how many of its steps are the two tasks' own. *)
Inductive watched_run (s0 : Served) : nat -> Served -> Prop :=
| watched_begins : watched_run s0 0 s0
| watched_waits k s s' : watched_run s0 k s -> other_step s s' -> watched_run s0 k s'
| watched_moves k s s' : watched_run s0 k s -> own_step s s' -> watched_run s0 (S k) s'.

(** All of these are steps of the node with the task. *)
Lemma watched_served s s' : own_step s s' \/ other_step s s' -> served_step true s s'.
Proof.
  intros [[t ok n' t' Ht Ha|t n' f' Ha]|[n' Hs _ _ _ _]]; [|by eapply served_feed|by apply served_node].
  apply served_node. replace [t'] with (<[0%nat := t']> (tasks n')).
  - eapply step_task; [by rewrite Ht|exact Ha].
  - by rewrite (proj1 (task_act_frame _ _ _ _ _ _ _ Ha)), Ht.
Qed.

Section Watched.
Context (segs : list StreamSegment) (base : list StreamSegment) (Hlocal : enable_p2p su = false).

Definition rounds (l : nat) : list StreamSegment := concat (repeat (carried segs) l).

Lemma rounds_S l : rounds (S l) = rounds l ++ carried segs.
Proof. unfold rounds. rewrite <- Nat.add_1_r, repeat_app, concat_app. cbn. by rewrite app_nil_r. Qed.

(** What the playing task has broadcast, and what is left to it. *)
Definition played_by (t : task) (played : list StreamSegment) : Prop :=
  match t with
  | Delayed | InitFirst | Locking => played = []
  | Playing s i => s = segs /\ (i <= length segs)%nat /\ played = shown (take i segs)
  | Publishing s i => s = segs /\ (i < length segs)%nat /\ played = shown (take (S i) segs)
  | Relooping _ => False
  | Finishing | Ended => played = shown segs
  end.

Definition task_left (t : task) : nat :=
  match t with
  | Delayed => 2 * length segs + 6 | InitFirst => 2 * length segs + 5 | Locking => 2 * length segs + 4
  | Playing _ i => 2 * (length segs - i) + 3 | Publishing _ i => 2 * (length segs - i) + 2
  | Relooping _ => 0 | Finishing => 1 | Ended => 0
  end.

(** What the feeding task has sent, and what is left to it. *)
Definition copied (f : feeder) (copies : list StreamSegment) : Prop :=
  match f with
  | Fetching => copies = []
  | Looking s l => s = segs /\ (l < LOOPS)%nat /\ Forall2 copy_of (rounds l) copies
  | Checking s l i => s = segs /\ (l < LOOPS)%nat /\ (i <= length segs)%nat /\ Forall2 copy_of (rounds l ++ carried (take i segs)) copies
  | Sending s l i => s = segs /\ (l < LOOPS)%nat /\ (i < length segs)%nat /\ Forall2 copy_of (rounds l ++ carried (take i segs)) copies
  | FeedEnded => Forall2 copy_of (rounds LOOPS) copies
  | Waking | Starting _ | Idling => False
  end.

Definition feed_left (f : feeder) : nat :=
  let pass := (2 * length segs + 4)%nat in
  match f with
  | Waking | Starting _ | Idling => 0
  | Fetching => LOOPS * pass + 1
  | Looking _ l => (LOOPS - l) * pass
  | Checking _ l i => (LOOPS - l - 1) * pass + 2 * (length segs - i) + 3
  | Sending _ l i => (LOOPS - l - 1) * pass + 2 * (length segs - i) + 2
  | FeedEnded => 0
  end.

Record both (s : Served) : Prop := {
  somebody : 0 < receiver_count (server s);
  loaded : video_samples (media (server s)) = Some segs;
  accounted : exists t played l, tasks (server s) = [t] /\ sent (server s) = base ++ l /\ interleaving played (fed s) l /\
    played_by t played /\ copied (feeding s) (fed s);
}.

Lemma send_live_count n data key now : receiver_count (send_live capacity su n data key now) = receiver_count n.
Proof. unfold send_live. destruct (_ =? 0); [done|]. by rewrite broadcast_count. Qed.

Lemma send_copy_same n s now : receiver_count (send_copy n s now) = receiver_count n /\ media (send_copy n s now) = media n /\ tasks (send_copy n s now) = tasks n.
Proof.
  assert (Hl : forall data key, receiver_count (send_live capacity su n data key now) = receiver_count n /\ media (send_live capacity su n data key now) = media n /\ tasks (send_live capacity su n data key now) = tasks n).
  { intros data key. split; [apply send_live_count|]. unfold send_live. destruct (_ =? 0); [done|].
    edestruct broadcast_same as (_ & Ht & _ & Hm & _). split; [by rewrite Hm|by rewrite Ht]. }
  unfold send_copy. destruct (is_video s); [apply Hl|]. destruct (is_audio s); [apply Hl|done].
Qed.

(** A step of the playing task. *)
Lemma task_both s t ok n' t' : both s -> tasks (server s) = [t] -> task_act capacity su (server s) t ok = Some (n', t') ->
  both {| server := set_tasks n' [t']; feeding := feeding s; fed := fed s |} /\ (task_left t' < task_left t)%nat.
Proof.
  intros [Hc Hv (t0 & played & l & Ht & Hs & Hi & Hp & Hf)] Ht' Ha. rewrite Ht in Ht'. injection Ht' as ->.
  assert (Hquiet : forall t1, played_by t1 played -> both {| server := set_tasks (server s) [t1]; feeding := feeding s; fed := fed s |}).
  { intros t1 Hp1. constructor; [done|done|]. by exists t1, played, l. }
  assert (Hpub : forall sg, publish su (server s) sg ok = server s) by (intros sg; unfold publish; by rewrite Hlocal).
  assert (Hinit : publish_init su (server s) ok = server s) by (unfold publish_init; destruct (stream_id su); [destruct (initialization_segment _)|]; by rewrite ?Hpub).
  destruct t as [| | |sg i|sg i|sg| |]; cbn [task_act] in Ha; cbn [played_by] in Hp.
  - injection Ha as <- <-. split; [by apply Hquiet|cbn; lia].
  - injection Ha as <- <-. rewrite Hinit. split; [by apply Hquiet|cbn; lia].
  - rewrite Ht in Ha. cbn in Ha. rewrite Hv in Ha. injection Ha as <- <-. split; [apply Hquiet|cbn; lia]. cbn. split; [done|]. split; [lia|done].
  - destruct Hp as (-> & Hi0 & ->). destruct (segs !! i) as [x|] eqn:Hx.
    + pose proof (lookup_lt_Some _ _ _ Hx) as Hlt. destruct (is_init x) eqn:Hix.
      * injection Ha as <- <-. split; [apply Hquiet|cbn; lia]. cbn. split; [done|]. split; [lia|]. rewrite (shown_take_S _ _ _ Hx).
        unfold shown at 3. cbn [List.filter]. rewrite Hix. cbn. by rewrite app_nil_r.
      * destruct (Z.eqb_spec (receiver_count (server s)) 0) as [|_]; [lia|]. cbn [andb] in Ha. injection Ha as <- <-.
        split; [|cbn; lia]. destruct (broadcast_same capacity (server s) x) as (_ & _ & _ & Hm & _).
        constructor; cbn [server]; [change (0 < receiver_count (broadcast capacity (server s) x)); by rewrite broadcast_count|by cbn; rewrite Hm|].
        exists (Publishing segs i), (shown (take i segs) ++ [x]), (l ++ [x]). split; [done|]. split.
        { cbn [sent set_tasks]. rewrite broadcast_sent, Hs. destruct (Z.ltb_spec 0 (receiver_count (server s))); [|lia]. by rewrite app_assoc. }
        split; [by apply interleaving_left|]. split; [|done]. cbn. split; [done|]. split; [done|]. rewrite (shown_take_S _ _ _ Hx).
        unfold shown at 3. cbn [List.filter]. by rewrite Hix.
    + rewrite Hlocal in Ha. injection Ha as <- <-. split; [apply Hquiet|cbn; lia]. cbn. by rewrite (take_all _ i Hx Hi0).
  - destruct Hp as (-> & Hi0 & ->). destruct (lookup_lt_is_Some_2 segs i Hi0) as [x Hx]. rewrite Hx in Ha. injection Ha as <- <-. rewrite Hpub.
    split; [apply Hquiet|cbn; lia]. cbn. split; [done|]. by split.
  - done.
  - injection Ha as <- <-. split; [|cbn; lia]. constructor; [done|done|]. by exists Ended, played, l.
  - done.
Qed.

(** A step of the feeding task. *)
Lemma feed_both s t n' f' : both s -> feed_act true (server s) (feeding s) t = Some (n', f') ->
  both {| server := n'; feeding := f'; fed := fed_by s n' |} /\ (feed_left f' < feed_left (feeding s))%nat.
Proof.
  intros [Hc Hv (t0 & played & l & Ht & Hs & Hi & Hp & Hf)] Ha. unfold fed_by.
  assert (Hquiet : forall f1, copied f1 (fed s) -> both {| server := server s; feeding := f1; fed := fed s |}).
  { intros f1 Hf1. constructor; [done|done|]. by exists t0, played, l. }
  assert (Hpass : forall l0, (l0 < LOOPS)%nat -> Forall2 copy_of (rounds l0 ++ carried segs) (fed s) ->
    both {| server := server s; feeding := pass_made segs l0; fed := fed s |} /\ (feed_left (pass_made segs l0) <= (LOOPS - l0 - 1) * (2 * length segs + 4))%nat).
  { intros l0 Hl0 Hcp. rewrite <- rounds_S in Hcp. unfold pass_made. destruct (Nat.leb_spec LOOPS (S l0)) as [Hle|Hgt].
    - split; [apply Hquiet; unfold copied; by replace LOOPS with (S l0) by lia|apply Nat.le_0_l].
    - split; [apply Hquiet; cbn; by split|cbn [feed_left]; nia]. }
  destruct (feeding s) as [|j| |sg l0|sg l0 i|sg l0 i| |]; cbn [feed_act is_sending] in *; try done; rewrite ?app_nil_r.
  - destruct (existsb _ _); [done|]. rewrite Hv in Ha. injection Ha as <- <-. split; [|cbn [feed_left]; nia]. apply Hquiet. cbn in Hf |- *.
    split; [done|]. split; [unfold LOOPS; lia|]. rewrite Hf. constructor.
  - destruct Hf as (-> & Hl0 & Hcp). destruct (_ =? 0); [done|]. injection Ha as <- <-. split; [|cbn [feed_left]; nia]. apply Hquiet. cbn.
    split; [done|]. split; [done|]. split; [lia|]. by rewrite app_nil_r.
  - destruct Hf as (-> & Hl0 & Hi0 & Hcp). destruct (Z.eqb_spec (receiver_count (server s)) 0) as [|_]; [lia|]. destruct (segs !! i) as [x|] eqn:Hx.
    + pose proof (lookup_lt_Some _ _ _ Hx) as Hlt. destruct (is_init x) eqn:Hix; injection Ha as <- <-; (split; [|cbn [feed_left]; nia]); apply Hquiet; cbn; split_and!; try done; try lia.
      rewrite (carried_take_S _ _ _ Hx). replace (carried [x]) with (@nil StreamSegment); [by rewrite app_nil_r|]. unfold carried. cbn.
      destruct (is_video x || is_audio x) eqn:Hca; [|done]. by rewrite (carried_not_init x Hca) in Hix.
    + injection Ha as <- <-. rewrite (take_all _ i Hx Hi0) in Hcp. destruct (Hpass l0 Hl0 Hcp) as [Hb Hleft]. split; [done|]. cbn [feed_left]. lia.
  - destruct Hf as (-> & Hl0 & Hi0 & Hcp). destruct (lookup_lt_is_Some_2 segs i Hi0) as [x Hx]. rewrite Hx in Ha. injection Ha as <- <-.
    split; [|cbn [feed_left]; nia]. destruct (send_copy_sent (server s) x (now_us t)) as (more & Hm & Hmore). rewrite Hm, drop_app_length.
    destruct (send_copy_same (server s) x (now_us t)) as (Hcount & Hmedia & Htasks). destruct (Z.eqb_spec (receiver_count (server s)) 0) as [|_]; [lia|].
    constructor; cbn [server feeding fed]; [by rewrite Hcount|by rewrite Hmedia|]. exists t0, played, (l ++ more).
    split; [by rewrite Htasks|]. split; [by rewrite Hm, Hs, app_assoc|]. split; [by apply interleaving_more|]. split; [done|]. cbn. split_and!; [done|done|lia|].
    rewrite (carried_take_S _ _ _ Hx), app_assoc. by apply Forall2_app.
Qed.

(** What is left to both. *)
Definition left (s : Served) : nat := (match tasks (server s) with [t] => task_left t | _ => 0 end + feed_left (feeding s))%nat.

Lemma feed_tasks n f t n' f' : feed_act true n f t = Some (n', f') -> tasks n' = tasks n.
Proof.
  destruct f as [|j| |sg l0|sg l0 i|sg l0 i| |]; cbn [feed_act]; try done.
  - destruct (codecs_ready t); intros [= <- _]; [|done]. edestruct broadcast_same as (_ & Hbt & _). cbn [tasks set_calls]. by rewrite Hbt.
  - destruct (calls _ !! j) as [[]|]; try done. destruct ok; by intros [= <- _].
  - destruct (existsb _ _); [done|]. by intros [= <- _].
  - destruct (_ =? _); [done|]. by intros [= <- _].
  - destruct (sg !! i); [|by intros [= <- _]]. destruct (_ =? _); [by intros [= <- _]|]. destruct (is_init _); by intros [= <- _].
  - destruct (sg !! i); [|done]. intros [= <- _]. apply send_copy_same.
Qed.

Lemma own_both s s' : both s -> own_step s s' -> both s' /\ (left s' < left s)%nat.
Proof.
  intros Hb [t ok n' t' Ht Ha|t n' f' Ha]; unfold left; cbn [server feeding tasks set_tasks].
  - destruct (task_both s t ok n' t' Hb Ht Ha) as [Hb' Hless]. rewrite Ht. split; [done|lia].
  - destruct (feed_both s t n' f' Hb Ha) as [Hb' Hless]. rewrite (feed_tasks _ _ _ _ _ Ha). split; [done|lia].
Qed.

Lemma other_both s s' : both s -> other_step s s' -> both s' /\ left s' = left s.
Proof.
  intros Hb [n' Hs Hsent Ht Hv Hc]. split; [|unfold left; cbn [server feeding]; by rewrite Ht].
  destruct Hb as [_ Hv0 (t0 & played & l & Ht0 & Hs0 & Hi & Hp & Hf)]. constructor; cbn [server feeding fed]; [done|by rewrite Hv|].
  exists t0, played, l. split; [by rewrite Ht|]. split; [by rewrite Hsent|done].
Qed.

Lemma watched_runs s0 k s : both s0 -> watched_run s0 k s -> both s /\ (k + left s <= left s0)%nat.
Proof.
  intros Hb. induction 1 as [|k s s' _ [IH Hk] Hs|k s s' _ [IH Hk] Hs]; [split; [done|lia]|..].
  - destruct (other_both s s' IH Hs). split; [done|lia].
  - destruct (own_both s s' IH Hs). split; [done|lia].
Qed.

(** While one of the two has not ended, one of them can go on. *)
Lemma watched_goes_on s t (m : Tick) : both s -> tasks (server s) = [t] ->
  (t = Ended /\ feeding s = FeedEnded) \/
  (exists n' t', task_act capacity su (server s) t true = Some (n', t')) \/
  (t = Ended /\ exists n' f', feed_act true (server s) (feeding s) m = Some (n', f')).
Proof.
  intros [Hc Hv (t0 & played & l & Ht & Hs & Hi & Hp & Hf)] Ht'. rewrite Ht in Ht'. injection Ht' as ->.
  assert (Hcase : t = Ended \/ t <> Ended) by (destruct t; first [by left|by right]). destruct Hcase as [->|Hne].
  - destruct (feeding s) as [|j| |sg l0|sg l0 i|sg l0 i| |] eqn:Hfs; cbn [copied] in Hf; try done; [| | | |by left]; right; right; (split; [done|]); cbn [feed_act].
    + rewrite Ht. cbn. by eexists _, _.
    + destruct (Z.eqb_spec (receiver_count (server s)) 0); [lia|]. by eexists _, _.
    + destruct (sg !! i); [|by eexists _, _]. destruct (_ =? _); [by eexists _, _|]. destruct (is_init _); by eexists _, _.
    + destruct Hf as (-> & _ & Hi0 & _). destruct (lookup_lt_is_Some_2 segs i Hi0) as [x ->]. by eexists _, _.
  - right. left. destruct t as [| | |sg i|sg i|sg| |]; cbn [task_act]; try done; try (by eexists _, _).
    + rewrite Ht. cbn. destruct (video_samples _); by eexists _, _.
    + destruct (sg !! i); [|by eexists _, _]. destruct (is_init _); [by eexists _, _|]. destruct (_ && _); by eexists _, _.
    + destruct (sg !! i); by eexists _, _.
Qed.

Lemma watched_ends (m : Tick) s : both s -> exists s', rtc own_step s s' /\ tasks (server s') = [Ended] /\ feeding s' = FeedEnded.
Proof.
  remember (left s) as k eqn:Hk. revert s Hk. induction k as [k IH] using lt_wf_ind. intros s Hk Hb.
  pose proof (accounted s Hb) as (t & _ & _ & Ht & _).
  assert (Hgo : forall s1, own_step s s1 -> exists s', rtc own_step s s' /\ tasks (server s') = [Ended] /\ feeding s' = FeedEnded).
  { intros s1 Ho. destruct (own_both s s1 Hb Ho) as [Hb1 Hless]. destruct (IH (left s1) ltac:(lia) s1 eq_refl Hb1) as (s' & Hr & Hend).
    exists s'. split; [|done]. by eapply rtc_l. }
  destruct (watched_goes_on s t m Hb Ht) as [[-> Hf]|[(n' & t' & Ha)|(-> & n' & f' & Ha)]]; [by exists s|..].
  - eapply Hgo. by eapply own_task.
  - eapply Hgo. by eapply own_feed.
Qed.
End Watched.

(** C14: Without the overlay, when a file was loaded, somebody watches throughout,
    and nothing else is started or broadcast: however the playback and the feed
    interleave, and whatever else happens, the two make only so many steps, they
    can come to their end by steps of their own from wherever they are, and when
    they have, what was broadcast is every segment but the initialization once,
    from the playback, merged with ten copies of every video and audio segment,
    from the feed. So who watches is sent each segment eleven times. (A pass during
    which nobody watches is cut short and counts as whole.) *)
Theorem every_segment_eleven_times n segs (m : Tick) : enable_p2p su = false -> tasks n = [Delayed] -> video_samples (media n) = Some segs ->
  0 < receiver_count n ->
  let s0 := {| server := n; feeding := Fetching; fed := [] |} in
  forall k s, watched_run s0 k s ->
    (k <= 22 * length segs + 47)%nat /\
    (exists s', rtc own_step s s' /\ tasks (server s') = [Ended] /\ feeding s' = FeedEnded) /\
    (tasks (server s) = [Ended] -> feeding s = FeedEnded ->
      exists copies, Forall2 copy_of (concat (repeat (carried segs) LOOPS)) copies /\
        exists log, sent (server s) = sent n ++ log /\ interleaving (shown segs) copies log).
Proof.
  intros Hlocal Ht Hv Hc s0 k s Hr.
  assert (Hb : both segs (sent n) s0).
  { constructor; [done|done|]. exists Delayed, [], []. cbn. split; [done|]. split; [by rewrite app_nil_r|]. by split; [constructor|]. }
  destruct (watched_runs segs (sent n) Hlocal s0 k s Hb Hr) as [Hb' Hk].
  assert (Hs0 : left segs s0 = (22 * length segs + 47)%nat) by (unfold left; cbn [server feeding s0]; rewrite Ht; unfold task_left, feed_left, LOOPS; lia).
  split; [lia|]. split; [by eapply watched_ends|]. intros Hend Hfed. destruct Hb' as [_ _ (t & played & log & Ht' & Hs & Hi & Hp & Hf)].
  rewrite Hend in Ht'. injection Ht' as <-. rewrite Hfed in Hf. cbn in Hp, Hf. subst played. exists (fed s). split; [exact Hf|]. by exists log.
Qed.
End Feed.

(** ** Scripts *)

Inductive served_command : Type := OnNode (cmd : command) | OnFeed (t : Tick).

Section Scripts.
Context `{!Blake3, !Bincode WireSegment, !MetaJson} (capacity : nat) (su : Setup).

Definition served_exec (s : Served) (cmd : served_command) : option Served :=
  match cmd with
  | OnNode cmd => match exec capacity su (server s) cmd with Some n => Some {| server := n; feeding := feeding s; fed := fed s |} | None => None end
  | OnFeed t =>
      match feed_act capacity su true (server s) (feeding s) t with
      | Some (n, f) => Some {| server := n; feeding := f; fed := fed_by s n |}
      | None => None
      end
  end.

Fixpoint served_exec_all (s : Served) (cmds : list served_command) : option Served :=
  match cmds with [] => Some s | cmd :: cmds => match served_exec s cmd with Some s => served_exec_all s cmds | None => None end end.

Lemma served_commands s cmds s' : served_exec_all s cmds = Some s' -> rtc (served_step capacity su true) s s'.
Proof.
  revert s. induction cmds as [|cmd cmds IH]; intros s; cbn [served_exec_all]; [by intros [= ->]|].
  destruct (served_exec s cmd) as [s1|] eqn:He; [|done]. intros Hr. eapply rtc_l; [|by apply IH].
  destruct cmd as [cmd|t]; cbn [served_exec] in He.
  - destruct (exec _ _ _ _) as [n|] eqn:Hc; [|done]. injection He as <-. apply served_node. by eapply command_step.
  - destruct (feed_act _ _ _ _ _ _) as [[n f]|] eqn:Ha; [|done]. injection He as <-. by eapply served_feed.
Qed.
End Scripts.

(** ** Witnesses *)

#[local] Existing Instance demo_blake3.
#[local] Existing Instance demo_bincode.
#[local] Instance no_json : MetaJson :=
  {| JsonValue := unit; parse_json _ := None; json_u64 _ _ := None; json_f64 _ _ := None |}.

Definition demo_tick : Tick := {| codecs_ready := true; meta_json := []; now_us := 5 |}.
Definition watched_node : Node := set_media one_viewer demo_media.

(** The task comes to send its first segment. *)
Definition first_copy : list served_command :=
  OnFeed demo_tick :: repeat (OnNode (RunCall 0)) 4 ++ repeat (OnFeed demo_tick) 6.

Definition fed_once : Served :=
  default {| server := new_node; feeding := Waking; fed := [] |}
    (served_exec_all 1000 (local_only (str "self")) {| server := watched_node; feeding := Waking; fed := [] |} first_copy).

Lemma feed_sends_passes_witness : map seg_data (fed fed_once) = [[1; 2; 3]] /\ fed fed_once `sublist_of` sent (server fed_once).
Proof.
  split; [vm_compute; reflexivity|].
  assert (Hr : rtc (served_step 1000 (local_only (str "self")) true) {| server := watched_node; feeding := Waking; fed := [] |} fed_once)
    by (apply (served_commands _ _ _ first_copy); vm_compute; reflexivity).
  exact (proj2 (proj2 (feed_sends_passes 1000 (local_only (str "self")) true watched_node fed_once Hr))).
Defined.

Lemma every_segment_eleven_times_witness :
  let n := set_tasks watched_node [Delayed] in
  exists s copies log, feeding s = FeedEnded /\ length copies = 10%nat /\ sent (server s) = sent n ++ log /\
    interleaving [demo_segment (str "s")] copies log.
Proof.
  intros n. assert (Hc : 0 < receiver_count n) by (vm_compute; reflexivity).
  assert (Hrun : forall s0 s1, rtc (own_step 1000 (local_only (str "self"))) s0 s1 -> exists k, watched_run 1000 (local_only (str "self")) s0 k s1).
  { intros s0 s1 Hr. revert s1 Hr. refine (rtc_ind_r _ _ _ _); [by exists 0%nat; constructor|]. intros y z _ Hs [k Hk]. exists (S k). by eapply watched_moves. }
  pose proof (every_segment_eleven_times 1000 (local_only (str "self")) n _ demo_tick eq_refl eq_refl eq_refl Hc) as Hall. cbv zeta in Hall.
  destruct (Hall 0%nat _ (watched_begins _ _ _)) as (_ & (s & Hr & Hend & Hf) & _). destruct (Hrun _ _ Hr) as [k Hk].
  destruct (proj2 (proj2 (Hall k s Hk)) Hend Hf) as (copies & Hcopies & log & Hs & Hi). exists s, copies, log. split; [exact Hf|]. split; [|split; [exact Hs|exact Hi]].
  apply Forall2_length in Hcopies. rewrite <- Hcopies. vm_compute. reflexivity.
Defined.
