(* ===== verification/Relay.v ===== *)
(** * Relaying a stream

    Models [core/src/overlay/relay/stream.rs] and [stats.rs]: the buffers that a
    relay keeps for one stream, what a late viewer is given, and the counters.
    Times are nanoseconds, arguments of the operations that read the clock. *)

From stdpp Require Import sorting.
From S2P Require Import Prelude Rust Format Hash Segment.

#[local] Open Scope Z_scope.

Definition DEFAULT_KEYFRAME_BUFFER_SIZE : nat := 3.

Section Relay.
Context {PeerId : Type} `{Countable PeerId}.

#[local] Abbreviation StreamChunk := (StreamChunk PeerId).

Record StreamRelay : Type := {
  relay_stream_id : StreamId;
  relay_publisher : PeerId;
  subscribers : gset PeerId;
  buffer : list StreamChunk;
  last_activity : Z;
  last_sequence : Z;
  init_segment : option StreamChunk;
  keyframe_buffer : list StreamChunk;
  max_keyframes : nat;
}.

Definition with_keyframe_buffer_size (id : StreamId) (publisher : PeerId) (max_keyframes : nat) (now : Z) : StreamRelay :=
  {| relay_stream_id := id; relay_publisher := publisher; subscribers := ∅; buffer := []; last_activity := now;
     last_sequence := 0; init_segment := None; keyframe_buffer := []; max_keyframes := max_keyframes |}.

Definition new_relay (id : StreamId) (publisher : PeerId) (now : Z) : StreamRelay :=
  with_keyframe_buffer_size id publisher DEFAULT_KEYFRAME_BUFFER_SIZE now.

(** The content types that mark an initialization segment, and a keyframe. *)
Definition is_init_chunk (chunk : StreamChunk) : bool :=
  str_eqb (content_type chunk) (str "init") || str_eqb (content_type chunk) (str "initialization").
Definition is_keyframe_chunk (chunk : StreamChunk) : bool :=
  chunk_is_keyframe chunk
  && (str_eqb (content_type chunk) (str "video") || starts_with (content_type chunk) (str "video/")).

Definition add_chunk (self : StreamRelay) (chunk : StreamChunk) (max_buffer_size : nat) (now : Z) : StreamRelay :=
  {| relay_stream_id := relay_stream_id self; relay_publisher := relay_publisher self; subscribers := subscribers self;
     buffer := trim_front max_buffer_size (buffer self ++ [chunk]);
     last_activity := now;
     last_sequence := if last_sequence self <? chunk_sequence chunk then chunk_sequence chunk else last_sequence self;
     init_segment := if is_init_chunk chunk then Some chunk else init_segment self;
     keyframe_buffer := if is_init_chunk chunk then keyframe_buffer self
                        else if is_keyframe_chunk chunk
                             then trim_front (max_keyframes self) (keyframe_buffer self ++ [chunk])
                             else keyframe_buffer self;
     max_keyframes := max_keyframes self |}.

Definition set_init_segment (self : StreamRelay) (chunk : StreamChunk) : StreamRelay :=
  {| relay_stream_id := relay_stream_id self; relay_publisher := relay_publisher self; subscribers := subscribers self;
     buffer := buffer self; last_activity := last_activity self; last_sequence := last_sequence self;
     init_segment := Some chunk; keyframe_buffer := keyframe_buffer self; max_keyframes := max_keyframes self |}.

Definition with_subscribers (self : StreamRelay) (v : gset PeerId) : StreamRelay :=
  {| relay_stream_id := relay_stream_id self; relay_publisher := relay_publisher self; subscribers := v;
     buffer := buffer self; last_activity := last_activity self; last_sequence := last_sequence self;
     init_segment := init_segment self; keyframe_buffer := keyframe_buffer self; max_keyframes := max_keyframes self |}.

Definition get_chunks_since (self : StreamRelay) (sequence : Z) : list StreamChunk :=
  List.filter (fun chunk => sequence <? chunk_sequence chunk) (buffer self).

Definition get_catchup_chunks (self : StreamRelay) : list StreamChunk :=
  match init_segment self with Some init => [init] | None => [] end ++
  match last (keyframe_buffer self) with
  | Some last_keyframe => last_keyframe :: get_chunks_since self (chunk_sequence last_keyframe)
  | None => []
  end.

(** [subscribers.insert] and [remove] say whether they changed the set. *)
Definition add_subscriber (self : StreamRelay) (peer_id : PeerId) : StreamRelay * bool :=
  (with_subscribers self ({[peer_id]} ∪ subscribers self), negb (bool_decide (peer_id ∈ subscribers self))).

Definition remove_subscriber (self : StreamRelay) (peer_id : PeerId) : StreamRelay * bool :=
  (with_subscribers self (subscribers self ∖ {[peer_id]}), bool_decide (peer_id ∈ subscribers self)).

Definition is_inactive (self : StreamRelay) (timeout now : Z) : bool := timeout <? Z.max 0 (now - last_activity self).
End Relay.

Arguments StreamRelay PeerId {_ _}.

(** ** Statistics *)

Record RelayStats : Type := {
  chunks_relayed : Z;
  bytes_relayed : Z;
  avg_chunk_size : Z;
  active_streams : Z;
  connected_peers : Z;
  incoming_bandwidth : Z;
  outgoing_bandwidth : Z;
  period_start : Z;
  per_stream_chunks : gmap rstring Z;
}.

Definition new_stats (now : Z) : RelayStats :=
  {| chunks_relayed := 0; bytes_relayed := 0; avg_chunk_size := 0; active_streams := 0; connected_peers := 0;
     incoming_bandwidth := 0; outgoing_bandwidth := 0; period_start := now; per_stream_chunks := ∅ |}.

Definition reset_period (self : RelayStats) (now : Z) : RelayStats :=
  {| chunks_relayed := chunks_relayed self; bytes_relayed := bytes_relayed self; avg_chunk_size := avg_chunk_size self;
     active_streams := active_streams self; connected_peers := connected_peers self; incoming_bandwidth := 0;
     outgoing_bandwidth := 0; period_start := now; per_stream_chunks := per_stream_chunks self |}.

Definition record_chunk (self : RelayStats) (chunk_size : Z) : RelayStats :=
  let chunks := chunks_relayed self + 1 in
  let total := bytes_relayed self + chunk_size in
  {| chunks_relayed := chunks; bytes_relayed := total;
     avg_chunk_size := if chunks =? 0 then avg_chunk_size self else total / chunks;
     active_streams := active_streams self; connected_peers := connected_peers self;
     incoming_bandwidth := incoming_bandwidth self; outgoing_bandwidth := outgoing_bandwidth self;
     period_start := period_start self; per_stream_chunks := per_stream_chunks self |}.

Definition record_chunk_for_stream (self : RelayStats) (chunk_size : Z) (stream_id : rstring) : RelayStats :=
  let self := record_chunk self chunk_size in
  {| chunks_relayed := chunks_relayed self; bytes_relayed := bytes_relayed self; avg_chunk_size := avg_chunk_size self;
     active_streams := active_streams self; connected_peers := connected_peers self;
     incoming_bandwidth := incoming_bandwidth self; outgoing_bandwidth := outgoing_bandwidth self;
     period_start := period_start self;
     per_stream_chunks := <[stream_id := default 0 (per_stream_chunks self !! stream_id) + 1]> (per_stream_chunks self) |}.

(** ** Properties *)

Section Properties.
Context {PeerId : Type} `{Countable PeerId}.

#[local] Abbreviation StreamChunk := (StreamChunk PeerId).

(** Chunks that arrive, each with the time it does. *)
Definition feed (self : StreamRelay PeerId) (max_buffer_size : nat) (cs : list (StreamChunk * Z)) : StreamRelay PeerId :=
  fold_left (fun self '(chunk, now) => add_chunk self chunk max_buffer_size now) cs self.

(** A keyframe as the relay takes it: an initialization segment is none. *)
Definition counts_as_keyframe (chunk : StreamChunk) : bool := negb (is_init_chunk chunk) && is_keyframe_chunk chunk.

Lemma feed_snoc self n cs c now : feed self n (cs ++ [(c, now)]) = add_chunk (feed self n cs) c n now.
Proof. unfold feed. by rewrite fold_left_app. Qed.

(** The buffers are windows over everything that was relayed: the buffer holds
    the last chunks up to its size, the keyframe buffer the last video keyframes
    up to its own, the initialization segment is the last one seen, and
    [last_sequence] the greatest number, in whatever order the chunks came. *)
Theorem relay_windows id publisher keyframes max_buffer_size t0 cs :
  let self := feed (with_keyframe_buffer_size id publisher keyframes t0) max_buffer_size cs in
  let all := map fst cs in
  buffer self = last_n max_buffer_size all /\
  keyframe_buffer self = last_n keyframes (List.filter counts_as_keyframe all) /\
  init_segment self = last (List.filter is_init_chunk all) /\
  last_sequence self = fold_left Z.max (map chunk_sequence all) 0.
Proof.
  cbn zeta.
  assert (Hmk : forall cs, max_keyframes (feed (with_keyframe_buffer_size id publisher keyframes t0) max_buffer_size cs) = keyframes).
  { intros l. induction l as [|[c now] l IH] using rev_ind; [done|]. by rewrite feed_snoc. }
  induction cs as [|[c now] cs (Hb & Hk & Hi & Hl)] using rev_ind; [by destruct max_buffer_size, keyframes|].
  rewrite feed_snoc, map_app. specialize (Hmk cs). revert Hb Hk Hi Hl Hmk.
  generalize (feed (with_keyframe_buffer_size id publisher keyframes t0) max_buffer_size cs) as self.
  intros self Hb Hk Hi Hl Hmk. cbn [map fst add_chunk buffer keyframe_buffer init_segment last_sequence].
  rewrite !List.filter_app, map_app, fold_left_app. cbn [map fold_left List.filter]. unfold counts_as_keyframe at 2.
  split_and!.
  - by rewrite trim_front_last_n, Hb, <- last_n_snoc_any.
  - rewrite Hk, Hmk. destruct (is_init_chunk c); cbn [negb andb]; [by rewrite app_nil_r|].
    destruct (is_keyframe_chunk c); [|by rewrite app_nil_r]. by rewrite trim_front_last_n, <- last_n_snoc_any.
  - destruct (is_init_chunk c); [by rewrite last_snoc|by rewrite app_nil_r].
  - rewrite Hl. destruct (Z.ltb_spec (fold_left Z.max (map chunk_sequence (map fst cs)) 0) (chunk_sequence c)); lia.
Qed.

Lemma filter_all_true {A} (p : A -> bool) l : Forall (fun x => p x = true) l -> List.filter p l = l.
Proof. induction 1 as [|x l Hx _ IH]; [done|]. cbn. by rewrite Hx, IH. Qed.

Lemma filter_all_false {A} (p : A -> bool) l : Forall (fun x => p x = false) l -> List.filter p l = [].
Proof. induction 1 as [|x l Hx _ IH]; [done|]. cbn. by rewrite Hx, IH. Qed.

(** What a late viewer of a stream whose numbers increase is given: the last
    initialization segment, the last keyframe and everything after it that the
    buffer still holds. That is all there is after the keyframe when it came
    within the buffer's size, and otherwise a gap follows the keyframe. *)
Theorem catchup_from_keyframe id publisher keyframes max_buffer_size t0 cs pre k post :
  let self := feed (with_keyframe_buffer_size id publisher keyframes t0) max_buffer_size cs in
  (0 < keyframes)%nat ->
  map fst cs = pre ++ k :: post -> StronglySorted Z.lt (map chunk_sequence (map fst cs)) ->
  counts_as_keyframe k = true -> Forall (fun c => counts_as_keyframe c = false) post ->
  get_catchup_chunks self =
    match last (List.filter is_init_chunk (map fst cs)) with Some init => [init] | None => [] end
    ++ k :: last_n max_buffer_size post.
Proof.
  intros self Hmk Hcs Hs Hk Hpost.
  destruct (relay_windows id publisher keyframes max_buffer_size t0 cs) as (Hb & Hkf & Hi & _). fold self in Hb, Hkf, Hi.
  unfold get_catchup_chunks. rewrite Hi, Hkf. f_equal. rewrite Hcs, List.filter_app. cbn [List.filter]. rewrite Hk.
  rewrite (filter_all_false _ post) by done.
  replace (last (last_n keyframes (List.filter counts_as_keyframe pre ++ [k]))) with (Some k).
  2:{ rewrite last_n_snoc by done. unfold last_n at 1. rewrite length_app. cbn [length].
      rewrite drop_app_le by (pose proof (length_last_n keyframes (List.filter counts_as_keyframe pre)); lia). by rewrite last_snoc. }
  f_equal. unfold get_chunks_since. rewrite Hb, Hcs.
  rewrite Hcs, !map_app in Hs. cbn [map] in Hs. apply StronglySorted_app in Hs as (Hlt & _ & Hgt).
  apply StronglySorted_inv in Hgt as [_ Hgt].
  assert (Hpre : Forall (fun c => (chunk_sequence k <? chunk_sequence c) = false) (pre ++ [k])).
  { apply list.Forall_app. split; [|apply Forall_singleton, Z.ltb_irrefl]. apply list.Forall_forall. intros c Hc. apply Z.ltb_ge.
    apply Z.lt_le_incl, Hlt; [apply elem_of_map; by exists c|by left]. }
  assert (Hafter : Forall (fun c => (chunk_sequence k <? chunk_sequence c) = true) post).
  { apply list.Forall_forall. intros c Hc. apply Z.ltb_lt. rewrite list.Forall_forall in Hgt. apply Hgt, elem_of_map. by exists c. }
  rewrite (app_assoc pre [k] post : pre ++ k :: post = (pre ++ [k]) ++ post).
  destruct (Nat.le_gt_cases max_buffer_size (length post)).
  - rewrite last_n_app by done. apply filter_all_true, Forall_drop, Hafter.
  - rewrite (last_n_all _ post) by lia. unfold last_n. rewrite drop_app_le by (rewrite !length_app in *; cbn [length]; lia).
    rewrite List.filter_app, (filter_all_false _ (drop _ (pre ++ [k]))), (filter_all_true _ post) by (done || by apply Forall_drop). done.
Qed.
End Properties.

(** The counters after a run of chunks, given by size and stream. *)
Theorem stats_of_run now rs :
  let self := fold_left (fun self r => record_chunk_for_stream self (fst r) (snd r)) rs (new_stats now) in
  let total := fold_left Z.add (map fst rs) 0 in
  chunks_relayed self = zlen rs /\ bytes_relayed self = total /\
  (rs <> [] -> avg_chunk_size self = total / zlen rs) /\
  forall id, default 0 (per_stream_chunks self !! id) = zlen (List.filter (fun r => str_eqb (snd r) id) rs).
Proof.
  induction rs as [|[n id] rs (Hc & Hb & _ & Hp)] using rev_ind; [split_and!; done|].
  rewrite fold_left_app, map_app, fold_left_app, zlen_app. cbn [fold_left map fst snd]. revert Hc Hb Hp.
  generalize (fold_left (fun self r => record_chunk_for_stream self (fst r) (snd r)) rs (new_stats now)) as self.
  intros self Hc Hb Hp. unfold record_chunk_for_stream, record_chunk. cbn [chunks_relayed bytes_relayed avg_chunk_size per_stream_chunks].
  change (zlen [(n, id)]) with 1. pose proof (zlen_nonneg rs). rewrite Hc, Hb.
  split_and!; [lia|lia| |].
  - intros _. destruct (Z.eqb_spec (zlen rs + 1) 0); [lia|done].
  - intros id'. rewrite List.filter_app, zlen_app. cbn [List.filter snd].
    destruct (str_eqb_spec id id') as [->|Hne].
    + rewrite lookup_insert_eq. cbn [default from_option]. by rewrite Hp.
    + rewrite lookup_insert_ne by done. rewrite Hp. change (zlen []) with 0. lia.
Qed.

(** ** Witnesses *)

Definition demo_chunk (n : Z) (content : string) (key : bool) : StreamChunk positive :=
  {| chunk_id := n; chunk_stream_id := [7]; chunk_data := [n]; chunk_timestamp := 33 * n; chunk_sequence := n;
     content_type := str content; chunk_is_keyframe := key; chunk_source := None |}.

Definition demo_chunks : list (StreamChunk positive * Z) :=
  [(demo_chunk 0 "init" true, 0); (demo_chunk 1 "video" true, 1); (demo_chunk 2 "video" false, 2);
   (demo_chunk 3 "video" false, 3); (demo_chunk 4 "video" true, 4); (demo_chunk 5 "video" false, 5)].

Lemma catchup_from_keyframe_witness :
  get_catchup_chunks (feed (with_keyframe_buffer_size [7] 1%positive 3 0) 100 demo_chunks)
    = [demo_chunk 0 "init" true; demo_chunk 4 "video" true; demo_chunk 5 "video" false].
Proof.
  refine (eq_trans (catchup_from_keyframe [7] 1%positive 3 100 0 demo_chunks
    (map fst (take 4 demo_chunks)) (demo_chunk 4 "video" true) [demo_chunk 5 "video" false] _ _ _ _ _) _); try reflexivity.
  - lia.
  - repeat constructor.
  - repeat constructor.
Defined.
