(* ===== verification/DataMessages.v ===== *)
(** * Stream data from the network

    Models the topics of [core/src/overlay/libp2p/topics.rs] and what the
    handler of a gossipsub message ([libp2p/event_handlers.rs]) makes of the
    data of a stream: the chunk it hands to the relay. *)

From S2P Require Import Prelude Rust Format Hash Segment Relay.

#[local] Open Scope Z_scope.

(** ** Topics *)

(** [s.split(sep)] of a character. *)
Fixpoint split_on (sep : Z) (s : rstring) : list rstring :=
  match s with
  | [] => [[]]
  | c :: s =>
      if c =? sep then [] :: split_on sep s
      else match split_on sep s with p :: ps => (c :: p) :: ps | [] => [[c]] end
  end.

Definition slash : Z := 47.

Section Topics.
Context `{HX : Hex}.

Definition stream_control (id : StreamId) : rstring := str "stream/" ++ hex_encode id ++ str "/control".
Definition stream_data (id : StreamId) : rstring := str "stream/" ++ hex_encode id ++ str "/data".

Definition parse_stream_id (topic : rstring) : option StreamId :=
  match split_on slash topic with
  | first :: second :: _ :: _ => if str_eqb first (str "stream") then hex_decode second else None
  | _ => None
  end.

Lemma split_on_piece sep p s : sep ∉ p -> split_on sep (p ++ sep :: s) = p :: split_on sep s.
Proof.
  induction p as [|c p IH]; intros Hp; cbn; [by rewrite Z.eqb_refl|].
  apply not_elem_of_cons in Hp as [Hc Hp]. destruct (Z.eqb_spec c sep); [done|]. by rewrite IH.
Qed.

Lemma split_on_last sep p : sep ∉ p -> split_on sep p = [p].
Proof.
  induction p as [|c p IH]; intros Hp; [done|]. apply not_elem_of_cons in Hp as [Hc Hp]. cbn.
  destruct (Z.eqb_spec c sep); [done|]. by rewrite IH.
Qed.

Lemma parse_topic id kind : Forall is_byte id -> slash ∉ kind ->
  parse_stream_id (str "stream/" ++ hex_encode id ++ slash :: kind) = Some id.
Proof.
  intros Hid Hk. unfold parse_stream_id. change (str "stream/") with (str "stream" ++ [slash]).
  rewrite <- app_assoc. cbn [app]. rewrite split_on_piece by (vm_compute; set_solver).
  rewrite split_on_piece by (by apply hex_encode_free). rewrite split_on_last by done.
  rewrite str_eqb_refl. by apply hex_roundtrip.
Qed.

(** A stream's topics name the stream: both read back as its identifier, and
    only the data topic ends in the way data topics do. *)
Theorem topics_roundtrip id : Forall is_byte id ->
  parse_stream_id (stream_data id) = Some id /\ parse_stream_id (stream_control id) = Some id /\
  ends_with (stream_data id) (str "/data") = true /\ ends_with (stream_control id) (str "/data") = false.
Proof.
  intros Hid. split_and!.
  - by apply (parse_topic id (str "data")); [|vm_compute; set_solver].
  - by apply (parse_topic id (str "control")); [|vm_compute; set_solver].
  - apply ends_with_spec. unfold stream_data. exists (str "stream/" ++ hex_encode id). by rewrite app_assoc.
  - apply not_true_iff_false. intros [t Ht]%ends_with_spec. unfold stream_control in Ht.
    apply (f_equal (@last Z)) in Ht. rewrite app_assoc, !last_app in Ht. vm_compute in Ht. discriminate.
Qed.
End Topics.

(** ** From message to chunk *)

Section Messages.
Context {PeerId : Type} `{Blake3, !Bincode WireSegment}.

(** The content type given to a chunk by its media type. *)
Definition network_content_type (media_type : option MediaType) : rstring :=
  match media_type with
  | Some Video => str "video/h264"
  | Some Audio => str "audio/opus"
  | Some Metadata => str "application/json"
  | Some Initialization => str "video/mp4"
  | None => str "application/octet-stream"
  end.

(** The chunk for the data of a stream received from [source]; none when the
    content hash does not match. [now_secs] is the time of day. *)
Definition chunk_of_message (stream_id : StreamId) (data : bytes) (source : PeerId) (now_secs : Z)
  : option (StreamChunk PeerId) :=
  let chunk sequence timestamp is_keyframe content :=
    {| chunk_id := sequence; chunk_stream_id := stream_id; chunk_data := data; chunk_timestamp := timestamp;
       chunk_sequence := sequence; content_type := content; chunk_is_keyframe := is_keyframe;
       chunk_source := Some source |} in
  match bin_deserialize data with
  | Some wire =>
      if negb (verify_integrity wire) then None
      else Some (chunk (wire_sequence wire) (wire_pts_us wire / 1000) (wire_is_keyframe wire)
                   (network_content_type (from_u8 (wire_media_type wire))))
  | None => Some (chunk 0 now_secs false (str "application/octet-stream"))
  end.

Lemma network_type_not_init t : str_eqb (network_content_type t) (str "init") = false /\
  str_eqb (network_content_type t) (str "initialization") = false.
Proof. by destruct t as [[]|]. Qed.

Lemma network_chunk_not_init id data source now c : chunk_of_message id data source now = Some c -> is_init_chunk c = false.
Proof.
  unfold chunk_of_message, is_init_chunk. destruct (bin_deserialize data) as [w|].
  - destruct (verify_integrity w); cbn [negb]; [|done]. intros [= <-]. cbn [content_type].
    by destruct (network_type_not_init (from_u8 (wire_media_type w))) as [-> ->].
  - by intros [= <-].
Qed.
End Messages.

(** A relay that is fed from the network never has an initialization segment,
    so late viewers are never given one: the handler labels initialization
    segments as video, and with their key flag the relay takes each for a
    keyframe, which pushes the video keyframes out of their buffer and is what
    catching up starts from until the next one. *)
Theorem network_init_is_lost {PeerId} `{Countable PeerId} `{Blake3, !Bincode WireSegment}
    id publisher keyframes max_buffer_size t0 (msgs : list (bytes * PeerId * Z * Z)) :
  let chunks := omap (fun '(data, source, secs, now) => (fun c => (c, now)) <$> chunk_of_message id data source secs) msgs in
  let self := feed (with_keyframe_buffer_size id publisher keyframes t0) max_buffer_size chunks in
  init_segment self = None /\
  forall stream data sent source secs, to_wire_bytes (initialization stream data) = Some sent ->
    exists c, chunk_of_message (PeerId := PeerId) id sent source secs = Some c /\ counts_as_keyframe c = true /\
      is_init_chunk c = false /\ chunk_data c = sent.
Proof.
  intros chunks self. split.
  - destruct (relay_windows id publisher keyframes max_buffer_size t0 chunks) as (_ & _ & Hi & _). fold self in Hi. rewrite Hi.
    rewrite filter_all_false; [done|]. apply list.Forall_forall. intros c ([c' now] & -> & Hin)%elem_of_map. cbn [fst].
    apply list_elem_of_omap in Hin as ([[[data source] secs] now'] & _ & (c & Hc & [= <- <-])%fmap_Some).
    by apply network_chunk_not_init in Hc.
  - intros stream data sent source secs Hs. destruct (wire_of_segment_valid (initialization stream data)) as (Hv & _).
    unfold chunk_of_message. rewrite (bin_roundtrip _ _ Hs), Hv. cbn [negb]. eexists. split_and!; [done|by vm_compute|by vm_compute|done].
Qed.

(** ** Witnesses *)

Section Witness.
#[local] Existing Instance demo_blake3.
#[local] Existing Instance demo_bincode.

Lemma topics_roundtrip_witness :
  parse_stream_id (HX := lowercase_hex) (stream_data (HX := lowercase_hex) [7; 255]) = Some [7; 255].
Proof. apply (topics_roundtrip (HX := lowercase_hex) [7; 255]). repeat constructor; done. Defined.

Lemma network_init_is_lost_witness :
  exists c, chunk_of_message (PeerId := positive) [7] (demo_encode (wire_of_segment (initialization [7] [1]))) 1%positive 0 = Some c /\
    counts_as_keyframe c = true /\ is_init_chunk c = false /\
    chunk_data c = demo_encode (wire_of_segment (initialization [7] [1])).
Proof.
  destruct (network_init_is_lost (PeerId := positive) [7] 1%positive 3 100 0 []) as [_ H].
  exact (H [7] [1] _ 1%positive 0 eq_refl).
Defined.
End Witness.
