(* ===== verification/RelayNode.v ===== *)
(** * The relay node

    Models [core/src/overlay/relay/node.rs]: the two processors that take chunks
    and messages off their channels, the statistics reporter, the cleanup of
    inactive streams, and the calls that start, stop and feed them. The tasks
    run concurrently; a step of the node is one critical section, or one call of
    the chunk handler, of one task. Aborting a task ends it at once. *)

From S2P Require Import Prelude Rust Hash Segment Relay.

#[local] Open Scope Z_scope.

Section Node.
Context {PeerId : Type} `{Countable PeerId}.

#[local] Abbreviation StreamChunk := (StreamChunk PeerId).
#[local] Abbreviation Streams := (gmap StreamId (StreamRelay PeerId)).

(** ** State *)

(** The fields of [RelayConfig] that the node reads, besides those that only
    choose intervals and logging. *)
Record RelayConfig : Type := {
  max_buffer_size : nat;
  max_chunk_size : Z;
  inactivity_timeout : Z;
  enable_hop_removal : bool;
}.

Inductive RelayMessage : Type :=
| Chunk (chunk : StreamChunk)
| AddStream (id : StreamId) (publisher : PeerId)
| RemoveStream (id : StreamId)
| AddSubscriber (id : StreamId) (peer : PeerId)
| RemoveSubscriber (id : StreamId) (peer : PeerId)
| RequestChunks (id : StreamId) (peer : PeerId) (sequence : Z)
| Stop.

(** Where a processor is. Before the node first starts, the node keeps the
    receiver of its channel; when the processor ends, the receiver is gone. *)
Inductive processor : Type :=
| NotStarted
| Waiting
| Storing (chunk : StreamChunk)
| Sending (chunk : StreamChunk) (rest : list PeerId)
| Answering (peer : PeerId) (rest : list StreamChunk)
| Ended.

(** Where a periodic task is: at the test of its loop, waiting for a tick, or
    removing the streams it found. *)
Inductive periodic : Type :=
| NoTask
| Testing
| Ticking
| Removing (ids : list StreamId).

Record RelayNode : Type := {
  local_peer_id : PeerId;
  config : RelayConfig;
  streams : Streams;
  stats : RelayStats;
  has_handler : bool;
  running : bool;
  starting : bool;
  chunk_channel : list StreamChunk;
  message_channel : list RelayMessage;
  chunk_processor : processor;
  message_processor : processor;
  stats_reporter : periodic;
  stream_cleanup : periodic;
}.

Definition new_node (local : PeerId) (config : RelayConfig) (now : Z) : RelayNode :=
  {| local_peer_id := local; config := config; streams := ∅; stats := new_stats now; has_handler := false;
     running := false; starting := false; chunk_channel := []; message_channel := []; chunk_processor := NotStarted;
     message_processor := NotStarted; stats_reporter := NoTask; stream_cleanup := NoTask |}.

Definition with_streams (n : RelayNode) (s : Streams) (st : RelayStats) : RelayNode :=
  {| local_peer_id := local_peer_id n; config := config n; streams := s; stats := st; has_handler := has_handler n;
     running := running n; starting := starting n; chunk_channel := chunk_channel n; message_channel := message_channel n;
     chunk_processor := chunk_processor n; message_processor := message_processor n;
     stats_reporter := stats_reporter n; stream_cleanup := stream_cleanup n |}.

Definition with_channels (n : RelayNode) (cs : list StreamChunk) (ms : list RelayMessage) : RelayNode :=
  {| local_peer_id := local_peer_id n; config := config n; streams := streams n; stats := stats n;
     has_handler := has_handler n; running := running n; starting := starting n; chunk_channel := cs; message_channel := ms;
     chunk_processor := chunk_processor n; message_processor := message_processor n;
     stats_reporter := stats_reporter n; stream_cleanup := stream_cleanup n |}.

(** The two processors, by name. *)
Inductive worker : Type := ChunkWorker | MessageWorker.

#[export] Instance worker_eq_dec : EqDecision worker.
Proof. solve_decision. Defined.

Definition at_ (n : RelayNode) (w : worker) : processor :=
  match w with ChunkWorker => chunk_processor n | MessageWorker => message_processor n end.

Definition move (n : RelayNode) (w : worker) (p : processor) : RelayNode :=
  {| local_peer_id := local_peer_id n; config := config n; streams := streams n; stats := stats n;
     has_handler := has_handler n; running := running n; starting := starting n;
     chunk_channel := chunk_channel n; message_channel := message_channel n;
     chunk_processor := match w with ChunkWorker => p | MessageWorker => chunk_processor n end;
     message_processor := match w with ChunkWorker => message_processor n | MessageWorker => p end;
     stats_reporter := stats_reporter n; stream_cleanup := stream_cleanup n |}.

Definition move_tasks (n : RelayNode) (reporter cleanup : periodic) : RelayNode :=
  {| local_peer_id := local_peer_id n; config := config n; streams := streams n; stats := stats n;
     has_handler := has_handler n; running := running n; starting := starting n;
     chunk_channel := chunk_channel n; message_channel := message_channel n;
     chunk_processor := chunk_processor n; message_processor := message_processor n;
     stats_reporter := reporter; stream_cleanup := cleanup |}.

Definition with_flags (n : RelayNode) (handler run start : bool) : RelayNode :=
  {| local_peer_id := local_peer_id n; config := config n; streams := streams n; stats := stats n;
     has_handler := handler; running := run; starting := start;
     chunk_channel := chunk_channel n; message_channel := message_channel n;
     chunk_processor := chunk_processor n; message_processor := message_processor n;
     stats_reporter := stats_reporter n; stream_cleanup := stream_cleanup n |}.

(** ** The parts of the work *)

Inductive OverlayError : Type :=
| StreamNotFound | StreamAlreadyExists | PeerNotFound | AlreadyRunning | NotRunning | RelayError.

Definition set_active (st : RelayStats) (s : Streams) : RelayStats :=
  {| chunks_relayed := chunks_relayed st; bytes_relayed := bytes_relayed st; avg_chunk_size := avg_chunk_size st;
     active_streams := Z.of_nat (size s); connected_peers := connected_peers st;
     incoming_bandwidth := incoming_bandwidth st; outgoing_bandwidth := outgoing_bandwidth st;
     period_start := period_start st; per_stream_chunks := per_stream_chunks st |}.

Definition set_connected (st : RelayStats) (v : Z) : RelayStats :=
  {| chunks_relayed := chunks_relayed st; bytes_relayed := bytes_relayed st; avg_chunk_size := avg_chunk_size st;
     active_streams := active_streams st; connected_peers := v;
     incoming_bandwidth := incoming_bandwidth st; outgoing_bandwidth := outgoing_bandwidth st;
     period_start := period_start st; per_stream_chunks := per_stream_chunks st |}.

Definition add_stream_internal (s : Streams) (st : RelayStats) (id : StreamId) (publisher : PeerId) (now : Z)
  : Streams * RelayStats * result unit OverlayError :=
  match s !! id with
  | Some _ => (s, st, RErr StreamAlreadyExists)
  | None => let s := <[id := new_relay id publisher now]> s in (s, set_active st s, ROk tt)
  end.

Definition remove_stream_internal (s : Streams) (st : RelayStats) (id : StreamId)
  : Streams * RelayStats * result unit OverlayError :=
  match s !! id with
  | None => (s, st, RErr StreamNotFound)
  | Some _ => let s := delete id s in (s, set_active st s, ROk tt)
  end.

Definition add_subscriber_internal (s : Streams) (st : RelayStats) (id : StreamId) (peer : PeerId)
  : Streams * RelayStats * result unit OverlayError :=
  match s !! id with
  | None => (s, st, RErr StreamNotFound)
  | Some stream => (<[id := fst (add_subscriber stream peer)]> s, set_connected st (connected_peers st + 1), ROk tt)
  end.

Definition remove_subscriber_internal (s : Streams) (st : RelayStats) (id : StreamId) (peer : PeerId)
  : Streams * RelayStats * result unit OverlayError :=
  match s !! id with
  | None => (s, st, RErr StreamNotFound)
  | Some stream =>
      let s := <[id := fst (remove_subscriber stream peer)]> s in
      if snd (remove_subscriber stream peer)
      then (s, if 0 <? connected_peers st then set_connected st (connected_peers st - 1) else st, ROk tt)
      else (s, st, RErr PeerNotFound)
  end.

(** The chunk as it is sent on: hop removal puts the relay in the source's place. *)
Definition relay_chunk (local : PeerId) (hop_removal : bool) (c : StreamChunk) : StreamChunk :=
  if hop_removal then
    {| chunk_id := chunk_id c; chunk_stream_id := chunk_stream_id c; chunk_data := chunk_data c;
       chunk_timestamp := chunk_timestamp c; chunk_sequence := chunk_sequence c; content_type := content_type c;
       chunk_is_keyframe := chunk_is_keyframe c; chunk_source := Some local |}
  else c.

(** The second critical section of [process_chunk_internal]: the stream takes
    the chunk, and its subscribers of the moment are returned. *)
Definition store_chunk (n : RelayNode) (c : StreamChunk) (now : Z) : option (RelayNode * gset PeerId) :=
  match streams n !! chunk_stream_id c with
  | None => None
  | Some stream =>
      let stream := add_chunk stream c (max_buffer_size (config n)) now in
      Some (with_streams n (<[chunk_stream_id c := stream]> (streams n)) (stats n), subscribers stream)
  end.

(** Its first one. *)
Definition count_chunk (st : RelayStats) (c : StreamChunk) : RelayStats :=
  record_chunk_for_stream st (zlen (chunk_data c)) (show_stream_id (chunk_stream_id c)).

(** What is due to a peer that asks for the chunks after a number. *)
Definition requested (n : RelayNode) (id : StreamId) (sequence : Z) : option (list StreamChunk) :=
  match streams n !! id with
  | Some stream => if has_handler n then Some (get_chunks_since stream sequence) else None
  | None => None
  end.

(** A round of the statistics reporter. *)
Definition report_stats (n : RelayNode) (now : Z) : RelayStats :=
  let peers : gset PeerId :=
    map_fold (fun _ stream acc => {[relay_publisher stream]} ∪ subscribers stream ∪ acc) ∅ (streams n) in
  let st := set_connected (set_active (stats n) (streams n)) (Z.of_nat (size peers)) in
  let elapsed := Z.max 0 (now - period_start st) / 1000000000 in
  let st :=
    {| chunks_relayed := chunks_relayed st; bytes_relayed := bytes_relayed st; avg_chunk_size := avg_chunk_size st;
       active_streams := active_streams st; connected_peers := connected_peers st;
       incoming_bandwidth := incoming_bandwidth st;
       outgoing_bandwidth := if 0 <? elapsed then bytes_relayed st / elapsed else outgoing_bandwidth st;
       period_start := period_start st; per_stream_chunks := per_stream_chunks st |} in
  reset_period st now.

(** The streams the cleanup finds inactive. *)
Definition find_inactive `{!HashOrder StreamId} (n : RelayNode) (now : Z) : list StreamId :=
  map fst (List.filter (fun '(_, stream) => is_inactive stream (inactivity_timeout (config n)) now) (map_iter (streams n))).

(** [start] before it sets the flag: the receivers that are still there go to
    new processors. *)
Definition spawn_processor (p : processor) : processor := match p with NotStarted => Waiting | _ => p end.

Definition start (n : RelayNode) : RelayNode * result unit OverlayError :=
  if running n then (n, RErr AlreadyRunning)
  else
    let n := move n ChunkWorker (spawn_processor (chunk_processor n)) in
    let n := move n MessageWorker (spawn_processor (message_processor n)) in
    (with_flags (move_tasks n Testing Testing) (has_handler n) (running n) true, ROk tt).

(** An aborted processor drops its receiver; one that was never started has none
    to drop. *)
Definition abort_processor (p : processor) : processor := match p with NotStarted => NotStarted | _ => Ended end.

Definition stop (n : RelayNode) : RelayNode * result unit OverlayError :=
  if negb (running n) then (n, RErr NotRunning)
  else
    let n := move n ChunkWorker (abort_processor (chunk_processor n)) in
    let n := move n MessageWorker (abort_processor (message_processor n)) in
    (with_flags (move_tasks n NoTask NoTask) (has_handler n) false (starting n), ROk tt).

(** The channels hold a hundred entries; a sender waits for room. Sending fails
    when the receiver is gone. *)
Definition CHANNEL_CAPACITY : Z := 100.

Definition closed (p : processor) : bool := match p with Ended => true | _ => false end.

Definition publish_chunk (n : RelayNode) (c : StreamChunk) : option (RelayNode * result unit OverlayError) :=
  if max_chunk_size (config n) <? zlen (chunk_data c) then Some (n, RErr RelayError)
  else if closed (chunk_processor n) then Some (n, RErr RelayError)
  else if zlen (chunk_channel n) <? CHANNEL_CAPACITY
       then Some (with_channels n (chunk_channel n ++ [c]) (message_channel n), ROk tt)
       else None.

(** The calls that send a message: [add_stream], [remove_stream],
    [add_subscriber], [remove_subscriber] and [request_chunks]. *)
Definition send_message (n : RelayNode) (m : RelayMessage) : option (RelayNode * result unit OverlayError) :=
  if closed (message_processor n) then Some (n, RErr RelayError)
  else if zlen (message_channel n) <? CHANNEL_CAPACITY
       then Some (with_channels n (chunk_channel n) (message_channel n ++ [m]), ROk tt)
       else None.

Definition set_chunk_handler (n : RelayNode) : RelayNode * result unit OverlayError :=
  if running n then (n, RErr AlreadyRunning) else (with_flags n true (running n) (starting n), ROk tt).

Definition get_stream_info (n : RelayNode) (id : StreamId) : option (PeerId * gset PeerId) :=
  (fun stream => (relay_publisher stream, subscribers stream)) <$> streams n !! id.

(** The messages that one critical section handles: the new streams and
    counters. *)
Definition handle_message (n : RelayNode) (m : RelayMessage) (now : Z) : RelayNode :=
  let '(s, st, _) :=
    match m with
    | AddStream id publisher => add_stream_internal (streams n) (stats n) id publisher now
    | RemoveStream id => remove_stream_internal (streams n) (stats n) id
    | AddSubscriber id peer => add_subscriber_internal (streams n) (stats n) id peer
    | RemoveSubscriber id peer => remove_subscriber_internal (streams n) (stats n) id peer
    | Chunk c => (streams n, count_chunk (stats n) c, ROk tt)
    | _ => (streams n, stats n, ROk tt)
    end in
  with_streams n s st.

(** Where the message processor is after it has received a message. *)
Definition after_message (n : RelayNode) (m : RelayMessage) : processor :=
  match m with
  | Chunk c => Storing c
  | RequestChunks id peer sequence =>
      match requested n id sequence with Some chunks => Answering peer chunks | None => Waiting end
  | Stop => Ended
  | _ => Waiting
  end.

(** ** Steps *)

(** What can be seen of a step: a chunk accepted into the channel, stored for
    the subscribers of the moment, handed to the handler for a subscriber, or
    handed to it for a peer that asked. *)
Inductive event : Type :=
| Published (c : StreamChunk)
| Stored (w : worker) (c : StreamChunk) (subs : gset PeerId)
| Relayed (w : worker) (p : PeerId) (c : StreamChunk)
| Answered (p : PeerId) (c : StreamChunk).

Inductive step (n : RelayNode) : list event -> RelayNode -> Prop :=
(* the calls *)
| step_publish c n' r : publish_chunk n c = Some (n', r) ->
    step n (match r with ROk _ => [Published c] | RErr _ => [] end) n'
| step_send m n' r : (forall c, m <> Chunk c) -> m <> Stop -> send_message n m = Some (n', r) -> step n [] n'
| step_set_handler : step n [] (fst (set_chunk_handler n))
| step_start : starting n = false -> step n [] (fst (start n))
| step_started : starting n = true -> step n [] (with_flags n (has_handler n) true false)
| step_stop : starting n = false -> step n [] (fst (stop n))
(* receiving: a message taken while the flag is down ends the processor *)
| step_receive_chunk c cs : chunk_processor n = Waiting -> chunk_channel n = c :: cs -> running n = true ->
    step n [] (move (with_streams (with_channels n cs (message_channel n)) (streams n) (count_chunk (stats n) c))
                 ChunkWorker (Storing c))
| step_chunk_ends c cs : chunk_processor n = Waiting -> chunk_channel n = c :: cs -> running n = false ->
    step n [] (move (with_channels n cs (message_channel n)) ChunkWorker Ended)
| step_receive_message m ms now : message_processor n = Waiting -> message_channel n = m :: ms -> running n = true ->
    step n [] (move (handle_message (with_channels n (chunk_channel n) ms) m now) MessageWorker (after_message n m))
| step_message_ends m ms : message_processor n = Waiting -> message_channel n = m :: ms -> running n = false ->
    step n [] (move (with_channels n (chunk_channel n) ms) MessageWorker Ended)
(* processing *)
| step_store (O : HashOrder PeerId) w c now n' subs : at_ n w = Storing c -> store_chunk n c now = Some (n', subs) ->
    step n [Stored w c subs] (move n' w (if has_handler n
      then Sending (relay_chunk (local_peer_id n) (enable_hop_removal (config n)) c) (set_iter subs) else Waiting))
| step_no_stream w c now : at_ n w = Storing c -> store_chunk n c now = None -> step n [] (move n w Waiting)
| step_relay w c p ps : at_ n w = Sending c (p :: ps) -> step n [Relayed w p c] (move n w (Sending c ps))
| step_relayed w c : at_ n w = Sending c [] -> step n [] (move n w Waiting)
| step_answer w p c cs (ok : bool) : at_ n w = Answering p (c :: cs) ->
    step n [Answered p c] (move n w (if ok then Answering p cs else Waiting))
| step_answered w p : at_ n w = Answering p [] -> step n [] (move n w Waiting)
(* the periodic tasks *)
| step_test_stats : stats_reporter n = Testing -> step n [] (move_tasks n (if running n then Ticking else NoTask) (stream_cleanup n))
| step_report now : stats_reporter n = Ticking ->
    step n [] (move_tasks (with_streams n (streams n) (report_stats n now)) Testing (stream_cleanup n))
| step_test_cleanup : stream_cleanup n = Testing -> step n [] (move_tasks n (stats_reporter n) (if running n then Ticking else NoTask))
| step_find (O : HashOrder StreamId) now : stream_cleanup n = Ticking ->
    step n [] (move_tasks n (stats_reporter n) (Removing (find_inactive n now)))
| step_clean id ids : stream_cleanup n = Removing (id :: ids) ->
    step n [] (let '(s, st, _) := remove_stream_internal (streams n) (stats n) id in
               move_tasks (with_streams n s st) (stats_reporter n) (Removing ids))
| step_cleaned : stream_cleanup n = Removing [] -> step n [] (move_tasks n (stats_reporter n) Testing).

(** A run, with everything that was seen, in order. *)
Inductive run (n : RelayNode) : list event -> RelayNode -> Prop :=
| run_nil : run n [] n
| run_snoc evs n' es n'' : run n evs n' -> step n' es n'' -> run n (evs ++ es) n''.
End Node.

Arguments RelayNode PeerId {_ _}.
