(* ===== verification/RelayProps.v ===== *)
(** * Properties of the relay node

    What a run of the node of [core/src/overlay/relay/node.rs] delivers and to
    whom, that the processors make progress, and that a node does not come back
    from a stop. *)

From S2P Require Import Prelude Rust Hash Segment Relay RelayNode.

#[local] Open Scope Z_scope.

Section Props.
Context {PeerId : Type} `{Countable PeerId}.

#[local] Abbreviation StreamChunk := (StreamChunk PeerId).
#[local] Abbreviation RelayNode := (RelayNode PeerId).
#[local] Abbreviation event := (event (PeerId := PeerId)).
#[local] Abbreviation processor := (processor (PeerId := PeerId)).
Implicit Types (n : RelayNode) (evs es : list event) (p : PeerId) (c : StreamChunk) (w : worker).

(** ** What a run shows *)

(** The chunks that the channel accepted, and those that were stored. *)
Definition published evs : list StreamChunk := omap (fun e => match e with Published c => Some c | _ => None end) evs.
Definition stored evs : list StreamChunk := omap (fun e => match e with Stored _ c _ => Some c | _ => None end) evs.

(** What a worker handed over for a peer. *)
Definition received w p evs : list StreamChunk :=
  omap (fun e => match e with
                 | Relayed w' p' c => if bool_decide (w' = w) && bool_decide (p' = p) then Some c else None
                 | _ => None
                 end) evs.

(** What it owes the peer: each chunk stored while the peer subscribed, as it
    is sent on. *)
Definition due (f : StreamChunk -> StreamChunk) w p evs : list StreamChunk :=
  omap (fun e => match e with
                 | Stored w' c subs => if bool_decide (w' = w) && bool_decide (p ∈ subs) then Some (f c) else None
                 | _ => None
                 end) evs.

(** What a node sends on for a chunk. *)
Definition sent_as n : StreamChunk -> StreamChunk := relay_chunk (local_peer_id n) (enable_hop_removal (config n)).

(** The peers that a worker still has to serve. *)
Definition owes f w (at_w : processor) evs : Prop :=
  exists c rest, NoDup rest /\
    match at_w with Sending c' rest' => c = c' /\ rest = rest' | Ended => True | _ => rest = [] end /\
    forall p, due f w p evs = received w p evs ++ (if bool_decide (p ∈ rest) then [c] else []).

(** Events that are not the worker's. *)
Definition quiet w (e : event) : Prop :=
  match e with Stored w' _ _ | Relayed w' _ _ => w' <> w | _ => True end.

Lemma quiet_same f w p evs es : Forall (quiet w) es ->
  due f w p (evs ++ es) = due f w p evs /\ received w p (evs ++ es) = received w p evs.
Proof.
  intros Hq. unfold due, received. rewrite !omap_app.
  enough (E : omap (fun e => match e with
      | Stored w' c subs => if bool_decide (w' = w) && bool_decide (p ∈ subs) then Some (f c) else None | _ => None end) es = [] /\
    omap (fun e => match e with
      | Relayed w' p' c => if bool_decide (w' = w) && bool_decide (p' = p) then Some c else None | _ => None end) es = [])
    by (destruct E as [-> ->]; by rewrite !app_nil_r).
  induction Hq as [|e es He _ [IH1 IH2]]; [done|]. split; (destruct e; cbn in *; try done; by rewrite bool_decide_false by done).
Qed.

(** A worker that moves without a word of its own: it does not start or stop
    sending, unless it ends. *)
Definition idle (x : processor) : Prop := match x with Sending _ _ | Ended => False | _ => True end.

Lemma owes_quiet f w x y evs es : Forall (quiet w) es -> owes f w x evs ->
  (x = y \/ y = Ended \/ (idle x /\ idle y)) -> owes f w y (evs ++ es).
Proof.
  intros Hq (c & rest & Hnd & Hx & Hd) Hor. exists c, rest. split; [done|]. split.
  - destruct Hor as [<-|[->|[Hix Hiy]]]; [done|done|]. by destruct x, y.
  - intros p. destruct (quiet_same f w p evs es Hq) as [-> ->]. apply Hd.
Qed.

Lemma owes_relay f w c p ps evs : owes f w (Sending c (p :: ps)) evs ->
  owes f w (Sending c ps) (evs ++ [Relayed w p c]).
Proof.
  intros (c' & rest & Hnd & [-> ->] & Hd). apply NoDup_cons in Hnd as [Hp Hnd]. exists c, ps. split_and!; [done..|].
  intros q. specialize (Hd q). unfold due, received in *. rewrite !omap_app. cbn [omap list_omap].
  rewrite app_nil_r, Hd. rewrite (bool_decide_true (w = w)) by done. cbn [andb].
  destruct (decide (p = q)) as [->|Hne].
  - rewrite (bool_decide_true (q ∈ q :: ps)), (bool_decide_false (q ∈ ps)), (bool_decide_true (q = q)) by (done || by left).
    by rewrite app_nil_r.
  - rewrite (bool_decide_false (p = q)) by done. rewrite app_nil_r.
    by rewrite (bool_decide_ext (q ∈ p :: ps) (q ∈ ps)) by set_solver.
Qed.

Lemma owes_store `{!HashOrder PeerId} f w c subs evs : owes f w (Storing c) evs ->
  owes f w (Sending (f c) (set_iter subs)) (evs ++ [Stored w c subs]).
Proof.
  intros (c' & rest & _ & -> & Hd). exists (f c), (set_iter subs). split_and!; [apply NoDup_set_iter|done..|].
  intros q. specialize (Hd q). unfold due, received in *. rewrite !omap_app. cbn [omap list_omap].
  rewrite app_nil_r, Hd, (bool_decide_true (w = w)) by done. cbn [andb].
  rewrite (bool_decide_false (q ∈ [])) by set_solver. rewrite !app_nil_r.
  rewrite (bool_decide_ext (q ∈ set_iter subs) (q ∈ subs)) by apply elem_of_set_iter. by destruct (bool_decide (q ∈ subs)).
Qed.
(** ** Steps keep what is owed *)

Lemma at_move n w w' x : at_ (move n w' x) w = if decide (w = w') then x else at_ n w.
Proof. by destruct w, w'. Qed.

(** The calls on the channels leave the rest of the node alone. *)
Lemma publish_same n c n' r w : publish_chunk n c = Some (n', r) ->
  at_ n' w = at_ n w /\ sent_as n' = sent_as n /\ has_handler n' = has_handler n.
Proof.
  unfold publish_chunk. destruct (_ <? zlen _); [intros [= <- <-]; done|]. destruct (closed _); [intros [= <- <-]; done|].
  destruct (_ <? CHANNEL_CAPACITY); [|done]. intros [= <- <-]. by destruct w.
Qed.

Lemma send_same n m n' r w : send_message n m = Some (n', r) ->
  at_ n' w = at_ n w /\ sent_as n' = sent_as n /\ has_handler n' = has_handler n.
Proof.
  unfold send_message. destruct (closed _); [intros [= <- <-]; done|].
  destruct (_ <? CHANNEL_CAPACITY); [|done]. intros [= <- <-]. by destruct w.
Qed.

Lemma store_same n c now n' subs w : store_chunk n c now = Some (n', subs) ->
  at_ n' w = at_ n w /\ sent_as n' = sent_as n /\ has_handler n' = has_handler n.
Proof. unfold store_chunk. destruct (streams n !! _); [|done]. intros [= <- <-]. by destruct w. Qed.

Lemma handle_same n m now w :
  at_ (handle_message n m now) w = at_ n w /\ sent_as (handle_message n m now) = sent_as n /\
  has_handler (handle_message n m now) = has_handler n.
Proof. unfold handle_message. destruct (match m with Chunk _ => _ | _ => _ end) as [[s st] r]. by destruct w. Qed.

Lemma after_message_idle n m : after_message n m = Ended \/ idle (after_message n m).
Proof. destruct m; try (by right); [|by left]. right. cbn. by case_match. Qed.

Lemma spawn_owes f w x evs : owes f w x evs -> owes f w (spawn_processor x) evs.
Proof. by destruct x. Qed.

Lemma abort_owes f w x evs : owes f w x evs -> owes f w (abort_processor x) evs.
Proof.
  destruct x; try done; intros Ho; rewrite <- (app_nil_r evs); (eapply owes_quiet; [done|done|]); by right; left.
Qed.

(** A move of one worker that shows nothing. *)
Lemma move_owes n f w w' x evs es : Forall (quiet w) es -> owes f w (at_ n w) evs ->
  (w' = w -> x = Ended \/ (idle (at_ n w) /\ idle x)) -> owes f w (at_ (move n w' x) w) (evs ++ es).
Proof.
  intros Hq Ho Hx. rewrite at_move. destruct (decide (w = w')) as [<-|Hne].
  - eapply owes_quiet; [done|done|]. right. by apply Hx.
  - eapply owes_quiet; [done|done|by left].
Qed.

Lemma step_owes n es n' w evs : has_handler n = true -> owes (sent_as n) w (at_ n w) evs -> step n es n' ->
  has_handler n' = true /\ sent_as n' = sent_as n /\ owes (sent_as n') w (at_ n' w) (evs ++ es).
Proof.
  intros Hh Ho. destruct 1 as [c n' r Hp|m n' r Hc Hs Hp| | | | |c cs Hw _ _|c cs Hw _ _|m ms now Hw _ _|m ms Hw _ _
    |O w' c now n' subs Hw Hst|w' c now Hw _|w' c p ps Hw|w' c Hw|w' p c cs ok Hw|w' p Hw| | | | | |].
  - destruct (publish_same n c n' r w Hp) as (Ha & Hf & Hh'). rewrite Ha, Hf, Hh'. split_and!; [done..|].
    eapply owes_quiet; [|done|by left]. destruct r; repeat constructor.
  - destruct (send_same n m n' r w Hp) as (Ha & Hf & Hh'). rewrite Ha, Hf, Hh', app_nil_r. done.
  - rewrite app_nil_r. unfold set_chunk_handler. case_match; [done|]. by destruct w.
  - rewrite app_nil_r. unfold start. case_match; [done|]. split_and!; [done..|]. by destruct w; apply spawn_owes.
  - rewrite app_nil_r. by destruct w.
  - rewrite app_nil_r. unfold stop. case_match; [done|]. split_and!; [done..|]. by destruct w; apply abort_owes.
  - split_and!; [done..|]. apply move_owes; [done|by destruct w|]. intros <-. right. cbn. by rewrite Hw.
  - split_and!; [done..|]. apply move_owes; [done|by destruct w|]. intros <-. by left.
  - destruct (handle_same (with_channels n (chunk_channel n) ms) m now w) as (Ha & Hf & Hh').
    split_and!; [cbn; by rewrite Hh'|exact Hf|]. replace (sent_as _) with (sent_as n) by (symmetry; exact Hf).
    apply move_owes; [done|rewrite Ha; by destruct w|]. intros <-. rewrite Ha. cbn [at_ message_processor with_channels]. rewrite Hw.
    destruct (after_message_idle n m); [by left|by right].
  - split_and!; [done..|]. apply move_owes; [done|by destruct w|]. intros <-. by left.
  - destruct (store_same n c now n' subs w Hst) as (Ha & Hf & Hh'). rewrite Hh.
    split_and!; [cbn; by rewrite Hh'|exact Hf|]. replace (sent_as (move n' w' _)) with (sent_as n) by (symmetry; exact Hf).
    rewrite at_move. destruct (decide (w = w')) as [<-|Hne].
    + rewrite Hw in Ho. by apply owes_store.
    + rewrite Ha. eapply owes_quiet; [|done|by left]. repeat constructor. cbn. congruence.
  - split_and!; [done..|]. apply move_owes; [done..|]. intros ->. right. by rewrite Hw.
  - split_and!; [done..|]. rewrite at_move. destruct (decide (w = w')) as [<-|Hne].
    + rewrite Hw in Ho. by apply owes_relay.
    + eapply owes_quiet; [|done|by left]. repeat constructor. cbn. congruence.
  - split_and!; [done..|]. rewrite at_move, app_nil_r. destruct (decide (w = w')) as [<-|Hne]; [|done].
    rewrite Hw in Ho. destruct Ho as (c' & rest & Hnd & [-> ->] & Hd). by exists c, [].
  - split_and!; [done..|]. apply move_owes; [repeat constructor|done|]. intros ->. right. rewrite Hw. by destruct ok.
  - split_and!; [done..|]. apply move_owes; [done..|]. intros ->. right. by rewrite Hw.
  - rewrite app_nil_r. by destruct w.
  - rewrite app_nil_r. by destruct w.
  - rewrite app_nil_r. by destruct w.
  - rewrite app_nil_r. by destruct w.
  - rewrite app_nil_r. destruct (remove_stream_internal (streams n) (stats n) id) as [[s st] r]. by destruct w.
  - rewrite app_nil_r. by destruct w.
Qed.
(** ** The order of the channel *)

(** Messages that the calls send. *)
Definition plain_message (m : RelayMessage (PeerId := PeerId)) : Prop := match m with Chunk _ | Stop => False | _ => True end.

(** The message processor stores nothing, and the chunks stored are among those
    taken off the channel, in its order. *)
Definition orderly n evs : Prop :=
  Forall plain_message (message_channel n) /\
  match message_processor n with Storing _ | Sending _ _ => False | _ => True end /\
  exists taken, published evs = taken ++ chunk_channel n /\
    match chunk_processor n with
    | Storing c => exists before, taken = before ++ [c] /\ stored evs `sublist_of` before
    | _ => stored evs `sublist_of` taken
    end.

(** Moves that neither take a chunk nor store one. *)
Lemma orderly_same n n' evs : orderly n evs ->
  Forall plain_message (message_channel n') -> chunk_channel n' = chunk_channel n ->
  match message_processor n' with Storing _ | Sending _ _ => False | _ => True end ->
  (chunk_processor n' = chunk_processor n \/
   match chunk_processor n' with Storing _ => False | _ => True end) -> orderly n' evs.
Proof.
  intros (_ & _ & taken & Ht & Hs) Hm Hc Hp Hor. split_and!; [done|done|]. exists taken. rewrite Hc. split; [done|].
  destruct Hor as [->|Hst]; [done|].
  assert (Hsub : stored evs `sublist_of` taken).
  { destruct (chunk_processor n); try done. destruct Hs as (before & -> & Hs). by apply sublist_inserts_r. }
  by destruct (chunk_processor n').
Qed.

Lemma handle_channels n m now :
  message_channel (handle_message n m now) = message_channel n /\ chunk_channel (handle_message n m now) = chunk_channel n /\
  message_processor (handle_message n m now) = message_processor n /\ chunk_processor (handle_message n m now) = chunk_processor n.
Proof. unfold handle_message. by destruct (match m with Chunk _ => _ | _ => _ end) as [[s st] r]. Qed.

Lemma step_orderly n es n' evs : orderly n evs -> step n es n' -> orderly n' (evs ++ es).
Proof.
  intros Ho. pose proof Ho as (Hm & Hp & taken & Ht & Hs).
  destruct 1 as [c n' r Hpub|m n' r Hc Hst Hsend| | | | |c cs Hw Hch _|c cs Hw Hch _|m ms now Hw Hch _|m ms Hw Hch _
    |O w c now n' subs Hw Hst|w c now Hw Hst|w c p ps Hw|w c Hw|w p c cs ok Hw|w p Hw| | | | | |].
  - revert Hpub. unfold publish_chunk. destruct (_ <? zlen _); [intros [= <- <-]; by rewrite app_nil_r|].
    destruct (closed _); [intros [= <- <-]; by rewrite app_nil_r|]. destruct (_ <? CHANNEL_CAPACITY); [|done]. intros [= <- <-].
    split_and!; [done..|]. exists taken. unfold published, stored in *. rewrite !omap_app, Ht. cbn. rewrite app_nil_r, <- app_assoc. done.
  - revert Hsend. rewrite app_nil_r. unfold send_message. destruct (closed _); [intros [= <- <-]; done|].
    destruct (_ <? CHANNEL_CAPACITY); [|done]. intros [= <- <-]. apply (orderly_same n); [done| |done|done|by left].
    apply Forall_app_2; [done|]. constructor; [|done]. by destruct m as [c'| | | | | |]; try done; destruct (Hc c').
  - rewrite app_nil_r. unfold set_chunk_handler. destruct (running n); [done|]. apply (orderly_same n); cbn; auto.
  - rewrite app_nil_r. unfold start. destruct (running n); [done|]. apply (orderly_same n); [done..| |].
    + cbn. by destruct (message_processor n).
    + cbn [fst chunk_processor move move_tasks with_flags]. destruct (chunk_processor n); cbn; auto.
  - rewrite app_nil_r. apply (orderly_same n); cbn; auto.
  - rewrite app_nil_r. unfold stop. destruct (negb _); [done|]. apply (orderly_same n); [done..| |].
    + cbn. by destruct (message_processor n).
    + cbn [fst chunk_processor move move_tasks with_flags]. destruct (chunk_processor n); cbn; auto.
  - rewrite app_nil_r. split_and!; [done..|]. exists (taken ++ [c]). cbn [chunk_channel chunk_processor with_channels with_streams move].
    rewrite Ht, Hch, <- app_assoc. split; [done|]. exists taken. by rewrite Hw in Hs.
  - rewrite app_nil_r. split_and!; [done..|]. exists (taken ++ [c]). cbn [chunk_channel chunk_processor with_channels move].
    rewrite Ht, Hch, <- app_assoc. split; [done|]. rewrite Hw in Hs. by apply sublist_inserts_r.
  - rewrite app_nil_r. destruct (handle_channels (with_channels n (chunk_channel n) ms) m now) as (E1 & E2 & E3 & E4).
    rewrite Hch in Hm. apply list.Forall_cons in Hm as [Hm Hms].
    apply (orderly_same n); cbn [move message_channel chunk_channel message_processor chunk_processor]; [done|by rewrite E1|by rewrite E2| |left; by rewrite E4].
    destruct m; try done. cbn. by destruct (requested _ _ _).
  - rewrite app_nil_r. rewrite Hch in Hm. apply list.Forall_cons in Hm as [Hm Hms]. apply (orderly_same n); cbn; auto.
  - destruct w; cbn [at_] in Hw; [|by rewrite Hw in Hp]. rewrite Hw in Hs. destruct Hs as (before & -> & Hs).
    revert Hst. unfold store_chunk. destruct (streams n !! _); [|done]. intros [= <- <-]. split_and!; [done..|].
    exists (before ++ [c]). unfold published, stored in *. rewrite !omap_app, Ht. cbn. rewrite app_nil_r. split; [done|].
    assert (Hsub : omap (fun e => match e with Stored _ c _ => Some c | _ => None end) evs ++ [c] `sublist_of` before ++ [c])
      by (by apply sublist_app).
    by destruct (has_handler n).
  - rewrite app_nil_r. destruct w; cbn [at_] in Hw; [|by rewrite Hw in Hp]. apply (orderly_same n); cbn; auto.
  - assert (Hev : published (evs ++ [Relayed w p c]) = published evs /\ stored (evs ++ [Relayed w p c]) = stored evs)
      by (unfold published, stored; rewrite !omap_app; cbn; by rewrite !app_nil_r).
    destruct w; cbn [at_] in Hw; [|by rewrite Hw in Hp]. assert (Ho' : orderly n (evs ++ [Relayed ChunkWorker p c]))
      by (unfold orderly; by destruct Hev as [-> ->]). apply (orderly_same n); cbn; auto.
  - rewrite app_nil_r. destruct w; cbn [at_] in Hw; [|by rewrite Hw in Hp]. apply (orderly_same n); cbn; auto.
  - assert (Hev : published (evs ++ [Answered p c]) = published evs /\ stored (evs ++ [Answered p c]) = stored evs)
      by (unfold published, stored; rewrite !omap_app; cbn; by rewrite !app_nil_r).
    assert (Ho' : orderly n (evs ++ [Answered p c])) by (unfold orderly; by destruct Hev as [-> ->]).
    destruct w, ok; apply (orderly_same n); auto; cbn; auto.
  - rewrite app_nil_r. destruct w; apply (orderly_same n); auto; cbn; auto.
  - rewrite app_nil_r. apply (orderly_same n); cbn; auto.
  - rewrite app_nil_r. apply (orderly_same n); cbn; auto.
  - rewrite app_nil_r. apply (orderly_same n); cbn; auto.
  - rewrite app_nil_r. apply (orderly_same n); cbn; auto.
  - rewrite app_nil_r. destruct (remove_stream_internal (streams n) (stats n) id) as [[s st] r]. apply (orderly_same n); cbn; auto.
  - rewrite app_nil_r. apply (orderly_same n); cbn; auto.
Qed.

(** ** Delivery *)

(** A node before its first start, with a handler and nothing in its channels. *)
Definition fresh n : Prop :=
  has_handler n = true /\ chunk_processor n = NotStarted /\ message_processor n = NotStarted /\
  chunk_channel n = [] /\ message_channel n = [].

Lemma run_invariant n0 evs n : fresh n0 -> run n0 evs n ->
  has_handler n = true /\ sent_as n = sent_as n0 /\ orderly n evs /\
  forall w, owes (sent_as n0) w (at_ n w) evs.
Proof.
  intros (Hh & Hc & Hm & Hcc & Hmc). induction 1 as [|evs n es n' _ (Hh1 & Hf & Ho & Hw) Hstep].
  - split_and!; [done|done| |].
    + split_and!; [by rewrite Hmc|by rewrite Hm|]. exists []. by rewrite Hcc, Hc.
    + intros w. assert (Hat : at_ n0 w = NotStarted) by (by destruct w). rewrite Hat.
      destruct (chunk_channel n0); [|done]. eexists (Build_StreamChunk PeerId 0 [] [] 0 0 [] false None), [].
      split_and!; [constructor|done|]. intros p. by rewrite bool_decide_false by set_solver.
  - rewrite <- Hf in Hw. destruct (step_owes n es n' ChunkWorker evs Hh1 (Hw ChunkWorker) Hstep) as (Hh2 & Hf2 & Ho1).
    destruct (step_owes n es n' MessageWorker evs Hh1 (Hw MessageWorker) Hstep) as (_ & _ & Ho2).
    split_and!; [done|congruence|by eapply step_orderly|]. rewrite <- Hf, <- Hf2. intros []; done.
Qed.

(** C15: What the relay delivers, in every interleaving of its tasks with the calls,
    the cleanup, and starts and stops. The chunks it stores are chunks that were
    published, in that order. A peer is handed exactly the chunks stored while it
    was a subscriber of their stream, once each and in order, with the relay as
    their source when hops are removed; only the last of them can be missing,
    while it is being sent or when the processor was stopped in the middle. *)
Theorem relay_delivers n0 evs n : fresh n0 -> run n0 evs n ->
  stored evs `sublist_of` published evs /\
  forall p, exists missing,
    due (sent_as n0) ChunkWorker p evs = received ChunkWorker p evs ++ missing /\ (length missing <= 1)%nat /\
    (chunk_processor n = Waiting -> missing = []) /\
    (enable_hop_removal (config n0) = true ->
     Forall (fun c => chunk_source c = Some (local_peer_id n0)) (received ChunkWorker p evs)).
Proof.
  intros Hfr Hr. destruct (run_invariant n0 evs n Hfr Hr) as (_ & _ & (_ & _ & taken & Ht & Hs) & Hw). split.
  - rewrite Ht. apply sublist_inserts_r. destruct (chunk_processor n); try done.
    destruct Hs as (before & -> & Hs). by apply sublist_inserts_r.
  - intros p. destruct (Hw ChunkWorker) as (c & rest & Hnd & Hat & Hd). exists (if bool_decide (p ∈ rest) then [c] else []).
    split_and!; [apply Hd|destruct (bool_decide _); cbn; lia|intros Hwait; cbn in Hat; rewrite Hwait in Hat; by rewrite Hat|].
    intros Hhop. assert (Hall : Forall (fun c => chunk_source c = Some (local_peer_id n0)) (due (sent_as n0) ChunkWorker p evs)).
    { unfold due. apply list.Forall_forall. intros x (e & _ & He)%list_elem_of_omap. destruct e; try done.
      case_match; [|done]. injection He as <-. unfold sent_as, relay_chunk. by rewrite Hhop. }
    rewrite Hd in Hall. by apply list.Forall_app in Hall as [? _].
Qed.

(** ** Progress *)

Lemma run_step n es n' : step n es n' -> run n es n'.
Proof. intros Hs. apply (run_snoc n [] n es n'); [constructor|done]. Qed.

Lemma run_app n evs n1 evs' n2 : run n evs n1 -> run n1 evs' n2 -> run n (evs ++ evs') n2.
Proof.
  intros H1. induction 1 as [|evs' n2 es n3 _ IH Hs]; [by rewrite app_nil_r|]. rewrite app_assoc. by eapply run_snoc.
Qed.

(** A worker that is sending hands the chunk to everyone on its list. *)
Lemma run_sending n c ps : chunk_processor n = Sending c ps ->
  run n (map (fun p => Relayed ChunkWorker p c) ps) (move n ChunkWorker Waiting).
Proof.
  revert n. induction ps as [|p ps IH]; intros n Hn.
  - apply run_step. by apply (step_relayed n ChunkWorker c).
  - cbn. apply (run_app n [Relayed ChunkWorker p c] (move n ChunkWorker (Sending c ps))).
    + apply run_step. by apply (step_relay n ChunkWorker c p ps).
    + by apply (IH (move n ChunkWorker (Sending c ps))).
Qed.

Lemma serve_chunk `{!HashOrder PeerId} n c cs stream now : chunk_processor n = Waiting -> running n = true ->
  has_handler n = true -> chunk_channel n = c :: cs -> streams n !! chunk_stream_id c = Some stream ->
  exists n', run n (Stored ChunkWorker c (subscribers stream) ::
                    map (fun p => Relayed ChunkWorker p (sent_as n c)) (set_iter (subscribers stream))) n' /\
    chunk_processor n' = Waiting /\ running n' = true /\ has_handler n' = true /\ chunk_channel n' = cs /\
    streams n' = <[chunk_stream_id c := add_chunk stream c (max_buffer_size (config n)) now]> (streams n) /\
    chunks_relayed (stats n') = chunks_relayed (stats n) + 1.
Proof.
  intros Hw Hr Hh Hch Hst.
  pose proof (step_receive_chunk n c cs Hw Hch Hr) as H1. set (n1 := move _ _ _) in H1.
  assert (Hsc : store_chunk n1 c now = Some (with_streams n1
    (<[chunk_stream_id c := add_chunk stream c (max_buffer_size (config n)) now]> (streams n)) (stats n1), subscribers stream))
    by (unfold store_chunk; cbn [n1 move with_streams with_channels streams config]; by rewrite Hst).
  pose proof (step_store n1 _ ChunkWorker c now _ _ (eq_refl : at_ n1 ChunkWorker = Storing c) Hsc) as H2.
  replace (has_handler n1) with true in H2 by (symmetry; exact Hh). set (n2 := move _ _ _) in H2.
  pose proof (run_sending n2 (sent_as n c) (set_iter (subscribers stream)) eq_refl) as H3.
  exists (move n2 ChunkWorker Waiting). split; [|by split_and!].
  apply (run_app n [] n1); [by apply run_step|]. apply (run_app n1 [_] n2); [by apply run_step|done].
Qed.

(** A chunk at the head of the channel is served: the chunk processor of a
    running node takes it, stores it and hands it to every subscriber of its
    stream by steps of its own, and is ready for the next one. *)
Theorem chunk_is_served `{!HashOrder PeerId} n c cs stream now : chunk_processor n = Waiting -> running n = true ->
  has_handler n = true -> chunk_channel n = c :: cs -> streams n !! chunk_stream_id c = Some stream ->
  exists n', run n (Stored ChunkWorker c (subscribers stream) ::
                    map (fun p => Relayed ChunkWorker p (sent_as n c)) (set_iter (subscribers stream))) n' /\
    chunk_processor n' = Waiting /\ running n' = true /\ has_handler n' = true /\ chunk_channel n' = cs /\
    streams n' = <[chunk_stream_id c := add_chunk stream c (max_buffer_size (config n)) now]> (streams n) /\
    chunks_relayed (stats n') = chunks_relayed (stats n) + 1.
Proof. apply serve_chunk. Qed.

(** ** Stopping *)

Definition ended n : Prop := chunk_processor n = Ended /\ message_processor n = Ended.

Lemma step_ended n es n' : ended n -> step n es n' -> es = [] /\ ended n'.
Proof.
  intros [Hc Hm]. assert (Hat : forall w, at_ n w = Ended) by (by intros []).
  destruct 1 as [c n' r Hpub|m n' r _ _ Hsend| | | | |c cs Hw|c cs Hw|m ms now Hw|m ms Hw
    |O w c now n' subs Hw|w c now Hw|w c p ps Hw|w c Hw|w p c cs ok Hw|w p Hw| | | | |id ids|];
    try (rewrite Hat in Hw; discriminate); try congruence; try done.
  - revert Hpub. unfold publish_chunk. rewrite Hc. by destruct (_ <? _); intros [= <- <-].
  - revert Hsend. unfold send_message. rewrite Hm. by intros [= <- <-].
  - unfold set_chunk_handler. by destruct (running n).
  - unfold start. destruct (running n); [done|]. unfold ended. cbn. by rewrite Hc, Hm.
  - unfold stop. destruct (negb _); [done|]. unfold ended. cbn. by rewrite Hc, Hm.
  - by destruct (remove_stream_internal (streams n) (stats n) id) as [[s st] r].
Qed.

(** A relay node that was started and is stopped relays nothing ever again,
    although it can be started again without an error: its receivers went with
    the processors, so publishing fails and no processor runs. *)
Theorem stopped_is_final n n1 evs n2 : chunk_processor n <> NotStarted -> message_processor n <> NotStarted ->
  stop n = (n1, ROk tt) -> run n1 evs n2 ->
  evs = [] /\ chunk_processor n2 = Ended /\ message_processor n2 = Ended /\
  (running n2 = false -> snd (start n2) = ROk tt) /\
  (forall c, publish_chunk n2 c = Some (n2, RErr RelayError)) /\
  (forall m, send_message n2 m = Some (n2, RErr RelayError)).
Proof.
  intros Hc Hm Hs Hr. assert (He : ended n1).
  { revert Hs. unfold stop. destruct (negb _); [done|]. intros [= <-]. unfold ended. cbn.
    by destruct (chunk_processor n), (message_processor n). }
  assert (Hrun : evs = [] /\ ended n2).
  { clear Hs. induction Hr as [|evs n' es n'' _ IH Hstep]; [done|]. destruct IH as [-> He'].
    by destruct (step_ended n' es n'' He' Hstep) as [-> ?]. }
  destruct Hrun as [-> [Hc2 Hm2]]. split_and!; [done..| | |].
  - intros Hr2. unfold start. by rewrite Hr2.
  - intros c. unfold publish_chunk. rewrite Hc2. by destruct (_ <? _).
  - intros m. unfold send_message. by rewrite Hm2.
Qed.

(** Starting races with the processors it spawns: the flag they test is set
    after they run. A chunk published before the first start can end the chunk
    processor, and the node runs on without one. *)
Theorem start_can_lose_processor n c : fresh n -> running n = false -> starting n = false ->
  zlen (chunk_data c) <= max_chunk_size (config n) ->
  exists n', run n [Published c] n' /\ running n' = true /\ chunk_processor n' = Ended /\ snd (start n) = ROk tt /\
    forall c', publish_chunk n' c' = Some (n', RErr RelayError).
Proof.
  intros (_ & Hw & _ & Hch & _) Hr Hs Hlen.
  assert (Hp : publish_chunk n c = Some (with_channels n [c] (message_channel n), ROk tt)).
  { unfold publish_chunk. rewrite (proj2 (Z.ltb_ge _ _) Hlen), Hw, Hch. done. }
  set (n1 := with_channels n [c] (message_channel n)) in Hp.
  set (n2 := fst (start n1)). assert (Hn2 : snd (start n1) = ROk tt /\ chunk_processor n2 = Waiting /\ chunk_channel n2 = [c] /\
    running n2 = false /\ starting n2 = true).
  { unfold n2, start. cbn [running n1 with_channels]. rewrite Hr. cbn. by rewrite Hw. }
  destruct Hn2 as (_ & Hw2 & Hch2 & Hr2 & Hs2).
  set (n3 := move (with_channels n2 [] (message_channel n2)) ChunkWorker Ended).
  exists (with_flags n3 (has_handler n3) true false).
  split_and!; [|done|done|unfold start; by rewrite Hr|].
  - apply (run_app n [Published c] n1); [by apply run_step, (step_publish n c n1 (ROk tt))|].
    apply (run_app n1 [] n2); [by apply run_step, step_start|].
    apply (run_app n2 [] n3); [by apply run_step, (step_chunk_ends n2 c [])|by apply run_step, step_started].
  - intros c'. unfold publish_chunk. cbn. by destruct (_ <? _).
Qed.
End Props.

(** ** Witnesses *)

Definition demo_config : RelayConfig :=
  {| max_buffer_size := 10; max_chunk_size := 100; inactivity_timeout := 60; enable_hop_removal := true |}.

(** A relay, peer 1, with one stream and two viewers, and a handler. *)
Definition demo_stream : StreamRelay positive := with_subscribers (new_relay [7] 1%positive 0) {[2%positive; 3%positive]}.
Definition demo_node : RelayNode positive :=
  with_flags (with_streams (new_node 1%positive demo_config 0) {[ [7] := demo_stream ]} (new_stats 0)) true false false.
Definition demo_published : RelayNode positive := with_channels demo_node [demo_chunk 1 "video" true] [].
Definition demo_running : RelayNode positive := with_flags (fst (start demo_published)) true true false.

Definition demo_events : list (event (PeerId := positive)) :=
  [Published (demo_chunk 1 "video" true)] ++
  Stored ChunkWorker (demo_chunk 1 "video" true) (subscribers demo_stream) ::
  map (fun p => Relayed ChunkWorker p (sent_as demo_node (demo_chunk 1 "video" true))) (set_iter (subscribers demo_stream)).

Lemma demo_start : run demo_node [Published (demo_chunk 1 "video" true)] demo_running.
Proof.
  apply (run_app _ [_] demo_published); [by apply run_step, (step_publish demo_node _ demo_published (ROk tt))|].
  apply (run_app _ [] (fst (start demo_published))); [by apply run_step, step_start|].
  by apply run_step, (step_started (fst (start demo_published))).
Qed.

Lemma demo_run : exists n, run demo_node demo_events n /\ chunk_processor n = Waiting.
Proof.
  destruct (serve_chunk demo_running (demo_chunk 1 "video" true) [] demo_stream 5) as (n & Hr & Hw & _); try done.
  exists n. split; [|done]. unfold demo_events. by apply (run_app _ [_] demo_running); [apply demo_start|].
Qed.

Lemma demo_fresh : fresh demo_node.
Proof. by repeat split. Qed.

(** The two viewers are handed the chunk, from the relay. *)
Lemma relay_delivers_witness :
  stored demo_events `sublist_of` published demo_events /\
  due (sent_as demo_node) ChunkWorker 2%positive demo_events = received ChunkWorker 2%positive demo_events /\
  received ChunkWorker 2%positive demo_events = [sent_as demo_node (demo_chunk 1 "video" true)] /\
  received ChunkWorker 3%positive demo_events = [sent_as demo_node (demo_chunk 1 "video" true)] /\
  received ChunkWorker 4%positive demo_events = [].
Proof.
  destruct demo_run as (n & Hr & Hw).
  destruct (relay_delivers demo_node demo_events n demo_fresh Hr) as (Hs & Hp).
  split; [exact Hs|]. destruct (Hp 2%positive) as (missing & -> & _ & Hm & _). rewrite (Hm Hw), app_nil_r.
  by split_and!.
Defined.

Lemma chunk_is_served_witness :
  exists n', chunk_processor n' = Waiting /\ chunk_channel n' = [] /\
    run demo_running (Stored ChunkWorker (demo_chunk 1 "video" true) (subscribers demo_stream) ::
      map (fun p => Relayed ChunkWorker p (sent_as demo_node (demo_chunk 1 "video" true))) (elements (subscribers demo_stream))) n' /\
    length (elements (subscribers demo_stream)) = 2%nat.
Proof.
  destruct (chunk_is_served demo_running (demo_chunk 1 "video" true) [] demo_stream 5) as (n & Hr & Hw & _ & _ & Hc & _); try reflexivity.
  exists n. split; [exact Hw|]. split; [exact Hc|]. split; [exact Hr|reflexivity].
Defined.

(** A chunk that comes after the stop is refused, before and after a restart. *)
Lemma stopped_is_final_witness :
  let stopped := fst (stop demo_running) in
  let again := with_flags (fst (start stopped)) true true false in
  run stopped [] again /\ running again = true /\
  publish_chunk again (demo_chunk 2 "video" false) = Some (again, RErr RelayError).
Proof.
  cbv zeta. set (stopped := fst (stop demo_running)). set (again := with_flags (fst (start stopped)) true true false).
  assert (Hr : run stopped [] again).
  { apply (run_app _ [] (fst (start stopped))); [by apply run_step, step_start|].
    by apply run_step, (step_started (fst (start stopped))). }
  split; [exact Hr|]. split; [reflexivity|].
  destruct (stopped_is_final demo_running stopped [] again) as (_ & _ & _ & _ & Hc & _); try done.
Defined.

Lemma start_can_lose_processor_witness :
  exists n', run demo_node [Published (demo_chunk 1 "video" true)] n' /\ running n' = true /\ chunk_processor n' = Ended.
Proof.
  destruct (start_can_lose_processor demo_node (demo_chunk 1 "video" true)) as (n & Hr & Hrun & He & _); try done.
  by exists n.
Defined.

(** A peer that asks for chunks is handed them as they came: their source is
    still the first one, also when hops are removed. *)
Example answers_keep_the_source : exists n n' (c : StreamChunk positive),
  enable_hop_removal (config n) = true /\ chunk_source c <> Some (local_peer_id n) /\ step n [Answered 2%positive c] n'.
Proof.
  exists (move demo_node MessageWorker (Answering 2%positive [demo_chunk 1 "video" true])), (move demo_node MessageWorker (Answering 2%positive [])),
    (demo_chunk 1 "video" true).
  split; [done|]. split; [done|]. by apply (step_answer (move demo_node MessageWorker (Answering 2%positive [demo_chunk 1 "video" true]))
    MessageWorker 2%positive (demo_chunk 1 "video" true) [] true).
Qed.

(** A viewer that subscribes again is counted again. *)
Example subscribing_twice_counts_twice :
  let again := handle_message demo_node (AddSubscriber [7] 2%positive) 1 in
  get_stream_info again [7] = get_stream_info demo_node [7] /\ connected_peers (stats again) = 1.
Proof. by vm_compute. Qed.

(** The reporter computes the outgoing bandwidth and resets it at once. *)
Example bandwidth_is_reset : forall n : RelayNode positive, forall now, outgoing_bandwidth (report_stats n now) = 0.
Proof. done. Qed.
