(* ===== verification/RelayLocks.v ===== *)
(** * The locks of the relay node

    [core/src/overlay/relay/node.rs] keeps the streams and the statistics behind
    one lock each. [RelayNode] takes each critical section as one step; here a
    section is the sequence of its acquisitions and releases, which the tasks
    interleave. A lock is read by many or written by one. *)

From S2P Require Import Prelude.

(** ** Sections *)

Inductive lock : Type := Streams | Stats.
Inductive mode : Type := Read | Write.
Inductive action : Type := Take (l : lock) (m : mode) | Drop (l : lock).

#[export] Instance lock_eq_dec : EqDecision lock.
Proof. solve_decision. Defined.
#[export] Instance mode_eq_dec : EqDecision mode.
Proof. solve_decision. Defined.

(** Guards are dropped at the end of their block, the last one first. *)

(** [add_stream_internal] and the three like it, when they find what they need,
    and when they do not. *)
Definition update_section : list action := [Take Streams Write; Take Stats Write; Drop Stats; Drop Streams].
Definition refused_section : list action := [Take Streams Write; Drop Streams].
(** The two of [process_chunk_internal]. *)
Definition chunk_sections : list action := [Take Stats Write; Drop Stats; Take Streams Write; Drop Streams].
(** [handle_request_chunks_internal], the search of the cleanup,
    [get_active_streams] and [get_stream_info]. *)
Definition look_section : list action := [Take Streams Read; Drop Streams].
(** [get_stats]. *)
Definition stats_section : list action := [Take Stats Read; Drop Stats].
(** A round of the statistics reporter. *)
Definition report_section : list action := [Take Stats Write; Take Streams Read; Drop Streams; Drop Stats].

(** The tasks of the node, and its callers. *)
Inductive task : Type := ChunkTask | MessageTask | Reporter | Cleanup | Caller (n : nat).

#[export] Instance task_eq_dec : EqDecision task.
Proof. solve_decision. Defined.
#[export, program] Instance task_countable : Countable task :=
  inj_countable' (fun t => match t with ChunkTask => 0 | MessageTask => 1 | Reporter => 2 | Cleanup => 3 | Caller n => 4 + n end)
    (fun n => match n with 0 => ChunkTask | 1 => MessageTask | 2 => Reporter | 3 => Cleanup | S (S (S (S n))) => Caller n end) _.
Next Obligation. by intros []. Qed.

(** The sections that each task goes through. *)
Definition sections (t : task) : list (list action) :=
  match t with
  | ChunkTask => [chunk_sections]
  | MessageTask => [update_section; refused_section; look_section; chunk_sections]
  | Reporter => [report_section]
  | Cleanup => [look_section; update_section; refused_section]
  | Caller _ => [look_section; stats_section]
  end.

(** ** Interleaving *)

(** A task in a section: what it has done of it and what is left. *)
Record place : Type := { done_ : list action; left_ : list action }.
Abbreviation State := (gmap task place).

(** The lock as a task holds it after some actions. *)
Fixpoint held_after (held : option mode) (l : lock) (acts : list action) : option mode :=
  match acts with
  | [] => held
  | Take l' m :: acts => held_after (if decide (l' = l) then Some m else held) l acts
  | Drop l' :: acts => held_after (if decide (l' = l) then None else held) l acts
  end.

Definition held (p : place) (l : lock) : option mode := held_after None l (done_ p).

(** Whether two tasks can have a lock at once. *)
Definition compatible (m m' : mode) : Prop := m = Read /\ m' = Read.

#[export] Instance compatible_dec m m' : Decision (compatible m m').
Proof. unfold compatible. apply _. Defined.

(** Another task keeps the lock from a task that wants it. *)
Definition in_the_way (t : task) (l : lock) (m : mode) (t' : task) (p : place) : Prop :=
  t' <> t /\ match held p l with Some m' => ~ compatible m m' | None => False end.

#[export] Instance in_the_way_dec t l m t' p : Decision (in_the_way t l m t' p).
Proof. unfold in_the_way. destruct (held p l); apply _. Defined.

Definition allowed (s : State) (t : task) (a : action) : Prop :=
  match a with Take l m => map_Forall (fun t' p => ~ in_the_way t l m t' p) s | Drop _ => True end.

Inductive advance (s : State) (t : task) : State -> Prop :=
| advance_act d a r : s !! t = Some {| done_ := d; left_ := a :: r |} -> allowed s t a ->
    advance s t (<[t := {| done_ := d ++ [a]; left_ := r |}]> s)
| advance_end d : s !! t = Some {| done_ := d; left_ := [] |} -> advance s t (delete t s).

Inductive lock_step (s : State) : State -> Prop :=
| step_enter t acts : s !! t = None -> acts ∈ sections t -> lock_step s (<[t := {| done_ := []; left_ := acts |}]> s)
| step_advance t s' : advance s t s' -> lock_step s s'.

(** ** Exclusion *)

Definition well_placed (s : State) : Prop := map_Forall (fun t p => done_ p ++ left_ p ∈ sections t) s.

Definition exclusive (s : State) : Prop :=
  forall t t' p p' l m m', t <> t' -> s !! t = Some p -> s !! t' = Some p' ->
    held p l = Some m -> held p' l = Some m' -> compatible m m'.

Lemma held_after_app h l a b : held_after h l (a ++ b) = held_after (held_after h l a) l b.
Proof. revert h. induction a as [|[l' m|l'] a IH]; intros h; cbn; [done|apply IH|apply IH]. Qed.

Lemma held_snoc d a r l :
  held {| done_ := d ++ [a]; left_ := r |} l =
  match a with
  | Take l' m => if decide (l' = l) then Some m else held {| done_ := d; left_ := a :: r |} l
  | Drop l' => if decide (l' = l) then None else held {| done_ := d; left_ := a :: r |} l
  end.
Proof. unfold held. cbn [done_]. rewrite held_after_app. by destruct a. Qed.

Lemma compatible_sym m m' : compatible m m' -> compatible m' m.
Proof. unfold compatible. tauto. Qed.

Lemma step_well_placed s s' : well_placed s -> lock_step s s' -> well_placed s'.
Proof.
  intros Hw. destruct 1 as [t acts _ Ha|t s' Hadv].
  - by apply map_Forall_insert_2.
  - destruct Hadv as [d a r Hp _|d Hp].
    + apply map_Forall_insert_2; [|done]. cbn. rewrite <- app_assoc. by apply (Hw t _ Hp).
    + by apply map_Forall_delete.
Qed.

(** What a task holds after a step, it held before or has just been allowed. *)
Lemma exclusive_insert s t p : exclusive s ->
  (forall l m, held p l = Some m ->
    map_Forall (fun t' p' => ~ in_the_way t l m t' p') s) -> exclusive (<[t := p]> s).
Proof.
  intros He Hp t1 t2 p1 p2 l m1 m2 Hne H1 H2 Hh1 Hh2.
  assert (Hone : forall t' p' m m', t' <> t -> s !! t' = Some p' -> held p l = Some m -> held p' l = Some m' -> compatible m m').
  { intros t' p' m m' Hne' Ht' Hm Hm'. destruct (decide (compatible m m')) as [|Hc]; [done|].
    destruct (Hp l m Hm t' p' Ht'). split; [done|]. by rewrite Hm'. }
  destruct (decide (t1 = t)) as [->|Hn1]; destruct (decide (t2 = t)) as [->|Hn2]; [done|..].
  - rewrite lookup_insert_eq in H1. rewrite lookup_insert_ne in H2 by done. injection H1 as ->. by eapply Hone.
  - rewrite lookup_insert_eq in H2. rewrite lookup_insert_ne in H1 by done. injection H2 as ->.
    apply compatible_sym. by eapply Hone.
  - rewrite lookup_insert_ne in H1, H2 by done. by eapply (He t1 t2).
Qed.

Lemma kept_free s t d l m : exclusive s -> s !! t = Some d -> held d l = Some m ->
  map_Forall (fun t' p' => ~ in_the_way t l m t' p') s.
Proof.
  intros He Hd Hm t' p' Ht' [Hne Hw]. destruct (held p' l) as [m'|] eqn:Hm'; [|done].
  apply Hw. by eapply (He t t').
Qed.

Lemma step_exclusive s s' : exclusive s -> lock_step s s' -> exclusive s'.
Proof.
  intros He. destruct 1 as [t acts _ _|t s' [d a r Hp Ha|d Hp]].
  - apply exclusive_insert; [done|]. by intros [] m.
  - apply exclusive_insert; [done|]. intros l m. rewrite held_snoc.
    destruct a as [l' m'|l']; destruct (decide (l' = l)) as [->|]; [by intros [= <-]| |done|]; intros Hm; by eapply kept_free.
  - intros t1 t2 p1 p2 l m1 m2 Hne H1 H2. apply lookup_delete_Some in H1 as [_ H1]. apply lookup_delete_Some in H2 as [_ H2].
    by eapply (He t1 t2).
Qed.

(** In every interleaving of the tasks, whoever writes under a lock is alone
    with it, and every task is somewhere in one of its own sections. *)
Theorem locks_exclude s : rtc lock_step ∅ s -> exclusive s /\ well_placed s.
Proof.
  intros Hr. cut (forall s0, exclusive s0 /\ well_placed s0 -> rtc lock_step s0 s -> exclusive s /\ well_placed s).
  { intros Hc. apply (Hc ∅); [|done]. split; [|by apply map_Forall_empty]. intros t t' p p' l m m' _ Ht. by rewrite lookup_empty in Ht. }
  clear Hr. intros s0 H0. induction 1 as [|s1 s2 s3 Hs _ IH]; [done|].
  destruct H0 as [He Hw]. apply IH. split; [by eapply step_exclusive|by eapply step_well_placed].
Qed.

(** ** Progress *)

(** A task that holds the statistics is about to let them go, and one that holds
    the streams is not about to wait for them. *)
Definition ordered (p : place) : bool :=
  match held p Stats with
  | Some _ => match left_ p with Drop _ :: _ => true | _ => false end
  | None => true
  end &&
  match held p Streams with
  | Some _ => match left_ p with Take Streams _ :: _ => false | _ => true end
  | None => true
  end.

Definition places (acts : list action) : list place :=
  map (fun i => {| done_ := take i acts; left_ := drop i acts |}) (seq 0 (S (length acts))).

Lemma place_of_split p acts : done_ p ++ left_ p = acts -> p ∈ places acts.
Proof.
  intros <-. apply elem_of_map. exists (length (done_ p)). split.
  - destruct p as [d r]. cbn. by rewrite take_app_length, drop_app_length.
  - apply elem_of_seq. rewrite length_app. lia.
Qed.

(** Every section but the reporter's takes the streams first. *)
Lemma sections_ordered t p : t <> Reporter -> done_ p ++ left_ p ∈ sections t -> ordered p = true.
Proof.
  intros Hne Hin.
  assert (Hall : forallb (fun acts => forallb ordered (places acts)) (sections t) = true) by (by destruct t).
  rewrite forallb_forall in Hall. specialize (Hall _ (proj1 (list_elem_of_In _ _) Hin)). rewrite forallb_forall in Hall.
  apply Hall, list_elem_of_In. by apply place_of_split.
Qed.

Lemma can_act s t p a r : s !! t = Some p -> left_ p = a :: r -> allowed s t a -> exists s', advance s t s'.
Proof. destruct p as [d l]. cbn. intros Hp -> Ha. eexists. by eapply advance_act. Qed.

Lemma can_end s t p : s !! t = Some p -> left_ p = [] -> exists s', advance s t s'.
Proof. destruct p as [d l]. cbn. intros Hp ->. eexists. by eapply advance_end. Qed.

(** When nobody holds the statistics, only a task that waits for the streams can
    be kept waiting. *)
Lemma can_move s t p : map_Forall (fun _ p => held p Stats = None) s -> s !! t = Some p ->
  (forall m r, left_ p <> Take Streams m :: r) -> exists s', advance s t s'.
Proof.
  intros Hfree Hp Hn. destruct (left_ p) as [|[[] m|l] r] eqn:Hl.
  - by eapply can_end.
  - by destruct (Hn m r).
  - eapply can_act; [done..|]. intros t' p' Ht' [_ Hw]. by rewrite (Hfree t' p' Ht') in Hw.
  - by eapply can_act.
Qed.

(** While the reporter is between its rounds the locks cannot block the node:
    as long as any task is in a section, some task can go on with its own. *)
Theorem no_deadlock_without_report s : rtc lock_step ∅ s -> s !! Reporter = None -> s <> ∅ ->
  exists t s', advance s t s'.
Proof.
  intros Hr Hrep Hne.
  assert (Hw : well_placed s).
  { clear Hrep Hne. revert s Hr. refine (rtc_ind_r _ _ _ _); [by apply map_Forall_empty|].
    intros s s' _ Hs Hw. by eapply step_well_placed. }
  assert (Ho : map_Forall (fun _ p => ordered p = true) s).
  { intros t p Hp. apply (sections_ordered t); [|by apply (Hw t)]. intros ->. by rewrite Hrep in Hp. }
  destruct (decide (map_Forall (fun _ p => held p Stats = None) s)) as [Hfree|Hheld].
  - apply map_choose in Hne as (t & p & Hp). destruct (left_ p) as [|[[] m|l] r] eqn:Hl;
      try (exists t; eapply can_move; [done..|]; by rewrite Hl).
    destruct (decide (allowed s t (Take Streams m))) as [Ha|Ha]; [exists t; by eapply can_act|].
    apply map_not_Forall in Ha as (t' & p' & Hp' & Hin); [|apply _]. apply dec_stable in Hin as [_ Hin].
    exists t'. eapply can_move; [done..|]. intros m' r' Hl'. specialize (Ho t' p' Hp'). unfold ordered in Ho.
    destruct (held p' Streams); [|done]. rewrite Hl' in Ho. by rewrite andb_false_r in Ho.
  - apply map_not_Forall in Hheld as (t & p & Hp & Hin); [|apply _]. specialize (Ho t p Hp). unfold ordered in Ho.
    destruct (held p Stats) eqn:Hs; [|done]. destruct (left_ p) as [|[l m'|l] r] eqn:Hl; [done..|].
    exists t. by eapply can_act.
Qed.

(** ** Deadlock *)

(** The message processor has the streams and wants the statistics, the reporter
    has the statistics and wants the streams. *)
Definition stuck (s : State) : Prop :=
  s !! MessageTask = Some {| done_ := [Take Streams Write]; left_ := [Take Stats Write; Drop Stats; Drop Streams] |} /\
  s !! Reporter = Some {| done_ := [Take Stats Write]; left_ := [Take Streams Read; Drop Streams; Drop Stats] |}.

Lemma starts_taking t acts : acts ∈ sections t -> exists l m r, acts = Take l m :: r.
Proof.
  revert acts. apply list.Forall_forall. destruct t; repeat constructor; by eexists _, _, _.
Qed.

Lemma stuck_blocks s t a acts : stuck s -> t <> MessageTask -> t <> Reporter -> a :: acts ∈ sections t -> ~ allowed s t a.
Proof.
  intros [Hm Hr] Hn1 Hn2 Hin Ha.
  assert (Hone : exists l m, a = Take l m).
  { destruct (starts_taking t _ Hin) as (l & m & r & [= -> ->]). by eexists _, _. }
  destruct Hone as ([] & m & ->).
  - apply (Ha MessageTask _ Hm). split; [done|]. cbn. by intros [_ ?].
  - apply (Ha Reporter _ Hr). split; [done|]. cbn. by intros [_ ?].
Qed.

Lemma stuck_step s s' : stuck s -> lock_step s s' ->
  stuck s' /\ forall t, t <> MessageTask -> t <> Reporter ->
    s' !! t = s !! t \/ (s !! t = None /\ exists acts, acts ∈ sections t /\ s' !! t = Some {| done_ := []; left_ := acts |}) \/
    exists d a r, s !! t = Some {| done_ := d; left_ := a :: r |} /\ allowed s t a \/ s !! t = Some {| done_ := d; left_ := [] |}.
Proof.
  intros Hst. pose proof Hst as [Hm Hr].
  destruct 1 as [t acts Ht Ha|t s' [d a r Hp Ha|d Hp]].
  - assert (MessageTask <> t /\ Reporter <> t) as [Hn1 Hn2] by (split; intros <-; congruence). split.
    + split; by rewrite lookup_insert_ne.
    + intros t' _ _. destruct (decide (t = t')) as [<-|Hne]; [|left; by rewrite lookup_insert_ne].
      right; left. split; [done|]. exists acts. by rewrite lookup_insert_eq.
  - assert (MessageTask <> t /\ Reporter <> t) as [Hn1 Hn2].
    { split; intros <-; simplify_eq; [apply (Ha Reporter _ Hr)|apply (Ha MessageTask _ Hm)]; (split; [done|]); cbn; by intros [? ?]. }
    split; [split; by rewrite lookup_insert_ne|]. intros t' _ _.
    destruct (decide (t = t')) as [<-|Hne]; [|left; by rewrite lookup_insert_ne]. right; right. exists d, a, r. by left.
  - assert (MessageTask <> t /\ Reporter <> t) as [Hn1 Hn2] by (split; intros <-; congruence).
    split; [split; by rewrite lookup_delete_ne|]. intros t' _ _.
    destruct (decide (t = t')) as [<-|Hne]; [|left; by rewrite lookup_delete_ne]. right; right. exists d, (Drop Stats), []. by right.
Qed.

Definition stuck_state : State :=
  <[MessageTask := {| done_ := [Take Streams Write]; left_ := [Take Stats Write; Drop Stats; Drop Streams] |}]>
  {[Reporter := {| done_ := [Take Stats Write]; left_ := [Take Streams Read; Drop Streams; Drop Stats] |}]}.

Lemma stuck_reachable : rtc lock_step ∅ stuck_state.
Proof.
  set (r0 := {| done_ := []; left_ := report_section |}). set (m0 := {| done_ := []; left_ := update_section |}).
  apply (rtc_l _ _ {[Reporter := r0]}); [by apply (step_enter ∅ Reporter report_section); [|left]|].
  apply (rtc_l _ _ (<[MessageTask := m0]> {[Reporter := r0]})); [by apply (step_enter _ MessageTask update_section); [|left]|].
  set (s2 := <[MessageTask := m0]> {[Reporter := r0]}).
  apply (rtc_l _ _ (<[Reporter := {| done_ := [] ++ [Take Stats Write]; left_ := [Take Streams Read; Drop Streams; Drop Stats] |}]> s2)).
  { apply (step_advance _ Reporter), advance_act; [done|]. by apply (bool_decide_unpack (map_Forall _ _)). }
  set (s3 := <[Reporter := _]> s2).
  replace stuck_state with (<[MessageTask := {| done_ := [] ++ [Take Streams Write]; left_ := [Take Stats Write; Drop Stats; Drop Streams] |}]> s3)
    by (by vm_compute).
  apply rtc_once, (step_advance _ MessageTask), advance_act; [done|]. by apply (bool_decide_unpack (map_Forall _ _)).
Qed.

(** C18: The reporter takes the two locks in the other order. A round of it can meet
    an update of the streams so that each waits for the other; from then on,
    whatever the tasks do, neither moves, and no task that enters a section ever
    gets a lock: no chunk is counted or stored, no subscriber is added, and the
    calls that read the streams or the statistics do not return. *)
Theorem report_deadlocks :
  (exists s, rtc lock_step ∅ s /\ stuck s) /\
  forall s s', stuck s -> rtc lock_step s s' ->
    stuck s' /\ forall t, s !! t = None -> s' !! t = None \/
      exists acts, acts ∈ sections t /\ s' !! t = Some {| done_ := []; left_ := acts |}.
Proof.
  split; [exists stuck_state; split; [apply stuck_reachable|by split]|].
  intros s s' Hs. revert s'. refine (rtc_ind_r _ _ _ _); [by eauto|].
  intros y z _ Hstep [Hy Hwait]. destruct (stuck_step y z Hy Hstep) as [Hz Hone]. split; [done|].
  intros t Ht. assert (t <> MessageTask /\ t <> Reporter) as [Hn1 Hn2]
    by (destruct Hs; split; intros ->; congruence).
  destruct (Hone t Hn1 Hn2) as [->|[[_ Hin]|(d & a & r & Hor)]]; [by apply Hwait|by right|].
  destruct (Hwait t Ht) as [Hnone|(acts & Hin & Hacts)]; [destruct Hor as [[? _]|?]; congruence|].
  destruct Hor as [[Hp Ha]|Hp]; rewrite Hp in Hacts; injection Hacts as -> <-.
  - by destruct (stuck_blocks y t a r Hy Hn1 Hn2 Hin).
  - by destruct (starts_taking t _ Hin) as (? & ? & ? & ?).
Qed.

(** ** Witnesses *)

Lemma locks_exclude_witness : exclusive stuck_state /\ well_placed stuck_state.
Proof. apply (locks_exclude stuck_state), stuck_reachable. Defined.

(** A chunk and an update on their way. *)
Lemma no_deadlock_without_report_witness :
  exists t s', advance (<[ChunkTask := {| done_ := []; left_ := chunk_sections |}]>
                          {[MessageTask := {| done_ := []; left_ := update_section |}]}) t s'.
Proof.
  apply no_deadlock_without_report; [|reflexivity|discriminate].
  apply (rtc_l _ _ {[MessageTask := {| done_ := []; left_ := update_section |}]}).
  - apply (step_enter ∅ MessageTask update_section); [reflexivity|by left].
  - apply rtc_once, (step_enter _ ChunkTask chunk_sections); [reflexivity|by left].
Defined.

(** A caller that asks for the statistics waits for ever. *)
Lemma report_deadlocks_witness :
  rtc lock_step stuck_state (<[Caller 0 := {| done_ := []; left_ := stats_section |}]> stuck_state) /\
  stuck (<[Caller 0 := {| done_ := []; left_ := stats_section |}]> stuck_state).
Proof.
  assert (Hr : rtc lock_step stuck_state (<[Caller 0 := {| done_ := []; left_ := stats_section |}]> stuck_state)).
  { apply rtc_once, step_enter; [reflexivity|right; by left]. }
  split; [exact Hr|]. apply (proj2 report_deadlocks stuck_state); [by split|exact Hr].
Defined.
