(* ===== verification/Overlay.v ===== *)
(** * The libp2p overlay

    Models [core/src/overlay/libp2p/]: the handlers of the events of the swarm
    ([event_handlers.rs]), the calls of the [Overlay] trait ([overlay_trait.rs],
    [overlay_utils.rs]) and their start and stop ([impl_core.rs]). The swarm is
    libp2p's: what it reports and what it answers are arguments. One lock guards
    it; the worker task holds it while it handles an event, also while it waits
    for room in the channels of the relay. A step is one critical section or
    one wait that ended. The tasks of the relay node run only after its [start],
    which nothing calls: [init_relay], which is meant to, is empty. *)

From S2P Require Import Prelude Rust Format Hash StreamTree Peers Moderation Segment Relay DataMessages RelayNode.

#[local] Open Scope Z_scope.

Definition STREAM_ANNOUNCE_TOPIC : rstring := str "obn/streams/announce".
Definition discovery_topic : rstring := str "discovery".

(** What [serde_json] finds under [stream_id] in an announcement: nothing when
    the data is no JSON or has no such entry or that is no array, or else the
    elements, each a number of 64 bits or not. *)
Class AnnounceJson : Type := json_stream_id : bytes -> option (list (option Z)).

Definition announced_id `{AnnounceJson} (data : bytes) : StreamId :=
  match json_stream_id data with
  | Some elements => omap (fun v => (fun n => n mod 256) <$> v) elements
  | None => str "unknown"
  end.

Section Overlay.
Context {PeerId : Type} `{Countable PeerId} `{!HashOrder PeerId}.
Context `{HX : Hex} `{B3 : Blake3} `{BW : !Bincode WireSegment} `{AJ : AnnounceJson}.

(** The text of a peer, which the moderation knows it by. *)
Context (peer_text : PeerId -> rstring).

(** ** Events *)

(** What the swarm reports. *)
Inductive SwarmEvent : Type :=
| GossipMessage (source : PeerId) (topic : rstring) (data : bytes)
| GossipSubscribed (peer : PeerId) (topic : rstring)
| GossipUnsubscribed (peer : PeerId) (topic : rstring)
| Identified (peer : PeerId) (listen_addrs protos : list rstring) (agent_version protocol_version : rstring)
| ConnectionEstablished (peer : PeerId)
| ConnectionClosed (peer : PeerId)
| OtherSwarmEvent.

(** What the overlay reports; the other events of the interface are made by
    nobody here. *)
Inductive OverlayEvent : Type :=
| PeerConnected (peer : PeerId) (peer_info : PeerInfo PeerId)
| PeerDisconnected (peer : PeerId) (reason : rstring)
| StreamData (id : StreamId) (source : PeerId) (data : bytes)
| StreamAnnounced (id : StreamId) (data : bytes).

(** ** The table of peers *)

Definition inbound_connection (p : PeerId) (now : Z) : PeerConnection PeerId :=
  {| conn_peer := p; is_outbound := false; conn_status := Connected; connected_at := Some now; conn_last_activity := now;
     bytes_sent := 0; bytes_received := 0; conn_latency_ms := None; failed_attempts := 0; conn_is_blocked := false |}.

Definition inbound_info (p : PeerId) (now_secs : Z) : PeerInfo PeerId :=
  {| info_id := p; addresses := []; info_role := UnknownRole; info_status := Connected; last_seen := now_secs;
     protocols := []; info_metadata := ∅; info_latency_ms := None; region := None; bandwidth_capacity := None |}.

(** Of [connect_peer_impl]: the peer of the address, or one made up. *)
Definition dialled_info (p : PeerId) (addr : rstring) (now_secs : Z) : PeerInfo PeerId :=
  {| info_id := p; addresses := [addr]; info_role := UnknownRole; info_status := Connecting; last_seen := now_secs;
     protocols := [str "ipfs/ping/1.0.0"]; info_metadata := ∅; info_latency_ms := None; region := None; bandwidth_capacity := None |}.

(** What happens to the table, for the peers that the moderation lets in. *)
Inductive peer_op : Type :=
| PeerUp (p : PeerId) (now now_secs : Z)
| PeerDown (p : PeerId)
| PeerTold (p : PeerId) (listen_addrs protos : list rstring) (agent_version protocol_version : rstring)
| PeerDialled (peer_info : PeerInfo PeerId) (now : Z)
| PeerForgotten (p : PeerId).

Definition peer_effect (peers : gmap PeerId (Peer PeerId)) (op : peer_op) : gmap PeerId (Peer PeerId) :=
  match op with
  | PeerUp p now now_secs =>
      let peer := match peers !! p with Some peer => peer | None => new_peer p (inbound_info p now_secs) now end in
      <[p := Peers.set_connected peer (inbound_connection p now) now]> peers
  | PeerDown p => match peers !! p with Some peer => <[p := set_disconnected peer]> peers | None => peers end
  | PeerTold p listen_addrs protos agent version =>
      match peers !! p with
      | Some peer =>
          <[p := with_info peer (identify_info (known_info peer) listen_addrs protos agent version) (connection peer) (last_connected peer)]> peers
      | None => peers
      end
  | PeerDialled i now => <[info_id i := new_peer (info_id i) i now]> peers
  | PeerForgotten p => delete p peers
  end.

(** [connected_peers]. *)
Definition list_connected (peers : gmap PeerId (Peer PeerId)) : list (PeerInfo PeerId) :=
  map known_info (List.filter (fun p => bool_decide (info_status (known_info p) = Connected)) (values peers)).

(** [stats]; every peer in the table counts as connected. *)
Record OverlayStats : Type := {
  ov_connected : Z;
  ov_discovered : Z;
  ov_active_streams : Z;
  ov_relay_nodes : Z;
  ov_incoming : Z;
  ov_outgoing : Z;
  ov_average_latency : Z;
}.

Definition latencies (peers : gmap PeerId (Peer PeerId)) : list Z :=
  omap (fun peer => info_latency_ms (known_info peer)) (values peers).

Definition is_relay_role (r : PeerRole) : bool := match r with Relay | HybridRelay => true | _ => false end.

Definition overlay_stats (peers : gmap PeerId (Peer PeerId)) (active : gset StreamId) : exec OverlayStats :=
  let! total := for_each (fun total l => add_u64 total l) (latencies peers) 0 in
  let count := zlen (latencies peers) in
  Done {| ov_connected := Z.of_nat (size peers); ov_discovered := Z.of_nat (size peers); ov_active_streams := Z.of_nat (size active);
          ov_relay_nodes := zlen (List.filter (fun peer => is_relay_role (info_role (known_info peer))) (values peers));
          ov_incoming := 0; ov_outgoing := 0; ov_average_latency := if count =? 0 then 0 else total / count |}.

(** ** State *)

(** Where the worker is; [Handing] and [Registering] wait for the relay. *)
Inductive worker_phase : Type :=
| Looping
| Locking
| Polling
| Handing (id : StreamId) (source : PeerId) (data : bytes) (chunk : StreamChunk PeerId)
| Registering (m : RelayMessage (PeerId := PeerId))
| Pausing
| Gone.

Definition holds_swarm (w : worker_phase) : bool :=
  match w with Polling | Handing _ _ _ _ | Registering _ => true | _ => false end.

(** The calls under way, by the section they are before. *)
Inductive ov_call : Type :=
| CStart | CStartSwarm | CStartRun | CSpawn
| CStop | CAbort | CStopDiscovery
| CConnect (peer_info : PeerInfo PeerId) | CList (peer_info : PeerInfo PeerId)
| CDisconnect (p : PeerId) | CUnlist (p : PeerId)
| CPublishStream (id : StreamId) | CSubscribe (id : StreamId)
| CStopStream (id : StreamId) | CForgetStream (id : StreamId)
| CRelayStream (id : StreamId) (p : PeerId)
| CPublish (topic : rstring) (data : bytes)
| CReturned (ok : bool).

(** The last four fields are notes for the theorems: what the workers took from
    the swarm, what was put into the queue, what was published, and what
    happened to the peers. *)
Record Libp2pOverlay : Type := {
  ov_peer_id : PeerId;
  ov_running : bool;
  ov_swarm : bool;
  ov_topics : gset rstring;
  ov_peers : gmap PeerId (Peer PeerId);
  ov_streams : gset StreamId;
  ov_relay : RelayNode PeerId;
  ov_moderation : option ModerationManager;
  ov_queue : list OverlayEvent;
  ov_workers : list worker_phase;
  ov_handle : option nat;
  ov_calls : list ov_call;
  taken : list SwarmEvent;
  emitted : list OverlayEvent;
  published : list (rstring * bytes);
  peer_log : list peer_op;
}.

Definition new_overlay (local : PeerId) (relay_config : RelayConfig) (moderation : option ModerationManager) (now : Z) : Libp2pOverlay :=
  {| ov_peer_id := local; ov_running := false; ov_swarm := false; ov_topics := ∅; ov_peers := ∅; ov_streams := ∅;
     ov_relay := new_node local relay_config now; ov_moderation := moderation; ov_queue := []; ov_workers := []; ov_handle := None;
     ov_calls := []; taken := []; emitted := []; published := []; peer_log := [] |}.

Definition set_flags (o : Libp2pOverlay) (run swarm : bool) (topics : gset rstring) : Libp2pOverlay :=
  {| ov_peer_id := ov_peer_id o; ov_running := run; ov_swarm := swarm; ov_topics := topics; ov_peers := ov_peers o;
     ov_streams := ov_streams o; ov_relay := ov_relay o; ov_moderation := ov_moderation o; ov_queue := ov_queue o;
     ov_workers := ov_workers o; ov_handle := ov_handle o; ov_calls := ov_calls o; taken := taken o; emitted := emitted o;
     published := published o; peer_log := peer_log o |}.
Definition note_peers (o : Libp2pOverlay) (op : peer_op) : Libp2pOverlay :=
  {| ov_peer_id := ov_peer_id o; ov_running := ov_running o; ov_swarm := ov_swarm o; ov_topics := ov_topics o;
     ov_peers := peer_effect (ov_peers o) op;
     ov_streams := ov_streams o; ov_relay := ov_relay o; ov_moderation := ov_moderation o; ov_queue := ov_queue o;
     ov_workers := ov_workers o; ov_handle := ov_handle o; ov_calls := ov_calls o; taken := taken o; emitted := emitted o;
     published := published o; peer_log := peer_log o ++ [op] |}.
Definition set_streams (o : Libp2pOverlay) (v : gset StreamId) : Libp2pOverlay :=
  {| ov_peer_id := ov_peer_id o; ov_running := ov_running o; ov_swarm := ov_swarm o; ov_topics := ov_topics o; ov_peers := ov_peers o;
     ov_streams := v; ov_relay := ov_relay o; ov_moderation := ov_moderation o; ov_queue := ov_queue o;
     ov_workers := ov_workers o; ov_handle := ov_handle o; ov_calls := ov_calls o; taken := taken o; emitted := emitted o;
     published := published o; peer_log := peer_log o |}.
Definition set_relay (o : Libp2pOverlay) (v : RelayNode PeerId) : Libp2pOverlay :=
  {| ov_peer_id := ov_peer_id o; ov_running := ov_running o; ov_swarm := ov_swarm o; ov_topics := ov_topics o; ov_peers := ov_peers o;
     ov_streams := ov_streams o; ov_relay := v; ov_moderation := ov_moderation o; ov_queue := ov_queue o;
     ov_workers := ov_workers o; ov_handle := ov_handle o; ov_calls := ov_calls o; taken := taken o; emitted := emitted o;
     published := published o; peer_log := peer_log o |}.
Definition set_moderation (o : Libp2pOverlay) (v : option ModerationManager) : Libp2pOverlay :=
  {| ov_peer_id := ov_peer_id o; ov_running := ov_running o; ov_swarm := ov_swarm o; ov_topics := ov_topics o; ov_peers := ov_peers o;
     ov_streams := ov_streams o; ov_relay := ov_relay o; ov_moderation := v; ov_queue := ov_queue o;
     ov_workers := ov_workers o; ov_handle := ov_handle o; ov_calls := ov_calls o; taken := taken o; emitted := emitted o;
     published := published o; peer_log := peer_log o |}.
Definition set_queue (o : Libp2pOverlay) (q e : list OverlayEvent) : Libp2pOverlay :=
  {| ov_peer_id := ov_peer_id o; ov_running := ov_running o; ov_swarm := ov_swarm o; ov_topics := ov_topics o; ov_peers := ov_peers o;
     ov_streams := ov_streams o; ov_relay := ov_relay o; ov_moderation := ov_moderation o; ov_queue := q;
     ov_workers := ov_workers o; ov_handle := ov_handle o; ov_calls := ov_calls o; taken := taken o; emitted := e;
     published := published o; peer_log := peer_log o |}.
Definition set_tasks (o : Libp2pOverlay) (ws : list worker_phase) (h : option nat) (cs : list ov_call) : Libp2pOverlay :=
  {| ov_peer_id := ov_peer_id o; ov_running := ov_running o; ov_swarm := ov_swarm o; ov_topics := ov_topics o; ov_peers := ov_peers o;
     ov_streams := ov_streams o; ov_relay := ov_relay o; ov_moderation := ov_moderation o; ov_queue := ov_queue o;
     ov_workers := ws; ov_handle := h; ov_calls := cs; taken := taken o; emitted := emitted o;
     published := published o; peer_log := peer_log o |}.
Definition set_notes (o : Libp2pOverlay) (t : list SwarmEvent) (p : list (rstring * bytes)) : Libp2pOverlay :=
  {| ov_peer_id := ov_peer_id o; ov_running := ov_running o; ov_swarm := ov_swarm o; ov_topics := ov_topics o; ov_peers := ov_peers o;
     ov_streams := ov_streams o; ov_relay := ov_relay o; ov_moderation := ov_moderation o; ov_queue := ov_queue o;
     ov_workers := ov_workers o; ov_handle := ov_handle o; ov_calls := ov_calls o; taken := t; emitted := emitted o;
     published := p; peer_log := peer_log o |}.

(** ** Handling events *)

(** [event_tx.clone().try_send]: an event that is refused is dropped. *)
Definition emit (o : Libp2pOverlay) (e : OverlayEvent) (accepted : bool) : Libp2pOverlay :=
  if accepted then set_queue o (ov_queue o ++ [e]) (emitted o ++ [e]) else o.

Definition peer_allowed (o : Libp2pOverlay) (p : PeerId) : bool :=
  match ov_moderation o with Some m => is_peer_allowed m (peer_text p) | None => true end.

Definition is_data_topic (topic : rstring) : bool := ends_with topic (str "/data").

(** [handle_gossipsub_event], up to the wait for the relay if there is one. *)
Definition handle_gossip_message (o : Libp2pOverlay) (source : PeerId) (topic : rstring) (data : bytes) (now_secs : Z) (accepted : bool)
  : Libp2pOverlay * worker_phase :=
  match parse_stream_id topic with
  | Some id =>
      if is_data_topic topic then
        match chunk_of_message id data source now_secs with
        | Some chunk => (o, Handing id source data chunk)
        | None => (o, Looping)
        end
      else (emit o (StreamData id source data) accepted, Looping)
  | None =>
      if str_eqb topic discovery_topic then (o, Looping)
      else if str_eqb topic STREAM_ANNOUNCE_TOPIC then (emit o (StreamAnnounced (announced_id data) data) accepted, Looping)
      else (o, Looping)
  end.

Definition handle_subscription (o : Libp2pOverlay) (topic : rstring) (m : StreamId -> RelayMessage (PeerId := PeerId))
  : Libp2pOverlay * worker_phase :=
  match parse_stream_id topic with
  | Some id => (o, if is_data_topic topic then Registering (m id) else Looping)
  | None => (o, Looping)
  end.

Definition handle_connection (o : Libp2pOverlay) (p : PeerId) (now now_secs : Z) (accepted : bool) : Libp2pOverlay * worker_phase :=
  if negb (peer_allowed o p) then (o, Looping)
  else
    let o := note_peers o (PeerUp p now now_secs) in
    let i := match ov_peers o !! p with Some peer => known_info peer | None => inbound_info p now_secs end in
    (emit o (PeerConnected p i) accepted, Looping).

Definition handle_disconnection (o : Libp2pOverlay) (p : PeerId) (accepted : bool) : Libp2pOverlay * worker_phase :=
  (emit (note_peers o (PeerDown p)) (PeerDisconnected p (str "Connection closed")) accepted, Looping).

(** [process_swarm_events] for an event that arrived. *)
Definition handle_event (o : Libp2pOverlay) (e : SwarmEvent) (now now_secs : Z) (accepted : bool) : Libp2pOverlay * worker_phase :=
  match e with
  | GossipMessage source topic data => handle_gossip_message o source topic data now_secs accepted
  | GossipSubscribed p topic => handle_subscription o topic (fun id => AddSubscriber id p)
  | GossipUnsubscribed p topic => handle_subscription o topic (fun id => RemoveSubscriber id p)
  | Identified p listen_addrs protos agent version => (note_peers o (PeerTold p listen_addrs protos agent version), Looping)
  | ConnectionEstablished p => handle_connection o p now now_secs accepted
  | ConnectionClosed p => handle_disconnection o p accepted
  | OtherSwarmEvent => (o, Looping)
  end.

(** What follows the wait for the relay: an error leaves the handler. *)
Definition hand_chunk (o : Libp2pOverlay) (id : StreamId) (source : PeerId) (data : bytes) (chunk : StreamChunk PeerId) (accepted : bool)
  : option (Libp2pOverlay * worker_phase) :=
  match publish_chunk (ov_relay o) chunk with
  | Some (r, ROk _) =>
      let o := set_relay o r in
      Some (emit (set_streams o ({[id]} ∪ ov_streams o)) (StreamData id source data) accepted, Looping)
  | Some (r, RErr _) => Some (set_relay o r, Pausing)
  | None => None
  end.

Definition hand_message (o : Libp2pOverlay) (m : RelayMessage (PeerId := PeerId)) : option (Libp2pOverlay * worker_phase) :=
  match send_message (ov_relay o) m with
  | Some (r, ROk _) => Some (set_relay o r, Looping)
  | Some (r, RErr _) => Some (set_relay o r, Pausing)
  | None => None
  end.

(** What the worker does next; [incoming] is what the swarm has within ten
    milliseconds. *)
Definition worker_act (o : Libp2pOverlay) (w : worker_phase) (incoming : option SwarmEvent) (now now_secs : Z) (accepted : bool)
  : option (Libp2pOverlay * worker_phase) :=
  match w with
  | Looping => Some (o, if ov_running o then Locking else Gone)
  | Locking => if existsb holds_swarm (ov_workers o) then None else Some (o, if ov_swarm o then Polling else Pausing)
  | Polling =>
      match incoming with
      | Some e => Some (handle_event (set_notes o (taken o ++ [e]) (published o)) e now now_secs accepted)
      | None => Some (o, Looping)
      end
  | Handing id source data chunk => hand_chunk o id source data chunk accepted
  | Registering m => hand_message o m
  | Pausing => Some (o, Looping)
  | Gone => None
  end.

(** ** Calls *)

Definition wants_swarm (c : ov_call) : bool :=
  match c with CStartSwarm | CConnect _ | CDisconnect _ | CSubscribe _ | CPublish _ _ => true | _ => false end.

(** A call that sends the relay a message and then goes on. *)
Definition ask_relay (o : Libp2pOverlay) (m : RelayMessage (PeerId := PeerId)) (next : ov_call) : option (Libp2pOverlay * ov_call) :=
  match send_message (ov_relay o) m with
  | Some (r, ROk _) => Some (set_relay o r, next)
  | Some (r, RErr _) => Some (set_relay o r, CReturned false)
  | None => None
  end.

(** The next section of a call. [ok] and [ok2] are what the libraries answer;
    a call that wants the swarm waits while a worker holds it. *)
Definition ov_call_act (o : Libp2pOverlay) (c : ov_call) (ok ok2 : bool) (now : Z) : option (Libp2pOverlay * ov_call) :=
  if wants_swarm c && existsb holds_swarm (ov_workers o) then None
  else
    match c with
    | CStart => Some (o, if ok then CStartSwarm else CReturned false)
    | CStartSwarm =>
        if ov_swarm o then Some (o, CStartRun)
        else if ok then Some (set_flags o (ov_running o) true ({[discovery_topic; STREAM_ANNOUNCE_TOPIC]} ∪ ov_topics o), CStartRun)
        else Some (o, CReturned false)
    | CStartRun => Some (set_flags o true (ov_swarm o) (ov_topics o), CSpawn)
    | CSpawn => Some (set_tasks o (ov_workers o ++ [Looping]) (Some (length (ov_workers o))) (ov_calls o), CReturned true)
    | CStop => Some (set_flags o false (ov_swarm o) (ov_topics o), CAbort)
    | CAbort =>
        Some (match ov_handle o with
              | Some k => set_tasks o (<[k := Gone]> (ov_workers o)) None (ov_calls o)
              | None => o
              end, CStopDiscovery)
    | CStopDiscovery => Some (o, CReturned ok)
    | CConnect i => Some (o, if ov_swarm o && ok then CList i else CReturned false)
    | CList i => Some (note_peers o (PeerDialled i now), CReturned true)
    | CDisconnect p => Some (o, CUnlist p)
    | CUnlist p => Some (note_peers o (PeerForgotten p), CReturned true)
    | CPublishStream id => ask_relay o (AddStream id (ov_peer_id o)) (CSubscribe id)
    | CSubscribe id =>
        if ov_swarm o && ok then
          let o := set_flags o (ov_running o) (ov_swarm o) ({[stream_data id]} ∪ ov_topics o) in
          if ok2 then
            Some (set_streams (set_flags o (ov_running o) (ov_swarm o) ({[stream_control id]} ∪ ov_topics o)) ({[id]} ∪ ov_streams o), CReturned true)
          else Some (o, CReturned false)
        else Some (o, CReturned false)
    | CStopStream id => ask_relay o (RemoveStream id) (CForgetStream id)
    | CForgetStream id => Some (set_streams o (ov_streams o ∖ {[id]}), CReturned true)
    | CRelayStream id p => ask_relay o (AddSubscriber id p) (CReturned true)
    | CPublish topic data =>
        if ov_swarm o && ok then Some (set_notes o (taken o) (published o ++ [(topic, data)]), CReturned true)
        else Some (o, CReturned false)
    | CReturned _ => None
    end.

(** Where calls begin. *)
Definition is_entry (c : ov_call) : bool :=
  match c with
  | CStart | CStop | CConnect _ | CDisconnect _ | CPublishStream _ | CSubscribe _ | CStopStream _ | CRelayStream _ _ | CPublish _ _ => true
  | _ => false
  end.

(** The steps; the label tells the call of [stop] from the rest. *)
Inductive label : Type := Goes | Stops.

Inductive ov_step (o : Libp2pOverlay) : label -> Libp2pOverlay -> Prop :=
| os_call c : is_entry c = true ->
    ov_step o (match c with CStop => Stops | _ => Goes end) (set_tasks o (ov_workers o) (ov_handle o) (ov_calls o ++ [c]))
| os_act i c ok ok2 now o' c' : ov_calls o !! i = Some c -> ov_call_act o c ok ok2 now = Some (o', c') ->
    ov_step o (match c with CStop | CAbort => Stops | _ => Goes end) (set_tasks o' (ov_workers o') (ov_handle o') (<[i := c']> (ov_calls o')))
| os_work k w incoming now now_secs accepted o' w' : ov_workers o !! k = Some w ->
    worker_act o w incoming now now_secs accepted = Some (o', w') ->
    ov_step o Goes (set_tasks o' (<[k := w']> (ov_workers o')) (ov_handle o') (ov_calls o'))
| os_next_event e q : ov_queue o = e :: q -> ov_step o Goes (set_queue o q (emitted o))
| os_moderate m op now : ov_moderation o = Some m -> ov_step o Goes (set_moderation o (Some (fst (mod_effect m op now)))).

Definition some_step (o o' : Libp2pOverlay) : Prop := exists l, ov_step o l o'.
Definition goes (o o' : Libp2pOverlay) : Prop := ov_step o Goes o'.
(** ** What the overlay hands on *)

(** Data that the handler does not throw away: its hash is right, or it is no
    wire segment at all. *)
Definition intact (data : bytes) : Prop :=
  match bin_deserialize data with Some wire => verify_integrity wire = true | None => True end.

Lemma chunk_of_intact id data (source : PeerId) now c : chunk_of_message id data source now = Some c -> intact data /\ chunk_data c = data.
Proof.
  unfold chunk_of_message, intact. destruct (bin_deserialize data) as [wire|]; [|by intros [= <-]].
  destruct (verify_integrity wire); [by intros [= <-]|done].
Qed.

Lemma intact_chunk id data (source : PeerId) now : intact data ->
  exists c, chunk_of_message id data source now = Some c /\ chunk_data c = data.
Proof.
  unfold chunk_of_message, intact. destruct (bin_deserialize data) as [wire|]; [intros ->|intros _]; cbn [negb]; by eexists.
Qed.

Definition is_stream_data (e : OverlayEvent) : bool := match e with StreamData _ _ _ => true | _ => false end.

(** Messages for a stream on another topic than that of its data. *)
Definition is_control_message (e : SwarmEvent) : bool :=
  match e with
  | GossipMessage _ topic _ => match parse_stream_id topic with Some _ => negb (is_data_topic topic) | None => false end
  | _ => false
  end.

Definition from_message (limit : Z) (log : list SwarmEvent) (id : StreamId) (source : PeerId) (data : bytes) : Prop :=
  exists topic, GossipMessage source topic data ∈ log /\ parse_stream_id topic = Some id /\
    (is_data_topic topic = true -> intact data /\ zlen data <= limit).

Definition phase_ok (log : list SwarmEvent) (w : worker_phase) : Prop :=
  match w with
  | Handing id source data chunk => intact data /\ chunk_data chunk = data /\
      exists topic, GossipMessage source topic data ∈ log /\ parse_stream_id topic = Some id
  | _ => True
  end.

(** The channel of chunks of a relay that was never started. *)
Definition relay_ok (cfg : RelayConfig) (r : RelayNode PeerId) : Prop :=
  chunk_processor r = NotStarted /\ RelayNode.config r = cfg /\ zlen (chunk_channel r) <= CHANNEL_CAPACITY.

Definition events_ok (limit : Z) (log : list SwarmEvent) (events : list OverlayEvent) (queued : Z) : Prop :=
  (forall id source data, StreamData id source data ∈ events -> from_message limit log id source data) /\
  zlen (List.filter is_stream_data events) <= queued + zlen (List.filter is_control_message log).

Definition overlay_ok (cfg : RelayConfig) (o : Libp2pOverlay) : Prop :=
  relay_ok cfg (ov_relay o) /\ Forall (phase_ok (taken o)) (ov_workers o) /\
  events_ok (max_chunk_size cfg) (taken o) (emitted o) (zlen (chunk_channel (ov_relay o))).

Lemma from_message_more limit log e id source data : from_message limit log id source data -> from_message limit (log ++ [e]) id source data.
Proof. intros (topic & Hin & Hp). exists topic. split; [set_solver|done]. Qed.

Lemma phase_ok_more log e w : phase_ok log w -> phase_ok (log ++ [e]) w.
Proof. destruct w; cbn; try done. intros (Hi & Hd & topic & Hin & Hp). split_and!; [done..|]. exists topic. split; [set_solver|done]. Qed.

Lemma filter_snoc {A} (f : A -> bool) l x : zlen (List.filter f (l ++ [x])) = zlen (List.filter f l) + (if f x then 1 else 0).
Proof. rewrite List.filter_app, zlen_app. cbn. by destruct (f x). Qed.

Lemma events_ok_take limit log events queued e : events_ok limit log events queued ->
  events_ok limit (log ++ [e]) events (queued - if is_control_message e then 1 else 0).
Proof.
  intros [Hf Hc]. split; [intros id source data Hin; by apply from_message_more, Hf|].
  rewrite filter_snoc. destruct (is_control_message e); lia.
Qed.

Lemma events_ok_le limit log events q q' : events_ok limit log events q -> q <= q' -> events_ok limit log events q'.
Proof. intros [Hf Hc] Hq. split; [done|lia]. Qed.

Lemma events_ok_emit limit log events queued e : events_ok limit log events queued ->
  (forall id source data, e = StreamData id source data -> from_message limit log id source data) ->
  events_ok limit log (events ++ [e]) (queued + if is_stream_data e then 1 else 0).
Proof.
  intros [Hf Hc] He. split.
  - intros id source data [Hin|Hin%list_elem_of_singleton]%elem_of_app; [by apply Hf|by apply He].
  - rewrite filter_snoc. destruct (is_stream_data e); lia.
Qed.

(** An event that is handled at once. *)
Lemma emit_ok limit o e accepted queued : events_ok limit (taken o) (emitted o) (queued - if is_stream_data e then 1 else 0) ->
  (forall id source data, e = StreamData id source data -> from_message limit (taken o) id source data) ->
  events_ok limit (taken (emit o e accepted)) (emitted (emit o e accepted)) queued.
Proof.
  intros Hok He. destruct accepted; cbn.
  - eapply events_ok_le; [by apply events_ok_emit|lia].
  - eapply events_ok_le; [exact Hok|]. destruct (is_stream_data e); lia.
Qed.

Lemma publish_chunk_idle cfg r c r' res : relay_ok cfg r -> publish_chunk r c = Some (r', res) ->
  relay_ok cfg r' /\ match res with
    | ROk _ => zlen (chunk_data c) <= max_chunk_size cfg /\ zlen (chunk_channel r') = zlen (chunk_channel r) + 1
    | RErr _ => r' = r
    end.
Proof.
  intros (Hp & Hc & Hl). unfold publish_chunk. rewrite Hp, Hc. destruct (Z.ltb_spec (max_chunk_size cfg) (zlen (chunk_data c))) as [|Hs]; [by intros [= <- <-]|].
  cbn [closed]. destruct (Z.ltb_spec (zlen (chunk_channel r)) CHANNEL_CAPACITY) as [Hroom|]; [|done]. intros [= <- <-].
  assert (Hlen : zlen (chunk_channel r ++ [c]) = zlen (chunk_channel r) + 1) by (by rewrite zlen_app).
  split; [|by split]. split_and!; [done|done|]. cbn. lia.
Qed.

Lemma send_message_idle cfg r m r' res : relay_ok cfg r -> send_message r m = Some (r', res) ->
  relay_ok cfg r' /\ chunk_channel r' = chunk_channel r.
Proof.
  intros Hok. unfold send_message. destruct (closed _); [by intros [= <- <-]|]. destruct (_ <? _); [|done]. by intros [= <- <-].
Qed.

Definition core_ok (cfg : RelayConfig) (o : Libp2pOverlay) : Prop :=
  relay_ok cfg (ov_relay o) /\ events_ok (max_chunk_size cfg) (taken o) (emitted o) (zlen (chunk_channel (ov_relay o))).

Lemma handle_event_ok cfg o e now now_secs accepted o' w' :
  relay_ok cfg (ov_relay o) -> e ∈ taken o ->
  events_ok (max_chunk_size cfg) (taken o) (emitted o) (zlen (chunk_channel (ov_relay o)) - if is_control_message e then 1 else 0) ->
  handle_event o e now now_secs accepted = (o', w') ->
  core_ok cfg o' /\ ov_workers o' = ov_workers o /\ taken o' = taken o /\ phase_ok (taken o) w'.
Proof.
  intros Hr Hin Hev. assert (Hsame : core_ok cfg o) by (split; [done|eapply events_ok_le; [exact Hev|destruct (is_control_message e); lia]]).
  assert (Hput : forall o1 e1, ov_relay o1 = ov_relay o -> taken o1 = taken o -> emitted o1 = emitted o -> is_stream_data e1 = false ->
    core_ok cfg (emit o1 e1 accepted)).
  { intros o1 e1 Hr1 Ht1 He1 Hs1. destruct Hsame as [_ Hsame]. split; [by destruct accepted; cbn; rewrite Hr1|].
    replace (ov_relay (emit o1 e1 accepted)) with (ov_relay o) by (by destruct accepted). apply emit_ok.
    - rewrite Ht1, He1, Hs1. by replace (zlen (chunk_channel (ov_relay o)) - 0) with (zlen (chunk_channel (ov_relay o))) by lia.
    - intros id source data ->. by cbn in Hs1. }
  destruct e as [source topic data|p topic|p topic|p addrs protos agent version|p|p|]; cbn [handle_event handle_gossip_message is_control_message] in *;
    unfold handle_gossip_message, handle_subscription, handle_connection, handle_disconnection in *.
  - destruct (parse_stream_id topic) as [id|] eqn:Hid.
    + destruct (is_data_topic topic) eqn:Hd; cbn [negb] in Hev.
      * destruct (chunk_of_message id data source now_secs) as [chunk|] eqn:Hc; intros [= <- <-]; [|done].
        apply chunk_of_intact in Hc as [Hi Hc]. split; [exact Hsame|]. split; [done|]. split; [done|]. split; [done|]. split; [done|]. by exists topic.
      * intros [= <- <-]. split_and!; try by destruct accepted. split; [by destruct accepted|].
        replace (ov_relay (emit o (StreamData id source data) accepted)) with (ov_relay o) by (by destruct accepted).
        apply emit_ok; [done|]. intros id' source' data' [= <- <- <-]. exists topic. split_and!; [done|done|congruence].
    + destruct (str_eqb topic discovery_topic); [by intros [= <- <-]|]. destruct (str_eqb topic STREAM_ANNOUNCE_TOPIC); intros [= <- <-]; [|done].
      split_and!; [by apply Hput|by destruct accepted|by destruct accepted|done].
  - destruct (parse_stream_id topic); intros [= <- <-]; split_and!; try done. by destruct (is_data_topic topic).
  - destruct (parse_stream_id topic); intros [= <- <-]; split_and!; try done. by destruct (is_data_topic topic).
  - intros [= <- <-]. by split_and!.
  - destruct (peer_allowed o p); cbn [negb]; intros [= <- <-]; [|done]. split_and!; [by apply Hput|by destruct accepted|by destruct accepted|done].
  - intros [= <- <-]. split_and!; [by apply Hput|by destruct accepted|by destruct accepted|done].
  - by intros [= <- <-].
Qed.

Lemma ov_worker_act_ok cfg o k w incoming now now_secs accepted o' w' : overlay_ok cfg o -> ov_workers o !! k = Some w ->
  worker_act o w incoming now now_secs accepted = Some (o', w') ->
  core_ok cfg o' /\ Forall (phase_ok (taken o')) (<[k := w']> (ov_workers o')).
Proof.
  intros (Hr & Hw & Hev) Hk Hact. pose proof (Forall_lookup_1 _ _ _ _ Hw Hk) as Hp.
  assert (Hstay : forall o1 w1, o1 = o -> phase_ok (taken o) w1 -> core_ok cfg o1 /\ Forall (phase_ok (taken o1)) (<[k := w1]> (ov_workers o1))).
  { intros o1 w1 -> Hw1. split; [done|]. by apply Forall_insert. }
  destruct w as [| | |id source data chunk|m| |]; cbn [worker_act] in Hact; unfold hand_chunk, hand_message in Hact.
  - injection Hact as <- <-. apply Hstay; [done|]. by destruct (ov_running o).
  - destruct (existsb _ _); [done|]. injection Hact as <- <-. apply Hstay; [done|]. by destruct (ov_swarm o).
  - destruct incoming as [e|]; [|injection Hact as <- <-; by apply Hstay]. injection Hact as Hact.
    set (o1 := set_notes o (taken o ++ [e]) (published o)) in *.
    destruct (handle_event_ok cfg o1 e now now_secs accepted o' w') as (Hc & Hws & Ht & Hp'); try done.
    + cbn. set_solver.
    + by apply events_ok_take.
    + split; [done|]. rewrite Hws, Ht. apply Forall_insert; [|done]. cbn. eapply Forall_impl; [exact Hw|]. intros x. apply phase_ok_more.
  - destruct (publish_chunk (ov_relay o) chunk) as [[r res]|] eqn:Hpub; [|done].
    destruct (publish_chunk_idle _ _ _ _ _ Hr Hpub) as [Hr' Hres]. destruct Hp as (Hi & Hd & topic & Hin & Hid).
    destruct res as [[]|e]; injection Hact as <- <-.
    + destruct Hres as [Hsz Hlen]. split.
      * split; [by destruct accepted|]. destruct accepted; cbn.
        -- rewrite Hlen. apply events_ok_emit; [done|]. intros ? ? ? [= <- <- <-]. exists topic. split_and!; [done|done|]. intros _. by rewrite <- Hd at 2.
        -- eapply events_ok_le; [exact Hev|lia].
      * destruct accepted; cbn; by apply Forall_insert.
    + subst r. split; [by split|]. cbn. by apply Forall_insert.
  - destruct (send_message (ov_relay o) m) as [[r res]|] eqn:Hsend; [|done]. destruct (send_message_idle _ _ _ _ _ Hr Hsend) as [Hr' Hch].
    destruct res as [[]|e]; injection Hact as <- <-; (split; [split; [done|cbn; by rewrite Hch]|cbn; by apply Forall_insert]).
  - injection Hact as <- <-. by apply Hstay.
  - done.
Qed.

Lemma ov_call_act_ok cfg o c ok ok2 now o' c' : overlay_ok cfg o -> ov_call_act o c ok ok2 now = Some (o', c') -> overlay_ok cfg o'.
Proof.
  intros (Hr & Hw & Hev). unfold ov_call_act. destruct (_ && _); [done|].
  assert (Hask : forall m next, ask_relay o m next = Some (o', c') -> overlay_ok cfg o').
  { intros m next. unfold ask_relay. destruct (send_message (ov_relay o) m) as [[r res]|] eqn:Hsend; [|done].
    destruct (send_message_idle _ _ _ _ _ Hr Hsend) as [Hr' Hch]. destruct res; intros [= <- <-]; (split_and!; [done|done|cbn; by rewrite Hch]). }
  destruct c; try (by eapply Hask); try (by intros [= <- <-]; split_and!).
  - destruct (ov_swarm o); [by intros [= <- <-]|]. destruct ok; intros [= <- <-]; by split_and!.
  - intros [= <- <-]. refine (conj Hr (conj _ Hev)). apply Forall_app_2; [done|]. by constructor.
  - intros [= <- <-]. destruct (ov_handle o); [|by split_and!]. refine (conj Hr (conj _ Hev)). by apply Forall_insert.
  - destruct (ov_swarm o && ok); [destruct ok2|]; intros [= <- <-]; by split_and!.
  - destruct (ov_swarm o && ok); intros [= <- <-]; by split_and!.
Qed.

Lemma ov_step_ok cfg o l o' : overlay_ok cfg o -> ov_step o l o' -> overlay_ok cfg o'.
Proof.
  intros Hok Hs. destruct Hs as [c|i c ok ok2 now o' c' Hi Hact|k w incoming now now_secs accepted o' w' Hk Hact|e q|m op now]; try exact Hok.
  - exact (ov_call_act_ok _ _ _ _ _ _ _ _ Hok Hact).
  - destruct (ov_worker_act_ok _ _ _ _ _ _ _ _ _ _ Hok Hk Hact) as [[Hr Hev] Hw]. exact (conj Hr (conj Hw Hev)).
Qed.

Lemma overlay_reachable_ok local cfg moderation now o : rtc some_step (new_overlay local cfg moderation now) o -> overlay_ok cfg o.
Proof.
  revert o. refine (rtc_ind_r _ _ _ _).
  - split; [done|]. split; [constructor|]. split; [by intros ? ? ? ?%not_elem_of_nil|done].
  - intros y z _ [l Hs] Hy. by eapply ov_step_ok.
Qed.

(** C17: Everything reported as the data of a stream was received on a topic of that
    stream, from that peer. What came on the topic of its data was intact and
    no larger than the relay takes, 64 KiB in the program: larger segments are
    never reported. *)
Theorem stream_data_is_authentic local cfg moderation now o id source data :
  rtc some_step (new_overlay local cfg moderation now) o -> StreamData id source data ∈ emitted o ->
  exists topic, GossipMessage source topic data ∈ taken o /\ parse_stream_id topic = Some id /\
    (is_data_topic topic = true -> intact data /\ zlen data <= max_chunk_size cfg).
Proof. intros Hr Hin. destruct (overlay_reachable_ok _ _ _ _ _ Hr) as (_ & _ & Hev & _). by apply Hev. Qed.

(** Nothing takes the chunks out of the relay, so that an overlay reports the
    data of a hundred messages at most, besides those on topics of control,
    which nothing in the program publishes. *)
Theorem hundred_messages local cfg moderation now o : rtc some_step (new_overlay local cfg moderation now) o ->
  zlen (List.filter is_stream_data (emitted o)) <= CHANNEL_CAPACITY + zlen (List.filter is_control_message (taken o)).
Proof. intros Hr. destruct (overlay_reachable_ok _ _ _ _ _ Hr) as ((_ & _ & Hl) & _ & _ & Hc). lia. Qed.
End Overlay.
