(* ===== verification/OverlayProps.v ===== *)
(** * What the overlay does

    The table of peers as its history, and the end of every overlay whose relay
    is not started: the worker waits for room in the channel of chunks, and
    keeps the lock of the swarm. *)

From S2P Require Import Prelude Rust Format Hash StreamTree Peers Moderation Segment Relay DataMessages RelayNode Overlay.

#[local] Open Scope Z_scope.

Section Props.
Context {PeerId : Type} `{Countable PeerId} `{!HashOrder PeerId}.
Context `{HX : Hex} `{B3 : Blake3} `{BW : !Bincode WireSegment} `{AJ : AnnounceJson}.
Context (peer_text : PeerId -> rstring).

#[local] Abbreviation Libp2pOverlay := (Libp2pOverlay (PeerId := PeerId)).
#[local] Abbreviation ov_step := (ov_step peer_text).
#[local] Abbreviation some_step := (some_step peer_text).
#[local] Abbreviation goes := (goes peer_text).

(** ** The table of peers *)

(** What a history, the last operation first, says of a peer. *)
Fixpoint known_as (history : list peer_op) (p : PeerId) : option ConnectionStatus :=
  match history with
  | [] => None
  | op :: history =>
      match op with
      | PeerUp q _ _ => if decide (q = p) then Some Connected else known_as history p
      | PeerDown q => if decide (q = p) then (fun _ => Disconnected) <$> known_as history p else known_as history p
      | PeerTold _ _ _ _ _ => known_as history p
      | PeerDialled i _ => if decide (info_id i = p) then Some (info_status i) else known_as history p
      | PeerForgotten q => if decide (q = p) then None else known_as history p
      end
  end.

Definition status_of (peer : Peer PeerId) : ConnectionStatus := info_status (known_info peer).

Definition keyed (peers : gmap PeerId (Peer PeerId)) : Prop := map_Forall (fun p peer => info_id (known_info peer) = p) peers.

Lemma effect_status peers op history : (forall p, status_of <$> peers !! p = known_as history p) ->
  forall p, status_of <$> peer_effect peers op !! p = known_as (op :: history) p.
Proof.
  intros Hk p. destruct op as [q now secs|q|q addrs protos agent version|i now|q]; cbn [peer_effect known_as].
  - destruct (decide (q = p)) as [->|Hne]; [by rewrite lookup_insert_eq|by rewrite lookup_insert_ne].
  - rewrite <- Hk. destruct (peers !! q) as [peer|] eqn:Hq.
    + destruct (decide (q = p)) as [->|Hne]; [by rewrite lookup_insert_eq, Hq|by rewrite lookup_insert_ne].
    + destruct (decide (q = p)) as [->|Hne]; [by rewrite Hq|done].
  - rewrite <- Hk. destruct (peers !! q) as [peer|] eqn:Hq; [|done].
    destruct (decide (q = p)) as [->|Hne]; [by rewrite lookup_insert_eq, Hq|by rewrite lookup_insert_ne].
  - destruct (decide (info_id i = p)) as [->|Hne]; [by rewrite lookup_insert_eq|by rewrite lookup_insert_ne].
  - destruct (decide (q = p)) as [->|Hne]; [by rewrite lookup_delete_eq|by rewrite lookup_delete_ne].
Qed.

Lemma peer_effect_keyed peers op : keyed peers -> keyed (peer_effect peers op).
Proof.
  intros Hk. unfold keyed. destruct op as [q now secs|q|q addrs protos agent version|i now|q]; cbn [peer_effect].
  - apply map_Forall_insert_2; [|done]. destruct (peers !! q) eqn:Hq; [exact (Hk q _ Hq)|done].
  - destruct (peers !! q) eqn:Hq; [|done]. apply map_Forall_insert_2; [exact (Hk q _ Hq)|done].
  - destruct (peers !! q) eqn:Hq; [|done]. apply map_Forall_insert_2; [exact (Hk q _ Hq)|done].
  - by apply map_Forall_insert_2.
  - by apply map_Forall_delete.
Qed.

Definition peers_ok (o : Libp2pOverlay) : Prop :=
  (forall p, status_of <$> ov_peers o !! p = known_as (rev (peer_log o)) p) /\ keyed (ov_peers o) /\
  (forall p now secs, PeerUp p now secs ∈ peer_log o -> ConnectionEstablished p ∈ taken o).

Lemma note_peers_ok o op : peers_ok o -> (forall p now secs, op = PeerUp p now secs -> ConnectionEstablished p ∈ taken o) ->
  peers_ok (note_peers o op).
Proof.
  intros (Hs & Hk & Hu) Hop. split; [|split]; cbn.
  - intros p. rewrite rev_app_distr. by apply effect_status.
  - by apply peer_effect_keyed.
  - intros p now secs [Hin|Hin%list_elem_of_singleton]%elem_of_app; [by eapply Hu|by eapply Hop].
Qed.

(** What leaves the table, its history and the notes alone. *)
Lemma peers_same o o' : peers_ok o -> ov_peers o' = ov_peers o -> peer_log o' = peer_log o ->
  (forall e, e ∈ taken o -> e ∈ taken o') -> peers_ok o'.
Proof. unfold peers_ok. intros (Hs & Hk & Hu) -> -> Ht. split_and!; [done..|]. intros p now secs Hin. by eapply Ht, Hu. Qed.

Lemma emit_peers o e accepted : peers_ok o -> peers_ok (emit o e accepted).
Proof. by destruct accepted. Qed.

Lemma handle_event_peers o e now secs accepted o' w' : peers_ok o -> e ∈ taken o ->
  handle_event peer_text o e now secs accepted = (o', w') -> peers_ok o'.
Proof.
  intros Hok Hin. destruct e as [source topic data|p topic|p topic|p addrs protos agent version|p|p|]; cbn [handle_event];
    unfold handle_gossip_message, handle_subscription, handle_connection, handle_disconnection.
  - destruct (parse_stream_id topic); [destruct (is_data_topic topic); [destruct (chunk_of_message _ _ _ _)|]|
      destruct (str_eqb topic discovery_topic); [|destruct (str_eqb topic STREAM_ANNOUNCE_TOPIC)]]; intros [= <- <-]; try done; by apply emit_peers.
  - destruct (parse_stream_id topic); by intros [= <- <-].
  - destruct (parse_stream_id topic); by intros [= <- <-].
  - intros [= <- <-]. by apply note_peers_ok.
  - destruct (peer_allowed peer_text o p); cbn [negb]; intros [= <- <-]; [|done]. apply emit_peers, note_peers_ok; [done|]. by intros ? ? ? [= <- <- <-].
  - intros [= <- <-]. by apply emit_peers, note_peers_ok.
  - by intros [= <- <-].
Qed.

Lemma ov_step_peers o l o' : peers_ok o -> ov_step o l o' -> peers_ok o'.
Proof.
  intros Hok Hs. destruct Hs as [c|i c ok ok2 now o' c' Hi Hact|k w incoming now secs accepted o' w' Hk Hact|e q|m op now]; try exact Hok.
  - cut (peers_ok o'); [done|]. unfold ov_call_act in Hact. destruct (_ && _); [done|].
    assert (Hask : forall m next, ask_relay o m next = Some (o', c') -> peers_ok o').
    { intros m next. unfold ask_relay. destruct (send_message _ _) as [[r [|]]|]; by intros [= <- <-]. }
    destruct c; try exact (Hask _ _ Hact); try discriminate Hact; try (by injection Hact as <- <-).
    + destruct (ov_swarm o); [by injection Hact as <- <-|]. destruct ok; by injection Hact as <- <-.
    + injection Hact as <- <-. by destruct (ov_handle o).
    + injection Hact as <- <-. by apply note_peers_ok.
    + injection Hact as <- <-. by apply note_peers_ok.
    + destruct (ov_swarm o && ok); [destruct ok2|]; by injection Hact as <- <-.
    + destruct (ov_swarm o && ok); by injection Hact as <- <-.
  - cut (peers_ok o'); [done|]. destruct w as [| | |id source data chunk|m| |]; cbn [worker_act] in Hact; unfold hand_chunk, hand_message in Hact; try (by injection Hact as <- <-).
    + destruct (existsb _ _); [done|]. by injection Hact as <- <-.
    + destruct incoming as [e|]; [|by injection Hact as <- <-]. injection Hact as Hact. eapply handle_event_peers; [| |exact Hact].
      * eapply peers_same; [exact Hok|done|done|]. cbn. set_solver.
      * cbn. set_solver.
    + destruct (publish_chunk _ _) as [[r [|]]|]; [|by injection Hact as <- <-|done]. injection Hact as <- <-. by apply emit_peers.
    + destruct (send_message _ _) as [[r [|]]|]; [by injection Hact as <- <-..|done].
    + done.
Qed.

(** The peers listed as connected are those whose last change was that a
    connection was established and let in: a connection closed, a call to
    disconnect and a call to connect again each take a peer off the list, and
    the last does so although the connection stands. *)
Theorem connected_peers_spec local cfg moderation now o : rtc some_step (new_overlay local cfg moderation now) o ->
  (forall p, status_of <$> ov_peers o !! p = known_as (rev (peer_log o)) p) /\
  (forall p, p ∈ map info_id (list_connected (ov_peers o)) <-> known_as (rev (peer_log o)) p = Some Connected) /\
  (forall p now secs, PeerUp p now secs ∈ peer_log o -> ConnectionEstablished p ∈ taken o).
Proof.
  intros Hr. assert (Hok : peers_ok o).
  { revert o Hr. refine (rtc_ind_r _ _ _ _); [|intros y z _ [l Hs] Hy; by eapply ov_step_peers].
    split; [done|]. split; [apply map_Forall_empty|]. by intros ? ? ? ?%not_elem_of_nil. }
  destruct Hok as (Hs & Hk & Hu). split; [done|]. split; [|done]. intros p. rewrite <- Hs. unfold list_connected. rewrite map_map.
  rewrite list_elem_of_fmap. split.
  - intros (peer & -> & [Hin Hc]%list_elem_of_In%filter_In). apply bool_decide_eq_true in Hc. apply list_elem_of_In in Hin.
    unfold values in Hin. apply list_elem_of_fmap in Hin as ([q x] & -> & Hq%elem_of_map_iter). cbn in *. rewrite (Hk _ _ Hq), Hq. cbn. by f_equal.
  - intros (peer & Hc & Hp)%fmap_Some. exists peer. split; [symmetry; by apply (Hk p)|]. apply list_elem_of_In, filter_In. split.
    + apply list_elem_of_In. unfold values. apply list_elem_of_fmap. exists (p, peer). split; [done|]. by apply elem_of_map_iter.
    + by apply bool_decide_eq_true.
Qed.

(** ** The end of an overlay *)

Definition stalled (cfg : RelayConfig) (k : nat) (o : Libp2pOverlay) : Prop :=
  (exists id source data chunk, ov_workers o !! k = Some (Handing id source data chunk) /\ zlen (chunk_data chunk) <= max_chunk_size cfg) /\
  (forall j w, ov_workers o !! j = Some w -> holds_swarm w = true -> j = k) /\
  relay_ok cfg (ov_relay o) /\ zlen (chunk_channel (ov_relay o)) = CHANNEL_CAPACITY.

(** What does not change while the lock is held. *)
Definition halted (o o' : Libp2pOverlay) : Prop :=
  taken o' = taken o /\ emitted o' = emitted o /\ published o' = published o /\ ov_topics o' = ov_topics o /\
  forall i c, ov_calls o !! i = Some c -> wants_swarm c = true -> ov_calls o' !! i = Some c.

Lemma stalled_locked cfg k o : stalled cfg k o -> existsb holds_swarm (ov_workers o) = true.
Proof.
  intros ((id & source & data & chunk & Hk & _) & _). apply existsb_exists. exists (Handing id source data chunk). split; [|done].
  apply list_elem_of_In. by eapply list_elem_of_lookup_2.
Qed.

Lemma stalled_blocked cfg (r : RelayNode PeerId) chunk : relay_ok cfg r -> zlen (chunk_channel r) = CHANNEL_CAPACITY ->
  zlen (chunk_data chunk) <= max_chunk_size cfg -> publish_chunk r chunk = None.
Proof.
  intros (Hp & Hc & _) Hfull Hsz. unfold publish_chunk. rewrite Hp, Hc, Hfull. cbn [closed].
  destruct (Z.ltb_spec (max_chunk_size cfg) (zlen (chunk_data chunk))); [lia|]. by rewrite Z.ltb_irrefl.
Qed.

Lemma stalled_worker cfg k o w incoming now secs accepted o' w' j : stalled cfg k o -> ov_workers o !! j = Some w ->
  worker_act peer_text o w incoming now secs accepted = Some (o', w') -> o' = o /\ j <> k /\ holds_swarm w' = false.
Proof.
  intros Hst Hj. pose proof (stalled_locked _ _ _ Hst) as Hl. destruct Hst as ((id & source & data & chunk & Hk & Hsz) & Hone & Hr & Hfull).
  assert (Hne : holds_swarm w = false -> j <> k) by (intros Hw ->; rewrite Hk in Hj; by injection Hj as <-).
  assert (Hhold : holds_swarm w = true -> w = Handing id source data chunk).
  { intros Hw. pose proof (Hone _ _ Hj Hw) as ->. rewrite Hk in Hj. by injection Hj. }
  destruct w as [| | |id1 source1 data1 chunk1|m| |]; cbn [worker_act]; unfold hand_chunk, hand_message.
  - intros [= <- <-]. split_and!; [done|by apply Hne|by destruct (ov_running o)].
  - by rewrite Hl.
  - by specialize (Hhold eq_refl).
  - specialize (Hhold eq_refl). injection Hhold as -> -> -> ->. by rewrite (stalled_blocked _ _ _ Hr Hfull Hsz).
  - by specialize (Hhold eq_refl).
  - intros [= <- <-]. split_and!; [done|by apply Hne|done].
  - done.
Qed.

(** A section of a call that does not want the swarm leaves the workers as they
    were, but for a new one, and the channel of chunks. *)
Definition same_core (o o' : Libp2pOverlay) : Prop :=
  taken o' = taken o /\ emitted o' = emitted o /\ published o' = published o /\ ov_topics o' = ov_topics o /\
  ov_calls o' = ov_calls o /\ (ov_workers o' = ov_workers o \/ ov_workers o' = ov_workers o ++ [Looping]) /\
  chunk_channel (ov_relay o') = chunk_channel (ov_relay o) /\ forall cfg, relay_ok cfg (ov_relay o) -> relay_ok cfg (ov_relay o').

Lemma call_same_core o c ok ok2 now o' c' : existsb holds_swarm (ov_workers o) = true ->
  match c with CStop | CAbort => False | _ => True end -> ov_call_act o c ok ok2 now = Some (o', c') -> wants_swarm c = false /\ same_core o o'.
Proof.
  intros Hl Hc. unfold ov_call_act. rewrite Hl, andb_true_r. destruct (wants_swarm c) eqn:Hw; [done|]. intros Hact. split; [done|].
  assert (Hid : same_core o o) by (unfold same_core; split_and!; auto).
  assert (Hask : forall m next, ask_relay o m next = Some (o', c') -> same_core o o').
  { intros m next. unfold ask_relay. destruct (send_message (ov_relay o) m) as [[r res]|] eqn:Hs; [|done].
    assert (Hr : chunk_channel r = chunk_channel (ov_relay o) /\ forall cfg, relay_ok cfg (ov_relay o) -> relay_ok cfg r).
    { split; [|intros cfg Hr; by destruct (send_message_idle _ _ _ _ _ Hr Hs)]. revert Hs. unfold send_message.
      destruct (closed _); [by intros [= <- <-]|]. destruct (_ <? _); [|done]. by intros [= <- <-]. }
    destruct res; intros [= <- <-]; unfold same_core; cbn; split_and!; auto; apply Hr. }
  destruct c; try discriminate Hw; try done; try exact (Hask _ _ Hact); injection Hact as <- <-; try exact Hid; unfold same_core; cbn; split_and!; auto.
Qed.

Lemma stalled_same cfg k o o' : stalled cfg k o -> same_core o o' -> stalled cfg k o'.
Proof.
  intros ((id & source & data & chunk & Hk & Hsz) & Hone & Hr & Hfull) (_ & _ & _ & _ & _ & Hw & Hch & Hr'). unfold stalled.
  rewrite Hch. destruct Hw as [->| ->].
  - split_and!; [by exists id, source, data, chunk|done|by apply Hr'..|done].
  - split; [|split; [|split; [by apply Hr'|done]]].
    + exists id, source, data, chunk. split; [|done]. rewrite lookup_app_l; [done|]. by eapply lookup_lt_Some.
    + intros j w Hj Hh. apply lookup_app_Some in Hj as [Hj|[_ Hj]]; [by eapply Hone|]. apply list_lookup_singleton_Some in Hj as [_ <-]. done.
Qed.

Lemma stalled_step cfg k o l o' : stalled cfg k o -> ov_step o l o' -> l = Goes -> stalled cfg k o' /\ halted o o'.
Proof.
  intros Hst Hs Hgoes. assert (Hid : halted o o) by (unfold halted; split_and!; auto).
  destruct Hs as [c|i c ok ok2 now o' c' Hi Hact|j w incoming now secs accepted o' w' Hj Hact|e q|m op now].
  - split; [exact Hst|]. unfold halted. split_and!; try done. intros i c' Hi _. cbn. rewrite lookup_app_l; [done|]. by eapply lookup_lt_Some.
  - destruct (call_same_core o c ok ok2 now o' c' (stalled_locked _ _ _ Hst)) as [Hw Hsame]; [by destruct c|done|].
    split; [exact (stalled_same _ _ _ _ Hst Hsame)|]. destruct Hsame as (Ht & He & Hp & Htop & Hcs & _). unfold halted. cbn. rewrite Hcs.
    split_and!; [done..|]. intros i' c1 Hi' Hw'. rewrite list_lookup_insert_ne; [done|]. intros ->. congruence.
  - destruct (stalled_worker _ _ _ _ _ _ _ _ _ _ _ Hst Hj Hact) as (-> & Hne & Hh). split; [|exact Hid].
    destruct Hst as ((id & source & data & chunk & Hk & Hsz) & Hone & Hr & Hfull). split; [|split; [|done]]; cbn.
    + exists id, source, data, chunk. by rewrite list_lookup_insert_ne.
    + intros j' w1 Hj' Hh'. destruct (decide (j' = j)) as [->|Hne']; [|rewrite list_lookup_insert_ne in Hj' by done; by eapply Hone].
      rewrite list_lookup_insert_eq in Hj' by (by eapply lookup_lt_Some). injection Hj' as <-. congruence.
  - split; [exact Hst|exact Hid].
  - split; [exact Hst|exact Hid].
Qed.

Lemma stalled_for_ever cfg k o o' : rtc goes o o' -> stalled cfg k o -> halted o o'.
Proof.
  induction 1 as [o|o o1 o2 Hs _ IH]; intros Hst; [unfold halted; split_and!; auto|].
  destruct (stalled_step _ _ _ _ _ Hst Hs eq_refl) as [Hst1 (Ht & He & Hp & Htop & Hc)].
  destruct (IH Hst1) as (Ht' & He' & Hp' & Htop' & Hc'). unfold halted. rewrite Ht', He', Hp', Htop'. split_and!; auto.
Qed.

(** ** The way there *)

(** The one worker of a running overlay waits for an event. *)
Definition polling (cfg : RelayConfig) (o : Libp2pOverlay) : Prop :=
  ov_workers o = [Polling] /\ ov_running o = true /\ ov_swarm o = true /\ relay_ok cfg (ov_relay o).

(** A message for the data of a stream that the handler passes to the relay. *)
Definition relayed_message (limit : Z) (e : SwarmEvent (PeerId := PeerId)) : Prop :=
  match e with
  | GossipMessage _ topic data => is_Some (parse_stream_id topic) /\ is_data_topic topic = true /\ intact data /\ zlen data <= limit
  | _ => False
  end.

Lemma work_step o k w incoming accepted o' w' : ov_workers o !! k = Some w ->
  worker_act peer_text o w incoming 0 0 accepted = Some (o', w') ->
  goes o (Overlay.set_tasks o' (<[k := w']> (ov_workers o')) (ov_handle o') (ov_calls o')).
Proof. intros Hk Hact. exact (os_work _ o k w incoming 0 0 accepted o' w' Hk Hact). Qed.

Lemma alone_step o w incoming o' w' : ov_workers o = [w] -> worker_act peer_text o w incoming 0 0 true = Some (o', w') -> ov_workers o' = [w] ->
  goes o (Overlay.set_tasks o' [w'] (ov_handle o') (ov_calls o')).
Proof. intros Hw Hact Hw'. pose proof (work_step o 0 w incoming true o' w') as Hs. rewrite Hw, Hw' in Hs. by apply Hs. Qed.

Lemma receive_message cfg o e : polling cfg o -> relayed_message (max_chunk_size cfg) e ->
  exists o1 id source data chunk, goes o o1 /\ ov_workers o1 = [Handing id source data chunk] /\ zlen (chunk_data chunk) <= max_chunk_size cfg /\
    ov_running o1 = true /\ ov_swarm o1 = true /\ ov_relay o1 = ov_relay o /\ taken o1 = taken o ++ [e] /\ emitted o1 = emitted o.
Proof.
  intros (Hw & Hrun & Hsw & Hr) He. destruct e as [source topic data| | | | | |]; try done. destruct He as ([id Hid] & Hd & Hi & Hsz).
  destruct (intact_chunk id data source 0 Hi) as (chunk & Hc & Hdata).
  eexists _, id, source, data, chunk. split.
  - eapply (work_step o 0 Polling (Some (GossipMessage source topic data)) true); [by rewrite Hw|].
    cbn [worker_act handle_event]. unfold handle_gossip_message. by rewrite Hid, Hd, Hc.
  - cbn. rewrite Hw. cbn. rewrite Hdata. by split_and!.
Qed.

Lemma publish_chunk_room cfg (r : RelayNode PeerId) chunk : relay_ok cfg r -> zlen (chunk_channel r) < CHANNEL_CAPACITY ->
  zlen (chunk_data chunk) <= max_chunk_size cfg ->
  publish_chunk r chunk = Some (with_channels r (chunk_channel r ++ [chunk]) (message_channel r), ROk tt).
Proof.
  intros (Hp & Hc & _) Hroom Hsz. unfold publish_chunk. rewrite Hp, Hc. destruct (Z.ltb_spec (max_chunk_size cfg) (zlen (chunk_data chunk))); [lia|].
  cbn [closed]. by destruct (Z.ltb_spec (zlen (chunk_channel r)) CHANNEL_CAPACITY); [|lia].
Qed.

Lemma serve_message cfg o e : polling cfg o -> relayed_message (max_chunk_size cfg) e -> zlen (chunk_channel (ov_relay o)) < CHANNEL_CAPACITY ->
  exists o', rtc goes o o' /\ polling cfg o' /\ taken o' = taken o ++ [e] /\
    zlen (chunk_channel (ov_relay o')) = zlen (chunk_channel (ov_relay o)) + 1 /\
    zlen (List.filter is_stream_data (emitted o')) = zlen (List.filter is_stream_data (emitted o)) + 1.
Proof.
  intros Hpoll He Hroom. destruct (receive_message cfg o e Hpoll He) as (o1 & id & source & data & chunk & Hs1 & Hw1 & Hsz & Hrun & Hsw & Hr1 & Ht1 & He1).
  destruct Hpoll as (_ & _ & _ & Hr).
  pose proof (publish_chunk_room cfg (ov_relay o) chunk Hr Hroom Hsz) as Hpub.
  destruct (publish_chunk_idle _ _ _ _ _ Hr Hpub) as [Hr' Hres].
  destruct Hres as [_ Hlen]. eexists. split.
  - eapply rtc_l; [exact Hs1|]. eapply rtc_l; [eapply (alone_step o1 _ None); [exact Hw1| |]|].
    { cbn [worker_act]. unfold hand_chunk. rewrite Hr1, Hpub. reflexivity. }
    { exact Hw1. }
    eapply rtc_l; [eapply (alone_step _ _ None); [reflexivity|cbn; rewrite Hrun; reflexivity|reflexivity]|].
    eapply rtc_l; [eapply (alone_step _ _ None); [reflexivity|cbn; rewrite Hsw; reflexivity|reflexivity]|]. apply rtc_refl.
  - cbn. rewrite Ht1, He1. unfold polling. cbn. rewrite Hrun, Hsw. split; [by split_and!|]. split; [done|]. split; [exact Hlen|]. by rewrite filter_snoc.
Qed.

Lemma serve_messages cfg es : forall o, polling cfg o -> Forall (relayed_message (max_chunk_size cfg)) es ->
  zlen (chunk_channel (ov_relay o)) + zlen es <= CHANNEL_CAPACITY ->
  exists o', rtc goes o o' /\ polling cfg o' /\ taken o' = taken o ++ es /\
    zlen (chunk_channel (ov_relay o')) = zlen (chunk_channel (ov_relay o)) + zlen es /\
    zlen (List.filter is_stream_data (emitted o')) = zlen (List.filter is_stream_data (emitted o)) + zlen es.
Proof.
  induction es as [|e es IH]; intros o Hp Hes Hroom.
  - exists o. rewrite app_nil_r, zlen_nil, !Z.add_0_r. by split_and!.
  - apply list.Forall_cons in Hes as [He Hes]. rewrite zlen_cons in Hroom. pose proof (zlen_nonneg es).
    destruct (serve_message cfg o e Hp He) as (o1 & Hr1 & Hp1 & Ht1 & Hc1 & Hn1); [lia|].
    destruct (IH o1 Hp1 Hes) as (o2 & Hr2 & Hp2 & Ht2 & Hc2 & Hn2); [lia|]. exists o2. rewrite zlen_cons. split_and!; [by etrans|done| |lia|lia].
    by rewrite Ht2, Ht1, <- app_assoc.
Qed.

Lemma call_step o c ok ok2 o' c' i : ov_calls o !! i = Some c -> match c with CStop | CAbort => False | _ => True end ->
  ov_call_act o c ok ok2 0 = Some (o', c') ->
  goes o (Overlay.set_tasks o' (ov_workers o') (ov_handle o') (<[i := c']> (ov_calls o'))).
Proof.
  intros Hi Hc Hact. pose proof (os_act peer_text o i c ok ok2 0 o' c' Hi Hact) as Hs. unfold Overlay.goes. by destruct c.
Qed.

(** ** The start *)

Definition starting (cfg : RelayConfig) (run swarm : bool) (ws : list worker_phase) (c : ov_call) (o : Libp2pOverlay) : Prop :=
  (ov_workers o = ws /\ ov_calls o = [c] /\ ov_running o = run /\ ov_swarm o = swarm) /\
  relay_ok cfg (ov_relay o) /\ taken o = [] /\ chunk_channel (ov_relay o) = [] /\ emitted o = [].

Lemma starting_call cfg run swarm ws c o o' c' : starting cfg run swarm ws c o -> match c with CStop | CAbort => False | _ => True end ->
  ov_call_act o c true true 0 = Some (o', c') ->
  ov_calls o' = ov_calls o -> ov_relay o' = ov_relay o -> taken o' = taken o -> emitted o' = emitted o ->
  exists o2, goes o o2 /\ starting cfg (ov_running o') (ov_swarm o') (ov_workers o') c' o2.
Proof.
  intros ((_ & Hc & _) & Hr & Ht & Hch & He) Hgo Hact Hcs Hr' Ht' He'. eexists. split.
  - eapply (call_step o c true true o' c' 0); [by rewrite Hc|exact Hgo|exact Hact].
  - unfold starting. cbn. by rewrite Hcs, Hc, Hr', Ht', He'.
Qed.

Lemma starting_worker cfg run swarm w c o w' : starting cfg run swarm [w] c o -> worker_act peer_text o w None 0 0 true = Some (o, w') ->
  exists o2, goes o o2 /\ starting cfg run swarm [w'] c o2.
Proof.
  intros ((Hw & Hc & Hrun & Hsw) & Hr) Hact. eexists. split; [eapply (alone_step o w None o w' Hw Hact Hw)|].
  split; [|exact Hr]. by rewrite <- Hrun, <- Hsw, <- Hc.
Qed.

(** [start], and the first steps of its worker. *)
Lemma overlay_starts local cfg moderation now : exists o, rtc goes (new_overlay local cfg moderation now) o /\ polling cfg o /\
  taken o = [] /\ chunk_channel (ov_relay o) = [] /\ emitted o = [].
Proof.
  set (o0 := new_overlay local cfg moderation now).
  assert (H0s : exists o1, goes o0 o1 /\ starting cfg false false [] CStart o1).
  { eexists. split; [exact (os_call _ o0 CStart eq_refl)|]. split; [done|]. split; [done|done]. }
  destruct H0s as (o1 & Hs1 & H1).
  destruct (starting_call _ _ _ _ _ o1 o1 CStartSwarm H1) as (o2 & Hs2 & H2); [done..|].
  destruct H1 as ((Hw1 & _ & Hr1 & Hsw1) & _). rewrite Hw1, Hr1, Hsw1 in H2.
  destruct (starting_call _ _ _ _ _ o2 (set_flags o2 (ov_running o2) true ({[discovery_topic; STREAM_ANNOUNCE_TOPIC]} ∪ ov_topics o2)) CStartRun H2)
    as (o3 & Hs3 & H3); [done| |done..|].
  { destruct H2 as ((Hw & _ & _ & Hsw) & _). unfold ov_call_act. rewrite Hw, Hsw. reflexivity. }
  destruct H2 as ((Hw2 & _ & Hr2 & _) & _). cbn in H3. rewrite Hw2, Hr2 in H3.
  destruct (starting_call _ _ _ _ _ o3 (set_flags o3 true (ov_swarm o3) (ov_topics o3)) CSpawn H3) as (o4 & Hs4 & H4); [done..|].
  destruct H3 as ((Hw3 & _ & _ & Hsw3) & _). cbn in H4. rewrite Hw3, Hsw3 in H4.
  destruct (starting_call _ _ _ _ _ o4 (Overlay.set_tasks o4 (ov_workers o4 ++ [Looping]) (Some (length (ov_workers o4))) (ov_calls o4)) (CReturned true) H4)
    as (o5 & Hs5 & H5); [done..|].
  destruct H4 as ((Hw4 & _ & Hr4 & Hsw4) & _). cbn in H5. rewrite Hw4, Hr4, Hsw4 in H5.
  destruct (starting_worker _ _ _ _ _ o5 Locking H5) as (o6 & Hs6 & H6); [destruct H5 as ((_ & _ & Hr5 & _) & _); cbn; by rewrite Hr5|].
  destruct (starting_worker _ _ _ _ _ o6 Polling H6) as (o7 & Hs7 & H7).
  { destruct H6 as ((Hw6 & _ & _ & Hsw6) & _). cbn. by rewrite Hw6, Hsw6. }
  exists o7. split; [do 7 (eapply rtc_l; [eassumption|]); apply rtc_refl|].
  destruct H7 as ((Hw & _ & Hrun & Hsw) & Hrel & Hrest). exact (conj (conj Hw (conj Hrun (conj Hsw Hrel))) Hrest).
Qed.

(** C16: The relay of an overlay is never started, so its channel of chunks fills up
    with the data of a hundred messages. The worker waits for room with the
    next, and keeps the lock of the swarm while it does: from then on, whatever
    else happens short of a stop, no event of the network is handled, nothing
    is published, no topic is subscribed to, and every call that wants the
    swarm waits for ever. *)
Theorem relay_stalls_overlay local cfg moderation now es : zlen es = CHANNEL_CAPACITY + 1 ->
  Forall (relayed_message (max_chunk_size cfg)) es ->
  exists o, rtc goes (new_overlay local cfg moderation now) o /\ taken o = es /\
    zlen (List.filter is_stream_data (emitted o)) = CHANNEL_CAPACITY /\
    forall o', rtc goes o o' -> halted o o'.
Proof.
  intros Hlen Hes. destruct (overlay_starts local cfg moderation now) as (o0 & Hr0 & Hp0 & Ht0 & Hc0 & He0).
  destruct (exists_last (l := es)) as (front & e & ->); [intros ->; discriminate Hlen|].
  apply Forall_app in Hes as [Hfront He]. apply list.Forall_cons in He as [He _].
  rewrite zlen_app in Hlen. change (zlen [e]) with 1 in Hlen.
  destruct (serve_messages cfg front o0 Hp0 Hfront) as (o1 & Hr1 & Hp1 & Ht1 & Hc1 & Hn1); [rewrite Hc0, zlen_nil; lia|].
  rewrite Hc0, zlen_nil in Hc1. rewrite He0 in Hn1. change (zlen (List.filter is_stream_data [])) with 0 in Hn1.
  destruct (receive_message cfg o1 e Hp1 He) as (o2 & id & source & data & chunk & Hs & Hw & Hsz & _ & _ & Hr2 & Ht2 & He2).
  exists o2. split; [|split; [|split]].
  - etrans; [exact Hr0|]. etrans; [exact Hr1|]. by apply rtc_once.
  - by rewrite Ht2, Ht1, Ht0.
  - rewrite He2. lia.
  - intros o' Hr. apply (stalled_for_ever cfg 0 o2 o' Hr). unfold stalled. rewrite Hr2. split; [|split; [|split]].
    + exists id, source, data, chunk. by rewrite Hw.
    + intros j w Hj _. rewrite Hw in Hj. by apply list_lookup_singleton_Some in Hj as [? _].
    + apply Hp1.
    + lia.
Qed.
End Props.

(** ** Scripts *)

Inductive ov_command (PeerId : Type) : Type :=
| Issue (c : ov_call (PeerId := PeerId))
| Advance (i : nat)
| Work (k : nat) (incoming : option (SwarmEvent (PeerId := PeerId))).
#[local] Arguments Issue {PeerId}.
#[local] Arguments Advance {PeerId}.
#[local] Arguments Work {PeerId}.

Section Scripts.
Context {PeerId : Type} `{Countable PeerId} `{!HashOrder PeerId}.
Context `{HX : Hex} `{B3 : Blake3} `{BW : !Bincode WireSegment} `{AJ : AnnounceJson}.
Context (peer_text : PeerId -> rstring).

Definition ov_exec (o : Libp2pOverlay (PeerId := PeerId)) (cmd : ov_command PeerId) : option (Libp2pOverlay (PeerId := PeerId)) :=
  match cmd with
  | Issue c => if is_entry c then Some (Overlay.set_tasks o (ov_workers o) (ov_handle o) (ov_calls o ++ [c])) else None
  | Advance i =>
      c ← ov_calls o !! i; r ← ov_call_act o c true true 0;
      Some (Overlay.set_tasks (fst r) (ov_workers (fst r)) (ov_handle (fst r)) (<[i := snd r]> (ov_calls (fst r))))
  | Work k incoming =>
      w ← ov_workers o !! k; r ← worker_act peer_text o w incoming 0 0 true;
      Some (Overlay.set_tasks (fst r) (<[k := snd r]> (ov_workers (fst r))) (ov_handle (fst r)) (ov_calls (fst r)))
  end.

Fixpoint ov_exec_all (o : Libp2pOverlay (PeerId := PeerId)) (cmds : list (ov_command PeerId)) : option (Libp2pOverlay (PeerId := PeerId)) :=
  match cmds with
  | [] => Some o
  | cmd :: cmds => o' ← ov_exec o cmd; ov_exec_all o' cmds
  end.

Lemma ov_exec_step o cmd o' : ov_exec o cmd = Some o' -> some_step peer_text o o'.
Proof.
  destruct cmd as [c|i|k incoming]; cbn [ov_exec].
  - destruct (is_entry c) eqn:Hc; [|done]. intros [= <-]. eexists. by apply os_call.
  - intros (c & Hi & ([o1 c1] & Hact & [= <-])%bind_Some)%bind_Some. eexists. by eapply os_act.
  - intros (w & Hk & ([o1 w1] & Hact & [= <-])%bind_Some)%bind_Some. eexists. by eapply os_work.
Qed.

Lemma ov_exec_steps o cmds o' : ov_exec_all o cmds = Some o' -> rtc (some_step peer_text) o o'.
Proof.
  revert o. induction cmds as [|cmd cmds IH]; intros o; cbn [ov_exec_all]; [by intros [= ->]|].
  intros (o1 & Hc & Hrest)%bind_Some. eapply rtc_l; [by eapply ov_exec_step|by apply IH].
Qed.
End Scripts.

(** ** Examples *)

#[local] Existing Instance demo_blake3.
#[local] Existing Instance demo_bincode.
#[local] Existing Instance lowercase_hex.
#[local] Instance no_announcements : AnnounceJson := fun _ => None.

Definition demo_text (p : positive) : rstring := [Zpos p].
Definition demo_limits : RelayConfig :=
  {| max_buffer_size := 10; max_chunk_size := 100; inactivity_timeout := 60; enable_hop_removal := true |}.

(** Peer 9 is blocked. *)
Definition demo_moderation : ModerationManager :=
  fst (mod_effect (new_moderation {| persistence_path := None; auto_persist := false; whitelist_only := false |})
    (BlockPeer (demo_text 9) None) 0).

Definition demo_overlay : Libp2pOverlay (PeerId := positive) := new_overlay 1%positive demo_limits (Some demo_moderation) 0.

Definition start_script : list (ov_command positive) :=
  [Issue CStart; Advance 0; Advance 0; Advance 0; Advance 0; Work 0 None; Work 0 None].
Definition receive_script (e : SwarmEvent (PeerId := positive)) : list (ov_command positive) := [Work 0 (Some e); Work 0 None; Work 0 None].

Definition blocked_message : SwarmEvent (PeerId := positive) := GossipMessage 9%positive (stream_data [7]) [1; 2; 3].

(** A peer that the moderation blocks is not put into the table of peers, and
    that is all: the connection stands, and what it publishes is reported. *)
Theorem blocked_peer_is_heard : exists o, rtc (some_step demo_text) demo_overlay o /\
  ov_moderation o = Some demo_moderation /\ is_peer_allowed demo_moderation (demo_text 9) = false /\
  taken o = [ConnectionEstablished 9%positive; blocked_message] /\
  ov_peers o !! 9%positive = None /\ emitted o = [StreamData [7] 9%positive [1; 2; 3]].
Proof.
  destruct (ov_exec_all demo_text demo_overlay (start_script ++ receive_script (ConnectionEstablished 9%positive) ++
    [Work 0 (Some blocked_message); Work 0 None])) as [o|] eqn:He; [|vm_compute in He; discriminate He].
  exists o. split; [by eapply ov_exec_steps|]. vm_compute in He. injection He as <-.
  split; [vm_compute; reflexivity|]. split; [vm_compute; reflexivity|]. split; [vm_compute; reflexivity|]. split; vm_compute; reflexivity.
Qed.

(** A peer arrives, and publishes a message on each topic of a stream. *)
Definition demo_script : list (ov_command positive) :=
  start_script ++ receive_script (ConnectionEstablished 2%positive) ++
  receive_script (GossipMessage 2%positive (stream_control [7]) [4]) ++
  [Work 0 (Some (GossipMessage 2%positive (stream_data [7]) [1; 2; 3])); Work 0 None].

Definition demo_heard : Libp2pOverlay (PeerId := positive) := default demo_overlay (ov_exec_all demo_text demo_overlay demo_script).

Lemma demo_heard_reached : rtc (some_step demo_text) demo_overlay demo_heard.
Proof. apply (ov_exec_steps demo_text _ demo_script). vm_compute. reflexivity. Qed.

Lemma stream_data_is_authentic_witness : exists topic, GossipMessage 2%positive topic [1; 2; 3] ∈ taken demo_heard /\
  parse_stream_id topic = Some [7] /\ (is_data_topic topic = true -> intact [1; 2; 3] /\ zlen [1; 2; 3] <= max_chunk_size demo_limits).
Proof.
  apply (stream_data_is_authentic demo_text 1%positive demo_limits (Some demo_moderation) 0 demo_heard [7] 2%positive [1; 2; 3]).
  - exact demo_heard_reached.
  - replace (emitted demo_heard) with
      [PeerConnected 2%positive (inbound_info 2%positive 0); StreamData [7] 2%positive [4]; StreamData [7] 2%positive [1; 2; 3]]
      by (vm_compute; reflexivity).
    right. right. left.
Defined.

Lemma hundred_messages_witness :
  zlen (List.filter is_stream_data (emitted demo_heard)) = 2 /\
  zlen (List.filter is_stream_data (emitted demo_heard)) <= CHANNEL_CAPACITY + zlen (List.filter is_control_message (taken demo_heard)).
Proof.
  split; [vm_compute; reflexivity|].
  apply (hundred_messages demo_text 1%positive demo_limits (Some demo_moderation) 0 demo_heard). exact demo_heard_reached.
Defined.

Lemma connected_peers_spec_witness : 2%positive ∈ map info_id (list_connected (ov_peers demo_heard)).
Proof.
  destruct (connected_peers_spec demo_text 1%positive demo_limits (Some demo_moderation) 0 demo_heard demo_heard_reached) as (_ & Hc & _).
  apply Hc. vm_compute. reflexivity.
Defined.

Lemma relay_stalls_overlay_witness : exists o, rtc (goes demo_text) demo_overlay o /\
  taken o = replicate 101 (GossipMessage 2%positive (stream_data [7]) [1; 2; 3]) /\
  forall o', rtc (goes demo_text) o o' -> taken o' = taken o.
Proof.
  destruct (relay_stalls_overlay demo_text 1%positive demo_limits (Some demo_moderation) 0
    (replicate 101 (GossipMessage 2%positive (stream_data [7]) [1; 2; 3]))) as (o & Hr & Ht & _ & Hh).
  - reflexivity.
  - apply Forall_replicate. split; [by exists [7]|]. split; [reflexivity|]. split; [exact I|]. apply Z.leb_le. reflexivity.
  - exists o. split; [exact Hr|]. split; [exact Ht|]. intros o' Hr'. by destruct (Hh o' Hr').
Defined.
