(* ===== verification/Discovery.v ===== *)
(** * Discovery of peers

    Models [core/src/discovery/]: the records of [interface.rs], the Kademlia
    service of [dht.rs] and the bootstrap service of [bootstrap.rs]. Their
    swarms are libp2p's: what these report is an argument of a step, and so are
    the clocks, [Instant]s in nanoseconds. A step of a task is one critical
    section, one wait that ended, or one event handed to the channel. A sender
    waits, before it puts an event into its channel and after, while the channel
    holds more events than its buffer has places. A service is started once, and
    a bootstrap service that was started has its swarm. *)

From S2P Require Import Prelude Rust Hash StreamDiscovery.

#[local] Open Scope Z_scope.

(** ** Addresses *)

Inductive Protocol : Type :=
| Ip4 (addr : Z)
| Ip6 (addr : Z)
| Tcp (port : Z)
| P2p (peer_id : bytes)
| OtherProtocol (code : Z).

Definition Multiaddr : Type := list Protocol.

Inductive IpAddr : Type := V4 (addr : Z) | V6 (addr : Z).
Definition SocketAddr : Type := (IpAddr * Z)%type.

Fixpoint extract_peer_id_from_multiaddr (addr : Multiaddr) : option bytes :=
  match addr with
  | [] => None
  | P2p peer_id :: _ => Some peer_id
  | _ :: addr => extract_peer_id_from_multiaddr addr
  end.

(** The last address and the last port win. *)
Definition socket_parts (parts : option IpAddr * option Z) (component : Protocol) : option IpAddr * option Z :=
  match component with
  | Ip4 a => (Some (V4 a), snd parts)
  | Ip6 a => (Some (V6 a), snd parts)
  | Tcp p => (fst parts, Some p)
  | _ => parts
  end.

Definition extract_socket_addr_from_multiaddr (addr : Multiaddr) : option SocketAddr :=
  match fold_left socket_parts addr (None, None) with
  | (Some ip, Some port) => Some (ip, port)
  | _ => None
  end.

(** ** Peers and events *)

Inductive ConnectionStatus : Type := Disconnected | Connecting | Connected | Failed.

Record PeerInfo : Type := {
  id : bytes;
  addresses : list SocketAddr;
  protocols : list rstring;
  metadata : gmap rstring bytes;
  first_seen : option Z;
  last_seen : option Z;
  connection_status : ConnectionStatus;
}.

Inductive DiscoveryEvent : Type :=
| PeerDiscovered (peer_info : PeerInfo)
| PeerUpdated (peer_info : PeerInfo)
| PeerExpired (peer_id : bytes)
| DiscoveryFailure (text : rstring).

(** A peer that is seen at [now], by the clock of the system. *)
Definition seen (peer_id : bytes) (addrs : list SocketAddr) (protos : list rstring) (status : ConnectionStatus) (now : Z) : PeerInfo :=
  {| id := peer_id; addresses := addrs; protocols := protos; metadata := ∅; first_seen := Some now; last_seen := Some now;
     connection_status := status |}.

Definition PeerCache : Type := gmap bytes (PeerInfo * Z).

Definition remember (cache : PeerCache) (i : PeerInfo) (now : Z) : PeerCache := <[id i := (i, now)]> cache.

Definition matches_criteria (criteria : rstring) (i : PeerInfo) : bool :=
  match criteria with [] => true | _ => existsb (fun p => contains_text p criteria) (protocols i) end.

(** [now.duration_since(last)], which is zero when [last] is later. *)
Definition age (now last : Z) : Z := Z.max 0 (now - last).

(** A channel with a place of its own for the one sender that uses it. *)
Definition channel_free (buffer : Z) (queue : list DiscoveryEvent) : bool := zlen queue <=? buffer.

Section Services.
Context {HO : HashOrder bytes}.

Definition select_peers (keep : PeerInfo * Z -> bool) (cache : PeerCache) : list PeerInfo :=
  map fst (List.filter keep (values cache)).

Lemma elem_of_select_peers keep cache i :
  i ∈ select_peers keep cache <-> exists k t, cache !! k = Some (i, t) /\ keep (i, t) = true.
Proof.
  unfold select_peers. rewrite list_elem_of_fmap. split.
  - intros ([j t] & -> & [Hin Hk]%list_elem_of_In%filter_In). apply list_elem_of_In in Hin. unfold values in Hin.
    apply list_elem_of_fmap in Hin as ([k [j' t']] & [= -> ->] & Hin%elem_of_map_iter). by exists k, t'.
  - intros (k & t & Hk & Hkeep). exists (i, t). split; [done|]. apply list_elem_of_In, filter_In. split; [|done].
    apply list_elem_of_In. unfold values. apply list_elem_of_fmap. exists (k, (i, t)). split; [done|]. by apply elem_of_map_iter.
Qed.

(** ** The DHT *)

Definition PEER_EXPIRATION : Z := 3600 * second.

(** [mpsc::channel(32)]; [event_buffer_size] is not read. *)
Definition dht_buffer : Z := 32.

Inductive QueryType : Type :=
| FindPeer (peer_id : bytes)
| FindClosestPeers (criteria : rstring)
| PutRecord (key : rstring).

(** What the swarm of the DHT reports. *)
Inductive dht_event : Type :=
| DhtEstablished (peer_id : bytes)
| DhtClosed (peer_id : bytes)
| ClosestPeers (query : Z) (found : list bytes)
| OtherQuery (query : Z)
| RoutingUpdated (peer_id : bytes) (addrs : list Multiaddr)
| OtherDhtEvent.

(** What is left to do for an event: peers to store and report, peers to report
    as gone, and a query that is over. *)
Inductive report : Type :=
| Found (peer_id : bytes) (addrs : list SocketAddr) (status : ConnectionStatus) (updated : bool)
| Left (peer_id : bytes).

Definition dht_reports (e : dht_event) : list report * option Z :=
  match e with
  | DhtEstablished p => ([Found p [] Connected false], None)
  | DhtClosed p => ([Left p], None)
  | ClosestPeers query found => (map (fun p => Found p [] Disconnected false) found, Some query)
  | OtherQuery query => ([], Some query)
  | RoutingUpdated p addrs => ([Found p (omap extract_socket_addr_from_multiaddr addrs) Disconnected true], None)
  | OtherDhtEvent => ([], None)
  end.

(** Where the task is; from [DhtRunning] to [DhtReturning] it has taken the swarm
    out of its place. *)
Inductive dht_phase : Type :=
| DhtStarting
| DhtTaking
| DhtSleeping
| DhtRunning
| DhtPolling
| DhtReporting (todo : list report) (query : option Z)
| DhtSending (e : DiscoveryEvent) (todo : list report) (query : option Z)
| DhtFlushing (todo : list report) (query : option Z)
| DhtReturning
| DhtEnded.

Definition has_taken (p : dht_phase) : bool :=
  match p with DhtStarting | DhtTaking | DhtSleeping | DhtEnded => false | _ => true end.

(** The last two fields are notes for the theorems: the queries that were made,
    and the events of the swarm that were handled. *)
Record Dht : Type := {
  dht_running : bool;
  dht_cache : PeerCache;
  active_queries : gmap Z QueryType;
  own_info : option PeerInfo;
  dht_swarm : bool;
  dht_task : dht_phase;
  dht_queue : list DiscoveryEvent;
  asked : list QueryType;
  dht_handled : list dht_event;
}.

(** [with_config], and [start] up to the store of the flag. *)
Definition spawned_dht : Dht :=
  {| dht_running := false; dht_cache := ∅; active_queries := ∅; own_info := None; dht_swarm := true; dht_task := DhtStarting;
     dht_queue := []; asked := []; dht_handled := [] |}.

Definition dht_with (d : Dht) (run swarm : bool) (p : dht_phase) : Dht :=
  {| dht_running := run; dht_cache := dht_cache d; active_queries := active_queries d; own_info := own_info d; dht_swarm := swarm;
     dht_task := p; dht_queue := dht_queue d; asked := asked d; dht_handled := dht_handled d |}.
Definition dht_move (d : Dht) (p : dht_phase) : Dht := dht_with d (dht_running d) (dht_swarm d) p.
Definition dht_know (d : Dht) (c : PeerCache) : Dht :=
  {| dht_running := dht_running d; dht_cache := c; active_queries := active_queries d; own_info := own_info d; dht_swarm := dht_swarm d;
     dht_task := dht_task d; dht_queue := dht_queue d; asked := asked d; dht_handled := dht_handled d |}.
Definition dht_own (d : Dht) (i : PeerInfo) : Dht :=
  {| dht_running := dht_running d; dht_cache := dht_cache d; active_queries := active_queries d; own_info := Some i; dht_swarm := dht_swarm d;
     dht_task := dht_task d; dht_queue := dht_queue d; asked := asked d; dht_handled := dht_handled d |}.
Definition dht_queries (d : Dht) (qs : gmap Z QueryType) (log : list QueryType) : Dht :=
  {| dht_running := dht_running d; dht_cache := dht_cache d; active_queries := qs; own_info := own_info d; dht_swarm := dht_swarm d;
     dht_task := dht_task d; dht_queue := dht_queue d; asked := log; dht_handled := dht_handled d |}.
Definition dht_events (d : Dht) (q : list DiscoveryEvent) : Dht :=
  {| dht_running := dht_running d; dht_cache := dht_cache d; active_queries := active_queries d; own_info := own_info d; dht_swarm := dht_swarm d;
     dht_task := dht_task d; dht_queue := q; asked := asked d; dht_handled := dht_handled d |}.
Definition dht_note (d : Dht) (e : dht_event) : Dht :=
  {| dht_running := dht_running d; dht_cache := dht_cache d; active_queries := active_queries d; own_info := own_info d; dht_swarm := dht_swarm d;
     dht_task := dht_task d; dht_queue := dht_queue d; asked := asked d; dht_handled := dht_handled d ++ [e] |}.

(** [run_swarm_loop] and [handle_kademlia_event]. *)
Definition dht_act (d : Dht) (incoming : option dht_event) (now now_system : Z) : option Dht :=
  match dht_task d with
  | DhtStarting => Some (dht_move d (if dht_running d then DhtTaking else DhtEnded))
  | DhtTaking => Some (if dht_swarm d then dht_with d (dht_running d) false DhtRunning else dht_move d DhtSleeping)
  | DhtSleeping => Some (dht_move d DhtStarting)
  | DhtRunning => Some (dht_move d (if dht_running d then DhtPolling else DhtReturning))
  | DhtPolling =>
      match incoming with
      | Some e => let '(todo, query) := dht_reports e in Some (dht_move (dht_note d e) (DhtReporting todo query))
      | None => None
      end
  | DhtReporting [] query =>
      let d := match query with Some q => dht_queries d (delete q (active_queries d)) (asked d) | None => d end in
      Some (dht_move d DhtRunning)
  | DhtReporting (Found p addrs status updated :: todo) query =>
      let i := seen p addrs [] status now_system in
      let e := if updated then PeerUpdated i else PeerDiscovered i in
      Some (dht_move (dht_know d (remember (dht_cache d) i now)) (DhtSending e todo query))
  | DhtReporting (Left p :: todo) query => Some (dht_move d (DhtSending (PeerExpired p) todo query))
  | DhtSending e todo query =>
      if channel_free dht_buffer (dht_queue d) then Some (dht_move (dht_events d (dht_queue d ++ [e])) (DhtFlushing todo query)) else None
  | DhtFlushing todo query => if channel_free dht_buffer (dht_queue d) then Some (dht_move d (DhtReporting todo query)) else None
  | DhtReturning => Some (dht_with d (dht_running d) true DhtStarting)
  | DhtEnded => None
  end.

(** What libp2p takes for the bytes of a peer, and the key of its record. *)
Context (valid_peer_id : bytes -> bool) (record_key : bytes -> rstring).

(** A query to the swarm, if it is in its place. *)
Definition dht_ask (d : Dht) (q : QueryType) (query : Z) : Dht := dht_queries d (<[query := q]> (active_queries d)) (asked d ++ [q]).

Definition dht_announce (d : Dht) (i : PeerInfo) (query now : Z) (accepted : bool) : Dht * bool :=
  if valid_peer_id (id i) then
    let d := dht_know (dht_own d i) (remember (dht_cache d) i now) in
    if dht_swarm d then if accepted then (dht_ask d (PutRecord (record_key (id i))) query, true) else (d, false)
    else (d, true)
  else (d, false).

Definition dht_cached (d : Dht) (peer_id : bytes) : option PeerInfo := fst <$> dht_cache d !! peer_id.

(** The second half of [lookup_peer], for a peer that is not in the cache. *)
Definition dht_seek (d : Dht) (peer_id : bytes) (query : Z) : Dht * bool :=
  if dht_swarm d then if valid_peer_id peer_id then (dht_ask d (FindPeer peer_id) query, true) else (d, false) else (d, true).

Definition dht_lookup (d : Dht) (peer_id : bytes) (query : Z) : Dht * option (option PeerInfo) :=
  match dht_cached d peer_id with
  | Some i => (d, Some (Some i))
  | None => let '(d, ok) := dht_seek d peer_id query in (d, if ok : bool then Some None else None)
  end.

(** The two halves of [find_peers]. *)
Definition dht_matching (d : Dht) (criteria : rstring) : list PeerInfo :=
  select_peers (fun e => matches_criteria criteria (fst e)) (dht_cache d).

Definition dht_search (d : Dht) (criteria : rstring) (query : Z) : Dht :=
  if dht_swarm d then dht_ask d (FindClosestPeers criteria) query else d.

Definition dht_discovered (d : Dht) (now : Z) : list PeerInfo :=
  select_peers (fun e => age now (snd e) <? PEER_EXPIRATION) (dht_cache d).

(** The calls, as far as they change the service. *)
Inductive dht_call : Type :=
| DhtMark
| DhtHalt
| DhtAbort
| DhtAnnounce (i : PeerInfo) (query now : Z) (accepted : bool)
| DhtSeek (peer_id : bytes) (query : Z)
| DhtSearch (criteria : rstring) (query : Z).

Definition dht_effect (d : Dht) (c : dht_call) : Dht :=
  match c with
  | DhtMark => dht_with d true (dht_swarm d) (dht_task d)
  | DhtHalt => dht_with d false (dht_swarm d) (dht_task d)
  | DhtAbort => dht_with d (dht_running d) false DhtEnded
  | DhtAnnounce i query now accepted => fst (dht_announce d i query now accepted)
  | DhtSeek peer_id query => fst (dht_seek d peer_id query)
  | DhtSearch criteria query => dht_search d criteria query
  end.

(** ** Bootstrap nodes *)

Record BootstrapConfig : Type := {
  bootstrap_nodes : list Multiaddr;
  bootstrap_nodes_legacy : list SocketAddr;
  boot_buffer : Z;
  boot_expiration : Z;
}.

(** The legacy addresses are formatted as IPv4 ones and parsed again. *)
Definition legacy_multiaddr (a : SocketAddr) : exec Multiaddr :=
  match a with (V4 ip, port) => Done [Ip4 ip; Tcp port] | (V6 _, _) => Panic end.

Definition with_config (config : BootstrapConfig) : exec BootstrapConfig :=
  let! nodes := for_each (fun nodes a => let! m := legacy_multiaddr a in Done (nodes ++ [m])) (bootstrap_nodes_legacy config) (bootstrap_nodes config) in
  Done {| bootstrap_nodes := nodes; bootstrap_nodes_legacy := bootstrap_nodes_legacy config; boot_buffer := boot_buffer config;
          boot_expiration := boot_expiration config |}.

(** What the swarm reports while a bootstrap node is dialled. *)
Inductive boot_event : Type :=
| BootEstablished (peer_id : bytes) (remote : Multiaddr)
| BootIdentified (peer_id : bytes) (listen_addrs : list Multiaddr) (protos : list rstring)
| BootRefused (text : rstring)
| OtherBootEvent.

(** Where the task is. *)
Inductive boot_phase : Type :=
| BootWaiting
| BootDialling (nodes : list Multiaddr)
| BootConnecting (nodes : list Multiaddr) (found : list PeerInfo)
| BootStoring (nodes : list Multiaddr) (found : list PeerInfo)
| BootSending (e : DiscoveryEvent) (next : boot_phase)
| BootFlushing (next : boot_phase)
| BootListing
| BootRemoving (expired : list bytes)
| BootTelling (expired : list bytes)
| BootEnded.

Record Boot : Type := {
  boot_config : BootstrapConfig;
  boot_running : bool;
  boot_cache : PeerCache;
  boot_task : boot_phase;
  boot_queue : list DiscoveryEvent;
  boot_handled : list boot_event;
}.

Definition spawned_boot (config : BootstrapConfig) : Boot :=
  {| boot_config := config; boot_running := true; boot_cache := ∅; boot_task := BootWaiting; boot_queue := []; boot_handled := [] |}.

Definition boot_with (b : Boot) (run : bool) (c : PeerCache) (p : boot_phase) : Boot :=
  {| boot_config := boot_config b; boot_running := run; boot_cache := c; boot_task := p; boot_queue := boot_queue b; boot_handled := boot_handled b |}.
Definition boot_move (b : Boot) (p : boot_phase) : Boot := boot_with b (boot_running b) (boot_cache b) p.
Definition boot_events (b : Boot) (q : list DiscoveryEvent) : Boot :=
  {| boot_config := boot_config b; boot_running := boot_running b; boot_cache := boot_cache b; boot_task := boot_task b; boot_queue := q;
     boot_handled := boot_handled b |}.
Definition boot_note (b : Boot) (e : boot_event) : Boot :=
  {| boot_config := boot_config b; boot_running := boot_running b; boot_cache := boot_cache b; boot_task := boot_task b; boot_queue := boot_queue b;
     boot_handled := boot_handled b ++ [e] |}.

Definition remember_all (cache : PeerCache) (found : list PeerInfo) (now : Z) : PeerCache :=
  fold_left (fun cache i => remember cache i now) found cache.

Definition is_expired (config : BootstrapConfig) (now : Z) (e : PeerInfo * Z) : bool := boot_expiration config * second <? age now (snd e).

Definition expired_ids (config : BootstrapConfig) (cache : PeerCache) (now : Z) : list bytes :=
  map fst (List.filter (fun e => is_expired config now (snd e)) (map_iter cache)).

(** One pass through the body of the loop of [connect_to_bootstrap]: what the
    swarm has within a tenth of a second. *)
Definition connect_act (nodes : list Multiaddr) (found : list PeerInfo) (incoming : option boot_event) (now_system : Z) : boot_phase :=
  match incoming with
  | Some (BootEstablished p remote) =>
      let i := seen p (match extract_socket_addr_from_multiaddr remote with Some a => [a] | None => [] end) [] Connected now_system in
      BootSending (PeerDiscovered i) (BootStoring nodes (found ++ [i]))
  | Some (BootIdentified p addrs protos) =>
      let i := seen p (omap extract_socket_addr_from_multiaddr addrs) protos Connected now_system in
      BootSending (PeerDiscovered i) (BootConnecting nodes (found ++ [i]))
  | Some (BootRefused text) => BootSending (DiscoveryFailure text) (BootDialling nodes)
  | Some OtherBootEvent | None => BootConnecting nodes found
  end.

(** [start_discovery_task]. [failed] is the text of the error when a node cannot
    be dialled or the time for the connection is over. *)
Definition boot_act (b : Boot) (incoming : option boot_event) (failed : option rstring) (now now_system : Z) : option Boot :=
  match boot_task b with
  | BootWaiting => Some (boot_move b (BootDialling (bootstrap_nodes (boot_config b))))
  | BootDialling [] => Some (boot_move b BootListing)
  | BootDialling (addr :: nodes) =>
      Some (boot_move b (match failed with
                         | Some text => BootSending (DiscoveryFailure text) (BootDialling nodes)
                         | None => BootConnecting nodes []
                         end))
  | BootConnecting nodes found =>
      match failed with
      | Some text => Some (boot_move b (BootSending (DiscoveryFailure text) (BootDialling nodes)))
      | None =>
          let b := match incoming with Some e => boot_note b e | None => b end in
          Some (boot_move b (connect_act nodes found incoming now_system))
      end
  | BootStoring nodes found => Some (boot_with b (boot_running b) (remember_all (boot_cache b) found now) (BootDialling nodes))
  | BootSending e next =>
      if channel_free (boot_buffer (boot_config b)) (boot_queue b) then Some (boot_move (boot_events b (boot_queue b ++ [e])) (BootFlushing next)) else None
  | BootFlushing next => if channel_free (boot_buffer (boot_config b)) (boot_queue b) then Some (boot_move b next) else None
  | BootListing => Some (boot_move b (BootRemoving (expired_ids (boot_config b) (boot_cache b) now)))
  | BootRemoving expired =>
      Some (boot_with b (boot_running b) (fold_left (fun cache p => delete p cache) expired (boot_cache b)) (BootTelling expired))
  | BootTelling [] => Some (boot_move b BootWaiting)
  | BootTelling (p :: expired) =>
      if channel_free (boot_buffer (boot_config b)) (boot_queue b) then Some (boot_move (boot_events b (boot_queue b ++ [PeerExpired p])) (BootTelling expired))
      else Some (boot_move b BootWaiting)
  | BootEnded => None
  end.

Definition boot_announce (b : Boot) (i : PeerInfo) (now : Z) : Boot :=
  boot_with b (boot_running b) (remember (boot_cache b) i now) (boot_task b).

Definition boot_lookup (b : Boot) (peer_id : bytes) : option PeerInfo := fst <$> boot_cache b !! peer_id.

Definition boot_fresh (b : Boot) (now : Z) (e : PeerInfo * Z) : bool := age now (snd e) <? boot_expiration (boot_config b) * second.

Definition boot_find (b : Boot) (criteria : rstring) (now : Z) : list PeerInfo :=
  select_peers (fun e => boot_fresh b now e && matches_criteria criteria (fst e)) (boot_cache b).

Definition boot_discovered (b : Boot) (now : Z) : list PeerInfo := select_peers (boot_fresh b now) (boot_cache b).

Definition boot_stop (b : Boot) : Boot := if boot_running b then boot_with b false (boot_cache b) BootEnded else b.
End Services.
