(* ===== verification/Locations.v ===== *)
(** * Where a peer is

    Models the rest of [core/src/overlay/topology/geo.rs]: the names of regions,
    the lookup of an address and [GeoLocation::from_peer_info], which takes a
    location out of a peer's metadata or of its addresses. Text in lower case, and
    the parsing of numbers and addresses, are parameters. *)

From S2P Require Import Prelude Rust Format Float Geo Hash StreamTree Relay DataMessages StreamDiscovery Discovery Peers.

#[local] Open Scope Z_scope.

Section Locations.
Context {PeerId : Type} (to_lowercase : rstring -> rstring) (parse_f64 : rstring -> option float) (parse_ip : rstring -> option IpAddr).

(** [Region::from_str], which never fails. *)
Definition region_of_text (s : rstring) : Region :=
  let s := to_lowercase s in
  if one_of s ["na"; "north_america"] then NorthAmerica
  else if one_of s ["sa"; "south_america"] then SouthAmerica
  else if one_of s ["eu"; "europe"] then Europe
  else if one_of s ["as"; "asia"] then Asia
  else if one_of s ["af"; "africa"] then Africa
  else if one_of s ["oc"; "oceania"] then Oceania
  else UnknownRegion.

Definition show_region (r : Region) : rstring :=
  match r with
  | NorthAmerica => str "north_america" | SouthAmerica => str "south_america" | Europe => str "europe" | Asia => str "asia"
  | Africa => str "africa" | Oceania => str "oceania" | UnknownRegion => str "unknown"
  end.

Definition default_location : GeoLocation :=
  {| latitude := f64_of 0; longitude := f64_of 0; country := str "XX"; Geo.region := UnknownRegion; city := None; asn := None |}.

(** [GeoIP]: the last byte decides. *)
Definition last_byte (ip : IpAddr) : Z := match ip with V4 addr | V6 addr => addr mod 256 end.
Definition lookup (ip : IpAddr) : rstring := lookup_country (last_byte ip).
Definition locate (ip : IpAddr) : GeoLocation := lookup_location (last_byte ip).

Definition colon : Z := 58.

Definition extract_ip_from_addr (addr : rstring) : option IpAddr :=
  match split_on colon addr with first :: _ => parse_ip first | [] => None end.

Definition from_peer_info (peer : Peers.PeerInfo PeerId) : GeoLocation :=
  let metadata := info_metadata peer in
  let number key := default (f64_of 0) (metadata !! str key ≫= parse_f64) in
  match metadata !! str "region" with
  | Some region_str =>
      {| latitude := number "latitude"; longitude := number "longitude"; country := default (str "XX") (metadata !! str "country");
         Geo.region := region_of_text region_str; city := metadata !! str "city"; asn := metadata !! str "asn" |}
  | None => match omap extract_ip_from_addr (addresses peer) with ip :: _ => locate ip | [] => default_location end
  end.

(** ** Properties *)

(** A region reads back what it is shown as, where lower case leaves such a text
    alone. *)
Theorem region_roundtrip r : to_lowercase (show_region r) = show_region r -> region_of_text (show_region r) = r.
Proof. intros Hl. unfold region_of_text. rewrite Hl. by destruct r. Qed.

(** A looked-up country always has its region and its place. *)
Lemma located_country ip : country (locate ip) = lookup ip /\ Geo.region (locate ip) = country_to_region (lookup ip) /\ Geo.region (locate ip) <> UnknownRegion.
Proof.
  unfold locate, lookup, lookup_location, lookup_country. pose proof (Z.mod_pos_bound (last_byte ip) 4 ltac:(lia)) as Hm.
  assert (Hc : last_byte ip mod 4 = 0 \/ last_byte ip mod 4 = 1 \/ last_byte ip mod 4 = 2 \/ last_byte ip mod 4 = 3) by lia.
  by destruct Hc as [->|[->|[->| ->]]].
Qed.

Lemma split_on_slash (addr : rstring) : match split_on colon (slash :: addr) with first :: _ => exists rest, first = slash :: rest | [] => False end.
Proof. cbn. destruct (split_on colon addr) as [|p ps]; [by exists []|by exists p]. Qed.

(** The addresses that the overlay notes are written [/ip4/...]; of such
    addresses none gives a location: a peer without metadata is nowhere. *)
Theorem multiaddrs_are_nowhere (peer : Peers.PeerInfo PeerId) : (forall s, parse_ip (slash :: s) = None) ->
  Forall (fun addr => exists rest, addr = slash :: rest) (addresses peer) -> info_metadata peer !! str "region" = None ->
  from_peer_info peer = default_location.
Proof.
  intros Hparse Haddr Hregion. unfold from_peer_info. rewrite Hregion.
  assert (Hnone : omap extract_ip_from_addr (addresses peer) = []).
  { induction Haddr as [|addr addrs [rest ->] _ IH]; [done|]. cbn [omap list_omap]. unfold extract_ip_from_addr at 1.
    pose proof (split_on_slash rest) as Hs. destruct (split_on colon (slash :: rest)) as [|p ps]; [done|]. destruct Hs as [r ->]. by rewrite Hparse. }
  by rewrite Hnone.
Qed.
End Locations.

Lemma region_roundtrip_witness : region_of_text (fun s => s) (show_region Asia) = Asia.
Proof. apply (region_roundtrip (fun s => s) Asia). reflexivity. Defined.

Definition demo_nowhere : Peers.PeerInfo positive :=
  {| info_id := 1%positive; addresses := [str "/ip4/10.0.0.1/tcp/9000"]; info_role := UnknownRole; info_status := Connected; last_seen := 0; protocols := [];
     info_metadata := ∅; info_latency_ms := None; Peers.region := None; bandwidth_capacity := None |}.

Lemma multiaddrs_are_nowhere_witness :
  from_peer_info (fun s => s) (fun _ => None) (fun s => match s with c :: _ => if c =? slash then None else Some (V4 1) | [] => None end) demo_nowhere = default_location.
Proof.
  apply multiaddrs_are_nowhere; [reflexivity| |reflexivity]. repeat constructor. by eexists.
Defined.
