(* ===== verification/DiscoveryManager.v ===== *)
(** * The manager of discovery

    Models [core/src/discovery/mod.rs]: the services it starts and stops, the
    worker that takes their events, and the queue for its own. Calls come one
    at a time, since the overlay keeps the manager under a lock; a call is made
    of its sections. The locks of the services are held for a second at most
    and are not modelled: the sections of their calls and the sockets of their
    events interleave freely. Each [start] makes new services, and the old ones
    live on as long as a task of theirs does, so they are kept in lists. *)

From S2P Require Import Prelude Rust Hash StreamDiscovery Discovery.

#[local] Open Scope Z_scope.

Section Manager.
Context {HO : HashOrder bytes} (valid_peer_id : bytes -> bool) (record_key : bytes -> rstring).

(** [mpsc::channel(100)], of tokio. *)
Definition manager_buffer : Z := 100.

Record ManagerConfig : Type := {
  enable_dht : bool;
  enable_bootstrap : bool;
  bootstrap_config : BootstrapConfig;
}.

Inductive worker_phase : Type :=
| WorkChecking
| WorkSelecting
| WorkHanding (e : DiscoveryEvent)
| WorkEnded.

(** A worker, with the services it was started for; [shut] when the sender of
    its signal is gone. *)
Record worker : Type := { w_dht : option nat; w_boot : option nat; w_phase : worker_phase; shut : bool }.

(** The call under way, by its next section. *)
Inductive manager_call : Type :=
| MgIdle
| MgStart | MgDhtMark (i : nat) | MgBoot | MgSpawn
| MgStop | MgDhtAbort (i : nat) | MgBootStop | MgClear
| MgAnnounce (i : PeerInfo) | MgAnnounceBoot (i : PeerInfo).

Record Manager : Type := {
  mg_config : ManagerConfig;
  mg_dhts : list Dht;
  mg_boots : list Boot;
  mg_dht : option nat;
  mg_boot : option nat;
  mg_peers : gmap bytes PeerInfo;
  mg_queue : list DiscoveryEvent;
  mg_running : bool;
  mg_workers : list worker;
  mg_call : manager_call;
  mg_results : list bool;
}.

Definition new_manager (config : ManagerConfig) : Manager :=
  {| mg_config := config; mg_dhts := []; mg_boots := []; mg_dht := None; mg_boot := None; mg_peers := ∅; mg_queue := [];
     mg_running := false; mg_workers := []; mg_call := MgIdle; mg_results := [] |}.

Definition set_services (m : Manager) (ds : list Dht) (bs : list Boot) (d b : option nat) : Manager :=
  {| mg_config := mg_config m; mg_dhts := ds; mg_boots := bs; mg_dht := d; mg_boot := b; mg_peers := mg_peers m; mg_queue := mg_queue m;
     mg_running := mg_running m; mg_workers := mg_workers m; mg_call := mg_call m; mg_results := mg_results m |}.
Definition set_own (m : Manager) (ps : gmap bytes PeerInfo) (q : list DiscoveryEvent) (run : bool) : Manager :=
  {| mg_config := mg_config m; mg_dhts := mg_dhts m; mg_boots := mg_boots m; mg_dht := mg_dht m; mg_boot := mg_boot m; mg_peers := ps;
     mg_queue := q; mg_running := run; mg_workers := mg_workers m; mg_call := mg_call m; mg_results := mg_results m |}.
Definition set_workers (m : Manager) (ws : list worker) : Manager :=
  {| mg_config := mg_config m; mg_dhts := mg_dhts m; mg_boots := mg_boots m; mg_dht := mg_dht m; mg_boot := mg_boot m; mg_peers := mg_peers m;
     mg_queue := mg_queue m; mg_running := mg_running m; mg_workers := ws; mg_call := mg_call m; mg_results := mg_results m |}.
Definition calling (m : Manager) (c : manager_call) : Manager :=
  {| mg_config := mg_config m; mg_dhts := mg_dhts m; mg_boots := mg_boots m; mg_dht := mg_dht m; mg_boot := mg_boot m; mg_peers := mg_peers m;
     mg_queue := mg_queue m; mg_running := mg_running m; mg_workers := mg_workers m; mg_call := c; mg_results := mg_results m |}.
Definition answer (m : Manager) (ok : bool) : Manager :=
  {| mg_config := mg_config m; mg_dhts := mg_dhts m; mg_boots := mg_boots m; mg_dht := mg_dht m; mg_boot := mg_boot m; mg_peers := mg_peers m;
     mg_queue := mg_queue m; mg_running := mg_running m; mg_workers := mg_workers m; mg_call := MgIdle; mg_results := mg_results m ++ [ok] |}.

Definition with_dht (m : Manager) (i : nat) (d : Dht) : Manager := set_services m (<[i := d]> (mg_dhts m)) (mg_boots m) (mg_dht m) (mg_boot m).
Definition with_boot (m : Manager) (j : nat) (b : Boot) : Manager := set_services m (mg_dhts m) (<[j := b]> (mg_boots m)) (mg_dht m) (mg_boot m).

Definition dht_now (m : Manager) : option Dht := i ← mg_dht m; mg_dhts m !! i.
Definition boot_now (m : Manager) : option Boot := j ← mg_boot m; mg_boots m !! j.

(** The next section of the call; [ok] is what libp2p answers. *)
Definition manager_act (m : Manager) (ok : bool) (query now : Z) : option Manager :=
  match mg_call m with
  | MgIdle => None
  | MgStart =>
      Some (if mg_running m then answer m true
            else if enable_dht (mg_config m) then
              if ok then calling (set_services m (mg_dhts m ++ [spawned_dht]) (mg_boots m) (mg_dht m) (mg_boot m)) (MgDhtMark (length (mg_dhts m)))
              else answer m false
            else calling m MgBoot)
  | MgDhtMark i =>
      match mg_dhts m !! i with
      | Some d => Some (calling (set_services m (<[i := dht_effect valid_peer_id record_key d DhtMark]> (mg_dhts m)) (mg_boots m) (Some i) (mg_boot m)) MgBoot)
      | None => None
      end
  | MgBoot =>
      if enable_bootstrap (mg_config m) then
        match with_config (bootstrap_config (mg_config m)) with
        | Done config =>
            Some (if ok then calling (set_services m (mg_dhts m) (mg_boots m ++ [spawned_boot config]) (mg_dht m) (Some (length (mg_boots m)))) MgSpawn
                  else answer m false)
        | _ => None
        end
      else Some (calling m MgSpawn)
  | MgSpawn =>
      let old := map (fun w => {| w_dht := w_dht w; w_boot := w_boot w; w_phase := w_phase w; shut := true |}) (mg_workers m) in
      let new := {| w_dht := mg_dht m; w_boot := mg_boot m; w_phase := WorkChecking; shut := false |} in
      Some (answer (set_own (set_workers m (old ++ [new])) (mg_peers m) (mg_queue m) true) true)
  | MgStop =>
      match mg_dht m with
      | Some i =>
          match mg_dhts m !! i with
          | Some d =>
              Some (if dht_running d then calling (with_dht m i (dht_effect valid_peer_id record_key d DhtHalt)) (MgDhtAbort i) else answer m false)
          | None => None
          end
      | None => Some (calling m MgBootStop)
      end
  | MgDhtAbort i =>
      match mg_dhts m !! i with
      | Some d => Some (calling (with_dht m i (dht_effect valid_peer_id record_key d DhtAbort)) MgBootStop)
      | None => None
      end
  | MgBootStop =>
      match mg_boot m with
      | Some j => match mg_boots m !! j with Some b => Some (calling (with_boot m j (boot_stop b)) MgClear) | None => None end
      | None => Some (calling m MgClear)
      end
  | MgClear => Some (answer (set_own m ∅ (mg_queue m) false) true)
  | MgAnnounce i =>
      match mg_dht m with
      | Some k =>
          match mg_dhts m !! k with
          | Some d =>
              let '(d, accepted) := dht_announce valid_peer_id record_key d i query now ok in
              Some (if accepted then calling (with_dht m k d) (MgAnnounceBoot i) else answer (with_dht m k d) false)
          | None => None
          end
      | None => Some (calling m (MgAnnounceBoot i))
      end
  | MgAnnounceBoot i =>
      match mg_boot m with
      | Some j => match mg_boots m !! j with Some b => Some (answer (with_boot m j (boot_announce b i now)) true) | None => None end
      | None => Some (answer m true)
      end
  end.

(** Which arm of the worker's [select!] is taken. *)
Inductive choice : Type := FromBoot | FromDht | TimedOut | Signalled.

Definition worker_at (w : worker) (p : worker_phase) : worker := {| w_dht := w_dht w; w_boot := w_boot w; w_phase := p; shut := shut w |}.

Definition worker_act (m : Manager) (w : worker) (ch : choice) : option (Manager * worker) :=
  match w_phase w with
  | WorkChecking => Some (m, worker_at w (if mg_running m then WorkSelecting else WorkEnded))
  | WorkSelecting =>
      match ch with
      | FromBoot =>
          j ← w_boot w; b ← mg_boots m !! j;
          match boot_queue b with e :: q => Some (with_boot m j (boot_events b q), worker_at w (WorkHanding e)) | [] => None end
      | FromDht =>
          i ← w_dht w; d ← mg_dhts m !! i;
          match dht_queue d with e :: q => Some (with_dht m i (dht_events d q), worker_at w (WorkHanding e)) | [] => None end
      | TimedOut => match w_dht w, w_boot w with None, None => None | _, _ => Some (m, worker_at w WorkChecking) end
      | Signalled => if shut w then Some (m, worker_at w WorkEnded) else None
      end
  | WorkHanding e =>
      if zlen (mg_queue m) <? manager_buffer then Some (set_own m (mg_peers m) (mg_queue m ++ [e]) (mg_running m), worker_at w WorkChecking) else None
  | WorkEnded => None
  end.

(** [get_peers], [lookup_peer]. *)
Definition get_peers (m : Manager) : list PeerInfo := values (mg_peers m).
Definition lookup_peer (m : Manager) (peer_id : bytes) : option PeerInfo := mg_peers m !! peer_id.

(** What can happen next. *)
Inductive command : Type :=
| Issue (c : manager_call)
| Advance (ok : bool) (query now : Z)
| StepDht (i : nat) (incoming : option dht_event) (now now_system : Z)
| StepBoot (j : nat) (incoming : option boot_event) (failed : option rstring) (now now_system : Z)
| StepWorker (k : nat) (ch : choice)
| NextEvent.

Definition is_entry (c : manager_call) : bool := match c with MgStart | MgStop | MgAnnounce _ => true | _ => false end.

Definition run_command (m : Manager) (cmd : command) : option Manager :=
  match cmd with
  | Issue c => match mg_call m with MgIdle => if is_entry c then Some (calling m c) else None | _ => None end
  | Advance ok query now => manager_act m ok query now
  | StepDht i incoming now now_system => d ← mg_dhts m !! i; d ← dht_act d incoming now now_system; Some (with_dht m i d)
  | StepBoot j incoming failed now now_system =>
      b ← mg_boots m !! j; b ← boot_act b incoming failed now now_system; Some (with_boot m j b)
  | StepWorker k ch => w ← mg_workers m !! k; r ← worker_act m w ch; Some (set_workers (fst r) (<[k := snd r]> (mg_workers (fst r))))
  | NextEvent => match mg_queue m with _ :: q => Some (set_own m (mg_peers m) q (mg_running m)) | [] => None end
  end.

Inductive step (m : Manager) : command -> Manager -> Prop :=
| step_command cmd m' : run_command m cmd = Some m' -> step m cmd m'.

Definition some_step (m m' : Manager) : Prop := exists cmd, step m cmd m'.

(** Everything but a stop and the taking of events from the manager, which
    nothing in the program does. *)
Definition is_unread (cmd : command) : bool := match cmd with NextEvent | Issue MgStop => false | _ => true end.
Definition unread (m m' : Manager) : Prop := exists cmd, is_unread cmd = true /\ step m cmd m'.

Fixpoint run_script (m : Manager) (cmds : list command) : option Manager :=
  match cmds with [] => Some m | cmd :: cmds => m ← run_command m cmd; run_script m cmds end.

Lemma run_script_unread m cmds m' : forallb is_unread cmds = true -> run_script m cmds = Some m' -> rtc unread m m'.
Proof.
  revert m. induction cmds as [|cmd cmds IH]; intros m; cbn; [by intros _ [= ->]|].
  intros [Hc Hcs]%andb_prop (m1 & H1 & Hr)%bind_Some. eapply rtc_l; [exists cmd; split; [done|by constructor]|by apply IH].
Qed.

Lemma unread_some m m' : rtc unread m m' -> rtc some_step m m'.
Proof. apply rtc_subrel. intros x y (cmd & _ & Hs). by exists cmd. Qed.
End Manager.
