(* ===== verification/DiscoveryProps.v ===== *)
(** * What discovery does

    The shape of the caches and queues, that a running DHT is never asked
    anything, what a round of the bootstrap service leaves, and the end of a
    service whose events nobody takes. *)

From S2P Require Import Prelude Rust Hash StreamDiscovery Discovery DiscoveryManager.

#[local] Open Scope Z_scope.

Section Props.
Context {HO : HashOrder bytes} (valid_peer_id : bytes -> bool) (record_key : bytes -> rstring).

#[local] Abbreviation step := (step valid_peer_id record_key).
#[local] Abbreviation some_step := (some_step valid_peer_id record_key).
#[local] Abbreviation unread := (unread valid_peer_id record_key).
#[local] Abbreviation dht_effect := (dht_effect valid_peer_id record_key).

(** ** Well-formed services *)

Definition cache_ok (cache : PeerCache) : Prop := map_Forall (fun k e => Discovery.id (fst e) = k) cache.

Definition dht_ok (d : Dht) : Prop :=
  cache_ok (dht_cache d) /\ zlen (dht_queue d) <= dht_buffer + 1 /\ (has_taken (dht_task d) = true -> dht_swarm d = false).

Definition boot_ok (b : Boot) : Prop := cache_ok (boot_cache b) /\ zlen (boot_queue b) <= Z.max 0 (boot_buffer (boot_config b) + 1).

Lemma remember_ok cache i now : cache_ok cache -> cache_ok (remember cache i now).
Proof. intros Hc. by apply map_Forall_insert_2. Qed.

Lemma remember_all_ok found now : forall cache, cache_ok cache -> cache_ok (remember_all cache found now).
Proof. induction found as [|i found IH]; intros cache Hc; [done|]. cbn. by apply IH, remember_ok. Qed.

Lemma forget_all_ok ids : forall cache : PeerCache, cache_ok cache -> cache_ok (fold_left (fun cache p => delete p cache) ids cache).
Proof. induction ids as [|p ids IH]; intros cache Hc; [done|]. cbn. by apply IH, map_Forall_delete. Qed.

Lemma push_ok buffer q e : channel_free buffer q = true -> zlen (q ++ [e]) <= Z.max 0 (buffer + 1).
Proof. intros Hf%Z.leb_le. rewrite zlen_app. change (zlen [e]) with 1. lia. Qed.

Lemma dht_act_ok d incoming now sys d' : dht_ok d -> dht_act d incoming now sys = Some d' -> dht_ok d'.
Proof.
  intros (Hc & Hq & Ht). unfold dht_act, dht_ok. destruct (dht_task d) as [| | | | |todo query|e todo query|todo query| |] eqn:Hp; cbn in Ht.
  - intros [= <-]. cbn. split; [done|]. split; [done|]. by destruct (dht_running d).
  - destruct (dht_swarm d); intros [= <-]; cbn; (split; [done|]; split; done).
  - intros [= <-]. by cbn.
  - intros [= <-]. cbn. split; [done|]. split; [done|]. by destruct (dht_running d).
  - destruct incoming as [e|]; [|done]. destruct (dht_reports e) as [todo query]. intros [= <-]. by cbn.
  - destruct todo as [|[p addrs status updated|p] todo].
    + intros [= <-]. destruct query; by cbn.
    + intros [= <-]. cbn. split; [by apply remember_ok|done].
    + intros [= <-]. by cbn.
  - destruct (channel_free dht_buffer (dht_queue d)) eqn:Hf; [|done]. intros [= <-]. cbn. split; [done|]. split; [by apply (push_ok dht_buffer)|done].
  - destruct (channel_free dht_buffer (dht_queue d)); [|done]. intros [= <-]. by cbn.
  - intros [= <-]. by cbn.
  - done.
Qed.

Lemma dht_announce_ok d i query now accepted : dht_ok d -> dht_ok (fst (dht_announce valid_peer_id record_key d i query now accepted)).
Proof.
  intros (Hc & Hq & Ht). unfold dht_announce. destruct (valid_peer_id _); [|done]. cbn.
  destruct (dht_swarm d) eqn:Hs; [destruct accepted|]; (split; [by apply remember_ok|split; [done|cbn; by rewrite Hs]]).
Qed.

Lemma dht_effect_ok d c : dht_ok d -> dht_ok (dht_effect d c).
Proof.
  intros Hok. pose proof Hok as (Hc & Hq & Ht). destruct c as [| | |i query now accepted|p query|criteria query]; try done; cbn [Discovery.dht_effect].
  - by apply dht_announce_ok.
  - unfold dht_seek. destruct (dht_swarm d) eqn:Hs; [|done]. destruct (valid_peer_id p); [|done]. split; [done|]. split; [done|]. cbn. by rewrite Hs.
  - unfold dht_search. destruct (dht_swarm d) eqn:Hs; [|done]. split; [done|]. split; [done|]. cbn. by rewrite Hs.
Qed.

Lemma dht_take_ok d e q : dht_ok d -> dht_queue d = e :: q -> dht_ok (dht_events d q).
Proof. intros (Hc & Hq & Ht) Heq. rewrite Heq, zlen_cons in Hq. split; [done|]. split; [cbn; lia|done]. Qed.

Lemma boot_move_ok b p : boot_ok b -> boot_ok (boot_move b p).
Proof. done. Qed.

Lemma boot_act_ok b incoming failed now sys b' : boot_ok b -> boot_act b incoming failed now sys = Some b' -> boot_ok b'.
Proof.
  intros (Hc & Hq). unfold boot_act.
  destruct (boot_task b) as [|[|addr nodes]|nodes found|nodes found|e next|next| |expired|[|p expired]|]; try (by intros [= <-]).
  - destruct failed; [by intros [= <-]|]. intros [= <-]. by destruct incoming.
  - intros [= <-]. split; [by apply remember_all_ok|done].
  - destruct (channel_free _ _) eqn:Hf; [|done]. intros [= <-]. split; [done|]. by apply push_ok.
  - destruct (channel_free _ _); [|done]. by intros [= <-].
  - intros [= <-]. split; [by apply forget_all_ok|done].
  - destruct (channel_free _ _) eqn:Hf; intros [= <-]; [|done]. split; [done|]. by apply push_ok.
Qed.

Lemma boot_take_ok b e q : boot_ok b -> boot_queue b = e :: q -> boot_ok (boot_events b q).
Proof. intros (Hc & Hq) Heq. rewrite Heq, zlen_cons in Hq. split; [done|cbn; lia]. Qed.

Lemma boot_announce_ok b i now : boot_ok b -> boot_ok (boot_announce b i now).
Proof. intros (Hc & Hq). split; [by apply remember_ok|done]. Qed.

Lemma boot_stop_ok b : boot_ok b -> boot_ok (boot_stop b).
Proof. unfold boot_stop. by destruct (boot_running b). Qed.

Definition services_ok (m : Manager) : Prop := Forall dht_ok (mg_dhts m) /\ Forall boot_ok (mg_boots m).

Definition manager_ok (m : Manager) : Prop :=
  services_ok m /\ mg_peers m = ∅ /\ zlen (mg_queue m) <= manager_buffer.

Lemma with_dht_ok m i d : manager_ok m -> dht_ok d -> manager_ok (with_dht m i d).
Proof. intros ((Hd & Hb) & Hp & Hq) Hok. split; [|done]. split; [by apply Forall_insert|done]. Qed.

Lemma with_boot_ok m j b : manager_ok m -> boot_ok b -> manager_ok (with_boot m j b).
Proof. intros ((Hd & Hb) & Hp & Hq) Hok. split; [|done]. split; [done|by apply Forall_insert]. Qed.

Lemma spawned_boot_ok config : boot_ok (spawned_boot config).
Proof. split; [apply map_Forall_empty|cbn; rewrite zlen_nil; lia]. Qed.

Lemma the_dht_ok m i d : manager_ok m -> mg_dhts m !! i = Some d -> dht_ok d.
Proof. intros ((Hd & _) & _) Hi. by eapply (Forall_lookup_1 dht_ok). Qed.

Lemma the_boot_ok m j b : manager_ok m -> mg_boots m !! j = Some b -> boot_ok b.
Proof. intros ((_ & Hb) & _) Hj. by eapply (Forall_lookup_1 boot_ok). Qed.

Lemma more_dhts_ok m : manager_ok m -> manager_ok (set_services m (mg_dhts m ++ [spawned_dht]) (mg_boots m) (mg_dht m) (mg_boot m)).
Proof.
  intros ((Hd & Hb) & Hp & Hq). split; [|done]. split; [|done]. apply Forall_app_2; [done|]. repeat constructor; done.
Qed.

Lemma more_boots_ok m config v : manager_ok m -> manager_ok (set_services m (mg_dhts m) (mg_boots m ++ [spawned_boot config]) (mg_dht m) v).
Proof.
  intros ((Hd & Hb) & Hp & Hq). split; [|done]. split; [done|]. apply Forall_app_2; [done|]. constructor; [apply spawned_boot_ok|constructor].
Qed.

Lemma manager_act_ok m ok query now m' : manager_ok m -> manager_act valid_peer_id record_key m ok query now = Some m' -> manager_ok m'.
Proof.
  intros Hok. unfold manager_act. destruct (mg_call m) as [| |i| | | |i| | |i|i]; try done.
  - destruct (mg_running m); [by intros [= <-]|]. destruct (enable_dht _); [destruct ok|]; intros [= <-]; try done. exact (more_dhts_ok m Hok).
  - destruct (mg_dhts m !! i) as [d|] eqn:Hi; [|done]. intros [= <-]. exact (with_dht_ok m i _ Hok (dht_effect_ok d DhtMark (the_dht_ok _ _ _ Hok Hi))).
  - destruct (enable_bootstrap _); [|by intros [= <-]]. destruct (with_config _) as [config| |]; try done. destruct ok; intros [= <-]; [|done].
    exact (more_boots_ok m config _ Hok).
  - by intros [= <-].
  - destruct (mg_dht m) as [i|]; [|by intros [= <-]]. destruct (mg_dhts m !! i) as [d|] eqn:Hi; [|done]. destruct (dht_running d); intros [= <-]; [|done].
    exact (with_dht_ok m i _ Hok (dht_effect_ok d DhtHalt (the_dht_ok _ _ _ Hok Hi))).
  - destruct (mg_dhts m !! i) as [d|] eqn:Hi; [|done]. intros [= <-]. exact (with_dht_ok m i _ Hok (dht_effect_ok d DhtAbort (the_dht_ok _ _ _ Hok Hi))).
  - destruct (mg_boot m) as [j|]; [|by intros [= <-]]. destruct (mg_boots m !! j) as [b|] eqn:Hj; [|done]. intros [= <-].
    exact (with_boot_ok m j _ Hok (boot_stop_ok b (the_boot_ok _ _ _ Hok Hj))).
  - intros [= <-]. destruct Hok as (Hs & _ & Hq). by split.
  - destruct (mg_dht m) as [k|]; [|by intros [= <-]]. destruct (mg_dhts m !! k) as [d|] eqn:Hk; [|done].
    pose proof (dht_announce_ok d i query now ok (the_dht_ok _ _ _ Hok Hk)) as Hd. destruct (dht_announce _ _ _ _ _ _ _) as [d1 accepted].
    destruct accepted; intros [= <-]; exact (with_dht_ok m k d1 Hok Hd).
  - destruct (mg_boot m) as [j|]; [|by intros [= <-]]. destruct (mg_boots m !! j) as [b|] eqn:Hj; [|done]. intros [= <-].
    exact (with_boot_ok m j _ Hok (boot_announce_ok b i now (the_boot_ok _ _ _ Hok Hj))).
Qed.

Lemma manager_worker_ok m w ch m' w' : manager_ok m -> worker_act m w ch = Some (m', w') -> manager_ok m'.
Proof.
  intros Hok. unfold worker_act. destruct (w_phase w) as [| |e|]; [by intros [= <- <-]| | |done].
  - destruct ch.
    + intros (j & _ & (b & Hj & Hr)%bind_Some)%bind_Some. destruct (boot_queue b) as [|e q] eqn:Hq; [done|]. injection Hr as <- <-.
      exact (with_boot_ok m j _ Hok (boot_take_ok b e q (the_boot_ok _ _ _ Hok Hj) Hq)).
    + intros (i & _ & (d & Hi & Hr)%bind_Some)%bind_Some. destruct (dht_queue d) as [|e q] eqn:Hq; [done|]. injection Hr as <- <-.
      exact (with_dht_ok m i _ Hok (dht_take_ok d e q (the_dht_ok _ _ _ Hok Hi) Hq)).
    + destruct (w_dht w), (w_boot w); try done; by intros [= <- <-].
    + destruct (shut w); [by intros [= <- <-]|done].
  - destruct (Z.ltb_spec (zlen (mg_queue m)) manager_buffer); [|done]. intros [= <- <-]. destruct Hok as (Hs & Hp & _). split; [done|]. split; [done|].
    cbn. rewrite zlen_app. change (zlen [e]) with 1. lia.
Qed.

Lemma manager_step_ok m cmd m' : manager_ok m -> step m cmd m' -> manager_ok m'.
Proof.
  intros Hok [cmd' m1 Hs]. destruct cmd' as [c|ok query now|i incoming now sys|j incoming failed now sys|k ch|]; cbn [run_command] in Hs.
  - destruct (mg_call m); [|done..]. destruct (is_entry c); [|done]. by injection Hs as <-.
  - by eapply manager_act_ok.
  - apply bind_Some in Hs as (d & Hi & (d1 & Hd & [= <-])%bind_Some). apply with_dht_ok; [done|]. eapply dht_act_ok; [|exact Hd]. by eapply the_dht_ok.
  - apply bind_Some in Hs as (b & Hj & (b1 & Hb & [= <-])%bind_Some). apply with_boot_ok; [done|]. eapply boot_act_ok; [|exact Hb]. by eapply the_boot_ok.
  - apply bind_Some in Hs as (w & _ & ([m2 w2] & Hw & [= <-])%bind_Some). exact (manager_worker_ok _ _ _ _ _ Hok Hw).
  - destruct (mg_queue m) as [|e q] eqn:Hq; [done|]. injection Hs as <-. destruct Hok as (Hs & Hp & Hl). rewrite Hq, zlen_cons in Hl.
    split; [done|]. split; [done|]. cbn. lia.
Qed.

Lemma manager_reachable_ok config m : rtc some_step (new_manager config) m -> manager_ok m.
Proof.
  revert m. refine (rtc_ind_r _ _ _ _); [by repeat constructor|]. intros y z _ [cmd Hs] Hy. by eapply manager_step_ok.
Qed.

(** C28: Every cache lists a peer under its own identifier, and no queue outgrows its
    channel. The table of the manager itself stays empty, so that it knows no
    peer, whatever the services find. *)
Theorem discovery_well_formed config m : rtc some_step (new_manager config) m ->
  Forall (fun d => cache_ok (dht_cache d) /\ zlen (dht_queue d) <= dht_buffer + 1) (mg_dhts m) /\
  Forall boot_ok (mg_boots m) /\ zlen (mg_queue m) <= manager_buffer /\
  get_peers m = [] /\ forall p, lookup_peer m p = None.
Proof.
  intros ((Hd & Hb) & Hp & Hq)%manager_reachable_ok. split; [|split; [done|split; [done|]]].
  - eapply Forall_impl; [exact Hd|]. intros d (Hc & Hl & _). by split.
  - unfold get_peers, lookup_peer, values. rewrite Hp. split; [|intros p; apply lookup_empty].
    pose proof (length_map_iter (∅ : gmap bytes PeerInfo)) as Hl. rewrite map_size_empty in Hl. by destruct (map_iter ∅).
Qed.

(** ** What a step does to a service *)

Inductive dht_change (d : Dht) : Dht -> Prop :=
| change_none : dht_change d d
| change_act incoming now sys d' : dht_act d incoming now sys = Some d' -> dht_change d d'
| change_call c : dht_change d (dht_effect d c)
| change_take e q : dht_queue d = e :: q -> dht_change d (dht_events d q).

Definition changes (m m' : Manager) : Prop :=
  forall i d, mg_dhts m !! i = Some d -> exists d', mg_dhts m' !! i = Some d' /\ dht_change d d'.

Lemma changes_same m m' : mg_dhts m' = mg_dhts m -> changes m m'.
Proof. intros He i d Hi. exists d. rewrite He. split; [done|constructor]. Qed.

Lemma changes_one m m' i d d' : mg_dhts m !! i = Some d -> mg_dhts m' = <[i := d']> (mg_dhts m) -> dht_change d d' -> changes m m'.
Proof.
  intros Hi He Hc k x Hk. rewrite He. destruct (decide (k = i)) as [->|Hne].
  - rewrite Hi in Hk. injection Hk as <-. exists d'. split; [|done]. apply list_lookup_insert_eq. by eapply lookup_lt_Some.
  - exists x. rewrite list_lookup_insert_ne by done. split; [done|constructor].
Qed.

Lemma manager_act_changes m ok query now m' : manager_act valid_peer_id record_key m ok query now = Some m' -> changes m m'.
Proof.
  unfold manager_act. destruct (mg_call m) as [| |i| | | |i| | |i|i]; try done.
  - destruct (mg_running m); [intros [= <-]; by apply changes_same|]. destruct (enable_dht _); [destruct ok|]; intros [= <-]; try by apply changes_same.
    intros i d Hi. exists d. split; [|constructor]. cbn. rewrite lookup_app_l; [done|]. by eapply lookup_lt_Some.
  - destruct (mg_dhts m !! i) as [d|] eqn:Hi; [|done]. intros [= <-]. eapply changes_one; [exact Hi|reflexivity|exact (change_call d DhtMark)].
  - destruct (enable_bootstrap _); [|intros [= <-]; by apply changes_same]. destruct (with_config _); try done. destruct ok; intros [= <-]; by apply changes_same.
  - intros [= <-]. by apply changes_same.
  - destruct (mg_dht m) as [i|]; [|intros [= <-]; by apply changes_same]. destruct (mg_dhts m !! i) as [d|] eqn:Hi; [|done].
    destruct (dht_running d); intros [= <-]; [|by apply changes_same]. eapply changes_one; [exact Hi|reflexivity|exact (change_call d DhtHalt)].
  - destruct (mg_dhts m !! i) as [d|] eqn:Hi; [|done]. intros [= <-]. eapply changes_one; [exact Hi|reflexivity|exact (change_call d DhtAbort)].
  - destruct (mg_boot m) as [j|]; [|intros [= <-]; by apply changes_same]. destruct (mg_boots m !! j); [|done]. intros [= <-]. by apply changes_same.
  - intros [= <-]. by apply changes_same.
  - destruct (mg_dht m) as [k|]; [|intros [= <-]; by apply changes_same]. destruct (mg_dhts m !! k) as [d|] eqn:Hk; [|done].
    destruct (dht_announce valid_peer_id record_key d i query now ok) as [d1 accepted] eqn:Ha.
    assert (Hc : dht_change d d1) by (replace d1 with (dht_effect d (DhtAnnounce i query now ok)) by (cbn; by rewrite Ha); apply change_call).
    destruct accepted; intros [= <-]; (eapply changes_one; [exact Hk|reflexivity|exact Hc]).
  - destruct (mg_boot m) as [j|]; [|intros [= <-]; by apply changes_same]. destruct (mg_boots m !! j); [|done]. intros [= <-]. by apply changes_same.
Qed.

Lemma step_changes m cmd m' : step m cmd m' -> changes m m'.
Proof.
  intros [cmd' m1 Hs]. destruct cmd' as [c|ok query now|i incoming now sys|j incoming failed now sys|k ch|]; cbn [run_command] in Hs.
  - destruct (mg_call m); [|done..]. destruct (is_entry c); [|done]. injection Hs as <-. by apply changes_same.
  - by eapply manager_act_changes.
  - apply bind_Some in Hs as (d & Hi & (d1 & Hd & [= <-])%bind_Some). eapply changes_one; [exact Hi|reflexivity|by eapply change_act].
  - apply bind_Some in Hs as (b & Hj & (b1 & Hb & [= <-])%bind_Some). by apply changes_same.
  - apply bind_Some in Hs as (w & _ & ([m2 w2] & Hw & [= <-])%bind_Some). cbn. revert Hw. unfold worker_act.
    destruct (w_phase w) as [| |e|]; [intros [= <- <-]; by apply changes_same| | |done].
    + destruct ch.
      * intros (j & _ & (b & Hj & Hr)%bind_Some)%bind_Some. destruct (boot_queue b); [done|]. injection Hr as <- <-. by apply changes_same.
      * intros (i & _ & (d & Hi & Hr)%bind_Some)%bind_Some. destruct (dht_queue d) as [|e q] eqn:Hq; [done|]. injection Hr as <- <-.
        eapply changes_one; [exact Hi|reflexivity|by eapply change_take].
      * destruct (w_dht w), (w_boot w); try done; intros [= <- <-]; by apply changes_same.
      * destruct (shut w); [intros [= <- <-]; by apply changes_same|done].
    + destruct (_ <? _); [|done]. intros [= <- <-]. by apply changes_same.
  - destruct (mg_queue m); [done|]. injection Hs as <-. by apply changes_same.
Qed.

(** ** A running DHT is asked nothing *)

Lemma change_asked d d' : dht_swarm d = false -> dht_change d d' -> asked d' = asked d.
Proof.
  intros Hs [|incoming now sys d1 Hd|c|e q Hq]; try done.
  - revert Hd. unfold dht_act. destruct (dht_task d) as [| | | | |[|[p addrs status updated|p] todo] query|e todo query|todo query| |]; try (by intros [= <-]).
    + rewrite Hs. by intros [= <-].
    + destruct incoming as [e|]; [|done]. destruct (dht_reports e). by intros [= <-].
    + intros [= <-]. by destruct query.
    + destruct (channel_free _ _); [|done]. by intros [= <-].
    + destruct (channel_free _ _); [|done]. by intros [= <-].
  - destruct c as [| | |i query now accepted|p query|criteria query]; try done; cbn [Discovery.dht_effect].
    + unfold dht_announce. destruct (valid_peer_id _); [|done]. cbn. by rewrite Hs.
    + unfold dht_seek. by rewrite Hs.
    + unfold dht_search. by rewrite Hs.
Qed.

(** The task of the DHT takes the swarm out of its place for as long as it runs.
    The calls look for it there: an announcement is not published, a lookup
    answers from the cache alone, and a search makes no query. *)
Theorem running_dht_asks_nothing config m i d : rtc some_step (new_manager config) m -> mg_dhts m !! i = Some d -> has_taken (dht_task d) = true ->
  (forall cmd m', step m cmd m' -> exists d', mg_dhts m' !! i = Some d' /\ asked d' = asked d) /\
  (forall p query, dht_lookup valid_peer_id d p query = (d, Some (dht_cached d p))) /\
  (forall criteria query, dht_search d criteria query = d) /\
  (forall info query now accepted, valid_peer_id (Discovery.id info) = true ->
     snd (dht_announce valid_peer_id record_key d info query now accepted) = true /\
     active_queries (fst (dht_announce valid_peer_id record_key d info query now accepted)) = active_queries d).
Proof.
  intros Hr Hi Ht. pose proof (the_dht_ok _ _ _ (manager_reachable_ok _ _ Hr) Hi) as (_ & _ & Hs). specialize (Hs Ht). split; [|split; [|split]].
  - intros cmd m' Hst. destruct (step_changes _ _ _ Hst i d Hi) as (d' & Hi' & Hc). exists d'. split; [done|]. by apply change_asked.
  - intros p query. unfold dht_lookup, dht_seek. rewrite Hs. by destruct (dht_cached d p).
  - intros criteria query. unfold dht_search. by rewrite Hs.
  - intros info query now accepted Hv. unfold dht_announce. rewrite Hv. cbn. by rewrite Hs.
Qed.

(** ** The end of a service nobody listens to *)

Definition full_dht (d : Dht) : Prop := dht_buffer < zlen (dht_queue d) /\ exists todo query, dht_task d = DhtFlushing todo query.

Definition calm (c : manager_call) : Prop := match c with MgIdle | MgStart | MgAnnounce _ | MgAnnounceBoot _ => True | _ => False end.

Definition waits (w : worker) : Prop := match w_phase w with WorkHanding _ | WorkEnded => True | _ => False end.

Definition stuck (i : nat) (m : Manager) : Prop :=
  mg_running m = true /\ calm (mg_call m) /\ zlen (mg_queue m) = manager_buffer /\
  (forall k w, mg_workers m !! k = Some w -> w_dht w = Some i -> waits w) /\
  exists d, mg_dhts m !! i = Some d /\ full_dht d.

(** What a service that waits keeps. *)
Definition frozen (d d' : Dht) : Prop := dht_handled d' = dht_handled d /\ dht_queue d' = dht_queue d /\ dht_task d' = dht_task d.

Definition kept (i : nat) (m m' : Manager) : Prop :=
  mg_queue m' = mg_queue m /\ forall d, mg_dhts m !! i = Some d -> exists d', mg_dhts m' !! i = Some d' /\ frozen d d'.

Lemma frozen_full d d' : full_dht d -> frozen d d' -> full_dht d'.
Proof. intros [Hq Ht] (_ & Hq' & Ht'). unfold full_dht. by rewrite Hq', Ht'. Qed.

Lemma kept_same i m m' : mg_dhts m' = mg_dhts m -> mg_queue m' = mg_queue m -> kept i m m'.
Proof. intros Hd Hq. split; [done|]. intros d Hi. exists d. by rewrite Hd. Qed.

Lemma kept_one i m m' j d d' : mg_dhts m !! j = Some d -> mg_dhts m' = <[j := d']> (mg_dhts m) -> mg_queue m' = mg_queue m ->
  (j = i -> frozen d d') -> kept i m m'.
Proof.
  intros Hj He Hq Hf. split; [done|]. intros x Hx. rewrite He. destruct (decide (j = i)) as [->|Hne].
  - rewrite Hj in Hx. injection Hx as <-. exists d'. split; [|by apply Hf]. apply list_lookup_insert_eq. by eapply lookup_lt_Some.
  - exists x. rewrite list_lookup_insert_ne by done. done.
Qed.

Lemma kept_stuck i m m' : stuck i m -> kept i m m' -> mg_running m' = mg_running m -> calm (mg_call m') ->
  (forall k w, mg_workers m' !! k = Some w -> w_dht w = Some i -> waits w) -> stuck i m'.
Proof.
  intros (Hrun & Hc & Hq & Hw & d & Hi & Hfull) (Hq' & Hd) Hrun' Hc' Hw'. unfold stuck. rewrite Hrun', Hq'. split; [done|]. split; [done|].
  split; [done|]. split; [done|]. destruct (Hd d Hi) as (d' & Hi' & Hf). exists d'. split; [done|by eapply frozen_full].
Qed.

Lemma announce_frozen d j query now ok : frozen d (fst (dht_announce valid_peer_id record_key d j query now ok)).
Proof. unfold dht_announce. destruct (valid_peer_id _); [|done]. cbn. destruct (dht_swarm d); [by destruct ok|done]. Qed.

Lemma stuck_call i m ok query now m' : stuck i m -> manager_act valid_peer_id record_key m ok query now = Some m' -> stuck i m' /\ kept i m m'.
Proof.
  intros Hst. pose proof Hst as (Hrun & Hc & Hq & Hw & _).
  assert (Hdone : forall m1, kept i m m1 -> mg_running m1 = mg_running m -> calm (mg_call m1) -> mg_workers m1 = mg_workers m -> stuck i m1 /\ kept i m m1).
  { intros m1 Hk Hr1 Hc1 Hw1. split; [|done]. apply (kept_stuck i m m1 Hst Hk Hr1 Hc1). by rewrite Hw1. }
  unfold manager_act. destruct (mg_call m) as [| |j| | | |j| | |info|info]; try done.
  - rewrite Hrun. intros [= <-]. apply Hdone; try done. by apply kept_same.
  - destruct (mg_dht m) as [k|]; [|intros [= <-]; apply Hdone; try done; by apply kept_same].
    destruct (mg_dhts m !! k) as [d|] eqn:Hk; [|done]. pose proof (announce_frozen d info query now ok) as Hf.
    destruct (dht_announce _ _ _ _ _ _ _) as [d1 accepted]. destruct accepted; intros [= <-]; apply Hdone; try done; by eapply kept_one.
  - destruct (mg_boot m) as [j|]; [|intros [= <-]; apply Hdone; try done; by apply kept_same].
    destruct (mg_boots m !! j); [|done]. intros [= <-]. apply Hdone; try done. by apply kept_same.
Qed.

Lemma stuck_worker i m k w ch m1 w1 : stuck i m -> mg_workers m !! k = Some w -> worker_act m w ch = Some (m1, w1) ->
  kept i m m1 /\ mg_running m1 = mg_running m /\ mg_call m1 = mg_call m /\ mg_workers m1 = mg_workers m /\ w_dht w1 = w_dht w /\ w_dht w <> Some i.
Proof.
  intros (_ & _ & Hq & Hw & _) Hk Hact. assert (Hne : w_dht w <> Some i).
  { intros Hi. specialize (Hw k w Hk Hi). revert Hw Hact. unfold waits, worker_act. destruct (w_phase w); try done.
    rewrite Hq. by destruct (Z.ltb_spec manager_buffer manager_buffer); [lia|]. }
  revert Hact. unfold worker_act. destruct (w_phase w) as [| |e|]; [intros [= <- <-]| | |done].
  - split; [by apply kept_same|done].
  - destruct ch.
    + intros (j & _ & (b & Hj & Hr)%bind_Some)%bind_Some. destruct (boot_queue b); [done|]. injection Hr as <- <-. split; [by apply kept_same|done].
    + intros (j & Hj & (d & Hd & Hr)%bind_Some)%bind_Some. destruct (dht_queue d) as [|e q]; [done|]. injection Hr as <- <-.
      split; [|done]. eapply kept_one; [exact Hd|reflexivity|done|]. intros ->. by rewrite Hj in Hne.
    + intros Hact. assert ((m1, w1) = (m, worker_at w WorkChecking)) as [= -> ->] by (destruct (w_dht w), (w_boot w); congruence). split; [by apply kept_same|done].
    + destruct (shut w); [intros [= <- <-]; split; [by apply kept_same|done]|done].
  - rewrite Hq. by destruct (Z.ltb_spec manager_buffer manager_buffer); [lia|].
Qed.

Lemma unread_stuck i m m' : stuck i m -> unread m m' -> stuck i m' /\ kept i m m'.
Proof.
  intros Hst (cmd & Hun & Hs). revert Hun. destruct Hs as [cmd' m1 Hs]. intros Hun. pose proof Hst as (Hrun & Hc & Hq & Hw & d & Hi & Hfree & todo & query & Ht).
  destruct cmd' as [c|ok query' now|j incoming now sys|j incoming failed now sys|k ch|]; cbn [run_command] in Hs; [| | | | |done].
  - destruct (mg_call m) eqn:Hcall; [|done..]. destruct (is_entry c) eqn:Hentry; [|done]. injection Hs as <-. split; [|by apply kept_same].
    apply (kept_stuck i m); [done|by apply kept_same|done|by destruct c|exact Hw].
  - by eapply stuck_call.
  - apply bind_Some in Hs as (x & Hx & (x1 & Hact & [= <-])%bind_Some).
    assert (Hk : kept i m (with_dht m j x1)).
    { eapply kept_one; [exact Hx|reflexivity|done|]. intros ->. rewrite Hi in Hx. injection Hx as <-. revert Hact. unfold dht_act. rewrite Ht.
      unfold channel_free. by destruct (Z.leb_spec (zlen (dht_queue d)) dht_buffer); [lia|]. }
    split; [|exact Hk]. by apply (kept_stuck i m).
  - apply bind_Some in Hs as (b & Hj & (b1 & Hb & [= <-])%bind_Some). split; [|by apply kept_same]. apply (kept_stuck i m); try done. by apply kept_same.
  - apply bind_Some in Hs as (w & Hk & ([m2 w2] & Hact & [= <-])%bind_Some).
    destruct (stuck_worker _ _ _ _ _ _ _ Hst Hk Hact) as ([Hkq Hkd] & Hr2 & Hc2 & Hw2 & Hd2 & Hne).
    split; [|by split]. apply (kept_stuck i m); [done|by split|done|cbn; by rewrite Hc2|]. cbn. rewrite Hw2. intros k' w' Hk' Hd'.
    destruct (decide (k' = k)) as [->|Hne']; [|rewrite list_lookup_insert_ne in Hk' by done; by eapply Hw].
    rewrite list_lookup_insert_eq in Hk' by (by eapply lookup_lt_Some). injection Hk' as <-. congruence.
Qed.

(** C27: Nothing takes events from the manager. Once a hundred wait there, its worker
    waits with another, and once thirty-three more wait in the channel of the
    DHT, its task does: whatever happens from then on short of a stop, the
    swarm of the DHT is never polled again and no peer is found. *)
Theorem discovery_stalls i m m' : stuck i m -> rtc unread m m' ->
  stuck i m' /\ mg_queue m' = mg_queue m /\
  exists d d', mg_dhts m !! i = Some d /\ mg_dhts m' !! i = Some d' /\ dht_handled d' = dht_handled d /\ dht_queue d' = dht_queue d.
Proof.
  intros Hst Hr. revert Hst. induction Hr as [m|m m1 m2 Hs _ IH]; intros Hst.
  - split; [done|]. split; [done|]. destruct Hst as (_ & _ & _ & _ & d & Hi & _). by exists d, d.
  - destruct (unread_stuck _ _ _ Hst Hs) as [Hst1 [Hq Hd]]. destruct (IH Hst1) as (Hst2 & Hq2 & d1 & d2 & Hi1 & Hi2 & Hh & Hqq).
    split; [done|]. split; [congruence|]. destruct Hst as (_ & _ & _ & _ & d & Hi & _). destruct (Hd d Hi) as (d' & Hi' & Hf & Hf2 & _).
    exists d, d2. rewrite Hi1 in Hi'. injection Hi' as ->. split; [done|]. split; [done|]. split; congruence.
Qed.

(** ** The end of a round of the bootstrap service *)

Definition boot_goes (b b' : Boot) : Prop := exists incoming failed now sys, boot_act b incoming failed now sys = Some b'.

Lemma boot_goes_now b now b' : boot_act b None None now 0 = Some b' -> boot_goes b b'.
Proof. intros Hs. by exists None, None, now, 0. Qed.

Lemma forget_all_lookup ids : forall (cache : gmap bytes (PeerInfo * Z)) p,
  fold_left (fun cache p => delete p cache) ids cache !! p = if bool_decide (p ∈ ids) then None else cache !! p.
Proof.
  induction ids as [|q ids IH]; intros cache p; [done|]. cbn. rewrite IH. destruct (decide (p ∈ ids)) as [Hin|Hin].
  - rewrite !bool_decide_true; [done|by right|done].
  - rewrite (bool_decide_false (p ∈ ids)) by done. destruct (decide (p = q)) as [->|Hne].
    + rewrite lookup_delete_eq, bool_decide_true; [done|by left].
    + rewrite lookup_delete_ne by done. rewrite bool_decide_false; [done|]. by intros [?|?]%elem_of_cons.
Qed.

Lemma elem_of_expired_ids config cache now p :
  p ∈ expired_ids config cache now <-> exists e, cache !! p = Some e /\ is_expired config now e = true.
Proof.
  unfold expired_ids. rewrite list_elem_of_fmap. split.
  - intros ([q e] & -> & [Hin He]%list_elem_of_In%filter_In). apply list_elem_of_In, elem_of_map_iter in Hin. by exists e.
  - intros (e & Hp & He). exists (p, e). split; [done|]. apply list_elem_of_In, filter_In. split; [|done]. by apply list_elem_of_In, elem_of_map_iter.
Qed.

(** The peers that go are told as long as there is room. *)
Lemma telling_ends expired : forall b, boot_task b = BootTelling expired -> exists b' told rest,
  rtc boot_goes b b' /\ boot_task b' = BootWaiting /\ boot_cache b' = boot_cache b /\
  expired = told ++ rest /\ boot_queue b' = boot_queue b ++ map PeerExpired told /\
  (rest = [] \/ boot_buffer (boot_config b) < zlen (boot_queue b')).
Proof.
  induction expired as [|p expired IH]; intros b Ht.
  - exists (boot_move b BootWaiting), [], []. split; [apply rtc_once, (boot_goes_now b 0); unfold boot_act; by rewrite Ht|].
    split; [done|]. split; [done|]. split; [done|]. split; [cbn; by rewrite app_nil_r|by left].
  - destruct (channel_free (boot_buffer (boot_config b)) (boot_queue b)) eqn:Hf.
    + destruct (IH (boot_move (boot_events b (boot_queue b ++ [PeerExpired p])) (BootTelling expired)) eq_refl) as (b' & told & rest & Hr & Hw & Hc & He & Hq & Hrest).
      exists b', (p :: told), rest. split; [eapply rtc_l; [|exact Hr]; apply (boot_goes_now b 0); unfold boot_act; by rewrite Ht, Hf|].
      split; [done|]. split; [done|]. split; [by rewrite He|]. split; [|done]. rewrite Hq. cbn. by rewrite <- app_assoc.
    + exists (boot_move b BootWaiting), [], (p :: expired). split; [apply rtc_once, (boot_goes_now b 0); unfold boot_act; by rewrite Ht, Hf|].
      split; [done|]. split; [done|]. split; [done|]. split; [cbn; by rewrite app_nil_r|]. right. cbn. unfold channel_free in Hf. lia.
Qed.

(** A round ends by itself. What has expired is dropped and what has not is kept;
    of the peers dropped, as many are reported as the channel takes, and the
    rest are forgotten without a word. *)
Theorem expiry_round b now : boot_task b = BootListing -> exists b' told rest,
  rtc boot_goes b b' /\ boot_task b' = BootWaiting /\
  (forall p, boot_cache b' !! p = match boot_cache b !! p with Some e => if is_expired (boot_config b) now e then None else Some e | None => None end) /\
  expired_ids (boot_config b) (boot_cache b) now = told ++ rest /\ boot_queue b' = boot_queue b ++ map PeerExpired told /\
  (rest = [] \/ boot_buffer (boot_config b) < zlen (boot_queue b')).
Proof.
  intros Ht. set (ids := expired_ids (boot_config b) (boot_cache b) now).
  set (cache := fold_left (fun cache p => delete p cache) ids (boot_cache b)).
  destruct (telling_ends ids (boot_with b (boot_running b) cache (BootTelling ids)) eq_refl) as (b' & told & rest & Hr & Hw & Hc & He & Hq & Hrest).
  exists b', told, rest. split; [|split; [done|split; [|split; [done|split; [exact Hq|exact Hrest]]]]].
  - eapply rtc_l; [apply (boot_goes_now b now (boot_move b (BootRemoving ids))); unfold boot_act; by rewrite Ht|].
    eapply rtc_l; [|exact Hr]. by apply (boot_goes_now _ now).
  - intros p. rewrite Hc. cbn. unfold cache. rewrite forget_all_lookup. destruct (decide (p ∈ ids)) as [Hin|Hin].
    + rewrite bool_decide_true by done. apply elem_of_expired_ids in Hin as (e & Hp & Hex). by rewrite Hp, Hex.
    + rewrite bool_decide_false by done. destruct (boot_cache b !! p) as [e|] eqn:Hp; [|done]. destruct (is_expired (boot_config b) now e) eqn:Hex; [|done].
      destruct Hin. apply elem_of_expired_ids. by exists e.
Qed.

Lemma remember_lookup (cache : gmap bytes (PeerInfo * Z)) i now : remember cache i now !! Discovery.id i = Some (i, now).
Proof. apply lookup_insert_eq. Qed.

(** The expired peers are listed and then removed, and an announcement can come
    in between: it is lost. *)
Lemma round_forgets_announcement b i now t : boot_task b = BootListing -> Discovery.id i ∈ expired_ids (boot_config b) (boot_cache b) now ->
  exists b1 b2, boot_act b None None now 0 = Some b1 /\ boot_act (boot_announce b1 i t) None None now 0 = Some b2 /\
    boot_lookup (boot_announce b1 i t) (Discovery.id i) = Some i /\ boot_lookup b2 (Discovery.id i) = None.
Proof.
  intros Ht Hin. eexists _, _. unfold boot_act at 1. rewrite Ht. split; [reflexivity|]. split; [reflexivity|]. split.
  - exact (f_equal (fmap fst) (remember_lookup _ i t)).
  - unfold boot_lookup. cbn. by rewrite forget_all_lookup, bool_decide_true.
Qed.
End Props.

(** ** Examples *)

Definition any_peer_id (p : bytes) : bool := true.
Definition demo_bootstrap : BootstrapConfig := {| bootstrap_nodes := []; bootstrap_nodes_legacy := []; boot_buffer := 1; boot_expiration := 3600 |}.
Definition dht_only : ManagerConfig := {| enable_dht := true; enable_bootstrap := false; bootstrap_config := demo_bootstrap |}.

Definition start_dht : list command :=
  [Issue MgStart; Advance true 0 0; Advance true 0 0; Advance true 0 0; Advance true 0 0; StepDht 0%nat None 0 0; StepDht 0%nat None 0 0; StepDht 0%nat None 0 0; StepWorker 0%nat FromDht].

(** A connection of the swarm, up to the wait for the channel. *)
Definition meet_peer (p : bytes) : list command := [StepDht 0%nat (Some (DhtEstablished p)) 0 0; StepDht 0%nat None 0 0; StepDht 0%nat None 0 0].
Definition go_on : list command := [StepDht 0%nat None 0 0; StepDht 0%nat None 0 0; StepDht 0%nat None 0 0].
Definition hand_on : list command := [StepWorker 0%nat FromDht; StepWorker 0%nat FromDht; StepWorker 0%nat FromDht].

Definition many_peers : list command :=
  start_dht
  ++ concat (replicate 100 (meet_peer [7] ++ go_on ++ hand_on)) ++ (meet_peer [7] ++ go_on ++ [StepWorker 0%nat FromDht])
  ++ concat (replicate 32 (meet_peer [8] ++ go_on)) ++ meet_peer [9].

Definition demo_manager : Manager := new_manager dht_only.
Definition demo_running : Manager := default demo_manager (run_script any_peer_id (fun p => p) demo_manager start_dht).
Definition demo_stuck : Manager := default demo_manager (run_script any_peer_id (fun p => p) demo_manager many_peers).

Lemma demo_stuck_reached : rtc (unread any_peer_id (fun p => p)) demo_manager demo_stuck.
Proof. apply (run_script_unread _ _ _ many_peers); vm_compute; reflexivity. Qed.

Lemma discovery_stalls_witness : rtc (unread any_peer_id (fun p => p)) demo_manager demo_stuck /\ stuck 0%nat demo_stuck /\
  forall m', rtc (unread any_peer_id (fun p => p)) demo_stuck m' -> mg_queue m' = mg_queue demo_stuck.
Proof.
  assert (Hs : stuck 0%nat demo_stuck).
  { split; [vm_compute; reflexivity|]. split; [vm_compute; exact I|]. split; [vm_compute; reflexivity|]. split.
    - intros [|k] w Hk _; [vm_compute in Hk; injection Hk as <-; vm_compute; exact I|vm_compute in Hk; discriminate Hk].
    - destruct (mg_dhts demo_stuck !! 0%nat) as [d|] eqn:Hd; [|vm_compute in Hd; discriminate Hd]. exists d. split; [done|].
      vm_compute in Hd. injection Hd as <-. split; [vm_compute; reflexivity|]. eexists _, _. vm_compute. reflexivity. }
  split; [exact demo_stuck_reached|]. split; [exact Hs|]. intros m' Hr.
  by destruct (discovery_stalls any_peer_id (fun p => p) 0%nat demo_stuck m' Hs Hr) as (_ & Hq & _).
Defined.

Lemma discovery_well_formed_witness : zlen (mg_queue demo_stuck) = 100 /\ get_peers demo_stuck = [].
Proof.
  split; [vm_compute; reflexivity|].
  by destruct (discovery_well_formed any_peer_id (fun p => p) dht_only demo_stuck (unread_some _ _ _ _ demo_stuck_reached)) as (_ & _ & _ & Hp & _).
Defined.

Lemma running_dht_asks_nothing_witness : exists d, mg_dhts demo_running !! 0%nat = Some d /\ dht_task d = DhtPolling /\
  dht_lookup any_peer_id d [7] 1 = (d, Some None).
Proof.
  destruct (mg_dhts demo_running !! 0%nat) as [d|] eqn:Hd; [|vm_compute in Hd; discriminate Hd]. exists d.
  assert (Hr : rtc (some_step any_peer_id (fun p => p)) (new_manager dht_only) demo_running).
  { apply unread_some, (run_script_unread _ _ _ start_dht); vm_compute; reflexivity. }
  assert (Hp : dht_task d = DhtPolling) by (vm_compute in Hd; injection Hd as <-; vm_compute; reflexivity).
  split; [reflexivity|]. split; [exact Hp|].
  destruct (running_dht_asks_nothing any_peer_id (fun p => p) dht_only demo_running 0%nat d Hr Hd) as (_ & Hl & _); [by rewrite Hp|].
  rewrite Hl. vm_compute in Hd. injection Hd as <-. vm_compute. reflexivity.
Defined.

Lemma expiry_round_witness :
  let i := seen [7] [] [] Connected 0 in
  let b := boot_with (spawned_boot demo_bootstrap) true {[ [7] := (i, 0) ]} BootListing in
  exists b', boot_task b' = BootWaiting /\ boot_cache b' !! [7] = None.
Proof.
  cbv zeta. destruct (expiry_round (boot_with (spawned_boot demo_bootstrap) true {[ [7] := (seen [7] [] [] Connected 0, 0) ]} BootListing) (3601 * second) eq_refl)
    as (b' & _ & _ & _ & Hw & Hc & _). exists b'. split; [exact Hw|]. rewrite Hc. vm_compute. reflexivity.
Defined.

(** A legacy address of the sixth version is a panic. *)
Example legacy_ipv6 : with_config {| bootstrap_nodes := []; bootstrap_nodes_legacy := [(V6 1, 80)]; boot_buffer := 32; boot_expiration := 3600 |} = Panic.
Proof. reflexivity. Qed.
