(* ===== verification/MediaFragments.v ===== *)
(** * Reading and writing fragments

    Models [core/src/media/fragment_parser.rs] and [fragment_writer.rs], the
    simpler of the two ways to cut a file into segments: a parser of the boxes
    of the top level, and a writer that regroups or cuts them. *)

From S2P Require Import Prelude Rust Format Mp4Box SampleTable Fmp4 Mp4Data.

#[local] Open Scope Z_scope.

(** ** The parser *)

Inductive Mp4ParseError : Type :=
| InvalidDataError (text : rstring)
| InvalidBoxSize (size : Z).

Record BoxInfo : Type := {
  bi_header : BoxHeader;
  bi_content : BoxContent;
  bi_offset : Z;
}.

Record FragmentParser : Type := {
  fp_boxes : list BoxInfo;
  fp_tracks : list Mp4Track;
  fp_is_fragmented : bool;
  file_size : Z;
}.

Definition new_fragment_parser : FragmentParser := {| fp_boxes := []; fp_tracks := []; fp_is_fragmented := false; file_size := 0 |}.

Definition parse_box_header (data : bytes) : exec (result BoxHeader Mp4ParseError) :=
  if zlen data <? 8 then Done (RErr (InvalidDataError (str "Insufficient data for box header")))
  else
    let! size := be32_at data 0 in
    let! ty := slice data 4 8 in
    Done (ROk {| box_type := from_utf8_lossy ty; bh_size := size; content_start := 8 |}).

(** The body of the loop of [parse_boxes]; what was found stays when it fails. *)
Definition fp_round (data : bytes) (st : Z * list BoxInfo) : exec (step (Z * list BoxInfo) (list BoxInfo * result unit Mp4ParseError)) :=
  let '(offset, found) := st in
  if zlen data <=? offset then Done (Break (found, ROk tt))
  else if zlen data <? offset + 8 then Done (Break (found, ROk tt))
  else
    let! rest := slice_from data offset in
    let! h := parse_box_header rest in
    match h with
    | RErr e => Done (Break (found, RErr e))
    | ROk header =>
        let box_size := bh_size header in
        if box_size <? 8 then Done (Break (found, RErr (InvalidBoxSize box_size)))
        else if zlen data <? offset + box_size then Done (Break (found, ROk tt))
        else
          let! content := slice data (offset + 8) (offset + box_size) in
          Done (Continue (offset + box_size, found ++ [{| bi_header := header; bi_content := Raw content; bi_offset := offset |}]))
    end.

Definition parse_fragment_boxes (data : bytes) (found : list BoxInfo) : exec (list BoxInfo * result unit Mp4ParseError) :=
  loop (S (length data)) (fp_round data) (0, found).

Definition has_box (ty : rstring) (boxes : list BoxInfo) : bool := existsb (fun b => str_eqb (box_type (bi_header b)) ty) boxes.

Definition get_boxes (ty : rstring) (boxes : list BoxInfo) : list BoxInfo := List.filter (fun b => str_eqb (box_type (bi_header b)) ty) boxes.

(** The track that [extract_track_info] makes up for any file with a [moov] box. *)
Definition placeholder_track : Mp4Track :=
  {| track_id := 1; media_type := str "vide"; timescale := 30000; track_duration := 1800000; codec := str "H.264";
     codec_mime_type := str "video/mp4; codecs=" ++ [34] ++ str "avc1.42E01E" ++ [34]; codec_params := Some (str "avc1.42E01E"); sample_table := None |}.

Definition parse_fragments (self : FragmentParser) (data : bytes) : exec (FragmentParser * result unit Mp4ParseError) :=
  let! r := parse_fragment_boxes data (fp_boxes self) in
  let '(boxes, outcome) := r in
  match outcome with
  | RErr e => Done ({| fp_boxes := boxes; fp_tracks := fp_tracks self; fp_is_fragmented := fp_is_fragmented self; file_size := zlen data |}, RErr e)
  | ROk _ =>
      Done ({| fp_boxes := boxes; fp_tracks := fp_tracks self ++ (if has_box (str "moov") boxes then [placeholder_track] else []);
               fp_is_fragmented := has_box (str "moof") boxes || has_box (str "mvex") boxes; file_size := zlen data |}, ROk tt)
  end.

(** ** The writer *)

Record FragmentWriter : Type := { fw_tracks : list Mp4Track; sequence_number : Z }.

Definition new_fragment_writer : FragmentWriter := {| fw_tracks := []; sequence_number := 1 |}.

Definition add_track (self : FragmentWriter) (t : Mp4Track) : FragmentWriter :=
  {| fw_tracks := fw_tracks self ++ [t]; sequence_number := sequence_number self |}.

Definition serialize_box (b : BoxInfo) : bytes :=
  be_bytes 4 (as_u32 (bh_size (bi_header b))) ++ box_type (bi_header b) ++ match bi_content b with Raw content => content | _ => [] end.

Definition is_type (ty : rstring) (b : BoxInfo) : bool := str_eqb (box_type (bi_header b)) ty.

Definition is_init_box (b : BoxInfo) : bool := is_type (str "ftyp") b || is_type (str "moov") b.

(** A box whose header gives another size than it has is left out. *)
Definition init_part (init_data : bytes) (b : BoxInfo) : exec bytes :=
  if is_init_box b then
    let box_data := serialize_box b in
    if 8 <=? zlen box_data then
      let! size := be32_at box_data 0 in
      Done (if size =? zlen box_data then init_data ++ box_data else init_data)
    else Done init_data
  else Done init_data.

Definition init_segment (init_data : bytes) : list MseSegment :=
  match init_data with
  | [] => []
  | _ => [{| segment_type := str "initialization"; ms_data := init_data; ms_timestamp := None; ms_duration := None; ms_is_keyframe := true; ms_track_id := 0 |}]
  end.

Definition media_segment (data : bytes) (timestamp : option Z) (is_keyframe : bool) : MseSegment :=
  {| segment_type := str "media"; ms_data := data; ms_timestamp := timestamp; ms_duration := Some 1000; ms_is_keyframe := is_keyframe; ms_track_id := 1 |}.

(** Every window of four bytes is looked at for a parameter set. *)
Fixpoint has_parameter_set (data : bytes) : bool :=
  match data with
  | a :: ((b :: c :: d :: _) as rest) =>
      ((a =? 0) && (b =? 0) && (c =? 1) && ((Z.land d 31 =? 7) || (Z.land d 31 =? 8))) || has_parameter_set rest
  | _ => false
  end.

Definition is_likely_keyframe (data : bytes) (segment_index : Z) : bool :=
  (segment_index mod 5 =? 0) || (4 <? zlen data) && has_parameter_set data.

(** The loop over the boxes: a [moof] with an [mdat] after it is a segment. *)
Fixpoint media_pairs (boxes : list BoxInfo) (segments : list MseSegment) : exec (list MseSegment) :=
  match boxes with
  | [] => Done segments
  | moof :: more =>
      match more with
      | mdat :: rest =>
          if is_type (str "moof") moof && is_type (str "mdat") mdat then
            let media_data := serialize_box moof ++ serialize_box mdat in
            let! segment_index := sub_u64 (zlen segments) 1 in
            let! timestamp := (if 0 <? segment_index then mul_u64 segment_index 1000 else Done 0) in
            media_pairs rest (segments ++ [media_segment media_data (Some timestamp) (is_likely_keyframe media_data segment_index)])
          else media_pairs more segments
      | [] => Done segments
      end
  end.

Definition extract_fragmented_segments (boxes : list BoxInfo) : exec (list MseSegment) :=
  let! init_data := for_each init_part boxes [] in
  media_pairs boxes (init_segment init_data).

(** [create_minimal_traf]; the argument of the source is not used. *)
Definition create_minimal_traf : exec bytes :=
  let! tfhd := wrap_box (str "tfhd") [0; 0; 0; 0; 0; 0; 0; 1] in
  let! o := add_u32 8 (as_u32 (zlen tfhd)) in
  let! data_offset := add_u32 o 16 in
  let! trun := wrap_box (str "trun") ([0; 0; 0; 1; 0; 0; 0; 1] ++ be_bytes 4 data_offset) in
  wrap_box (str "traf") (tfhd ++ trun).

Definition create_minimal_moof (self : FragmentWriter) : exec bytes :=
  let! mfhd := wrap_box (str "mfhd") ([0; 0; 0; 0] ++ be_bytes 4 (sequence_number self)) in
  let! traf := create_minimal_traf in
  wrap_box (str "moof") (mfhd ++ traf).

Definition create_simple_media_segment_with_timing (self : FragmentWriter) (mdat_content : bytes) (timestamp : option Z) (is_keyframe : bool)
  : exec MseSegment :=
  let! moof := create_minimal_moof self in
  let! mdat := wrap_box (str "mdat") mdat_content in
  Done (media_segment (moof ++ mdat) timestamp is_keyframe).

(** [data.chunks(n)]. *)
Fixpoint chunks_fuel (fuel : nat) (n : Z) (data : bytes) : list bytes :=
  match fuel, data with
  | _, [] | O, _ => []
  | S fuel, _ => ztake n data :: chunks_fuel fuel n (zdrop n data)
  end.
Definition chunks (n : Z) (data : bytes) : list bytes := chunks_fuel (length data) n data.

Definition chunk_size : Z := 64 * 1024.

Definition chunk_segment (self : FragmentWriter) (st : Z * list MseSegment) (chunk : bytes) : exec (Z * list MseSegment) :=
  let '(chunk_index, segments) := st in
  let! timestamp := mul_u64 chunk_index 1000 in
  let is_keyframe := (chunk_index =? 0) || is_likely_keyframe chunk chunk_index in
  let! segment := create_simple_media_segment_with_timing self chunk (Some timestamp) is_keyframe in
  Done (chunk_index + 1, segments ++ [segment]).

Definition regular_part (st : bytes * bytes) (b : BoxInfo) : bytes * bytes :=
  let '(init_data, mdat_data) := st in
  if is_init_box b then (init_data ++ serialize_box b, mdat_data)
  else if is_type (str "mdat") b then (init_data, match bi_content b with Raw data => data | _ => mdat_data end)
  else st.

Definition create_fragments_from_regular_mp4 (self : FragmentWriter) (boxes : list BoxInfo) : exec (list MseSegment) :=
  let '(init_data, mdat_data) := fold_left regular_part boxes ([], []) in
  let! r := for_each (chunk_segment self) (chunks chunk_size mdat_data) (0, init_segment init_data) in
  Done (snd r).

Definition generate_mse_segments (self : FragmentWriter) (boxes : list BoxInfo) (is_fragmented : bool) : exec (list MseSegment) :=
  if is_fragmented then extract_fragmented_segments boxes else create_fragments_from_regular_mp4 self boxes.

(** ** What the parser finds *)

Fixpoint box_infos (offset : Z) (bs : list mp4_box) : list BoxInfo :=
  match bs with
  | [] => []
  | b :: bs =>
      {| bi_header := {| box_type := from_utf8_lossy (fst b); bh_size := box_size b; content_start := 8 |}; bi_content := Raw (snd b); bi_offset := offset |}
      :: box_infos (offset + box_size b) bs
  end.

Lemma box_infos_app offset bs b : Forall wf_box bs ->
  box_infos offset (bs ++ [b]) = box_infos offset bs ++ box_infos (offset + zlen (boxes_bytes bs)) [b].
Proof.
  intros Hwf. revert offset. induction Hwf as [|x bs Hx _ IH]; intros offset; [cbn; by rewrite Z.add_0_r|].
  cbn [app box_infos]. rewrite IH, boxes_bytes_cons, zlen_app, zlen_box_bytes by done. by rewrite Z.add_assoc.
Qed.

(** What the parser does not read: too little for a header, a box that goes
    beyond the data, or one that is smaller than its header. *)
Definition unread (tail : bytes) (outcome : result unit Mp4ParseError) : Prop :=
  match outcome with
  | ROk _ => zlen tail < 8 \/ zlen tail < be_val (ztake 4 tail)
  | RErr e => 8 <= zlen tail /\ be_val (ztake 4 tail) < 8 /\ e = InvalidBoxSize (be_val (ztake 4 tail))
  end.

Lemma be32_at_take (data : bytes) : 4 <= zlen data -> be32_at data 0 = Done (be_val (ztake 4 data)).
Proof.
  intros Hl. destruct data as [|a [|b [|c [|d data]]]]; try (cbn in Hl; unfold zlen in Hl; cbn in Hl; lia). done.
Qed.

Lemma Forall_ztake {A} (P : A -> Prop) n l : Forall P l -> Forall P (ztake n l).
Proof. apply Forall_take. Qed.

Lemma take_box data : Forall is_byte data -> 8 <= be_val (ztake 4 data) <= zlen data ->
  let b := (ztake 4 (zdrop 4 data), ztake (be_val (ztake 4 data) - 8) (zdrop 8 data)) in
  wf_box b /\ box_size b = be_val (ztake 4 data) /\ data = box_bytes b ++ zdrop (box_size b) data.
Proof.
  intros Hb Hs b. set (size := be_val (ztake 4 data)) in *.
  assert (Hlen : zlen (ztake 4 data) = 4) by (apply zlen_ztake; lia).
  pose proof (be_val_range (ztake 4 data) (Forall_ztake _ _ _ Hb)) as Hr. rewrite Hlen in Hr. fold size in Hr. change (2 ^ (8 * 4)) with (u32_max + 1) in Hr.
  assert (Ht : zlen (fst b) = 4) by (cbn; rewrite zlen_ztake; [done|]; rewrite zlen_zdrop by lia; lia).
  assert (Hc : zlen (snd b) = size - 8) by (cbn; rewrite zlen_ztake; [done|]; rewrite zlen_zdrop by lia; lia).
  assert (Hbs : box_size b = size) by (unfold box_size; lia). split; [split; [done|lia]|]. split; [done|].
  unfold box_bytes. replace (8 + zlen (snd b)) with size by lia. rewrite Hbs.
  replace (be_bytes 4 size) with (ztake 4 data).
  2:{ unfold size. rewrite <- (be_bytes_be_val (ztake 4 data)) at 1 by (by apply Forall_ztake). f_equal. unfold zlen in Hlen. lia. }
  rewrite <- (ztake_zdrop 4 data) at 1. rewrite <- app_assoc. f_equal. cbn [fst snd]. rewrite <- (ztake_zdrop 4 (zdrop 4 data)) at 1.
  rewrite <- app_assoc. f_equal. rewrite zdrop_zdrop by lia. change (4 + 4) with 8. rewrite <- (ztake_zdrop (size - 8) (zdrop 8 data)) at 1.
  f_equal. rewrite zdrop_zdrop by lia. f_equal. lia.
Qed.

Lemma slice_done {A} (l : list A) i j : 0 <= i <= j -> j <= zlen l -> slice l i j = Done (ztake (j - i) (zdrop i l)).
Proof.
  intros. unfold slice. replace ((0 <=? i) && (i <=? j) && (j <=? zlen l)) with true; [done|]. symmetry. rewrite !andb_true_iff, !Z.leb_le. lia.
Qed.

Lemma parse_header_done data : 8 <= zlen data -> parse_box_header data =
  Done (ROk {| box_type := from_utf8_lossy (ztake 4 (zdrop 4 data)); bh_size := be_val (ztake 4 data); content_start := 8 |}).
Proof.
  intros Hl. unfold parse_box_header. destruct (Z.ltb_spec (zlen data) 8); [lia|]. rewrite be32_at_take by lia. cbn -[be_val ztake].
  by rewrite slice_done by lia.
Qed.

Definition parsed (data : bytes) (found : list BoxInfo) (offset : Z) (boxes : list BoxInfo) (bs : list mp4_box) : Prop :=
  Forall wf_box bs /\ data = boxes_bytes bs ++ zdrop offset data /\ offset = zlen (boxes_bytes bs) /\ boxes = found ++ box_infos 0 bs.

Lemma parsed_more data found offset boxes bs : Forall is_byte data -> parsed data found offset boxes bs ->
  let rest := zdrop offset data in
  8 <= be_val (ztake 4 rest) <= zlen rest ->
  let size := be_val (ztake 4 rest) in
  parsed data found (offset + size)
    (boxes ++ [{| bi_header := {| box_type := from_utf8_lossy (ztake 4 (zdrop 4 rest)); bh_size := size; content_start := 8 |};
                  bi_content := Raw (ztake (size - 8) (zdrop 8 rest)); bi_offset := offset |}])
    (bs ++ [(ztake 4 (zdrop 4 rest), ztake (size - 8) (zdrop 8 rest))]).
Proof.
  intros Hb (Hwf & Hd & Ho & Hf) rest Hs size. assert (Hrest : Forall is_byte rest) by (by apply Forall_drop).
  destruct (take_box rest Hrest Hs) as (Hbox & Hsize & Hsplit). fold size in Hbox, Hsize, Hsplit. set (b := (ztake 4 (zdrop 4 rest), _)) in *.
  pose proof (zlen_nonneg (boxes_bytes bs)). split; [apply Forall_app_2; [done|by constructor]|]. split; [|split].
  - rewrite boxes_bytes_app, boxes_bytes_single, <- app_assoc. rewrite Hd at 1. f_equal. fold rest. rewrite Hsplit at 1. f_equal.
    rewrite Hsize. unfold rest. rewrite zdrop_zdrop by lia. f_equal.
  - rewrite boxes_bytes_app, boxes_bytes_single, zlen_app, (zlen_box_bytes b) by done. lia.
  - rewrite Hf, box_infos_app by done. rewrite <- app_assoc. do 2 f_equal. cbn [box_infos]. rewrite Hsize. by rewrite Z.add_0_l, Ho.
Qed.

(** The parser always ends. The data is the boxes it found and a rest it could
    not go on with; it fails exactly when that starts with a header that gives
    a size below eight, and then it keeps what it found. *)
Theorem fragment_parser_spec data found : Forall is_byte data -> exists bs tail outcome,
  data = boxes_bytes bs ++ tail /\ Forall wf_box bs /\ unread tail outcome /\
  parse_fragment_boxes data found = Done (found ++ box_infos 0 bs, outcome).
Proof.
  intros Hb. unfold parse_fragment_boxes.
  destruct (loop_returns (fp_round data) (fun st => exists bs, parsed data found (fst st) (snd st) bs)
    (fun st => Z.to_nat (zlen data - fst st))
    (fun r => exists bs tail, data = boxes_bytes bs ++ tail /\ Forall wf_box bs /\ unread tail (snd r) /\ fst r = found ++ box_infos 0 bs))
    with (fuel := S (length data)) (s := (0, found)) as ([boxes outcome] & -> & bs & tail & Hd & Hwf & Hu & Hf).
  - intros [offset boxes] [bs Hp]. cbn [fst snd] in Hp |- *. pose proof Hp as (Hwf & Hd & Ho & Hf). pose proof (zlen_nonneg (boxes_bytes bs)).
    assert (Hlen : zlen data = offset + zlen (zdrop offset data)) by (rewrite Hd at 1; rewrite zlen_app; lia).
    set (rest := zdrop offset data) in *. pose proof (zlen_nonneg rest). unfold fp_round.
    assert (Hend : unread rest (ROk tt) -> returns (Done (Break (S := Z * list BoxInfo) (boxes, ROk (E := Mp4ParseError) tt))) (fun x =>
      match x with
      | Continue s' => (exists bs, parsed data found (fst s') (snd s') bs) /\ (Z.to_nat (zlen data - fst s') < Z.to_nat (zlen data - offset))%nat
      | Break r => exists bs tail, data = boxes_bytes bs ++ tail /\ Forall wf_box bs /\ unread tail (snd r) /\ fst r = found ++ box_infos 0 bs
      end)) by (intros Hu; eexists; split; [done|]; by exists bs, rest).
    destruct (Z.leb_spec (zlen data) offset); [apply Hend; left; lia|]. destruct (Z.ltb_spec (zlen data) (offset + 8)); [apply Hend; left; lia|].
    unfold slice_from. rewrite slice_done by lia. cbn -[slice parse_box_header Z.mul]. rewrite ztake_all by (rewrite zlen_zdrop by lia; lia). fold rest.
    rewrite parse_header_done by lia. cbn -[slice be_val ztake].
    destruct (Z.ltb_spec (be_val (ztake 4 rest)) 8).
    { eexists. split; [done|]. exists bs, rest. cbn. split; [done|]. split; [done|]. split; [|done]. split; [lia|done]. }
    destruct (Z.ltb_spec (zlen data) (offset + be_val (ztake 4 rest))); [apply Hend; right; lia|].
    rewrite slice_done by lia. cbn -[be_val ztake]. eexists. split; [done|]. cbn [fst snd]. split; [|lia].
    exists (bs ++ [(ztake 4 (zdrop 4 rest), ztake (be_val (ztake 4 rest) - 8) (zdrop 8 rest))]).
    replace (offset + be_val (ztake 4 rest) - (offset + 8)) with (be_val (ztake 4 rest) - 8) by lia.
    replace (zdrop (offset + 8) data) with (zdrop 8 rest) by (unfold rest; rewrite zdrop_zdrop by lia; done).
    apply parsed_more; [done|done|]. fold rest. lia.
  - exists []. cbn. split; [constructor|]. split; [by rewrite zdrop_0|]. split; [done|by rewrite app_nil_r].
  - cbn. unfold zlen. lia.
  - exists bs, tail, outcome. cbn in Hf, Hu. by rewrite Hf.
Qed.

(** ** What the writer makes of a fragmented file *)

Definition ftyp : bytes := str "ftyp".
Definition moov : bytes := str "moov".
Definition moof : bytes := str "moof".
Definition mdat : bytes := str "mdat".

Definition is_init (b : mp4_box) : bool := str_eqb (fst b) ftyp || str_eqb (fst b) moov.
Definition is_pair (p : mp4_box * mp4_box) : bool := str_eqb (fst (fst p)) moof && str_eqb (fst (snd p)) mdat.

(** The neighbours that are a fragment and its data. *)
Definition fragments (bs : list mp4_box) : list (mp4_box * mp4_box) := List.filter is_pair (zip bs (tail bs)).

Definition as_info (b : mp4_box) (info : BoxInfo) : Prop := exists offset, [info] = box_infos offset [b].

Lemma box_infos_as offset bs : Forall2 as_info bs (box_infos offset bs).
Proof. revert offset. induction bs as [|b bs IH]; intros offset; constructor; [by exists offset|apply IH]. Qed.

Lemma as_info_type ty b info : is_ascii ty = true -> as_info b info -> is_type ty info = str_eqb (fst b) ty.
Proof. intros Ht [offset [= ->]]. unfold is_type. cbn. by apply str_eqb_lossy. Qed.

Lemma serialize_info ty b info : is_ascii ty = true -> wf_box b -> as_info b info -> str_eqb (fst b) ty = true -> serialize_box info = box_bytes b.
Proof.
  intros Hty Hwf [offset [= ->]] Ht%str_eqb_eq. unfold serialize_box, box_bytes. cbn -[be_bytes]. pose proof (box_size_range b Hwf).
  rewrite as_u32_small by (unfold is_u32; lia). by rewrite from_utf8_lossy_ascii by (by rewrite Ht).
Qed.

Lemma serialize_init b info : wf_box b -> as_info b info -> is_init b = true -> serialize_box info = box_bytes b.
Proof. intros Hwf Hi [Ht|Ht]%orb_prop; [by apply (serialize_info ftyp b)|by apply (serialize_info moov b)]. Qed.

Lemma is_init_info b info : as_info b info -> is_init_box info = is_init b.
Proof. intros Hi. unfold is_init_box, is_init. by rewrite (as_info_type (str "ftyp") b info), (as_info_type (str "moov") b info). Qed.

Lemma init_data_spec bs infos acc : Forall wf_box bs -> Forall2 as_info bs infos ->
  for_each init_part infos acc = Done (acc ++ boxes_bytes (List.filter is_init bs)).
Proof.
  intros Hwf Hi. revert acc. induction Hi as [|b info bs infos Hb _ IH]; intros acc; [cbn; by rewrite app_nil_r|].
  apply list.Forall_cons in Hwf as [Hbw Hwf]. cbn [for_each List.filter]. unfold init_part at 1. rewrite (is_init_info b) by done.
  destruct (is_init b) eqn:Ht; cbn [exec_bind]; [|by apply IH].
  rewrite (serialize_init b) by done. pose proof (box_size_range b Hbw). rewrite zlen_box_bytes by done.
  destruct (Z.leb_spec 8 (box_size b)); [|lia]. pose proof (box_header_at [] b [] 0 Hbw eq_refl) as Hh. rewrite app_nil_r in Hh. cbn [app] in Hh. rewrite Hh.
  cbn [exec_bind]. rewrite Z.eqb_refl, IH by done. by rewrite boxes_bytes_cons, <- app_assoc.
Qed.

Lemma fragments_cons b b' bs : fragments (b :: b' :: bs) = (if is_pair (b, b') then [(b, b')] else []) ++ fragments (b' :: bs).
Proof. unfold fragments. cbn. by destruct (is_pair (b, b')). Qed.

(** What comes after the data of a fragment is no fragment together with it. *)
Lemma fragments_skip b bs : str_eqb (fst b) mdat = true -> fragments (b :: bs) = fragments bs.
Proof. intros Ht%str_eqb_eq. destruct bs as [|b' bs]; [done|]. rewrite fragments_cons. unfold is_pair. cbn [fst]. by rewrite Ht. Qed.

Definition fragment_bytes (p : mp4_box * mp4_box) : bytes := box_bytes (fst p) ++ box_bytes (snd p).

Definition numbered (start : Z) (segments : list MseSegment) : Prop :=
  forall i s, segments !! i = Some s -> ms_timestamp s = Some ((start + Z.of_nat i) * 1000).

Lemma media_pairs_spec n : forall bs infos segments, (length bs <= n)%nat -> Forall wf_box bs -> Forall2 as_info bs infos ->
  1 <= zlen segments -> (zlen segments + zlen bs) * 1000 <= u64_max ->
  exists more, media_pairs infos segments = Done (segments ++ more) /\ map ms_data more = map fragment_bytes (fragments bs) /\
    numbered (zlen segments - 1) more.
Proof.
  induction n as [|n IH]; intros bs infos segments Hn Hwf Hi Hs Hl; destruct Hi as [|b info bs infos Hb Hi]; try (cbn in Hn; lia);
    try (exists []; cbn; by rewrite app_nil_r).
  destruct Hi as [|b' info' bs infos Hb' Hi].
  { exists []. cbn. by rewrite app_nil_r. }
  apply list.Forall_cons in Hwf as [Hw Hwf]. cbn [media_pairs]. rewrite (as_info_type (str "moof") b), (as_info_type (str "mdat") b') by done. rewrite fragments_cons.
  rewrite !zlen_cons in Hl. pose proof (zlen_nonneg bs). unfold is_pair. cbn [fst snd]. fold moof mdat.
  destruct (str_eqb (fst b) moof && str_eqb (fst b') mdat) eqn:Hp.
  - apply andb_prop in Hp as [Ht Ht']. apply list.Forall_cons in Hwf as [Hw' Hwf].
    rewrite (serialize_info moof b), (serialize_info mdat b') by done. rewrite fragments_skip by done.
    unfold sub_u64. rewrite checked_done by lia. cbn [exec_bind].
    assert (Htime : (if 0 <? zlen segments - 1 then mul_u64 (zlen segments - 1) 1000 else Done 0) = Done ((zlen segments - 1) * 1000)).
    { destruct (Z.ltb_spec 0 (zlen segments - 1)); [unfold mul_u64; by rewrite checked_done by lia|]. by replace (zlen segments - 1) with 0 by lia. }
    rewrite Htime. cbn [exec_bind]. set (s := media_segment _ _ _).
    destruct (IH bs infos (segments ++ [s])) as (more & Hm & Hd & Hnum); [cbn in Hn; lia|done|done|rewrite zlen_app; change (zlen [s]) with 1; lia..|].
    exists (s :: more). rewrite Hm, <- app_assoc. split; [done|]. split; [cbn; by rewrite Hd|].
    intros [|i] x Hx; [injection Hx as <-; cbn; do 2 f_equal; lia|]. cbn in Hx. rewrite (Hnum i x Hx), zlen_app. change (zlen [s]) with 1. do 2 f_equal. lia.
  - destruct (IH (b' :: bs) (info' :: infos) segments) as (more & Hm & Hd & Hnum); [cbn in *; lia|done|by constructor|done|rewrite zlen_cons; lia|].
    by exists more.
Qed.

Lemma media_pairs_panic n : forall bs infos, (length bs <= n)%nat -> Forall wf_box bs -> Forall2 as_info bs infos ->
  media_pairs infos [] = match fragments bs with [] => Done [] | _ => Panic end.
Proof.
  induction n as [|n IH]; intros bs infos Hn Hwf Hi; destruct Hi as [|b info bs infos Hb Hi]; try (cbn in Hn; lia); try done.
  destruct Hi as [|b' info' bs infos Hb' Hi]; [done|]. apply list.Forall_cons in Hwf as [Hw Hwf].
  cbn [media_pairs]. rewrite (as_info_type (str "moof") b), (as_info_type (str "mdat") b') by done. rewrite fragments_cons. unfold is_pair. cbn [fst snd]. fold moof mdat.
  destruct (str_eqb (fst b) moof && str_eqb (fst b') mdat) eqn:Hp; [done|].
  apply (IH (b' :: bs) (info' :: infos)); [cbn in *; lia|done|by constructor].
Qed.

(** Of a fragmented file the writer makes one segment of its [ftyp] and [moov]
    boxes and one of each [moof] that an [mdat] follows, byte for byte and in
    order, a second apart. Without such boxes it panics at the
    first fragment, because it counts the segments before it less one. *)
Theorem extract_fragmented_spec bs : Forall wf_box bs -> (1 + zlen bs) * 1000 <= u64_max ->
  let init_data := boxes_bytes (List.filter is_init bs) in
  match init_segment init_data with
  | [] => extract_fragmented_segments (box_infos 0 bs) = match fragments bs with [] => Done [] | _ => Panic end
  | init => exists media, extract_fragmented_segments (box_infos 0 bs) = Done (init ++ media) /\
      map ms_data media = map fragment_bytes (fragments bs) /\ numbered 0 media
  end.
Proof.
  intros Hwf Hl init_data. pose proof (box_infos_as 0 bs) as Hi. unfold extract_fragmented_segments.
  rewrite (init_data_spec bs) by done. cbn [exec_bind app]. fold init_data. destruct init_data as [|x rest].
  - cbn. by apply (media_pairs_panic (length bs)).
  - cbn [init_segment]. eapply (media_pairs_spec (length bs)); done.
Qed.

(** ** What the writer makes of a regular file *)

Lemma concat_chunks_fuel n fuel : forall data, 0 < n -> (length data <= fuel)%nat -> concat (chunks_fuel fuel n data) = data.
Proof.
  induction fuel as [|fuel IH]; intros data Hn Hf; [destruct data; [done|cbn in Hf; lia]|]. destruct data as [|x data]; [done|]. cbn [chunks_fuel concat].
  rewrite IH; [apply ztake_zdrop|done|]. unfold zdrop. rewrite length_skipn. cbn in *. lia.
Qed.

Lemma chunks_small n fuel : forall data, Forall (fun c => zlen c <= Z.max 0 n) (chunks_fuel fuel n data).
Proof.
  induction fuel as [|fuel IH]; intros [|x data]; cbn; try constructor; [|apply IH]. unfold zlen, ztake. rewrite length_take. lia.
Qed.

Lemma length_chunks_fuel n fuel data : (length (chunks_fuel fuel n data) <= fuel)%nat.
Proof. revert data. induction fuel as [|fuel IH]; intros [|x data]; cbn; [lia..|]. specialize (IH (zdrop n (x :: data))). lia. Qed.

(** The [moof] box of every segment. *)
Definition minimal_moof (self : FragmentWriter) : bytes :=
  be_bytes 4 68 ++ moof
  ++ be_bytes 4 16 ++ str "mfhd" ++ [0; 0; 0; 0] ++ be_bytes 4 (sequence_number self)
  ++ be_bytes 4 44 ++ str "traf"
  ++ be_bytes 4 16 ++ str "tfhd" ++ [0; 0; 0; 0; 0; 0; 0; 1]
  ++ be_bytes 4 20 ++ str "trun" ++ [0; 0; 0; 1; 0; 0; 0; 1] ++ be_bytes 4 40.

Lemma minimal_moof_done self : create_minimal_moof self = Done (minimal_moof self).
Proof.
  unfold create_minimal_moof, minimal_moof. generalize (be_bytes 4 (sequence_number self)) as number, (zlen_be_bytes 4 (sequence_number self)).
  intros number Hn. destruct number as [|a [|b [|c [|d [|e number]]]]]; try (exfalso; unfold zlen in Hn; cbn in Hn; lia). reflexivity.
Qed.

Definition chunk_bytes_of (self : FragmentWriter) (chunk : bytes) : bytes := minimal_moof self ++ box_bytes (mdat, chunk).

Lemma chunk_segments_spec self : forall cs n segments, 0 <= n -> (n + zlen cs) * 1000 <= u64_max -> Forall (fun c => zlen c <= chunk_size) cs ->
  exists media, for_each (chunk_segment self) cs (n, segments) = Done (n + zlen cs, segments ++ media) /\
    map ms_data media = map (chunk_bytes_of self) cs /\ numbered n media.
Proof.
  induction cs as [|c cs IH]; intros n segments Hn Hl Hcs; [exists []; cbn; by rewrite Z.add_0_r, app_nil_r|].
  apply list.Forall_cons in Hcs as [Hc Hcs]. rewrite zlen_cons in Hl |- *. pose proof (zlen_nonneg cs). pose proof (zlen_nonneg c).
  cbn [for_each]. unfold chunk_segment at 1. unfold mul_u64. rewrite checked_done by lia. cbn [exec_bind].
  unfold create_simple_media_segment_with_timing. rewrite minimal_moof_done. cbn [exec_bind].
  rewrite wrap_box_done by (unfold chunk_size in Hc; unfold u32_max; lia). cbn [exec_bind]. set (s := media_segment _ _ _).
  destruct (IH (n + 1) (segments ++ [s])) as (media & Hm & Hd & Hnum); [lia..|done|]. exists (s :: media). rewrite Hm, <- app_assoc.
  split; [do 2 f_equal; lia|]. split; [cbn [map]; by rewrite Hd|].
  intros [|i] x Hx; [injection Hx as <-; cbn; do 2 f_equal; lia|]. cbn in Hx. rewrite (Hnum i x Hx). do 2 f_equal. lia.
Qed.

(** The data of the last [mdat] box. *)
Definition last_mdat (bs : list mp4_box) : bytes := fold_left (fun acc b => if str_eqb (fst b) mdat then snd b else acc) bs [].

Lemma regular_parts_spec bs infos init_data payload : Forall wf_box bs -> Forall2 as_info bs infos ->
  fold_left regular_part infos (init_data, payload) =
  (init_data ++ boxes_bytes (List.filter is_init bs), fold_left (fun acc b => if str_eqb (fst b) mdat then snd b else acc) bs payload).
Proof.
  intros Hwf Hi. revert init_data payload. induction Hi as [|b info bs infos Hb _ IH]; intros init_data payload; [cbn; by rewrite app_nil_r|].
  apply list.Forall_cons in Hwf as [Hw Hwf]. cbn [fold_left List.filter]. unfold regular_part at 2. rewrite (is_init_info b) by done.
  destruct (is_init b) eqn:Ht.
  - rewrite (serialize_init b) by done. rewrite IH, boxes_bytes_cons, <- app_assoc by done. f_equal. f_equal.
    apply orb_prop in Ht as [->%str_eqb_eq| ->%str_eqb_eq]; done.
  - rewrite (as_info_type (str "mdat") b) by done. fold mdat. destruct (str_eqb (fst b) mdat); [|by apply IH].
    destruct Hb as [offset [= ->]]. by apply IH.
Qed.

(** A regular file is cut into its [ftyp] and [moov] boxes and pieces of 64 KiB
    of its last [mdat] box, which make up that box again. Each piece gets the
    same [moof] before it, the same number included, which says that the data
    starts 40 bytes into the segment, where the [moof] has not ended: it starts
    at 76. *)
Theorem regular_file_cut self bs : Forall wf_box bs -> (1 + zlen (last_mdat bs)) * 1000 <= u64_max ->
  exists media pieces,
    create_fragments_from_regular_mp4 self (box_infos 0 bs) = Done (init_segment (boxes_bytes (List.filter is_init bs)) ++ media) /\
    concat pieces = last_mdat bs /\ Forall (fun c => zlen c <= chunk_size) pieces /\ numbered 0 media /\
    map ms_data media = map (chunk_bytes_of self) pieces /\
    forall piece, be32_at (chunk_bytes_of self piece) 64 = Done 40 /\ zdrop 76 (chunk_bytes_of self piece) = piece.
Proof.
  intros Hwf Hl. unfold create_fragments_from_regular_mp4. rewrite (regular_parts_spec bs) by (done || apply box_infos_as). cbn [app]. fold (last_mdat bs).
  set (pieces := chunks chunk_size (last_mdat bs)).
  assert (Hn : zlen pieces <= zlen (last_mdat bs)).
  { unfold pieces, chunks, zlen. pose proof (length_chunks_fuel chunk_size (length (last_mdat bs)) (last_mdat bs)). lia. }
  assert (Hs : Forall (fun c => zlen c <= chunk_size) pieces) by apply (chunks_small chunk_size).
  destruct (chunk_segments_spec self pieces 0 (init_segment (boxes_bytes (List.filter is_init bs)))) as (media & Hm & Hd & Hnum); [done|lia|done|].
  exists media, pieces. rewrite Hm. cbn [exec_bind snd]. split; [done|]. split; [by apply concat_chunks_fuel|]. split; [done|]. split; [done|]. split; [done|].
  intros piece. unfold chunk_bytes_of, minimal_moof.
  generalize (be_bytes 4 (sequence_number self)) as number, (zlen_be_bytes 4 (sequence_number self)).
  intros number Hnb. destruct number as [|a [|b [|c [|d [|e number]]]]]; try (exfalso; unfold zlen in Hnb; cbn in Hnb; lia). split; reflexivity.
Qed.

(** ** Examples *)

Definition demo_box (ty : string) (n : Z) : mp4_box := (str ty, [n; n]).
Definition demo_fragmented : list mp4_box :=
  [demo_box "ftyp" 1; demo_box "moov" 2; demo_box "moof" 3; demo_box "mdat" 4; demo_box "free" 5; demo_box "moof" 6; demo_box "mdat" 7; demo_box "mdat" 8].

Lemma demo_fragmented_wf : Forall wf_box demo_fragmented.
Proof. repeat constructor; vm_compute; (reflexivity || discriminate). Qed.

Lemma fragment_parser_spec_witness : exists bs tail outcome,
  boxes_bytes demo_fragmented ++ [0; 0; 0; 7; 1; 1; 1; 1] = boxes_bytes bs ++ tail /\ Forall wf_box bs /\ unread tail outcome /\
  parse_fragment_boxes (boxes_bytes demo_fragmented ++ [0; 0; 0; 7; 1; 1; 1; 1]) [] = Done (box_infos 0 bs, outcome).
Proof.
  apply (fragment_parser_spec (boxes_bytes demo_fragmented ++ [0; 0; 0; 7; 1; 1; 1; 1]) []).
  apply list.Forall_forall. intros b Hin%list_elem_of_In. pose proof (proj1 (forallb_forall (fun b => (0 <=? b) && (b <? 256)) _) (eq_refl : forallb (fun b => (0 <=? b) && (b <? 256))
    (boxes_bytes demo_fragmented ++ [0; 0; 0; 7; 1; 1; 1; 1]) = true) b Hin) as [?%Z.leb_le ?%Z.ltb_lt]%andb_prop. by split.
Defined.

Lemma extract_fragmented_spec_witness : exists media,
  extract_fragmented_segments (box_infos 0 demo_fragmented) =
    Done (init_segment (boxes_bytes [demo_box "ftyp" 1; demo_box "moov" 2]) ++ media) /\
  map ms_data media = [boxes_bytes [demo_box "moof" 3; demo_box "mdat" 4]; boxes_bytes [demo_box "moof" 6; demo_box "mdat" 7]].
Proof.
  destruct (extract_fragmented_spec demo_fragmented demo_fragmented_wf) as (media & Hm & Hd & _); [vm_compute; discriminate|].
  exists media. split; [exact Hm|]. rewrite Hd. vm_compute. reflexivity.
Defined.

Lemma regular_file_cut_witness : exists media pieces,
  create_fragments_from_regular_mp4 new_fragment_writer (box_infos 0 demo_fragmented) =
    Done (init_segment (boxes_bytes [demo_box "ftyp" 1; demo_box "moov" 2]) ++ media) /\ concat pieces = [8; 8].
Proof.
  destruct (regular_file_cut new_fragment_writer demo_fragmented demo_fragmented_wf) as (media & pieces & Hm & Hc & _); [vm_compute; discriminate|].
  exists media, pieces. split; [exact Hm|]. rewrite Hc. vm_compute. reflexivity.
Defined.

(** A file that starts with a fragment makes the writer panic. *)
Example no_init_panics : extract_fragmented_segments (box_infos 0 [demo_box "moof" 3; demo_box "mdat" 4]) = Panic.
Proof. reflexivity. Qed.

(** A parser that is used again keeps the boxes and tracks of the file before. *)
Example parser_keeps_boxes :
  match parse_fragments new_fragment_parser (boxes_bytes [demo_box "moov" 2]) with
  | Done (self, _) => match parse_fragments self (boxes_bytes [demo_box "moof" 3]) with Done (self, _) => (zlen (fp_boxes self), zlen (fp_tracks self)) = (2, 2) | _ => False end
  | _ => False
  end.
Proof. vm_compute. reflexivity. Qed.
