(* ===== verification/MediaBuffers.v ===== *)
(** * Buffers and quality

    Models [core/src/media/buffer.rs] and [quality.rs]: the queue of bytes that
    playback reads from, and the choice of a quality. Durations and instants are
    nanoseconds; an instant less a minute always exists. *)

From Stdlib Require Import SpecFloat.
From S2P Require Import Prelude Rust Float.

#[local] Open Scope Z_scope.

Definition milliseconds (n : Z) : Z := n * 1000000.
Definition seconds (n : Z) : Z := n * 1000000000.

(** ** The buffer *)

Record BufferConfig : Type := { max_size : Z; max_duration : Z; initial_buffer_target : Z }.

Definition default_buffer_config : BufferConfig :=
  {| max_size := 10 * 1024 * 1024; max_duration := seconds 30; initial_buffer_target := seconds 5 |}.

Record MediaBuffer : Type := {
  buffered : bytes;
  buffer_config : BufferConfig;
  start_time : option Z;
  position : Z;
  total_bytes : Z;
}.

Definition new_buffer (config : BufferConfig) : MediaBuffer :=
  {| buffered := []; buffer_config := config; start_time := None; position := 0; total_bytes := 0 |}.

Definition size (self : MediaBuffer) : Z := zlen (buffered self).

Definition push (self : MediaBuffer) (data : bytes) (now : Z) : MediaBuffer * result unit rstring :=
  if max_size (buffer_config self) <? size self + zlen data then (self, RErr (str "Buffer full"))
  else
    ({| buffered := buffered self ++ data; buffer_config := buffer_config self;
        start_time := match start_time self with None => Some now | t => t end; position := position self;
        total_bytes := total_bytes self + zlen data |}, ROk tt).

Definition pop (self : MediaBuffer) (n : Z) : MediaBuffer * result bytes rstring :=
  if size self <? n then (self, RErr (str "Not enough data in buffer"))
  else
    let popped := ztake n (buffered self) in
    ({| buffered := zdrop n (buffered self); buffer_config := buffer_config self; start_time := start_time self;
        position := position self + zlen popped; total_bytes := total_bytes self |}, ROk popped).

Definition clear (self : MediaBuffer) : MediaBuffer :=
  {| buffered := []; buffer_config := buffer_config self; start_time := None; position := 0; total_bytes := total_bytes self |}.

(** [from_millis((size as f64 / 1024.0 * 8.0) as u64)]. *)
Definition duration (self : MediaBuffer) : Z := milliseconds (float_to_usize (f64_of (size self) / f64_of 1024 * f64_of 8)%f64).

Definition has_enough_data (self : MediaBuffer) : bool := initial_buffer_target (buffer_config self) <=? duration self.

(** A run of calls, with what was taken and given since the buffer was last
    empty by [clear], and everything that was ever taken. *)
Inductive buffer_op : Type := Push (data : bytes) (now : Z) | Pop (n : Z) | Clear.

Record buffer_log : Type := { log_buffer : MediaBuffer; taken_in : bytes; given_out : bytes; ever : Z }.

Definition log_step (l : buffer_log) (op : buffer_op) : buffer_log :=
  match op with
  | Push data now =>
      match push (log_buffer l) data now with
      | (b, ROk _) => {| log_buffer := b; taken_in := taken_in l ++ data; given_out := given_out l; ever := ever l + zlen data |}
      | (b, RErr _) => {| log_buffer := b; taken_in := taken_in l; given_out := given_out l; ever := ever l |}
      end
  | Pop n =>
      match pop (log_buffer l) n with
      | (b, ROk out) => {| log_buffer := b; taken_in := taken_in l; given_out := given_out l ++ out; ever := ever l |}
      | (b, RErr _) => {| log_buffer := b; taken_in := taken_in l; given_out := given_out l; ever := ever l |}
      end
  | Clear => {| log_buffer := clear (log_buffer l); taken_in := []; given_out := []; ever := ever l |}
  end.

Definition log_run (config : BufferConfig) (ops : list buffer_op) : buffer_log :=
  fold_left log_step ops {| log_buffer := new_buffer config; taken_in := []; given_out := []; ever := 0 |}.

Definition log_ok (config : BufferConfig) (l : buffer_log) : Prop :=
  buffer_config (log_buffer l) = config /\ taken_in l = given_out l ++ buffered (log_buffer l) /\
  size (log_buffer l) <= Z.max 0 (max_size config) /\ position (log_buffer l) = zlen (given_out l) /\ total_bytes (log_buffer l) = ever l.

Lemma log_step_ok config l op : log_ok config l -> log_ok config (log_step l op).
Proof.
  intros (Hc & Hq & Hs & Hp & Ht). destruct op as [data now|n|]; cbn [log_step].
  - unfold push. rewrite Hc. destruct (Z.ltb_spec (max_size config) (size (log_buffer l) + zlen data)); [by repeat split|].
    unfold log_ok. cbn. split; [done|]. split; [by rewrite Hq, app_assoc|]. split; [unfold size in *; cbn; rewrite zlen_app; lia|]. split; [done|lia].
  - unfold pop. destruct (Z.ltb_spec (size (log_buffer l)) n); [by repeat split|].
    unfold log_ok. cbn. split; [done|]. split; [by rewrite Hq, <- app_assoc, ztake_zdrop|].
    split; [unfold size, zlen, zdrop in *; cbn; rewrite length_skipn; lia|]. split; [rewrite zlen_app; lia|done].
  - unfold log_ok. cbn. split; [done|]. split; [done|]. split; [unfold size; cbn; unfold zlen; cbn; lia|]. by split.
Qed.

(** The buffer is a queue: what was taken since it was last cleared is what was
    given out followed by what is there, in order and nothing twice; it never
    holds more than its maximum, and its two counters count what they say. *)
Theorem buffer_is_queue config ops : log_ok config (log_run config ops).
Proof.
  unfold log_run. revert ops. apply rev_ind.
  - unfold log_ok. cbn. repeat split. unfold size, zlen. cbn. lia.
  - intros op ops IH. rewrite fold_left_app. by apply log_step_ok.
Qed.

(** ** Bandwidth *)

Inductive QualityLevel : Type := Low | Medium | High | Highest.

Definition rank (q : QualityLevel) : Z := match q with Low => 0 | Medium => 1 | High => 2 | Highest => 3 end.

(** [Ord::max] and [Ord::min]; the order is that of the constructors. *)
Definition quality_max (a b : QualityLevel) : QualityLevel := if rank b <? rank a then a else b.
Definition quality_min (a b : QualityLevel) : QualityLevel := if rank b <? rank a then b else a.

Record QualityConfig : Type := {
  min_quality : QualityLevel;
  max_quality : QualityLevel;
  up_switch_buffer : Z;
  down_switch_buffer : Z;
  bandwidth_window_size : Z;
}.

Definition default_quality_config : QualityConfig :=
  {| min_quality := Low; max_quality := Highest; up_switch_buffer := seconds 10; down_switch_buffer := seconds 5; bandwidth_window_size := 10 |}.

Record BandwidthMonitor : Type := { samples : list (Z * Z); current_bandwidth : float }.

Definition new_monitor : BandwidthMonitor := {| samples := []; current_bandwidth := S754_zero false |}.

Fixpoint drop_old (window_start : Z) (samples : list (Z * Z)) : list (Z * Z) :=
  match samples with
  | (time, size) :: rest => if window_start <=? time then samples else drop_old window_start rest
  | [] => []
  end.

(** [as_secs_f64]. *)
Definition as_secs_f64 (d : Z) : float := (f64_of (d / seconds 1) + f64_of (d mod seconds 1) / f64_of (seconds 1))%f64.

Definition calculate_bandwidth (samples : list (Z * Z)) : exec float :=
  match samples with
  | [] | [_] => Done (S754_zero false)
  | (first, _) :: _ =>
      let! totals := for_each (fun '(total, lo, hi) '(time, size) => let! total := add_u64 total size in Done (total, Z.min lo time, Z.max hi time))
                       samples (0, first, first) in
      let '(total, lo, hi) := totals in
      let elapsed := as_secs_f64 (hi - lo) in
      Done (if float_lt (S754_zero false) elapsed then (f64_of total * f64_of 8 / elapsed)%f64 else S754_zero false)
  end.

Definition record_sample (self : BandwidthMonitor) (bytes now : Z) : exec BandwidthMonitor :=
  let kept := drop_old (now - seconds 60) (samples self ++ [(now, bytes)]) in
  let! bandwidth := calculate_bandwidth kept in
  Done {| samples := kept; current_bandwidth := bandwidth |}.

Definition recommended_quality : QualityLevel := Medium.

(** ** The quality *)

Record QualityManager : Type := {
  bandwidth_monitor : BandwidthMonitor;
  current_quality : QualityLevel;
  target_quality : QualityLevel;
  quality_config : QualityConfig;
}.

Definition new_quality_manager (config : QualityConfig) : QualityManager :=
  {| bandwidth_monitor := new_monitor; current_quality := min_quality config; target_quality := min_quality config; quality_config := config |}.

Definition with_quality (self : QualityManager) (current target : QualityLevel) : QualityManager :=
  {| bandwidth_monitor := bandwidth_monitor self; current_quality := current; target_quality := target; quality_config := quality_config self |}.

Definition switch (self : QualityManager) (q : QualityLevel) : QualityManager * option QualityLevel :=
  if rank q =? rank (current_quality self) then (self, None) else (with_quality self q (target_quality self), Some q).

Definition update_quality (self : QualityManager) (buffer_level : Z) : QualityManager * option QualityLevel :=
  let self := with_quality self (current_quality self) recommended_quality in
  if up_switch_buffer (quality_config self) <? buffer_level then switch self (quality_max (current_quality self) (target_quality self))
  else if buffer_level <? down_switch_buffer (quality_config self) then switch self (quality_min (current_quality self) (target_quality self))
  else (self, None).

Definition record_download (self : QualityManager) (bytes now : Z) : exec QualityManager :=
  let! m := record_sample (bandwidth_monitor self) bytes now in
  Done {| bandwidth_monitor := m; current_quality := current_quality self; target_quality := target_quality self; quality_config := quality_config self |}.

Definition quality_run (config : QualityConfig) (levels : list Z) : QualityManager :=
  fold_left (fun self level => fst (update_quality self level)) levels (new_quality_manager config).

(** The levels that move the quality from the lowest it may have: a good one
    upwards, or a bad one downwards. *)
Definition moves (config : QualityConfig) (level : Z) : bool :=
  if rank (min_quality config) <? rank Medium then up_switch_buffer config <? level
  else negb (up_switch_buffer config <? level) && (level <? down_switch_buffer config).

Lemma update_quality_spec self level :
  current_quality self = min_quality (quality_config self) \/ current_quality self = Medium ->
  quality_config (fst (update_quality self level)) = quality_config self /\
  current_quality (fst (update_quality self level)) =
    if rank (current_quality self) =? rank Medium then Medium else if moves (quality_config self) level then Medium else current_quality self.
Proof.
  intros Hq. unfold update_quality, moves, switch. cbn. destruct (Z.ltb_spec (up_switch_buffer (quality_config self)) level);
    [|destruct (Z.ltb_spec level (down_switch_buffer (quality_config self)))]; destruct Hq as [Hq|Hq]; rewrite Hq;
    try destruct (min_quality (quality_config self)) eqn:Hm; cbn; rewrite ?Hq, ?Hm; split; try done; lia.
Qed.

(** The measured bandwidth plays no part, and neither does the highest quality:
    the quality is the lowest one until a level moves it, and medium for ever
    after. It never comes down again from medium, never goes above it, and when
    the lowest quality is above medium it ends below the lowest. *)
Theorem quality_settles config levels :
  current_quality (quality_run config levels) = if existsb (moves config) levels then Medium else min_quality config.
Proof.
  cut (quality_config (quality_run config levels) = config /\
       current_quality (quality_run config levels) = if existsb (moves config) levels then Medium else min_quality config); [by intros []|].
  unfold quality_run. revert levels. apply rev_ind; [done|]. intros level levels [Hc Hq]. rewrite fold_left_app, existsb_app. cbn [fold_left existsb].
  set (self := fold_left _ levels _) in *. destruct (update_quality_spec self level) as [Hc' Hq'].
  { rewrite Hc, Hq. destruct (existsb (moves config) levels); auto. }
  rewrite Hc', Hq', Hc, Hq. split; [done|]. rewrite orb_false_r. destruct (existsb (moves config) levels); [done|]. cbn [orb].
  destruct (Z.eqb_spec (rank (min_quality config)) (rank Medium)) as [He|]; [|done].
  destruct (moves config level); [done|]. by destruct (min_quality config).
Qed.

(** A node whose lowest quality is high goes below it. *)
Example below_the_lowest :
  current_quality (quality_run {| min_quality := High; max_quality := Highest; up_switch_buffer := seconds 10; down_switch_buffer := seconds 5; bandwidth_window_size := 10 |}
    [seconds 1]) = Medium.
Proof. reflexivity. Qed.

(** A default buffer starts playback at 640000 bytes, well below its maximum. *)
Example enough_data : has_enough_data (clear (new_buffer default_buffer_config)) = false /\
  float_to_usize (f64_of 640000 / f64_of 1024 * f64_of 8)%f64 = 5000.
Proof. split; vm_compute; reflexivity. Qed.
