(* ===== verification/Bridge.v ===== *)
(** * From a file to the subscribers of another node

    Models [core/src/media/publisher.rs], which reads a file and publishes its
    segments to the overlay, and [p2p_bridge.rs], which takes the segments of
    the streams it subscribed to out of the overlay and forwards them. The
    overlay is the interface that both use: what its calls answer is an
    argument. A step of the bridge is one critical section or one call. *)

From S2P Require Import Prelude Rust Format Mp4Data Mp4Parse Mp4Delivery Segment.

#[local] Open Scope Z_scope.

Section Bridge.
Context `{B3 : Blake3} `{BW : !Bincode WireSegment}.

(** ** The publisher *)

Record StreamMetadata : Type := {
  md_title : rstring;
  video_width : Z;
  video_height : Z;
  video_fps : Z;
  audio_sample_rate : Z;
  audio_channels : Z;
  video_codec : rstring;
  audio_codec : rstring;
}.

(** What [serde_json] makes of the metadata. *)
Context (metadata_json : StreamMetadata -> option bytes).

Definition first_track (ty : rstring) (tracks : list Mp4Track) : option Mp4Track := List.find (fun t => str_eqb (media_type t) ty) tracks.

Definition file_metadata (file_name : option rstring) (tracks : list Mp4Track) : StreamMetadata :=
  let video_info := first_track (str "vide") tracks in
  let audio_info := first_track (str "soun") tracks in
  {| md_title := default (str "Unknown") file_name;
     video_width := match video_info with Some _ => 1920 | None => 0 end;
     video_height := match video_info with Some _ => 1080 | None => 0 end;
     video_fps := 30;
     audio_sample_rate := match audio_info with Some a => timescale a | None => 48000 end;
     audio_channels := 2;
     video_codec := match video_info with Some v => codec v | None => str "h264" end;
     audio_codec := match audio_info with Some a => codec a | None => str "aac" end |}.

Inductive PublisherError : Type := MediaError | OverlayFailed | IoFailed | SerializationFailed.

(** What happens to a media segment: whether the overlay takes it, and whether
    the signal to stop comes meanwhile. *)
Record outcome : Type := { accepted : bool; stopped : bool }.

(** What the publisher meets. *)
Record surroundings : Type := {
  publish_stream_ok : bool;
  subscribe_ok : bool;
  file : option bytes;
  now_us : Z;
  metadata_ok : bool;
  init_ok : list bool;
  media_outcomes : list outcome;
  stop_stream_ok : bool;
}.

Definition publish_segment (segment : StreamSegment) (ok : bool) : result bytes PublisherError :=
  match to_wire_bytes segment with
  | Some wire => if ok then ROk wire else RErr OverlayFailed
  | None => RErr MediaError
  end.

(** The initialization segments: the first that fails ends it. *)
Fixpoint publish_inits (segments : list StreamSegment) (oks : list bool) : list bytes * result unit PublisherError :=
  match segments with
  | [] => ([], ROk tt)
  | s :: segments =>
      match publish_segment s (hd true oks) with
      | ROk wire => let '(sent, r) := publish_inits segments (tl oks) in (wire :: sent, r)
      | RErr e => ([], RErr e)
      end
  end.

(** The media segments: a failure is logged, and a stop ends it. *)
Fixpoint publish_media (segments : list StreamSegment) (outcomes : list outcome) : list bytes :=
  match segments with
  | [] => []
  | s :: segments =>
      let o := hd {| accepted := true; stopped := false |} outcomes in
      let sent := match publish_segment s (accepted o) with ROk wire => [wire] | RErr _ => [] end in
      if stopped o then sent else sent ++ publish_media segments (tl outcomes)
  end.

(** [publish_from_file], with what it published. *)
Definition publish_from_file (builder : SegmentBuilder) (id : StreamId) (file_name : option rstring) (env : surroundings)
  : exec (list bytes * result unit PublisherError) :=
  if negb (publish_stream_ok env) then Done ([], RErr OverlayFailed)
  else if negb (subscribe_ok env) then Done ([], RErr OverlayFailed)
  else
    match file env with
    | None => Done ([], RErr IoFailed)
    | Some data =>
        let! r := parse new_parser data in
        match r with
        | (_, RErr _) => Done ([], RErr MediaError)
        | (parser, ROk _) =>
            match metadata_json (file_metadata file_name (tracks parser)) with
            | None => Done ([], RErr SerializationFailed)
            | Some json =>
                let! m := next_metadata builder json (now_us env) in
                match publish_segment (snd m) (metadata_ok env) with
                | RErr e => Done ([], RErr e)
                | ROk wire =>
                    let! g := generate_stream_segments parser id in
                    match g with
                    | (_, RErr _) => Done ([wire], RErr MediaError)
                    | (_, ROk []) => Done ([wire], RErr MediaError)
                    | (_, ROk segments) =>
                        match publish_inits (List.filter is_init segments) (init_ok env) with
                        | (sent, RErr e) => Done (wire :: sent, RErr e)
                        | (sent, ROk _) =>
                            let media := publish_media (List.filter (fun s => negb (is_init s)) segments) (media_outcomes env) in
                            Done (wire :: sent ++ media, if stop_stream_ok env then ROk tt else RErr OverlayFailed)
                        end
                    end
                end
            end
        end
    end.

(** ** The bridge *)

(** The events of the overlay that the bridge tells apart. *)
Inductive bridge_event : Type :=
| StreamData (id : StreamId) (data : bytes)
| StreamStopped (id : StreamId)
| OtherBridgeEvent.

(** Calls and event loops, by what they do next. *)
Inductive bridge_call : Type :=
| SubLooking (id : StreamId)
| SubCounting (id : StreamId)
| SubAsking (id : StreamId)
| SubAdding (id : StreamId)
| Unsubscribing (id : StreamId)
| BridgeReturned (ok : bool).

Inductive bridge_loop : Type :=
| Entering
| Testing
| Waiting
| Handling (e : bridge_event)
| Forwarding (segment : StreamSegment)
| LoopEnded (ok : bool).

(** The last three fields are notes for the theorems: what the loops took, what
    was forwarded, and what was ever subscribed to. *)
Record P2PBridge : Type := {
  max_streams : Z;
  subscribed_streams : gset StreamId;
  br_running : bool;
  receivers : Z;
  br_events : list bridge_event;
  br_calls : list bridge_call;
  br_loops : list bridge_loop;
  br_taken : list bridge_event;
  forwarded : list StreamSegment;
  ever_subscribed : list StreamId;
}.

Definition new_bridge (limit : Z) : P2PBridge :=
  {| max_streams := limit; subscribed_streams := ∅; br_running := false; receivers := 0; br_events := []; br_calls := []; br_loops := [];
     br_taken := []; forwarded := []; ever_subscribed := [] |}.

Definition br_streams (b : P2PBridge) (v : gset StreamId) (ever : list StreamId) : P2PBridge :=
  {| max_streams := max_streams b; subscribed_streams := v; br_running := br_running b; receivers := receivers b; br_events := br_events b;
     br_calls := br_calls b; br_loops := br_loops b; br_taken := br_taken b; forwarded := forwarded b; ever_subscribed := ever |}.
Definition br_flags (b : P2PBridge) (run : bool) (n : Z) : P2PBridge :=
  {| max_streams := max_streams b; subscribed_streams := subscribed_streams b; br_running := run; receivers := n; br_events := br_events b;
     br_calls := br_calls b; br_loops := br_loops b; br_taken := br_taken b; forwarded := forwarded b; ever_subscribed := ever_subscribed b |}.
Definition br_queue (b : P2PBridge) (q t : list bridge_event) (f : list StreamSegment) : P2PBridge :=
  {| max_streams := max_streams b; subscribed_streams := subscribed_streams b; br_running := br_running b; receivers := receivers b; br_events := q;
     br_calls := br_calls b; br_loops := br_loops b; br_taken := t; forwarded := f; ever_subscribed := ever_subscribed b |}.
Definition br_tasks (b : P2PBridge) (cs : list bridge_call) (ls : list bridge_loop) : P2PBridge :=
  {| max_streams := max_streams b; subscribed_streams := subscribed_streams b; br_running := br_running b; receivers := receivers b;
     br_events := br_events b; br_calls := cs; br_loops := ls; br_taken := br_taken b; forwarded := forwarded b; ever_subscribed := ever_subscribed b |}.

Definition drop_stream (b : P2PBridge) (id : StreamId) : P2PBridge := br_streams b (subscribed_streams b ∖ {[id]}) (ever_subscribed b).

(** The next section of a call; [ok] is the answer of the overlay. *)
Definition bridge_call_act (b : P2PBridge) (c : bridge_call) (ok : bool) : option (P2PBridge * bridge_call) :=
  match c with
  | SubLooking id => Some (b, if bool_decide (id ∈ subscribed_streams b) then BridgeReturned true else SubCounting id)
  | SubCounting id => Some (b, if max_streams b <=? Z.of_nat (size (subscribed_streams b)) then BridgeReturned false else SubAsking id)
  | SubAsking id => Some (b, if ok then SubAdding id else BridgeReturned false)
  | SubAdding id => Some (br_streams b ({[id]} ∪ subscribed_streams b) (ever_subscribed b ++ [id]), BridgeReturned true)
  | Unsubscribing id => Some (drop_stream b id, BridgeReturned true)
  | BridgeReturned _ => None
  end.

(** [run] and [handle_event]. *)
Definition bridge_loop_act (b : P2PBridge) (l : bridge_loop) : option (P2PBridge * bridge_loop) :=
  match l with
  | Entering => Some (if br_running b then (b, LoopEnded false) else (br_flags b true (receivers b), Testing))
  | Testing => Some (b, if br_running b then Waiting else LoopEnded true)
  | Waiting =>
      match br_events b with
      | e :: q => Some (br_queue b q (br_taken b ++ [e]) (forwarded b), Handling e)
      | [] => Some (b, Testing)
      end
  | Handling (StreamData id data) =>
      Some (b, if bool_decide (id ∈ subscribed_streams b) then
                 match bin_deserialize data with Some wire => Forwarding (segment_of_wire wire) | None => Testing end
               else Testing)
  | Handling (StreamStopped id) => Some (drop_stream b id, Testing)
  | Handling OtherBridgeEvent => Some (b, Testing)
  | Forwarding segment =>
      Some (if 0 <? receivers b then br_queue b (br_events b) (br_taken b) (forwarded b ++ [segment]) else b, Testing)
  | LoopEnded _ => None
  end.

Definition is_bridge_entry (c : bridge_call) : bool := match c with SubLooking _ | Unsubscribing _ => true | _ => false end.

Inductive bridge_command : Type :=
| IssueCall (c : bridge_call)
| StartLoop
| StopBridge
| StepCall (i : nat) (ok : bool)
| StepLoop (k : nat)
| Bring (e : bridge_event)
| SetReceivers (n : Z).

Definition bridge_exec (b : P2PBridge) (cmd : bridge_command) : option P2PBridge :=
  match cmd with
  | IssueCall c => if is_bridge_entry c then Some (br_tasks b (br_calls b ++ [c]) (br_loops b)) else None
  | StartLoop => Some (br_tasks b (br_calls b) (br_loops b ++ [Entering]))
  | StopBridge => Some (br_flags b false (receivers b))
  | StepCall i ok => c ← br_calls b !! i; r ← bridge_call_act b c ok; Some (br_tasks (fst r) (<[i := snd r]> (br_calls (fst r))) (br_loops (fst r)))
  | StepLoop k => l ← br_loops b !! k; r ← bridge_loop_act b l; Some (br_tasks (fst r) (br_calls (fst r)) (<[k := snd r]> (br_loops (fst r))))
  | Bring e => Some (br_queue b (br_events b ++ [e]) (br_taken b) (forwarded b))
  | SetReceivers n => Some (br_flags b (br_running b) n)
  end.

Inductive bridge_step (b : P2PBridge) : P2PBridge -> Prop :=
| bridge_command_step cmd b' : bridge_exec b cmd = Some b' -> bridge_step b b'.

Fixpoint bridge_script (b : P2PBridge) (cmds : list bridge_command) : option P2PBridge :=
  match cmds with [] => Some b | cmd :: cmds => b ← bridge_exec b cmd; bridge_script b cmds end.

Lemma bridge_script_steps b cmds b' : bridge_script b cmds = Some b' -> rtc bridge_step b b'.
Proof.
  revert b. induction cmds as [|cmd cmds IH]; intros b; cbn; [by intros [= ->]|].
  intros (b1 & H1 & Hr)%bind_Some. eapply rtc_l; [by econstructor|by apply IH].
Qed.

(** ** What is published *)

(** Everything a publisher means to publish of a file, in order. *)
Definition plan (meta : StreamSegment) (segments : list StreamSegment) : list StreamSegment :=
  meta :: List.filter is_init segments ++ List.filter (fun s => negb (is_init s)) segments.

Definition wires (segments : list StreamSegment) : list bytes := omap to_wire_bytes segments.

Lemma publish_inits_prefix segments : forall oks, fst (publish_inits segments oks) `prefix_of` wires segments /\
  (snd (publish_inits segments oks) = ROk tt -> fst (publish_inits segments oks) = wires segments).
Proof.
  induction segments as [|s segments IH]; intros oks; [by split|]. cbn. unfold publish_segment.
  destruct (to_wire_bytes s) as [wire|]; [|split; [apply prefix_nil|done]]. destruct (hd true oks); [|split; [apply prefix_nil|done]].
  destruct (IH (tl oks)) as [Hp Hd]. destruct (publish_inits segments (tl oks)) as [sent r]. cbn in *. split; [by apply prefix_cons|].
  intros Hr. by rewrite Hd.
Qed.

Lemma publish_media_sublist segments : forall outcomes, publish_media segments outcomes `sublist_of` wires segments.
Proof.
  induction segments as [|s segments IH]; intros outcomes; [done|]. cbn. unfold publish_segment. set (o := hd _ outcomes).
  destruct (to_wire_bytes s) as [wire|]; [|destruct (stopped o); [apply sublist_nil_l|apply IH]].
  destruct (accepted o), (stopped o); cbn; [by apply sublist_skip, sublist_nil_l|by apply sublist_skip, IH|apply sublist_nil_l|by apply sublist_cons, IH].
Qed.

Lemma publish_media_all segments outcomes : Forall (fun o => accepted o = true /\ stopped o = false) outcomes ->
  publish_media segments outcomes = wires segments.
Proof.
  revert outcomes. induction segments as [|s segments IH]; intros outcomes Ho; [done|]. cbn. unfold publish_segment. set (o := hd _ outcomes).
  assert (accepted o = true /\ stopped o = false) as [Ha Hs] by (destruct Ho; [done|done]). rewrite Ha, Hs, IH by (by destruct Ho).
  by destruct (to_wire_bytes s).
Qed.

Lemma wires_app a b : wires (a ++ b) = wires a ++ wires b.
Proof. apply omap_app. Qed.

(** What a bridge makes of the bytes of a segment. *)
Lemma wire_reads_back s wire : to_wire_bytes s = Some wire -> segment_of_wire <$> bin_deserialize wire = Some s.
Proof. intros Hw. unfold to_wire_bytes in Hw. rewrite (bin_roundtrip _ _ Hw). cbn. by rewrite segment_of_wire_of_segment. Qed.
End Bridge.
