(* ===== verification/BridgeProps.v ===== *)
(** * What the publisher and the bridge do

    The order of what is published, where forwarded segments come from, and the
    two together: a file published by one node is what the bridge of another
    forwards of its stream, in every run in which it stays subscribed. *)

From S2P Require Import Prelude Rust Format Mp4Box Mp4Moof Mp4Data Mp4Parse Mp4Delivery Segment Bridge.

#[local] Open Scope Z_scope.

Section Props.
Context `{B3 : Blake3} `{BW : !Bincode WireSegment}.
Context (metadata_json : StreamMetadata -> option bytes).

(** ** The publisher *)

(** What a publisher makes of its file: the metadata of the tracks found there,
    and the segments. *)
Definition file_meta (builder : SegmentBuilder) (name : option rstring) (env : surroundings) (parser : Mp4Parser) (meta : StreamSegment) : Prop :=
  exists data json builder', file env = Some data /\ parse new_parser data = Done (parser, ROk tt) /\
    metadata_json (file_metadata name (tracks parser)) = Some json /\ next_metadata builder json (now_us env) = Done (builder', meta).

Definition file_segments (id : StreamId) (parser : Mp4Parser) (segments : list StreamSegment) : Prop :=
  exists parser', generate_stream_segments parser id = Done (parser', ROk segments) /\ segments <> [].

Definition undisturbed (env : surroundings) : Prop :=
  Forall (fun o => accepted o = true /\ stopped o = false) (media_outcomes env).

(** What comes before the media segments. *)
Definition preamble (meta : StreamSegment) (segments : list StreamSegment) : list bytes := wires (meta :: List.filter is_init segments).

(** What a publisher that made segments has done when it returns [r]. *)
Definition published_part (env : surroundings) (meta : StreamSegment) (segments : list StreamSegment) (sent : list bytes)
  (r : result unit PublisherError) : Prop :=
  sent `sublist_of` wires (plan meta segments) /\
  (sent `prefix_of` preamble meta segments \/ preamble meta segments `prefix_of` sent) /\
  (r = ROk tt ->
    Forall (fun s => is_Some (to_wire_bytes s)) (meta :: List.filter is_init segments) /\
    preamble meta segments `prefix_of` sent /\ (undisturbed env -> sent = wires (plan meta segments))).

(** What a publisher of a file has done when it returns [r]. *)
Definition publisher_did (builder : SegmentBuilder) (id : StreamId) (name : option rstring) (env : surroundings) (sent : list bytes)
  (r : result unit PublisherError) : Prop :=
  (sent = [] /\ r <> ROk tt) \/
  exists parser meta, file_meta builder name env parser meta /\
    ((sent = wires [meta] /\ r <> ROk tt) \/
     exists segments, file_segments id parser segments /\ published_part env meta segments sent r).

Lemma wires_meta meta wire l : to_wire_bytes meta = Some wire -> wires (meta :: l) = wire :: wires l.
Proof. intros Hw. unfold wires. cbn. by rewrite Hw. Qed.

Lemma publish_inits_encodes segments : forall oks sent, publish_inits segments oks = (sent, ROk tt) ->
  Forall (fun s => is_Some (to_wire_bytes s)) segments.
Proof.
  induction segments as [|s segments IH]; intros oks sent; [constructor|]. cbn. unfold publish_segment.
  destruct (to_wire_bytes s) as [w|] eqn:Hw; [|done]. destruct (hd true oks); [|done].
  destruct (publish_inits segments (tl oks)) as [rest [[]|e]] eqn:Hi; [|done]. intros _. constructor; [by rewrite Hw|by eapply IH].
Qed.

Lemma stopped_at_inits env meta wire segments sent e : to_wire_bytes meta = Some wire ->
  publish_inits (List.filter is_init segments) (init_ok env) = (sent, RErr e) -> published_part env meta segments (wire :: sent) (RErr e).
Proof.
  intros Hw Hi. destruct (publish_inits_prefix (List.filter is_init segments) (init_ok env)) as [[rest Hp] _]. rewrite Hi in Hp. cbn in Hp.
  unfold published_part, preamble, plan. rewrite !(wires_meta _ _ _ Hw), wires_app, Hp, <- app_assoc.
  split; [by apply sublist_skip, sublist_inserts_r|]. split; [|done]. left. apply prefix_cons. by eexists.
Qed.

Lemma came_to_media env meta wire segments sent r : to_wire_bytes meta = Some wire ->
  publish_inits (List.filter is_init segments) (init_ok env) = (sent, ROk tt) ->
  published_part env meta segments (wire :: sent ++ publish_media (List.filter (fun s => negb (is_init s)) segments) (media_outcomes env)) r.
Proof.
  intros Hw Hi. destruct (publish_inits_prefix (List.filter is_init segments) (init_ok env)) as [_ Hall]. rewrite Hi in Hall. cbn in Hall.
  assert (Hpre : forall l, preamble meta segments `prefix_of` wire :: wires (List.filter is_init segments) ++ l).
  { intros l. unfold preamble. rewrite (wires_meta _ _ _ Hw). apply prefix_cons. by eexists. }
  rewrite (Hall eq_refl). unfold published_part, plan. rewrite !(wires_meta _ _ _ Hw), wires_app. split.
  { apply sublist_skip, sublist_app; [done|]. apply publish_media_sublist. }
  split; [by right|]. intros _. split; [|split; [done|intros Hund; by rewrite publish_media_all]].
  constructor; [by rewrite Hw|by eapply publish_inits_encodes].
Qed.

Lemma publisher_runs builder id name env sent r :
  publish_from_file metadata_json builder id name env = Done (sent, r) -> publisher_did builder id name env sent r.
Proof.
  unfold publish_from_file. destruct (publish_stream_ok env); [|intros [= <- <-]; by left].
  destruct (subscribe_ok env); [|intros [= <- <-]; by left]. cbn [negb].
  destruct (file env) as [data|] eqn:Hfile; [|intros [= <- <-]; by left].
  destruct (parse new_parser data) as [[parser [[]|e]]| |] eqn:Hparse; try done; [|intros [= <- <-]; by left].
  cbn [exec_bind]. destruct (metadata_json _) as [json|] eqn:Hjson; [|intros [= <- <-]; by left].
  destruct (next_metadata builder json (now_us env)) as [[builder' meta]| |] eqn:Hmeta; try done. cbn [exec_bind snd].
  unfold publish_segment at 1. destruct (to_wire_bytes meta) as [wire|] eqn:Hwire; [|intros [= <- <-]; by left].
  destruct (metadata_ok env); [|intros [= <- <-]; by left].
  destruct (generate_stream_segments parser id) as [[parser' g]| |] eqn:Hgen; try done. cbn [exec_bind]. intros Hrun.
  right. exists parser, meta. split; [by exists data, json, builder'|].
  assert (Halone : wires [meta] = [wire]) by (unfold wires; cbn; by rewrite Hwire).
  destruct g as [segments|e]; [|injection Hrun as <- <-; by left].
  destruct (decide (segments = [])) as [->|Hne]; [injection Hrun as <- <-; by left|]. right. exists segments. split; [by exists parser'|].
  destruct (publish_inits (List.filter is_init segments) (init_ok env)) as [inits [[]|e]] eqn:Hi;
    (destruct segments as [|s0 segments]; [done|]); injection Hrun as <- <-; [by apply came_to_media|by eapply stopped_at_inits].
Qed.

(** C10: Whatever fails and whenever it is stopped, what a publisher has sent is
    nothing, or some of its plan for its own file in order: the metadata of the
    tracks parsed from the file, then the initialization segments and the media
    segments generated from it. No media segment is sent before all the
    initialization segments were. It ends without an error only after it sent
    all but media segments, and then these are missing only where the overlay
    refused one, one could not be encoded, or a stop came. *)
Theorem publisher_keeps_order builder id name env sent r :
  publish_from_file metadata_json builder id name env = Done (sent, r) ->
  (sent = [] /\ r <> ROk tt) \/
  exists parser meta, file_meta builder name env parser meta /\
    ((sent = wires [meta] /\ r <> ROk tt) \/
     exists segments, file_segments id parser segments /\
      sent `sublist_of` wires (plan meta segments) /\
      (sent `prefix_of` preamble meta segments \/ preamble meta segments `prefix_of` sent) /\
      (r = ROk tt ->
        Forall (fun s => is_Some (to_wire_bytes s)) (meta :: List.filter is_init segments) /\
        preamble meta segments `prefix_of` sent /\ (undisturbed env -> sent = wires (plan meta segments)))).
Proof. apply publisher_runs. Qed.

(** ** The bridge *)

Definition came_from (b : P2PBridge) (s : StreamSegment) : Prop :=
  exists id data, StreamData id data ∈ br_taken b /\ id ∈ ever_subscribed b /\ segment_of_wire <$> bin_deserialize data = Some s.

Definition loop_origin (b : P2PBridge) (l : bridge_loop) : Prop :=
  match l with Handling e => e ∈ br_taken b | Forwarding s => came_from b s | _ => True end.

Definition bridge_ok (b : P2PBridge) : Prop :=
  (forall id, id ∈ subscribed_streams b -> id ∈ ever_subscribed b) /\ Forall (loop_origin b) (br_loops b) /\ Forall (came_from b) (forwarded b).

Definition extends (b b' : P2PBridge) : Prop :=
  (forall e, e ∈ br_taken b -> e ∈ br_taken b') /\ (forall id, id ∈ ever_subscribed b -> id ∈ ever_subscribed b').

Lemma came_from_extends b b' s : extends b b' -> came_from b s -> came_from b' s.
Proof. intros [Ht He] (id & data & Hd & Hi & Hs). exists id, data. auto. Qed.

Lemma loop_origin_extends b b' l : extends b b' -> loop_origin b l -> loop_origin b' l.
Proof. intros Hx. destruct l; cbn; try done; [by apply Hx|by apply came_from_extends]. Qed.

Lemma bridge_ok_extends b b' : bridge_ok b -> extends b b' -> br_loops b' = br_loops b -> forwarded b' = forwarded b ->
  (forall id, id ∈ subscribed_streams b' -> id ∈ ever_subscribed b') -> bridge_ok b'.
Proof.
  intros (_ & Hl & Hf) Hx Hl' Hf' Hs. split; [done|]. rewrite Hl', Hf'. split.
  - eapply Forall_impl; [exact Hl|]. intros l. by apply loop_origin_extends.
  - eapply Forall_impl; [exact Hf|]. intros s. by apply came_from_extends.
Qed.

Lemma bridge_loop_ok b k l b' l' : bridge_ok b -> br_loops b !! k = Some l -> bridge_loop_act b l = Some (b', l') ->
  bridge_ok b' /\ loop_origin b' l' /\ extends b b' /\ br_loops b' = br_loops b.
Proof.
  intros Hok Hk Hact. pose proof Hok as (Hs & Hl & Hf). pose proof (Forall_lookup_1 _ _ _ _ Hl Hk) as Ho.
  assert (Hsame : forall l1, loop_origin b l1 -> (b, l1) = (b', l') -> bridge_ok b' /\ loop_origin b' l' /\ extends b b' /\ br_loops b' = br_loops b)
    by (intros l1 Hl1 [= <- <-]; by repeat split).
  destruct l as [| | |e|s|ok]; cbn [bridge_loop_act] in Hact; [| | | | |done].
  - injection Hact as Hact. destruct (br_running b); [by apply (Hsame (LoopEnded false))|]. injection Hact as <- <-.
    split; [|by repeat split]. apply (bridge_ok_extends b); try done.
  - injection Hact as <- <-. eapply Hsame; [|reflexivity]. by destruct (br_running b).
  - destruct (br_events b) as [|e q]; [injection Hact as <- <-; by apply (Hsame Testing)|]. injection Hact as <- <-.
    assert (Hx : extends b (br_queue b q (br_taken b ++ [e]) (forwarded b))) by (split; cbn; [set_solver|done]).
    split; [by apply (bridge_ok_extends b)|]. split; [cbn; set_solver|]. by split.
  - destruct e as [id data|id|]; injection Hact as <- <-.
    + eapply Hsame; [|reflexivity]. destruct (decide (id ∈ subscribed_streams b)) as [Hin|]; [|by rewrite bool_decide_false].
      rewrite bool_decide_true by done. destruct (bin_deserialize data) as [wire|] eqn:Hd; [|done]. exists id, data. cbn in Ho. rewrite Hd. auto.
    + assert (Hx : extends b (drop_stream b id)) by done. split; [|by split]. apply (bridge_ok_extends b); try done. cbn. set_solver.
    + by apply (Hsame Testing).
  - injection Hact as <- <-. destruct (0 <? receivers b); [|by apply (Hsame Testing)].
    assert (Hx : extends b (br_queue b (br_events b) (br_taken b) (forwarded b ++ [s]))) by done. split; [|by split].
    split; [done|]. split; [done|]. cbn. apply Forall_app_2; [done|]. by constructor.
Qed.

Lemma bridge_step_ok b b' : bridge_ok b -> bridge_step b b' -> bridge_ok b'.
Proof.
  intros Hok [cmd b1 Hs]. pose proof Hok as (Hsub & Hl & Hf). destruct cmd as [c| | |i ok|k|e|n]; cbn [bridge_exec] in Hs.
  - destruct (is_bridge_entry c); [|done]. by injection Hs as <-.
  - injection Hs as <-. split; [done|]. split; [|done]. apply Forall_app_2; [done|]. by constructor.
  - by injection Hs as <-.
  - apply bind_Some in Hs as (c & _ & ([b2 c2] & Hact & [= <-])%bind_Some). cbn.
    destruct c as [id|id|id|id|id|?]; cbn [bridge_call_act] in Hact; try done; injection Hact as <- <-; try exact Hok.
    + assert (Hx : extends b (br_streams b ({[id]} ∪ subscribed_streams b) (ever_subscribed b ++ [id]))) by (split; cbn; [done|set_solver]).
      apply (bridge_ok_extends b); try done. cbn. set_solver.
    + apply (bridge_ok_extends b); try done. cbn. set_solver.
  - apply bind_Some in Hs as (l & Hk & ([b2 l2] & Hact & [= <-])%bind_Some). destruct (bridge_loop_ok _ _ _ _ _ Hok Hk Hact) as ((Hs2 & Hl2 & Hf2) & Ho & _ & He).
    split; [done|]. split; [|done]. cbn. by apply Forall_insert.
  - by injection Hs as <-.
  - by injection Hs as <-.
Qed.

(** C11: However its calls and loops interleave, a bridge forwards only segments that
    it decoded from the data of a stream it subscribed to. *)
Theorem bridge_forwards_subscribed limit b s : rtc bridge_step (new_bridge limit) b -> s ∈ forwarded b ->
  exists id data, StreamData id data ∈ br_taken b /\ id ∈ ever_subscribed b /\ segment_of_wire <$> bin_deserialize data = Some s.
Proof.
  intros Hr Hin. assert (Hok : bridge_ok b).
  { clear Hin. revert b Hr. refine (rtc_ind_r _ _ _ _); [by repeat constructor|]. intros y z _ Hs Hy. by eapply bridge_step_ok. }
  destruct Hok as (_ & _ & Hf). rewrite list.Forall_forall in Hf. by apply Hf.
Qed.

(** ** From one to the other *)

(** A bridge that serves a stream with its loop [k]: it is subscribed, it runs,
    somebody receives what it forwards, and its other loops did not begin or
    have ended. *)
Definition idle_loop (l : bridge_loop) : Prop := match l with Entering | LoopEnded _ => True | _ => False end.

Record posted (id : StreamId) (k : nat) (b : P2PBridge) (l : bridge_loop) : Prop := {
  posted_subscribed : id ∈ subscribed_streams b;
  posted_running : br_running b = true;
  posted_receivers : 0 < receivers b;
  posted_loop : br_loops b !! k = Some l;
  posted_others : forall j l', j <> k -> br_loops b !! j = Some l' -> idle_loop l';
  posted_queue : StreamStopped id ∉ br_events b;
}.

Definition listening (id : StreamId) (k : nat) (b : P2PBridge) : Prop := posted id k b Testing.

(** Its loop has nothing to do. *)
Definition at_rest (k : nat) (b : P2PBridge) : Prop := br_events b = [] /\ (br_loops b !! k = Some Testing \/ br_loops b !! k = Some Waiting).

(** Commands after which it still serves the stream, whatever else they do. *)
Definition spares (id : StreamId) (b : P2PBridge) (cmd : bridge_command) : Prop :=
  match cmd with
  | StopBridge => False
  | SetReceivers n => 0 < n
  | Bring e => e <> StreamStopped id
  | StepCall i _ => br_calls b !! i <> Some (Unsubscribing id)
  | IssueCall _ | StartLoop | StepLoop _ => True
  end.

Definition brings (cmd : bridge_command) : list bridge_event := match cmd with Bring e => [e] | _ => [] end.

(** Every run of such commands, with the events that the overlay brought. *)
Inductive attended_run (id : StreamId) (b : P2PBridge) : list bridge_event -> P2PBridge -> Prop :=
| attended_begins : attended_run id b [] b
| attended_goes_on brought b1 cmd b2 : attended_run id b brought b1 -> spares id b1 cmd -> bridge_exec b1 cmd = Some b2 ->
    attended_run id b (brought ++ brings cmd) b2.

Lemma attended_trans id b ev1 b1 ev2 b2 : attended_run id b ev1 b1 -> attended_run id b1 ev2 b2 -> attended_run id b (ev1 ++ ev2) b2.
Proof. intros H1. induction 1 as [|ev b2 cmd b3 _ IH Hs He]; [by rewrite app_nil_r|]. rewrite app_assoc. by eapply attended_goes_on. Qed.

Lemma attended_steps id b ev b' : attended_run id b ev b' -> rtc bridge_step b b'.
Proof. induction 1; [done|]. eapply rtc_r; [done|]. by econstructor. Qed.

(** The bytes that came for a stream; the segments that events hold, each with
    its stream; those of one stream. *)
Definition data_of (id : StreamId) (e : bridge_event) : option bytes :=
  match e with StreamData i data => if decide (i = id) then Some data else None | _ => None end.
Definition of_stream (id : StreamId) (events : list bridge_event) : list bytes := omap (data_of id) events.

Definition tagged (e : bridge_event) : option (StreamId * StreamSegment) :=
  match e with StreamData i data => (fun wire => (i, segment_of_wire wire)) <$> bin_deserialize data | _ => None end.

Definition mine (id : StreamId) (log : list (StreamId * StreamSegment)) : list StreamSegment :=
  omap (fun p => if decide (p.1 = id) then Some p.2 else None) log.

Lemma mine_app id a b : mine id (a ++ b) = mine id a ++ mine id b.
Proof. apply omap_app. Qed.

(** What a bridge makes of the bytes that came for a stream. *)
Lemma mine_tagged id events : mine id (omap tagged events) = omap (fun data => segment_of_wire <$> bin_deserialize data) (of_stream id events).
Proof.
  induction events as [|e events IH]; [done|]. change (e :: events) with ([e] ++ events). unfold of_stream in *.
  rewrite !omap_app, mine_app, IH. f_equal. clear IH. destruct e as [i data|i|]; [|done..]. unfold mine. cbn.
  destruct (bin_deserialize data) as [v|] eqn:Hd; cbn; destruct (decide (i = id)); cbn; by rewrite ?Hd.
Qed.

Lemma wires_read_back segments : Forall (fun s => is_Some (to_wire_bytes s)) segments ->
  omap (fun data => segment_of_wire <$> bin_deserialize data) (wires segments) = segments.
Proof.
  induction 1 as [|s segments [w Hs] _ IH]; [done|]. rewrite (wires_meta _ _ _ Hs). cbn.
  pose proof (wire_reads_back s w Hs) as Hback. destruct (bin_deserialize w); [|done]. injection Hback as Hback. cbn. by rewrite Hback, IH.
Qed.

(** What the loop holds of what it took. *)
Definition in_hand (id : StreamId) (l : bridge_loop) (hand : list (StreamId * StreamSegment)) : Prop :=
  match l with
  | Testing | Waiting => hand = []
  | Handling e => e <> StreamStopped id /\ hand = option_list (tagged e)
  | Forwarding s => exists i, hand = [(i, s)]
  | Entering | LoopEnded _ => False
  end.

(** The account of a bridge: [events] are those there were and those brought,
    [before] what was forwarded before. *)
Definition accounts (id : StreamId) (events : list bridge_event) (before : list StreamSegment) (b : P2PBridge)
  (log hand : list (StreamId * StreamSegment)) : Prop :=
  exists taken, events = taken ++ br_events b /\ forwarded b = before ++ map snd log /\
    log ++ hand `sublist_of` omap tagged taken /\ mine id (log ++ hand) = mine id (omap tagged taken).

Definition serves_stream (id : StreamId) (k : nat) (events : list bridge_event) (before : list StreamSegment) (b : P2PBridge) : Prop :=
  exists l log hand, posted id k b l /\ in_hand id l hand /\ accounts id events before b log hand.

Lemma hand_drops id events before b log hand : accounts id events before b log hand -> mine id hand = [] -> accounts id events before b log [].
Proof.
  intros (taken & He & Hf & Hsub & Hm) Hh. exists taken. rewrite app_nil_r. split; [done|]. split; [done|]. split.
  - etrans; [|exact Hsub]. by apply sublist_inserts_r.
  - by rewrite <- Hm, mine_app, Hh, app_nil_r.
Qed.

(** The loop of the stream goes on. *)
Lemma posted_loop_step id k events before b l b' l' log hand : posted id k b l -> in_hand id l hand -> accounts id events before b log hand ->
  bridge_loop_act b l = Some (b', l') ->
  exists log' hand', posted id k (br_tasks b' (br_calls b') (<[k := l']> (br_loops b'))) l' /\ in_hand id l' hand' /\
    accounts id events before b' log' hand'.
Proof.
  intros [Hs Hrun Hrec Hk Hothers Hq] Hhand Hacc Hact.
  assert (Hput : forall b1 l1, subscribed_streams b1 = subscribed_streams b \/ (exists i, i <> id /\ b1 = drop_stream b i) ->
    br_running b1 = true -> 0 < receivers b1 -> br_loops b1 = br_loops b -> StreamStopped id ∉ br_events b1 ->
    posted id k (br_tasks b1 (br_calls b1) (<[k := l1]> (br_loops b1))) l1).
  { intros b1 l1 Hsub Hr1 Hr2 Hl Hq1. constructor; cbn; try done.
    - destruct Hsub as [->|(i & Hi & ->)]; [done|]. cbn. set_solver.
    - rewrite Hl. apply list_lookup_insert_eq. by eapply lookup_lt_Some.
    - intros j l2 Hj. rewrite Hl, list_lookup_insert_ne by done. by apply Hothers. }
  destruct l as [| | |e|s|ok]; cbn [bridge_loop_act in_hand] in *; try done.
  - rewrite Hrun in Hact. injection Hact as <- <-. exists log, []. subst hand. split; [apply Hput; try done; by left|]. by split.
  - subst hand. destruct (br_events b) as [|e q] eqn:He; injection Hact as <- <-.
    { exists log, []. split; [apply Hput; try done; [by left|by rewrite He]|]. by split. }
    exists log, (option_list (tagged e)). split; [apply Hput; cbn; try done; [by left|set_solver]|]. split; [cbn; split; [set_solver|done]|].
    destruct Hacc as (taken & Hev & Hf & Hsub & Hm). rewrite app_nil_r in *. exists (taken ++ [e]). cbn. rewrite <- app_assoc, omap_app.
    split; [by rewrite Hev, He|]. split; [done|].
    assert (Hone : omap tagged [e] = option_list (tagged e)) by (cbn; by destruct (tagged e)). rewrite Hone.
    split; [by apply sublist_app|]. by rewrite !mine_app, Hm.
  - destruct Hhand as [Hne ->]. destruct e as [i data|i|]; injection Hact as <- <-.
    + destruct (decide (i ∈ subscribed_streams b)) as [Hin|Hout].
      * rewrite bool_decide_true by done. cbn in Hacc. destruct (bin_deserialize data) as [wire|]; cbn in Hacc; eexists _, _;
          (split; [apply Hput; try done; by left|]); (split; [|exact Hacc]); [by eexists|done].
      * rewrite bool_decide_false by done. exists log, []. split; [apply Hput; try done; by left|]. split; [done|].
        apply (hand_drops _ _ _ _ _ _ Hacc). cbn. destruct (bin_deserialize data); [|done]. cbn. rewrite decide_False; [done|]. by intros ->.
    + exists log, []. split; [apply Hput; try done; right; exists i; split; [by intros ->|done]|]. by split.
    + exists log, []. split; [apply Hput; try done; by left|]. by split.
  - destruct Hhand as [i ->]. injection Hact as <- <-. destruct (Z.ltb_spec 0 (receivers b)); [|lia].
    exists (log ++ [(i, s)]), []. split; [apply Hput; try done; by left|]. split; [done|].
    destruct Hacc as (taken & Hev & Hf & Hsub & Hm). exists taken. cbn. rewrite app_nil_r, map_app, Hf. cbn. by rewrite app_assoc.
Qed.

Lemma serves_stream_step id k events before b cmd b' : serves_stream id k events before b -> spares id b cmd -> bridge_exec b cmd = Some b' ->
  serves_stream id k (events ++ brings cmd) before b'.
Proof.
  intros (l & log & hand & Hpost & Hhand & Hacc) Hsp Hex.
  assert (Hkeep : forall b1, accounts id events before b1 log hand -> posted id k b1 l -> serves_stream id k (events ++ []) before b1)
    by (intros b1 Ha Hp; rewrite app_nil_r; by exists l, log, hand).
  pose proof Hpost as [Hs Hrun Hrec Hk Hothers Hq].
  destruct cmd as [c| | |i ok|j|e|n]; cbn [bridge_exec spares brings] in *; try done.
  - destruct (is_bridge_entry c); [|done]. injection Hex as <-. by apply Hkeep.
  - injection Hex as <-. apply Hkeep; [done|]. constructor; cbn; try done; [by apply lookup_app_l_Some|].
    intros j l' Hj [Hl|[_ Hl]]%lookup_app_Some; [by eapply Hothers|]. by apply list_lookup_singleton_Some in Hl as [_ <-].
  - apply bind_Some in Hex as (c & Hc & ([b1 c1] & Hact & [= <-])%bind_Some). cbn [fst snd].
    destruct c as [d|d|d|d|d|?]; cbn [bridge_call_act] in Hact; try done; injection Hact as <- <-; (apply Hkeep; [done|]); constructor; cbn; try done.
    + set_solver.
    + assert (d <> id) by congruence. set_solver.
  - apply bind_Some in Hex as (l1 & Hj & ([b1 l2] & Hact & [= <-])%bind_Some). cbn [fst snd]. destruct (decide (j = k)) as [->|Hne].
    + rewrite Hk in Hj. injection Hj as <-. destruct (posted_loop_step _ _ _ _ _ _ _ _ _ _ Hpost Hhand Hacc Hact) as (log' & hand' & Hp & Hh & Ha).
      rewrite app_nil_r. by exists l2, log', hand'.
    + pose proof (Hothers j l1 Hne Hj) as Hidle. destruct l1; cbn in Hidle, Hact; try done. rewrite Hrun in Hact. injection Hact as <- <-.
      apply Hkeep; [done|]. constructor; cbn; try done; [by rewrite list_lookup_insert_ne|]. intros j' l' Hj'.
      destruct (decide (j' = j)) as [->|Hjj]; [|rewrite list_lookup_insert_ne by done; by apply Hothers].
      rewrite list_lookup_insert_eq by (by eapply lookup_lt_Some). by intros [= <-].
  - injection Hex as <-. exists l, log, hand. split; [constructor; cbn; try done; set_solver|]. split; [done|].
    destruct Hacc as (taken & Hev & Hrest). exists taken. cbn. by rewrite Hev, app_assoc.
  - injection Hex as <-. apply Hkeep; [done|]. by constructor.
Qed.

Lemma attended_serves id k b brought b' : listening id k b -> attended_run id b brought b' ->
  serves_stream id k (br_events b ++ brought) (forwarded b) b'.
Proof.
  intros Hl. induction 1 as [|brought b1 cmd b2 _ IH Hs He].
  - exists Testing, [], []. split; [done|]. split; [done|]. exists []. cbn. by rewrite !app_nil_r.
  - rewrite app_assoc. by eapply serves_stream_step.
Qed.

(** From anywhere the loop comes to rest by steps of its own. *)
Definition rank (l : bridge_loop) : nat := match l with Handling _ => 3 | Forwarding _ => 2 | Testing => 1 | _ => 0 end.

Lemma loop_goes_on id k b l hand : posted id k b l -> in_hand id l hand -> ~ at_rest k b ->
  exists b' l', bridge_loop_act b l = Some (b', l') /\ (4 * length (br_events b') + rank l' < 4 * length (br_events b) + rank l)%nat.
Proof.
  intros [_ Hrun _ Hk _ _] Hhand Hrest. unfold at_rest in Hrest. destruct l as [| | |e|s|ok]; cbn [bridge_loop_act in_hand] in *; try done.
  - eexists _, _. split; [done|]. rewrite Hrun. cbn. lia.
  - destruct (br_events b) as [|e q] eqn:He; [exfalso; auto|]. eexists _, _. split; [done|]. cbn. lia.
  - destruct e as [i data|i|]; eexists _, _; (split; [done|]); cbn [rank br_events drop_stream br_streams]; [|lia..].
    destruct (bool_decide _); [|cbn; lia]. destruct (bin_deserialize data); cbn; lia.
  - eexists _, _. split; [done|]. destruct (0 <? receivers b); cbn; lia.
Qed.

Lemma bridge_comes_to_rest id k events before b : serves_stream id k events before b -> exists b', attended_run id b [] b' /\ at_rest k b'.
Proof.
  intros (l & log & hand & Hpost & Hhand & Hacc). remember (4 * length (br_events b) + rank l)%nat as m eqn:Hm.
  revert b l log hand Hpost Hhand Hacc Hm. induction m as [m IH] using lt_wf_ind. intros b l log hand Hpost Hhand Hacc Hm.
  assert (Hdec : at_rest k b \/ ~ at_rest k b).
  { unfold at_rest. destruct (br_events b); [|right; by intros [? _]]. rewrite (posted_loop _ _ _ _ Hpost).
    destruct l; first [right; intros [_ [[=]|[=]]]; fail|left; auto]. }
  destruct Hdec as [Hrest|Hmore]; [exists b; split; [constructor|done]|].
  destruct (loop_goes_on _ _ _ _ _ Hpost Hhand Hmore) as (b1 & l1 & Hact & Hless).
  destruct (posted_loop_step _ _ _ _ _ _ _ _ _ _ Hpost Hhand Hacc Hact) as (log1 & hand1 & Hp1 & Hh1 & Ha1).
  set (b2 := br_tasks _ _ _) in Hp1.
  destruct (IH _ ltac:(subst m; exact Hless) b2 l1 log1 hand1 Hp1 Hh1 Ha1 eq_refl) as (b' & Hr & Hrest). exists b'. split; [|done].
  change (@nil bridge_event) with (@nil bridge_event ++ []). eapply attended_trans; [|exact Hr].
  apply (attended_goes_on id b [] b (StepLoop k) b2); [constructor|done|].
  cbn [bridge_exec]. rewrite (posted_loop _ _ _ _ Hpost). cbn. by rewrite Hact.
Qed.

(** C9: From end to end: when nothing disturbs the publisher and every segment can be
    encoded, what it publishes is the metadata of its file, the initialization
    segments and the media segments. Then take a bridge that serves the stream
    and any run of it in which the overlay brings just that for the stream, in
    order, among whatever else it brings, while the bridge is neither stopped
    nor loses the subscription or its receivers: however its calls and loops
    interleave, what it has forwarded of the stream at any time is a prefix of
    these very segments, what it forwarded besides was brought for other
    streams, its loop can come to rest by steps of its own, and when it rests
    it has forwarded all of them, each once and in order. *)
Theorem published_reaches_bridge builder id name env sent :
  publish_from_file metadata_json builder id name env = Done (sent, ROk tt) -> undisturbed env ->
  exists parser meta segments, file_meta builder name env parser meta /\ file_segments id parser segments /\
    (Forall (fun s => is_Some (to_wire_bytes s)) segments -> forall k b brought b', listening id k b -> of_stream id (br_events b ++ brought) = sent ->
      attended_run id b brought b' ->
      exists log, forwarded b' = forwarded b ++ map snd log /\ log `sublist_of` omap tagged (br_events b ++ brought) /\
        mine id log `prefix_of` plan meta segments /\
        (exists b'', attended_run id b' [] b'' /\ at_rest k b'') /\
        (at_rest k b' -> mine id log = plan meta segments)).
Proof.
  intros Hrun Hund.
  destruct (publisher_runs _ _ _ _ _ _ Hrun) as [[_ []]|(parser & meta & Hmeta & [[_ []]|(segments & Hsegs & _ & _ & Hok)])]; [done..|].
  destruct (Hok eq_refl) as (Hpre & _ & Hsent). specialize (Hsent Hund). exists parser, meta, segments. split; [done|]. split; [done|].
  intros Henc k b brought b' Hlis Hof Hrun'. pose proof (attended_serves _ _ _ _ _ Hlis Hrun') as Hserves.
  pose proof (bridge_comes_to_rest _ _ _ _ _ Hserves) as Hends. destruct Hserves as (l & log & hand & Hpost & Hhand & taken & Hev & Hf & Hsub & Hm).
  assert (Hall : Forall (fun s => is_Some (to_wire_bytes s)) (plan meta segments)).
  { inversion_clear Hpre as [|? ? Hmeta1 _]. constructor; [done|]. rewrite list.Forall_forall in Henc. apply Forall_app_2; apply list.Forall_forall;
      intros s [Hin _]%list_elem_of_In%List.filter_In; by apply Henc, list_elem_of_In. }
  rewrite Hsent in Hof. pose proof (mine_tagged id (br_events b ++ brought)) as Hplan. rewrite Hof, (wires_read_back _ Hall), Hev, omap_app, mine_app, <- Hm, mine_app in Hplan.
  exists log. split; [done|]. split; [|split; [|split; [done|]]].
  - rewrite Hev, omap_app. apply sublist_inserts_r. etrans; [|exact Hsub]. by apply sublist_inserts_r.
  - rewrite <- Hplan, <- app_assoc. by eexists.
  - intros [Hq Hrest]. rewrite Hq in Hplan. pose proof (posted_loop _ _ _ _ Hpost) as Hl.
    assert (hand = []) as -> by (destruct Hrest as [Hr|Hr]; rewrite Hr in Hl; injection Hl as <-; exact Hhand).
    cbn in Hplan. by rewrite !app_nil_r in Hplan.
Qed.

Lemma of_stream_all id sent : of_stream id (map (StreamData id) sent) = sent.
Proof. induction sent as [|w sent IH]; [done|]. unfold of_stream in *. cbn. rewrite decide_True by done. by rewrite IH. Qed.

(** The overlay brings what was published, one after another. *)
Lemma bring_all id b sent : exists b', attended_run id b (map (StreamData id) sent) b'.
Proof.
  revert b. induction sent as [|w sent IH]; intros b; [exists b; constructor|].
  destruct (IH (br_queue b (br_events b ++ [StreamData id w]) (br_taken b) (forwarded b))) as [b' Hr]. exists b'.
  change (map (StreamData id) (w :: sent)) with (([] ++ [StreamData id w]) ++ map (StreamData id) sent). eapply attended_trans; [|exact Hr].
  by apply (attended_goes_on id b [] b (Bring (StreamData id w))); [constructor| |].
Qed.
End Props.

(** ** Concrete runs *)

#[local] Existing Instance demo_blake3.
#[local] Existing Instance demo_bincode.

(** A fragmented file with a track, and a publisher that nothing disturbs. *)
Definition demo_bytes : bytes :=
  boxes_bytes (map item_box (take 2 demo_file)) ++ boxes_bytes (map as_box (flat_map item_boxes (drop 2 demo_items))).

Definition calm (data : bytes) : surroundings :=
  {| publish_stream_ok := true; subscribe_ok := true; file := Some data; now_us := 5; metadata_ok := true; init_ok := [];
     media_outcomes := []; stop_stream_ok := true |}.

Definition demo_published : exec (list bytes * result unit PublisherError) :=
  publish_from_file (fun _ => Some [1]) (new_builder (str "s")) (str "s") None (calm demo_bytes).

Definition published_ok (p : exec (list bytes * result unit PublisherError)) : option (list bytes) :=
  match p with Done (sent, ROk _) => Some sent | _ => None end.

Lemma demo_publishes : exists sent, demo_published = Done (sent, ROk tt) /\ length sent = 4%nat.
Proof.
  assert (H : length <$> published_ok demo_published = Some 4%nat) by (vm_compute; reflexivity).
  revert H. destruct demo_published as [[sent [[]|e]]| |]; cbn; try discriminate. intros [= H]. by exists sent.
Qed.

Lemma publisher_keeps_order_witness : exists sent parser meta segments, demo_published = Done (sent, ROk tt) /\ (length sent = 4)%nat /\
  file_meta (fun _ => Some [1]) (new_builder (str "s")) None (calm demo_bytes) parser meta /\ file_segments (str "s") parser segments /\
  sent = wires (plan meta segments).
Proof.
  destruct demo_publishes as (sent & Hrun & Hlen).
  destruct (publisher_keeps_order _ _ _ _ _ _ _ Hrun) as [[_ []]|(parser & meta & Hmeta & [[_ []]|(segments & Hsegs & _ & _ & Hok)])]; [done..|].
  exists sent, parser, meta, segments. split; [exact Hrun|]. split; [exact Hlen|]. split; [exact Hmeta|]. split; [exact Hsegs|].
  apply Hok; [done|apply List.Forall_nil].
Defined.

(** A bridge that subscribed to the stream and runs. *)
Definition demo_listening : list bridge_command :=
  [IssueCall (SubLooking (str "s")); StepCall 0 true; StepCall 0 true; StepCall 0 true; StepCall 0 true; SetReceivers 1; StartLoop; StepLoop 0].

Lemma demo_listens : exists b, rtc bridge_step (new_bridge 1) b /\ listening (str "s") 0 b /\ br_events b = [].
Proof.
  eexists. split; [apply (bridge_script_steps _ demo_listening); vm_compute; reflexivity|]. split; [|reflexivity].
  constructor; cbn; [set_solver|done|lia|done| |set_solver]. intros [|j] l Hj; [done|]. by destruct j.
Qed.

Lemma published_reaches_bridge_witness : exists sent parser meta segments b b' log, demo_published = Done (sent, ROk tt) /\
  file_meta (fun _ => Some [1]) (new_builder (str "s")) None (calm demo_bytes) parser meta /\ file_segments (str "s") parser segments /\
  rtc bridge_step (new_bridge 1) b /\ attended_run (str "s") b (map (StreamData (str "s")) sent) b' /\
  forwarded b' = forwarded b ++ map snd log /\ mine (str "s") log = plan meta segments.
Proof.
  destruct demo_publishes as (sent & Hrun & _).
  destruct (published_reaches_bridge _ _ _ _ _ _ Hrun (List.Forall_nil _)) as (parser & meta & segments & Hmeta & Hsegs & Hall).
  assert (Henc : Forall (fun s => is_Some (to_wire_bytes s)) segments) by (apply list.Forall_true; intros s; by eexists).
  destruct demo_listens as (b & Hr & Hlis & Hq). destruct (bring_all (str "s") b sent) as [b1 Hr1].
  assert (Hof : of_stream (str "s") (br_events b ++ map (StreamData (str "s")) sent) = sent) by (rewrite Hq; apply of_stream_all).
  destruct (Hall Henc 0%nat b _ b1 Hlis Hof Hr1) as (_ & _ & _ & _ & (b2 & Hr2 & Hrest) & _).
  pose proof (attended_trans _ _ _ _ _ _ Hr1 Hr2) as Hr12. rewrite app_nil_r in Hr12.
  destruct (Hall Henc 0%nat b _ b2 Hlis Hof Hr12) as (log & Hf & _ & _ & _ & Hlog).
  exists sent, parser, meta, segments, b, b2, log. exact (conj Hrun (conj Hmeta (conj Hsegs (conj Hr (conj Hr12 (conj Hf (Hlog Hrest))))))).
Defined.

(** A bridge that subscribed to one stream and was sent a segment of it, and one
    of a stream it does not know. *)
Definition demo_wire : bytes := default [] (to_wire_bytes (initialization (str "s") [9])).

Definition demo_bridge_commands : list bridge_command :=
  [IssueCall (SubLooking (str "s")); StepCall 0 true; StepCall 0 true; StepCall 0 true; StepCall 0 true; SetReceivers 1; StartLoop; StepLoop 0;
   Bring (StreamData (str "s") demo_wire); Bring (StreamData (str "t") demo_wire); StepLoop 0; StepLoop 0; StepLoop 0; StepLoop 0;
   StepLoop 0; StepLoop 0; StepLoop 0].

Lemma bridge_forwards_subscribed_witness : exists b s, rtc bridge_step (new_bridge 1) b /\ s ∈ forwarded b /\
  exists id data, StreamData id data ∈ br_taken b /\ id ∈ ever_subscribed b /\ segment_of_wire <$> bin_deserialize data = Some s.
Proof.
  destruct (bridge_script (new_bridge 1) demo_bridge_commands) as [b|] eqn:Hb; [|vm_compute in Hb; discriminate Hb].
  assert (Hr : rtc bridge_step (new_bridge 1) b) by by eapply bridge_script_steps.
  assert (Hs : exists s, s ∈ forwarded b).
  { vm_compute in Hb. injection Hb as <-. eexists. apply list_elem_of_singleton. reflexivity. }
  destruct Hs as [s Hs]. exists b, s. split; [done|]. split; [done|]. by apply (bridge_forwards_subscribed 1).
Defined.

(** Two calls that look and count before either adds pass the limit. *)
Example two_subscribe_at_once : exists b, rtc bridge_step (new_bridge 1) b /\ size (subscribed_streams b) = 2%nat.
Proof.
  destruct (bridge_script (new_bridge 1) [IssueCall (SubLooking (str "s")); IssueCall (SubLooking (str "t")); StepCall 0 true; StepCall 1 true;
    StepCall 0 true; StepCall 1 true; StepCall 0 true; StepCall 1 true; StepCall 0 true; StepCall 1 true]) as [b|] eqn:Hb;
    [|vm_compute in Hb; discriminate Hb].
  exists b. split; [by eapply bridge_script_steps|]. vm_compute in Hb. injection Hb as <-. reflexivity.
Qed.

(** A loop that waits while the bridge is stopped and run again goes on with the
    new one. *)
Example two_loops_after_restart : exists b, rtc bridge_step (new_bridge 1) b /\ br_loops b = [Waiting; Waiting].
Proof.
  destruct (bridge_script (new_bridge 1) [StartLoop; StepLoop 0; StepLoop 0; StopBridge; StartLoop; StepLoop 1; StepLoop 1]) as [b|] eqn:Hb;
    [|vm_compute in Hb; discriminate Hb].
  exists b. split; [by eapply bridge_script_steps|]. vm_compute in Hb. injection Hb as <-. reflexivity.
Qed.
