(* ===== verification/Network.v ===== *)
(** * The network wrapper

    Models [core/src/overlay/network.rs]: topics, counters and the loop that hands
    the events of the swarm to a channel of the wrapper itself. The swarm is an
    interface: what it answers and reports is an argument. [run] borrows the
    wrapper mutably, so while its future lives nothing but the loop can act; the
    future may be dropped at any wait. *)

From S2P Require Import Prelude Rust.

#[local] Open Scope Z_scope.

Section Network.
Context {PeerId : Type}.

(** [NetworkConfig], without the validation mode. *)
Record NetworkConfig : Type := {
  listen_address : rstring;
  enable_kademlia : bool;
  bootstrap_nodes : list rstring;
  history_size : Z;
  heartbeat_interval : Z;
}.

Definition default_config : NetworkConfig :=
  {| listen_address := str "/ip4/0.0.0.0/tcp/0"; enable_kademlia := false; bootstrap_nodes := []; history_size := 50; heartbeat_interval := 1 |}.

Inductive NetworkEvent : Type :=
| PeerConnected (p : PeerId)
| PeerDisconnected (p : PeerId)
| MessageReceived (topic : rstring) (source : PeerId) (data : bytes)
| NetworkError (text : rstring).

Inductive swarm_event : Type :=
| GossipMessage (propagation : PeerId) (source : option PeerId) (topic : rstring) (data : bytes)
| ConnectionEstablished (p : PeerId)
| ConnectionClosed (p : PeerId)
| OutgoingError (p : option PeerId) (text : rstring)
| OtherSwarmEvent.

(** Where the loop of [run] is. *)
Inductive run_phase : Type := NotRunning | LoopTest | Polling | Handing (e : NetworkEvent) | RunDone.

(** [taken] is a note for the theorems: what the loop took from the swarm. *)
Record Network : Type := {
  subscribed_topics : gset rstring;
  event_queue : list NetworkEvent;
  net_running : bool;
  messages_sent : Z;
  messages_received : Z;
  run_at : run_phase;
  taken : list swarm_event;
}.

(** [Network::new] when the swarm could be built. *)
Definition new_network : Network :=
  {| subscribed_topics := ∅; event_queue := []; net_running := false; messages_sent := 0; messages_received := 0; run_at := NotRunning; taken := [] |}.

Definition EVENT_CAPACITY : Z := 100.

Definition with_topics (n : Network) (t : gset rstring) (sent : Z) : Network :=
  {| subscribed_topics := t; event_queue := event_queue n; net_running := net_running n; messages_sent := sent; messages_received := messages_received n;
     run_at := run_at n; taken := taken n |}.
Definition with_loop (n : Network) (q : list NetworkEvent) (running : bool) (at_ : run_phase) : Network :=
  {| subscribed_topics := subscribed_topics n; event_queue := q; net_running := running; messages_sent := messages_sent n;
     messages_received := messages_received n; run_at := at_; taken := taken n |}.

(** ** The calls *)

Definition subscribe (n : Network) (topic : rstring) (ok : bool) : Network * result rstring rstring :=
  if ok then (with_topics n ({[topic]} ∪ subscribed_topics n) (messages_sent n), ROk topic) else (n, RErr (str "Failed to subscribe")).
Definition unsubscribe (n : Network) (topic : rstring) (ok : bool) : Network * result unit rstring :=
  if ok then (with_topics n (subscribed_topics n ∖ {[topic]}) (messages_sent n), ROk tt) else (n, RErr (str "Failed to unsubscribe")).

(** The identifier of a message is its data; the counter wraps. *)
Definition publish (n : Network) (data : bytes) (ok : bool) : Network * result bytes rstring :=
  if ok then (with_topics n (subscribed_topics n) (as_u64 (messages_sent n + 1)), ROk data) else (n, RErr (str "Failed to publish")).

Definition stop (n : Network) : Network := with_loop n (event_queue n) false (run_at n).

(** [next_event]: waits on an empty queue. *)
Definition next_event (n : Network) : option (Network * NetworkEvent) :=
  match event_queue n with e :: q => Some (with_loop n q (net_running n) (run_at n), e) | [] => None end.

Record NetworkStats : Type := { connected_peers_count : Z; subscribed_topics_count : Z; stats_sent : Z; stats_received : Z }.
Definition stats (n : Network) (connected : Z) : NetworkStats :=
  {| connected_peers_count := connected; subscribed_topics_count := Z.of_nat (size (subscribed_topics n)); stats_sent := messages_sent n;
     stats_received := messages_received n |}.

(** ** The loop *)

Definition run (n : Network) : Network := with_loop n (event_queue n) true LoopTest.

(** The event to hand on. *)
Definition handed_on (e : swarm_event) : option NetworkEvent :=
  match e with
  | GossipMessage propagation source topic data => Some (MessageReceived topic (default propagation source) data)
  | ConnectionEstablished p => Some (PeerConnected p)
  | ConnectionClosed p => Some (PeerDisconnected p)
  | OutgoingError _ text => Some (NetworkError text)
  | OtherSwarmEvent => None
  end.

Definition is_gossip (e : swarm_event) : bool := match e with GossipMessage _ _ _ _ => true | _ => false end.

Definition take_event (n : Network) (e : swarm_event) : Network :=
  {| subscribed_topics := subscribed_topics n; event_queue := event_queue n; net_running := net_running n; messages_sent := messages_sent n;
     messages_received := if is_gossip e then as_u64 (messages_received n + 1) else messages_received n;
     run_at := match handed_on e with Some e => Handing e | None => LoopTest end; taken := taken n ++ [e] |}.

(** A step of the loop: [event_sender.send] waits for room. *)
Inductive run_step (n : Network) : Network -> Prop :=
| run_test : run_at n = LoopTest -> run_step n (with_loop n (event_queue n) (net_running n) (if net_running n then Polling else RunDone))
| run_poll e : run_at n = Polling -> run_step n (take_event n e)
| run_hand e : run_at n = Handing e -> zlen (event_queue n) < EVENT_CAPACITY -> run_step n (with_loop n (event_queue n ++ [e]) (net_running n) LoopTest).

(** What the loop has taken to hand on. *)
Definition to_hand (l : list swarm_event) : list NetworkEvent := omap handed_on l.

Definition waiting (n : Network) : list NetworkEvent := match run_at n with Handing e => [e] | _ => [] end.

(** The loop runs for ever and keeps every event. *)
Definition keeps_all (q0 : list NetworkEvent) (n : Network) : Prop :=
  net_running n = true /\ run_at n <> NotRunning /\ run_at n <> RunDone /\ event_queue n ++ waiting n = q0 ++ to_hand (taken n) /\
  zlen (event_queue n) <= EVENT_CAPACITY.

Lemma run_step_keeps q0 n n' : keeps_all q0 n -> run_step n n' -> keeps_all q0 n'.
Proof.
  intros (Hr & _ & _ & Hq & Hc) [Hat|e Hat|e Hat Hroom]; unfold keeps_all, waiting in *; rewrite Hat in Hq; cbn [with_loop take_event event_queue net_running run_at taken].
  - rewrite Hr. by split_and!.
  - rewrite app_nil_r in Hq. unfold to_hand in *. rewrite omap_app, app_assoc, <- Hq. split_and!; [done|by destruct (handed_on e)..| |done].
    f_equal. cbn. by destruct (handed_on e).
  - split_and!; [done|done|done|by rewrite app_nil_r|]. rewrite zlen_app, zlen_cons, zlen_nil. lia.
Qed.

(** The loop never ends, and nobody can empty its channel while it runs, so it
    comes to a stop: it keeps what it took in order until the channel of a hundred
    is full, takes one event more, and waits for room from then on. *)
Theorem network_loop_stalls n0 n : zlen (event_queue n0) <= EVENT_CAPACITY -> taken n0 = [] -> rtc run_step (run n0) n ->
  run_at n <> RunDone /\ zlen (event_queue n0) + zlen (to_hand (taken n)) <= EVENT_CAPACITY + 1 /\
  (zlen (event_queue n0) + zlen (to_hand (taken n)) = EVENT_CAPACITY + 1 -> forall n', ~ run_step n n').
Proof.
  intros Hc Ht Hr.
  assert (Hk : keeps_all (event_queue n0) n).
  { revert n Hr. refine (rtc_ind_r _ _ _ _); [|intros y z _ Hs Hk; by eapply run_step_keeps].
    unfold keeps_all, run. cbn. rewrite Ht. by split_and!. }
  destruct Hk as (Hrun & _ & Hdone & Hq & Hlen). apply (f_equal zlen) in Hq. rewrite !zlen_app in Hq.
  assert (Hw : zlen (waiting n) <= 1) by (unfold waiting; destruct (run_at n); unfold zlen; cbn; lia).
  split; [done|]. split; [lia|]. intros Hfull n' Hs. unfold waiting in *. destruct Hs as [Hat|e Hat|e Hat Hroom]; rewrite Hat in Hq; change (zlen (@nil NetworkEvent)) with 0 in Hq.
  - lia.
  - lia.
  - rewrite zlen_cons, zlen_nil in Hq. lia.
Qed.
End Network.

(** ** Witness *)

Definition demo_full : Network (PeerId := positive) :=
  {| subscribed_topics := ∅; event_queue := repeat (PeerConnected 1%positive) 100; net_running := false; messages_sent := 0; messages_received := 0;
     run_at := NotRunning; taken := [] |}.

Lemma network_loop_stalls_witness : exists n, rtc run_step (run demo_full) n /\ forall n', ~ run_step n n'.
Proof.
  exists (take_event (with_loop (run demo_full) (event_queue demo_full) true Polling) (ConnectionEstablished 2%positive)).
  assert (Hr : rtc run_step (run demo_full) (take_event (with_loop (run demo_full) (event_queue demo_full) true Polling) (ConnectionEstablished 2%positive))).
  { eapply rtc_l; [exact (run_test (run demo_full) eq_refl)|]. apply rtc_once. by apply run_poll. }
  split; [exact Hr|].
  destruct (network_loop_stalls demo_full _ ltac:(vm_compute; discriminate) eq_refl Hr) as (_ & _ & Hstuck). apply Hstuck. vm_compute. reflexivity.
Defined.
