(* ===== verification/PubSubMetrics.v ===== *)
(** * Metrics of publish and subscribe

    Models [core/src/pubsub/metrics.rs]: counters that wrap, a record per topic
    and per peer, the numbers of the last minute in a ring of sixty buckets,
    and the cache of identifiers that finds duplicates. Calls are made one at a
    time. The cache is the interface [LruCache]. *)

From S2P Require Import Prelude Rust Float PubSub.

#[local] Open Scope Z_scope.

(** ** A ring of buckets *)

Definition TIME_WINDOW_SECONDS : Z := 60.

Record TimeSeriesData : Type := {
  bucket_size : Z;
  num_buckets : Z;
  current_bucket : Z;
  last_update : Z;
  message_counts : list Z;
  byte_counts : list Z;
}.

Definition new_time_series (now : Z) : TimeSeriesData :=
  {| bucket_size := 1; num_buckets := TIME_WINDOW_SECONDS; current_bucket := 0; last_update := now;
     message_counts := replicate (Z.to_nat TIME_WINDOW_SECONDS) 0; byte_counts := replicate (Z.to_nat TIME_WINDOW_SECONDS) 0 |}.

Definition with_bucket (self : TimeSeriesData) (current : Z) (messages bytes : list Z) : TimeSeriesData :=
  {| bucket_size := bucket_size self; num_buckets := num_buckets self; current_bucket := current; last_update := last_update self;
     message_counts := messages; byte_counts := bytes |}.

Definition with_last_update (self : TimeSeriesData) (now : Z) : TimeSeriesData :=
  {| bucket_size := bucket_size self; num_buckets := num_buckets self; current_bucket := current_bucket self; last_update := now;
     message_counts := message_counts self; byte_counts := byte_counts self |}.

(** The next bucket, emptied. *)
Definition rotate (self : TimeSeriesData) : exec TimeSeriesData :=
  let! c := add_u64 (current_bucket self) 1 in
  if num_buckets self =? 0 then Panic
  else
    let current := c mod num_buckets self in
    let! messages := set_index (message_counts self) current 0 in
    let! bytes := set_index (byte_counts self) current 0 in
    Done (with_bucket self current messages bytes).

Fixpoint rotate_n (n : nat) (self : TimeSeriesData) : exec TimeSeriesData :=
  match n with O => Done self | S n => let! self := rotate self in rotate_n n self end.

Definition rotate_if_needed (self : TimeSeriesData) (now : Z) : exec TimeSeriesData :=
  let elapsed := seconds_since now (last_update self) in
  if bucket_size self <=? elapsed then
    let! n := div_u64 elapsed (bucket_size self) in
    let! self := rotate_n (Z.to_nat (Z.min n (num_buckets self))) self in
    Done (with_last_update self now)
  else Done self.

Definition add_at (l : list Z) (i n : Z) : exec (list Z) :=
  let! x := index l i in
  let! y := add_u64 x n in
  set_index l i y.

Definition add_message_received (self : TimeSeriesData) (size now : Z) : exec TimeSeriesData :=
  let! self := rotate_if_needed self now in
  let! messages := add_at (message_counts self) (current_bucket self) 1 in
  let! bytes := add_at (byte_counts self) (current_bucket self) size in
  Done (with_bucket self (current_bucket self) messages bytes).

Definition add_message_sent (self : TimeSeriesData) (size now : Z) : exec TimeSeriesData := add_message_received self size now.

(** The sums over [0..num_buckets]. *)
Definition add_bucket (self : TimeSeriesData) (st : Z * (Z * Z)) (_ : unit) : exec (Z * (Z * Z)) :=
  let '(i, (total_messages, total_bytes)) := st in
  let! m := index (message_counts self) i in
  let! total_messages := add_u64 total_messages m in
  let! b := index (byte_counts self) i in
  let! total_bytes := add_u64 total_bytes b in
  Done (i + 1, (total_messages, total_bytes)).

Definition bucket_totals (self : TimeSeriesData) : exec (Z * Z) :=
  let! st := for_each (add_bucket self) (replicate (Z.to_nat (num_buckets self)) tt) (0, (0, 0)) in
  Done (snd st).

Definition calculate_rates (self : TimeSeriesData) : exec (float * float) :=
  let! totals := bucket_totals self in
  let time_window := f64_of TIME_WINDOW_SECONDS in
  Done (f64_div (f64_of (fst totals)) time_window, f64_div (f64_of (snd totals)) time_window).

(** ** What the ring holds *)

(** The buckets from the current one back. *)
Definition ring (c : Z) (l : list Z) : list Z := rev (ztake (c + 1) l) ++ rev (zdrop (c + 1) l).

Lemma ring_sum c l : ring c l ≡ₚ l.
Proof. unfold ring. rewrite <- !Permutation_rev. by rewrite ztake_zdrop. Qed.

Lemma split_at {A} (l : list A) c : 0 <= c < zlen l -> exists t x d, l = t ++ x :: d /\ zlen t = c.
Proof.
  intros Hc. assert (Hd : zlen (zdrop c l) = zlen l - c) by (apply zlen_zdrop; lia).
  destruct (zdrop c l) as [|x d] eqn:E; [unfold zlen in Hd; cbn in Hd; unfold zlen in *; lia|].
  exists (ztake c l), x, d. split; [by rewrite <- E, ztake_zdrop|]. apply zlen_ztake. lia.
Qed.

(** One step on, the oldest bucket is lost. *)
Lemma ring_rotate c l : 0 <= c < zlen l -> exists l' kept x,
  set_index l ((c + 1) mod zlen l) 0 = Done l' /\ zlen l' = zlen l /\ ring c l = kept ++ [x] /\ ring ((c + 1) mod zlen l) l' = 0 :: kept.
Proof.
  intros Hc. destruct (decide (c + 1 = zlen l)) as [He|Hne].
  - rewrite He, Z_mod_same_full. destruct l as [|x d]; [by zlia|]. exists (0 :: d), (rev d), x. split.
    { apply (set_index_mid [] x 0 d). done. }
    split; [by zlia|]. unfold ring. rewrite He, ztake_all, zdrop_all by lia. cbn [rev]. rewrite app_nil_r. by split.
  - rewrite Z.mod_small by lia. destruct (split_at l (c + 1)) as (t & x & d & -> & Ht); [lia|].
    exists (t ++ 0 :: d), (rev t ++ rev d), x. split; [by apply set_index_mid|]. split; [by zlia|]. unfold ring.
    rewrite ztake_app_eq, zdrop_app_eq by lia. cbn [rev]. split; [by rewrite app_assoc|].
    replace (t ++ 0 :: d) with ((t ++ [0]) ++ d) by by rewrite <- app_assoc. rewrite ztake_app_eq, zdrop_app_eq by zlia.
    by rewrite rev_app_distr.
Qed.

Lemma ring_add c l : 0 <= c < zlen l -> exists x rest, index l c = Done x /\ ring c l = x :: rest /\
  forall y, exists l', set_index l c y = Done l' /\ zlen l' = zlen l /\ ring c l' = y :: rest.
Proof.
  intros Hc. destruct (split_at l c Hc) as (t & x & d & -> & Ht). exists x, (rev t ++ rev d).
  assert (Hr : forall y, ring c (t ++ y :: d) = y :: rev t ++ rev d).
  { intros y. unfold ring. replace (t ++ y :: d) with ((t ++ [y]) ++ d) by by rewrite <- app_assoc.
    rewrite ztake_app_eq, zdrop_app_eq by zlia. by rewrite rev_app_distr. }
  split; [by apply index_mid|]. split; [done|]. intros y. exists (t ++ y :: d). split; [by apply set_index_mid|]. split; [by zlia|done].
Qed.

(** A message: its time and its size. *)
Definition total (ms : list (Z * Z)) : Z := fold_right (fun m acc => snd m + acc) 0 ms.

Definition sum (l : list Z) : Z := fold_right Z.add 0 l.

Lemma total_app a b : total (a ++ b) = total a + total b.
Proof. unfold total. induction a as [|m a IH]; cbn; [done|]. rewrite IH. lia. Qed.

Lemma sum_perm a b : a ≡ₚ b -> sum a = sum b.
Proof. unfold sum. induction 1; cbn in *; lia. Qed.

(** The buckets and the messages in them, the newest first; older messages are
    in the groups after the sixtieth. *)
Record ring_of (self : TimeSeriesData) (groups : list (list (Z * Z))) : Prop := {
  ring_buckets : bucket_size self = 1 /\ num_buckets self = 60 /\ 0 <= current_bucket self < 60;
  ring_lengths : zlen (message_counts self) = 60 /\ zlen (byte_counts self) = 60;
  ring_messages : ring (current_bucket self) (message_counts self) = map zlen (take 60 groups);
  ring_bytes : ring (current_bucket self) (byte_counts self) = map total (take 60 groups);
  ring_groups : (60 <= length groups)%nat;
}.

(** How old a message is by the bucket it is in. *)
Definition ages (now : Z) (groups : list (list (Z * Z))) : Prop := forall i g m, groups !! i = Some g -> m ∈ g ->
  (Z.of_nat i - 1) * second < now - fst m /\ (Z.of_nat i < 60 -> now - fst m <= 2 * Z.of_nat i * second).

Lemma new_ring now : ring_of (new_time_series now) (replicate 60 []) /\ ages now (replicate 60 []).
Proof.
  split; [by split; try (rewrite length_replicate; lia)|]. intros i g m [-> _]%lookup_replicate Hm. by apply not_elem_of_nil in Hm.
Qed.

Lemma take_60 {A} (l : list A) : (60 <= length l)%nat -> exists x, take 60 l = take 59 l ++ [x].
Proof. intros Hl. destruct (lookup_lt_is_Some_2 l 59) as [x Hx]; [lia|]. exists x. by apply (take_S_r l 59). Qed.

Lemma ring_rotated self groups : ring_of self groups ->
  exists self', rotate self = Done self' /\ ring_of self' ([] :: groups) /\ last_update self' = last_update self.
Proof.
  intros [(Hb & Hn & Hc) [Hlm Hlb] Hrm Hrb Hg]. unfold rotate, add_u64. rewrite checked_done by (unfold u64_max; lia). cbn [exec_bind]. rewrite Hn.
  destruct (ring_rotate (current_bucket self) (message_counts self)) as (ms & km & xm & Hsm & Hlm' & Hkm & Hm); [lia|].
  destruct (ring_rotate (current_bucket self) (byte_counts self)) as (bs & kb & xb & Hsb & Hlb' & Hkb & Hbs); [lia|].
  rewrite Hlm in Hsm, Hm. rewrite Hlb in Hsb, Hbs. cbn [Z.eqb]. rewrite Hsm. cbn [exec_bind]. rewrite Hsb. cbn [exec_bind].
  destruct (take_60 groups Hg) as [g Htake]. rewrite Hkm, Htake, map_app in Hrm. rewrite Hkb, Htake, map_app in Hrb.
  apply app_inj_tail in Hrm as [-> _]. apply app_inj_tail in Hrb as [-> _]. pose proof (Z.mod_pos_bound (current_bucket self + 1) 60).
  eexists. split; [reflexivity|]. split; [|done]. split; cbn; try lia; done.
Qed.

Lemma ring_rotated_n n : forall self groups, ring_of self groups ->
  exists self', rotate_n n self = Done self' /\ ring_of self' (replicate n [] ++ groups) /\ last_update self' = last_update self.
Proof.
  induction n as [|n IH]; intros self groups Hr; [by exists self|]. cbn [rotate_n].
  destruct (ring_rotated self groups Hr) as (self1 & -> & Hr1 & Hl1). cbn [exec_bind].
  destruct (IH self1 _ Hr1) as (self2 & Hs & Hr2 & Hl2). exists self2. split; [done|]. split; [|by rewrite Hl2].
  by rewrite replicate_S_end, <- app_assoc.
Qed.

Lemma ages_older now now' n groups : ages now groups -> Z.of_nat n * second <= now' - now ->
  (Z.of_nat n < 60 -> now' - now <= 2 * Z.of_nat n * second) -> ages now' (replicate n [] ++ groups).
Proof.
  intros Ha Hlo Hhi i g m Hg Hm. apply lookup_app_Some in Hg as [[-> _]%lookup_replicate|[Hn Hg]]; [by apply not_elem_of_nil in Hm|].
  rewrite length_replicate in Hn, Hg. destruct (Ha _ _ _ Hg Hm) as [H1 H2]. unfold second in *.
  rewrite Nat2Z.inj_sub in H1, H2 by done. split; [lia|]. intros Hi. specialize (H2 ltac:(lia)). specialize (Hhi ltac:(lia)). lia.
Qed.

Lemma ring_turned self groups now : ring_of self groups -> ages (last_update self) groups -> last_update self <= now ->
  exists self' n, rotate_if_needed self now = Done self' /\ ring_of self' (replicate n [] ++ groups) /\
    ages (last_update self') (replicate n [] ++ groups) /\ last_update self' <= now < last_update self' + second.
Proof.
  intros Hr Ha Hnow. pose proof Hr as [(Hb & Hn & Hc) _ _ _ _]. unfold rotate_if_needed, seconds_since. rewrite Hb, Hn.
  set (elapsed := Z.max 0 (now - last_update self) / second).
  assert (He : elapsed * second <= now - last_update self < (elapsed + 1) * second).
  { unfold elapsed, second. pose proof (Z.div_mod (Z.max 0 (now - last_update self)) 1000000000). pose proof (Z.mod_pos_bound (Z.max 0 (now - last_update self)) 1000000000). lia. }
  destruct (Z.leb_spec 1 elapsed) as [Hge|Hlt].
  - cbn [div_u64 Z.eqb exec_bind]. rewrite Z.div_1_r. set (n := Z.to_nat (Z.min elapsed 60)).
    destruct (ring_rotated_n n self groups Hr) as (self1 & Hs & Hr1 & Hl1). rewrite Hs. cbn [exec_bind].
    exists (with_last_update self1 now), n. split; [done|]. split; [by destruct Hr1; split|]. cbn. split; [|unfold second; lia].
    apply (ages_older (last_update self)); [done|unfold second in *; lia..].
  - exists self, 0%nat. split; [done|]. split; [done|]. split; [done|]. unfold second in *. lia.
Qed.

Definition sized (ms : list (Z * Z)) : Prop := Forall (fun m => 0 <= snd m) ms.

Lemma total_nonneg ms : sized ms -> 0 <= total ms.
Proof. unfold total. induction 1; cbn in *; lia. Qed.

Lemma add_at_ring c l n x rest : 0 <= c < zlen l -> ring c l = x :: rest -> 0 <= x + n <= u64_max ->
  exists l', add_at l c n = Done l' /\ zlen l' = zlen l /\ ring c l' = x + n :: rest.
Proof.
  intros Hc Hr Hn. destruct (ring_add c l Hc) as (x' & rest' & Hi & Hr' & Hset). rewrite Hr' in Hr. injection Hr as -> ->.
  unfold add_at, add_u64. rewrite Hi. cbn [exec_bind]. rewrite checked_done by done. cbn [exec_bind]. apply Hset.
Qed.

(** A message more in the newest bucket. *)
Lemma ring_counts self g groups now size : ring_of self (g :: groups) -> sized g -> 0 <= size -> zlen g + 1 <= u64_max -> total g + size <= u64_max ->
  exists messages bytes, add_at (message_counts self) (current_bucket self) 1 = Done messages /\
    add_at (byte_counts self) (current_bucket self) size = Done bytes /\
    ring_of (with_bucket self (current_bucket self) messages bytes) (((now, size) :: g) :: groups).
Proof.
  intros [(Hb & Hn & Hc) [Hlm Hlb] Hrm Hrb Hg] Hs Hz Hm Ht. pose proof (total_nonneg g Hs). pose proof (zlen_nonneg g).
  destruct (add_at_ring (current_bucket self) (message_counts self) 1 (zlen g) (map zlen (take 59 groups))) as (ms & -> & Hlm' & Hm'); [lia|done|lia|].
  destruct (add_at_ring (current_bucket self) (byte_counts self) size (total g) (map total (take 59 groups))) as (bs & -> & Hlb' & Hb'); [lia|done|lia|].
  exists ms, bs. split; [done|]. split; [done|]. split; cbn [with_bucket bucket_size num_buckets current_bucket message_counts byte_counts].
  - done.
  - lia.
  - rewrite Hm'. cbn [take map]. f_equal. by zlia.
  - rewrite Hb'. cbn [take map]. f_equal. unfold total. cbn [fold_right snd]. fold (total g). lia.
  - done.
Qed.

Fixpoint in_order (clock : Z) (ms : list (Z * Z)) : Prop :=
  match ms with [] => True | m :: ms => clock <= fst m /\ in_order (fst m) ms end.

(** The ring at some time, with all that was recorded. *)
Record ring_at (self : TimeSeriesData) (clock : Z) (groups : list (list (Z * Z))) : Prop := {
  at_ring : ring_of self groups;
  at_ages : ages (last_update self) groups;
  at_clock : last_update self <= clock < last_update self + second;
  at_sized : Forall sized groups;
}.

Lemma Forall_total groups : Forall sized groups -> sized (concat groups).
Proof. unfold sized. induction 1; cbn; [constructor|]. by apply Forall_app_2. Qed.

Lemma ages_now clock m size g groups : ages clock (g :: groups) -> clock <= m < clock + second -> ages clock (((m, size) :: g) :: groups).
Proof.
  intros Ha Hm [|i] g' x Hg Hx; cbn in Hg.
  - injection Hg as <-. apply list_elem_of_In in Hx as [<-|Hx]; [cbn; unfold second in *; lia|]. apply (Ha 0%nat g); [done|by apply list_elem_of_In].
  - by apply (Ha (S i) g').
Qed.

Lemma ring_adds self clock groups m : ring_at self clock groups -> clock <= fst m -> 0 <= snd m ->
  zlen (concat groups) + 1 <= u64_max -> total (concat groups) + snd m <= u64_max ->
  exists self' groups', add_message_received self (snd m) (fst m) = Done self' /\ ring_at self' (fst m) groups' /\ concat groups' = m :: concat groups.
Proof.
  intros [Hr Ha Hk Hs] Hm Hz Hl Ht. unfold add_message_received.
  destruct (ring_turned self groups (fst m) Hr Ha) as (self1 & n & -> & Hr1 & Ha1 & Hk1); [lia|]. cbn [exec_bind].
  assert (Hc : concat (replicate n [] ++ groups) = concat groups) by (clear; induction n; done).
  assert (Hs1 : Forall sized (replicate n [] ++ groups)) by (apply Forall_app_2; [apply Forall_replicate; constructor|done]).
  rewrite <- Hc in *. clear Hc. set (groups1 := replicate n [] ++ groups) in *. clearbody groups1.
  destruct groups1 as [|g groups1]; [destruct Hr1 as [_ _ _ _ Hg]; cbn in Hg; lia|]. apply list.Forall_cons in Hs1 as [Hsg Hs1].
  cbn [concat] in Hl, Ht. rewrite zlen_app in Hl. rewrite total_app in Ht. pose proof (zlen_nonneg (concat groups1)).
  pose proof (total_nonneg _ (Forall_total _ Hs1)).
  destruct (ring_counts self1 g groups1 (fst m) (snd m) Hr1 Hsg Hz) as (ms & bs & -> & Hbs & Hr2); [lia..|]. cbn [exec_bind]. rewrite Hbs. cbn [exec_bind].
  eexists _, (((fst m, snd m) :: g) :: groups1). split; [done|]. split; [|by destruct m].
  split; [done| |done|]; [by apply ages_now|]. constructor; [by constructor|done].
Qed.

Lemma ring_runs ms : forall self clock groups, ring_at self clock groups -> in_order clock ms -> sized ms ->
  zlen (concat groups) + zlen ms <= u64_max -> total (concat groups) + total ms <= u64_max ->
  exists self' clock' groups', for_each (fun self m => add_message_received self (snd m) (fst m)) ms self = Done self' /\
    ring_at self' clock' groups' /\ concat groups' = rev ms ++ concat groups /\ last (clock :: map fst ms) = Some clock'.
Proof.
  induction ms as [|m ms IH]; intros self clock groups Hr Ho Hs Hl Ht; [by exists self, clock, groups|].
  destruct Ho as [Hm Ho]. apply list.Forall_cons in Hs as [Hz Hs]. rewrite zlen_cons in Hl. unfold total in Ht; cbn in Ht; fold (total (concat groups)) in Ht; fold (total ms) in Ht.
  pose proof (zlen_nonneg ms). pose proof (total_nonneg ms Hs).
  destruct (ring_adds self clock groups m Hr Hm Hz) as (self1 & groups1 & H1 & Hr1 & Hc1); [lia..|]. cbn [for_each]. rewrite H1. cbn [exec_bind].
  destruct (IH self1 (fst m) groups1 Hr1 Ho Hs) as (self2 & clock2 & groups2 & H2 & Hr2 & Hc2 & Hlast).
  - rewrite Hc1, zlen_cons. lia.
  - rewrite Hc1. unfold total; cbn; fold (total (concat groups)); fold (total ms). lia.
  - exists self2, clock2, groups2. split; [done|]. split; [done|]. split; [|by cbn in Hlast |- *]. rewrite Hc2, Hc1. cbn. by rewrite <- app_assoc.
Qed.

Lemma for_each_buckets self n : forall i a b, 0 <= i -> Z.of_nat n + i = 60 -> zlen (message_counts self) = 60 -> zlen (byte_counts self) = 60 ->
  Forall (Z.le 0) (message_counts self) -> Forall (Z.le 0) (byte_counts self) -> 0 <= a -> 0 <= b ->
  a + sum (zdrop i (message_counts self)) <= u64_max -> b + sum (zdrop i (byte_counts self)) <= u64_max ->
  for_each (add_bucket self) (replicate n tt) (i, (a, b)) = Done (60, (a + sum (zdrop i (message_counts self)), b + sum (zdrop i (byte_counts self)))).
Proof.
  assert (Hsplit : forall l i, 0 <= i < zlen l -> Forall (Z.le 0) l -> exists x, index l i = Done x /\ zdrop i l = x :: zdrop (i + 1) l /\ 0 <= x /\ 0 <= sum (zdrop (i + 1) l)).
  { intros l i Hi Hl. destruct (split_at l i Hi) as (t & x & d & -> & Ht). exists x. rewrite index_mid by done. apply Forall_app in Hl as [_ [Hx Hd]%list.Forall_cons].
    rewrite zdrop_app_eq by done. replace (t ++ x :: d) with ((t ++ [x]) ++ d) by by rewrite <- app_assoc. rewrite zdrop_app_eq by zlia.
    split; [done|]. split; [done|]. split; [done|]. clear -Hd. unfold sum. induction Hd; cbn in *; lia. }
  induction n as [|n IH]; intros i a b Hi Hn Hlm Hlb Hm Hb Ha Hb0 Hsm Hsb.
  - cbn. rewrite !zdrop_all by lia. unfold sum. cbn. do 2 f_equal; [lia|f_equal; lia].
  - destruct (Hsplit (message_counts self) i ltac:(lia) Hm) as (x & Hix & Hdx & Hx & Hrx). destruct (Hsplit (byte_counts self) i ltac:(lia) Hb) as (y & Hiy & Hdy & Hy & Hry).
    rewrite Hdx in *. rewrite Hdy in *. unfold sum in Hsm, Hsb |- *. cbn [fold_right] in *. fold (sum (zdrop (i + 1) (message_counts self))) in *. fold (sum (zdrop (i + 1) (byte_counts self))) in *.
    cbn [replicate for_each add_bucket]. rewrite Hix. cbn [exec_bind]. unfold add_u64. rewrite checked_done by lia. cbn [exec_bind]. rewrite Hiy. cbn [exec_bind].
    rewrite checked_done by lia. cbn [exec_bind]. rewrite IH by (try done; lia). do 2 f_equal. f_equal; lia.
Qed.

Lemma sum_totals groups : sum (map zlen groups) = zlen (concat groups) /\ sum (map total groups) = total (concat groups).
Proof.
  unfold sum. induction groups as [|g groups [IH1 IH2]]; [done|]. cbn. rewrite IH1, IH2, total_app. split; [by zlia|done].
Qed.

Lemma ring_totals self groups : ring_of self groups -> Forall sized groups -> zlen (concat (take 60 groups)) <= u64_max -> total (concat (take 60 groups)) <= u64_max ->
  bucket_totals self = Done (zlen (concat (take 60 groups)), total (concat (take 60 groups))).
Proof.
  intros [(Hb & Hn & Hc) [Hlm Hlb] Hrm Hrb Hg] Hs Hm Ht. destruct (sum_totals (take 60 groups)) as [S1 S2].
  rewrite <- Hrm, (sum_perm _ _ (ring_sum _ _)) in S1. rewrite <- Hrb, (sum_perm _ _ (ring_sum _ _)) in S2.
  assert (Hpm : Forall (Z.le 0) (message_counts self)).
  { rewrite <- (ring_sum (current_bucket self)), Hrm. apply Forall_fmap, Forall_true. intros. apply zlen_nonneg. }
  assert (Hpb : Forall (Z.le 0) (byte_counts self)).
  { rewrite <- (ring_sum (current_bucket self)), Hrb. apply Forall_fmap, (Forall_impl sized); [by apply Forall_take|]. intros g. apply total_nonneg. }
  unfold bucket_totals. rewrite Hn. change (Z.to_nat 60) with 60%nat. rewrite (for_each_buckets self 60) by (rewrite ?zdrop_0; done || lia).
  cbn [exec_bind snd]. by rewrite !zdrop_0, !Z.add_0_l, S1, S2.
Qed.

Lemma elem_of_rev_concat {A} (m : A) l : m ∈ rev (concat l) -> exists g, g ∈ l /\ m ∈ g.
Proof.
  rewrite list_elem_of_In, <- in_rev, in_concat. intros (g & Hg & Hm). exists g. by rewrite !list_elem_of_In.
Qed.

(** The rates are those of about the last minute: what the buckets count is
    every message of the last fifty-nine seconds before the last one, and none
    that is a hundred and nineteen seconds older. *)
Theorem rates_cover_last_minute start ms now : in_order start ms -> sized ms -> zlen ms <= u64_max -> total ms <= u64_max ->
  last (start :: map fst ms) = Some now ->
  exists self missed counted, for_each (fun self m => add_message_received self (snd m) (fst m)) ms (new_time_series start) = Done self /\
    ms = missed ++ counted /\ bucket_totals self = Done (zlen counted, total counted) /\
    Forall (fun m => fst m + 59 * second < now) missed /\ Forall (fun m => now < fst m + 119 * second) counted.
Proof.
  intros Ho Hs Hl Ht Hnow. destruct (new_ring start) as [Hr Ha].
  assert (Hat : ring_at (new_time_series start) start (replicate 60 [])).
  { split; [done|done|cbn; unfold second; lia|]. apply Forall_replicate. constructor. }
  destruct (ring_runs ms _ _ _ Hat Ho Hs) as (self & clock & groups & Hrun & [Hr' Ha' Hk Hsz] & Hc & Hlast); [cbn; by zlia|done|].
  rewrite Hnow in Hlast. injection Hlast as <-. rewrite app_nil_r in Hc.
  assert (Hms : ms = rev (concat (drop 60 groups)) ++ rev (concat (take 60 groups))).
  { rewrite <- rev_app_distr, <- concat_app, take_drop, Hc. by rewrite rev_involutive. }
  exists self, (rev (concat (drop 60 groups))), (rev (concat (take 60 groups))). split; [done|]. split; [done|].
  assert (Hin : forall g m i, groups !! i = Some g -> m ∈ g -> (Z.of_nat i - 1) * second < now - fst m /\ (Z.of_nat i < 60 -> now - fst m < (2 * Z.of_nat i + 1) * second)).
  { intros g m i Hg Hm. destruct (Ha' _ _ _ Hg Hm) as [H1 H2]. unfold second in *. split; [lia|]. intros Hi. specialize (H2 Hi). lia. }
  split; [|split].
  - assert (Hz : zlen (rev (concat (take 60 groups))) = zlen (concat (take 60 groups))) by (unfold zlen; by rewrite length_rev).
    assert (Htot : total (rev (concat (take 60 groups))) = total (concat (take 60 groups))).
    { generalize (concat (take 60 groups)). unfold total. induction l as [|x l IH]; [done|]. cbn. fold (total (rev l ++ [x])). rewrite total_app. unfold total. cbn. lia. }
    pose proof (zlen_nonneg (rev (concat (drop 60 groups)))).
    assert (Hd : 0 <= total (rev (concat (drop 60 groups)))).
    { apply total_nonneg. apply List.Forall_rev. by apply Forall_total, Forall_drop. }
    rewrite Hms, zlen_app, Hz in Hl. rewrite Hms, total_app, Htot in Ht. rewrite Hz, Htot. apply ring_totals; [done|done|lia|lia].
  - apply list.Forall_forall. intros m (g & Hg & Hm)%elem_of_rev_concat. apply list_elem_of_lookup_1 in Hg as [i Hg]. rewrite lookup_drop in Hg.
    destruct (Hin g m _ Hg Hm) as [H1 _]. unfold second in *. lia.
  - apply list.Forall_forall. intros m (g & Hg & Hm)%elem_of_rev_concat. apply list_elem_of_lookup_1 in Hg as [i Hg]. apply lookup_take_Some in Hg as [Hg Hi].
    destruct (Hin g m _ Hg Hm) as [_ H2]. unfold second in *. lia.
Qed.

(** ** The collector *)

(** [AtomicUsize::fetch_add]. *)
Definition fetch_add (x n : Z) : Z := as_u64 (x + n).

Record TopicMetrics : Type := {
  tm_received : Z;
  tm_sent : Z;
  tm_rejected : Z;
  tm_duplicated : Z;
  tm_bytes_received : Z;
  tm_bytes_sent : Z;
}.

Definition new_topic_metrics : TopicMetrics :=
  {| tm_received := 0; tm_sent := 0; tm_rejected := 0; tm_duplicated := 0; tm_bytes_received := 0; tm_bytes_sent := 0 |}.

Record PeerMetrics : Type := {
  pm_received : Z;
  pm_sent : Z;
  pm_bytes_received : Z;
  pm_bytes_sent : Z;
  first_seen : Z;
  last_seen : Z;
}.

Definition new_peer_metrics (now : Z) : PeerMetrics :=
  {| pm_received := 0; pm_sent := 0; pm_bytes_received := 0; pm_bytes_sent := 0; first_seen := now; last_seen := now |}.

(** The cache of the [lru] crate: [lru_entries] is what its [iter] gives, the
    most recent first. [contains] does not change the order. *)
Class LruCache (K V : Type) : Type := {
  lru : Type;
  lru_new : Z -> lru;
  lru_cap : lru -> Z;
  lru_entries : lru -> list (K * V);
  lru_contains : lru -> K -> bool;
  lru_put : lru -> K -> V -> lru;
  lru_pop : lru -> K -> lru;
  lru_new_cap n : lru_cap (lru_new n) = n;
  lru_new_entries n : lru_entries (lru_new n) = [];
  lru_contains_spec c k : lru_contains c k = true <-> k ∈ (lru_entries c).*1;
  lru_put_cap c k v : lru_cap (lru_put c k v) = lru_cap c;
  lru_put_entries c k v : k ∉ (lru_entries c).*1 -> lru_entries (lru_put c k v) = ztake (lru_cap c) ((k, v) :: lru_entries c);
  lru_pop_cap c k : lru_cap (lru_pop c k) = lru_cap c;
  lru_pop_entries c k e : e ∈ lru_entries (lru_pop c k) <-> e ∈ lru_entries c /\ fst e <> k;
}.

(** The capacity of the cache. *)
Definition MESSAGE_CACHE : Z := 10000.

Section Metrics.
Context {PeerId : Type} `{Countable PeerId} `{L : !LruCache rstring Z}.

Record PubSubMetrics : Type := {
  messages_received : Z;
  messages_sent : Z;
  messages_rejected : Z;
  messages_duplicated : Z;
  messages_expired : Z;
  messages_valid : Z;
  bytes_received : Z;
  bytes_sent : Z;
  active_subscriptions : Z;
  topic_metrics : gmap TopicId TopicMetrics;
  peer_metrics : gmap PeerId PeerMetrics;
  time_series : TimeSeriesData;
  message_ids : lru;
}.

Definition new_metrics (now : Z) : PubSubMetrics :=
  {| messages_received := 0; messages_sent := 0; messages_rejected := 0; messages_duplicated := 0; messages_expired := 0; messages_valid := 0;
     bytes_received := 0; bytes_sent := 0; active_subscriptions := 0; topic_metrics := ∅; peer_metrics := ∅;
     time_series := new_time_series now; message_ids := lru_new MESSAGE_CACHE |}.

Definition at_topic (self : PubSubMetrics) (topic : TopicId) (f : TopicMetrics -> TopicMetrics) : gmap TopicId TopicMetrics :=
  <[topic := f (default new_topic_metrics (topic_metrics self !! topic))]> (topic_metrics self).

Definition at_peer (self : PubSubMetrics) (peer : option PeerId) (now : Z) (f : PeerMetrics -> PeerMetrics) : gmap PeerId PeerMetrics :=
  match peer with
  | Some p => <[p := f (default (new_peer_metrics now) (peer_metrics self !! p))]> (peer_metrics self)
  | None => peer_metrics self
  end.

Definition record_message_received (self : PubSubMetrics) (topic : TopicId) (peer : option PeerId) (size now : Z) : exec PubSubMetrics :=
  let! series := add_message_received (time_series self) size now in
  Done {| messages_received := fetch_add (messages_received self) 1; messages_sent := messages_sent self;
          messages_rejected := messages_rejected self; messages_duplicated := messages_duplicated self;
          messages_expired := messages_expired self; messages_valid := messages_valid self;
          bytes_received := fetch_add (bytes_received self) size; bytes_sent := bytes_sent self;
          active_subscriptions := active_subscriptions self;
          topic_metrics := at_topic self topic (fun m =>
            {| tm_received := fetch_add (tm_received m) 1; tm_sent := tm_sent m; tm_rejected := tm_rejected m; tm_duplicated := tm_duplicated m;
               tm_bytes_received := fetch_add (tm_bytes_received m) size; tm_bytes_sent := tm_bytes_sent m |});
          peer_metrics := at_peer self peer now (fun m =>
            {| pm_received := fetch_add (pm_received m) 1; pm_sent := pm_sent m;
               pm_bytes_received := fetch_add (pm_bytes_received m) size; pm_bytes_sent := pm_bytes_sent m;
               first_seen := first_seen m; last_seen := last_seen m |});
          time_series := series; message_ids := message_ids self |}.

Definition record_message_sent (self : PubSubMetrics) (topic : TopicId) (peer : option PeerId) (size now : Z) : exec PubSubMetrics :=
  let! series := add_message_sent (time_series self) size now in
  Done {| messages_received := messages_received self; messages_sent := fetch_add (messages_sent self) 1;
          messages_rejected := messages_rejected self; messages_duplicated := messages_duplicated self;
          messages_expired := messages_expired self; messages_valid := messages_valid self;
          bytes_received := bytes_received self; bytes_sent := fetch_add (bytes_sent self) size;
          active_subscriptions := active_subscriptions self;
          topic_metrics := at_topic self topic (fun m =>
            {| tm_received := tm_received m; tm_sent := fetch_add (tm_sent m) 1; tm_rejected := tm_rejected m; tm_duplicated := tm_duplicated m;
               tm_bytes_received := tm_bytes_received m; tm_bytes_sent := fetch_add (tm_bytes_sent m) size |});
          peer_metrics := at_peer self peer now (fun m =>
            {| pm_received := pm_received m; pm_sent := fetch_add (pm_sent m) 1;
               pm_bytes_received := pm_bytes_received m; pm_bytes_sent := fetch_add (pm_bytes_sent m) size;
               first_seen := first_seen m; last_seen := last_seen m |});
          time_series := series; message_ids := message_ids self |}.

(** What the other calls change. *)
Definition with_counts (self : PubSubMetrics) (rejected duplicated subscriptions : Z) (topics : gmap TopicId TopicMetrics) (ids : lru) : PubSubMetrics :=
  {| messages_received := messages_received self; messages_sent := messages_sent self; messages_rejected := rejected;
     messages_duplicated := duplicated; messages_expired := messages_expired self; messages_valid := messages_valid self;
     bytes_received := bytes_received self; bytes_sent := bytes_sent self; active_subscriptions := subscriptions; topic_metrics := topics;
     peer_metrics := peer_metrics self; time_series := time_series self; message_ids := ids |}.

Definition record_message_rejected (self : PubSubMetrics) (topic : TopicId) : PubSubMetrics :=
  with_counts self (fetch_add (messages_rejected self) 1) (messages_duplicated self) (active_subscriptions self)
    (at_topic self topic (fun m =>
      {| tm_received := tm_received m; tm_sent := tm_sent m; tm_rejected := fetch_add (tm_rejected m) 1; tm_duplicated := tm_duplicated m;
         tm_bytes_received := tm_bytes_received m; tm_bytes_sent := tm_bytes_sent m |})) (message_ids self).

Definition record_message_duplicated (self : PubSubMetrics) (topic : TopicId) : PubSubMetrics :=
  with_counts self (messages_rejected self) (fetch_add (messages_duplicated self) 1) (active_subscriptions self)
    (at_topic self topic (fun m =>
      {| tm_received := tm_received m; tm_sent := tm_sent m; tm_rejected := tm_rejected m; tm_duplicated := fetch_add (tm_duplicated m) 1;
         tm_bytes_received := tm_bytes_received m; tm_bytes_sent := tm_bytes_sent m |})) (message_ids self).

Definition is_duplicate (self : PubSubMetrics) (id : rstring) (now : Z) : PubSubMetrics * bool :=
  if lru_contains (message_ids self) id then
    (with_counts self (messages_rejected self) (fetch_add (messages_duplicated self) 1) (active_subscriptions self) (topic_metrics self) (message_ids self), true)
  else
    (with_counts self (messages_rejected self) (messages_duplicated self) (active_subscriptions self) (topic_metrics self)
       (lru_put (message_ids self) id now), false).

Definition update_subscription_count (self : PubSubMetrics) (count : Z) : PubSubMetrics :=
  with_counts self (messages_rejected self) (messages_duplicated self) count (topic_metrics self) (message_ids self).

Definition cleanup_message_cache (self : PubSubMetrics) (max_age now : Z) : PubSubMetrics :=
  let to_remove := map fst (List.filter (fun e => max_age <=? Z.max 0 (now - snd e)) (lru_entries (message_ids self))) in
  with_counts self (messages_rejected self) (messages_duplicated self) (active_subscriptions self) (topic_metrics self)
    (fold_left lru_pop to_remove (message_ids self)).

Record PubSubStats : Type := {
  stats_received : Z;
  stats_sent : Z;
  stats_rejected : Z;
  stats_duplicated : Z;
  stats_expired : Z;
  stats_valid : Z;
  stats_bytes_received : Z;
  stats_bytes_sent : Z;
  stats_subscriptions : Z;
  unique_peers : Z;
  messages_per_topic : gmap rstring Z;
  messages_per_second : float;
  bytes_per_second : float;
}.

Definition get_stats (self : PubSubMetrics) : exec PubSubStats :=
  let! rates := calculate_rates (time_series self) in
  Done {| stats_received := messages_received self; stats_sent := messages_sent self; stats_rejected := messages_rejected self;
          stats_duplicated := messages_duplicated self; stats_expired := messages_expired self; stats_valid := messages_valid self;
          stats_bytes_received := bytes_received self; stats_bytes_sent := bytes_sent self; stats_subscriptions := active_subscriptions self;
          unique_peers := Z.of_nat (base.size (peer_metrics self)); messages_per_topic := tm_received <$> topic_metrics self;
          messages_per_second := fst rates; bytes_per_second := snd rates |}.

(** ** What the collector says *)

Inductive metrics_call : Type :=
| Received (topic : TopicId) (peer : option PeerId) (size now : Z)
| Sent (topic : TopicId) (peer : option PeerId) (size now : Z)
| Rejected (topic : TopicId)
| Duplicated (topic : TopicId)
| Ask (id : rstring) (now : Z)
| Subscriptions (count : Z)
| Cleanup (max_age now : Z).

Definition metrics_step (self : PubSubMetrics) (c : metrics_call) : exec PubSubMetrics :=
  match c with
  | Received topic peer size now => record_message_received self topic peer size now
  | Sent topic peer size now => record_message_sent self topic peer size now
  | Rejected topic => Done (record_message_rejected self topic)
  | Duplicated topic => Done (record_message_duplicated self topic)
  | Ask id now => Done (fst (is_duplicate self id now))
  | Subscriptions count => Done (update_subscription_count self count)
  | Cleanup max_age now => Done (cleanup_message_cache self max_age now)
  end.

(** A number of all topics together. *)
Definition topic_sum (f : TopicMetrics -> Z) (topics : gmap TopicId TopicMetrics) : Z := sum (map (fun e => f (snd e)) (map_to_list topics)).

Lemma topic_sum_insert f topics k m : f new_topic_metrics = 0 ->
  topic_sum f (<[k := m]> topics) = topic_sum f topics - f (default new_topic_metrics (topics !! k)) + f m.
Proof.
  intros Hf0. assert (Hnew : forall t x, t !! k = None -> topic_sum f (<[k := x]> t) = f x + topic_sum f t).
  { intros t x Ht. unfold topic_sum. rewrite (sum_perm _ (map (fun e => f (snd e)) ((k, x) :: map_to_list t))); [done|].
    apply Permutation_map. by apply map_to_list_insert. }
  destruct (topics !! k) as [x|] eqn:Hk; cbn; [|rewrite Hnew by done; lia].
  assert (Hd : delete k topics !! k = None) by apply lookup_delete_eq.
  rewrite <- (insert_delete_id topics k x) at 2 by done. rewrite (Hnew _ x Hd). rewrite <- insert_delete_eq, (Hnew _ m Hd). lia.
Qed.

Definition same_word (x y : Z) : Prop := as_u64 x = as_u64 y.

Lemma as_u64_add x n : as_u64 (as_u64 x + n) = as_u64 (x + n).
Proof. unfold as_u64. apply Zplus_mod_idemp_l. Qed.

Lemma at_topic_adds g self topic f n : g new_topic_metrics = 0 -> (forall m, g (f m) = fetch_add (g m) n) ->
  same_word (topic_sum g (at_topic self topic f)) (topic_sum g (topic_metrics self) + n).
Proof.
  intros Hg Hf. unfold at_topic. rewrite topic_sum_insert, Hf by done. set (x := g _). unfold same_word, fetch_add, as_u64.
  rewrite Zplus_mod_idemp_r. f_equal. lia.
Qed.

Lemma at_topic_keeps g self topic f : g new_topic_metrics = 0 -> (forall m, g (f m) = g m) ->
  topic_sum g (at_topic self topic f) = topic_sum g (topic_metrics self).
Proof. intros Hg Hf. unfold at_topic. rewrite topic_sum_insert, Hf by done. lia. Qed.

(** The totals are those of the topics together. *)
Record accounts (self : PubSubMetrics) : Prop := {
  acc_received : messages_received self = as_u64 (topic_sum tm_received (topic_metrics self));
  acc_sent : messages_sent self = as_u64 (topic_sum tm_sent (topic_metrics self));
  acc_rejected : messages_rejected self = as_u64 (topic_sum tm_rejected (topic_metrics self));
  acc_bytes_received : bytes_received self = as_u64 (topic_sum tm_bytes_received (topic_metrics self));
  acc_bytes_sent : bytes_sent self = as_u64 (topic_sum tm_bytes_sent (topic_metrics self));
  acc_expired : messages_expired self = 0;
  acc_valid : messages_valid self = 0;
}.

Lemma word_adds x g self topic f n : x = as_u64 (topic_sum g (topic_metrics self)) -> g new_topic_metrics = 0 ->
  (forall m, g (f m) = fetch_add (g m) n) -> fetch_add x n = as_u64 (topic_sum g (at_topic self topic f)).
Proof. intros -> Hg Hf. unfold fetch_add. rewrite as_u64_add. symmetry. by apply at_topic_adds. Qed.

Lemma word_keeps x g self topic f : x = as_u64 (topic_sum g (topic_metrics self)) -> g new_topic_metrics = 0 ->
  (forall m, g (f m) = g m) -> x = as_u64 (topic_sum g (at_topic self topic f)).
Proof. intros Hx Hg Hf. by rewrite at_topic_keeps. Qed.

Lemma metrics_step_accounts self c self' : metrics_step self c = Done self' -> accounts self -> accounts self'.
Proof.
  intros Hs [Ha Hb Hc Hd He Hx Hv]. destruct c as [topic peer size now|topic peer size now|topic|topic|id now|n|age now]; cbn in Hs.
  - unfold record_message_received in Hs. destruct (add_message_received _ _ _); try done. injection Hs as <-.
    split; cbn; solve [done|by apply word_adds|by apply word_keeps].
  - unfold record_message_sent in Hs. destruct (add_message_sent _ _ _); try done. injection Hs as <-.
    split; cbn; solve [done|by apply word_adds|by apply word_keeps].
  - injection Hs as <-. split; cbn; solve [done|by apply word_adds|by apply word_keeps].
  - injection Hs as <-. split; cbn; solve [done|by apply word_keeps].
  - unfold is_duplicate in Hs. destruct (lru_contains _ _); by injection Hs as <-.
  - by injection Hs as <-.
  - by injection Hs as <-.
Qed.

Lemma metrics_run_accounts start calls self : for_each metrics_step calls (new_metrics start) = Done self -> accounts self.
Proof.
  assert (Hgo : forall calls m, accounts m -> for_each metrics_step calls m = Done self -> accounts self).
  { clear calls. induction calls as [|c calls IH]; cbn; intros m Hm Hr; [by injection Hr as <-|].
    destruct (metrics_step m c) as [m'| |] eqn:Hs; try done. apply (IH m'); [|done]. by eapply metrics_step_accounts. }
  apply Hgo. split; try done; by vm_compute.
Qed.

(** Whatever is recorded, the totals that [get_stats] gives are those of the
    topics together, counted in words of 64 bits; the numbers of expired and of
    valid messages stay zero. *)
Theorem stats_account_for_topics start calls self stats : for_each metrics_step calls (new_metrics start) = Done self -> get_stats self = Done stats ->
  stats_received stats = as_u64 (topic_sum tm_received (topic_metrics self)) /\
  stats_sent stats = as_u64 (topic_sum tm_sent (topic_metrics self)) /\
  stats_rejected stats = as_u64 (topic_sum tm_rejected (topic_metrics self)) /\
  stats_bytes_received stats = as_u64 (topic_sum tm_bytes_received (topic_metrics self)) /\
  stats_bytes_sent stats = as_u64 (topic_sum tm_bytes_sent (topic_metrics self)) /\
  stats_expired stats = 0 /\ stats_valid stats = 0.
Proof.
  intros [Ha Hb Hc Hd He Hx Hv]%metrics_run_accounts Hst. unfold get_stats in Hst.
  destruct (calculate_rates (time_series self)) as [r| |]; try done. by injection Hst as <-.
Qed.

(** ** Duplicates *)

(** The identifiers that were new are remembered, as many as the cache holds:
    asking for one that is remembered does not renew it. *)
Fixpoint verdicts (known : list rstring) (ids : list rstring) : list bool :=
  match ids with
  | [] => []
  | id :: ids => if bool_decide (id ∈ ztake MESSAGE_CACHE known) then true :: verdicts known ids else false :: verdicts (id :: known) ids
  end.

Fixpoint ask_all (self : PubSubMetrics) (ids : list (rstring * Z)) : PubSubMetrics * list bool :=
  match ids with
  | [] => (self, [])
  | (id, now) :: ids =>
      let '(self, b) := is_duplicate self id now in
      let '(self, bs) := ask_all self ids in (self, b :: bs)
  end.

Lemma take_cons_take {A} n (x : A) l : take n (x :: take n l) = take n (x :: l).
Proof. destruct n as [|n]; [done|]. cbn [take]. f_equal. rewrite take_take. f_equal. lia. Qed.

(** An identifier is found to be a duplicate exactly when it is among the last
    ten thousand that were not. *)
Theorem duplicates_of_the_last start ids : snd (ask_all (new_metrics start) ids) = verdicts [] (map fst ids).
Proof.
  assert (Hgo : forall ids self known, lru_cap (message_ids self) = MESSAGE_CACHE -> (lru_entries (message_ids self)).*1 = ztake MESSAGE_CACHE known ->
    snd (ask_all self ids) = verdicts known (map fst ids)).
  { clear ids. induction ids as [|[id now] ids IH]; intros self known Hc Hk; [done|]. cbn [ask_all map verdicts fst]. unfold is_duplicate.
    destruct (lru_contains (message_ids self) id) eqn:Hin.
    - apply lru_contains_spec in Hin. rewrite Hk in Hin. rewrite bool_decide_true by done.
      match goal with |- context [ask_all ?m ids] => specialize (IH m known Hc Hk); destruct (ask_all m ids) as [m' bs] end. cbn in *. by rewrite IH.
    - assert (Hni : id ∉ (lru_entries (message_ids self)).*1) by (intros Hi; apply lru_contains_spec in Hi; congruence).
      rewrite bool_decide_false by by rewrite <- Hk.
      match goal with |- context [ask_all ?m ids] => destruct (ask_all m ids) as [m' bs] eqn:Ha; specialize (IH m (id :: known)); rewrite Ha in IH end.
      cbn [snd] in *. rewrite IH; [done|by cbn; rewrite lru_put_cap|]. cbn [message_ids with_counts]. rewrite lru_put_entries, Hc by done.
      unfold ztake in *. rewrite fmap_take. cbn [fmap list_fmap fst]. rewrite Hk. apply take_cons_take. }
  apply Hgo; cbn [message_ids new_metrics]; [apply lru_new_cap|]. rewrite lru_new_entries. unfold ztake. by rewrite take_nil.
Qed.
End Metrics.

(** ** Concrete runs *)

(** A list as a cache. *)
Definition demo_put (c : Z * list (rstring * Z)) (k : rstring) (v : Z) : Z * list (rstring * Z) :=
  (fst c, ztake (fst c) ((k, v) :: List.filter (fun e => negb (str_eqb (fst e) k)) (snd c))).

#[local, program] Instance demo_cache : LruCache rstring Z :=
  {| lru := Z * list (rstring * Z); lru_new n := (n, []); lru_cap := fst; lru_entries := snd;
     lru_contains c k := bool_decide (k ∈ (snd c).*1); lru_put := demo_put;
     lru_pop c k := (fst c, List.filter (fun e => negb (str_eqb (fst e) k)) (snd c)) |}.
Next Obligation. done. Qed.
Next Obligation. done. Qed.
Next Obligation. intros c k. apply bool_decide_eq_true. Qed.
Next Obligation. done. Qed.
Next Obligation.
  intros [n l] k v Hk. cbn in *. unfold demo_put. cbn. do 2 f_equal. induction l as [|[k' v'] l IH]; [done|]. cbn in *.
  apply not_elem_of_cons in Hk as [Hne Hk]. rewrite (proj2 (str_eqb_neq k' k)) by congruence. cbn. by rewrite IH.
Qed.
Next Obligation. done. Qed.
Next Obligation.
  intros [n l] k [k' v]. cbn. rewrite !list_elem_of_In, filter_In. cbn. by rewrite negb_true_iff, str_eqb_neq.
Qed.

Lemma rates_cover_last_minute_witness : let ms := [(0, 5); (30 * second, 6); (150 * second, 7)] in
  exists self missed counted, for_each (fun self m => add_message_received self (snd m) (fst m)) ms (new_time_series 0) = Done self /\
    ms = missed ++ counted /\ bucket_totals self = Done (zlen counted, total counted) /\ zlen counted = 1.
Proof.
  intros ms. destruct (rates_cover_last_minute 0 ms (150 * second)) as (self & missed & counted & Hr & Hm & Ht & Hmiss & Hcount).
  - repeat split; vm_compute; discriminate.
  - repeat constructor; cbn; lia.
  - vm_compute. discriminate.
  - vm_compute. discriminate.
  - reflexivity.
  - exists self, missed, counted. split; [exact Hr|]. split; [exact Hm|]. split; [exact Ht|].
    vm_compute in Hr. injection Hr as <-. vm_compute in Ht. injection Ht as Hz _. symmetry. exact Hz.
Defined.

Lemma stats_account_for_topics_witness : exists self stats,
  for_each (metrics_step (PeerId := Z)) [Received (str "a") (Some 1) 5 0; Received (str "b") (Some 2) 6 0; Rejected (str "a")] (new_metrics 0) = Done self /\
  get_stats self = Done stats /\ stats_received stats = 2 /\ stats_received stats = as_u64 (topic_sum tm_received (topic_metrics self)).
Proof.
  destruct (for_each (metrics_step (PeerId := Z)) [Received (str "a") (Some 1) 5 0; Received (str "b") (Some 2) 6 0; Rejected (str "a")] (new_metrics 0))
    as [self| |] eqn:Hr; [|vm_compute in Hr; discriminate Hr..].
  destruct (get_stats self) as [stats| |] eqn:Hs; [|vm_compute in Hr; injection Hr as <-; vm_compute in Hs; discriminate Hs..].
  exists self, stats. split; [done|]. split; [done|]. destruct (stats_account_for_topics 0 _ self stats Hr Hs) as [Hall _]. split; [|exact Hall].
  vm_compute in Hr. injection Hr as <-. vm_compute in Hs. injection Hs as <-. reflexivity.
Defined.
