(* ===== verification/GossipMessages.v ===== *)
(** * Messages on the wire, topics, and the service around them

    The rest of [core/src/pubsub/gossipsub.rs] and [topic.rs]: the conversions
    between the messages of [PubSub] and what gossipsub carries, the topics of a
    stream, and the part of the service that starts, stops and hands out streams
    of events. A JSON payload is a [jvalue]. *)

From S2P Require Import Prelude Rust Format Hash Segment PubSub JsonTree.

#[local] Open Scope Z_scope.

(** ** Topics *)

Record TopicConfig : Type := {
  history_size : Z;
  allowed_publishers : list rstring;
  is_private : bool;
  topic_max_message_size : Z;
}.

Definition default_topic_config : TopicConfig :=
  {| history_size := 100; allowed_publishers := []; is_private := false; topic_max_message_size := 0 |}.

Record Topic : Type := {
  topic_id : TopicId;
  topic_name : rstring;
  topic_description : option rstring;
  topic_config : TopicConfig;
}.

Definition new_topic (id name : rstring) : Topic :=
  {| topic_id := id; topic_name := name; topic_description := None; topic_config := default_topic_config |}.
Definition topic_with_config (id name : rstring) (config : TopicConfig) : Topic :=
  {| topic_id := id; topic_name := name; topic_description := None; topic_config := config |}.
Definition with_description (self : Topic) (description : rstring) : Topic :=
  {| topic_id := topic_id self; topic_name := topic_name self; topic_description := Some description; topic_config := topic_config self |}.
Definition stream_topic (stream_id : rstring) : Topic := new_topic (str "stream_" ++ stream_id) (str "Stream: " ++ stream_id).

Record TopicMetadata : Type := {
  content_type : option rstring;
  meta_title : option rstring;
  meta_description : option rstring;
  creator : option rstring;
  tags : list rstring;
  custom : gmap rstring rstring;
}.
Definition default_metadata : TopicMetadata :=
  {| content_type := None; meta_title := None; meta_description := None; creator := None; tags := []; custom := ∅ |}.

Record StreamTopic : Type := { base_topic : Topic; topic_stream_id : rstring; topic_metadata : TopicMetadata }.
Definition new_stream_topic (stream_id name : rstring) : StreamTopic :=
  {| base_topic := new_topic (str "stream/" ++ stream_id) name; topic_stream_id := stream_id; topic_metadata := default_metadata |}.

(** Neither topic of a stream is one that the validator of stream data looks at. *)
Example stream_topics_not_validated :
  map is_stream_data_topic [topic_id (stream_topic (str "abc")); topic_id (base_topic (new_stream_topic (str "abc") (str "Abc"))); str "stream/abc/data"]
  = [false; false; true].
Proof. reflexivity. Qed.

(** ** Messages as JSON *)

Definition message_type_name (t : MessageType) : rstring :=
  match t with
  | Data => str "Data" | Control => str "Control" | MetadataMessage => str "Metadata" | MediaChunk => str "MediaChunk"
  | Announcement => str "Announcement"
  end.

(** A unit variant: its name, or an object with its name and [null]. *)
Definition message_type_of_json (v : jvalue) : option MessageType :=
  let named := fun s =>
    if str_eqb s (str "Data") then Some Data else if str_eqb s (str "Control") then Some Control
    else if str_eqb s (str "Metadata") then Some MetadataMessage else if str_eqb s (str "MediaChunk") then Some MediaChunk
    else if str_eqb s (str "Announcement") then Some Announcement else None in
  match v with JString s => named s | JObject [(s, JNull)] => named s | _ => None end.

Section Messages.
Context {PeerId : Type} `{!Text PeerId, !JsonText, !HashOrder rstring, !Hex, !Blake3}.

#[local] Instance json_text : Text jvalue := print.

Notation Message := (Message (Json := jvalue)).
Notation MessagePayload := (MessagePayload (Json := jvalue)).

(** [MessagePayload] is [untagged]: its variants are written as they are, and
    tried in order when read. *)
Definition payload_json (p : MessagePayload) : jvalue :=
  match p with Binary data => byte_list_json data | TextPayload text => JString text | JsonPayload v => v end.
Definition payload_of_json (v : jvalue) : MessagePayload :=
  match as_byte_list v with
  | Some data => Binary data
  | None => match v with JString text => TextPayload text | v => JsonPayload v end
  end.

Definition message_json (m : Message) : jvalue :=
  JObject [field "id" (JString (msg_id m)); field "topic" (JString (topic m)); field "publisher" (jopt JString (publisher m));
           field "message_type" (JString (message_type_name (message_type m))); field "payload" (payload_json (payload m));
           field "sequence" (jopt JNumber (msg_sequence m)); field "timestamp" (JNumber (timestamp m)); field "ttl" (JNumber (ttl m));
           field "headers" (string_map_json (headers m))].

Definition message_of_fields (fields : list (rstring * jvalue)) : option Message :=
  match required as_string "id" fields, required as_string "topic" fields, optional as_string "publisher" fields,
        required message_type_of_json "message_type" fields, required (fun v => Some (payload_of_json v)) "payload" fields,
        optional as_number_u64 "sequence" fields, required as_number_u64 "timestamp" fields, required as_number_u64 "ttl" fields,
        required as_string_map "headers" fields with
  | Some id, Some topic, Some publisher, Some ty, Some payload, Some sequence, Some timestamp, Some ttl, Some headers =>
      Some {| msg_id := id; topic := topic; publisher := publisher; message_type := ty; payload := payload; msg_sequence := sequence;
              timestamp := timestamp; ttl := ttl; headers := headers |}
  | _, _, _, _, _, _, _, _, _ => None
  end.

(** A structure is read from an object or from the array of its fields. *)
Definition message_of_json (v : jvalue) : option Message :=
  match v with
  | JObject fields => message_of_fields fields
  | JArray [id; topic; publisher; ty; payload; sequence; timestamp; ttl; headers] =>
      message_of_fields [field "id" id; field "topic" topic; field "publisher" publisher; field "message_type" ty; field "payload" payload;
                         field "sequence" sequence; field "timestamp" timestamp; field "ttl" ttl; field "headers" headers]
  | _ => None
  end.

(** ** The conversions *)

Inductive PublishError : Type := MessageTooLarge (size limit : Z).

Definition to_gossipsub_message (max_message_size : Z) (message : Message) : result (bytes * bytes) PublishError :=
  let data := print (message_json message) in
  if max_message_size <? zlen data then RErr (MessageTooLarge (zlen data) max_message_size) else ROk (data, msg_id message).

Definition with_publisher (m : Message) (source : option PeerId) : Message :=
  {| msg_id := msg_id m; topic := topic m; publisher := match source with Some p => Some (to_text p) | None => publisher m end;
     message_type := message_type m; payload := payload m; msg_sequence := msg_sequence m; timestamp := timestamp m; ttl := ttl m; headers := headers m |}.

Definition with_id (m : Message) (id : rstring) : Message :=
  {| msg_id := id; topic := topic m; publisher := publisher m; message_type := message_type m; payload := payload m;
     msg_sequence := msg_sequence m; timestamp := timestamp m; ttl := ttl m; headers := headers m |}.

(** The clock is read twice for data that is no message. *)
Definition parse_gossipsub_message (topic_id : TopicId) (data : bytes) (source : option PeerId) (now_ms now_ms' : Z) : Message :=
  match read data ≫= message_of_json with
  | Some message => with_publisher message source
  | None =>
      let id := str "msg-" ++ topic_id ++ str "-" ++ decimal now_ms in
      with_publisher (with_id (binary topic_id data now_ms') id) source
  end.

(** ** The round trip *)

(** A message of the program: its text is UTF-8 and its numbers fit. *)
Record message_ok (m : Message) : Prop := {
  text_ok : is_text (msg_id m) /\ is_text (topic m) /\ match publisher m with Some s => is_text s | None => True end;
  payload_ok : match payload m with Binary data => Forall is_byte data | TextPayload s => is_text s | JsonPayload v => canonical v end;
  numbers_ok : match msg_sequence m with Some n => is_u64 n | None => True end /\ is_u64 (timestamp m) /\ is_u64 (ttl m);
  headers_ok : map_Forall (fun k v => is_text k /\ is_text v) (headers m);
}.

(** What is read back of a payload: a JSON payload that looks like one of the
    other two becomes that. *)
Definition reread (p : MessagePayload) : MessagePayload := match p with JsonPayload v => payload_of_json v | p => p end.

Lemma payload_reread p : match p with Binary data => Forall is_byte data | _ => True end -> payload_of_json (payload_json p) = reread p.
Proof.
  destruct p as [data|text|v]; [|done..]. intros Hd. unfold payload_of_json, payload_json. by rewrite byte_list_ok.
Qed.

Lemma is_u64_number n : is_u64 n -> is_number n.
Proof. unfold is_u64, is_number. lia. Qed.

Lemma message_canonical m : message_ok m -> canonical (message_json m).
Proof.
  intros [(Hid & Htopic & Hpub) Hpay (Hseq & Hts & Httl) Hh]. apply canonical_object. split.
  - apply (bool_decide_unpack _). vm_compute. exact I.
  - repeat apply list.Forall_cons_2; try apply list.Forall_nil_2; (split; [reflexivity|]); cbn [snd field]; try done; try (by apply is_u64_number).
    + by destruct (publisher m).
    + by destruct (message_type m).
    + destruct (payload m); [by apply canonical_bytes|done..].
    + destruct (msg_sequence m); [by apply is_u64_number|done].
    + by apply canonical_map.
Qed.

Lemma message_type_ok t : message_type_of_json (JString (message_type_name t)) = Some t.
Proof. by destruct t. Qed.

Lemma message_read m : message_ok m ->
  message_of_json (message_json m) =
  Some {| msg_id := msg_id m; topic := topic m; publisher := publisher m; message_type := message_type m; payload := reread (payload m);
          msg_sequence := msg_sequence m; timestamp := timestamp m; ttl := ttl m; headers := headers m |}.
Proof.
  intros [_ Hpay (Hseq & Hts & Httl) _]. unfold message_of_json, message_json, message_of_fields.
  match goal with |- context [required as_string "id" ?l] => set (fields := l) end.
  rewrite (required_found as_string "id" fields (JString (msg_id m)) _ eq_refl eq_refl).
  rewrite (required_found as_string "topic" fields (JString (topic m)) _ eq_refl eq_refl).
  rewrite (optional_found as_string JString "publisher" fields (publisher m) eq_refl) by done.
  rewrite (required_found message_type_of_json "message_type" fields _ _ eq_refl (message_type_ok (message_type m))).
  rewrite (required_found (fun v => Some (payload_of_json v)) "payload" fields _ (Some (reread (payload m))) eq_refl)
    by (f_equal; apply payload_reread; by destruct (payload m)).
  rewrite (optional_found as_number_u64 JNumber "sequence" fields (msg_sequence m) eq_refl).
  2:{ intros n Hn. rewrite Hn in Hseq. split; [done|by apply as_number_u64_ok]. }
  rewrite (required_found as_number_u64 "timestamp" fields _ _ eq_refl (as_number_u64_ok _ Hts)).
  rewrite (required_found as_number_u64 "ttl" fields _ _ eq_refl (as_number_u64_ok _ Httl)).
  by rewrite (required_found as_string_map "headers" fields _ _ eq_refl (string_map_ok (headers m))).
Qed.

(** The message is one container around its payload and its headers. *)
Lemma message_depth m : depth (message_json m) = S (Nat.max (depth (payload_json (payload m))) 1).
Proof.
  unfold message_json. cbn [depth fold_right snd field]. rewrite depth_map. f_equal.
  destruct (publisher m), (msg_sequence m); cbn [jopt depth]; lia.
Qed.

Lemma message_too_deep m : (max_depth < depth (message_json m))%nat <->
  match payload m with JsonPayload v => (126 < depth v)%nat | _ => False end.
Proof.
  rewrite message_depth. unfold max_depth. destruct (payload m); cbn [payload_json]; [rewrite depth_bytes|cbn [depth]|]; lia.
Qed.

(** C39: A message that is too large is refused. Any other is read back with the
    topic, the identifier and the time its author wrote, whatever topic it came
    on; its publisher is replaced by the peer it came from, and a JSON payload
    that is a string or an array of bytes is taken for text or binary data. A
    JSON payload whose arrays and objects nest deeper than 126 is not read: what
    comes out is a binary message with a new identifier, on the topic it came
    on. Numbers with a fraction are outside the model. *)
Theorem gossip_roundtrip max (m : Message) topic_id source now now' : message_ok m ->
  to_gossipsub_message max m = RErr (MessageTooLarge (zlen (print (message_json m))) max) /\ max < zlen (print (message_json m)) \/
  exists data m', to_gossipsub_message max m = ROk (data, msg_id m) /\ zlen data <= max /\
    parse_gossipsub_message topic_id data source now now' = m' /\
    if match payload m with JsonPayload v => (depth v <=? 126)%nat | _ => true end
    then msg_id m' = msg_id m /\ topic m' = topic m /\ message_type m' = message_type m /\ msg_sequence m' = msg_sequence m /\
         timestamp m' = timestamp m /\ ttl m' = ttl m /\ headers m' = headers m /\ payload m' = reread (payload m) /\
         publisher m' = match source with Some p => Some (to_text p) | None => publisher m end
    else msg_id m' = str "msg-" ++ topic_id ++ str "-" ++ decimal now /\ topic m' = topic_id /\ message_type m' = Data /\
         timestamp m' = now' /\ headers m' = ∅ /\ payload m' = Binary data /\ publisher m' = to_text <$> source.
Proof.
  intros Hm. unfold to_gossipsub_message. destruct (Z.ltb_spec max (zlen (print (message_json m)))); [by left|right].
  eexists _, _. split; [reflexivity|]. split; [done|]. split; [reflexivity|]. unfold parse_gossipsub_message.
  pose proof (message_too_deep m) as Hdeep. destruct (decide (max_depth < depth (message_json m))%nat) as [Hd|Hd].
  - rewrite read_deep by done. apply Hdeep in Hd as Hv. destruct (payload m) as [| |v]; [done..|].
    rewrite (proj2 (Nat.leb_gt _ _) Hv). by destruct source.
  - rewrite read_print by (by apply message_canonical || lia).
    change (Some (message_json m) ≫= message_of_json) with (message_of_json (message_json m)). rewrite message_read by done.
    destruct (payload m) as [| |v] eqn:Hp; cbn [reread]; [by repeat split..|].
    rewrite (proj2 (Nat.leb_le _ _)) by tauto || lia. by repeat split.
Qed.

(** Which payloads survive. *)
Lemma reread_same p : reread p = p <->
  match p with JsonPayload v => as_byte_list v = None /\ as_string v = None | _ => True end.
Proof.
  destruct p as [data|text|v]; [done..|]. cbn. unfold payload_of_json. destruct (as_byte_list v) as [data|]; [split; [done|by intros []]|].
  destruct v; cbn; split; try done; by intros [].
Qed.
End Messages.

(** ** The service *)

Section Service.
Context {PeerId LocalPeerId Json : Type} `{!Text PeerId, !Text Json, Countable LocalPeerId}.

(** The service with its channel: streams of events are numbered, and one is open
    while the service holds its sender. *)
Record EventService : Type := {
  core : GossipSubService (PeerId := PeerId) (Json := Json);
  event_sender : option nat;
  streams_made : nat;
  connected : gset LocalPeerId;
  started : bool;
}.

Definition with_channel (self : EventService) (sender : option nat) (made : nat) (started : bool) : EventService :=
  {| core := core self; event_sender := sender; streams_made := made; connected := connected self; started := started |}.

(** [start] drops the receiver of the channel it makes. *)
Definition start (self : EventService) : EventService :=
  if started self then self else with_channel self (Some (streams_made self)) (S (streams_made self)) true.
Definition stop (self : EventService) : EventService :=
  if started self then with_channel self None (streams_made self) false else self.
Definition event_stream (self : EventService) : EventService * nat :=
  (with_channel self (Some (streams_made self)) (S (streams_made self)) (started self), streams_made self).
Definition list_peers `{!HashOrder LocalPeerId} (self : EventService) (_ : TopicId) : list LocalPeerId := set_iter (connected self).

Inductive service_call : Type := Start | Stop | EventStream | Subscribe (t : TopicId) | Unsubscribe (t : TopicId).

Definition with_core (self : EventService) (c : GossipSubService) : EventService :=
  {| core := c; event_sender := event_sender self; streams_made := streams_made self; connected := connected self; started := started self |}.

Definition service_step (self : EventService) (c : service_call) : EventService :=
  match c with
  | Start => start self
  | Stop => stop self
  | EventStream => fst (event_stream self)
  | Subscribe t => with_core self (fst (subscribe (core self) t))
  | Unsubscribe t => with_core self (fst (unsubscribe (core self) t))
  end.

(** Starting closes the stream that was handed out before, a second stream the
    first, and nobody is ever listed as a peer. *)
Theorem service_channels self calls i : event_sender self = Some i -> connected self = ∅ -> started self = false ->
  event_sender (start self) = Some (streams_made self) /\
  event_sender (fst (event_stream self)) = Some (streams_made self) /\
  connected (fold_left service_step calls self) = ∅.
Proof.
  intros Hs Hc Hst. unfold start. rewrite Hst. split; [done|]. split; [done|]. clear Hs Hst. revert self Hc.
  induction calls as [|c calls IH]; intros self Hc; [done|]. cbn. apply IH. destruct c; cbn; try done.
  - unfold start. by destruct (started self).
  - unfold stop. by destruct (started self).
Qed.
End Service.

(** ** Witnesses *)

Section Demo.
#[local] Existing Instance coded_json.
#[local] Existing Instance canonical_order.
#[local] Existing Instance lowercase_hex.
#[local] Existing Instance demo_blake3.
#[local] Existing Instance demo_bincode.
#[local] Instance text_positive : Text positive := fun p => decimal (Zpos p).
#[local] Existing Instance json_text.

(** A JSON payload that reads as bytes. *)
Definition demo_gossip : Message (Json := jvalue) :=
  {| msg_id := str "m1"; topic := str "stream/abc/data"; publisher := Some (str "me"); message_type := Data;
     payload := JsonPayload (JArray [JNumber 1; JNumber 255]); msg_sequence := Some 7; timestamp := 5; ttl := 0; headers := ∅ |}.

Lemma demo_gossip_ok : message_ok demo_gossip.
Proof.
  constructor.
  - split_and!; reflexivity.
  - cbn. unfold is_number, u64_max. lia.
  - cbn. unfold is_u64, u64_max. lia.
  - apply map_Forall_empty.
Defined.

Lemma gossip_roundtrip_witness :
  let m' := parse_gossipsub_message (str "another/topic") (print (message_json demo_gossip)) (Some 9%positive) 0 0 in
  topic m' = str "stream/abc/data" /\ publisher m' = Some (str "9") /\ payload m' = Binary [1; 255].
Proof.
  destruct (gossip_roundtrip 100 demo_gossip (str "another/topic") (Some 9%positive) 0 0 demo_gossip_ok)
    as [[_ Hlarge]|(data & m' & Hto & _ & Hparse & Hsame)].
  - vm_compute in Hlarge. discriminate Hlarge.
  - unfold to_gossipsub_message in Hto. destruct (100 <? _); [discriminate Hto|]. injection Hto as <-. subst m'. cbn zeta.
    destruct Hsame as (_ & Htopic & _ & _ & _ & _ & _ & Hpayload & Hpublisher).
    split; [exact Htopic|]. split; [exact Hpublisher|exact Hpayload].
Defined.

Lemma service_channels_witness :
  let self := fst (event_stream {| core := new_service 50; event_sender := None; streams_made := 0; connected := (∅ : gset positive); started := false |}
                   : EventService (PeerId := positive) (Json := positive) * nat) in
  event_sender self = Some 0%nat /\ event_sender (start self) = Some 1%nat.
Proof.
  intros self. split; [reflexivity|]. exact (proj1 (service_channels self [] 0 eq_refl eq_refl eq_refl)).
Defined.
End Demo.
