(* ===== verification/OverlayMetrics.v ===== *)
(** * Metrics of the overlay

    Models [core/src/overlay/metrics.rs]: counters, gauges, meters and
    histograms, the registry of them, and the report. The exponential of [f64]
    and the text of a float with two places are parameters. *)

From Stdlib Require Import SpecFloat.
From S2P Require Import Prelude Rust Float Format Hash.

#[local] Open Scope Z_scope.

(** ** Counters and gauges *)

Record Counter : Type := { counter_value : Z }.
Definition new_counter : Counter := {| counter_value := 0 |}.
Definition counter_add (self : Counter) (amount : Z) : exec Counter :=
  let! v := add_u64 (counter_value self) amount in Done {| counter_value := v |}.
Definition counter_increment (self : Counter) : exec Counter := counter_add self 1.
Definition counter_reset (self : Counter) : Counter := {| counter_value := 0 |}.

Record Gauge : Type := { gauge_value : float }.
Definition new_gauge : Gauge := {| gauge_value := S754_zero false |}.
Definition gauge_set (self : Gauge) (value : float) : Gauge := {| gauge_value := value |}.
Definition gauge_increment (self : Gauge) (amount : float) : Gauge := {| gauge_value := f64_add (gauge_value self) amount |}.
Definition gauge_decrement (self : Gauge) (amount : float) : Gauge := {| gauge_value := f64_sub (gauge_value self) amount |}.

(** ** Meters *)

Record Meter : Type := {
  meter_count : Z;
  start_time : Z;
  last_tick : Z;
  one_min_rate : float;
  five_min_rate : float;
  fifteen_min_rate : float;
  tick_interval : Z;
}.

Definition new_meter (now : Z) : Meter :=
  {| meter_count := 0; start_time := now; last_tick := now; one_min_rate := S754_zero false; five_min_rate := S754_zero false;
     fifteen_min_rate := S754_zero false; tick_interval := 5 |}.

Section Meter.
Context (f64_exp : float -> float).

(** [1.0 - f64::exp(-5.0 / window)], and the average moved by it. *)
Definition alpha (window : Z) : float := f64_sub (f64_of 1) (f64_exp (f64_lit (- 5) window)).
Definition moved (average rate : float) (window : Z) : float := f64_add average (f64_mul (alpha window) (f64_sub rate average)).

Definition update_rates (self : Meter) (now : Z) : Meter :=
  let elapsed := seconds_since now (last_tick self) in
  if tick_interval self <=? elapsed then
    let rate := f64_div (f64_of (meter_count self)) (f64_of elapsed) in
    {| meter_count := 0; start_time := start_time self; last_tick := now; one_min_rate := moved (one_min_rate self) rate 60;
       five_min_rate := moved (five_min_rate self) rate 300; fifteen_min_rate := moved (fifteen_min_rate self) rate 900;
       tick_interval := tick_interval self |}
  else self.

Definition mark_n (self : Meter) (n now : Z) : exec Meter :=
  let! count := add_u64 (meter_count self) n in
  Done (update_rates {| meter_count := count; start_time := start_time self; last_tick := last_tick self; one_min_rate := one_min_rate self;
    five_min_rate := five_min_rate self; fifteen_min_rate := fifteen_min_rate self; tick_interval := tick_interval self |} now).

Definition mark (self : Meter) (now : Z) : exec Meter := mark_n self 1 now.
End Meter.

Definition mean_rate (self : Meter) (now : Z) : float :=
  let uptime := seconds_since now (start_time self) in
  if uptime =? 0 then S754_zero false else f64_div (f64_of (meter_count self)) (f64_of uptime).

(** ** Histograms *)

Record Histogram : Type := {
  hist_count : Z;
  hist_sum : float;
  hist_min : float;
  hist_max : float;
  hist_mean : float;
  variance : float;
  std_dev : float;
  samples : list float;
  max_samples : Z;
}.

Definition F64_MAX : float := S754_finite false 9007199254740991 971.
Definition F64_MIN : float := S754_finite true 9007199254740991 971.

Definition new_histogram (max : Z) : Histogram :=
  {| hist_count := 0; hist_sum := S754_zero false; hist_min := F64_MAX; hist_max := F64_MIN; hist_mean := S754_zero false;
     variance := S754_zero false; std_dev := S754_zero false; samples := []; max_samples := max |}.

(** [Vec::remove(0)]. *)
Definition remove_first (l : list float) : exec (list float) := match l with [] => Panic | _ :: l => Done l end.

Definition hist_update (self : Histogram) (value : float) : exec Histogram :=
  let! count := add_u64 (hist_count self) 1 in
  let old_mean := hist_mean self in
  let mean := f64_add old_mean (f64_div (f64_sub value old_mean) (f64_of count)) in
  let s := f64_mul (f64_sub value old_mean) (f64_sub value mean) in
  let! before := sub_u64 count 1 in
  let var := f64_div (f64_add (f64_mul (variance self) (f64_of before)) s) (f64_of count) in
  let! kept := (if max_samples self <=? zlen (samples self) then remove_first (samples self) else Done (samples self)) in
  Done {| hist_count := count; hist_sum := f64_add (hist_sum self) value; hist_min := float_min (hist_min self) value;
          hist_max := float_max (hist_max self) value; hist_mean := mean; variance := var; std_dev := f64_sqrt var;
          samples := kept ++ [value]; max_samples := max_samples self |}.

(** The stable sort of [sort_by], which compares a NaN as equal to everything;
    with a NaN the order is not specified. *)
Fixpoint insert_sample (x : float) (l : list float) : list float :=
  match l with
  | [] => [x]
  | y :: l => if float_lt y x then y :: insert_sample x l else x :: y :: l
  end.

Definition sort_samples (l : list float) : list float := fold_right insert_sample [] l.

(** [x.round() as usize]: halves away from zero. *)
Definition round_to_usize (x : float) : Z :=
  match x with
  | S754_nan | S754_zero _ | S754_infinity true | S754_finite true _ _ => 0
  | S754_infinity false => u64_max
  | S754_finite false m e => Z.min u64_max (if 0 <=? e then Zpos m * 2 ^ e else (2 * Zpos m + 2 ^ (- e)) / (2 * 2 ^ (- e)))
  end.

Definition sample_index (p : float) (n : Z) : Z := Z.min (round_to_usize (f64_mul p (f64_of (n - 1)))) (n - 1).

Definition percentile (self : Histogram) (p : float) : exec (option float) :=
  match samples self with
  | [] => Done None
  | _ => let sorted := sort_samples (samples self) in let! x := index sorted (sample_index p (zlen sorted)) in Done (Some x)
  end.

Definition median (self : Histogram) : exec (option float) := percentile self (f64_lit 1 2).
Definition p75 (self : Histogram) : exec (option float) := percentile self (f64_lit 3 4).
Definition p95 (self : Histogram) : exec (option float) := percentile self (f64_lit 95 100).
Definition p99 (self : Histogram) : exec (option float) := percentile self (f64_lit 99 100).

(** ** What a histogram tells *)

Definition below (x : float) (l : list float) : Z := zlen (List.filter (fun y => float_lt y x) l).
Definition up_to (x : float) (l : list float) : Z := zlen (List.filter (fun y => negb (float_lt x y)) l).

Definition no_nan (l : list float) : Prop := Forall (fun x => is_nan x = false) l.

(** In order: nothing is less than what comes before it. *)
Definition in_order (l : list float) : Prop := StronglySorted (fun a b => float_lt b a = false) l.

Lemma insert_sample_perm x l : insert_sample x l ≡ₚ x :: l.
Proof.
  induction l as [|y l IH]; [done|]. cbn. destruct (float_lt y x); [|done]. rewrite IH. apply Permutation_swap.
Qed.

Lemma sort_samples_perm l : sort_samples l ≡ₚ l.
Proof. unfold sort_samples. induction l as [|x l IH]; [done|]. cbn. by rewrite insert_sample_perm, IH. Qed.

Lemma insert_in_order x l : is_nan x = false -> no_nan l -> in_order l -> in_order (insert_sample x l).
Proof.
  intros Hx Hl Hs. induction Hs as [|y l Hs IH Hy]; [by repeat constructor|]. cbn. apply list.Forall_cons in Hl as [Hny Hl].
  destruct (float_lt y x) eqn:Hyx.
  - constructor; [by apply IH|]. rewrite insert_sample_perm. constructor; [by apply float_lt_asym|done].
  - constructor; [by constructor|]. constructor; [done|]. unfold no_nan in Hl. rewrite list.Forall_forall in Hy, Hl |- *. intros z Hz.
    specialize (Hy z Hz). specialize (Hl z Hz). apply not_true_iff_false. intros Hzx.
    enough (float_lt z y = true) by congruence. by apply (float_lt_trans z x y).
Qed.

Lemma sort_in_order l : no_nan l -> in_order (sort_samples l).
Proof.
  intros Hl. unfold sort_samples. induction Hl as [|x l Hx Hl IH]; [constructor|]. cbn. apply insert_in_order; [done| |done].
  unfold no_nan. by rewrite (sort_samples_perm l).
Qed.

Lemma filter_perm (p : float -> bool) a b : a ≡ₚ b -> zlen (List.filter p a) = zlen (List.filter p b).
Proof.
  induction 1 as [|x a b _ IH|x y a|a b c _ IH1 _ IH2]; cbn; [done|destruct (p x); zlia|destruct (p x), (p y); zlia|congruence].
Qed.

Lemma filter_all (p : float -> bool) l : (forall x, x ∈ l -> p x = true) -> List.filter p l = l.
Proof.
  induction l as [|x l IH]; [done|]. intros Hp. cbn. rewrite Hp by by left. f_equal. apply IH. intros y Hy. apply Hp. by right.
Qed.

Lemma filter_none (p : float -> bool) l : (forall x, x ∈ l -> p x = false) -> List.filter p l = [].
Proof.
  induction l as [|x l IH]; [done|]. intros Hp. cbn. rewrite Hp by by left. apply IH. intros y Hy. apply Hp. by right.
Qed.

(** In a list in order an element has fewer below it than its place says, and
    at least as many up to it. *)
Lemma in_order_place l i x : in_order l -> l !! i = Some x -> below x l <= Z.of_nat i < up_to x l.
Proof.
  intros Hs. revert i. induction Hs as [|y l Hs IH Hy]; intros [|i] Hi; cbn in Hi; try done; unfold below, up_to in *; cbn [List.filter].
  - injection Hi as ->. rewrite float_lt_irrefl. cbn [negb]. rewrite filter_none by (intros z Hz; rewrite list.Forall_forall in Hy; by apply Hy).
    pose proof (zlen_nonneg (List.filter (fun y => negb (float_lt x y)) l)). zlia.
  - assert (Hxy : float_lt x y = false) by (rewrite list.Forall_forall in Hy; apply Hy; by eapply list_elem_of_lookup_2).
    rewrite Hxy. cbn [negb]. specialize (IH i Hi). destruct (float_lt y x); zlia.
Qed.

Lemma percentile_nonempty self p : samples self <> [] -> percentile self p =
  let! x := index (sort_samples (samples self)) (sample_index p (zlen (sort_samples (samples self)))) in Done (Some x).
Proof. unfold percentile. by destruct (samples self). Qed.

(** A percentile is an order statistic of the samples kept: an element whose
    place among them is the one asked for. *)
Theorem percentile_is_order_statistic self p : samples self <> [] -> no_nan (samples self) ->
  let i := sample_index p (zlen (samples self)) in
  exists x, percentile self p = Done (Some x) /\ x ∈ samples self /\ below x (samples self) <= i < up_to x (samples self).
Proof.
  intros Hne Hn i. rewrite percentile_nonempty by done. pose proof (sort_samples_perm (samples self)) as Hp. set (sorted := sort_samples (samples self)) in *.
  assert (Hlen : zlen sorted = zlen (samples self)) by (unfold zlen; by rewrite Hp).
  rewrite Hlen. fold i. assert (Hpos : 0 < zlen (samples self)) by (destruct (samples self); [done|]; by zlia).
  assert (Hi : 0 <= i < zlen sorted).
  { unfold i, sample_index. assert (0 <= round_to_usize (f64_mul p (f64_of (zlen (samples self) - 1)))).
    { unfold round_to_usize. destruct (f64_mul p _) as [[]|[]| |[] m e]; try (unfold u64_max; lia). apply Z.min_glb; [unfold u64_max; lia|].
      destruct (Z.leb_spec 0 e); [pose proof (Z.pow_nonneg 2 e); nia|]. apply Z.div_pos; [pose proof (Z.pow_nonneg 2 (- e)); lia|].
      pose proof (Z.pow_pos_nonneg 2 (- e)). lia. }
    lia. }
  destruct (lookup_lt_is_Some_2 sorted (Z.to_nat i)) as [x Hx]; [unfold zlen in Hi; lia|].
  assert (Hidx : index sorted i = Done x) by (unfold index; destruct (Z.leb_spec 0 i); [by rewrite Hx|lia]).
  rewrite Hidx. cbn [exec_bind]. exists x. split; [done|]. split; [rewrite <- Hp; by eapply list_elem_of_lookup_2|].
  unfold below, up_to. rewrite <- !(filter_perm _ _ _ Hp).
  pose proof (in_order_place sorted (Z.to_nat i) x (sort_in_order _ Hn) Hx) as Hpl. unfold below, up_to in Hpl. lia.
Qed.

Lemma float_min_below a b x : is_nan a = false -> is_nan b = false -> is_nan x = false ->
  float_lt x a = false \/ x = b -> float_lt x (float_min a b) = false.
Proof.
  intros Ha Hb Hx Hor. unfold float_min. rewrite Ha, Hb. destruct (float_lt b a) eqn:Hba.
  - destruct Hor as [Hxa| ->]; [|apply float_lt_irrefl]. apply not_true_iff_false. intros Hxb.
    enough (float_lt x a = true) by congruence. apply (float_lt_trans x b a); try done. by apply float_lt_asym.
  - by destruct Hor as [?| ->].
Qed.

Lemma float_max_above a b x : is_nan a = false -> is_nan b = false -> is_nan x = false ->
  float_lt a x = false \/ x = b -> float_lt (float_max a b) x = false.
Proof.
  intros Ha Hb Hx Hor. unfold float_max. rewrite Ha, Hb. destruct (float_lt a b) eqn:Hba.
  - destruct Hor as [Hxa| ->]; [|apply float_lt_irrefl]. apply not_true_iff_false. intros Hxb.
    enough (float_lt a x = true) by congruence. by apply (float_lt_trans a b x); [| | | |apply float_lt_asym].
  - by destruct Hor as [?| ->].
Qed.

(** A histogram that was given [vs]. *)
Record holds (max : Z) (vs : list float) (h : Histogram) : Prop := {
  holds_max : max_samples h = max;
  holds_count : hist_count h = zlen vs;
  holds_samples : samples h = last_n (Z.to_nat max) vs;
  holds_nan : no_nan vs -> is_nan (hist_min h) = false /\ is_nan (hist_max h) = false;
  holds_bounds : no_nan vs -> forall v, v ∈ vs -> float_lt v (hist_min h) = false /\ float_lt (hist_max h) v = false;
}.

Lemma last_n_short {A} n (l : list A) : (length l <= n)%nat -> last_n n l = l.
Proof. intros Hl. unfold last_n. by replace (length l - n)%nat with 0%nat by lia. Qed.

Lemma update_samples max vs v : 0 < max ->
  (if max <=? zlen (last_n (Z.to_nat max) vs) then remove_first (last_n (Z.to_nat max) vs) else Done (last_n (Z.to_nat max) vs))
  = Done (last_n (Z.to_nat max - 1) vs) /\ last_n (Z.to_nat max) (vs ++ [v]) = last_n (Z.to_nat max - 1) vs ++ [v].
Proof.
  intros Hmax. set (n := Z.to_nat max). unfold last_n. split.
  - destruct (Z.leb_spec max (zlen (drop (length vs - n) vs))) as [Hle|Hlt]; unfold zlen in *; rewrite length_drop in *.
    + destruct (drop (length vs - n) vs) as [|x l] eqn:Hd; [apply (f_equal length) in Hd; rewrite length_drop in Hd; cbn in Hd; lia|].
      cbn. f_equal. replace (length vs - (n - 1))%nat with (length vs - n + 1)%nat by lia. by rewrite <- drop_drop, Hd.
    + replace (length vs - (n - 1))%nat with 0%nat by lia. by replace (length vs - n)%nat with 0%nat by lia.
  - rewrite length_app. cbn [length]. destruct (decide (length vs < n)%nat).
    + replace (length vs + 1 - n)%nat with 0%nat by lia. by replace (length vs - (n - 1))%nat with 0%nat by lia.
    + rewrite drop_app_le by lia. do 2 f_equal. lia.
Qed.

Lemma hist_update_holds max vs h v : 0 < max -> holds max vs h -> zlen vs + 1 <= u64_max ->
  exists h', hist_update h v = Done h' /\ holds max (vs ++ [v]) h'.
Proof.
  intros Hmax [Hm Hc Hs Hn Hb] Hl. pose proof (zlen_nonneg vs). destruct (update_samples max vs v Hmax) as [Hrem Happ].
  unfold hist_update, add_u64, sub_u64. rewrite Hc, checked_done by lia. cbn [exec_bind]. rewrite checked_done by (unfold u64_max in *; lia).
  cbn [exec_bind]. rewrite Hm, Hs, Hrem. cbn [exec_bind]. eexists. split; [reflexivity|]. split; cbn [max_samples hist_count samples hist_min hist_max].
  - done.
  - by zlia.
  - by rewrite Happ.
  - intros [Hvs Hv]%list.Forall_app. apply Forall_inv in Hv. destruct (Hn Hvs) as [Hn1 Hn2]. unfold float_min, float_max. rewrite Hn1, Hn2, Hv. by repeat case_match.
  - intros [Hvs Hv]%list.Forall_app. apply Forall_inv in Hv. destruct (Hn Hvs) as [Hn1 Hn2]. intros x [Hx|Hx%list_elem_of_singleton]%elem_of_app; [|subst x].
    + assert (Hnx : is_nan x = false) by (unfold no_nan in Hvs; rewrite list.Forall_forall in Hvs; by apply Hvs). destruct (Hb Hvs x Hx).
      split; [apply float_min_below|apply float_max_above]; auto.
    + split; [apply float_min_below|apply float_max_above]; auto.
Qed.

Lemma hist_runs max vs : forall before h, 0 < max -> holds max before h -> zlen (before ++ vs) <= u64_max ->
  exists h', for_each hist_update vs h = Done h' /\ holds max (before ++ vs) h'.
Proof.
  induction vs as [|v vs IH]; intros before h Hmax Hh Hl; [exists h; by rewrite app_nil_r|].
  destruct (hist_update_holds max before h v Hmax Hh) as (h1 & H1 & Hh1); [pose proof (zlen_nonneg vs); zlia|].
  cbn [for_each]. rewrite H1. cbn [exec_bind]. destruct (IH (before ++ [v]) h1 Hmax Hh1) as (h2 & H2 & Hh2); rewrite <- ?app_assoc; [done|].
  exists h2. by rewrite <- app_assoc in Hh2.
Qed.

(** A histogram keeps the last samples, as many as it was made for, with the
    count and, unless one was NaN, bounds of all values. One that is made for
    none panics at its first value. *)
Theorem histogram_window max vs : zlen vs <= u64_max ->
  if 0 <? max then
    exists h, for_each hist_update vs (new_histogram max) = Done h /\ hist_count h = zlen vs /\ samples h = last_n (Z.to_nat max) vs /\
      (no_nan vs -> forall v, v ∈ vs -> float_lt v (hist_min h) = false /\ float_lt (hist_max h) v = false)
  else for_each hist_update vs (new_histogram max) = match vs with [] => Done (new_histogram max) | _ => Panic end.
Proof.
  intros Hl. destruct (Z.ltb_spec 0 max) as [Hmax|Hmax].
  - destruct (hist_runs max vs [] (new_histogram max) Hmax) as (h & Hr & [_ Hc Hs _ Hb]); [|done|by exists h].
    split; try done. intros _ v Hv. by apply not_elem_of_nil in Hv.
  - destruct vs as [|v vs]; [done|]. cbn [for_each]. unfold hist_update, add_u64, sub_u64. cbn [new_histogram hist_count hist_mean max_samples samples].
    rewrite checked_done by (unfold u64_max; lia). cbn [exec_bind]. rewrite checked_done by (unfold u64_max; lia). cbn [exec_bind].
    change (zlen (@nil float)) with 0. destruct (Z.leb_spec max 0); [done|lia].
Qed.

(** ** The registry *)

Inductive Metric : Type :=
| CounterMetric (c : Counter)
| GaugeMetric (g : Gauge)
| MeterMetric (m : Meter)
| HistogramMetric (h : Histogram).

Abbreviation MetricRegistry := (gmap rstring Metric).

(** What is registered is a copy: the caller gets another. *)
Definition register_counter (self : MetricRegistry) (name : rstring) : MetricRegistry * Counter := (<[name := CounterMetric new_counter]> self, new_counter).
Definition register_gauge (self : MetricRegistry) (name : rstring) : MetricRegistry * Gauge := (<[name := GaugeMetric new_gauge]> self, new_gauge).
Definition register_meter (self : MetricRegistry) (name : rstring) (now : Z) : MetricRegistry * Meter :=
  (<[name := MeterMetric (new_meter now)]> self, new_meter now).
Definition register_histogram (self : MetricRegistry) (name : rstring) (max : Z) : MetricRegistry * Histogram :=
  (<[name := HistogramMetric (new_histogram max)]> self, new_histogram max).
Definition registry_get (self : MetricRegistry) (name : rstring) : option Metric := self !! name.
Definition registry_remove (self : MetricRegistry) (name : rstring) : MetricRegistry * bool :=
  (delete name self, bool_decide (is_Some (self !! name))).

Record OverlayMetrics : Type := {
  registry : MetricRegistry;
  connection_counter : Counter;
  message_counter : Counter;
  chunk_counter : Counter;
  peers_gauge : Gauge;
  streams_gauge : Gauge;
  connection_failures : Counter;
  message_rate : Meter;
  chunk_rate : Meter;
  relay_latency : Histogram;
  chunk_size : Histogram;
}.

Definition new_overlay_metrics (now1 now2 : Z) : OverlayMetrics :=
  let '(r, connection_counter) := register_counter ∅ (str "overlay.connections") in
  let '(r, message_counter) := register_counter r (str "overlay.messages") in
  let '(r, chunk_counter) := register_counter r (str "overlay.chunks") in
  let '(r, peers_gauge) := register_gauge r (str "overlay.peers") in
  let '(r, streams_gauge) := register_gauge r (str "overlay.streams") in
  let '(r, connection_failures) := register_counter r (str "overlay.connection_failures") in
  let '(r, message_rate) := register_meter r (str "overlay.message_rate") now1 in
  let '(r, chunk_rate) := register_meter r (str "overlay.chunk_rate") now2 in
  let '(r, relay_latency) := register_histogram r (str "overlay.relay_latency") 1000 in
  let '(r, chunk_size) := register_histogram r (str "overlay.chunk_size") 1000 in
  {| registry := r; connection_counter := connection_counter; message_counter := message_counter; chunk_counter := chunk_counter;
     peers_gauge := peers_gauge; streams_gauge := streams_gauge; connection_failures := connection_failures; message_rate := message_rate;
     chunk_rate := chunk_rate; relay_latency := relay_latency; chunk_size := chunk_size |}.

Section Report.
Context `{!HashOrder rstring} (two_places : float -> rstring).

Definition newline : rstring := [10].

Definition line (name suffix value : rstring) : rstring := name ++ suffix ++ str " = " ++ value ++ newline.

Definition percentile_line (name suffix : rstring) (x : exec (option float)) : exec rstring :=
  let! x := x in Done (match x with Some x => line name suffix (two_places x) | None => [] end).

Definition metric_lines (name : rstring) (m : Metric) : exec rstring :=
  match m with
  | CounterMetric c => Done (line name [] (decimal (counter_value c)))
  | GaugeMetric g => Done (line name [] (two_places (gauge_value g)))
  | MeterMetric m =>
      Done (line name (str ".rate_1m") (two_places (one_min_rate m)) ++ line name (str ".rate_5m") (two_places (five_min_rate m))
        ++ line name (str ".rate_15m") (two_places (fifteen_min_rate m)))
  | HistogramMetric h =>
      if 0 <? hist_count h then
        let! l50 := percentile_line name (str ".p50") (median h) in
        let! l95 := percentile_line name (str ".p95") (p95 h) in
        let! l99 := percentile_line name (str ".p99") (p99 h) in
        Done (line name (str ".count") (decimal (hist_count h)) ++ line name (str ".min") (two_places (hist_min h))
          ++ line name (str ".mean") (two_places (hist_mean h)) ++ line name (str ".max") (two_places (hist_max h)) ++ l50 ++ l95 ++ l99)
      else Done []
  end.

Definition report (self : OverlayMetrics) : exec rstring :=
  for_each (fun text e => let! lines := metric_lines (fst e) (snd e) in Done (text ++ lines)) (map_iter (registry self)) [].
End Report.

(** ** What the report tells *)

(** Uses of the public fields. *)
Inductive metrics_use : Type :=
| CountConnections (n : Z)
| CountMessages (n : Z)
| CountChunks (n : Z)
| SetPeers (v : float)
| SetStreams (v : float)
| CountFailures (n : Z)
| MarkMessages (n now : Z)
| MarkChunks (n now : Z)
| RelayLatency (v : float)
| ChunkSize (v : float).

Section Uses.
Context (f64_exp : float -> float).

Definition use_metrics (m : OverlayMetrics) (u : metrics_use) : exec OverlayMetrics :=
  let '{| registry := r; connection_counter := c1; message_counter := c2; chunk_counter := c3; peers_gauge := g1; streams_gauge := g2;
          connection_failures := c4; message_rate := m1; chunk_rate := m2; relay_latency := h1; chunk_size := h2 |} := m in
  match u with
  | CountConnections n => let! c1 := counter_add c1 n in Done (Build_OverlayMetrics r c1 c2 c3 g1 g2 c4 m1 m2 h1 h2)
  | CountMessages n => let! c2 := counter_add c2 n in Done (Build_OverlayMetrics r c1 c2 c3 g1 g2 c4 m1 m2 h1 h2)
  | CountChunks n => let! c3 := counter_add c3 n in Done (Build_OverlayMetrics r c1 c2 c3 g1 g2 c4 m1 m2 h1 h2)
  | SetPeers v => Done (Build_OverlayMetrics r c1 c2 c3 (gauge_set g1 v) g2 c4 m1 m2 h1 h2)
  | SetStreams v => Done (Build_OverlayMetrics r c1 c2 c3 g1 (gauge_set g2 v) c4 m1 m2 h1 h2)
  | CountFailures n => let! c4 := counter_add c4 n in Done (Build_OverlayMetrics r c1 c2 c3 g1 g2 c4 m1 m2 h1 h2)
  | MarkMessages n now => let! m1 := mark_n f64_exp m1 n now in Done (Build_OverlayMetrics r c1 c2 c3 g1 g2 c4 m1 m2 h1 h2)
  | MarkChunks n now => let! m2 := mark_n f64_exp m2 n now in Done (Build_OverlayMetrics r c1 c2 c3 g1 g2 c4 m1 m2 h1 h2)
  | RelayLatency v => let! h1 := hist_update h1 v in Done (Build_OverlayMetrics r c1 c2 c3 g1 g2 c4 m1 m2 h1 h2)
  | ChunkSize v => let! h2 := hist_update h2 v in Done (Build_OverlayMetrics r c1 c2 c3 g1 g2 c4 m1 m2 h1 h2)
  end.

Lemma use_keeps_registry u m m' : use_metrics m u = Done m' -> registry m' = registry m.
Proof.
  destruct m, u; cbn; intros Hu; try (by injection Hu as <-);
    match type of Hu with exec_bind ?x _ = _ => destruct x; try done end; by injection Hu as <-.
Qed.

Lemma uses_keep_registry us : forall m m', for_each use_metrics us m = Done m' -> registry m' = registry m.
Proof.
  induction us as [|u us IH]; cbn; intros m m' Hr; [by injection Hr as <-|].
  destruct (use_metrics m u) as [m1| |] eqn:Hu; try done. rewrite (IH m1 m' Hr). by eapply use_keeps_registry.
Qed.

Context `{!HashOrder rstring} (two_places : float -> rstring).

Definition zero_line (name : string) : rstring := line (str name) [] (str "0").
Definition zero_gauge (name : string) : rstring := line (str name) [] (two_places (S754_zero false)).
Definition zero_meter (name : string) : rstring :=
  line (str name) (str ".rate_1m") (two_places (S754_zero false)) ++ line (str name) (str ".rate_5m") (two_places (S754_zero false))
    ++ line (str name) (str ".rate_15m") (two_places (S754_zero false)).

(** Zero for each counter, gauge and meter, and nothing for a histogram. *)
Definition fresh_texts : list rstring :=
  [zero_line "overlay.connections"; zero_line "overlay.messages"; zero_line "overlay.chunks"; zero_gauge "overlay.peers"; zero_gauge "overlay.streams";
   zero_line "overlay.connection_failures"; zero_meter "overlay.message_rate"; zero_meter "overlay.chunk_rate"; []; []].

Definition fresh_registry (now1 now2 : Z) : list (rstring * Metric) :=
  [(str "overlay.chunk_size", HistogramMetric (new_histogram 1000)); (str "overlay.relay_latency", HistogramMetric (new_histogram 1000));
   (str "overlay.chunk_rate", MeterMetric (new_meter now2)); (str "overlay.message_rate", MeterMetric (new_meter now1));
   (str "overlay.connection_failures", CounterMetric new_counter); (str "overlay.streams", GaugeMetric new_gauge);
   (str "overlay.peers", GaugeMetric new_gauge); (str "overlay.chunks", CounterMetric new_counter);
   (str "overlay.messages", CounterMetric new_counter); (str "overlay.connections", CounterMetric new_counter)].

Lemma fresh_entries now1 now2 : map_iter (registry (new_overlay_metrics now1 now2)) ≡ₚ fresh_registry now1 now2.
Proof.
  rewrite map_iter_perm. change (registry (new_overlay_metrics now1 now2)) with (list_to_map (fresh_registry now1 now2) : gmap rstring Metric).
  apply map_to_list_to_map. apply (bool_decide_unpack (NoDup (fresh_registry now1 now2).*1)). vm_compute. exact I.
Qed.

Definition metric_text (e : rstring * Metric) : rstring := match metric_lines two_places (fst e) (snd e) with Done t => t | _ => [] end.

Lemma report_concat es : forall text, Forall (fun e => exists t, metric_lines two_places (fst e) (snd e) = Done t) es ->
  for_each (fun text e => let! lines := metric_lines two_places (fst e) (snd e) in Done (text ++ lines)) es text = Done (text ++ concat (map metric_text es)).
Proof.
  induction es as [|e es IH]; intros text Hes; [cbn; by rewrite app_nil_r|]. apply list.Forall_cons in Hes as [[t Ht] Hes].
  cbn [for_each map concat]. unfold metric_text at 1. rewrite Ht. cbn [exec_bind]. by rewrite IH, app_assoc.
Qed.

(** Whatever is counted, set, marked and measured, the report tells zeros: what
    the registry holds are copies of the metrics as they were made. *)
Theorem report_is_blind now1 now2 uses m : for_each use_metrics uses (new_overlay_metrics now1 now2) = Done m ->
  exists texts, report two_places m = Done (concat texts) /\ texts ≡ₚ fresh_texts.
Proof.
  intros Hr. apply uses_keep_registry in Hr. unfold report. rewrite Hr. pose proof (fresh_entries now1 now2) as Hp.
  exists (map metric_text (map_iter (registry (new_overlay_metrics now1 now2)))). split.
  - rewrite report_concat; [done|]. rewrite Hp. by repeat constructor; eexists.
  - rewrite (Permutation_map metric_text Hp). symmetry. apply (Permutation_rev fresh_texts).
Qed.
End Uses.

(** After a tick the mean rate is zero, whatever was marked. *)
Example mean_rate_forgets f64_exp : exists m, mark_n f64_exp (new_meter 0) 1000 (5 * second) = Done m /\ mean_rate m (5 * second) = S754_zero false.
Proof. eexists. split; [reflexivity|]. vm_compute. reflexivity. Qed.

(** ** Concrete runs *)

Definition demo_values : list float := [f64_of 5; f64_of 1; f64_of 4; f64_of 2].

Lemma histogram_window_witness : zlen demo_values <= u64_max /\
  exists h, for_each hist_update demo_values (new_histogram 3) = Done h /\ samples h = [f64_of 1; f64_of 4; f64_of 2].
Proof.
  assert (Hl : zlen demo_values <= u64_max) by (vm_compute; discriminate). split; [exact Hl|].
  destruct (histogram_window 3 demo_values Hl) as (h & Hr & _ & Hs & _). exists h. split; [exact Hr|exact Hs].
Defined.

Definition demo_histogram : Histogram :=
  match for_each hist_update demo_values (new_histogram 3) with Done h => h | _ => new_histogram 3 end.

Lemma percentile_is_order_statistic_witness : exists x, median demo_histogram = Done (Some x) /\ x ∈ samples demo_histogram /\
  below x (samples demo_histogram) <= 1 < up_to x (samples demo_histogram).
Proof.
  assert (Hne : samples demo_histogram <> []) by (vm_compute; discriminate).
  assert (Hn : no_nan (samples demo_histogram)) by (vm_compute; repeat constructor).
  assert (Hi : sample_index (f64_lit 1 2) (zlen (samples demo_histogram)) = 1) by (vm_compute; reflexivity).
  destruct (percentile_is_order_statistic demo_histogram (f64_lit 1 2) Hne Hn) as (x & Hp & Hx & Hb). rewrite Hi in Hb. exists x. exact (conj Hp (conj Hx Hb)).
Defined.

Example demo_median : median demo_histogram = Done (Some (f64_of 2)).
Proof. vm_compute. reflexivity. Qed.

Lemma report_is_blind_witness : exists m texts,
  for_each (use_metrics (fun x => x)) [CountMessages 7; SetPeers (f64_of 3); RelayLatency (f64_of 9)] (new_overlay_metrics 0 0) = Done m /\
  counter_value (message_counter m) = 7 /\ report (fun _ => str "0.00") m = Done (concat texts) /\ texts ≡ₚ fresh_texts (fun _ => str "0.00").
Proof.
  destruct (for_each (use_metrics (fun x => x)) [CountMessages 7; SetPeers (f64_of 3); RelayLatency (f64_of 9)] (new_overlay_metrics 0 0)) as [m| |] eqn:Hr;
    [|vm_compute in Hr; discriminate Hr..].
  destruct (report_is_blind (fun x => x) (fun _ => str "0.00") 0 0 _ m Hr) as (texts & Ht & Hp). exists m, texts.
  split; [reflexivity|]. split; [|exact (conj Ht Hp)]. vm_compute in Hr. injection Hr as <-. reflexivity.
Defined.
