(* ===== verification/Codec.v ===== *)
(** * Codecs

    Models [core/src/media/codec.rs]: the conversion of frames from YUV to RGB,
    what surrounds the H.264 and Opus libraries, and the registry. The
    libraries are parameters. *)

From Stdlib Require Import SpecFloat.
From S2P Require Import Prelude Rust Float Hash.

#[local] Open Scope Z_scope.

Inductive CodecError : Type :=
| OpenH264Error
| OpusError
| General (message : rstring)
| EncodingFailed (message : rstring)
| DecodingFailed (message : rstring)
| InvalidParameters.

(** ** From YUV to RGB *)

(** [x as i32] of an [f32]. *)
Definition float_to_i32 (x : float) : Z :=
  match x with
  | S754_nan | S754_zero _ => 0
  | S754_infinity s => if s then - 2 ^ 31 else 2 ^ 31 - 1
  | S754_finite s m e =>
      let n := if 0 <=? e then Zpos m * 2 ^ e else Zpos m / 2 ^ (- e) in
      if s then Z.max (- 2 ^ 31) (- n) else Z.min (2 ^ 31 - 1) n
  end.

Definition i32_result (x : Z) : exec Z := if (- 2 ^ 31 <=? x) && (x <? 2 ^ 31) then Done x else Panic.

(** [(coefficient * x as f32) as i32]. *)
Definition scaled (thousandths x : Z) : Z := float_to_i32 (f32_mul (f32_lit thousandths 1000) (f32_of x)).

Definition clamp_byte (x : Z) : Z := Z.max 0 (Z.min 255 x).

Definition rgb_pixel (y u v : Z) : exec (list Z) :=
  let! u := i32_result (u - 128) in
  let! v := i32_result (v - 128) in
  let! r := i32_result (y + scaled 1402 v) in
  let! g := i32_result (y - scaled 344 u) in
  let! g := i32_result (g - scaled 714 v) in
  let! b := i32_result (y + scaled 1772 u) in
  Done [clamp_byte r; clamp_byte g; clamp_byte b].

(** The indices of a pixel and of its chroma sample. *)
Definition y_index (width row col : Z) : Z := row * width + col.
Definition uv_index (width row col : Z) : Z := row / 2 * (width / 2) + col / 2.

(** A round of the inner loop; the error leaves both. *)
Definition pixel_round (y_plane u_plane v_plane : bytes) (width row : Z) (st : result (list Z) CodecError) (col : Z) : exec (result (list Z) CodecError) :=
  match st with
  | RErr e => Done (RErr e)
  | ROk rgb =>
      let y_idx := y_index width row col in
      let uv_idx := uv_index width row col in
      if (zlen y_plane <=? y_idx) || (zlen u_plane <=? uv_idx) || (zlen v_plane <=? uv_idx) then Done (RErr InvalidParameters)
      else
        let! y := index y_plane y_idx in
        let! u := index u_plane uv_idx in
        let! v := index v_plane uv_idx in
        let! p := rgb_pixel y u v in
        Done (ROk (rgb ++ p))
  end.

Definition row_round (y_plane u_plane v_plane : bytes) (width : Z) (st : result (list Z) CodecError) (row : Z) : exec (result (list Z) CodecError) :=
  for_each (pixel_round y_plane u_plane v_plane width row) (seqZ 0 width) st.

Definition yuv420p_to_rgb24 (y_plane u_plane v_plane : bytes) (width height : Z) : exec (result (list Z) CodecError) :=
  let! size := mul_u64 width height in
  let! size := mul_u64 size 3 in
  let! _ := alloc size in
  for_each (row_round y_plane u_plane v_plane width) (seqZ 0 height) (ROk []).

(** ** H.264 *)

Section H264.
Context {Encoder Decoder : Type}.

(** [Encoder::with_config], [encode] of an RGB picture of a size,
    [Decoder::new], and [decode], which gives planes when a picture is ready. *)
Context (make_encoder : Z -> Z -> option Encoder) (encode_rgb : Encoder -> Z -> Z -> list Z -> option (Encoder * bytes))
  (make_decoder : option Decoder) (decode_h264 : Decoder -> bytes -> Decoder * option (option (bytes * bytes * bytes))).

Record OpenH264Codec : Type := {
  h264_encoder : option (Encoder * Z);
  h264_decoder : option (Decoder * Z);
  width : Z;
  height : Z;
}.

Definition with_dimensions (w h : Z) : OpenH264Codec := {| h264_encoder := None; h264_decoder := None; width := w; height := h |}.

Definition h264_init_encoder (self : OpenH264Codec) : OpenH264Codec * result unit CodecError :=
  match make_encoder (width self) (height self) with
  | Some e => ({| h264_encoder := Some (e, 0); h264_decoder := h264_decoder self; width := width self; height := height self |}, ROk tt)
  | None => (self, RErr OpenH264Error)
  end.

Definition h264_init_decoder (self : OpenH264Codec) : OpenH264Codec * result unit CodecError :=
  match make_decoder with
  | Some d => ({| h264_encoder := h264_encoder self; h264_decoder := Some (d, 0); width := width self; height := height self |}, ROk tt)
  | None => (self, RErr OpenH264Error)
  end.

(** The picture of a frame. *)
Definition h264_picture (self : OpenH264Codec) (frame : bytes) : exec (result (list Z) CodecError) :=
  let! area := mul_u32 (width self) (height self) in
  let! area3 := mul_u32 area 3 in
  if negb (zlen frame =? area3 / 2) then Done (RErr InvalidParameters)
  else
    let y_size := area in
    let uv_size := y_size / 4 in
    let! y_plane := slice frame 0 y_size in
    let! u_plane := slice frame y_size (y_size + uv_size) in
    let! v_plane := slice frame (y_size + uv_size) (y_size + uv_size * 2) in
    yuv420p_to_rgb24 y_plane u_plane v_plane (width self) (height self).

Definition h264_encode (self : OpenH264Codec) (frame : bytes) : exec (OpenH264Codec * result bytes CodecError) :=
  match h264_encoder self with
  | None => Done (self, RErr (EncodingFailed (str "Encoder not initialized")))
  | Some (e, frame_count) =>
      let! r := h264_picture self frame in
      match r with
      | RErr err => Done (self, RErr err)
      | ROk rgb =>
          match encode_rgb e (width self) (height self) rgb with
          | None => Done (self, RErr OpenH264Error)
          | Some (e, data) =>
              let! n := add_u64 frame_count 1 in
              Done ({| h264_encoder := Some (e, n); h264_decoder := h264_decoder self; width := width self; height := height self |}, ROk data)
          end
      end
  end.

Definition h264_decode (self : OpenH264Codec) (data : bytes) : exec (OpenH264Codec * result bytes CodecError) :=
  match h264_decoder self with
  | None => Done (self, RErr (DecodingFailed (str "Decoder not initialized")))
  | Some (d, frame_count) =>
      let with_decoder d n := {| h264_encoder := h264_encoder self; h264_decoder := Some (d, n); width := width self; height := height self |} in
      match decode_h264 d data with
      | (d, Some (Some (y, u, v))) => let! n := add_u64 frame_count 1 in Done (with_decoder d n, ROk (y ++ u ++ v))
      | (d, Some None) => Done (with_decoder d frame_count, ROk [])
      | (d, None) => Done (with_decoder d frame_count, RErr OpenH264Error)
      end
  end.
End H264.

(** ** Opus *)

(** [i16::from_le_bytes] of each pair, and [to_le_bytes]. *)
Fixpoint i16_samples (l : bytes) : list Z :=
  match l with a :: b :: l => as_signed 16 (a + 256 * b) :: i16_samples l | _ => [] end.

Definition i16_bytes (x : Z) : bytes := [x mod 256; x / 256 mod 256].

Section Opus.
Context {Encoder Decoder : Type}.

(** [Encoder::new] and [encode]; [Decoder::new], and [decode] into a buffer,
    which tells how many samples of each channel it wrote. *)
Context (make_opus_encoder : Z -> Z -> option Encoder) (encode_opus : Encoder -> list Z -> option (Encoder * bytes))
  (make_opus_decoder : Z -> Z -> option Decoder) (decode_opus : Decoder -> bytes -> list Z -> Decoder * option (list Z * Z)).

Record OpusCodec : Type := {
  opus_encoder : option (Encoder * Z * Z);
  opus_decoder : option (Decoder * Z);
  sample_rate : Z;
  channels : Z;
}.

Definition with_params (rate n : Z) : OpusCodec := {| opus_encoder := None; opus_decoder := None; sample_rate := rate; channels := n |}.

Definition mono_or_stereo (n : Z) : bool := (n =? 1) || (n =? 2).

Definition opus_init_encoder (self : OpusCodec) : OpusCodec * result unit CodecError :=
  if mono_or_stereo (channels self) then
    match make_opus_encoder (sample_rate self) (channels self) with
    | Some e =>
        ({| opus_encoder := Some (e, sample_rate self / 50, 0); opus_decoder := opus_decoder self; sample_rate := sample_rate self;
            channels := channels self |}, ROk tt)
    | None => (self, RErr OpusError)
    end
  else (self, RErr InvalidParameters).

Definition opus_init_decoder (self : OpusCodec) : OpusCodec * result unit CodecError :=
  if mono_or_stereo (channels self) then
    match make_opus_decoder (sample_rate self) (channels self) with
    | Some d =>
        ({| opus_encoder := opus_encoder self; opus_decoder := Some (d, 0); sample_rate := sample_rate self; channels := channels self |}, ROk tt)
    | None => (self, RErr OpusError)
    end
  else (self, RErr InvalidParameters).

Definition opus_encode (self : OpusCodec) (frame : bytes) : exec (OpusCodec * result bytes CodecError) :=
  match opus_encoder self with
  | None => Done (self, RErr (EncodingFailed (str "Encoder not initialized")))
  | Some (e, frame_size, frame_count) =>
      if negb (zlen frame mod 2 =? 0) then Done (self, RErr InvalidParameters)
      else
        let samples := i16_samples frame in
        let! expected_samples := mul_u64 frame_size (channels self) in
        if negb (zlen samples =? expected_samples) then Done (self, RErr InvalidParameters)
        else
          match encode_opus e samples with
          | None => Done (self, RErr OpusError)
          | Some (e, output) =>
              let! n := add_u64 frame_count 1 in
              Done ({| opus_encoder := Some (e, frame_size, n); opus_decoder := opus_decoder self; sample_rate := sample_rate self;
                       channels := channels self |}, ROk output)
          end
  end.

Definition opus_decode (self : OpusCodec) (data : bytes) : exec (OpusCodec * result bytes CodecError) :=
  match opus_decoder self with
  | None => Done (self, RErr (DecodingFailed (str "Decoder not initialized")))
  | Some (d, frame_count) =>
      let frame_size := sample_rate self / 50 in
      let! n := mul_u64 frame_size (channels self) in
      let with_decoder d c := {| opus_encoder := opus_encoder self; opus_decoder := Some (d, c); sample_rate := sample_rate self; channels := channels self |} in
      match decode_opus d data (replicate (Z.to_nat n) 0) with
      | (d, None) => Done (with_decoder d frame_count, RErr OpusError)
      | (d, Some (output, decoded_samples)) =>
          let! kept := slice output 0 decoded_samples in
          let! c := add_u64 frame_count 1 in
          Done (with_decoder d c, ROk (concat (map i16_bytes kept)))
      end
  end.
End Opus.

(** ** The registry *)

(** What the registry looks at: the name, and which codec it is. *)
Inductive registered : Type := H264 | Opus | LegacyAudio | LegacyVideo.

Definition codec_name (c : registered) : rstring :=
  match c with H264 => str "openh264" | Opus => str "opus" | LegacyAudio => str "audio" | LegacyVideo => str "video" end.

Definition mime_type (c : registered) : rstring :=
  match c with H264 => str "video/h264" | Opus => str "audio/opus" | LegacyAudio => str "audio/raw" | LegacyVideo => str "video/raw" end.

(** The legacy codecs only tell what to use instead. *)
Definition legacy_audio_run : result bytes CodecError := RErr (General (str "Use OpusCodec instead")).
Definition legacy_video_run : result bytes CodecError := RErr (General (str "Use H264Codec instead")).

Abbreviation CodecRegistry := (gmap rstring registered).

Definition register (self : CodecRegistry) (c : registered) : CodecRegistry := <[codec_name c := c]> self.
Definition default_registry : CodecRegistry := register (register (register (register ∅ H264) Opus) LegacyAudio) LegacyVideo.
Definition registry_get (self : CodecRegistry) (name : rstring) : option registered := self !! name.
Definition registry_list `{!HashOrder rstring} (self : CodecRegistry) : list rstring := keys self.

(** ** What the conversion gives *)

(** A pixel, without the widths. *)
Definition rgb (y u v : Z) : list Z :=
  [clamp_byte (y + scaled 1402 (v - 128)); clamp_byte (y - scaled 344 (u - 128) - scaled 714 (v - 128)); clamp_byte (y + scaled 1772 (u - 128))].

Definition scale_small (k x : Z) : bool := (- 1000 <=? scaled k x) && (scaled k x <=? 1000).

Lemma scaled_bounds k x : k ∈ [1402; 344; 714; 1772] -> - 128 <= x <= 127 -> - 1000 <= scaled k x <= 1000.
Proof.
  intros Hk Hx. assert (Hall : forallb (fun k => forallb (scale_small k) (seqZ (- 128) 256)) [1402; 344; 714; 1772] = true) by (vm_compute; reflexivity).
  rewrite forallb_forall in Hall. apply list_elem_of_In in Hk. specialize (Hall k Hk). rewrite forallb_forall in Hall.
  specialize (Hall x). rewrite <- list_elem_of_In, elem_of_seqZ in Hall. specialize (Hall ltac:(lia)).
  unfold scale_small in Hall. rewrite andb_true_iff, !Z.leb_le in Hall. lia.
Qed.

Lemma i32_done x : - 2 ^ 31 <= x < 2 ^ 31 -> i32_result x = Done x.
Proof. intros Hx. unfold i32_result. by rewrite (proj2 (Z.leb_le _ _)), (proj2 (Z.ltb_lt _ _)) by lia. Qed.

(** No arithmetic on bytes overflows. *)
Lemma rgb_pixel_done y u v : is_byte y -> is_byte u -> is_byte v -> rgb_pixel y u v = Done (rgb y u v).
Proof.
  unfold is_byte. intros Hy Hu Hv. unfold rgb_pixel.
  pose proof (scaled_bounds 1402 (v - 128) ltac:(set_solver) ltac:(lia)). pose proof (scaled_bounds 344 (u - 128) ltac:(set_solver) ltac:(lia)).
  pose proof (scaled_bounds 714 (v - 128) ltac:(set_solver) ltac:(lia)). pose proof (scaled_bounds 1772 (u - 128) ltac:(set_solver) ltac:(lia)).
  rewrite (i32_done (u - 128)) by lia. cbn [exec_bind]. rewrite (i32_done (v - 128)) by lia. cbn [exec_bind].
  rewrite i32_done by lia. cbn [exec_bind]. rewrite i32_done by lia. cbn [exec_bind]. rewrite i32_done by lia. cbn [exec_bind].
  by rewrite i32_done by lia.
Qed.

(** The pixels in the order they are converted, and whether one has its samples. *)
Definition grid (width height : Z) : list (Z * Z) := flat_map (fun row => map (pair row) (seqZ 0 width)) (seqZ 0 height).

Section Planes.
Context (y_plane u_plane v_plane : bytes) (width : Z).

Definition has_samples (p : Z * Z) : bool :=
  (y_index width (fst p) (snd p) <? zlen y_plane) && (uv_index width (fst p) (snd p) <? zlen u_plane) && (uv_index width (fst p) (snd p) <? zlen v_plane).

Definition sample (plane : bytes) (i : Z) : Z := default 0 (plane !! Z.to_nat i).

Definition pixel_of (p : Z * Z) : list Z :=
  rgb (sample y_plane (y_index width (fst p) (snd p))) (sample u_plane (uv_index width (fst p) (snd p))) (sample v_plane (uv_index width (fst p) (snd p))).

(** All pixels of a list, unless one has no samples. *)
Definition pixels (ps : list (Z * Z)) (rgb : list Z) : result (list Z) CodecError :=
  if forallb has_samples ps then ROk (rgb ++ concat (map pixel_of ps)) else RErr InvalidParameters.

Context (y_bytes : Forall is_byte y_plane) (u_bytes : Forall is_byte u_plane) (v_bytes : Forall is_byte v_plane).

Lemma index_sample plane i : Forall is_byte plane -> 0 <= i < zlen plane -> index plane i = Done (sample plane i) /\ is_byte (sample plane i).
Proof.
  intros Hb Hi. destruct (lookup_lt_is_Some_2 plane (Z.to_nat i)) as [x Hx]; [unfold zlen in Hi; lia|]. unfold index, sample. rewrite Hx.
  destruct (Z.leb_spec 0 i); [|lia]. split; [done|]. by eapply Forall_lookup_1.
Qed.

Lemma pixel_round_spec row col acc : 0 <= y_index width row col -> 0 <= uv_index width row col ->
  pixel_round y_plane u_plane v_plane width row (ROk acc) col = Done (pixels [(row, col)] acc).
Proof.
  intros Hy Hu. unfold pixel_round, pixels. cbn [forallb]. unfold has_samples at 1. cbn [fst snd].
  rewrite !Z.ltb_antisym. destruct (Z.leb_spec (zlen y_plane) (y_index width row col)); [done|].
  destruct (Z.leb_spec (zlen u_plane) (uv_index width row col)); [done|]. destruct (Z.leb_spec (zlen v_plane) (uv_index width row col)); [done|].
  cbn [negb andb orb]. destruct (index_sample y_plane (y_index width row col) y_bytes) as [-> Hb1]; [lia|].
  destruct (index_sample u_plane (uv_index width row col) u_bytes) as [-> Hb2]; [lia|].
  destruct (index_sample v_plane (uv_index width row col) v_bytes) as [-> Hb3]; [lia|]. cbn [exec_bind].
  rewrite rgb_pixel_done by done. cbn [exec_bind map concat]. by rewrite app_nil_r.
Qed.

Lemma pixel_rounds_error row cols e : for_each (pixel_round y_plane u_plane v_plane width row) cols (RErr e) = Done (RErr e).
Proof. by induction cols. Qed.

Lemma pixels_cons p ps acc : pixels (p :: ps) acc = match pixels [p] acc with ROk acc => pixels ps acc | RErr e => RErr e end.
Proof.
  unfold pixels. cbn [forallb map concat]. rewrite andb_true_r. destruct (has_samples p); cbn [andb]; [|done].
  by destruct (forallb has_samples ps); [rewrite app_nil_r, app_assoc|].
Qed.

Lemma pixel_rounds_spec row cols : forall acc, Forall (fun col => 0 <= y_index width row col /\ 0 <= uv_index width row col) cols ->
  for_each (pixel_round y_plane u_plane v_plane width row) cols (ROk acc) = Done (pixels (map (pair row) cols) acc).
Proof.
  induction cols as [|col cols IH]; intros acc Hc; [cbn; unfold pixels; cbn; by rewrite app_nil_r|]. apply list.Forall_cons in Hc as [[H1 H2] Hc].
  cbn [for_each map]. rewrite pixel_round_spec by done. cbn [exec_bind]. rewrite (pixels_cons (row, col) (map (pair row) cols)). destruct (pixels [(row, col)] acc); [by apply IH|apply pixel_rounds_error].
Qed.

Lemma pixels_app ps qs acc : pixels (ps ++ qs) acc = match pixels ps acc with ROk acc => pixels qs acc | RErr e => RErr e end.
Proof.
  unfold pixels. rewrite forallb_app, map_app, concat_app. destruct (forallb has_samples ps); cbn; [|done]. by destruct (forallb has_samples qs); [rewrite app_assoc|].
Qed.

Lemma row_rounds_spec rows : forall acc, 0 <= width -> Forall (Z.le 0) rows ->
  for_each (row_round y_plane u_plane v_plane width) rows (ROk acc) = Done (pixels (flat_map (fun row => map (pair row) (seqZ 0 width)) rows) acc).
Proof.
  induction rows as [|row rows IH]; intros acc Hw Hr; [cbn; unfold pixels; cbn; by rewrite app_nil_r|]. apply list.Forall_cons in Hr as [H0 Hr].
  cbn [for_each flat_map]. unfold row_round at 1. rewrite pixel_rounds_spec.
  2:{ apply list.Forall_forall. intros col Hcol%elem_of_seqZ. unfold y_index, uv_index. split; [nia|].
      pose proof (Z.div_pos row 2). pose proof (Z.div_pos width 2). pose proof (Z.div_pos col 2). nia. }
  cbn [exec_bind]. rewrite pixels_app. destruct (pixels _ acc); [by apply IH|]. clear. induction rows; [done|]. cbn. unfold row_round at 1. by rewrite pixel_rounds_error.
Qed.

Lemma yuv_converts height : 0 <= width -> 0 <= height -> width * height * 3 <= isize_max ->
  yuv420p_to_rgb24 y_plane u_plane v_plane width height =
  Done (if forallb has_samples (grid width height) then ROk (concat (map pixel_of (grid width height))) else RErr InvalidParameters).
Proof.
  intros Hw Hh Hs. unfold yuv420p_to_rgb24, mul_u64. assert (0 <= width * height) by nia.
  rewrite checked_done by (unfold isize_max, u64_max in *; lia). cbn [exec_bind]. rewrite checked_done by (unfold isize_max, u64_max in *; lia). cbn [exec_bind].
  unfold alloc. rewrite (proj2 (Z.leb_le _ _)) by done. cbn [exec_bind]. rewrite row_rounds_spec; [done|done|].
  apply list.Forall_forall. intros row Hrow%elem_of_seqZ. lia.
Qed.
End Planes.

(** *** A picture as squares

    Every colour belongs to a square of four pixels. The planes are written row
    by row, and so is the converted picture: nothing here counts places. *)
Record Square : Type := {
  top_left : Z;
  top_right : Z;
  bottom_left : Z;
  bottom_right : Z;
  blue_difference : Z;
  red_difference : Z;
}.

Definition square_ok (q : Square) : Prop :=
  is_byte (top_left q) /\ is_byte (top_right q) /\ is_byte (bottom_left q) /\ is_byte (bottom_right q) /\
  is_byte (blue_difference q) /\ is_byte (red_difference q).

Definition luma_plane (pic : list (list Square)) : bytes :=
  flat_map (fun row => flat_map (fun q => [top_left q; top_right q]) row ++ flat_map (fun q => [bottom_left q; bottom_right q]) row) pic.
Definition blue_plane (pic : list (list Square)) : bytes := flat_map (map blue_difference) pic.
Definition red_plane (pic : list (list Square)) : bytes := flat_map (map red_difference) pic.

(** The equations of BT.601 with three decimals, cut towards zero. *)
Definition colour (y cb cr : Z) : list Z :=
  map (fun x => Z.max 0 (Z.min x 255))
    [y + Z.quot (1402 * (cr - 128)) 1000;
     y - Z.quot (344 * (cb - 128)) 1000 - Z.quot (714 * (cr - 128)) 1000;
     y + Z.quot (1772 * (cb - 128)) 1000].
Definition in_square (q : Square) (y : Z) : list Z := colour y (blue_difference q) (red_difference q).
Definition top_line (q : Square) : list Z := in_square q (top_left q) ++ in_square q (top_right q).
Definition bottom_line (q : Square) : list Z := in_square q (bottom_left q) ++ in_square q (bottom_right q).
Definition rgb_picture (pic : list (list Square)) : list Z := flat_map (fun row => flat_map top_line row ++ flat_map bottom_line row) pic.

(** In single precision the products are cut to the same integers. *)
Lemma scaled_exact k x : k ∈ [1402; 344; 714; 1772] -> - 128 <= x <= 127 -> scaled k x = Z.quot (k * x) 1000.
Proof.
  intros Hk Hx.
  assert (Hall : forallb (fun k => forallb (fun x => scaled k x =? Z.quot (k * x) 1000) (seqZ (- 128) 256)) [1402; 344; 714; 1772] = true)
    by (vm_compute; reflexivity).
  rewrite forallb_forall in Hall. apply list_elem_of_In in Hk. specialize (Hall k Hk). rewrite forallb_forall in Hall.
  specialize (Hall x). rewrite <- list_elem_of_In, elem_of_seqZ in Hall. apply Z.eqb_eq, Hall. lia.
Qed.

Lemma rgb_colour y u v : is_byte y -> is_byte u -> is_byte v -> rgb y u v = colour y u v.
Proof.
  unfold is_byte. intros Hy Hu Hv. unfold rgb, colour, clamp_byte. cbn [map].
  rewrite !scaled_exact by first [lia|set_solver]. by rewrite !(Z.min_comm 255).
Qed.

(** Places in what is written row by row. *)
Lemma sample_app_l l r k : 0 <= k < zlen l -> sample (l ++ r) k = sample l k.
Proof. intros Hk. unfold sample. by rewrite lookup_app_l by (unfold zlen in Hk; lia). Qed.

Lemma sample_app_r l r k : zlen l <= k -> sample (l ++ r) k = sample r (k - zlen l).
Proof. intros Hk. unfold sample, zlen in *. rewrite lookup_app_r by lia. f_equal. f_equal. lia. Qed.

Lemma zlen_flat_map {A} (f : A -> list Z) n l : Forall (fun x => zlen (f x) = n) l -> zlen (flat_map f l) = zlen l * n.
Proof. induction 1 as [|x l Hx _ IH]; [done|]. cbn [flat_map]. rewrite zlen_app, zlen_cons, Hx, IH. lia. Qed.

Lemma sample_flat_map {A} (f : A -> list Z) n rest l : Forall (fun x => zlen (f x) = n) l -> 0 <= n ->
  forall i x k, l !! i = Some x -> 0 <= k < n -> sample (flat_map f l ++ rest) (Z.of_nat i * n + k) = sample (f x) k.
Proof.
  intros Hl Hn. induction Hl as [|y l Hy Hl IH]; intros i x k Hi Hk; [done|]. cbn [flat_map]. rewrite <- app_assoc. destruct i as [|i].
  - injection Hi as <-. rewrite Z.mul_0_l, Z.add_0_l. apply sample_app_l. lia.
  - rewrite sample_app_r by (rewrite Hy; nia). rewrite Hy, <- (IH i x k) by done. f_equal. lia.
Qed.

Lemma flat_map_indices {A B} (f : Z -> list B) (g : A -> list B) l : forall start,
  (forall i x, l !! i = Some x -> f (start + Z.of_nat i) = g x) -> flat_map f (seqZ start (zlen l)) = flat_map g l.
Proof.
  induction l as [|x l IH]; intros start Hf; [done|]. rewrite zlen_cons, seqZ_cons by (pose proof (zlen_nonneg l); lia). cbn [flat_map].
  rewrite <- (Hf 0%nat x eq_refl), Z.add_0_r. f_equal. replace (Z.pred (1 + zlen l)) with (zlen l) by lia.
  apply IH. intros i y Hi. rewrite <- (Hf (S i) y Hi). f_equal. lia.
Qed.

Lemma flat_map_pairs {B} (f : Z -> list B) n : 0 <= n -> flat_map f (seqZ 0 (2 * n)) = flat_map (fun i => f (2 * i) ++ f (2 * i + 1)) (seqZ 0 n).
Proof.
  intros Hn. pattern n. apply natlike_ind; [done| |done]. clear n Hn. intros n Hn IH.
  replace (2 * Z.succ n) with (2 * n + 2) by lia. rewrite (seqZ_app 0 (2 * n) 2), flat_map_app, IH by lia.
  unfold Z.succ. rewrite (seqZ_app 0 n 1), flat_map_app by lia. f_equal.
  rewrite (seqZ_cons _ 2), (seqZ_cons _ (Z.pred 2)), (seqZ_cons _ 1) by lia. cbn [flat_map]. cbn. rewrite !app_nil_r. f_equal; f_equal; lia.
Qed.

Lemma map_flat_map {A B} (f : A -> list B) l : concat (map f l) = flat_map f l.
Proof. symmetry. apply flat_map_concat_map. Qed.

Section PictureOfSquares.
Context (pic : list (list Square)) (a : Z) (rows_ok : Forall (fun row => zlen row = a /\ Forall square_ok row) pic).
Context (y_rest u_rest v_rest : bytes).
Context (rests_ok : Forall is_byte y_rest /\ Forall is_byte u_rest /\ Forall is_byte v_rest).

Notation yp := (luma_plane pic ++ y_rest).
Notation up := (blue_plane pic ++ u_rest).
Notation vp := (red_plane pic ++ v_rest).

Lemma row_found i row : pic !! i = Some row -> zlen row = a /\ Forall square_ok row.
Proof. intros Hi. by eapply (Forall_lookup_1 _ _ _ _ rows_ok). Qed.

Lemma luma_line_length (f g : Square -> Z) row : zlen row = a ->
  zlen (flat_map (fun q => [f q; g q]) row) = 2 * a.
Proof. intros Hr. rewrite (zlen_flat_map _ 2); [lia|]. by apply list.Forall_true. Qed.

Lemma luma_at i row j q r c : pic !! i = Some row -> row !! j = Some q -> r ∈ [0; 1] -> c ∈ [0; 1] ->
  sample yp (y_index (2 * a) (2 * Z.of_nat i + r) (2 * Z.of_nat j + c)) =
  if r =? 0 then if c =? 0 then top_left q else top_right q else if c =? 0 then bottom_left q else bottom_right q.
Proof.
  intros Hi Hj Hr Hc. destruct (row_found i row Hi) as [Hlen _]. pose proof (lookup_lt_Some _ _ _ Hj) as Hlt.
  assert (Hcc : c = 0 \/ c = 1) by set_solver. assert (Hc2 : 0 <= c < 2) by lia.
  assert (Hr2 : r = 0 \/ r = 1) by set_solver. assert (Hja : Z.of_nat j < a) by (unfold zlen in Hlen; lia).
  replace (y_index (2 * a) (2 * Z.of_nat i + r) (2 * Z.of_nat j + c)) with (Z.of_nat i * (4 * a) + (r * (2 * a) + (Z.of_nat j * 2 + c))) by (unfold y_index; lia).
  unfold luma_plane. rewrite (sample_flat_map _ (4 * a) _ _) with (x := row); [|..|done|nia].
  2:{ apply (Forall_impl _ _ _ rows_ok). intros row' [Hl _]. rewrite zlen_app, !luma_line_length by done. lia. }
  2: lia.
  assert (Hpair : forall (f g : Square -> Z) rest, sample (flat_map (fun q => [f q; g q]) row ++ rest) (Z.of_nat j * 2 + c) = if c =? 0 then f q else g q).
  { intros f g rest. rewrite (sample_flat_map _ 2 _ _) with (x := q); [|by apply list.Forall_true|lia|done|done]. by destruct Hcc as [-> | ->]. }
  destruct Hr2 as [-> | ->].
  - rewrite Z.mul_0_l, Z.add_0_l. apply Hpair.
  - rewrite sample_app_r by (rewrite luma_line_length by done; lia). rewrite luma_line_length by done.
    replace (1 * (2 * a) + (Z.of_nat j * 2 + c) - 2 * a) with (Z.of_nat j * 2 + c) by lia. rewrite <- (app_nil_r (flat_map _ row)). apply Hpair.
Qed.

Lemma half_even i r : r = 0 \/ r = 1 -> (2 * i + r) / 2 = i.
Proof. intros [-> | ->]; symmetry; [apply (Z.div_unique_pos _ _ _ 0)|apply (Z.div_unique_pos _ _ _ 1)]; lia. Qed.

Lemma chroma_at (f : Square -> Z) rest i row j q r c : pic !! i = Some row -> row !! j = Some q -> r = 0 \/ r = 1 -> c = 0 \/ c = 1 ->
  sample (flat_map (map f) pic ++ rest) (uv_index (2 * a) (2 * Z.of_nat i + r) (2 * Z.of_nat j + c)) = f q.
Proof.
  intros Hi Hj Hr Hc. destruct (row_found i row Hi) as [Hlen _]. pose proof (lookup_lt_Some _ _ _ Hj) as Hlt.
  unfold uv_index. rewrite !half_even by done. rewrite (Z.mul_comm 2 a), Z.div_mul by lia.
  rewrite (sample_flat_map _ a) with (x := row); [|..|done|unfold zlen in Hlen; lia].
  - unfold sample. by rewrite Nat2Z.id, list_lookup_fmap, Hj.
  - apply (Forall_impl _ _ _ rows_ok). intros row' [Hl _]. unfold zlen in *. by rewrite length_map.
  - unfold zlen in Hlen. lia.
Qed.

(** The pixel at a place is that of its square. *)
Lemma pixel_at i row j q r c : pic !! i = Some row -> row !! j = Some q -> r = 0 \/ r = 1 -> c = 0 \/ c = 1 ->
  pixel_of yp up vp (2 * a) (2 * Z.of_nat i + r, 2 * Z.of_nat j + c) =
  in_square q (if r =? 0 then if c =? 0 then top_left q else top_right q else if c =? 0 then bottom_left q else bottom_right q).
Proof.
  intros Hi Hj Hr Hc. destruct (row_found i row Hi) as [_ Hok]. pose proof (Forall_lookup_1 _ _ _ _ Hok Hj) as (H1 & H2 & H3 & H4 & H5 & H6).
  unfold pixel_of. cbn [fst snd]. unfold blue_plane, red_plane. rewrite !(chroma_at _ _ i row j q) by done.
  rewrite (luma_at i row j q) by (done || set_solver).
  apply rgb_colour; [|done|done]. by destruct (r =? 0), (c =? 0).
Qed.

Lemma picture_pixels : concat (map (pixel_of yp up vp (2 * a)) (grid (2 * a) (2 * zlen pic))) = rgb_picture pic.
Proof.
  rewrite map_flat_map. unfold grid. pose proof (zlen_nonneg pic).
  transitivity (flat_map (fun row => flat_map (fun col => pixel_of yp up vp (2 * a) (row, col)) (seqZ 0 (2 * a))) (seqZ 0 (2 * zlen pic))).
  { induction (seqZ 0 (2 * zlen pic)) as [|row rows IH]; [done|]. cbn [flat_map]. rewrite flat_map_app, IH. f_equal. clear.
    induction (seqZ 0 (2 * a)) as [|col cols IH]; [done|]. cbn [map flat_map]. by rewrite IH. }
  rewrite flat_map_pairs by done. apply (flat_map_indices _ _ pic 0). intros i row Hi. destruct (row_found i row Hi) as [Hlen _].
  pose proof (zlen_nonneg row). rewrite !flat_map_pairs by lia. rewrite <- Hlen, Z.add_0_l.
  f_equal; apply (flat_map_indices _ _ row 0); intros j q Hj; rewrite Z.add_0_l.
  - pose proof (pixel_at i row j q 0 0 Hi Hj ltac:(lia) ltac:(lia)) as Hl. pose proof (pixel_at i row j q 0 1 Hi Hj ltac:(lia) ltac:(lia)) as Hr.
    rewrite !Z.add_0_r in Hl. rewrite Z.add_0_r in Hr. by rewrite Hlen, Hl, Hr.
  - pose proof (pixel_at i row j q 1 0 Hi Hj ltac:(lia) ltac:(lia)) as Hl. pose proof (pixel_at i row j q 1 1 Hi Hj ltac:(lia) ltac:(lia)) as Hr.
    rewrite Z.add_0_r in Hl. by rewrite Hlen, Hl, Hr.
Qed.
End PictureOfSquares.

Lemma forallb_grid p w h : forallb p (grid w h) = true <-> forall row col, 0 <= row < h -> 0 <= col < w -> p (row, col) = true.
Proof.
  rewrite forallb_forall. unfold grid. split.
  - intros Hall row col Hr Hc. apply Hall. apply in_flat_map. exists row. split; [apply list_elem_of_In, elem_of_seqZ; lia|].
    apply in_map, list_elem_of_In, elem_of_seqZ. lia.
  - intros Hall x (row & Hr & (col & <- & Hc)%in_map_iff)%in_flat_map. apply list_elem_of_In, elem_of_seqZ in Hr, Hc. apply Hall; lia.
Qed.

Lemma slice_mid {A} (l : list A) i j : 0 <= i <= j -> j <= zlen l -> slice l i j = Done (ztake (j - i) (zdrop i l)).
Proof.
  intros. unfold slice. replace ((0 <=? i) && (i <=? j) && (j <=? zlen l)) with true; [done|]. symmetry. rewrite !andb_true_iff, !Z.leb_le. lia.
Qed.

Section Squares.
Context (pic : list (list Square)) (a : Z) (rows_ok : Forall (fun row => zlen row = a /\ Forall square_ok row) pic).

Lemma picture_bytes (f : Square -> Z) : (forall q, square_ok q -> is_byte (f q)) -> Forall is_byte (flat_map (map f) pic).
Proof.
  intros Hf. apply List.Forall_flat_map. apply (Forall_impl _ _ _ rows_ok). intros row [_ Hrow].
  apply Forall_fmap. by apply (Forall_impl _ _ _ Hrow).
Qed.

Lemma luma_bytes : Forall is_byte (luma_plane pic).
Proof.
  apply List.Forall_flat_map. apply (Forall_impl _ _ _ rows_ok). intros row [_ Hrow].
  apply Forall_app_2; apply List.Forall_flat_map; apply (Forall_impl _ _ _ Hrow); intros q (H1 & H2 & H3 & H4 & _);
    by repeat first [assumption|apply list.Forall_nil_2|apply list.Forall_cons_2].
Qed.

Lemma plane_lengths : zlen (luma_plane pic) = zlen pic * (4 * a) /\ zlen (blue_plane pic) = zlen pic * a /\ zlen (red_plane pic) = zlen pic * a.
Proof.
  split; [|split]; apply zlen_flat_map; apply (Forall_impl _ _ _ rows_ok); intros row [Hrow _]; [|by unfold zlen in *; rewrite length_map..].
  rewrite zlen_app, !(luma_line_length a) by done. lia.
Qed.
End Squares.

(** Which planes have a sample for every pixel of even width and height. *)
Lemma samples_there (yp up vp : bytes) a b row col : 0 <= row < 2 * b -> 0 <= col < 2 * a ->
  b * (4 * a) <= zlen yp -> b * a <= zlen up -> b * a <= zlen vp -> has_samples yp up vp (2 * a) (row, col) = true.
Proof.
  intros Hr Hc Hy Hu Hv. unfold has_samples, y_index, uv_index. cbn [fst snd]. rewrite (Z.mul_comm 2 a), Z.div_mul by lia.
  assert (row / 2 < b) by (apply Z.div_lt_upper_bound; lia). assert (col / 2 < a) by (apply Z.div_lt_upper_bound; lia).
  assert (0 <= row / 2) by (apply Z.div_pos; lia). assert (0 <= col / 2) by (apply Z.div_pos; lia).
  rewrite !andb_true_iff, !Z.ltb_lt. split; [split|]; nia.
Qed.

Lemma samples_missing (yp up vp : bytes) a b : 0 <= a -> 0 <= b ->
  zlen yp < b * (4 * a) \/ zlen up < b * a \/ zlen vp < b * a -> forallb (has_samples yp up vp (2 * a)) (grid (2 * a) (2 * b)) = false.
Proof.
  intros Ha Hb Hshort. apply not_true_iff_false. rewrite forallb_grid. intros Hall.
  pose proof (zlen_nonneg yp). pose proof (zlen_nonneg up). pose proof (zlen_nonneg vp).
  assert (0 < a /\ 0 < b) as [Ha' Hb'] by (split; apply Z.nle_gt; intros Hz; [assert (a = 0) by lia|assert (b = 0) by lia]; subst; lia).
  specialize (Hall (2 * b - 1) (2 * a - 1) ltac:(lia) ltac:(lia)). unfold has_samples, y_index, uv_index in Hall. cbn [fst snd] in Hall.
  rewrite !andb_true_iff, !Z.ltb_lt in Hall. replace (2 * b - 1) with (2 * (b - 1) + 1) in Hall by lia.
  replace (2 * a - 1) with (2 * (a - 1) + 1) in Hall by lia. rewrite !half_even, (Z.mul_comm 2 a), Z.div_mul in Hall by lia. nia.
Qed.

(** C36: A picture of even width and height is converted to the colours of its
    pixels: its planes, which hold the four luma samples of each square row by
    row and one sample of either colour difference, become the pixels row by
    row, each with the equations of BT.601 for its luma and the differences of
    its square. What follows a plane is not looked at, and planes of which one is
    too short are refused. No arithmetic overflows. *)
Theorem yuv_conversion (pic : list (list Square)) a (y_rest u_rest v_rest : bytes) :
  Forall (fun row => zlen row = a /\ Forall square_ok row) pic -> 0 <= a -> 2 * a * (2 * zlen pic) * 3 <= isize_max ->
  Forall is_byte y_rest -> Forall is_byte u_rest -> Forall is_byte v_rest ->
  yuv420p_to_rgb24 (luma_plane pic ++ y_rest) (blue_plane pic ++ u_rest) (red_plane pic ++ v_rest) (2 * a) (2 * zlen pic) = Done (ROk (rgb_picture pic)) /\
  forall y_plane u_plane v_plane : bytes, Forall is_byte y_plane -> Forall is_byte u_plane -> Forall is_byte v_plane ->
    zlen y_plane < zlen (luma_plane pic) \/ zlen u_plane < zlen (blue_plane pic) \/ zlen v_plane < zlen (red_plane pic) ->
    yuv420p_to_rgb24 y_plane u_plane v_plane (2 * a) (2 * zlen pic) = Done (RErr InvalidParameters).
Proof.
  intros Hp Ha Hs Hy Hu Hv. pose proof (zlen_nonneg pic). destruct (plane_lengths pic a Hp) as (Hly & Hlu & Hlv).
  split.
  - rewrite yuv_converts by first [lia|apply Forall_app_2; [|done]; first [by eapply luma_bytes|eapply picture_bytes; [done|]; unfold square_ok; tauto]].
    rewrite (proj2 (forallb_grid _ _ _)); [by rewrite (picture_pixels pic a)|]. intros row col Hr Hc.
    pose proof (zlen_nonneg y_rest). pose proof (zlen_nonneg u_rest). pose proof (zlen_nonneg v_rest).
    apply (samples_there _ _ _ _ (zlen pic)); rewrite ?zlen_app; lia.
  - intros yp up vp Hyp Hup Hvp Hshort. rewrite yuv_converts by (done || lia). rewrite samples_missing; [done|..]; lia.
Qed.

Section Pictures.
Context {Encoder Decoder : Type}.
Implicit Types self : OpenH264Codec (Encoder := Encoder) (Decoder := Decoder).

(** The planes of a frame. *)
Definition y_of (area : Z) (frame : bytes) : bytes := ztake area frame.
Definition u_of (area : Z) (frame : bytes) : bytes := ztake (area / 4) (zdrop area frame).
Definition v_of (area : Z) (frame : bytes) : bytes := ztake (area / 4) (zdrop (area + area / 4) frame).

Lemma h264_picture_planes self frame : 0 <= width self -> 0 <= height self -> width self * height self * 3 <= u32_max -> Forall is_byte frame ->
  let area := width self * height self in
  zlen frame = area * 3 / 2 ->
  zlen (y_of area frame) = area /\ zlen (u_of area frame) = area / 4 /\ zlen (v_of area frame) = area / 4 /\
  h264_picture self frame =
    Done (if forallb (has_samples (y_of area frame) (u_of area frame) (v_of area frame) (width self)) (grid (width self) (height self))
          then ROk (concat (map (pixel_of (y_of area frame) (u_of area frame) (v_of area frame) (width self)) (grid (width self) (height self))))
          else RErr InvalidParameters).
Proof.
  intros Hw Hh Hs Hb area Hl. assert (Ha : 0 <= area) by (unfold area; nia). fold area in Hs.
  assert (Hq : 0 <= area / 4) by (apply Z.div_pos; lia). assert (Hfit : area + area / 4 * 2 <= zlen frame).
  { rewrite Hl. pose proof (Z.mul_div_le area 4). apply Z.div_le_lower_bound; lia. }
  unfold y_of, u_of, v_of. rewrite !zlen_ztake by (rewrite ?zlen_zdrop by lia; lia). do 3 (split; [done|]).
  unfold h264_picture, mul_u32. fold area. rewrite !checked_done by lia. cbn [exec_bind]. rewrite checked_done by lia. cbn [exec_bind].
  rewrite <- Hl, Z.eqb_refl. cbn [negb]. rewrite !slice_mid by lia. cbn [exec_bind].
  replace (area - 0) with area by lia. replace (area + area / 4 - area) with (area / 4) by lia.
  replace (area + area / 4 * 2 - (area + area / 4)) with (area / 4) by lia. rewrite zdrop_0.
  apply yuv_converts; try (by repeat first [apply Forall_take|apply Forall_drop]); try done. unfold isize_max, u32_max in *. lia.
Qed.

Lemma h264_even self frame : 0 <= width self -> 0 <= height self -> width self * height self * 3 <= u32_max -> Forall is_byte frame ->
  let area := width self * height self in
  zlen frame = area * 3 / 2 -> Z.even (width self) && Z.even (height self) = true ->
  h264_picture self frame = Done (ROk (concat (map (pixel_of (y_of area frame) (u_of area frame) (v_of area frame) (width self)) (grid (width self) (height self))))).
Proof.
  intros Hw Hh Hs Hb area Hl [He1 He2]%andb_true_iff. destruct (h264_picture_planes self frame Hw Hh Hs Hb Hl) as (Hy & Hu & Hv & ->). fold area in Hy, Hu, Hv |- *.
  apply Z.even_spec in He1 as [a Ha], He2 as [b Hbb].
  rewrite (proj2 (forallb_grid _ _ _)); [done|]. intros row col Hr Hc. unfold has_samples, y_index, uv_index. cbn [fst snd].
  rewrite Hy, Hu, Hv. rewrite !andb_true_iff, !Z.ltb_lt. unfold area. rewrite Ha, Hbb in *.
  replace (2 * a * (2 * b)) with (a * b * 4) by lia. rewrite Z.div_mul by lia. rewrite (Z.mul_comm 2 a), Z.div_mul by lia.
  assert (row / 2 < b) by (apply Z.div_lt_upper_bound; lia). assert (col / 2 < a) by (apply Z.div_lt_upper_bound; lia).
  assert (0 <= row / 2) by (apply Z.div_pos; lia). assert (0 <= col / 2) by (apply Z.div_pos; lia). split; [split|]; nia.
Qed.

(** Of even width and height every frame of the right size is encoded; with both
    odd, and not much higher than wide, none is: the chroma planes are cut too
    short for the last pixel. *)
Theorem h264_frames self frame : 0 <= width self -> 0 <= height self -> width self * height self * 3 <= u32_max -> Forall is_byte frame ->
  let area := width self * height self in
  zlen frame = area * 3 / 2 ->
  (Z.even (width self) && Z.even (height self) = true ->
    h264_picture self frame = Done (ROk (concat (map (pixel_of (y_of area frame) (u_of area frame) (v_of area frame) (width self)) (grid (width self) (height self)))))) /\
  (Z.odd (width self) && Z.odd (height self) = true -> height self <= width self + 2 -> h264_picture self frame = Done (RErr InvalidParameters)).
Proof.
  intros Hw Hh Hs Hb area Hl. split; [by apply h264_even|].
  destruct (h264_picture_planes self frame Hw Hh Hs Hb Hl) as (Hy & Hu & Hv & ->). fold area in Hy, Hu, Hv |- *.
  intros [Ho1 Ho2]%andb_true_iff Hwide. apply Z.odd_spec in Ho1 as [a Ha], Ho2 as [b Hbb].
    destruct (forallb _ (grid (width self) (height self))) eqn:Hall; [|done]. exfalso. rewrite forallb_grid in Hall.
    specialize (Hall (2 * b) (2 * a) ltac:(lia) ltac:(lia)). unfold has_samples, uv_index in Hall. cbn [fst snd] in Hall.
    rewrite Hu in Hall. rewrite !andb_true_iff, !Z.ltb_lt in Hall. destruct Hall as [[_ Hlt] _].
    replace (2 * b / 2) with b in Hlt by (rewrite Z.mul_comm, Z.div_mul; lia). replace (2 * a / 2) with a in Hlt by (rewrite Z.mul_comm, Z.div_mul; lia).
    assert (width self / 2 = a) as Hwa by (rewrite Ha; symmetry; apply (Z.div_unique_pos _ _ _ 1); lia). rewrite Hwa in Hlt.
    assert (Hle : area / 4 < b * a + a + 1) by (apply Z.div_lt_upper_bound; [lia|]; unfold area; rewrite Ha, Hbb; nia). lia.
Qed.
End Pictures.

(** Without colour a pixel is as bright as its luma. *)
Example gray_stays : forallb (fun y => bool_decide (rgb y 128 128 = [y; y; y])) (seqZ 0 256) = true.
Proof. vm_compute. reflexivity. Qed.

(** ** What Opus gives *)

Lemma i16_roundtrip x : - 2 ^ 15 <= x < 2 ^ 15 -> i16_samples (i16_bytes x) = [x].
Proof.
  intros Hx. unfold i16_bytes, i16_samples, as_signed. f_equal.
  assert (Hm : (x mod 256 + 256 * (x / 256 mod 256)) mod 2 ^ 16 = x mod 2 ^ 16).
  { pose proof (Z.rem_mul_r x 256 256 ltac:(lia) ltac:(lia)) as Hq. change (256 * 256) with (2 ^ 16) in Hq. rewrite <- Hq. by apply Z.mod_mod. }
  cbv zeta. rewrite Hm. destruct (Z.ltb_spec x 0).
  - rewrite <- (Z.mod_add x 1) by lia. rewrite Z.mod_small by lia. destruct (Z.ltb_spec (x + 1 * 2 ^ 16) (2 ^ (16 - 1))); lia.
  - rewrite Z.mod_small by lia. destruct (Z.ltb_spec x (2 ^ (16 - 1))); lia.
Qed.

Lemma i16_samples_app x l : i16_samples (i16_bytes x ++ l) = i16_samples (i16_bytes x) ++ i16_samples l.
Proof. done. Qed.

(** What [decode] gives reads back as the first values that the library wrote,
    as many as it decoded for each channel: of stereo that is the first half. *)
Theorem opus_decode_keeps {Encoder Decoder : Type} (decode_opus : Decoder -> bytes -> list Z -> Decoder * option (list Z * Z))
  (self : OpusCodec (Encoder := Encoder)) d count data d' output n :
  opus_decoder self = Some (d, count) -> 0 <= sample_rate self / 50 * channels self <= u64_max -> count < u64_max -> 0 <= count ->
  decode_opus d data (replicate (Z.to_nat (sample_rate self / 50 * channels self)) 0) = (d', Some (output, n)) ->
  Forall (fun x => - 2 ^ 15 <= x < 2 ^ 15) output -> 0 <= n -> zlen output = n * channels self -> 1 <= channels self ->
  exists self' result, opus_decode decode_opus self data = Done (self', ROk result) /\ i16_samples result = ztake n output /\
    zlen (i16_samples result) * channels self = zlen output.
Proof.
  intros Hd Hs Hc Hc0 Hlib Hout Hn Hlen Hch. unfold opus_decode. rewrite Hd. unfold mul_u64. rewrite checked_done by done. cbn [exec_bind]. rewrite Hlib.
  rewrite slice_mid by nia. cbn [exec_bind]. unfold add_u64. rewrite checked_done by lia. cbn [exec_bind]. eexists _, _. split; [reflexivity|].
  rewrite zdrop_0, Z.sub_0_r.
  assert (Hback : forall l, Forall (fun x => - 2 ^ 15 <= x < 2 ^ 15) l -> i16_samples (concat (map i16_bytes l)) = l).
  { induction 1 as [|x l Hx Hl IH]; [done|]. cbn [map concat]. by rewrite i16_samples_app, i16_roundtrip, IH. }
  rewrite Hback by by apply Forall_take. split; [done|]. rewrite zlen_ztake by nia. lia.
Qed.

(** ** Concrete runs *)


(** Two squares beside each other: a gray one and a red one. *)
Definition demo_squares : list (list Square) :=
  [[Build_Square 10 20 30 40 128 128; Build_Square 0 100 200 255 128 228]].

Lemma yuv_conversion_witness :
  yuv420p_to_rgb24 [10; 20; 0; 100; 30; 40; 200; 255] [128; 128] [128; 228] 4 2 =
    Done (ROk [10; 10; 10; 20; 20; 20; 140; 0; 0; 240; 29; 100; 30; 30; 30; 40; 40; 40; 255; 129; 200; 255; 184; 255]) /\
  yuv420p_to_rgb24 [10; 20; 0; 100; 30; 40; 200; 255] [128] [128; 228] 4 2 = Done (RErr InvalidParameters).
Proof.
  destruct (yuv_conversion demo_squares 2 [] [] []) as [Hc Hshort];
    [by repeat constructor|lia|vm_compute; discriminate|constructor|constructor|constructor|].
  split; [exact Hc|]. apply Hshort; [by repeat constructor..|]. right. left. vm_compute. reflexivity.
Defined.

Definition demo_codec (w h : Z) : OpenH264Codec (Encoder := unit) (Decoder := unit) := with_dimensions w h.

Lemma h264_frames_witness : exists picture, h264_picture (demo_codec 2 2) [10; 20; 30; 40; 128; 128] = Done (ROk picture) /\ zlen picture = 12.
Proof.
  assert (Hb : Forall is_byte [10; 20; 30; 40; 128; 128]) by (repeat constructor; unfold is_byte; lia).
  destruct (h264_frames (demo_codec 2 2) [10; 20; 30; 40; 128; 128] ltac:(cbn; lia) ltac:(cbn; lia) ltac:(cbn; unfold u32_max; lia) Hb eq_refl) as [He _].
  eexists. split; [exact (He eq_refl)|]. vm_compute. reflexivity.
Defined.

Example odd_frame_refused : h264_picture (demo_codec 3 3) (replicate 13 0) = Done (RErr InvalidParameters).
Proof. vm_compute. reflexivity. Qed.

(** A library that decodes two samples of each of two channels. *)
Definition demo_decode (d : unit) (data : bytes) (buffer : list Z) : unit * option (list Z * Z) := (d, Some ([1; -1; 2; -2], 2)).

Definition demo_opus : OpusCodec (Encoder := unit) (Decoder := unit) :=
  {| opus_encoder := None; opus_decoder := Some (tt, 0); sample_rate := 100; channels := 2 |}.

Lemma opus_decode_keeps_witness : exists self' result, opus_decode demo_decode demo_opus [7] = Done (self', ROk result) /\ i16_samples result = [1; -1].
Proof.
  destruct (opus_decode_keeps demo_decode demo_opus tt 0 [7] tt [1; -1; 2; -2] 2 eq_refl ltac:(vm_compute; split; discriminate) ltac:(vm_compute; reflexivity)
    ltac:(lia) eq_refl ltac:(repeat constructor; lia) ltac:(lia) eq_refl ltac:(cbn; lia)) as (self' & result & Hr & Hs & _).
  by exists self', result.
Defined.
