(* ===== verification/MediaPipeline.v ===== *)
(** * Sources, pipelines and sinks

    Models [core/src/media/pipeline.rs], [source.rs], [sink.rs], [stream.rs] and
    the traits of [interface.rs]: where chunks of media come from, the stages they
    go through and where they end up. A method of [MediaSource] or [MediaSink] is
    given the instant it runs at; durations are nanoseconds. Files and HTTP are
    interfaces. *)

From S2P Require Import Prelude Rust Format Hash Codec MediaBuffers.

#[local] Open Scope Z_scope.

(** ** The traits *)

Abbreviation MediaError := rstring.

Inductive MediaFormat : Type := Hls | Dash | WebRtc | Raw | Custom (name : rstring).

Record MediaStream : Type := {
  ms_id : rstring;
  ms_format : MediaFormat;
  ms_duration : option Z;
  ms_bitrate : option Z;
  ms_codec : option rstring;
}.

Definition new_media_stream (id : rstring) (format : MediaFormat) : MediaStream :=
  {| ms_id := id; ms_format := format; ms_duration := None; ms_bitrate := None; ms_codec := None |}.

Class MediaSource (S : Type) : Type := {
  next_chunk : Z -> S -> S * result bytes MediaError;
  seek : S -> Z -> S * result unit MediaError;
}.

Class MediaSink (K : Type) : Type := {
  write_chunk : Z -> K -> bytes -> K * result unit MediaError;
  flush : K -> K * result unit MediaError;
}.

(** ** Pipelines *)

(** A stage with its state. *)
Record PipelineStage : Type := {
  stage_state : Type;
  current : stage_state;
  stage_run : stage_state -> bytes -> stage_state * result bytes MediaError;
  stage_name : rstring;
}.

Definition stage_process (s : PipelineStage) (data : bytes) : PipelineStage * result bytes MediaError :=
  let '(st, r) := stage_run s (current s) data in
  ({| stage_state := stage_state s; current := st; stage_run := stage_run s; stage_name := stage_name s |}, r).

Definition pass_through (name : rstring) : PipelineStage :=
  {| stage_state := unit; current := tt; stage_run _ data := (tt, ROk data); stage_name := name |}.

Abbreviation MediaPipeline := (list PipelineStage).

Definition new_pipeline : MediaPipeline := [].
Definition add_stage (self : MediaPipeline) (stage : PipelineStage) : MediaPipeline := self ++ [stage].

Fixpoint process (self : MediaPipeline) (data : bytes) : MediaPipeline * result bytes MediaError :=
  match self with
  | [] => ([], ROk data)
  | stage :: stages =>
      match stage_process stage data with
      | (stage, RErr e) => (stage :: stages, RErr e)
      | (stage, ROk data) => let '(stages, r) := process stages data in (stage :: stages, r)
      end
  end.

Record PipelineSource (S : Type) : Type := { piped_source : S; source_pipeline : MediaPipeline }.
Arguments piped_source {S}. Arguments source_pipeline {S}.
Record PipelineSink (K : Type) : Type := { piped_sink : K; sink_pipeline : MediaPipeline }.
Arguments piped_sink {K}. Arguments sink_pipeline {K}.

Definition into_source {S} (self : MediaPipeline) (source : S) : PipelineSource S := {| piped_source := source; source_pipeline := self |}.
Definition into_sink {K} (self : MediaPipeline) (sink : K) : PipelineSink K := {| piped_sink := sink; sink_pipeline := self |}.

Definition pipeline_source {S : Type} `{!MediaSource S} : MediaSource (PipelineSource S) := {|
  next_chunk now self :=
    match next_chunk now (piped_source self) with
    | (source, RErr e) => ({| piped_source := source; source_pipeline := source_pipeline self |}, RErr e)
    | (source, ROk data) =>
        let '(pipeline, r) := process (source_pipeline self) data in ({| piped_source := source; source_pipeline := pipeline |}, r)
    end;
  seek self position :=
    let '(source, r) := seek (piped_source self) position in ({| piped_source := source; source_pipeline := source_pipeline self |}, r);
|}.
#[export] Existing Instance pipeline_source.

Definition pipeline_sink {K : Type} `{!MediaSink K} : MediaSink (PipelineSink K) := {|
  write_chunk now self data :=
    match process (sink_pipeline self) data with
    | (pipeline, RErr e) => ({| piped_sink := piped_sink self; sink_pipeline := pipeline |}, RErr e)
    | (pipeline, ROk processed) =>
        let '(sink, r) := write_chunk now (piped_sink self) processed in ({| piped_sink := sink; sink_pipeline := pipeline |}, r)
    end;
  flush self := let '(sink, r) := flush (piped_sink self) in ({| piped_sink := sink; sink_pipeline := sink_pipeline self |}, r);
|}.
#[export] Existing Instance pipeline_sink.

(** ** Sources *)

Record DummySource : Type := {}.
Definition dummy_source : MediaSource DummySource := {| next_chunk _ self := (self, ROk []); seek self _ := (self, ROk tt) |}.
#[export] Existing Instance dummy_source.

Definition CHUNK : Z := 4096.

Record MemorySource : Type := { source_data : bytes; source_position : Z; source_stream : MediaStream }.

Definition new_memory_source (data : bytes) (format : MediaFormat) : MemorySource :=
  {| source_data := data; source_position := 0; source_stream := new_media_stream (str "memory") format |}.

Definition at_position (self : MemorySource) (p : Z) : MemorySource :=
  {| source_data := source_data self; source_position := p; source_stream := source_stream self |}.

(** [position.as_millis() as usize]. *)
Definition seek_bytes (position : Z) : Z := as_u64 (position / 1000000).

Definition memory_source : MediaSource MemorySource := {|
  next_chunk _ self :=
    if zlen (source_data self) <=? source_position self then (self, RErr (str "End of data"))
    else
      let till := Z.min (source_position self + CHUNK) (zlen (source_data self)) in
      (at_position self till, ROk (ztake (till - source_position self) (zdrop (source_position self) (source_data self))));
  seek self position :=
    if zlen (source_data self) <? seek_bytes position then (self, RErr (str "Seek position out of range"))
    else (at_position self (seek_bytes position), ROk tt);
|}.
#[export] Existing Instance memory_source.

(** What a file gives when it is read into a buffer, and takes. *)
Class Files (File : Type) : Type := {
  file_read : File -> Z -> File * result bytes rstring;
  file_write : File -> bytes -> File * result unit rstring;
  file_flush : File -> File * result unit rstring;
}.

Record FileSource (File : Type) : Type := { source_file : File; file_stream : MediaStream }.
Arguments source_file {File}. Arguments file_stream {File}.

Definition file_source {File : Type} `{!Files File} : MediaSource (FileSource File) := {|
  next_chunk _ self :=
    match file_read (source_file self) CHUNK with
    | (file, RErr e) => ({| source_file := file; file_stream := file_stream self |}, RErr (str "Failed to read from file: " ++ e))
    | (file, ROk []) => ({| source_file := file; file_stream := file_stream self |}, RErr (str "End of file"))
    | (file, ROk buffer) => ({| source_file := file; file_stream := file_stream self |}, ROk buffer)
    end;
  seek self _ := (self, RErr (str "Seek not supported"));
|}.
#[export] Existing Instance file_source.

(** The reply to a request at an instant: the status with its text, and the
    body. *)
Class Http : Type := { http_get : rstring -> Z -> result (Z * rstring * result bytes rstring) rstring }.

Record NetworkSource : Type := { url : rstring; network_stream : MediaStream }.

Definition new_network_source (url : rstring) (format : MediaFormat) : NetworkSource :=
  {| url := url; network_stream := new_media_stream url format |}.

Definition network_source `{!Http} : MediaSource NetworkSource := {|
  next_chunk now self :=
    (self, match http_get (url self) now with
           | RErr e => RErr (str "Failed to send request: " ++ e)
           | ROk (status, text, body) =>
               if (200 <=? status) && (status <? 300) then
                 match body with ROk data => ROk data | RErr e => RErr (str "Failed to read response: " ++ e) end
               else RErr (str "Request failed with status: " ++ text)
           end);
  seek self _ := (self, RErr (str "Seek not supported"));
|}.
#[export] Existing Instance network_source.

(** ** Sinks *)

Record FileSink (File : Type) : Type := { sink_file : File }.
Arguments sink_file {File}.
Definition file_sink {File : Type} `{!Files File} : MediaSink (FileSink File) := {|
  write_chunk _ self data :=
    let '(file, r) := file_write (sink_file self) data in
    ({| sink_file := file |}, match r with ROk _ => ROk tt | RErr e => RErr (str "Failed to write to file: " ++ e) end);
  flush self :=
    let '(file, r) := file_flush (sink_file self) in
    ({| sink_file := file |}, match r with ROk _ => ROk tt | RErr e => RErr (str "Failed to flush file: " ++ e) end);
|}.
#[export] Existing Instance file_sink.

Record MemorySink : Type := { sink_data : bytes }.
Definition new_memory_sink : MemorySink := {| sink_data := [] |}.
Definition into_inner (self : MemorySink) : bytes := sink_data self.
Definition memory_sink : MediaSink MemorySink := {|
  write_chunk _ self data := ({| sink_data := sink_data self ++ data |}, ROk tt);
  flush self := (self, ROk tt);
|}.
#[export] Existing Instance memory_sink.

Record NullSink : Type := {}.
Definition null_sink : MediaSink NullSink := {| write_chunk _ self _ := (self, ROk tt); flush self := (self, ROk tt) |}.
#[export] Existing Instance null_sink.

(** ** The stream *)

(** [Display] of the errors that become messages here. Three have texts that
    [Codec] leaves out; none of the codecs below gives them. *)
Definition show_codec_error (e : CodecError) : rstring :=
  match e with
  | OpenH264Error => str "OpenH264 error"
  | OpusError => str "Opus error"
  | General m => str "Codec error: " ++ m
  | EncodingFailed m => str "Encoding failed: " ++ m
  | DecodingFailed m => str "Decoding failed: " ++ m
  | InvalidParameters => str "Invalid parameters"
  end.
Definition show_buffer_error (m : rstring) : rstring := str "Buffer error: " ++ m.

Record MediaStreamImpl (S : Type) : Type := {
  stream : S;
  stream_buffer : MediaBuffer;
  codec_registry : CodecRegistry;
  current_codec : option rstring;
  stream_metadata : MediaStream;
}.
Arguments stream {S}. Arguments stream_buffer {S}. Arguments codec_registry {S}. Arguments current_codec {S}. Arguments stream_metadata {S}.

Section Stream.
Context {S : Type} `{!MediaSource S}.

Definition new_stream (source : S) (config : option BufferConfig) (registry : option CodecRegistry) : MediaStreamImpl S :=
  {| stream := source; stream_buffer := new_buffer (default default_buffer_config config);
     codec_registry := default default_registry registry; current_codec := None; stream_metadata := new_media_stream [] Raw |}.

Definition with_buffer (self : MediaStreamImpl S) (b : MediaBuffer) : MediaStreamImpl S :=
  {| stream := stream self; stream_buffer := b; codec_registry := codec_registry self; current_codec := current_codec self; stream_metadata := stream_metadata self |}.
Definition with_source (self : MediaStreamImpl S) (s : S) : MediaStreamImpl S :=
  {| stream := s; stream_buffer := stream_buffer self; codec_registry := codec_registry self; current_codec := current_codec self; stream_metadata := stream_metadata self |}.

Definition set_codec (self : MediaStreamImpl S) (codec_name : rstring) : MediaStreamImpl S * result unit MediaError :=
  match registry_get (codec_registry self) codec_name with
  | Some _ =>
      ({| stream := stream self; stream_buffer := stream_buffer self; codec_registry := codec_registry self;
          current_codec := Some codec_name; stream_metadata := stream_metadata self |}, ROk tt)
  | None => (self, RErr (str "Codec not found: " ++ codec_name))
  end.

(** The codec made for one operation; encoding and decoding are the same for
    those there are. *)
Definition run_codec (codec_name : rstring) : result bytes MediaError :=
  let told r := match r with ROk d => ROk d | RErr e => RErr (show_codec_error e) end in
  if str_eqb codec_name (str "audio") then told legacy_audio_run
  else if str_eqb codec_name (str "video") then told legacy_video_run
  else RErr (str "Unknown codec type").

(** The buffer is filled when it is empty. *)
Definition fill (now : Z) (self : MediaStreamImpl S) : MediaStreamImpl S * result unit MediaError :=
  if size (stream_buffer self) =? 0 then
    match next_chunk now (stream self) with
    | (source, RErr e) => (with_source self source, RErr e)
    | (source, ROk data) =>
        match push (stream_buffer self) data now with
        | (b, RErr e) => (with_buffer (with_source self source) b, RErr (show_buffer_error e))
        | (b, ROk _) => (with_buffer (with_source self source) b, ROk tt)
        end
    end
  else (self, ROk tt).

Definition read (now : Z) (self : MediaStreamImpl S) (size : Z) : MediaStreamImpl S * result bytes MediaError :=
  match fill now self with
  | (self, RErr e) => (self, RErr e)
  | (self, ROk _) =>
      match pop (stream_buffer self) size with
      | (b, RErr e) => (with_buffer self b, RErr (show_buffer_error e))
      | (b, ROk data) => (with_buffer self b, match current_codec self with Some codec_name => run_codec codec_name | None => ROk data end)
      end
  end.

Definition write (now : Z) (self : MediaStreamImpl S) (data : bytes) : MediaStreamImpl S * result unit MediaError :=
  match match current_codec self with Some codec_name => run_codec codec_name | None => ROk data end with
  | RErr e => (self, RErr e)
  | ROk encoded_data =>
      match push (stream_buffer self) encoded_data now with
      | (b, RErr e) => (with_buffer self b, RErr (show_buffer_error e))
      | (b, ROk _) => (with_buffer self b, ROk tt)
      end
  end.

Definition is_ready (self : MediaStreamImpl S) : bool := has_enough_data (stream_buffer self).

Definition stream_source : MediaSource (MediaStreamImpl S) := {|
  next_chunk now self := read now self CHUNK;
  seek self position := let '(source, r) := seek (stream self) position in (with_source self source, r);
|}.
#[export] Existing Instance stream_source.

Definition stream_sink : MediaSink (MediaStreamImpl S) := {| write_chunk now self data := write now self data; flush self := (self, ROk tt) |}.
#[export] Existing Instance stream_sink.
End Stream.

(** ** Pipelines compose *)

(** Two pipelines, one after the other, are one: the second is not run when the
    first fails, and keeps its state then. *)
Lemma process_app p q data : process (p ++ q) data =
  match process p data with
  | (p, RErr e) => (p ++ q, RErr e)
  | (p, ROk data) => let '(q, r) := process q data in (p ++ q, r)
  end.
Proof.
  revert data. induction p as [|s p IH]; intros data; cbn [app process]; [by destruct (process q data)|].
  destruct (stage_process s data) as [s' [d|e]]; [|done]. rewrite IH. destruct (process p d) as [p' [d'|e]]; [|done]. by destruct (process q d').
Qed.

Lemma memory_chunk now self : 0 <= source_position self < zlen (source_data self) ->
  let rest := zdrop (source_position self) (source_data self) in
  next_chunk now self = (at_position self (Z.min (source_position self + CHUNK) (zlen (source_data self))), ROk (ztake CHUNK rest)) /\
  0 < zlen (ztake CHUNK rest) <= CHUNK /\
  rest = ztake CHUNK rest ++ zdrop (Z.min (source_position self + CHUNK) (zlen (source_data self))) (source_data self).
Proof.
  intros Hp rest. assert (Hrest : zlen rest = zlen (source_data self) - source_position self) by (unfold rest; rewrite zlen_zdrop; lia).
  cbn [next_chunk memory_source]. unfold CHUNK in *.
  assert (Hall : 4096 < zlen rest \/ zlen rest <= 4096) by lia.
  destruct (Z.leb_spec (zlen (source_data self)) (source_position self)); [lia|]. fold rest. destruct Hall as [Hlong|Hshort].
  - rewrite (Z.min_l (source_position self + 4096)) by lia. replace (source_position self + 4096 - source_position self) with 4096 by lia.
    split; [done|]. split; [rewrite zlen_ztake; lia|]. rewrite <- zdrop_zdrop by lia. fold rest. symmetry. apply ztake_zdrop.
  - rewrite !Z.min_r by lia. rewrite !ztake_all by lia. split; [done|]. split; [lia|]. by rewrite zdrop_all, app_nil_r by lia.
Qed.

(** ** A stream over a source *)

(** The results of one read after the other. *)
Fixpoint reads {S : Type} `{!MediaSource S} (n : nat) (now : Z) (s : S) : list (result bytes MediaError) :=
  match n with O => [] | Datatypes.S n => let '(s, r) := next_chunk now s in r :: reads n now s end.

Definition not_enough : MediaError := str "Buffer error: Not enough data in buffer".

(** A stream that has nothing buffered. *)
Definition ready_at (data : bytes) (p : Z) (s : MediaStreamImpl MemorySource) : Prop :=
  buffered (stream_buffer s) = [] /\ CHUNK <= max_size (buffer_config (stream_buffer s)) /\ current_codec s = None /\
  source_data (stream s) = data /\ source_position (stream s) = p.

Lemma stuck_reads now (s : MediaStreamImpl MemorySource) n : 0 < size (stream_buffer s) < CHUNK -> reads n now s = repeat (RErr not_enough) n.
Proof.
  intros Hs. revert s Hs. induction n as [|n IH]; intros s Hs; [done|]. cbn [reads next_chunk stream_source]. unfold read, fill.
  destruct (Z.eqb_spec (size (stream_buffer s)) 0); [lia|]. unfold pop. destruct (Z.ltb_spec (size (stream_buffer s)) CHUNK); [|lia].
  cbn [repeat]. f_equal. by apply IH.
Qed.

Lemma ended_reads now data s n : ready_at data (zlen data) s -> reads n now s = repeat (RErr (str "End of data")) n.
Proof.
  revert s. induction n as [|n IH]; intros s (Hb & Hm & Hc & Hd & Hp); [done|]. cbn [reads next_chunk stream_source]. unfold read, fill.
  unfold size at 1. rewrite Hb. cbn [zlen length]. cbn [next_chunk memory_source]. rewrite Hd, Hp.
  destruct (Z.leb_spec (zlen data) (zlen data)); [|lia]. cbn [repeat]. change (zlen (A := Z) [] =? 0) with true. cbn iota. f_equal. by apply IH.
Qed.

Lemma ready_read now data p s : 0 <= p < zlen data -> ready_at data p s ->
  let chunk := ztake CHUNK (zdrop p data) in
  exists s', if zlen data <? p + CHUNK
    then next_chunk now s = (s', RErr not_enough) /\ 0 < size (stream_buffer s') < CHUNK
    else next_chunk now s = (s', ROk chunk) /\ ready_at data (p + CHUNK) s'.
Proof.
  intros Hp (Hb & Hm & Hc & Hd & Hpos) chunk. assert (Hempty : size (stream_buffer s) = 0) by (unfold size; by rewrite Hb).
  cbn [next_chunk stream_source]. unfold read, fill. rewrite Hempty. change (0 =? 0) with true. cbn iota.
  destruct (memory_chunk now (stream s)) as (Hchunk & Hsize & _); [by rewrite Hd, Hpos|]. rewrite Hd, Hpos in Hchunk, Hsize. fold chunk in Hchunk, Hsize.
  rewrite Hchunk. unfold push. rewrite Hempty.
  destruct (Z.ltb_spec (max_size (buffer_config (stream_buffer s))) (0 + zlen chunk)); [lia|].
  unfold pop, size. cbn [stream_buffer with_buffer with_source buffered current_codec]. rewrite Hb, Hc. cbn [app].
  assert (Hlen : zlen chunk = Z.min CHUNK (zlen data - p)).
  { unfold chunk. unfold ztake, zlen. rewrite length_take. pose proof (zlen_zdrop p data). unfold zlen, CHUNK in *. lia. }
  destruct (Z.ltb_spec (zlen data) (p + CHUNK)); destruct (Z.ltb_spec (zlen chunk) CHUNK); try lia.
  - eexists. split; [reflexivity|]. unfold size. cbn. lia.
  - rewrite ztake_all, zdrop_all by lia. eexists. split; [reflexivity|]. unfold ready_at. cbn. rewrite Hc. split_and!; try done. lia.
Qed.

Lemma lookup_repeat {A} (x : A) n i y : repeat x n !! i = Some y -> y = x.
Proof. intros Hi. apply (repeat_spec n). by apply list_elem_of_In, list_elem_of_lookup_2 with i. Qed.

Lemma reads_from now data n : forall p s, 0 <= p <= zlen data -> ready_at data p s -> forall i r, reads n now s !! i = Some r ->
  let from := p + CHUNK * Z.of_nat i in
  r = if from + CHUNK <=? zlen data then ROk (ztake CHUNK (zdrop from data))
      else RErr (if (zlen data - p) mod CHUNK =? 0 then str "End of data" else not_enough).
Proof.
  induction n as [|n IH]; intros p s Hp Hs i r Hi; [done|]. destruct (Z.eq_dec p (zlen data)) as [->|Hne].
  - rewrite (ended_reads now data s (S n) Hs) in Hi. apply lookup_repeat in Hi as ->. unfold CHUNK. cbn zeta.
    destruct (Z.leb_spec (zlen data + 4096 * Z.of_nat i + 4096) (zlen data)); [lia|]. by rewrite Z.sub_diag.
  - destruct (ready_read now data p s) as (s' & Hs'); [lia|done|]. cbn [reads] in Hi. destruct (Z.ltb_spec (zlen data) (p + CHUNK)) as [Hshort|Hlong].
    + destruct Hs' as [Hr Hstuck]. rewrite Hr in Hi. rewrite stuck_reads in Hi by done. change (repeat (RErr not_enough) (S n) !! i = Some r) in Hi.
      apply lookup_repeat in Hi as ->. cbn zeta. unfold CHUNK in *. destruct (Z.leb_spec (p + 4096 * Z.of_nat i + 4096) (zlen data)); [lia|].
      rewrite Z.mod_small by lia. by destruct (Z.eqb_spec (zlen data - p) 0); [lia|].
    + destruct Hs' as [Hr Hready]. rewrite Hr in Hi. destruct i as [|i].
      * injection Hi as <-. cbn zeta. rewrite Z.mul_0_r, Z.add_0_r. by destruct (Z.leb_spec (p + CHUNK) (zlen data)); [|lia].
      * cbn in Hi. unfold CHUNK in Hlong. assert (Hp' : 0 <= p + CHUNK <= zlen data) by (unfold CHUNK; lia).
        rewrite (IH (p + CHUNK) s' Hp' Hready i r Hi). cbn zeta. unfold CHUNK.
        replace (p + 4096 + 4096 * Z.of_nat i) with (p + 4096 * Z.of_nat (S i)) by lia.
        replace (zlen data - (p + 4096)) with (zlen data - p + (-1) * 4096) by lia. by rewrite Z.mod_add.
Qed.

(** A stream over data in memory gives the whole chunks of 4096 bytes. Its reads
    want exactly that much and the buffer is filled when it is empty only, so that
    what is left over at the end, when the length is not a multiple, is never
    given: from then on every read fails. *)
Theorem stream_tail_is_stuck now data format n i r :
  reads n now (new_stream (new_memory_source data format) None None) !! i = Some r ->
  r = if CHUNK * (Z.of_nat i + 1) <=? zlen data then ROk (ztake CHUNK (zdrop (CHUNK * Z.of_nat i) data))
      else RErr (if zlen data mod CHUNK =? 0 then str "End of data" else not_enough).
Proof.
  intros Hi. pose proof (zlen_nonneg data) as Hlen. assert (Hp : 0 <= 0 <= zlen data) by lia.
  assert (Hready : ready_at data 0 (new_stream (new_memory_source data format) None None)) by (repeat split; vm_compute; discriminate).
  rewrite (reads_from now data n 0 _ Hp Hready i r Hi).
  cbn zeta. rewrite Z.add_0_l, Z.sub_0_r. by replace (CHUNK * Z.of_nat i + CHUNK) with (CHUNK * (Z.of_nat i + 1)) by lia.
Qed.

(** ** With a codec *)

Lemma run_codec_fails name : exists e, run_codec name = RErr e.
Proof. unfold run_codec. destruct (str_eqb name (str "audio")); [by eexists|]. destruct (str_eqb name (str "video")); by eexists. Qed.

(** A stream that was given a codec, whichever the registry has, works no more:
    nothing can be written to it, and a read fails too, after it took the data out
    of the buffer, where they are lost. *)
Theorem codec_blocks {S : Type} `{!MediaSource S} (s s' : MediaStreamImpl S) name now data n : set_codec s name = (s', ROk tt) ->
  (exists e, write now s' data = (s', RErr e)) /\
  (exists s2 e, read now s' n = (s2, RErr e) /\
     (0 <= n <= size (stream_buffer s') -> 0 < size (stream_buffer s') -> buffered (stream_buffer s2) = zdrop n (buffered (stream_buffer s')))).
Proof.
  unfold set_codec. destruct (registry_get _ _); [|done]. intros [= <-]. destruct (run_codec_fails name) as [e He]. split.
  - exists e. unfold write. cbn [current_codec]. by rewrite He.
  - unfold read, fill. cbn [stream_buffer stream]. destruct (Z.eqb_spec (size (stream_buffer s)) 0) as [Hz|Hz].
    + destruct (next_chunk now (stream s)) as [source [d|e1]]; [|eexists _, _; split; [done|lia]].
      destruct (push (stream_buffer s) d now) as [b [u|e1]]; [|eexists _, _; split; [done|lia]].
      cbn [stream_buffer with_buffer]. destruct (pop b n) as [b' [d'|e1]]; [|eexists _, _; split; [done|lia]].
      cbn [current_codec with_buffer with_source]. rewrite He. eexists _, _. split; [done|lia].
    + unfold pop. cbn [stream_buffer]. destruct (Z.ltb_spec (size (stream_buffer s)) n).
      * eexists _, _. split; [done|lia].
      * cbn [current_codec with_buffer]. rewrite He. by eexists _, _.
Qed.

(** ** Witnesses *)

Lemma stream_tail_is_stuck_witness :
  nth_error (reads 3 0 (new_stream (new_memory_source [1; 2; 3] Raw) None None)) 2 = Some (RErr not_enough).
Proof.
  destruct (reads 3 0 (new_stream (new_memory_source [1; 2; 3] Raw) None None) !! 2%nat) as [r|] eqn:Hr; [|vm_compute in Hr; discriminate Hr].
  pose proof (stream_tail_is_stuck 0 [1; 2; 3] Raw 3 2 r Hr) as Hstuck. vm_compute in Hstuck. rewrite Hstuck in Hr. clear Hstuck. vm_compute. reflexivity.
Defined.

Lemma codec_blocks_witness :
  let s := new_stream (new_memory_source [1; 2; 3] Raw) None None in
  exists s', set_codec s (str "opus") = (s', ROk tt) /\ exists e, write 0 s' [7] = (s', RErr e).
Proof.
  intros s. eexists. split; [reflexivity|]. exact (proj1 (codec_blocks s _ (str "opus") 0 [7] 0 eq_refl)).
Defined.
