(* ===== verification/VideoReader.v ===== *)
(** * The video reader

    Models [core/src/media/video_reader.rs]: a file is not parsed but cut into
    pieces that go round and round for thirty seconds, and a piece is wrapped in
    boxes that a browser is meant to play. Durations are nanoseconds. *)

From Stdlib Require Import SpecFloat.
From S2P Require Import Prelude Rust Float Mp4Box Mp4Data Segment MediaFragments.

#[local] Open Scope Z_scope.

Record VideoTrackInfo : Type := {
  vt_track_id : Z;
  vt_codec : rstring;
  vt_width : Z;
  vt_height : Z;
  vt_fps : float;
  vt_duration : Z;
  vt_bitrate : Z;
}.

Record VideoReader : Type := {
  video_track : option VideoTrackInfo;
  audio_track : option unit;
  file_duration : Z;
  file_data : bytes;
}.

(** [open], of a file with these bytes, with [analyze_tracks]. *)
Definition open_video (file : bytes) : VideoReader :=
  let file_duration := 30 * second in
  {| video_track := Some {| vt_track_id := 0; vt_codec := str "H.264"; vt_width := 640; vt_height := 480; vt_fps := f64_of 30;
       vt_duration := file_duration; vt_bitrate := 1000000 |};
     audio_track := None; file_duration := file_duration; file_data := file |}.

(** [Duration::from_secs_f64] of a positive number below one: to the nearest
    nanosecond, halves to even. *)
Definition nearest (num den : Z) : Z :=
  let q := num / den in
  let r := num mod den in
  if 2 * r <? den then q else if den <? 2 * r then q + 1 else if Z.even q then q else q + 1.

Definition from_secs_f64 (x : float) : Z :=
  match x with
  | S754_finite false m e => if 0 <=? e then Zpos m * 2 ^ e * second else nearest (Zpos m * second) (2 ^ (- e))
  | _ => 0
  end.

Definition CHUNK_SIZE : Z := 4096.
Definition frame_duration : Z := from_secs_f64 (f64_div (f64_of 1) (f64_of 30)).

(** The piece that would wrap around the end of the file. *)
Definition wrapped_chunk (file : bytes) (chunk_index : Z) : exec bytes :=
  let! data := slice_from file chunk_index in
  let! remaining_needed := sub_u64 CHUNK_SIZE (zlen data) in
  if (0 <? remaining_needed) && negb (zlen file =? 0) then
    let! q := div_u64 remaining_needed (zlen file) in
    for_range (Z.to_nat (q + 1)) (fun data =>
      let data := data ++ file in
      if CHUNK_SIZE <=? zlen data then Done (Break (ztake CHUNK_SIZE data)) else Done (Continue data)) data
  else Done data.

(** A round: the time, the number of the frame, and the samples so far. *)
Definition read_round (self : VideoReader) (st : Z * Z * list MediaSample) : exec (step (Z * Z * list MediaSample) (list MediaSample)) :=
  let '(current_time, frame_count, samples) := st in
  if file_duration self <=? current_time then Done (Break samples)
  else
    let! start := mul_u64 frame_count CHUNK_SIZE in
    if zlen (file_data self) =? 0 then Panic
    else
      let chunk_index := start mod zlen (file_data self) in
      let! limit := add_u64 chunk_index CHUNK_SIZE in
      let chunk_end := Z.min limit (zlen (file_data self)) in
      let! chunk_data := (if chunk_index <? chunk_end then slice (file_data self) chunk_index chunk_end else wrapped_chunk (file_data self) chunk_index) in
      if zlen chunk_data =? 0 then Done (Continue (current_time + frame_duration, frame_count, samples))
      else
        Done (Continue (current_time + frame_duration, frame_count + 1,
          samples ++ [{| sample_data := chunk_data; sample_timestamp := current_time; sample_duration := frame_duration;
                         is_sync := frame_count mod 30 =? 0; sample_track_id := 0 |}])).

Definition read_all_samples (self : VideoReader) : exec (list MediaSample) :=
  loop (Z.to_nat (file_duration self / frame_duration) + 3) (read_round self) (0, 0, []).

Definition read_all_stream_segments (self : VideoReader) (id : StreamId) : exec (list StreamSegment) :=
  let! samples := read_all_samples self in
  Done (imap (fun i sample => from_media_sample sample id (Z.of_nat i)) samples).

(** ** Boxes around a sample *)

Definition ftyp_bytes : bytes := [0; 0; 0; 24] ++ str "ftyp" ++ str "isom" ++ [0; 0; 2; 0] ++ str "isom".

Definition moov_bytes : bytes :=
  [0; 0; 0; 40] ++ str "moov" ++ [0; 0; 0; 32] ++ str "mvhd" ++ [0; 0; 0; 0] ++ [0; 0; 0; 0] ++ [0; 0; 0; 0]
    ++ [0; 0; 3; 232] ++ [0; 0; 39; 16] ++ [0; 1; 0; 0].

Definition generate_init_segment : bytes := ftyp_bytes ++ moov_bytes.

Definition generate_media_segment (sample : MediaSample) : exec bytes :=
  let h264_data := [0; 0; 0; 1] ++ (if is_sync sample then [101] else [65]) ++ sample_data sample in
  let! moof_size := add_u32 16 (as_u32 (zlen h264_data)) in
  let! mdat_size := add_u32 8 (as_u32 (zlen h264_data)) in
  Done (be_bytes 4 moof_size ++ str "moof" ++ [0; 0; 0; 16] ++ str "mfhd" ++ [0; 0; 0; 0] ++ [0; 0; 0; 1]
    ++ be_bytes 4 mdat_size ++ str "mdat" ++ h264_data).

Definition prepare_h264_sample (sample : MediaSample) : exec bytes :=
  let init := if is_sync sample then generate_init_segment else [] in
  let! media := generate_media_segment sample in
  Done (init ++ media).

Definition prepare_audio_sample (sample : MediaSample) : bytes := sample_data sample.

(** ** What is read *)

(** The frame numbered [i]. *)
Definition frame (file : bytes) (i : Z) : MediaSample :=
  {| sample_data := ztake CHUNK_SIZE (zdrop (i * CHUNK_SIZE mod zlen file) file); sample_timestamp := i * 33333333; sample_duration := 33333333;
     is_sync := i mod 30 =? 0; sample_track_id := 0 |}.

Lemma frame_duration_ns : frame_duration = 33333333.
Proof. vm_compute. reflexivity. Qed.

Lemma slice_exact {A} (l : list A) i j : 0 <= i <= j -> j <= zlen l -> slice l i j = Done (ztake (j - i) (zdrop i l)).
Proof.
  intros. unfold slice. replace ((0 <=? i) && (i <=? j) && (j <=? zlen l)) with true; [done|]. symmetry. rewrite !andb_true_iff, !Z.leb_le. lia.
Qed.

Lemma read_round_frame file i samples : 0 < zlen file <= isize_max -> 0 <= i <= 900 ->
  read_round (open_video file) (i * 33333333, i, samples) = Done (Continue ((i + 1) * 33333333, i + 1, samples ++ [frame file i])).
Proof.
  intros Hf Hi. unfold read_round. cbn [open_video file_duration file_data]. destruct (Z.leb_spec (30 * second) (i * 33333333)); [unfold second in *; lia|].
  unfold mul_u64, CHUNK_SIZE. rewrite checked_done by (unfold u64_max; lia). cbn [exec_bind]. destruct (Z.eqb_spec (zlen file) 0); [lia|].
  pose proof (Z.mod_pos_bound (i * 4096) (zlen file)). set (k := i * 4096 mod zlen file) in *. unfold add_u64.
  rewrite checked_done by (unfold isize_max, u64_max in *; lia). cbn [exec_bind]. destruct (Z.ltb_spec k (Z.min (k + 4096) (zlen file))); [|lia].
  rewrite slice_exact by lia. cbn [exec_bind]. rewrite frame_duration_ns.
  assert (Hchunk : ztake (Z.min (k + 4096) (zlen file) - k) (zdrop k file) = ztake 4096 (zdrop k file)).
  { destruct (Z.min_spec (k + 4096) (zlen file)) as [[_ ->]|[? ->]]; [f_equal; lia|]. rewrite !ztake_all; rewrite ?zlen_zdrop by lia; done || lia. }
  rewrite Hchunk. assert (Hlen : zlen (ztake 4096 (zdrop k file)) <> 0).
  { rewrite <- Hchunk. rewrite zlen_ztake; [lia|]. rewrite zlen_zdrop by lia. lia. }
  destruct (Z.eqb_spec (zlen (ztake 4096 (zdrop k file))) 0); [done|]. unfold frame, CHUNK_SIZE. fold k. do 2 f_equal.
  replace (i * 33333333 + 33333333) with ((i + 1) * 33333333) by lia. done.
Qed.

Lemma read_rounds file n : forall i samples fuel, 0 < zlen file <= isize_max -> 0 <= i -> i + Z.of_nat n = 901 -> (n < fuel)%nat ->
  loop fuel (read_round (open_video file)) (i * 33333333, i, samples) = Done (samples ++ map (frame file) (seqZ i (Z.of_nat n))).
Proof.
  induction n as [|n IH]; intros i samples fuel Hf Hi Hn Hfuel; (destruct fuel as [|fuel]; [lia|]); cbn [loop].
  - assert (i = 901) as -> by lia. unfold read_round at 1. cbn [open_video file_duration]. destruct (Z.leb_spec (30 * second) (901 * 33333333)); [|unfold second in *; lia].
    cbn. by rewrite app_nil_r.
  - rewrite read_round_frame by lia. cbn [exec_bind]. rewrite IH by lia. rewrite (seqZ_cons i (Z.of_nat (S n))) by lia. cbn [map].
    rewrite <- app_assoc. cbn [app]. replace (Z.succ i) with (i + 1) by lia. by replace (Z.pred (Z.of_nat (S n))) with (Z.of_nat n) by lia.
Qed.

Lemma read_all_samples_spec file : zlen file <= isize_max ->
  read_all_samples (open_video file) = match file with [] => Panic | _ => Done (map (frame file) (seqZ 0 901)) end.
Proof.
  intros Hl. unfold read_all_samples. cbn [open_video file_duration]. rewrite frame_duration_ns.
  replace (Z.to_nat (30 * second / 33333333) + 3)%nat with 903%nat by (vm_compute; reflexivity). destruct file as [|b file].
  - cbn [loop]. unfold read_round. cbn. reflexivity.
  - pose proof (zlen_nonneg file). pose proof (read_rounds (b :: file) 901 0 [] 903 ltac:(by zlia) ltac:(lia) ltac:(lia) ltac:(lia)) as Hr.
    change (0 * 33333333) with 0 in Hr. by rewrite Hr.
Qed.

Lemma piece_nonempty (file : bytes) k : 0 <= k < zlen file -> ztake CHUNK_SIZE (zdrop k file) <> [].
Proof.
  intros Hk Hnil. apply (f_equal zlen) in Hnil. change (zlen (@nil Z)) with 0 in Hnil. destruct (Z.le_gt_cases CHUNK_SIZE (zlen file - k)).
  - rewrite zlen_ztake in Hnil by (rewrite zlen_zdrop by lia; unfold CHUNK_SIZE in *; lia). unfold CHUNK_SIZE in Hnil. lia.
  - rewrite ztake_all in Hnil by (rewrite zlen_zdrop by lia; lia). rewrite zlen_zdrop in Hnil by lia. lia.
Qed.

(** What a segment of a file holds. *)
Definition video_segment (file : bytes) (id : StreamId) (i : Z) (s : StreamSegment) : Prop :=
  seg_sequence s = i /\ seg_stream_id s = id /\ seg_media_type s = Video /\
  seg_data s = ztake CHUNK_SIZE (zdrop (i * CHUNK_SIZE mod zlen file) file) /\ seg_data s <> [] /\
  pts_us s = i * 33333333 / 1000 /\ duration_us s = 33333 /\ seg_is_keyframe s = (i mod 30 =? 0).

(** Of any file that is not empty the reader makes nine hundred and one
    segments, whatever the file is: the pieces of 4096 bytes one after the
    other, starting again where they run over the end, thirty to a second with
    the first of each thirty a keyframe, none empty. An empty file panics it. *)
Theorem video_segments file id : zlen file <= isize_max ->
  match file with
  | [] => read_all_stream_segments (open_video file) id = Panic
  | _ => exists segments, read_all_stream_segments (open_video file) id = Done segments /\ zlen segments = 901 /\
      forall i s, segments !! i = Some s -> video_segment file id (Z.of_nat i) s
  end.
Proof.
  intros Hl. unfold read_all_stream_segments. rewrite read_all_samples_spec by done. destruct file as [|b rest] eqn:Hf; [done|]. rewrite <- Hf in *.
  cbn [exec_bind]. eexists. split; [reflexivity|]. split; [unfold zlen; by rewrite length_imap, length_map, length_seqZ|].
  intros i s Hi. rewrite list_lookup_imap in Hi. apply fmap_Some in Hi as (x & Hx & ->). rewrite list_lookup_fmap in Hx.
  apply fmap_Some in Hx as (k & Hk & ->). apply lookup_seqZ in Hk as [-> Hk]. rewrite Z.add_0_l.
  assert (Hpos : 0 < zlen file) by (rewrite Hf; pose proof (zlen_nonneg rest); by zlia).
  unfold from_media_sample, frame, as_micros. cbn. repeat split.
  - apply piece_nonempty. by apply Z.mod_pos_bound.
  - apply as_u64_small. unfold is_u64, u64_max. pose proof (Z.div_le_mono (Z.of_nat i * 33333333) (901 * 33333333) 1000). 
    split; [apply Z.div_pos; lia|]. assert (901 * 33333333 / 1000 = 30033333) by reflexivity. lia.
Qed.

(** ** What a browser would read *)

Lemma round_at pre a b tail found : zlen a = 4 -> zlen b = 4 -> 8 <= be_val a -> let data := pre ++ a ++ b ++ tail in
  fp_round data (zlen pre, found) =
  Done (if 8 + zlen tail <? be_val a then Break (found, ROk tt)
        else Continue (zlen pre + be_val a, found ++ [{| bi_header := {| box_type := from_utf8_lossy b; bh_size := be_val a; content_start := 8 |};
                                                         bi_content := Raw (ztake (be_val a - 8) tail); bi_offset := zlen pre |}])).
Proof.
  intros Ha Hb Hs data. pose proof (zlen_nonneg tail). pose proof (zlen_nonneg pre).
  assert (Hlen : zlen data = zlen pre + (8 + zlen tail)) by (unfold data; zlia). unfold fp_round. rewrite Hlen.
  destruct (Z.leb_spec (zlen pre + (8 + zlen tail)) (zlen pre)); [lia|]. destruct (Z.ltb_spec (zlen pre + (8 + zlen tail)) (zlen pre + 8)); [lia|].
  unfold slice_from. rewrite slice_exact by lia. cbn [exec_bind]. rewrite ztake_all by (rewrite zlen_zdrop by lia; lia).
  replace (zdrop (zlen pre) data) with (a ++ b ++ tail) by (unfold data; by rewrite zdrop_app_exact).
  rewrite parse_header_done by zlia. cbn [exec_bind bh_size]. rewrite (ztake_app_eq 4 a), (zdrop_app_eq 4 a), (ztake_app_eq 4 b) by done.
  destruct (Z.ltb_spec (be_val a) 8); [lia|]. replace (zlen pre + (8 + zlen tail) <? zlen pre + be_val a) with (8 + zlen tail <? be_val a)
    by (destruct (Z.ltb_spec (8 + zlen tail) (be_val a)), (Z.ltb_spec (zlen pre + (8 + zlen tail)) (zlen pre + be_val a)); done || lia).
  destruct (Z.ltb_spec (8 + zlen tail) (be_val a)); [done|]. rewrite slice_exact by lia. cbn [exec_bind].
  replace (zlen pre + be_val a - (zlen pre + 8)) with (be_val a - 8) by lia.
  replace (zdrop (zlen pre + 8) data) with tail; [done|]. unfold data. rewrite <- zdrop_zdrop, zdrop_app_exact by lia.
  rewrite app_assoc, zdrop_app_eq; [done|]. zlia.
Qed.

(** A keyframe is sent with an initialization segment before it, but its first
    box says that it is four bytes longer than it is: a reader takes the size of
    the [moov] box into it, finds no [moov] and no fragment, and stops. *)
Theorem keyframe_unreadable sample : is_sync sample = true -> zlen (sample_data sample) <= 1000000000 ->
  exists data parser, prepare_h264_sample sample = Done data /\ parse_fragments new_fragment_parser data = Done (parser, ROk tt) /\
    map (fun b => box_type (bi_header b)) (fp_boxes parser) = [str "ftyp"] /\ fp_tracks parser = [] /\ fp_is_fragmented parser = false.
Proof.
  intros Hs Hl. pose proof (zlen_nonneg (sample_data sample)) as H0. unfold prepare_h264_sample, generate_media_segment. rewrite Hs.
  set (h264 := [0; 0; 0; 1] ++ [101] ++ sample_data sample). assert (Hh : zlen h264 = 5 + zlen (sample_data sample)) by (unfold h264; zlia).
  unfold add_u32. rewrite as_u32_small by (unfold is_u32, u32_max; lia). rewrite !checked_done by (unfold u32_max; lia). cbn [exec_bind].
  set (media := be_bytes 4 (16 + zlen h264) ++ _). assert (Hm : zlen media = 32 + zlen h264) by (unfold media; rewrite !zlen_app, !zlen_be_bytes; change (zlen (str "moof")) with 4; change (zlen (str "mfhd")) with 4;
    change (zlen (str "mdat")) with 4; zlia).
  clearbody media. set (mvhd := zdrop 8 moov_bytes). set (tail := mvhd ++ media). assert (Ht : zlen tail = 32 + zlen media) by (unfold tail; rewrite zlen_app; done).
  assert (Hd1 : generate_init_segment ++ media = [] ++ [0; 0; 0; 24] ++ str "ftyp" ++ (str "isom" ++ [0; 0; 2; 0] ++ str "isom" ++ [0; 0; 0; 40]) ++ str "moov" ++ [0; 0; 0; 32] ++ zdrop 4 mvhd ++ media) by reflexivity.
  assert (Hd2 : generate_init_segment ++ media = ([0; 0; 0; 24] ++ str "ftyp" ++ str "isom" ++ [0; 0; 2; 0] ++ str "isom" ++ [0; 0; 0; 40]) ++ str "moov" ++ [0; 0; 0; 32] ++ (zdrop 4 mvhd ++ media)) by reflexivity.
  assert (Hlen : exists n, length (generate_init_segment ++ media) = S n) by by eexists. destruct Hlen as [n Hn].
  eexists _, _. split; [reflexivity|]. unfold parse_fragments, parse_fragment_boxes. rewrite Hn. cbn [loop new_fragment_parser fp_boxes].
  rewrite Hd1. change (0, @nil BoxInfo) with (zlen (@nil Z), @nil BoxInfo). rewrite round_at by done. cbn [exec_bind].
  match goal with |- context [if ?c then _ else _] => replace c with false end.
  2:{ symmetry. apply Z.ltb_ge. change (be_val [0; 0; 0; 24]) with 24. rewrite !zlen_app. change (zlen (str "isom")) with 4. pose proof (zlen_nonneg (zdrop 4 mvhd ++ media)). zlia. }
  destruct n as [|n]; [apply (f_equal Z.of_nat) in Hn; fold (zlen (generate_init_segment ++ media)) in Hn; rewrite zlen_app in Hn; change (zlen generate_init_segment) with 60 in Hn; lia|].
  cbn [loop]. rewrite <- Hd1, Hd2. match goal with |- context [fp_round _ (?o, ?f)] => change o with (zlen ([0; 0; 0; 24] ++ str "ftyp" ++ str "isom" ++ [0; 0; 2; 0] ++ str "isom" ++ [0; 0; 0; 40])) end.
  rewrite round_at by done. match goal with |- context [if ?c then _ else _] => replace c with true end.
  2:{ symmetry. apply Z.ltb_lt. change (be_val (str "moov")) with 1836019574. rewrite zlen_app. change (zlen (zdrop 4 mvhd)) with 28. lia. }
  cbn [exec_bind fst snd]. split; [reflexivity|]. split; [reflexivity|]. by split.
Qed.

Lemma video_segments_witness : zlen [1; 2; 3] <= isize_max /\ exists segments, read_all_stream_segments (open_video [1; 2; 3]) (str "s") = Done segments /\ zlen segments = 901.
Proof.
  assert (Hl : zlen [1; 2; 3] <= isize_max) by (vm_compute; discriminate). split; [exact Hl|].
  destruct (video_segments [1; 2; 3] (str "s") Hl) as (segments & Hr & Hn & _). exists segments. exact (conj Hr Hn).
Defined.

Lemma keyframe_unreadable_witness : exists data parser, prepare_h264_sample (frame [1; 2; 3] 0) = Done data /\
  parse_fragments new_fragment_parser data = Done (parser, ROk tt) /\ fp_tracks parser = [].
Proof.
  destruct (keyframe_unreadable (frame [1; 2; 3] 0) eq_refl ltac:(vm_compute; discriminate)) as (data & parser & Hd & Hp & _ & Ht & _).
  exists data, parser. exact (conj Hd (conj Hp Ht)).
Defined.
