(* ===== verification/BootstrapServer.v ===== *)
(** * The bootstrap server

    Models [node/src/bootstrap_server.rs]: the peers it tracks and the topics it
    joins, as a state machine over the events of its swarm and the ticks of its
    cleanup. The swarm is an interface: what the server asks of it is recorded,
    and what it answers is an argument. *)

From S2P Require Import Prelude Rust Format.

#[local] Open Scope Z_scope.

Section BootstrapServer.
Context {PeerId Address : Type} `{Countable PeerId}.

Record BootstrapServerConfig : Type := {
  listen_addr : rstring;
  port : Z;
  max_peers : Z;
  peer_expiration : Z;
  enable_relay : bool;
  max_reservations : Z;
  max_circuits : Z;
}.

Definition default_config : BootstrapServerConfig :=
  {| listen_addr := str "0.0.0.0"; port := 9000; max_peers := 1000; peer_expiration := 3600 * second; enable_relay := true;
     max_reservations := 128; max_circuits := 512 |}.

(** The last two fields are what was asked of the swarm. *)
Record BootstrapServer : Type := {
  config : BootstrapServerConfig;
  peers : gmap PeerId Z;
  subscribed_stream_topics : gset rstring;
  dht_addresses : list (PeerId * Address);
  joined : list rstring;
}.

Definition new_server (config : BootstrapServerConfig) : BootstrapServer :=
  {| config := config; peers := ∅; subscribed_stream_topics := ∅; dht_addresses := []; joined := [str "obn/streams/announce"; str "discovery"] |}.

Definition with_peers (self : BootstrapServer) (v : gmap PeerId Z) (added : list (PeerId * Address)) : BootstrapServer :=
  {| config := config self; peers := v; subscribed_stream_topics := subscribed_stream_topics self; dht_addresses := dht_addresses self ++ added;
     joined := joined self |}.

Definition with_topic (self : BootstrapServer) (topic : rstring) : BootstrapServer :=
  {| config := config self; peers := peers self; subscribed_stream_topics := {[topic]} ∪ subscribed_stream_topics self;
     dht_addresses := dht_addresses self; joined := joined self ++ [topic] |}.

(** The events that [handle_event] does more with than to log them; a
    subscription comes with the answer of the swarm to joining it. *)
Inductive server_event : Type :=
| ConnectionEstablished (peer : PeerId) (address : Address)
| IdentifyReceived (peer : PeerId) (listen_addrs : list Address) (now : Z)
| TopicSubscribed (peer : PeerId) (topic : rstring) (ok : bool)
| OtherEvent
| CleanupTick (now : Z).

(** Tracking a peer: a known one is always refreshed. *)
Definition track (self : BootstrapServer) (peer : PeerId) (now : Z) : gmap PeerId Z :=
  if (Z.of_nat (size (peers self)) <? max_peers (config self)) || bool_decide (is_Some (peers self !! peer)) then <[peer := now]> (peers self) else peers self.

Definition fresh_peer (self : BootstrapServer) (now : Z) (e : PeerId * Z) : Prop := Z.max 0 (now - snd e) < peer_expiration (config self).

#[global] Instance fresh_peer_dec self now e : Decision (fresh_peer self now e).
Proof. unfold fresh_peer. apply _. Defined.

Definition cleanup_expired_peers (self : BootstrapServer) (now : Z) : BootstrapServer :=
  with_peers self (filter (fresh_peer self now) (peers self)) [].

Definition handle_event (self : BootstrapServer) (e : server_event) : BootstrapServer :=
  match e with
  | ConnectionEstablished peer address => with_peers self (peers self) [(peer, address)]
  | IdentifyReceived peer listen_addrs now => with_peers self (track self peer now) (map (pair peer) listen_addrs)
  | TopicSubscribed peer topic ok =>
      if starts_with topic (str "stream/") && negb (bool_decide (topic ∈ subscribed_stream_topics self)) then
        if ok then with_topic self topic else self
      else self
  | OtherEvent => self
  | CleanupTick now => cleanup_expired_peers self now
  end.

Definition server_run (config : BootstrapServerConfig) (events : list server_event) : BootstrapServer := fold_left handle_event events (new_server config).

(** ** What the server keeps *)

(** The topics that peers asked for and the swarm joined. *)
Definition asked_topics (events : list server_event) : gset rstring :=
  list_to_set (omap (fun e => match e with TopicSubscribed _ topic true => if starts_with topic (str "stream/") then Some topic else None | _ => None end) events).

(** When a peer identified itself last. *)
Fixpoint last_identified (events : list server_event) (peer : PeerId) : option Z :=
  match events with
  | [] => None
  | e :: events =>
      match last_identified events peer with
      | Some t => Some t
      | None => match e with IdentifyReceived p _ now => if bool_decide (p = peer) then Some now else None | _ => None end
      end
  end.

Record server_ok (config0 : BootstrapServerConfig) (events : list server_event) (self : BootstrapServer) : Prop := {
  ok_config : config self = config0;
  ok_bound : Z.of_nat (size (peers self)) <= Z.max 0 (max_peers config0);
  ok_peers : forall peer t, peers self !! peer = Some t -> last_identified events peer = Some t;
  ok_topics : subscribed_stream_topics self = asked_topics events;
}.

Lemma last_identified_snoc events e peer : last_identified (events ++ [e]) peer =
  match e with IdentifyReceived p _ now => if bool_decide (p = peer) then Some now else last_identified events peer | _ => last_identified events peer end.
Proof.
  induction events as [|x events IH]; [by destruct e; cbn; try case_match|]. cbn [app last_identified]. rewrite IH. destruct e; try done.
  by destruct (bool_decide (peer0 = peer)).
Qed.

Lemma asked_topics_snoc events e : asked_topics (events ++ [e]) =
  asked_topics events ∪ match e with TopicSubscribed _ topic true => if starts_with topic (str "stream/") then {[topic]} else ∅ | _ => ∅ end.
Proof.
  unfold asked_topics. rewrite omap_app, list_to_set_app_L. f_equal. destruct e as [| |peer topic []| |]; cbn; try done. destruct (starts_with _ _); cbn; [|done]. set_solver.
Qed.

Lemma track_bound self peer now : Z.of_nat (size (track self peer now)) <= Z.max (Z.of_nat (size (peers self))) (max_peers (config self)).
Proof.
  unfold track. destruct (_ || _) eqn:Hc; [|lia]. rewrite map_size_insert. destruct (peers self !! peer) eqn:Hp; cbn; [lia|].
  rewrite orb_true_iff in Hc. destruct Hc as [Hlt%Z.ltb_lt|[? ?]%bool_decide_eq_true]; [lia|congruence].
Qed.

Lemma track_lookup self peer now p t : track self peer now !! p = Some t -> (p = peer /\ t = now) \/ (p <> peer /\ peers self !! p = Some t).
Proof.
  unfold track. destruct (_ || _) eqn:Hc.
  - intros [[<- <-]|[Hne Hp]]%lookup_insert_Some; [by left|right]. by split.
  - intros Hp. right. split; [|done]. intros ->. rewrite orb_false_iff in Hc. destruct Hc as [_ Hn%bool_decide_eq_false]. apply Hn. by eexists.
Qed.

Lemma server_event_ok config0 events self e : server_ok config0 events self -> server_ok config0 (events ++ [e]) (handle_event self e).
Proof.
  intros [Hc Hb Hp Ht]. destruct e as [peer address|peer addrs now|peer topic ok| |now]; cbn [handle_event].
  - split; cbn; [done|done| |by rewrite asked_topics_snoc, (right_id_L ∅ (∪))]. intros p t Hpt. rewrite last_identified_snoc. by apply Hp.
  - split; cbn; [done| | |by rewrite asked_topics_snoc, (right_id_L ∅ (∪))].
    + pose proof (track_bound self peer now) as Hb'. rewrite Hc in Hb'. lia.
    + intros p t [[-> ->]|[Hne Hpt]]%track_lookup; rewrite last_identified_snoc; [by rewrite bool_decide_true|].
      rewrite bool_decide_false by congruence. by apply Hp.
  - assert (Hsame : asked_topics (events ++ [TopicSubscribed peer topic ok]) = asked_topics events -> server_ok config0 (events ++ [TopicSubscribed peer topic ok]) self).
    { intros Hs. split; [done|done| |by rewrite Hs]. intros p t Hpt. rewrite last_identified_snoc. by apply Hp. }
    rewrite asked_topics_snoc in Hsame. destruct ok; [|cbn in Hsame; destruct (_ && _); apply Hsame; by rewrite (right_id_L ∅ (∪))].
    destruct (starts_with topic (str "stream/")) eqn:Hs; cbn [andb]; [|apply Hsame; by rewrite (right_id_L ∅ (∪))].
    destruct (decide (topic ∈ subscribed_stream_topics self)) as [Hin|Hin].
    + rewrite bool_decide_true by done. cbn. apply Hsame. rewrite Ht in Hin. set_solver.
    + rewrite bool_decide_false by done. cbn. split; cbn; [done|done| |].
      * intros p t Hpt. rewrite last_identified_snoc. by apply Hp.
      * rewrite asked_topics_snoc, Hs, Ht. set_solver.
  - split; [done|done| |by rewrite asked_topics_snoc, (right_id_L ∅ (∪))]. intros p t Hpt. rewrite last_identified_snoc. by apply Hp.
  - split; cbn; [done| | |by rewrite asked_topics_snoc, (right_id_L ∅ (∪))].
    + assert (Hle : (size (filter (fresh_peer self now) (peers self)) <= size (peers self))%nat) by (apply map_subseteq_size, map_filter_subseteq). lia.
    + intros p t [Hpt _]%map_lookup_filter_Some. rewrite last_identified_snoc. by apply Hp.
Qed.

Lemma server_run_ok config0 events : server_ok config0 events (server_run config0 events).
Proof.
  induction events as [|e events IH] using rev_ind.
  - split; [done| | |done]; [cbn; change (size (∅ : gmap PeerId Z)) with 0%nat; lia|]. intros p t Hp. cbn in Hp. by rewrite lookup_empty in Hp.
  - unfold server_run. rewrite fold_left_app. cbn [fold_left]. by apply server_event_ok.
Qed.

(** C29: After any events the server tracks at most as many peers as it may, each
    with the time it identified itself last, and right after a cleanup none of
    them is expired. Its topics are exactly those of streams that a peer
    subscribed to and the swarm joined: it leaves none, however many there are. *)
Theorem server_tracks config0 events :
  let self := server_run config0 events in
  Z.of_nat (size (peers self)) <= Z.max 0 (max_peers config0) /\
  (forall peer t, peers self !! peer = Some t -> last_identified events peer = Some t) /\
  subscribed_stream_topics self = asked_topics events /\
  forall now peer t, peers (handle_event self (CleanupTick now)) !! peer = Some t <->
    peers self !! peer = Some t /\ Z.max 0 (now - t) < peer_expiration config0.
Proof.
  intros self. destruct (server_run_ok config0 events) as [Hc Hb Hp Ht]. fold self in Hc, Hb, Hp, Ht. split; [done|]. split; [done|]. split; [done|].
  intros now peer t. cbn. rewrite map_lookup_filter_Some. unfold fresh_peer. cbn. by rewrite Hc.
Qed.
End BootstrapServer.
