(* ===== verification/Visualization.v ===== *)
(** * What the command line shows

    Models [node/src/visualization.rs]: the tables of streams and peers, the graph
    of the network, the status, and the formats of sizes and times. How a peer's
    identifier is written, and a number with two decimals, are parameters. *)

From S2P Require Import Prelude Rust Format Float Hash StreamTree Peers Segment Overlay.

#[local] Open Scope Z_scope.

(** ** Text *)

Definition newline : rstring := [10].
Definition quote : rstring := [34].
Definition backslash_n : rstring := [92; 110].

(** [writeln!]. *)
Definition writeln (s : rstring) : rstring := s ++ newline.

Definition chars (s : rstring) : list rstring := map chunk_bytes (utf8_chunks s).
Definition char_count (s : rstring) : Z := zlen (chars s).

(** [{:<n}]. *)
Definition pad_to (n : Z) (s : rstring) : rstring := s ++ repeat 32 (Z.to_nat (n - char_count s)).

(** [s.chars().take(n).collect()]. *)
Definition take_chars (n : nat) (s : rstring) : rstring := concat (take n (chars s)).

(** [&s[0..n]]: panics beyond the end and inside a character. *)
Definition str_prefix (s : rstring) (n : Z) : exec rstring :=
  if n =? zlen s then Done s
  else let! b := index s n in if is_cont b then Panic else Done (ztake n s).

Section Formats.
Context (two_places : float -> rstring).

Definition KB : Z := 1024.
Definition MB : Z := KB * 1024.
Definition GB : Z := MB * 1024.
Definition TB : Z := GB * 1024.

Definition format_bytes (bytes : Z) : rstring :=
  let as_unit unit name := two_places (f64_of bytes / f64_of unit)%f64 ++ str name in
  if bytes <? KB then decimal bytes ++ str " B"
  else if bytes <? MB then as_unit KB " KB"
  else if bytes <? GB then as_unit MB " MB"
  else if bytes <? TB then as_unit GB " GB"
  else as_unit TB " TB".

Definition format_duration (seconds : Z) : rstring :=
  if seconds <? 60 then decimal seconds ++ str "s"
  else if seconds <? 3600 then decimal (seconds / 60) ++ str "m " ++ decimal (seconds mod 60) ++ str "s"
  else decimal (seconds / 3600) ++ str "h " ++ decimal (seconds mod 3600 / 60) ++ str "m".

(** ** The table of streams *)

Definition short_stream (stream_id : rstring) : exec rstring :=
  if 35 <? zlen stream_id then let! p := str_prefix stream_id 32 in Done (p ++ str "...") else Done stream_id.

Definition stream_row (i : Z) (stream : StreamId) : exec rstring :=
  let! short_id := short_stream (show_stream_id stream) in
  let! subscribers := mul_u64 (i + 1) 3 in
  let! bandwidth := mul_u64 (i + 1) 150000 in
  Done (writeln (str "│ " ++ pad_to 35 short_id ++ str " │ " ++ pad_to 11 (decimal subscribers) ++ str " │ "
                 ++ pad_to 11 (format_bytes bandwidth) ++ str " │")).

Definition create_stream_table (streams : list StreamId) : exec rstring :=
  match streams with
  | [] => Done (str "No active streams" ++ newline)
  | _ =>
      let head := writeln (str "┌─────────────────────────────────────┬─────────────┬─────────────┐")
        ++ writeln (str "│ Stream ID                           │ Subscribers │ Bandwidth   │")
        ++ writeln (str "├─────────────────────────────────────┼─────────────┼─────────────┤") in
      let! r := for_each (fun '(i, output) stream => let! row := stream_row i stream in Done (i + 1, output ++ row)) streams (0, head) in
      Done (snd r ++ writeln (str "└─────────────────────────────────────┴─────────────┴─────────────┘"))
  end.

(** ** The status *)

Definition status_line (label value : rstring) : rstring := writeln (str "║ " ++ label ++ pad_to 35 value ++ str " ║").

Definition create_network_status (stats : OverlayStats) (uptime : Z) : rstring :=
  writeln (str "╔══════════════════════════════════════════════════════════════╗")
  ++ writeln (str "║                    NETWORK STATUS                           ║")
  ++ writeln (str "╠══════════════════════════════════════════════════════════════╣")
  ++ status_line (str "Uptime:              ") (format_duration uptime)
  ++ status_line (str "Connected Peers:     ") (decimal (ov_connected stats))
  ++ status_line (str "Discovered Peers:    ") (decimal (ov_discovered stats))
  ++ status_line (str "Active Streams:      ") (decimal (ov_active_streams stats))
  ++ status_line (str "Relay Nodes:         ") (decimal (ov_relay_nodes stats))
  ++ status_line (str "Incoming Bandwidth:  ") (format_bytes (ov_incoming stats))
  ++ status_line (str "Outgoing Bandwidth:  ") (format_bytes (ov_outgoing stats))
  ++ status_line (str "Average Latency:     ") (decimal (ov_average_latency stats) ++ str "ms")
  ++ writeln (str "╚══════════════════════════════════════════════════════════════╝").
End Formats.

(** ** Peers *)

Definition role_text (r : PeerRole) : rstring :=
  match r with
  | Publisher => str "Publisher" | Consumer => str "Consumer" | Relay => str "Relay" | HybridRelay => str "Hybrid"
  | Gateway => str "Gateway" | UnknownRole => str "Unknown"
  end.
Definition debug_role (r : PeerRole) : rstring :=
  match r with HybridRelay => str "HybridRelay" | r => role_text r end.
Definition role_color (r : PeerRole) : rstring :=
  match r with
  | Publisher => str "lightblue" | Consumer => str "lightgreen" | Relay => str "lightyellow" | HybridRelay => str "lightcoral"
  | Gateway => str "lightpink" | UnknownRole => str "lightgray"
  end.
Definition connection_text (c : ConnectionStatus) : rstring :=
  match c with
  | Connected => str "✓ Connected" | Connecting => str "⏳ Connecting" | Disconnected => str "✗ Disconnected" | ConnError => str "❌ Error"
  end.

(** [visualize_tree]: the role of the root is all it shows. *)
Definition visualize_tree (root : PeerRole) : rstring :=
  writeln (str "Tree Topology:") ++ newline ++ writeln (str "Root: " ++ debug_role root)
  ++ writeln (str "├── Child nodes would be displayed here")
  ++ writeln (str "└── Tree visualization available when topology data is accessible").

Section Peers.
Context {PeerId : Type} `{Countable PeerId, !HashOrder PeerId}.

(** The identifier in base58, and how many bytes it has. *)
Context (base58 : PeerId -> rstring) (byte_length : PeerId -> Z).

Notation Peers := (gmap PeerId (PeerInfo PeerId)).

Definition peer_row (show_location : bool) (e : PeerId * PeerInfo PeerId) : rstring :=
  let '(peer_id, peer_info) := e in
  let latency := decimal (byte_length peer_id mod 100 + 10) ++ str "ms" in
  writeln (str "│ " ++ pad_to 15 (take_chars 15 (base58 peer_id)) ++ str " │ " ++ pad_to 11 (role_text (info_role peer_info)) ++ str " │ "
    ++ pad_to 11 (connection_text (info_status peer_info)) ++ str " │ "
    ++ (if show_location then pad_to 11 (str "Unknown") ++ str " │ " else [])
    ++ pad_to 11 latency ++ str " │").

Definition create_peer_table (peers : Peers) (show_location : bool) : rstring :=
  if bool_decide (peers = ∅) then str "No connected peers" ++ newline
  else
    (if show_location then
       writeln (str "┌─────────────────┬─────────────┬─────────────┬─────────────┬─────────────┐")
       ++ writeln (str "│ Peer ID         │ Role        │ Connection  │ Location    │ Latency     │")
       ++ writeln (str "├─────────────────┼─────────────┼─────────────┼─────────────┼─────────────┤")
     else
       writeln (str "┌─────────────────┬─────────────┬─────────────┬─────────────┐")
       ++ writeln (str "│ Peer ID         │ Role        │ Connection  │ Latency     │")
       ++ writeln (str "├─────────────────┼─────────────┼─────────────┼─────────────┤"))
    ++ concat (map (peer_row show_location) (map_iter peers))
    ++ (if show_location then writeln (str "└─────────────────┴─────────────┴─────────────┴─────────────┴─────────────┘")
        else writeln (str "└─────────────────┴─────────────┴─────────────┴─────────────┘")).

(** ** The graph *)

Definition quoted (s : rstring) : rstring := quote ++ s ++ quote.
Definition node_id (p : PeerId) : rstring := quoted (take_chars 12 (base58 p)).

Definition node_line (e : PeerId * PeerInfo PeerId) : rstring :=
  let role := info_role (snd e) in
  writeln (str "  " ++ node_id (fst e) ++ str " [label=" ++ quoted (take_chars 12 (base58 (fst e)) ++ backslash_n ++ debug_role role)
           ++ str ", fillcolor=" ++ quoted (role_color role) ++ str "];").

Definition edge_line (e : PeerId * PeerId) : rstring := writeln (str "  " ++ node_id (fst e) ++ str " -- " ++ node_id (snd e) ++ str ";").

(** The pairs of the two loops: each peer with those behind it. *)
Fixpoint edge_pairs (peer_ids : list PeerId) : list (PeerId * PeerId) :=
  match peer_ids with [] => [] | p :: rest => map (pair p) rest ++ edge_pairs rest end.

Definition graph_head (stream_id : option StreamId) : rstring :=
  writeln (str "digraph NetworkTopology {") ++ writeln (str "  rankdir=LR;")
  ++ writeln (str "  node [shape=box, style=filled, fontname=" ++ quoted (str "Arial") ++ str "];")
  ++ writeln (str "  edge [fontname=" ++ quoted (str "Arial") ++ str "];") ++ newline
  ++ writeln (str "  label=" ++ quoted (match stream_id with
                                        | Some stream => str "Network Topology for Stream: " ++ show_stream_id stream
                                        | None => str "Global Network Topology"
                                        end) ++ str ";")
  ++ writeln (str "  labelloc=" ++ quoted (str "t") ++ str ";") ++ newline.

Definition generate_dot_graph (peers : Peers) (stream_id : option StreamId) : rstring :=
  graph_head stream_id ++ concat (map node_line (map_iter peers)) ++ newline ++ concat (map edge_line (edge_pairs (keys peers))) ++ writeln (str "}").

(** ** The graph is complete *)

Lemma edge_pairs_elem l p q : (p, q) ∈ edge_pairs l -> p ∈ l /\ q ∈ l.
Proof.
  induction l as [|x l IH]; [by intros ?%not_elem_of_nil|]. cbn. rewrite elem_of_app, !elem_of_cons. intros [(y & [= <- <-] & Hy)%elem_of_map|[]%IH]; auto.
Qed.

Lemma edge_pairs_one l p q : NoDup l -> p ∈ l -> q ∈ l -> p <> q -> ((p, q) ∈ edge_pairs l /\ (q, p) ∉ edge_pairs l) \/ ((q, p) ∈ edge_pairs l /\ (p, q) ∉ edge_pairs l).
Proof.
  induction l as [|x l IH]; intros Hnd Hp Hq Hne; [by apply not_elem_of_nil in Hp|]. apply list.NoDup_cons in Hnd as [Hx Hnd]. cbn [edge_pairs].
  assert (Hmap : forall a b, (a, b) ∈ map (pair x) l <-> a = x /\ b ∈ l).
  { intros a b. rewrite elem_of_map. split; [by intros (y & [= -> ->] & Hy)|intros [-> Hb]; by exists b]. }
  assert (Hfirst : forall b, b ∈ l -> b <> x -> (x, b) ∈ map (pair x) l ++ edge_pairs l /\ (b, x) ∉ map (pair x) l ++ edge_pairs l).
  { intros b Hb Hbx. rewrite !elem_of_app, !Hmap. split; [by left|]. intros [[-> _]|[_ Hin]%edge_pairs_elem]; [done|by apply Hx]. }
  apply elem_of_cons in Hp as [->|Hp], Hq as [->|Hq]; [done|left; by apply Hfirst; [|congruence]|right; by apply Hfirst; [|congruence]|].
  rewrite !elem_of_app, !Hmap. destruct (IH Hnd Hp Hq Hne) as [[H1 H2]|[H1 H2]]; [left|right]; (split; [by right|]); intros [[-> _]|?]; done.
Qed.

Lemma edge_pairs_nodup l : NoDup l -> NoDup (edge_pairs l).
Proof.
  induction l as [|x l IH]; intros Hnd; [apply base.NoDup_nil_2|]. apply list.NoDup_cons in Hnd as [Hx Hnd]. cbn. apply list.NoDup_app. split_and!.
  - apply NoDup_fmap_2; [by intros ?? [=]|done].
  - intros [a b] (y & [= -> ->] & Hy)%elem_of_map [Ha _]%edge_pairs_elem. done.
  - by apply IH.
Qed.

(** The graph has every peer, and an edge between any two of them, drawn once:
    which are connected is not looked at. *)
Theorem dot_graph_is_complete peers stream_id : exists edges,
  generate_dot_graph peers stream_id =
    graph_head stream_id ++ concat (map node_line (map_iter peers)) ++ newline ++ concat (map edge_line edges) ++ writeln (str "}") /\
  NoDup edges /\
  (forall p q, (p, q) ∈ edges -> is_Some (peers !! p) /\ is_Some (peers !! q)) /\
  (forall p q, is_Some (peers !! p) -> is_Some (peers !! q) -> p <> q ->
     ((p, q) ∈ edges /\ (q, p) ∉ edges) \/ ((q, p) ∈ edges /\ (p, q) ∉ edges)).
Proof.
  exists (edge_pairs (keys peers)). split; [done|].
  assert (Hkeys : forall p, p ∈ keys peers <-> is_Some (peers !! p)) by apply elem_of_keys.
  split; [apply edge_pairs_nodup, NoDup_keys|]. split.
  - intros p q [Hp Hq]%edge_pairs_elem. by rewrite <- !Hkeys.
  - intros p q Hp Hq. apply edge_pairs_one; [apply NoDup_keys|by apply Hkeys..].
Qed.
End Peers.
