(* ===== verification/WebApi.v ===== *)
(** * The HTTP interface of a node

    The router of [node/src/web_server.rs] ([create_app] with its layers: rate
    limit, security headers, CORS and the check of the admin token), the handlers
    behind it, and what they do to the parts that have their own files:
    signaling, moderation, playback, discovery and the limits. A request is
    handled in one go here; the interleaving of its critical sections with the
    rest of the node is that of [Signaling] and [Playback], of which each request
    is shown to be a run. What [axum] extracts from a request (the path in
    segments, the query, the upgrade, the decoded body) is part of the request,
    or an interface. *)

From S2P Require Import Prelude Rust Format Hash Moderation WebLimits Signaling Segment Mp4Data ClientFrames StreamDiscovery Playback Relay JsonTree.

#[local] Open Scope Z_scope.

#[local] Abbreviation exec := Rust.exec.

(** ** JSON values *)

(** The derived serializations. *)
Definition block_entry_json (e : BlockEntry) : jvalue :=
  JObject [field "peer_id" (JString (blocked_id e)); field "reason" (jopt JString (block_reason e)); field "blocked_at" (JNumber (blocked_at e))].

Definition flag_reason_json (r : FlagReason) : jvalue :=
  match r with
  | Spam => JObject [field "type" (JString (str "Spam"))]
  | Inappropriate => JObject [field "type" (JString (str "Inappropriate"))]
  | Copyright => JObject [field "type" (JString (str "Copyright"))]
  | Abuse => JObject [field "type" (JString (str "Abuse"))]
  | Other s => JObject [field "type" (JString (str "Other")); field "value" (JString s)]
  end.

Definition flag_entry_json (e : FlagEntry) : jvalue :=
  JObject [field "stream_id" (JString (flagged_stream e)); field "reason" (flag_reason_json (flag_reason e));
           field "details" (jopt JString (flag_details e)); field "reporter" (jopt JString (flag_reporter e)); field "flagged_at" (JNumber (flagged_at e))].

Definition moderation_list_json (l : ModerationList) : jvalue :=
  JObject [field "version" (JNumber (list_version l)); field "node_id" (jopt JString (node_id l)); field "created_at" (JNumber (created_at l));
           field "blocked_peers" (JArray (map block_entry_json (list_blocked l)));
           field "whitelisted_peers" (JArray (map JString (list_whitelisted l)));
           field "flagged_streams" (JArray (map flag_entry_json (list_flagged l)))].

(** ** Requests and replies *)

Inductive Method : Type := GET | HEAD | POST | DELETE | OPTIONS | AnotherMethod.

Inductive socket : Type := StreamSocket (stream_id : option rstring) | RelayWebSocket | SignalSocket.

Inductive content : Type := NoContent | Text (s : rstring) | JsonBody (v : jvalue) | DefaultPage | StaticFile.

Record Response : Type := { status : Z; headers : list (rstring * rstring); body : content }.

Definition reply (code : Z) (b : content) : Response := {| status := code; headers := []; body := b |}.
Definition json_reply (fields : list (rstring * jvalue)) : Response := reply 200 (JsonBody (JObject fields)).

(** A request: its segments of path, and the verdicts of the extractors on the
    upgrade and the query (the status when they refuse). *)
Record HttpRequest {Ip : Type} : Type := {
  method : Method;
  path : list rstring;
  query : result (gmap rstring rstring) Z;
  authorization : option rstring;
  upgrade : result unit Z;
  payload : bytes;
  remote : Ip;
}.
Arguments HttpRequest : clear implicits.

(** What a request comes to: a reply, the upgrade to a socket that holds a
    connection slot, or a call of [start_streaming] whose result decides the reply
    ([start_reply]). *)
Inductive outcome : Type := Reply (r : Response) | Upgraded (s : socket) | Starting.

Record BlockPeerRequest : Type := { block_id : rstring; block_because : option rstring }.
Record FlagStreamRequest : Type := {
  flag_id : rstring; flag_because : rstring; flag_more : option rstring; flag_by : option rstring;
}.

(** [axum]'s [Json] extractor: the decoded body, or the status it refuses with. *)
Class Bodies : Type := {
  block_body : bytes -> result BlockPeerRequest Z;
  flag_body : bytes -> result FlagStreamRequest Z;
  list_body : bytes -> result ModerationList Z;
}.

(** ** Configuration *)

Record WebServerConfig : Type := {
  cfg_host : rstring;
  cfg_port : Z;
  cfg_web_root : rstring;
  cfg_enable_cors : bool;
  cfg_video_file : option rstring;
  cfg_enable_p2p : bool;
  cfg_p2p_fallback : bool;
  cfg_cors_allowed_origins : list rstring;
  cfg_max_ws_connections : Z;
  cfg_max_signaling_peers : Z;
  cfg_max_stream_rooms : Z;
  cfg_max_peers_per_stream : Z;
  cfg_max_ws_message_bytes : Z;
  cfg_admin_api_token : option rstring;
  cfg_rate_limit_per_ip : Z;
  cfg_rate_limit_window_secs : Z;
  cfg_idle_cleanup_secs : Z;
}.

Definition default_config : WebServerConfig :=
  {| cfg_host := str "127.0.0.1"; cfg_port := 8080; cfg_web_root := str "web_viewer"; cfg_enable_cors := true; cfg_video_file := None;
     cfg_enable_p2p := true; cfg_p2p_fallback := true; cfg_cors_allowed_origins := []; cfg_max_ws_connections := 100;
     cfg_max_signaling_peers := 50; cfg_max_stream_rooms := 20; cfg_max_peers_per_stream := 50; cfg_max_ws_message_bytes := 65536;
     cfg_admin_api_token := None; cfg_rate_limit_per_ip := 60; cfg_rate_limit_window_secs := 60; cfg_idle_cleanup_secs := 300 |}.

Definition limits_of (c : WebServerConfig) : Limits :=
  {| max_stream_rooms := cfg_max_stream_rooms c; max_peers_per_stream := cfg_max_peers_per_stream c; idle_cleanup_secs := cfg_idle_cleanup_secs c |}.

(** ** The state *)

(** [disk] is what moderation writes to. The table of clients is never changed. *)
Record AppState {Disk Ip : Type} `{Countable Ip} : Type := {
  config : WebServerConfig;
  setup : Setup;
  world : World;
  disk : Disk;
  limiter : RateLimiterState (Ip := Ip);
  slots : Slots;
  node : Node;
  directory : option StreamDiscovery;
  relay_stats : option RelayStats;
  table_of_clients : gmap rstring unit;
}.
Arguments AppState Disk Ip {_ _}.

(** What the outside contributes while a request is handled. *)
Record Moment : Type := { instant : Z; unix_now : Z; codecs_ready : bool; meta_json : bytes; now_us : Z }.

(** ** Routes *)

Inductive endpoint : Type :=
| StreamWs | RelayWs | SignalWs
| StreamStatus | ListStreams | Stats
| StartStream | StopStream
| BlockPeerApi | UnblockPeerApi | BlockedPeersApi | FlagStreamApi | FlaggedStreamsApi | ImportApi | ExportApi.

Inductive segment : Type := Lit (s : rstring) | Param.
Definition lit (s : string) : segment := Lit (str s).

Fixpoint match_path (pattern : list segment) (p : list rstring) : option (list rstring) :=
  match pattern, p with
  | [], [] => Some []
  | Lit s :: pattern, x :: p => if str_eqb s x then match_path pattern p else None
  | Param :: pattern, x :: p => match x with [] => None | _ => cons x <$> match_path pattern p end
  | _, _ => None
  end.

Definition admin_routes : list (list segment * Method * endpoint) :=
  [([lit "stream"; lit "start"], POST, StartStream);
   ([lit "stream"; lit "stop"], POST, StopStream);
   ([lit "moderation"; lit "block-peer"], POST, BlockPeerApi);
   ([lit "moderation"; lit "block-peer"; Param], DELETE, UnblockPeerApi);
   ([lit "moderation"; lit "blocked-peers"], GET, BlockedPeersApi);
   ([lit "moderation"; lit "flag-stream"], POST, FlagStreamApi);
   ([lit "moderation"; lit "flagged-streams"], GET, FlaggedStreamsApi);
   ([lit "moderation"; lit "import"], POST, ImportApi);
   ([lit "moderation"; lit "export"], GET, ExportApi)].

Definition public_routes : list (list segment * Method * endpoint) :=
  [([lit "stream"], GET, StreamWs);
   ([lit "ws"; lit "relay"], GET, RelayWs);
   ([lit "webrtc"; lit "signal"], GET, SignalWs);
   ([lit "api"; lit "stream"; lit "status"], GET, StreamStatus);
   ([lit "api"; lit "streams"], GET, ListStreams);
   ([lit "api"; lit "stats"], GET, Stats)].

(** The route of a path, whatever the method: no two have the same path. *)
Fixpoint find_route (routes : list (list segment * Method * endpoint)) (p : list rstring) : option (Method * endpoint * list rstring) :=
  match routes with
  | [] => None
  | (pattern, m, e) :: routes =>
      match match_path pattern p with Some params => Some (m, e, params) | None => find_route routes p end
  end.

Definition nested (p : list rstring) : option (list rstring) :=
  match p with x :: p => if str_eqb x (str "api") then Some p else None | [] => None end.

Inductive routed : Type :=
| PublicRoute (m : Method) (e : endpoint) (params : list rstring)
| AdminRoute (m : Method) (e : endpoint) (params : list rstring)
| Unrouted.

Definition route (p : list rstring) : routed :=
  match find_route public_routes p with
  | Some (m, e, params) => PublicRoute m e params
  | None =>
      match nested p ≫= find_route admin_routes with
      | Some (m, e, params) => AdminRoute m e params
      | None => Unrouted
      end
  end.

(** A handler of [GET] answers [HEAD] too. *)
Definition accepts (m asked : Method) : bool :=
  match m, asked with
  | GET, (GET | HEAD) | POST, POST | DELETE, DELETE => true
  | _, _ => false
  end.

Definition security_headers : list (rstring * rstring) :=
  [(str "x-frame-options", str "DENY"); (str "x-content-type-options", str "nosniff"); (str "x-xss-protection", str "1; mode=block");
   (str "content-security-policy",
    str "default-src 'self'; script-src 'self' 'unsafe-inline'; style-src 'self' 'unsafe-inline'; connect-src 'self' ws: wss:; media-src 'self' blob:; img-src 'self' data:")].

Definition with_security_headers (o : outcome) : outcome :=
  match o with
  | Reply r => Reply {| status := status r; headers := headers r ++ security_headers; body := body r |}
  | o => o
  end.

(** ** Handlers *)

Section Api.
Context {Disk Ip : Type} `{Countable Ip, !FileSystem Disk, !Json ModerationList, !HashOrder rstring, !Bodies}.

(** Text in lower case is a parameter: the tables of Unicode. So are the file
    system below the web root, [ServeDir], and the capacity of the channel of
    segments. *)
Context (to_lowercase : rstring -> rstring) (dir_exists : rstring -> bool) (serve_dir : HttpRequest Ip -> Response) (capacity : nat).

Notation App := (AppState Disk Ip).

Definition set_world (a : App) (w : World) (d : Disk) : App :=
  {| config := config a; setup := setup a; world := w; disk := d; limiter := limiter a; slots := slots a; node := node a;
     directory := directory a; relay_stats := relay_stats a; table_of_clients := table_of_clients a |}.
Definition set_traffic (a : App) (l : RateLimiterState (Ip := Ip)) (s : Slots) : App :=
  {| config := config a; setup := setup a; world := world a; disk := disk a; limiter := l; slots := s; node := node a;
     directory := directory a; relay_stats := relay_stats a; table_of_clients := table_of_clients a |}.
Definition set_playback (a : App) (n : Node) (d : option StreamDiscovery) : App :=
  {| config := config a; setup := setup a; world := world a; disk := disk a; limiter := limiter a; slots := slots a; node := n;
     directory := d; relay_stats := relay_stats a; table_of_clients := table_of_clients a |}.

Definition parse_flag_reason (s : rstring) : FlagReason :=
  let s := to_lowercase s in
  if str_eqb s (str "spam") then Spam
  else if str_eqb s (str "inappropriate") then Inappropriate
  else if str_eqb s (str "copyright") then Copyright
  else if str_eqb s (str "abuse") then Abuse
  else Other s.

Definition message (status text : rstring) : list (rstring * jvalue) := [field "status" (JString status); field "message" (JString text)].

Definition mod_not_enabled : Response := json_reply (message (str "error") (str "Moderation not enabled")).

(** A call of the manager: whether the file could be written does not reach the
    reply. *)
Definition moderate (a : App) (m : ModerationManager) (op : mod_op) (now : Z) : App :=
  let '(m, d, _) := mod_call (m, disk a) op now in set_world a (set_moderation (world a) m (kicks (world a))) d.

(** [kick_peer_from_signaling] without a pause. *)
Definition kick_peer_from_signaling (s : Signaling) (p : rstring) : Signaling :=
  let '(s, ids) := kick_rooms s p in
  let s := send_all s (map (fun q => (q, PeerLeave p)) ids) in
  with_senders s (delete p (peer_senders s)).

Definition kick (a : App) (p : rstring) : App :=
  set_world a (set_signaling (world a) (kick_peer_from_signaling (signaling (world a)) p) (kicks (world a))) (disk a).

Definition mod_block_peer_handler (a : App) (req : BlockPeerRequest) (now : Z) : App * Response :=
  match moderation (world a) with
  | None => (a, mod_not_enabled)
  | Some m =>
      let a := moderate a m (BlockPeer (block_id req) (block_because req)) now in
      (kick a (block_id req), json_reply (message (str "ok") (str "Blocked peer: " ++ block_id req)))
  end.

Definition mod_unblock_peer_handler (a : App) (peer_id : rstring) (now : Z) : App * Response :=
  match moderation (world a) with
  | None => (a, mod_not_enabled)
  | Some m =>
      (moderate a m (UnblockPeer peer_id) now,
       json_reply [field "status" (JString (str "ok")); field "removed" (JBool (snd (unblock_entry m peer_id)))])
  end.

Definition mod_blocked_peers_handler (a : App) : Response :=
  match moderation (world a) with
  | None => mod_not_enabled
  | Some m =>
      let peers := list_blocked_peers m in
      json_reply [field "status" (JString (str "ok")); field "blocked_peers" (JArray (map block_entry_json peers)); field "count" (JNumber (zlen peers))]
  end.

Definition mod_flag_stream_handler (a : App) (req : FlagStreamRequest) (now : Z) : App * Response :=
  match moderation (world a) with
  | None => (a, mod_not_enabled)
  | Some m =>
      (moderate a m (FlagStream (flag_id req) (parse_flag_reason (flag_because req)) (flag_more req) (flag_by req)) now,
       json_reply (message (str "ok") (str "Flagged stream: " ++ flag_id req)))
  end.

Definition mod_flagged_streams_handler (a : App) : Response :=
  match moderation (world a) with
  | None => mod_not_enabled
  | Some m =>
      json_reply [field "status" (JString (str "ok")); field "flagged_streams" (JArray (map flag_entry_json (flags m)));
                  field "count" (JNumber (zlen (flags m)))]
  end.

Definition mod_import_handler (a : App) (l : ModerationList) (now : Z) : App * Response :=
  match moderation (world a) with
  | None => (a, mod_not_enabled)
  | Some m => (moderate a m (ImportList l) now, json_reply (message (str "ok") (str "Imported moderation list")))
  end.

Definition mod_export_handler (a : App) (now : Z) : Response :=
  match moderation (world a) with
  | None => mod_not_enabled
  | Some m => reply 200 (JsonBody (moderation_list_json (export_list m now)))
  end.

(** [start_streaming] up to its first wait for a lock of the samples: the codecs,
    then the metadata to the viewers; the rest is the call that [Playback] runs. *)
Definition start_stream_handler (a : App) (t : Moment) : App :=
  set_playback a
    (if codecs_ready t then
       let n := broadcast capacity (node a) (metadata (segment_stream_id (setup a)) 0 (meta_json t) (now_us t)) in
       set_calls n (calls n ++ [StartFlag])
     else set_calls (node a) (calls (node a) ++ [Returned false]))
    (directory a).

Definition start_reply (r : result unit rstring) : Response :=
  match r with
  | ROk _ => json_reply (message (str "success") (str "Streaming started"))
  | RErr e => json_reply (message (str "error") (str "Failed to start streaming: " ++ e))
  end.

(** [stop_streaming]. *)
Definition stop_streaming (a : App) : App :=
  set_playback a (set_streaming (node a) false)
    (match directory a, stream_id (setup a) with
     | Some d, Some id => Some (remove_stream d (id_text id))
     | d, _ => d
     end).

Definition stop_stream_handler (a : App) : App * Response :=
  (stop_streaming a, json_reply (message (str "success") (str "Streaming stopped"))).

Definition stream_status_handler (a : App) : Response :=
  json_reply [field "streaming" (JBool (is_streaming (node a))); field "clients" (JNumber (Z.of_nat (size (table_of_clients a))));
              field "codecs" (JObject [field "video" (JString (str "H.264")); field "audio" (JString (str "AAC"))])].

Definition codec_json (c : CodecInfo) : jvalue := jopt (fun x => JString (fst x)) c.

Definition local_entry (a : App) (id : StreamId) : jvalue :=
  JObject [field "stream_id" (JString (id_text id)); field "title" (JString (str "Local Stream - " ++ id_text id)); field "is_local" (JBool true);
           field "video_codec" (codec_json (video_codec_info (media (node a)))); field "audio_codec" (codec_json (audio_codec_info (media (node a))));
           field "status" (JString (str "streaming"))].

Definition remote_entry (ann : StreamAnnouncement) : jvalue :=
  JObject [field "stream_id" (JString (show_stream_id (ann_stream_id ann))); field "title" (JString (title ann)); field "is_local" (JBool false);
           field "video_codec" (jopt JString (ann_video_codec ann)); field "audio_codec" (jopt JString (ann_audio_codec ann));
           field "video_width" (jopt JNumber (ann_video_width ann)); field "video_height" (jopt JNumber (ann_video_height ann));
           field "started_at" (JNumber (started_at ann)); field "status" (JString (str "streaming"))].

Definition is_own (a : App) (ann : StreamAnnouncement) : bool :=
  match stream_id (setup a) with
  | Some id => str_eqb (show_stream_id (ann_stream_id ann)) (to_string_lossy id)
  | None => false
  end.

Definition list_streams_handler (a : App) (now : Z) : exec Response :=
  let own := if is_streaming (node a) then match stream_id (setup a) with Some id => [local_entry a id] | None => [] end else [] in
  let! found := match directory a with Some d => list_streams d now | None => Done [] end in
  let all := own ++ map remote_entry (List.filter (fun ann => negb (is_own a ann)) found) in
  Done (json_reply [field "streams" (JArray all); field "count" (JNumber (zlen all)); field "p2p_enabled" (JBool (enable_p2p (setup a)))]).

Definition relay_json (s : RelayStats) : jvalue :=
  JObject [field "chunks_relayed" (JNumber (chunks_relayed s)); field "bytes_relayed" (JNumber (bytes_relayed s));
           field "avg_chunk_size" (JNumber (avg_chunk_size s)); field "active_streams" (JNumber (active_streams s));
           field "connected_peers" (JNumber (connected_peers s)); field "incoming_bandwidth_bps" (JNumber (incoming_bandwidth s));
           field "outgoing_bandwidth_bps" (JNumber (outgoing_bandwidth s));
           field "per_stream_chunks" (JObject (map (fun e => (fst e, JNumber (snd e))) (map_iter (per_stream_chunks s))))].

Definition peer_connections (s : Signaling) : Z := fold_right Z.add 0 (map (fun peers => zlen peers) (values (rooms s))).

Definition stats_handler (a : App) : Response :=
  let s := signaling (world a) in
  json_reply
    [field "status" (JString (str "ok")); field "relay" (jopt relay_json (relay_stats a));
     field "signaling" (JObject [field "connected_peers" (JNumber (Z.of_nat (size (peer_senders s)))); field "active_streams" (JNumber (Z.of_nat (size (rooms s))))]);
     field "webrtc" (JObject [field "peer_connections" (JNumber (peer_connections s))]);
     field "connections" (JObject [field "active_websockets" (JNumber (ws_count (slots a))); field "max_websockets" (JNumber (cfg_max_ws_connections (config a)))]);
     field "rate_limiter" (JObject [field "tracked_ips" (JNumber (tracked_count (limiter a))); field "limit_per_ip" (JNumber (cfg_rate_limit_per_ip (config a)));
                                    field "window_secs" (JNumber (cfg_rate_limit_window_secs (config a)))])].

(** The handlers that upgrade: the slot is taken after the extractors. *)
Definition open_socket (a : App) (s : socket) : App * outcome :=
  let '(slots', got) := try_acquire_ws_slot (cfg_max_ws_connections (config a)) (slots a) in
  if got : bool then (set_traffic a (limiter a) slots', Upgraded s)
  else (set_traffic a (limiter a) (back_out slots'), Reply (reply 503 (Text (str "Too many connections")))).

Definition upgrading (a : App) (req : HttpRequest Ip) (s : socket) : App * outcome :=
  match upgrade req with ROk _ => open_socket a s | RErr code => (a, Reply (reply code NoContent)) end.

Definition with_body {A} (a : App) (b : result A Z) (f : A -> App * Response) : App * outcome :=
  match b with
  | ROk x => let '(a, r) := f x in (a, Reply r)
  | RErr code => (a, Reply (reply code NoContent))
  end.

Definition run_endpoint (a : App) (req : HttpRequest Ip) (t : Moment) (e : endpoint) (params : list rstring) : exec (App * outcome) :=
  match e with
  | StreamWs =>
      Done (match upgrade req, query req with
            | ROk _, ROk q => open_socket a (StreamSocket (q !! str "stream_id"))
            | RErr code, _ | _, RErr code => (a, Reply (reply code NoContent))
            end)
  | RelayWs => Done (upgrading a req RelayWebSocket)
  | SignalWs => Done (upgrading a req SignalSocket)
  | StreamStatus => Done (a, Reply (stream_status_handler a))
  | ListStreams => let! r := list_streams_handler a (unix_now t) in Done (a, Reply r)
  | Stats => Done (a, Reply (stats_handler a))
  | StartStream => Done (start_stream_handler a t, Starting)
  | StopStream => Done (let '(a, r) := stop_stream_handler a in (a, Reply r))
  | BlockPeerApi => Done (with_body a (block_body (payload req)) (fun x => mod_block_peer_handler a x (unix_now t)))
  | UnblockPeerApi => Done (with_body a (match params with [p] => ROk p | _ => RErr 500 end) (fun p => mod_unblock_peer_handler a p (unix_now t)))
  | BlockedPeersApi => Done (a, Reply (mod_blocked_peers_handler a))
  | FlagStreamApi => Done (with_body a (flag_body (payload req)) (fun x => mod_flag_stream_handler a x (unix_now t)))
  | FlaggedStreamsApi => Done (a, Reply (mod_flagged_streams_handler a))
  | ImportApi => Done (with_body a (list_body (payload req)) (fun l => mod_import_handler a l (unix_now t)))
  | ExportApi => Done (a, Reply (mod_export_handler a (unix_now t)))
  end.

Definition by_method (a : App) (req : HttpRequest Ip) (t : Moment) (m : Method) (e : endpoint) (params : list rstring) : exec (App * outcome) :=
  if accepts m (method req) then run_endpoint a req t e params else Done (a, Reply (reply 405 NoContent)).

(** [admin_auth_middleware]. *)
Definition admin_layer (a : App) (req : HttpRequest Ip) (next : exec (App * outcome)) : exec (App * outcome) :=
  match admin_auth (cfg_admin_api_token (config a)) (authorization req) with
  | NotEnabled => Done (a, Reply (reply 404 (Text (str "Admin API not enabled"))))
  | InvalidToken => Done (a, Reply (reply 401 (Text (str "Invalid token"))))
  | MissingHeader => Done (a, Reply (reply 401 (Text (str "Missing or invalid Authorization header"))))
  | Authorized => next
  end.

(** [CorsLayer] answers what may be a preflight itself. *)
Definition cors_layer (a : App) (req : HttpRequest Ip) (next : exec (App * outcome)) : exec (App * outcome) :=
  match cfg_enable_cors (config a), method req with
  | true, OPTIONS => Done (a, Reply (reply 200 NoContent))
  | _, _ => next
  end.

Definition headers_layer (next : exec (App * outcome)) : exec (App * outcome) := let! r := next in Done (fst r, with_security_headers (snd r)).

Definition limit_layer (a : App) (req : HttpRequest Ip) (t : Moment) (next : App -> exec (App * outcome)) : exec (App * outcome) :=
  let '(l, admitted) := rate_limit_middleware (cfg_rate_limit_per_ip (config a)) (limiter a) (remote req) (instant t) in
  let a := set_traffic a l (slots a) in
  if admitted : bool then next a else Done (a, Reply (reply 429 (Text (str "Rate limit exceeded")))).

(** The layers are around the routes that were there when they were added; the
    fallback comes after them. *)
Definition handle (a : App) (req : HttpRequest Ip) (t : Moment) : exec (App * outcome) :=
  match route (path req) with
  | PublicRoute m e params =>
      limit_layer a req t (fun a => headers_layer (cors_layer a req (by_method a req t m e params)))
  | AdminRoute m e params =>
      limit_layer a req t (fun a => headers_layer (cors_layer a req (admin_layer a req (by_method a req t m e params))))
  | Unrouted =>
      Done (a, Reply (if dir_exists (cfg_web_root (config a)) then serve_dir req else reply 200 DefaultPage))
  end.

(** ** The ways a request can go *)

Definition fallback (a : App) (req : HttpRequest Ip) : Response :=
  if dir_exists (cfg_web_root (config a)) then serve_dir req else reply 200 DefaultPage.
Definition limited (a : App) (req : HttpRequest Ip) (t : Moment) : App * bool :=
  let '(l, admitted) := rate_limit_middleware (cfg_rate_limit_per_ip (config a)) (limiter a) (remote req) (instant t) in
  (set_traffic a l (slots a), admitted).

Inductive handled (a : App) (req : HttpRequest Ip) (t : Moment) : App -> outcome -> Prop :=
| handled_fallback : route (path req) = Unrouted -> handled a req t a (Reply (fallback a req))
| handled_limited a' : route (path req) <> Unrouted -> limited a req t = (a', false) ->
    handled a req t a' (Reply (reply 429 (Text (str "Rate limit exceeded"))))
| handled_preflight a' : route (path req) <> Unrouted -> limited a req t = (a', true) -> method req = OPTIONS ->
    handled a req t a' (with_security_headers (Reply (reply 200 NoContent)))
| handled_public a1 m e params a' out : route (path req) = PublicRoute m e params -> limited a req t = (a1, true) ->
    by_method a1 req t m e params = Done (a', out) -> handled a req t a' (with_security_headers out)
| handled_denied a' m e params code text : route (path req) = AdminRoute m e params -> limited a req t = (a', true) ->
    admin_auth (cfg_admin_api_token (config a)) (authorization req) <> Authorized -> code = 401 \/ code = 404 ->
    handled a req t a' (with_security_headers (Reply (reply code (Text text))))
| handled_admin a1 m e params a' out : route (path req) = AdminRoute m e params -> limited a req t = (a1, true) ->
    admin_auth (cfg_admin_api_token (config a)) (authorization req) = Authorized ->
    by_method a1 req t m e params = Done (a', out) -> handled a req t a' (with_security_headers out).

Lemma cors_done a req next r : cors_layer a req next = Done r ->
  (method req = OPTIONS /\ r = (a, Reply (reply 200 NoContent))) \/ next = Done r.
Proof.
  unfold cors_layer. destruct (cfg_enable_cors (config a)); [|by right]. destruct (method req); try (by right). intros [= <-]. by left.
Qed.

Lemma cors_next a req next : method req <> OPTIONS -> cors_layer a req next = next.
Proof. intros Hm. unfold cors_layer. destruct (cfg_enable_cors (config a)); [|done]. by destruct (method req). Qed.

Lemma handle_handled a req t a' out : handle a req t = Done (a', out) -> handled a req t a' out.
Proof.
  unfold handle, limit_layer. destruct (route (path req)) as [m e params|m e params|] eqn:Hr; [ | |intros [= <- <-]; by constructor];
    destruct (rate_limit_middleware _ _ _ _) as [l [|]] eqn:Hl.
  2,4: intros [= <- <-]; apply handled_limited; [by rewrite Hr|]; unfold limited; by rewrite Hl.
  all: assert (Hlim : limited a req t = (set_traffic a l (slots a), true)) by (unfold limited; by rewrite Hl).
  all: unfold headers_layer; destruct (cors_layer _ _ _) as [[a2 out2]| |] eqn:Hc; [|done..]; cbn; intros [= <- <-].
  all: apply cors_done in Hc as [[Ho [= -> ->]]|Hc]; [eapply handled_preflight; [by rewrite Hr|done|done]|].
  - by eapply handled_public.
  - unfold admin_layer in Hc. change (config (set_traffic a l (slots a))) with (config a) in Hc.
    destruct (admin_auth _ _) eqn:Ha; try (injection Hc as <- <-; eapply handled_denied; [done|done|by rewrite Ha|auto]).
    by eapply handled_admin.
Qed.

(** ** What a request may change *)

(** Nothing but the counts of requests and connections. *)
Record untouched (a a' : App) : Prop := {
  same_world : world a' = world a;
  same_disk : disk a' = disk a;
  same_node : node a' = node a;
  same_directory : directory a' = directory a;
  same_config : config a' = config a /\ setup a' = setup a;
}.

#[export] Instance untouched_preorder : PreOrder untouched.
Proof. split; [by constructor|]. intros x y z [] []. constructor; by intuition congruence. Qed.

Lemma untouched_traffic a l s : untouched a (set_traffic a l s).
Proof. by constructor. Qed.

Lemma limited_untouched a req t a' ok : limited a req t = (a', ok) -> untouched a a'.
Proof. unfold limited. destruct (rate_limit_middleware _ _ _ _) as [l b]. intros [= <- <-]. apply untouched_traffic. Qed.

Lemma open_socket_untouched a s a' out : open_socket a s = (a', out) -> untouched a a'.
Proof. unfold open_socket. destruct (try_acquire_ws_slot _ _) as [sl [|]]; intros [= <- <-]; apply untouched_traffic. Qed.

Definition reads_only (e : endpoint) : bool :=
  match e with
  | StreamWs | RelayWs | SignalWs | StreamStatus | ListStreams | Stats | BlockedPeersApi | FlaggedStreamsApi | ExportApi => true
  | _ => false
  end.

Lemma reads_only_untouched a req t e params a' out : reads_only e = true -> run_endpoint a req t e params = Done (a', out) -> untouched a a'.
Proof.
  intros He. destruct e; try discriminate He; cbn [run_endpoint]; unfold upgrading;
    [destruct (upgrade req), (query req)|destruct (upgrade req)|destruct (upgrade req)| |destruct (list_streams_handler _ _); [|done..]|..];
    cbn; first [by intros [= <- <-]|intros [= Ho]; by eapply open_socket_untouched].
Qed.

Lemma public_reads_only p m e params : route p = PublicRoute m e params -> reads_only e = true.
Proof.
  unfold route. destruct (find_route public_routes p) as [[[m' e'] ps']|] eqn:Hf.
  - intros [= <- <- <-]. cbn in Hf.
    repeat match type of Hf with context [match ?x with Some _ => _ | None => _ end] => destruct x; [injection Hf as <- <- <-; done|] end. done.
  - by destruct (nested p ≫= _) as [[[m' e'] ps']|].
Qed.

Definition authorized (a : App) (req : HttpRequest Ip) : Prop :=
  exists token, cfg_admin_api_token (config a) = Some token /\ authorization req = Some (str "Bearer " ++ token).

Lemma authorized_iff a req : authorized a req <-> admin_auth (cfg_admin_api_token (config a)) (authorization req) = Authorized.
Proof. symmetry. apply admin_auth_spec. Qed.

Lemma changes_are_authorized a req t a' out : handle a req t = Done (a', out) -> untouched a a' \/
  authorized a req /\ exists m e params, route (path req) = AdminRoute m e params /\ reads_only e = false /\ accepts m (method req) = true.
Proof.
  intros Hh%handle_handled. destruct Hh as [Hr|a' Hr Hl|a' Hr Hl Ho|a1 m e params a' out Hr Hl Hb|a' m e params code text Hr Hl Ha Hc|a1 m e params a' out Hr Hl Ha Hb];
    [by left|left; by eapply limited_untouched..| |left; by eapply limited_untouched|].
  - left. etransitivity; [by eapply limited_untouched|]. unfold by_method in Hb.
    destruct (accepts m (method req)); [|by injection Hb as <- <-]. eapply reads_only_untouched; [|exact Hb]. by eapply public_reads_only.
  - rewrite <- authorized_iff in Ha. apply limited_untouched in Hl. unfold by_method in Hb.
    destruct (accepts m (method req)) eqn:Hm; [|left; by injection Hb as <- <-]. destruct (reads_only e) eqn:He.
    + left. etransitivity; [exact Hl|]. by eapply reads_only_untouched.
    + right. split; [done|]. by exists m, e, params.
Qed.

(** C19: Only a request with the configured token, to a route of administration and
    with its method, changes anything but the counts of requests and connections;
    and without the token those routes reveal nothing: no reply of theirs has a
    JSON body. *)
Theorem admin_only a req t a' out : handle a req t = Done (a', out) ->
  (~ untouched a a' -> authorized a req /\ exists m e params, route (path req) = AdminRoute m e params /\ reads_only e = false /\ accepts m (method req) = true) /\
  (forall m e params r v, route (path req) = AdminRoute m e params -> out = Reply r -> body r = JsonBody v -> authorized a req).
Proof.
  intros Hh. split; [by destruct (changes_are_authorized _ _ _ _ _ Hh)|]. apply handle_handled in Hh.
  destruct Hh as [Hr|a' Hr Hl|a' Hr Hl Ho|a1 m e params a' out Hr Hl Hb|a' m e params code text Hr Hl Ha Hc|a1 m e params a' out Hr Hl Ha Hb].
  - by rewrite Hr.
  - by intros ????? _ [= <-].
  - by intros ????? _ [= <-].
  - by rewrite Hr.
  - by intros ????? _ [= <-].
  - by rewrite <- authorized_iff in Ha.
Qed.

(** ** Requests are runs of the parts *)

Lemma moderate_world a m op now :
  world (moderate a m op now) = set_moderation (world a) (fst (mod_effect m op now)) (kicks (world a)).
Proof.
  unfold moderate, mod_call. cbn [fst snd]. destruct (mod_effect m op now) as [m' [|]]; [|done]. by destruct (maybe_persist m' (disk a) now).
Qed.

Lemma moderate_step cfg a m op now : moderation (world a) = Some m -> (forall p reason, op <> BlockPeer p reason) ->
  rtc (steps cfg) (world a) (world (moderate a m op now)).
Proof. intros Hm Hop. apply rtc_once. exists nothing. rewrite moderate_world. by apply step_moderate. Qed.

Lemma block_steps cfg a m p reason now : moderation (world a) = Some m ->
  rtc (steps cfg) (world a) (world (kick (moderate a m (BlockPeer p reason) now) p)).
Proof.
  intros Hm. unfold kick. cbn [world set_world]. rewrite moderate_world. cbn [signaling kicks set_moderation].
  set (w1 := set_moderation (world a) (fst (mod_effect m (BlockPeer p reason) now)) (KickRooms p :: kicks (world a))).
  eapply rtc_l; [exists nothing; by apply (step_block _ _ m p reason now)|]. fold w1.
  pose proof (step_kick_rooms cfg w1 _ p [] (kicks (world a)) eq_refl) as H1. change (signaling w1) with (signaling (world a)) in H1.
  unfold kick_peer_from_signaling. destruct (kick_rooms (signaling (world a)) p) as [s ids]. eapply rtc_l; [exists nothing; exact H1|].
  set (w2 := set_signaling w1 s _). eapply rtc_l; [eexists; exact (step_kick_notify cfg w2 p ids [] (kicks (world a)) eq_refl)|].
  set (w3 := set_signaling w2 _ _). apply rtc_once. exists nothing. exact (step_kick_sender cfg w3 p [] (kicks (world a)) eq_refl).
Qed.

(** ** Blocking a peer *)

(** A message that goes to a queue with room is in it, and stays. *)
Lemma send_to_keeps s m q x queue : peer_senders s !! q = Some queue -> x ∈ queue ->
  exists queue', peer_senders (send_to s m) !! q = Some queue' /\ x ∈ queue'.
Proof.
  intros Hq Hx. unfold send_to. destruct (peer_senders s !! fst m) as [l|] eqn:Hl; [|by exists queue].
  destruct (zlen l <? QUEUE_CAPACITY); [|by exists queue]. cbn. destruct (decide (fst m = q)) as [<-|Hne].
  - rewrite lookup_insert_eq. exists (l ++ [snd m]). split; [done|]. apply elem_of_app. left. congruence.
  - rewrite lookup_insert_ne by done. by exists queue.
Qed.

Lemma send_all_keeps ms : forall s q x queue, peer_senders s !! q = Some queue -> x ∈ queue ->
  exists queue', peer_senders (send_all s ms) !! q = Some queue' /\ x ∈ queue'.
Proof.
  induction ms as [|m ms IH]; intros s q x queue Hq Hx; [by exists queue|].
  destruct (send_to_keeps s m q x queue Hq Hx) as (queue' & Hq' & Hx'). exact (IH (send_to s m) q x queue' Hq' Hx').
Qed.

Lemma send_all_reaches x ids : forall s q queue, q ∈ ids -> peer_senders s !! q = Some queue -> zlen queue < QUEUE_CAPACITY ->
  exists queue', peer_senders (send_all s (map (fun i => (i, x)) ids)) !! q = Some queue' /\ x ∈ queue'.
Proof.
  induction ids as [|i ids IH]; intros s q queue Hin Hq Hlt; [by apply not_elem_of_nil in Hin|]. cbn [map send_all fold_left].
  destruct (decide (i = q)) as [->|Hne].
  - apply (send_all_keeps _ (send_to s (q, x)) q x (queue ++ [x])); [|apply elem_of_app; right; by apply list_elem_of_singleton].
    unfold send_to. cbn [fst snd]. rewrite Hq. destruct (Z.ltb_spec (zlen queue) QUEUE_CAPACITY); [|lia]. apply lookup_insert_eq.
  - apply elem_of_cons in Hin as [->|Hin]; [done|]. apply (IH (send_to s (i, x)) q queue Hin); [|done].
    unfold send_to. cbn [fst snd]. destruct (peer_senders s !! i) as [l|]; [|done]. destruct (zlen l <? QUEUE_CAPACITY); [|done]. cbn.
    by rewrite lookup_insert_ne.
Qed.

(** Whom a kick tells: those that share a room with the peer, who stay in it. *)
Lemma kick_rooms_others s p stream q : listed s stream p -> listed s stream q -> q <> p ->
  q ∈ snd (kick_rooms s p) /\ listed (fst (kick_rooms s p)) stream q.
Proof.
  intros (peers & Hr & Hp) (peers' & Hr' & Hq) Hne. rewrite Hr in Hr'. injection Hr' as <-.
  assert (Hw : q ∈ map sp_id (without p peers)) by (by apply elem_of_without). cbn [kick_rooms fst snd]. split.
  - apply list_elem_of_In, in_concat. exists (map sp_id (without p peers)). split; [|by apply list_elem_of_In].
    apply in_map_iff. exists (stream, peers). split; [done|]. apply filter_In. split; [|by apply in_room_iff].
    by apply list_elem_of_In, elem_of_map_iter.
  - exists (without p peers). split; [|done]. cbn. apply map_lookup_filter_Some. rewrite lookup_fmap, Hr. split; [done|]. cbn.
    intros Hnil. rewrite Hnil in Hw. by apply not_elem_of_nil in Hw.
Qed.

Lemma kicked_listed s p stream q : listed (kick_peer_from_signaling s p) stream q <-> listed (fst (kick_rooms s p)) stream q.
Proof. unfold kick_peer_from_signaling. destruct (kick_rooms s p) as [s' ids]. apply listed_same. cbn. apply send_all_rooms. Qed.

Lemma kicked_queue s p : peer_senders (kick_peer_from_signaling s p) !! p = None.
Proof. unfold kick_peer_from_signaling. destruct (kick_rooms s p) as [s' ids]. apply lookup_delete_eq. Qed.

Definition block_peer_path : list rstring := [str "api"; str "moderation"; str "block-peer"].

(** C21: A request that blocks a peer and gets through leaves it blocked: it is
    refused from then on, is in no room and has no queue; those it shared a room
    with stay, and are told unless their queue is full. *)
Theorem block_request_shuts_out a req t m x : path req = block_peer_path -> method req = POST ->
  snd (limited a req t) = true -> authorized a req -> moderation (world a) = Some m -> block_body (payload req) = ROk x ->
  let p := block_id x in
  exists a' r, handle a req t = Done (a', Reply r) /\ status r = 200 /\ allowed (world a') p = false /\
    (forall stream, ~ listed (signaling (world a')) stream p) /\ peer_senders (signaling (world a')) !! p = None /\
    (forall stream q, listed (signaling (world a)) stream p -> listed (signaling (world a)) stream q -> q <> p ->
       listed (signaling (world a')) stream q /\
       (forall queue, peer_senders (signaling (world a)) !! q = Some queue -> zlen queue < QUEUE_CAPACITY ->
          exists queue', peer_senders (signaling (world a')) !! q = Some queue' /\ PeerLeave p ∈ queue')).
Proof.
  intros Hpath Hmethod Hlim Hauth Hm Hbody p. apply authorized_iff in Hauth.
  pose (a1 := fst (limited a req t)). pose (a2 := moderate a1 m (BlockPeer p (block_because x)) (unix_now t)).
  assert (Ha1 : untouched a a1) by (apply (limited_untouched a req t a1 (snd (limited a req t))); unfold a1; by destruct (limited a req t)).
  assert (Hw1 : world a1 = world a) by apply Ha1.
  eexists (kick a2 p), _. split; [|split; [|split; [|split; [|split]]]].
  - unfold handle, limit_layer. rewrite Hpath. cbn [route]. change (route block_peer_path) with (AdminRoute POST BlockPeerApi []).
    unfold limited in Hlim, a1. destruct (rate_limit_middleware _ _ _ _) as [l ok]. cbn [fst snd] in Hlim, a1. subst ok.
    unfold headers_layer. fold a1. rewrite cors_next by (by rewrite Hmethod).
    unfold admin_layer. change (config a1) with (config a). rewrite Hauth. unfold by_method. rewrite Hmethod. cbn [accepts run_endpoint].
    rewrite Hbody. cbn [with_body]. unfold mod_block_peer_handler. rewrite Hw1, Hm. cbn [exec_bind fst snd with_security_headers]. reflexivity.
  - done.
  - unfold kick, a2. cbn [world set_world]. rewrite moderate_world. unfold allowed, is_peer_allowed.
    cbn [moderation set_signaling set_moderation mod_effect fst block_entry blocked_peers with_lists]. rewrite lookup_insert_eq. by rewrite bool_decide_eq_true_2.
  - intros stream Hl. unfold kick in Hl. cbn in Hl. apply kicked_listed, listed_kick in Hl as [_ []]. done.
  - apply kicked_queue.
  - intros stream q Hp Hq Hne. assert (Hs : signaling (world a2) = signaling (world a)) by (unfold a2; rewrite moderate_world, Hw1; done).
    unfold kick. cbn [world set_world signaling set_signaling]. rewrite Hs. rewrite kicked_listed.
    destruct (kick_rooms_others (signaling (world a)) p stream q Hp Hq Hne) as [Hids Hstays]. split; [done|]. intros queue Hqueue Hlt.
    unfold kick_peer_from_signaling.
    assert (Hsame : peer_senders (fst (kick_rooms (signaling (world a)) p)) = peer_senders (signaling (world a))) by done.
    destruct (kick_rooms (signaling (world a)) p) as [s ids]. cbn [fst snd peer_senders with_senders] in *. rewrite lookup_delete_ne by done.
    apply (send_all_reaches (PeerLeave p) ids s q queue Hids); [by rewrite Hsame|done].
Qed.

(** ** The layers *)

(** Paths that have no route are served whatever the limit says, without
    counting and without the security headers; every other reply, unless the limit
    refuses the request, carries the four headers. *)
Theorem pages_are_unguarded a req t a' out : handle a req t = Done (a', out) ->
  (route (path req) = Unrouted -> a' = a /\ out = Reply (fallback a req)) /\
  (route (path req) <> Unrouted -> snd (limited a req t) = false ->
     a' = fst (limited a req t) /\ out = Reply (reply 429 (Text (str "Rate limit exceeded")))) /\
  (route (path req) <> Unrouted -> snd (limited a req t) = true ->
     forall r, out = Reply r -> exists l, headers r = l ++ security_headers).
Proof.
  intros Hh%handle_handled.
  assert (Hsec : forall o r, with_security_headers o = Reply r -> exists l, headers r = l ++ security_headers).
  { intros [r0| |] r; cbn; intros [= <-]. by exists (headers r0). }
  destruct Hh as [Hr|a' Hr Hl|a' Hr Hl Ho|a1 m e params a' out Hr Hl Hb|a' m e params code text Hr Hl Ha Hc|a1 m e params a' out Hr Hl Ha Hb];
    split; try (by rewrite Hr); try done; try (split; [done|]); try (split; [by rewrite Hl|]);
    try (intros _ _ r Hout; by eapply Hsec).
  - by rewrite Hl.
Qed.

(** ** The list of streams *)

(** The list of streams has the own stream first while it is played, then
    every discovered stream that has not expired and is not the own one, and
    nothing else; its count is its length. *)
Theorem listed_streams a now : (forall d, directory a = Some d -> map_Forall (fun _ => fits) (streams d)) ->
  exists r own found, list_streams_handler a now = Done r /\
    body r = JsonBody (JObject [field "streams" (JArray (own ++ found)); field "count" (JNumber (zlen (own ++ found)));
                                field "p2p_enabled" (JBool (enable_p2p (setup a)))]) /\
    own = match stream_id (setup a) with Some id => if is_streaming (node a) then [local_entry a id] else [] | None => [] end /\
    (forall v, v ∈ found <-> exists d id ann, directory a = Some d /\ streams d !! id = Some ann /\ fresh ann now = true /\ is_own a ann = false /\
       v = remote_entry ann).
Proof.
  intros Hfit. unfold list_streams_handler.
  assert (Hfound : exists l, match directory a with Some d => list_streams d now | None => Done [] end = Done l /\
    forall ann, ann ∈ l <-> exists d id, directory a = Some d /\ streams d !! id = Some ann /\ fresh ann now = true).
  { destruct (directory a) as [d|]; [|exists []; split; [done|]; intros ann; split; [by intros ?%not_elem_of_nil|by intros (d & id & ? & _)]].
    eexists. split; [apply filter_fresh_done, list.Forall_forall; intros ann [id Hid]%elem_of_values; by apply (Hfit d eq_refl id)|].
    intros ann. rewrite list_elem_of_In, filter_In, <- list_elem_of_In, elem_of_values, andb_true_r. split.
    - intros [[id Hid] Hf]. by exists d, id.
    - intros (d' & id & [= <-] & Hid & Hf). split; [by exists id|done]. }
  destruct Hfound as (l & -> & Hl). cbn [exec_bind]. eexists _, _, _. split; [reflexivity|]. split; [reflexivity|]. split.
  { destruct (is_streaming (node a)), (stream_id (setup a)); done. }
  intros v. rewrite list_elem_of_In, in_map_iff. split.
  - intros (ann & <- & [Hin%list_elem_of_In Ho%negb_true_iff]%filter_In). apply Hl in Hin as (d & id & Hd & Hid & Hf). by exists d, id, ann.
  - intros (d & id & ann & Hd & Hid & Hf & Ho & ->). exists ann. split; [done|]. apply filter_In. split; [|by rewrite Ho].
    apply list_elem_of_In, Hl. by exists d, id.
Qed.

Context `{!Blake3, !Bincode WireSegment, !MetaJson}.

Lemma endpoint_runs a req t e params a' out : run_endpoint a req t e params = Done (a', out) ->
  rtc (steps (limits_of (config a))) (world a) (world a') /\ rtc (Playback.step capacity (setup a)) (node a) (node a').
Proof.
  destruct (reads_only e) eqn:He; [intros Hr; destruct (reads_only_untouched a req t e params a' out He Hr) as [-> _ -> _ _]; split; reflexivity|].
  destruct e; try discriminate He; cbn [run_endpoint].
  - intros [= <- <-]. split; [reflexivity|]. apply rtc_once. unfold start_stream_handler. cbn [node set_playback].
    destruct (codecs_ready t); [apply step_start|apply step_start_fails].
  - intros [= <- <-]. split; [reflexivity|]. apply rtc_once, step_stop.
  - destruct (block_body _) as [[p reason]|code]; cbn; [|intros [= <- <-]; split; reflexivity].
    unfold mod_block_peer_handler. destruct (moderation (world a)) as [m|] eqn:Hm; intros [= <- <-]; [|split; reflexivity].
    cbn [block_id block_because]. split; [by apply block_steps|]. unfold moderate. by destruct (mod_call _ _ _) as [[m' d] ok].
  - destruct (match params with [p] => _ | _ => _ end) as [p|code]; cbn; [|intros [= <- <-]; split; reflexivity].
    unfold mod_unblock_peer_handler. destruct (moderation (world a)) as [m|] eqn:Hm; intros [= <- <-]; [|split; reflexivity].
    split; [by apply moderate_step|]. unfold moderate. by destruct (mod_call _ _ _) as [[m' d] ok].
  - destruct (flag_body _) as [x|code]; cbn; [|intros [= <- <-]; split; reflexivity].
    unfold mod_flag_stream_handler. destruct (moderation (world a)) as [m|] eqn:Hm; intros [= <- <-]; [|split; reflexivity].
    split; [by apply moderate_step|]. unfold moderate. by destruct (mod_call _ _ _) as [[m' d] ok].
  - destruct (list_body _) as [x|code]; cbn; [|intros [= <- <-]; split; reflexivity].
    unfold mod_import_handler. destruct (moderation (world a)) as [m|] eqn:Hm; intros [= <- <-]; [|split; reflexivity].
    split; [by apply moderate_step|]. unfold moderate. by destruct (mod_call _ _ _) as [[m' d] ok].
Qed.

(** C20: Every request is a run of signaling with its moderation, and a run of
    playback: what [Signaling] and [Playback] show of all runs holds of a node
    that is driven over HTTP. *)
Theorem requests_are_runs a req t a' out : handle a req t = Done (a', out) ->
  rtc (steps (limits_of (config a))) (world a) (world a') /\ rtc (Playback.step capacity (setup a)) (node a) (node a').
Proof.
  intros Hh%handle_handled.
  assert (Hrun : forall a1 m e params a2 out2, untouched a a1 -> by_method a1 req t m e params = Done (a2, out2) ->
    rtc (steps (limits_of (config a))) (world a) (world a2) /\ rtc (Playback.step capacity (setup a)) (node a) (node a2)).
  { intros a1 m e params a2 out2 [Hw _ Hn _ [Hc Hs]] Hb. rewrite <- Hw, <- Hn, <- Hc, <- Hs. unfold by_method in Hb.
    destruct (accepts m (method req)); [by eapply endpoint_runs|]. injection Hb as <- <-. split; reflexivity. }
  destruct Hh as [Hr|a' Hr Hl|a' Hr Hl Ho|a1 m e params a' out Hr Hl Hb|a' m e params code text Hr Hl Ha Hc|a1 m e params a' out Hr Hl Ha Hb];
    try (apply limited_untouched in Hl; by eapply Hrun); first [split; reflexivity|apply limited_untouched in Hl as [-> _ -> _ _]; split; reflexivity].
Qed.
End Api.

(** ** Witnesses *)

Section Demo.
#[local] Existing Instance canonical_order.
#[local] Existing Instance demo_json.
#[local] Existing Instance demo_disk.
#[local] Existing Instance demo_blake3.
#[local] Existing Instance demo_bincode.
#[local] Instance no_meta : MetaJson :=
  {| JsonValue := unit; parse_json _ := None; json_u64 _ _ := None; json_f64 _ _ := None |}.
#[local] Instance demo_bodies : Bodies :=
  {| block_body data := ROk {| block_id := data; block_because := None |};
     flag_body data := ROk {| flag_id := data; flag_because := str "spam"; flag_more := None; flag_by := None |};
     list_body _ := RErr 422 |}.

Definition demo_server : WebServerConfig :=
  {| cfg_host := str "127.0.0.1"; cfg_port := 8080; cfg_web_root := str "web_viewer"; cfg_enable_cors := true; cfg_video_file := None;
     cfg_enable_p2p := true; cfg_p2p_fallback := true; cfg_cors_allowed_origins := []; cfg_max_ws_connections := 100;
     cfg_max_signaling_peers := 50; cfg_max_stream_rooms := 20; cfg_max_peers_per_stream := 50; cfg_max_ws_message_bytes := 65536;
     cfg_admin_api_token := Some (str "secret"); cfg_rate_limit_per_ip := 60; cfg_rate_limit_window_secs := 60; cfg_idle_cleanup_secs := 300 |}.

Definition demo_peer (id : string) : SignalingPeer := {| sp_id := str id; sp_is_publisher := false; sp_can_relay := false |}.

Definition demo_app : AppState (gmap rstring rstring) positive :=
  {| config := demo_server; setup := local_only (str "own");
     world := set_signaling (new_world (Some (new_moderation demo_moderation)))
       {| rooms := {[ str "s" := [demo_peer "eve"; demo_peer "bob"] ]}; peer_senders := {[ str "eve" := []; str "bob" := [] ]};
          stream_last_active := ∅ |} [];
     disk := ∅; limiter := new_rate_limiter 60 60; slots := no_slots; node := new_node; directory := Some (new_discovery 10);
     relay_stats := None; table_of_clients := ∅ |}.

Definition demo_request (m : Method) (p : list string) (token : option string) (data : string) : HttpRequest positive :=
  {| method := m; path := map str p; query := ROk ∅; authorization := (fun t => str "Bearer " ++ str t) <$> token; upgrade := RErr 400;
     payload := str data; remote := 1%positive |}.

Definition demo_moment : Moment := {| instant := 0; unix_now := 5; codecs_ready := true; meta_json := []; now_us := 0 |}.
Definition no_dir (_ : rstring) : bool := false.
Definition no_files (_ : HttpRequest positive) : Response := reply 404 NoContent.
Abbreviation demo_handle := (handle id no_dir no_files 1000 demo_app).

Definition demo_block : HttpRequest positive := demo_request POST ["api"; "moderation"; "block-peer"] (Some "secret") "eve".

Definition demo_outcome (r : exec (AppState (gmap rstring rstring) positive * outcome)) : outcome :=
  match r with Done (_, o) => o | _ => Upgraded RelayWebSocket end.
Definition demo_after (r : exec (AppState (gmap rstring rstring) positive * outcome)) : AppState (gmap rstring rstring) positive :=
  match r with Done (a, _) => a | _ => demo_app end.

Lemma demo_block_done : demo_handle demo_block demo_moment =
  Done (demo_after (demo_handle demo_block demo_moment), demo_outcome (demo_handle demo_block demo_moment)).
Proof. reflexivity. Qed.

(** The reply to a request without the token, or of a route that does not exist. *)
Definition demo_status (o : outcome) : Z := match o with Reply r => status r | _ => 0 end.
Example demo_statuses :
  map (fun req => demo_status (demo_outcome (demo_handle req demo_moment)))
    [demo_block; demo_request POST ["api"; "moderation"; "block-peer"] None "eve"; demo_request POST ["api"; "moderation"; "block-peer"] (Some "x") "eve";
     demo_request GET ["api"; "moderation"; "block-peer"] (Some "secret") "eve"; demo_request OPTIONS ["api"; "stream"; "stop"] None "";
     demo_request POST ["api"; "moderation"; "import"] (Some "secret") "[]"; demo_request GET ["stream"] None ""; demo_request GET ["api"; "nothing"] None "";
     demo_request DELETE ["api"; "moderation"; "block-peer"; "eve"] (Some "secret") ""; demo_request HEAD ["api"; "stats"] None ""]
  = [200; 401; 401; 405; 200; 422; 400; 200; 200; 200].
Proof. vm_compute. reflexivity. Qed.

Lemma admin_only_witness : authorized demo_app demo_block.
Proof.
  destruct (admin_only id no_dir no_files 1000 demo_app demo_block demo_moment _ _ demo_block_done) as [_ Hsecret].
  exact (Hsecret POST BlockPeerApi [] _ _ eq_refl eq_refl eq_refl).
Defined.

Lemma requests_are_runs_witness :
  rtc (steps (limits_of demo_server)) (world demo_app) (world (demo_after (demo_handle demo_block demo_moment))) /\
  rtc (Playback.step 1000 (local_only (str "own"))) new_node (node (demo_after (demo_handle demo_block demo_moment))).
Proof. exact (requests_are_runs id no_dir no_files 1000 demo_app demo_block demo_moment _ _ demo_block_done). Defined.

Lemma block_request_shuts_out_witness : exists (a' : AppState (gmap rstring rstring) positive) queue,
  allowed (world a') (str "eve") = false /\ peer_senders (signaling (world a')) !! str "bob" = Some queue /\ PeerLeave (str "eve") ∈ queue.
Proof.
  destruct (block_request_shuts_out id no_dir no_files 1000 demo_app demo_block demo_moment (new_moderation demo_moderation)
    {| block_id := str "eve"; block_because := None |} eq_refl eq_refl ltac:(vm_compute; reflexivity)
    (ex_intro _ (str "secret") (conj eq_refl eq_refl)) eq_refl eq_refl) as (a' & r & _ & _ & Hallowed & _ & _ & Hothers).
  cbn [block_id] in Hallowed, Hothers.
  destruct (Hothers (str "s") (str "bob")) as [_ Htold].
  - exists [demo_peer "eve"; demo_peer "bob"]. split; [reflexivity|]. apply elem_of_cons. by left.
  - exists [demo_peer "eve"; demo_peer "bob"]. split; [reflexivity|]. apply elem_of_cons. right. by apply list_elem_of_singleton.
  - discriminate.
  - destruct (Htold [] eq_refl ltac:(reflexivity)) as (queue & Hq & Hin). exists a', queue. split; [exact Hallowed|]. split; [exact Hq|exact Hin].
Defined.

Lemma pages_are_unguarded_witness :
  demo_outcome (demo_handle (demo_request GET ["index.html"] None "") demo_moment) = Reply (reply 200 DefaultPage) /\
  exists l, headers (match demo_outcome (demo_handle demo_block demo_moment) with Reply r => r | _ => reply 0 NoContent end) = l ++ security_headers.
Proof.
  split.
  - destruct (pages_are_unguarded id no_dir no_files 1000 demo_app (demo_request GET ["index.html"] None "") demo_moment demo_app
      (Reply (reply 200 DefaultPage)) eq_refl) as [Hpage _].
    exact (eq_sym (proj2 (Hpage eq_refl))).
  - destruct (pages_are_unguarded id no_dir no_files 1000 demo_app demo_block demo_moment _ _ demo_block_done) as (_ & _ & Hheaders).
    apply (Hheaders ltac:(discriminate) ltac:(vm_compute; reflexivity)). reflexivity.
Defined.

Lemma listed_streams_witness : exists r, list_streams_handler demo_app 5 = Done r /\
  body r = JsonBody (JObject [field "streams" (JArray []); field "count" (JNumber 0); field "p2p_enabled" (JBool false)]).
Proof.
  destruct (listed_streams demo_app 5) as (r & own & found & Hr & Hb & Hown & Hfound).
  - intros d [= <-]. apply map_Forall_empty.
  - exists r. split; [exact Hr|]. rewrite Hb. cbn in Hown. subst own. destruct found as [|v found]; [reflexivity|].
    destruct (proj1 (Hfound v) ltac:(apply elem_of_cons; by left)) as (d & id & ann & [= <-] & Hd & _). discriminate Hd.
Defined.
End Demo.
