(* ===== verification/Program.v ===== *)
(** * The program of a node

    Models [node/src/main.rs]: the commands and what each of them runs, how a
    node is made with the moderation it finds on the disk, the node behind a
    command (relay, video stream, web viewer), and what the commands that only
    show something print. The task that feeds the viewers of [run_web_viewer]
    is in [Feed]. A command other than the viewer is the list of its effects, in
    order, for the answers it gets from the outside. *)

From S2P Require Import Prelude Rust Format Float Hash StreamTree Peers Moderation JsonTree RelayNode Overlay Visualization BootstrapServer.
From S2P Require Import WebLimits Signaling Segment ClientFrames StreamDiscovery Discovery DiscoveryManager Playback Feed Relay WebApi.

#[local] Open Scope Z_scope.

#[local] Abbreviation exec := Rust.exec.

(** ** The command line *)

Record ViewerArgs : Type := {
  host : rstring;
  port : Z;
  web_root : rstring;
  bootstrap_nodes : list rstring;
  enable_cors : bool;
  video_file : option rstring;
  viewed_stream : option rstring;
  publish : bool;
  use_dht : bool;
  max_connections : Z;
  admin_token : option rstring;
  rate_limit : Z;
}.

Module Command.

Inductive Commands : Type :=
| Run (bootstrap : option (list rstring)) (listen role : rstring) (mdns dht geo_aware : bool)
| Status (node : rstring)
| ListStreams (node : rstring)
| Visualize (node format : rstring) (output : option rstring)
| Stream (bootstrap : option (list rstring)) (listen title : rstring) (video : option rstring) (width height fps duration : Z) (dht : bool)
| WebViewer (host : rstring) (port : Z) (web_root : rstring) (bootstrap : option (list rstring)) (cors : bool) (video stream_id : option rstring)
    (publish dht : bool) (max_connections : Z) (admin_token : option rstring) (rate_limit : Z)
| Publish (video : rstring) (title : option rstring) (port : Z) (bootstrap : option (list rstring)) (dht : bool)
| BootstrapServer (port : Z) (listen : rstring) (peer_expiration max_peers : Z) (relay_server : bool) (max_reservations max_circuits : Z).

End Command.

(** What [main] hands a command to. *)
Inductive running : Type :=
| RunRelayNode (bootstrap_nodes : list rstring) (listen role : rstring) (mdns dht geo_aware : bool)
| ShowStatus
| AskStreams (url node : rstring)
| ShowNetwork (format : rstring) (output : option rstring)
| RunVideoStream (bootstrap_nodes : list rstring) (listen title video_path : rstring) (dht : bool)
| RunStreamingDemo (bootstrap_nodes : list rstring) (listen title : rstring) (width height fps duration : Z) (dht : bool)
| RunWebViewer (args : ViewerArgs)
| RunBootstrapServer (config : BootstrapServerConfig).

(** [main]. The title of [Publish] is only logged, and the text of its path is
    taken with replacement characters. *)
Definition main (command : Command.Commands) : running :=
  match command with
  | Command.Run bootstrap listen role mdns dht geo_aware => RunRelayNode (default [] bootstrap) listen role mdns dht geo_aware
  | Command.Status _ => ShowStatus
  | Command.ListStreams node => AskStreams (str "http://" ++ node ++ str "/api/streams") node
  | Command.Visualize _ format output => ShowNetwork format output
  | Command.Stream bootstrap listen title (Some video_path) _ _ _ _ dht => RunVideoStream (default [] bootstrap) listen title video_path dht
  | Command.Stream bootstrap listen title None width height fps duration dht =>
      RunStreamingDemo (default [] bootstrap) listen title width height fps duration dht
  | Command.WebViewer host port web_root bootstrap cors video stream_id publish dht max_connections admin_token rate_limit =>
      RunWebViewer {| host := host; port := port; web_root := web_root; bootstrap_nodes := default [] bootstrap; enable_cors := cors;
                      video_file := video; viewed_stream := stream_id; publish := publish; use_dht := dht;
                      max_connections := max_connections; admin_token := admin_token; rate_limit := rate_limit |}
  | Command.Publish video _ port bootstrap dht =>
      RunWebViewer {| host := str "127.0.0.1"; port := port; web_root := str "web_viewer"; bootstrap_nodes := default [] bootstrap;
                      enable_cors := false; video_file := Some (from_utf8_lossy video); viewed_stream := None; publish := true; use_dht := dht;
                      max_connections := 100; admin_token := None; rate_limit := 60 |}
  | Command.BootstrapServer port listen peer_expiration max_peers relay_server max_reservations max_circuits =>
      RunBootstrapServer {| listen_addr := listen; BootstrapServer.port := port; max_peers := max_peers; peer_expiration := peer_expiration * second;
                            enable_relay := relay_server; max_reservations := max_reservations; max_circuits := max_circuits |}
  end.


(** ** Making a node *)

(** [OverlayConfig], but for the identity it draws, which the overlay replaces by
    one of its own. Times are nanoseconds. *)
Record OverlayConfig : Type := {
  bootstrap_peers : list rstring;
  enable_kademlia : bool;
  enable_bootstrap_discovery : bool;
  enable_dht_discovery : bool;
  max_peer_connections : Z;
  connection_timeout : Z;
  peer_ttl : Z;
  heartbeat_interval : Z;
  rebalance_interval : Z;
  geo_aware_topology : bool;
  enable_relay_client : bool;
  relay_server_address : option rstring;
}.

Definition default_overlay_config : OverlayConfig :=
  {| bootstrap_peers := []; enable_kademlia := true; enable_bootstrap_discovery := true; enable_dht_discovery := true;
     max_peer_connections := 50; connection_timeout := 30 * second; peer_ttl := 300 * second; heartbeat_interval := 15 * second;
     rebalance_interval := 60 * second; geo_aware_topology := true; enable_relay_client := true; relay_server_address := None |}.

(** The configurations that [Libp2pOverlay::new] makes from it; an address that
    does not parse is left out. *)
Definition relay_defaults : RelayConfig :=
  {| max_buffer_size := 100; max_chunk_size := 64 * 1024; inactivity_timeout := 60 * second; enable_hop_removal := true |}.

Definition topology_config_of (c : OverlayConfig) : TopologyConfig :=
  {| max_tree_depth := max_tree_depth StreamTree.default_config; min_relay_quality := min_relay_quality StreamTree.default_config;
     enable_geo_aware := geo_aware_topology c; max_consecutive_failures := max_consecutive_failures StreamTree.default_config;
     min_success_rate := min_success_rate StreamTree.default_config; health_record_expiry := health_record_expiry StreamTree.default_config;
     rebalance_threshold := rebalance_threshold StreamTree.default_config; default_bandwidth := default_bandwidth StreamTree.default_config;
     score_weights := score_weights StreamTree.default_config; prefer_same_region := prefer_same_region StreamTree.default_config |}.

Definition discovery_config_of (parse_multiaddr : rstring -> option Multiaddr) (c : OverlayConfig) : ManagerConfig :=
  {| enable_dht := enable_dht_discovery c; enable_bootstrap := enable_bootstrap_discovery c;
     bootstrap_config := {| Discovery.bootstrap_nodes := if enable_bootstrap_discovery c then omap parse_multiaddr (bootstrap_peers c) else [];
                            bootstrap_nodes_legacy := []; boot_buffer := 32; boot_expiration := 3600 |} |}.

Definition MODERATION_FILE : rstring := str "moderation.json".

Definition mod_config_of_node : ModerationConfig :=
  {| persistence_path := Some MODERATION_FILE; auto_persist := true; whitelist_only := false |}.

Section Node.
Context {PeerId Disk Ip : Type} `{Countable PeerId, Countable Ip, !HashOrder PeerId, !FileSystem Disk, !Json ModerationList, !HashOrder rstring}.

(** The moderation of a node that starts: what the file holds, if there is one
    that can be read. *)
Definition stored_moderation (disk : Disk) : ModerationManager :=
  let moderation := new_moderation mod_config_of_node in
  match read_file disk MODERATION_FILE with
  | Some _ => fst (load_from_file moderation disk MODERATION_FILE)
  | None => moderation
  end.

(** The overlay and the node share one manager: [node_moderation] and that of
    [node_overlay] are the same object. *)
Record RunningNode : Type := {
  start_time : Z;
  overlay_config : OverlayConfig;
  node_overlay : Libp2pOverlay (PeerId := PeerId);
  node_role : PeerRole;
  node_moderation : ModerationManager;
}.

(** [RunningNode::new], with the identity that is drawn; it never fails. *)
Definition new_running_node (disk : Disk) (local : PeerId) (now : Z) (role : PeerRole) (enable_dht enable_geo_aware : bool)
    (bootstrap_peers : list rstring) : RunningNode :=
  let moderation := stored_moderation disk in
  {| start_time := now;
     overlay_config :=
       {| bootstrap_peers := bootstrap_peers; enable_kademlia := enable_dht;
          enable_bootstrap_discovery := match bootstrap_peers with [] => false | _ => true end; enable_dht_discovery := enable_dht;
          max_peer_connections := 50; connection_timeout := 30 * second; peer_ttl := peer_ttl default_overlay_config;
          heartbeat_interval := heartbeat_interval default_overlay_config; rebalance_interval := rebalance_interval default_overlay_config;
          geo_aware_topology := enable_geo_aware; enable_relay_client := enable_relay_client default_overlay_config;
          relay_server_address := relay_server_address default_overlay_config |};
     node_overlay := new_overlay local relay_defaults (Some moderation) now;
     node_role := role;
     node_moderation := moderation |}.

(** ** The web viewer *)

(** What a command does outside. *)
Inductive effect : Type :=
| OverlayStarted
| OverlayStopped
| Dialled (address : rstring)
| FilePublished (title path : rstring)
| Printed (text : rstring)
| PrintedError (text : rstring)
| FileWritten (path text : rstring).

Definition is_p2p (args : ViewerArgs) : bool :=
  is_some (viewed_stream args) || (publish args && is_some (video_file args)) || match bootstrap_nodes args with [] => false | _ => true end.

Definition viewer_config (args : ViewerArgs) : WebServerConfig :=
  let d := WebApi.default_config in
  {| cfg_host := host args; cfg_port := port args; cfg_web_root := web_root args; cfg_enable_cors := enable_cors args;
     cfg_video_file := video_file args; cfg_enable_p2p := is_p2p args; cfg_p2p_fallback := true;
     cfg_cors_allowed_origins := cfg_cors_allowed_origins d; cfg_max_ws_connections := max_connections args;
     cfg_max_signaling_peers := cfg_max_signaling_peers d; cfg_max_stream_rooms := cfg_max_stream_rooms d;
     cfg_max_peers_per_stream := cfg_max_peers_per_stream d; cfg_max_ws_message_bytes := cfg_max_ws_message_bytes d;
     cfg_admin_api_token := admin_token args; cfg_rate_limit_per_ip := rate_limit args;
     cfg_rate_limit_window_secs := cfg_rate_limit_window_secs d; cfg_idle_cleanup_secs := cfg_idle_cleanup_secs d |}.

(** The state of the server before it serves: the counts are zero, and with a
    node it has the node's moderation and the counters of its relay. *)
Definition new_app (config : WebServerConfig) (setup : Setup) (disk : Disk) (node : option RunningNode) : AppState Disk Ip :=
  {| WebApi.config := config; setup := setup; world := new_world (node_moderation <$> node); disk := disk;
     limiter := new_rate_limiter (cfg_rate_limit_per_ip config) (cfg_rate_limit_window_secs config); slots := no_slots;
     WebApi.node := Playback.new_node; directory := if Playback.overlay setup then Some (new_discovery 1000) else None;
     relay_stats := (fun n => RelayNode.stats (ov_relay (node_overlay n))) <$> node; table_of_clients := ∅ |}.

(** The mode: its role in the network and what the stream manager is made with;
    [drawn] is the identifier that is generated for a stream of its own. *)
Definition viewer_mode (args : ViewerArgs) (drawn : StreamId) : option PeerRole * Setup :=
  match viewed_stream args with
  | Some sid => (Some Consumer, with_p2p sid)
  | None =>
      if publish args && is_some (video_file args) then (Some Publisher, with_p2p drawn)
      else match bootstrap_nodes args with
           | [] => (None, local_only drawn)
           | _ => (Some Consumer, with_discovery drawn)
           end
  end.

(** [run_web_viewer] up to the server: the state, the node, and what was done in
    the network; [None] when the overlay does not start. That a bootstrap node
    does not answer is only logged. *)
Definition make_viewer (args : ViewerArgs) (disk : Disk) (local : PeerId) (drawn : StreamId) (now : Z) (started : bool)
  : option (AppState Disk Ip * option RunningNode * list effect) :=
  let '(role, setup) := viewer_mode args drawn in
  let config := viewer_config args in
  match role with
  | Some role =>
      let node := new_running_node disk local now role (use_dht args) false (bootstrap_nodes args) in
      if started then Some (new_app config setup disk (Some node), Some node, OverlayStarted :: map Dialled (bootstrap_nodes args)) else None
  | None => Some (new_app config setup disk None, None, [])
  end.

(** What is done when the server ends, by itself or by a signal. *)
Definition viewer_ends (node : option RunningNode) : list effect := match node with Some _ => [OverlayStopped] | None => [] end.
End Node.
Arguments RunningNode PeerId {_ _}.

(** ** What a restart keeps *)

Section Restart.
Context {PeerId Disk Ip : Type} `{Countable PeerId, Countable Ip, !HashOrder PeerId, !FileSystem Disk, !Json ModerationList, !HashOrder rstring, !Bodies}.
Context (to_lowercase : rstring -> rstring) (dir_exists : rstring -> bool) (serve_dir : HttpRequest Ip -> Response) (capacity : nat).

Notation App := (AppState Disk Ip).
Notation handle := (handle to_lowercase dir_exists serve_dir capacity).

Definition imports (req : HttpRequest Ip) : Prop := exists m params, route (path req) = AdminRoute m ImportApi params.

(** A change of the lists is made under a lock of its own; then the lists are
    exported, with all locks held, and written to the file, with none: between
    these other requests go on. A change that is being saved waits for its export
    or writes a text. Two writes at once leave one cannot say what. *)
Inductive saving_stage : Type := Changed | Writing (text : rstring) (alone : bool).

Record Serving : Type := {
  manager : ModerationManager;
  file : Disk;
  in_flight : list saving_stage;
  settled : bool;
}.

(** A call of the manager. The last field watches: it is set when a change is
    begun while none is being saved, and cleared when one is begun while another
    is, and by imports, which are not saved. *)
Definition changed (s : Serving) (op : mod_op) (now : Z) : Serving :=
  let '(m, persists) := mod_effect (manager s) op now in
  if persists : bool then
    {| manager := m; file := file s; in_flight := in_flight s ++ [Changed]; settled := match in_flight s with [] => true | _ => false end |}
  else {| manager := m; file := file s; in_flight := in_flight s; settled := settled s && negb (is_import op) |}.

Definition is_writing (x : saving_stage) : bool := match x with Writing _ _ => true | Changed => false end.
Definition disturb (x : saving_stage) : saving_stage := match x with Writing text _ => Writing text false | Changed => Changed end.

(** One step of a node that serves requests, any number of them at once. *)
Inductive serves (s : Serving) : Serving -> Prop :=
| call_changes op now : serves s (changed s op now)
| lists_exported l1 l2 now text : in_flight s = l1 ++ Changed :: l2 -> to_json (export_list (manager s) now) = Some text ->
    serves s {| manager := manager s; file := file s; settled := settled s;
                in_flight := map disturb l1 ++ Writing text (negb (existsb is_writing (l1 ++ l2))) :: map disturb l2 |}
| export_fails l1 l2 now : in_flight s = l1 ++ Changed :: l2 -> to_json (export_list (manager s) now) = None ->
    serves s {| manager := manager s; file := file s; settled := settled s; in_flight := l1 ++ l2 |}
| write_ends l1 l2 text alone d : in_flight s = l1 ++ Writing text alone :: l2 ->
    (alone = true -> d = fst (write_file (file s) MODERATION_FILE text)) ->
    serves s {| manager := manager s; file := d; settled := settled s; in_flight := l1 ++ l2 |}.

Lemma stored_config (d : Disk) : mod_config (stored_moderation d) = mod_config_of_node.
Proof.
  unfold stored_moderation, load_from_file. destruct (read_file d MODERATION_FILE) as [data|] eqn:Hr; [|done]. destruct (from_json data); done.
Qed.

Lemma stored_keyed (d : Disk) : Moderation.keyed (stored_moderation d).
Proof.
  unfold stored_moderation, load_from_file. assert (Hnew : Moderation.keyed (new_moderation mod_config_of_node)) by apply map_Forall_empty.
  destruct (read_file d MODERATION_FILE) as [data|]; [|done]. destruct (from_json data) as [l|]; [|done]. by apply import_keyed.
Qed.

Lemma stored_in_file (m : ModerationManager) (d : Disk) : mod_config m = mod_config_of_node -> in_file m d MODERATION_FILE -> stored_moderation d = m.
Proof.
  intros Hc Hf. specialize (Hf mod_config_of_node). unfold stored_moderation. destruct (read_file d MODERATION_FILE) as [data|] eqn:Hr.
  - rewrite Hf. cbn. destruct m. cbn in *. by rewrite Hc.
  - unfold load_from_file in Hf. rewrite Hr in Hf. discriminate.
Qed.

Lemma moderate_call (a : App) m op now : moderation (world (moderate a m op now)) = Some (fst (fst (mod_call (m, disk a) op now))) /\
  disk (moderate a m op now) = snd (fst (mod_call (m, disk a) op now)).
Proof. unfold moderate. destruct (mod_call (m, disk a) op now) as [[m' d] ok]. done. Qed.

(** What a request does to the manager and to its file, when it runs alone. *)
Definition moderated (importing : Prop) (a a' : App) : Prop :=
  (moderation (world a') = moderation (world a) /\ disk a' = disk a) \/
  exists m op now, moderation (world a) = Some m /\ (is_import op = true -> importing) /\
    moderation (world a') = Some (fst (fst (mod_call (m, disk a) op now))) /\ disk a' = snd (fst (mod_call (m, disk a) op now)).

Lemma moderate_moderated (importing : Prop) (a : App) m op now : moderation (world a) = Some m -> (is_import op = true -> importing) ->
  moderated importing a (moderate a m op now).
Proof. intros Hm Hi. right. destruct (moderate_call a m op now) as [Hmo Hdi]. by exists m, op, now. Qed.

Lemma endpoint_moderates a req t e params a' out :
  run_endpoint to_lowercase capacity a req t e params = Done (a', out) -> moderated (e = ImportApi) a a'.
Proof.
  intros Hrun. destruct (reads_only e) eqn:He.
  { left. destruct (reads_only_untouched _ _ _ _ _ _ _ _ _ He Hrun) as [Hw Hd _ _ _]. by rewrite Hw. }
  assert (Hkicked : forall a1 p, moderated (e = ImportApi) a a1 -> moderated (e = ImportApi) a (kick a1 p)) by done.
  destruct e; try discriminate He; try done; cbn [run_endpoint] in Hrun.
  - injection Hrun as <- <-. by left.
  - injection Hrun as <- <-. by left.
  - destruct (block_body _) as [x|code]; cbn in Hrun; [|by injection Hrun as <- <-; left].
    unfold mod_block_peer_handler in Hrun. destruct (moderation (world a)) as [m|] eqn:Hm; injection Hrun as <- <-; [|by left].
    apply Hkicked. by apply moderate_moderated.
  - destruct (match params with [p] => _ | _ => _ end) as [p|code]; cbn in Hrun; [|by injection Hrun as <- <-; left].
    unfold mod_unblock_peer_handler in Hrun. destruct (moderation (world a)) as [m|] eqn:Hm; injection Hrun as <- <-; [|by left].
    by apply moderate_moderated.
  - destruct (flag_body _) as [x|code]; cbn in Hrun; [|by injection Hrun as <- <-; left].
    unfold mod_flag_stream_handler in Hrun. destruct (moderation (world a)) as [m|] eqn:Hm; injection Hrun as <- <-; [|by left].
    by apply moderate_moderated.
  - destruct (list_body _) as [x|code]; cbn in Hrun; [|by injection Hrun as <- <-; left].
    unfold mod_import_handler in Hrun. destruct (moderation (world a)) as [m|] eqn:Hm; injection Hrun as <- <-; [|by left].
    by apply moderate_moderated.
Qed.

Lemma method_moderates a req t m e params a' out : by_method to_lowercase capacity a req t m e params = Done (a', out) -> moderated (e = ImportApi) a a'.
Proof. unfold by_method. destruct (accepts m (method req)); [by apply endpoint_moderates|]. intros [= <- <-]. by left. Qed.

Lemma request_moderates a req t a' out : handle a req t = Done (a', out) -> moderated (imports req) a a'.
Proof.
  intros Hh%handle_handled.
  assert (Hafter : forall a1 (P : Prop), untouched a a1 -> (P -> imports req) -> moderated P a1 a' -> moderated (imports req) a a').
  { intros a1 P [Hw Hd _ _ _] HP. unfold moderated. rewrite Hw, Hd. intros [?|(m & op & now & ? & ? & ?)]; [by left|right]. exists m, op, now. tauto. }
  assert (Hsame : untouched a a' -> moderated (imports req) a a') by (intros [Hw Hd _ _ _]; left; by rewrite Hw).
  destruct Hh as [Hr|a' Hr Hl|a' Hr Hl Ho|a1 m e params a' out Hr Hl Hb|a' m e params code text Hr Hl Ha Hc|a1 m e params a' out Hr Hl Ha Hb].
  1: by apply Hsame. 1-2,4: by apply Hsame; eapply limited_untouched.
  all: eapply Hafter; [by eapply limited_untouched| |eapply method_moderates; exact Hb]; intros ->.
  - by apply public_reads_only in Hr.
  - by eexists _, _.
Qed.

(** A call that runs alone does what the call of the manager does. *)
Lemma call_alone (s : Serving) op now : mod_config (manager s) = mod_config_of_node -> in_flight s = [] ->
  exists s', rtc serves s s' /\ manager s' = fst (fst (mod_call (manager s, file s) op now)) /\
    file s' = snd (fst (mod_call (manager s, file s) op now)) /\ in_flight s' = [] /\ (is_import op = false -> settled s = true -> settled s' = true).
Proof.
  intros Hc Hq. pose proof (call_changes s op now) as Hchange. unfold changed in Hchange. unfold mod_call. cbn [fst snd].
  pose proof (effect_config (manager s) op now) as Hc'. destruct (mod_effect (manager s) op now) as [m [|]] eqn:He; cbn [fst] in Hc'.
  2:{ eexists. split; [by apply rtc_once|]. cbn. rewrite Hq. split_and!; [done..|]. intros ->. by rewrite andb_true_r. }
  rewrite Hq in Hchange. cbn [app] in Hchange. set (s1 := Build_Serving _ _ _ _) in Hchange.
  unfold maybe_persist, save_to_file. rewrite Hc', Hc. cbn [auto_persist persistence_path mod_config_of_node].
  destruct (to_json (export_list m now)) as [text|] eqn:Hj.
  - pose proof (lists_exported s1 [] [] now text eq_refl Hj) as Hexport. cbn in Hexport. set (s2 := Build_Serving _ _ _ _) in Hexport.
    pose proof (write_ends s2 [] [] text true _ eq_refl (fun _ => eq_refl)) as Hwrite.
    cbn [app file manager settled] in Hwrite.
    eexists. split; [eapply rtc_l; [exact Hchange|]; eapply rtc_l; [exact Hexport|by apply rtc_once]|].
    cbn [manager file in_flight settled].
    change (file s2) with (file s). by destruct (write_file (file s) MODERATION_FILE text).
  - pose proof (export_fails s1 [] [] now eq_refl Hj) as Hfails. cbn in Hfails.
    eexists. split; [eapply rtc_l; [exact Hchange|by apply rtc_once]|]. done.
Qed.

(** A disk that takes every write of the file, and lists that have a text. *)
Definition always_saves : Prop :=
  (forall (d : Disk) data, snd (write_file d MODERATION_FILE data) = true) /\ (forall l : ModerationList, is_Some (to_json l)).

(** What is known of a node that serves: while it is settled, the file has the
    lists, or the one save that is under way will see to it. *)
Definition serving_ok (s : Serving) : Prop :=
  mod_config (manager s) = mod_config_of_node /\ Moderation.keyed (manager s) /\
  (settled s = true ->
    match in_flight s with
    | [] => stored_moderation (file s) = manager s
    | [Changed] => True
    | [Writing text alone] => alone = true /\ exists now, to_json (export_list (manager s) now) = Some text
    | _ => False
    end).

Lemma written_stored (m : ModerationManager) (d : Disk) now text : always_saves -> mod_config m = mod_config_of_node -> Moderation.keyed m ->
  to_json (export_list m now) = Some text -> stored_moderation (fst (write_file d MODERATION_FILE text)) = m.
Proof.
  intros [Hwrite _] Hc Hk Hj. apply stored_in_file; [done|]. pose proof (saved_in_file m d MODERATION_FILE now Hk) as Hs.
  unfold save_to_file in Hs. rewrite Hj in Hs. by apply Hs.
Qed.

Lemma serves_ok s s' : always_saves -> serving_ok s -> serves s s' -> serving_ok s'.
Proof.
  intros Hsaves (Hc & Hk & Hset). destruct 1 as [op now|l1 l2 now text Hin Hj|l1 l2 now Hin Hj|l1 l2 text alone d Hin Hd].
  - unfold changed. pose proof (effect_config (manager s) op now) as Hc'. pose proof (effect_keyed (manager s) op now Hk) as Hk'.
    pose proof (effect_idle (manager s) op now) as Hidle.
    destruct (mod_effect (manager s) op now) as [m [|]]; cbn [fst snd] in *; (split; [cbn; congruence|split; [done|]]); cbn.
    + destruct (in_flight s); [done|]. discriminate.
    + intros [Hs Hi%negb_true_iff]%andb_true_iff. rewrite (Hidle Hi eq_refl). by apply Hset.
  - split; [done|]. split; [done|]. cbn. intros Hs%Hset. rewrite Hin in Hs. destruct l1 as [|x l1]; [|by destruct x, l1].
    destruct l2; [|done]. cbn. split; [done|]. by exists now.
  - split; [done|]. split; [done|]. destruct Hsaves as [_ Hjson]. destruct (Hjson (export_list (manager s) now)). congruence.
  - split; [done|]. split; [done|]. cbn. intros Hs%Hset. rewrite Hin in Hs. destruct l1 as [|x l1]; [|by destruct x, l1].
    destruct l2; [|done]. destruct Hs as [-> [now Hj]]. cbn. rewrite Hd by done. by eapply written_stored.
Qed.

(** C22: A viewer node serves, any number of requests at once, and its file can be
    written. Whenever no change of the moderation is being saved, and none was
    begun while another was being saved since one was last saved by itself, the
    node has the moderation that a node would have that is started now: what was
    blocked, flagged or taken back survives a restart, and nothing else comes of
    it. (Imports are not saved until the next change is.) A request that is
    handled by itself is such a run, with the handler's outcome. *)
Theorem restart_changes_nothing args disk0 (local : PeerId) drawn now node0 done0 (a0 : App) m0 s : always_saves ->
  make_viewer args disk0 local drawn now true = Some (a0, Some node0, done0) -> moderation (world a0) = Some m0 ->
  rtc serves {| manager := m0; file := disk a0; in_flight := []; settled := true |} s ->
  (settled s = true -> in_flight s = [] ->
    manager s = stored_moderation (file s) /\
    forall local' now' role dht geo peers (peer_text : PeerId -> rstring) p,
      let restarted := new_running_node (file s) local' now' role dht geo peers in
      peer_allowed peer_text (node_overlay restarted) p = is_peer_allowed (manager s) (peer_text p)) /\
  forall (a a' : App) req t out, in_flight s = [] -> moderation (world a) = Some (manager s) -> disk a = file s ->
    handle a req t = Done (a', out) ->
    exists s', rtc serves s s' /\ moderation (world a') = Some (manager s') /\ disk a' = file s' /\ in_flight s' = [] /\
      (~ imports req -> settled s = true -> settled s' = true).
Proof.
  intros Hsaves Hmake Hm0 Hr.
  assert (Hok : serving_ok s).
  { revert s Hr. refine (rtc_ind_r _ _ _ _); [|intros s1 s2 _ Hs IH; by eapply serves_ok].
    unfold make_viewer in Hmake. destruct (viewer_mode args drawn) as [[role|] su]; [|done]. injection Hmake as <- _ _.
    cbn in Hm0. injection Hm0 as <-. split; [apply stored_config|]. split; [apply stored_keyed|done]. }
  destruct Hok as (Hc & Hk & Hset). split.
  - intros Hs Hq. specialize (Hset Hs). rewrite Hq in Hset. split; [done|]. intros. unfold peer_allowed. cbn. by rewrite Hset.
  - intros a a' req t out Hq Hm Hd [[Hm' Hd']|(m & op & now' & Hm1 & Hi & Hm' & Hd')]%request_moderates.
    + exists s. rewrite Hm', Hd'. split_and!; [apply rtc_refl|done..].
    + assert (m = manager s) as -> by congruence. rewrite Hd in Hm', Hd'. destruct (call_alone s op now' Hc Hq) as (s' & Hr' & Hm2 & Hd2 & Hq2 & Hkeep).
      exists s'. rewrite Hm', Hd', Hm2, Hd2. split_and!; [done..|]. intros Himp. apply Hkeep. destruct (is_import op); [by destruct Himp; apply Hi|done].
Qed.
End Restart.

(** ** A node with a publisher's command *)

Section Modes.
Context {PeerId Disk Ip : Type} `{Countable PeerId, Countable Ip, !HashOrder PeerId, !FileSystem Disk, !Json ModerationList, !HashOrder rstring, !Bodies}.
Context (to_lowercase : rstring -> rstring) (dir_exists : rstring -> bool) (serve_dir : HttpRequest Ip -> Response) (capacity : nat).

Notation App := (AppState Disk Ip).

(** The four ways a viewer is made agree with its configuration: whether it is
    configured for the network, whether it has a node, the moderation, the
    counters and the directory that come with one, and what the stream manager is
    made with; it dials exactly the bootstrap nodes, and it has a stream of its own
    exactly when one is given or a file is published. *)
Theorem viewer_parts_agree args disk (local : PeerId) drawn now started (a : App) node done :
  make_viewer args disk local drawn now started = Some (a, node, done) ->
  let p2p := is_p2p args in
  cfg_enable_p2p (WebApi.config a) = p2p /\ enable_p2p (setup a) = p2p /\ Playback.overlay (setup a) = p2p /\
  is_some node = p2p /\ is_some (moderation (world a)) = p2p /\ is_some (relay_stats a) = p2p /\ is_some (directory a) = p2p /\
  (p2p = true -> started = true) /\
  done = (if p2p then OverlayStarted :: map Dialled (bootstrap_nodes args) else []) /\
  is_some (stream_id (setup a)) = is_some (viewed_stream args) || (publish args && is_some (video_file args)).
Proof.
  unfold make_viewer, viewer_config, is_p2p, viewer_mode.
  destruct (viewed_stream args) as [sid|]; [|destruct (publish args && is_some (video_file args)); [|destruct (bootstrap_nodes args)]];
    destruct started; intros [= <- <- <-]; cbn; split_and!; try done.
Qed.

(** Nobody can administer the node that the command [publish] starts: whatever
    is asked of it, and with whatever token, a request changes nothing but the
    counts of requests and connections. *)
Theorem published_node_is_unmanaged video title port bootstrap dht args disk (local : PeerId) drawn now started (a0 : App) node done a req t a' out :
  main (Command.Publish video title port bootstrap dht) = RunWebViewer args ->
  make_viewer args disk local drawn now started = Some (a0, node, done) ->
  WebApi.config a = WebApi.config a0 -> handle to_lowercase dir_exists serve_dir capacity a req t = Done (a', out) -> untouched a a'.
Proof.
  intros [= <-] Hmake Hc Hh. destruct (changes_are_authorized _ _ _ _ _ _ _ _ _ Hh) as [|[(token & Htoken & _) _]]; [done|].
  rewrite Hc in Htoken. unfold make_viewer in Hmake. destruct (viewer_mode _ _) as [[role|] su]; [destruct started; [|done]|]; injection Hmake as <- _ _; discriminate Htoken.
Qed.
End Modes.

(** ** The commands that show something *)

(** [serde_json]'s accessors; an index that is not there gives null. *)
Definition json_index (v : jvalue) (key : string) : jvalue :=
  match v with JObject fields => default JNull (head (JsonTree.keyed (str key) fields)) | _ => JNull end.
Definition as_str (v : jvalue) : option rstring := match v with JString s => Some s | _ => None end.
Definition as_u64 (v : jvalue) : option Z := match v with JNumber n => if (0 <=? n) && (n <=? u64_max) then Some n else None | _ => None end.
Definition as_array (v : jvalue) : option (list jvalue) := match v with JArray l => Some l | _ => None end.

Definition table_row (id title codecs resolution : rstring) : rstring :=
  pad_to 40 id ++ str " " ++ pad_to 20 title ++ str " " ++ pad_to 15 codecs ++ str " " ++ pad_to 10 resolution.

Definition resolution_text (w h : Z) : rstring := if 0 <? w then decimal w ++ str "x" ++ decimal h else [].

Definition listed_row (s : jvalue) : rstring :=
  let id := default (str "unknown") (as_str (json_index s "stream_id")) in
  let title := default (str "untitled") (as_str (json_index s "title")) in
  let vc := default [] (as_str (json_index s "video_codec")) in
  let ac := default [] (as_str (json_index s "audio_codec")) in
  let w := default 0 (as_u64 (json_index s "video_width")) in
  let h := default 0 (as_u64 (json_index s "video_height")) in
  table_row id title (vc ++ str "/" ++ ac) (resolution_text w h).

Definition table_head : list rstring :=
  [table_row (str "Stream ID") (str "Title") (str "Codecs") (str "Resolution"); repeat 45 85].

(** [list-streams]: the node's answer, or why there is none; [None] is a body that
    is not JSON. With the flag, whether the command succeeds. *)
Definition list_streams_command (node : rstring) (response : result (option jvalue) rstring) : list effect * bool :=
  match response with
  | ROk (Some data) =>
      (match as_array (json_index data "streams") with
       | Some (s :: streams) => map Printed (table_head ++ map listed_row (s :: streams))
       | _ => [Printed (str "No active streams found on " ++ node)]
       end, true)
  | ROk None => ([], false)
  | RErr e =>
      ([PrintedError (str "Failed to connect to node at " ++ node ++ str ": " ++ e);
        PrintedError (str "Make sure a web-viewer is running on that address.")], true)
  end.

(** [status]: the node it makes for itself may not start, give no numbers, or not
    stop. *)
Definition status_command (two_places : float -> rstring) (started : bool) (stats : option OverlayStats) (uptime : option Z) (stopped : bool)
  : list effect * bool :=
  if started then
    (OverlayStarted :: match stats, uptime with Some s, Some u => [Printed (create_network_status two_places s u)] | _, _ => [] end
       ++ (if stopped then [OverlayStopped] else []), stopped)
  else ([], false).

Section Shows.
Context {PeerId Disk : Type} `{Countable PeerId, !HashOrder PeerId, !FileSystem Disk}.
Context (base58 : PeerId -> rstring) (byte_length : PeerId -> Z) (two_places : float -> rstring) (pretty : jvalue -> rstring).

(** The text of a format: [None] for one that is not known. [unix_now] is the
    time for JSON. *)
Definition render (format : rstring) (peers : gmap PeerId (Peers.PeerInfo PeerId)) (stats : option OverlayStats) (uptime unix_now : Z) : option rstring :=
  if str_eqb format (str "text") then
    Some (str "== NETWORK TOPOLOGY ==" ++ newline ++ newline
          ++ match stats with Some s => create_network_status two_places s uptime | None => [] end
          ++ newline ++ create_peer_table base58 byte_length peers true)
  else if str_eqb format (str "dot") then Some (generate_dot_graph base58 peers None)
  else if str_eqb format (str "json") then
    Some (pretty (JObject [field "topology" (JObject [field "peers" (JNumber (Z.of_nat (size peers))); field "streams" (JNumber 0);
                                                       field "timestamp" (JNumber unix_now)])]))
  else None.

(** [visualize], after the overlay was made: on a format that is not known it
    returns without stopping it. *)
Definition visualize_command (disk : Disk) (started : bool) (connected : list (Peers.PeerInfo PeerId)) (stats : option OverlayStats) (uptime unix_now : Z)
    (stopped : bool) (format : rstring) (output : option rstring) : Disk * list effect * bool :=
  if started then
    let peers := fold_left (fun m peer => <[info_id peer := peer]> m) connected ∅ in
    match render format peers stats uptime unix_now with
    | None => (disk, [OverlayStarted], false)
    | Some viz =>
        if stopped then
          match output with
          | Some path =>
              let '(disk, written) := write_file disk path viz in
              if written : bool then (disk, [OverlayStarted; OverlayStopped; FileWritten path viz; Printed (str "Visualization written to " ++ path)], true)
              else (disk, [OverlayStarted; OverlayStopped], false)
          | None => (disk, [OverlayStarted; OverlayStopped; Printed viz], true)
          end
        else (disk, [OverlayStarted], false)
    end
  else (disk, [], false).
End Shows.

(** ** The nodes without a viewer *)

(** [run_video_stream]: that publishing fails is only logged. *)
Definition video_stream_command (exists_file started stopped : bool) (title video_path : rstring) : list effect * bool :=
  if exists_file then
    if started then ([OverlayStarted; FilePublished title video_path] ++ (if stopped then [OverlayStopped] else []), stopped) else ([], false)
  else ([], false).

Section RelayNode.
(** Text in lower case is a parameter: the tables of Unicode. *)
Context (to_lowercase : rstring -> rstring).

Definition role_named (role : rstring) : PeerRole :=
  let s := to_lowercase role in
  if str_eqb s (str "relay") then Relay
  else if str_eqb s (str "edge") || str_eqb s (str "consumer") then Consumer
  else if str_eqb s (str "source") || str_eqb s (str "publisher") then Publisher
  else if str_eqb s (str "hybrid") then HybridRelay
  else if str_eqb s (str "gateway") then Gateway
  else Relay.
End RelayNode.

(** The loop of [run_relay_node], with the task that waits for the signal. *)
Inductive relay_phase : Type := LoopTesting | LoopTicking | LoopReading | LoopStopping | RelayReturned (ok : bool).
Record RelayProcess : Type := { keeps_running : bool; signalled : bool; relay_at : relay_phase }.

Definition relay_started : RelayProcess := {| keeps_running := true; signalled := false; relay_at := LoopTesting |}.

Definition relay_act (p : RelayProcess) (ok : bool) : option RelayProcess :=
  let at_phase x := Some {| keeps_running := keeps_running p; signalled := signalled p; relay_at := x |} in
  match relay_at p with
  | LoopTesting => at_phase (if keeps_running p then LoopTicking else LoopStopping)
  | LoopTicking => at_phase LoopReading
  | LoopReading => at_phase LoopTesting
  | LoopStopping => at_phase (RelayReturned ok)
  | RelayReturned _ => None
  end.

Inductive relay_step (p : RelayProcess) : RelayProcess -> Prop :=
| relay_signal : signalled p = false -> relay_step p {| keeps_running := keeps_running p; signalled := true; relay_at := relay_at p |}
| relay_flag : signalled p = true -> relay_step p {| keeps_running := false; signalled := true; relay_at := relay_at p |}
| relay_goes ok p' : relay_act p ok = Some p' -> relay_step p p'.

(** The node ends only after the signal, and after it within five of its own
    sections. *)
Theorem relay_node_ends p : rtc relay_step relay_started p ->
  (forall ok, relay_at p = RelayReturned ok -> signalled p = true) /\
  (keeps_running p = false -> forall ok, exists n : nat, (n <= 5)%nat /\ exists p', Nat.iter n (fun x => x ≫= fun p => relay_act p ok) (Some p) = Some p' /\
     exists ok', relay_at p' = RelayReturned ok').
Proof.
  intros Hr. split.
  - assert (Hi : (keeps_running p = false -> signalled p = true) /\
      match relay_at p with LoopStopping | RelayReturned _ => keeps_running p = false | _ => True end).
    { revert p Hr. refine (rtc_ind_r _ _ _ _); [done|]. intros p p' _ Hs [Hk Hp]. destruct Hs as [Hsig|Hsig|ok p' Ha]; cbn.
      - split; [done|]. by destruct (relay_at p).
      - split; [done|]. by destruct (relay_at p).
      - unfold relay_act in Ha. destruct p as [k s [| | | |ok']], k; injection Ha as <- || discriminate Ha; cbn in *; split; done. }
    intros ok Hat. rewrite Hat in Hi. destruct Hi as [Hk Hp]. auto.
  - intros Hk ok. destruct p as [k s ph]. cbn in Hk. subst k.
    destruct ph as [| | | |ok']; [exists 2%nat|exists 4%nat|exists 3%nat|exists 1%nat|exists 0%nat]; (split; [lia|]); eexists; (split; [reflexivity|]); by eexists.
Qed.

(** ** What [list-streams] shows of a viewer *)

Section Shown.
Context {Disk Ip : Type} `{Countable Ip, !HashOrder rstring}.

Definition codec_text (c : option rstring) : rstring := default [] c.

(** The rows a viewer's streams should have: its own stream has no resolution. *)
Definition own_row (a : AppState Disk Ip) (id : StreamId) : rstring :=
  table_row (id_text id) (str "Local Stream - " ++ id_text id)
    (codec_text (fst <$> video_codec_info (media (WebApi.node a))) ++ str "/" ++ codec_text (fst <$> audio_codec_info (media (WebApi.node a)))) [].
Definition found_row (ann : StreamAnnouncement) : rstring :=
  table_row (show_stream_id (ann_stream_id ann)) (title ann) (codec_text (ann_video_codec ann) ++ str "/" ++ codec_text (ann_audio_codec ann))
    (resolution_text (default 0 (ann_video_width ann)) (default 0 (ann_video_height ann))).

Definition sized (ann : StreamAnnouncement) : Prop :=
  (forall w, ann_video_width ann = Some w -> is_u32 w) /\ (forall h, ann_video_height ann = Some h -> is_u32 h).

Lemma as_u64_jopt x : (forall n, x = Some n -> is_u32 n) -> default 0 (as_u64 (jopt JNumber x)) = default 0 x.
Proof.
  intros Hx. destruct x as [n|]; [|done]. specialize (Hx n eq_refl). unfold is_u32, u32_max in Hx. cbn.
  destruct (Z.leb_spec 0 n); [|lia]. destruct (Z.leb_spec n u64_max); [done|]. unfold u64_max in *. lia.
Qed.

Lemma own_listed a id : listed_row (local_entry a id) = own_row a id.
Proof. unfold listed_row, own_row, local_entry, codec_json. by destruct (video_codec_info _), (audio_codec_info _). Qed.

Lemma found_listed ann : sized ann -> listed_row (remote_entry ann) = found_row ann.
Proof.
  intros [Hw Hh]. unfold found_row. rewrite <- (as_u64_jopt _ Hw), <- (as_u64_jopt _ Hh).
  unfold listed_row, remote_entry. by destruct (ann_video_codec ann), (ann_audio_codec ann).
Qed.

(** Asked of a viewer, the command shows a row for each stream that the viewer
    lists, with what the viewer knows of it, in the same order: the stream it plays
    first, then those it discovered that have not expired and are not its own; and
    says that there is none when there is none. *)
Theorem streams_are_shown (a : AppState Disk Ip) now r v node :
  (forall d id ann, directory a = Some d -> streams d !! id = Some ann -> sized ann) ->
  list_streams_handler a now = Done r -> body r = JsonBody v ->
  exists own found,
    list_streams_command node (ROk (Some v)) =
      (match map (own_row a) own ++ map found_row found with
       | [] => [Printed (str "No active streams found on " ++ node)]
       | rows => map Printed (table_head ++ rows)
       end, true) /\
    own = (if is_streaming (WebApi.node a) then match stream_id (setup a) with Some id => [id] | None => [] end else []) /\
    (forall ann, ann ∈ found -> exists d id, directory a = Some d /\ streams d !! id = Some ann /\ is_own a ann = false).
Proof.
  intros Hsized Hl Hb. unfold list_streams_handler in Hl.
  destruct (match directory a with Some d => _ | None => _ end) as [l| |] eqn:Hd; [|done..]. cbn [exec_bind] in Hl. injection Hl as <-. injection Hb as <-.
  assert (Hin : forall ann, ann ∈ l -> exists d id, directory a = Some d /\ streams d !! id = Some ann).
  { intros ann Hann. destruct (directory a) as [d|]; [|injection Hd as <-; by apply not_elem_of_nil in Hann].
    apply (filter_fresh_sub _ _ _ _ _ Hd), elem_of_values in Hann as [id Hid]. by exists d, id. }
  set (found := List.filter (fun ann => negb (is_own a ann)) l).
  set (own := if is_streaming (WebApi.node a) then match stream_id (setup a) with Some id => [id] | None => [] end else []).
  exists own, found.
  assert (Hfound : forall ann, ann ∈ found -> exists d id, directory a = Some d /\ streams d !! id = Some ann /\ is_own a ann = false).
  { intros ann [Hann%list_elem_of_In Ho%negb_true_iff]%list_elem_of_In%filter_In. destruct (Hin ann Hann) as (d & id & ? & ?). by exists d, id. }
  split; [|done].
  set (entries := _ ++ map remote_entry found). assert (He : map listed_row entries = map (own_row a) own ++ map found_row found).
  { unfold entries, own. rewrite map_app, map_map. f_equal.
    - destruct (is_streaming _); [|done]. destruct (stream_id (setup a)); [|done]. cbn. by rewrite own_listed.
    - apply map_ext_in. intros ann Hann%list_elem_of_In. destruct (Hfound ann Hann) as (d & id & H1 & H2 & _). apply found_listed. by eapply Hsized. }
  cbn -[table_head]. destruct entries as [|e es]; cbn [map] in He; [by rewrite <- He|]. rewrite <- He. done.
Qed.
End Shown.

(** ** Witnesses *)

Section Demo.
#[local] Existing Instance canonical_order.
#[local] Existing Instance demo_json.
#[local] Existing Instance demo_disk.
#[local] Existing Instance demo_bodies.

(** A viewer that browses, with a token. *)
Definition demo_args : ViewerArgs :=
  {| host := str "127.0.0.1"; port := 8080; web_root := str "web_viewer"; bootstrap_nodes := [str "/ip4/10.0.0.1/tcp/9000"]; enable_cors := false;
     video_file := None; viewed_stream := None; publish := false; use_dht := false; max_connections := 100;
     admin_token := Some (str "secret"); rate_limit := 60 |}.

Definition demo_viewer_app : AppState (gmap rstring rstring) positive :=
  new_app (viewer_config demo_args) (with_discovery (str "drawn")) ∅ (Some (new_running_node ∅ 1%positive 0 Consumer false false (bootstrap_nodes demo_args))).

Lemma demo_made : make_viewer demo_args (∅ : gmap rstring rstring) 1%positive (str "drawn") 0 true =
  Some (demo_viewer_app, Some (new_running_node ∅ 1%positive 0 Consumer false false (bootstrap_nodes demo_args)),
        [OverlayStarted; Dialled (str "/ip4/10.0.0.1/tcp/9000")]).
Proof. reflexivity. Qed.

Abbreviation demo_ask := (handle (fun s => s) no_dir no_files 1000 demo_viewer_app demo_block demo_moment).

Lemma demo_asked : demo_ask = Done (demo_after demo_ask, demo_outcome demo_ask).
Proof. vm_compute. reflexivity. Qed.

Lemma demo_always_saves : always_saves (Disk := gmap rstring rstring).
Proof. split; [done|]. intros l. by eexists. Qed.

Definition demo_moderation : ModerationManager := stored_moderation (∅ : gmap rstring rstring).

Lemma restart_changes_nothing_witness :
  exists s, peer_allowed (fun _ => str "eve") (node_overlay (new_running_node (file s) 2%positive 9 Relay false false [])) 7%positive = false /\
    disk (demo_after demo_ask) = file s.
Proof.
  destruct (restart_changes_nothing (fun s => s) no_dir no_files 1000 demo_args ∅ 1%positive (str "drawn") 0 _ _ demo_viewer_app demo_moderation
    _ demo_always_saves demo_made eq_refl (rtc_refl _ _)) as [_ Hrun].
  destruct (Hrun demo_viewer_app _ demo_block demo_moment _ eq_refl eq_refl eq_refl demo_asked) as (s & Hr & Hm & Hd & Hq & Hset).
  exists s. split; [|exact Hd].
  destruct (restart_changes_nothing (fun s => s) no_dir no_files 1000 demo_args ∅ 1%positive (str "drawn") 0 _ _ demo_viewer_app demo_moderation
    _ demo_always_saves demo_made eq_refl Hr) as [Hstored _].
  assert (Hs : settled s = true) by (apply Hset; [intros (m & params & Hroute); discriminate Hroute|reflexivity]).
  destruct (Hstored Hs Hq) as [_ Hagree]. rewrite (Hagree 2%positive 9 Relay false false [] (fun _ => str "eve") 7%positive).
  assert (He : manager s = match moderation (world (demo_after demo_ask)) with Some m => m | None => demo_moderation end) by (by rewrite Hm).
  rewrite He. vm_compute. reflexivity.
Defined.

Definition no_file : gmap rstring rstring := ∅.

(** Two changes that overlap: one is exported, the other made, exported and
    written, and the first written last. The file misses the second. *)
Theorem overlapping_change_is_lost : exists s : Serving (Disk := gmap rstring rstring),
  rtc serves {| manager := demo_moderation; file := no_file; in_flight := []; settled := true |} s /\ in_flight s = [] /\
  is_peer_allowed (manager s) (str "eve") = false /\ is_peer_allowed (stored_moderation (file s)) (str "eve") = true.
Proof.
  set (s0 := {| manager := demo_moderation; file := no_file; in_flight := []; settled := true |}).
  set (s1 := changed s0 (BlockPeer (str "adam") None) 1). pose (t1 := default [] (to_json (export_list (manager s1) 1))).
  set (s2 := {| manager := manager s1; file := no_file; settled := true; in_flight := [Writing t1 true] |}).
  set (s3 := changed s2 (BlockPeer (str "eve") None) 2). pose (t2 := default [] (to_json (export_list (manager s3) 2))).
  eexists. split; [|split; [|split]].
  - eapply rtc_l; [apply (call_changes s0 (BlockPeer (str "adam") None) 1)|].
    eapply rtc_l; [apply (lists_exported s1 [] [] 1 t1); reflexivity|].
    eapply rtc_l; [apply (call_changes s2 (BlockPeer (str "eve") None) 2)|].
    eapply rtc_l; [apply (lists_exported s3 [Writing t1 true] [] 2 t2); reflexivity|].
    eapply rtc_l; [apply (write_ends _ [Writing t1 false] [] t2 false (fst (write_file no_file MODERATION_FILE t2))); [reflexivity|discriminate]|].
    apply rtc_once. apply (write_ends _ [] [] t1 false (fst (write_file (fst (write_file no_file MODERATION_FILE t2)) MODERATION_FILE t1))); [reflexivity|discriminate].
  - reflexivity.
  - vm_compute. reflexivity.
  - vm_compute. reflexivity.
Qed.

Lemma viewer_parts_agree_witness : is_some (moderation (world demo_viewer_app)) = true /\ cfg_enable_p2p (WebApi.config demo_viewer_app) = true.
Proof.
  destruct (viewer_parts_agree demo_args (∅ : gmap rstring rstring) 1%positive (str "drawn") 0 true demo_viewer_app _ _ demo_made)
    as (Hconfig & _ & _ & _ & Hmod & _).
  split; [exact Hmod|exact Hconfig].
Defined.

(** The same request against a node that publishes. *)
Definition demo_published : ViewerArgs :=
  {| host := str "127.0.0.1"; port := 8080; web_root := str "web_viewer"; bootstrap_nodes := []; enable_cors := false;
     video_file := Some (str "a.mp4"); viewed_stream := None; publish := true; use_dht := false; max_connections := 100;
     admin_token := None; rate_limit := 60 |}.
Definition demo_publisher_app : AppState (gmap rstring rstring) positive :=
  new_app (viewer_config demo_published) (with_p2p (str "drawn")) ∅ (Some (new_running_node ∅ 1%positive 0 Publisher false false [])).
Abbreviation demo_refused := (handle (fun s => s) no_dir no_files 1000 demo_publisher_app demo_block demo_moment).

Lemma published_node_is_unmanaged_witness : untouched demo_publisher_app (demo_after demo_refused).
Proof.
  apply (published_node_is_unmanaged (fun s => s) no_dir no_files 1000 (str "a.mp4") None 8080 None false demo_published (∅ : gmap rstring rstring) 1%positive
    (str "drawn") 0 true demo_publisher_app (Some (new_running_node ∅ 1%positive 0 Publisher false false [])) [OverlayStarted]
    demo_publisher_app demo_block demo_moment _ (demo_outcome demo_refused)); [reflexivity|reflexivity|reflexivity|vm_compute; reflexivity].
Defined.

(** A stream that was discovered, and the row that shows it. *)
Definition demo_found : StreamAnnouncement :=
  {| ann_stream_id := str "s"; title := str "T"; publisher_id := []; ann_video_codec := Some (str "avc1"); ann_audio_codec := None;
     ann_video_width := Some 640; ann_video_height := Some 480; started_at := 0; announced_at := 0; ttl_secs := 60; ann_metadata := ∅ |}.
Definition demo_directory : AppState (gmap rstring rstring) positive :=
  set_playback demo_viewer_app (WebApi.node demo_viewer_app) (Some {| max_cached_streams := 1000; streams := {[ str "s" := demo_found ]}; own_streams := [] |}).

Definition demo_listing : list (rstring * jvalue) :=
  [field "streams" (JArray [remote_entry demo_found]); field "count" (JNumber 1); field "p2p_enabled" (JBool true)].

Lemma streams_are_shown_witness : exists found,
  list_streams_command (str "n") (ROk (Some (JObject demo_listing))) =
    (match map found_row found with
     | [] => [Printed (str "No active streams found on " ++ str "n")]
     | rows => map Printed (table_head ++ rows)
     end, true) /\
  found <> [] /\ forall ann, ann ∈ found -> ann = demo_found.
Proof.
  destruct (streams_are_shown demo_directory 5 (json_reply demo_listing) (JObject demo_listing) (str "n")) as (own & found & Hc & Hown & Hfound); [|vm_compute; reflexivity|reflexivity|].
  - intros d id ann [= <-] Hann. cbn in Hann. apply lookup_singleton_Some in Hann as [_ <-]. split; intros n [= <-]; unfold is_u32, u32_max; lia.
  - assert (Ho : own = []) by (rewrite Hown; reflexivity). subst own. rewrite Ho in Hc. exists found. split; [exact Hc|]. split.
    + intros ->. vm_compute in Hc. discriminate Hc.
    + intros ann Hann. destruct (Hfound ann Hann) as (d & id & [= <-] & Hid & _). cbn in Hid. by apply lookup_singleton_Some in Hid as [_ <-].
Defined.
End Demo.
