(* ===== verification/StreamingDemo.v ===== *)
(** * The streaming demo

    Models [node/src/streaming_demo.rs]: the pictures and sounds it makes, and the
    stream it publishes: the metadata, then the segments of two tasks, which are
    numbered placeholders and not the pictures. Whether the overlay takes a segment
    is an argument of a step; the pauses between segments are not modelled. *)

From S2P Require Import Prelude Rust Format Float Geo Segment Codec Bridge.

#[local] Open Scope Z_scope.

Record StreamingDemoConfig : Type := {
  demo_title : rstring;
  demo_width : Z;
  demo_height : Z;
  demo_fps : Z;
  demo_sample_rate : Z;
  demo_channels : Z;
  demo_seconds : Z;
}.

Definition default_demo : StreamingDemoConfig :=
  {| demo_title := str "OpenBroadcastNetwork Demo Stream"; demo_width := 640; demo_height := 480; demo_fps := 30; demo_sample_rate := 48000;
     demo_channels := 2; demo_seconds := 60 |}.

(** [StreamMetadata::new_h264_opus]. *)
Definition new_h264_opus (title : rstring) (width height fps rate channels : Z) : StreamMetadata :=
  {| md_title := title; video_width := width; video_height := height; video_fps := fps; audio_sample_rate := rate; audio_channels := channels;
     video_codec := str "openh264"; audio_codec := str "opus" |}.

(** ** Pictures and sounds *)

(** A step of the loops that fill the planes. *)
Definition put_luma (width n y : Z) (frame : bytes) (x : Z) : exec bytes :=
  let! row := mul_u32 y width in
  let! idx := add_u32 row x in
  let! s := add_u32 x y in
  let! s := add_u32 s (as_u32 n) in
  set_index frame idx (as_u8 (s mod 255)).

Definition generate_test_video_frame (width height frame_number : Z) : exec bytes :=
  let! area := mul_u32 width height in
  let y_size := area in
  let uv_size := y_size / 4 in
  let phase := as_u8 (frame_number mod 255) in
  let frame := repeat 0 (Z.to_nat (y_size + uv_size * 2)) in
  let! frame := for_each (fun frame y => for_each (put_luma width frame_number y) (seqZ 0 width) frame) (seqZ 0 height) frame in
  let! frame := for_each (fun frame i => let! v := checked u8_max (128 + phase / 2) in set_index frame (y_size + i) v) (seqZ 0 uv_size) frame in
  for_each (fun frame i => let! v := checked u8_max (128 - phase / 2) in set_index frame (y_size + uv_size + i) v) (seqZ 0 uv_size) frame.

Section Audio.
Context `{!Libm}.

(** [x as i16]. *)
Definition float_to_i16 (x : float) : Z := Z.max (- 2 ^ 15) (Z.min (2 ^ 15 - 1) (float_to_i32 x)).

Definition audio_sample (rate : Z) (phase_offset : float) (i : Z) : Z :=
  let t := (f64_of i / f64_of rate)%f64 in
  float_to_i16 (f64_lit 3 10 * sin (t * f64_of 440 * f64_of 2 * pi + phase_offset) * f64_of 32767)%f64.

Definition generate_test_audio_frame (rate channels duration_ms sequence : Z) : exec bytes :=
  let! ms := mul_u64 rate duration_ms in
  let samples_per_frame := ms / 1000 in
  let! total := mul_u64 samples_per_frame channels in
  let! capacity := mul_u64 total 2 in
  let! _ := alloc capacity in
  let phase_offset := (f64_of sequence * f64_of duration_ms / f64_of 1000 * f64_of 440 * f64_of 2 * pi)%f64 in
  Done (concat (map (fun i => concat (repeat (i16_bytes (audio_sample rate phase_offset i)) (Z.to_nat channels))) (seqZ 0 samples_per_frame))).
End Audio.

(** ** What the pictures are *)

Definition luma (width height n : Z) : bytes := flat_map (fun y => map (fun x => (x + y + as_u32 n) mod 255) (seqZ 0 width)) (seqZ 0 height).
Definition phase_of (n : Z) : Z := n mod 255.
Definition test_picture (width height n : Z) : bytes :=
  let uv := Z.to_nat (width * height / 4) in
  luma width height n ++ repeat (128 + phase_of n / 2) uv ++ repeat (128 - phase_of n / 2) uv.

(** A loop that writes one place after the other. *)
Lemma fill_spec (body : bytes -> Z -> exec bytes) (val : Z -> Z) base post : forall old a pre,
  (forall f i, a <= i < a + zlen old -> body f i = set_index f (base + i) (val i)) -> zlen pre = base + a ->
  for_each body (seqZ a (zlen old)) (pre ++ old ++ post) = Done (pre ++ map val (seqZ a (zlen old)) ++ post).
Proof.
  induction old as [|x old IH]; intros a pre Hbody Hpre; [done|]. rewrite zlen_cons in Hbody |- *. pose proof (zlen_nonneg old).
  rewrite seqZ_cons by lia. cbn [for_each map]. rewrite Hbody by lia. rewrite <- !app_comm_cons. rewrite set_index_mid by lia. cbn [exec_bind].
  replace (Z.pred (1 + zlen old)) with (zlen old) by lia.
  rewrite !(cons_middle (val a)), (app_assoc pre).
  rewrite IH; [by rewrite <- app_assoc| |].
  - intros f i Hi. apply Hbody. lia.
  - rewrite zlen_app, zlen_cons. change (zlen (@nil Z)) with 0. lia.
Qed.

Lemma rows_spec (row_body : bytes -> Z -> exec bytes) (row : Z -> bytes) width : forall k a pre old post,
  (forall y pre old post, a <= y < a + Z.of_nat k -> zlen pre = y * width -> zlen old = width ->
     row_body (pre ++ old ++ post) y = Done (pre ++ row y ++ post) /\ zlen (row y) = width) ->
  0 <= width -> zlen pre = a * width -> zlen old = Z.of_nat k * width ->
  for_each row_body (seqZ a (Z.of_nat k)) (pre ++ old ++ post) = Done (pre ++ flat_map row (seqZ a (Z.of_nat k)) ++ post).
Proof.
  induction k as [|k IH]; intros a pre old post Hrow Hw Hpre Hold.
  - destruct old; [done|]. rewrite zlen_cons in Hold. pose proof (zlen_nonneg old). lia.
  - rewrite seqZ_cons by lia. cbn [for_each flat_map]. replace (Z.pred (Z.of_nat (S k))) with (Z.of_nat k) by lia.
    rewrite <- (ztake_zdrop width old) at 1. rewrite <- app_assoc.
    destruct (Hrow a pre (ztake width old) (zdrop width old ++ post)) as [-> Hlen]; [lia|done|apply zlen_ztake; nia|]. cbn [exec_bind].
    rewrite app_assoc, IH; [by rewrite <- !app_assoc| |done|rewrite zlen_app; lia|rewrite zlen_zdrop by nia; lia].
    intros y ????? . apply Hrow; [lia|done..].
Qed.

Lemma map_const_seqZ (v a n : Z) : map (fun _ => v) (seqZ a n) = repeat v (Z.to_nat n).
Proof.
  unfold seqZ. rewrite map_map. generalize 0%nat. induction (Z.to_nat n) as [|k IH]; intros i; [done|]. cbn. by rewrite IH.
Qed.

Lemma zlen_repeat {A} (x : A) n : 0 <= n -> zlen (repeat x (Z.to_nat n)) = n.
Proof. intros Hn. unfold zlen. rewrite repeat_length. lia. Qed.

Lemma luma_length width height n : 0 <= width -> 0 <= height -> zlen (luma width height n) = width * height.
Proof.
  intros Hw Hh. unfold luma. rewrite <- (Z2Nat.id height) at 2 by done. unfold seqZ at 2. generalize 0%nat. induction (Z.to_nat height) as [|k IH]; intros i; [unfold zlen; cbn; lia|].
  cbn [seq fmap list_fmap flat_map map]. rewrite zlen_app, IH. unfold zlen. rewrite length_map, length_seqZ. nia.
Qed.

(** Of a size that fits, every picture is made. *)
Lemma test_frame_made width height n : 0 <= width -> 0 <= height -> width * height <= u32_max -> width + height + as_u32 n <= u32_max ->
  generate_test_video_frame width height n = Done (test_picture width height n).
Proof.
  intros Hw Hh Harea Hsum. unfold generate_test_video_frame, mul_u32. rewrite checked_done by nia. cbn [exec_bind].
  set (area := width * height). set (uv := area / 4). assert (Ha : 0 <= area) by (unfold area; nia). assert (Hu : 0 <= uv) by (apply Z.div_pos; lia).
  assert (Hphase : as_u8 (n mod 255) = phase_of n).
  { unfold as_u8, phase_of. pose proof (Z.mod_pos_bound n 255). apply Z.mod_small. lia. }
  rewrite Hphase. assert (Hp : 0 <= phase_of n / 2 < 128).
  { unfold phase_of. pose proof (Z.mod_pos_bound n 255). split; [apply Z.div_pos; lia|apply Z.div_lt_upper_bound; lia]. }
  replace (repeat 0 (Z.to_nat (area + uv * 2))) with (repeat 0 (Z.to_nat area) ++ repeat 0 (Z.to_nat uv) ++ repeat 0 (Z.to_nat uv))
    by (rewrite <- !repeat_app; f_equal; lia).
  assert (H32 : 0 <= as_u32 n) by (apply Z.mod_pos_bound; lia).
  pose proof (rows_spec (fun frame y => for_each (put_luma width n y) (seqZ 0 width) frame)
    (fun y => map (fun x => (x + y + as_u32 n) mod 255) (seqZ 0 width)) width (Z.to_nat height) 0 [] (repeat 0 (Z.to_nat area))
    (repeat 0 (Z.to_nat uv) ++ repeat 0 (Z.to_nat uv))) as Hrows.
  rewrite Z2Nat.id in Hrows by done. cbn [app] in Hrows. rewrite Hrows; clear Hrows; [| |done|done|rewrite zlen_repeat by done; unfold area; lia].
  2: { intros y pre old post Hy Hpre Hold. pose proof (zlen_nonneg old) as _. split.
    - pose proof (fill_spec (put_luma width n y) (fun x => (x + y + as_u32 n) mod 255) (y * width) post old 0 pre) as Hfill.
      rewrite Hold in Hfill. apply Hfill; [|lia]. intros f x Hx. unfold put_luma, mul_u32, add_u32.
      assert (y * width <= height * width - width) by nia. rewrite checked_done by nia. cbn [exec_bind]. rewrite checked_done by nia. cbn [exec_bind].
      rewrite checked_done by lia. cbn [exec_bind]. rewrite checked_done by lia. cbn [exec_bind]. f_equal.
      unfold as_u8. pose proof (Z.mod_pos_bound (x + y + as_u32 n) 255). apply Z.mod_small. lia.
    - unfold zlen. rewrite length_map, length_seqZ. lia. }
  cbn [exec_bind]. fold (luma width height n).
  pose proof (luma_length width height n Hw Hh) as Hluma. fold area in Hluma.
  pose proof (fill_spec (fun frame i => let! v := checked u8_max (128 + phase_of n / 2) in set_index frame (area + i) v) (fun _ => 128 + phase_of n / 2)
    area (repeat 0 (Z.to_nat uv)) (repeat 0 (Z.to_nat uv)) 0 (luma width height n)) as Hfill.
  rewrite zlen_repeat in Hfill by done. rewrite Hfill; clear Hfill; [|intros f i _; rewrite checked_done by (unfold u8_max; lia); done|lia].
  cbn [exec_bind]. rewrite map_const_seqZ.
  pose proof (fill_spec (fun frame i => let! v := checked u8_max (128 - phase_of n / 2) in set_index frame (area + uv + i) v) (fun _ => 128 - phase_of n / 2)
    (area + uv) [] (repeat 0 (Z.to_nat uv)) 0 (luma width height n ++ repeat (128 + phase_of n / 2) (Z.to_nat uv))) as Hfill.
  rewrite zlen_repeat, !app_nil_r in Hfill by done. rewrite app_assoc, Hfill; clear Hfill;
    [|intros f i _; rewrite checked_done by (unfold u8_max; lia); done|rewrite zlen_app, zlen_repeat by done; lia].
  rewrite map_const_seqZ. unfold test_picture. fold area uv. by rewrite app_assoc.
Qed.

Lemma test_picture_bytes width height n : Forall is_byte (test_picture width height n).
Proof.
  assert (Hp : 0 <= phase_of n / 2 < 128).
  { unfold phase_of. pose proof (Z.mod_pos_bound n 255). split; [apply Z.div_pos; lia|apply Z.div_lt_upper_bound; lia]. }
  assert (Hrep : forall v k, is_byte v -> Forall is_byte (repeat v k)) by (intros v k Hv; apply list.Forall_forall; intros x Hx%list_elem_of_In%repeat_spec; by subst).
  unfold test_picture. rewrite !Forall_app. split_and!; [|apply Hrep; unfold is_byte; lia..].
  apply list.Forall_forall. intros x Hx%list_elem_of_In%in_flat_map. destruct Hx as (y & _ & Hx). apply in_map_iff in Hx as (c & <- & _).
  unfold is_byte. pose proof (Z.mod_pos_bound (c + y + as_u32 n) 255). lia.
Qed.

(** The demo's pictures are what the encoder of their size wants: of even width
    and height each has the right length and is converted, where the size fits the
    width of its numbers. (The demo does not encode them.) *)
Theorem demo_pictures_convert {Encoder Decoder : Type} width height n : 0 <= width -> 0 <= height -> Z.even width = true -> Z.even height = true ->
  width * height * 3 <= u32_max -> width + height + 1800 <= u32_max -> 0 <= n < 1800 ->
  exists frame rgb, generate_test_video_frame width height n = Done frame /\ zlen frame = width * height * 3 / 2 /\
    h264_picture (with_dimensions (Encoder := Encoder) (Decoder := Decoder) width height) frame = Done (ROk rgb).
Proof.
  intros Hw Hh Hew Heh Hs Hsum Hn. assert (Hn32 : as_u32 n = n) by (apply Z.mod_small; lia).
  assert (Hlen : zlen (test_picture width height n) = width * height * 3 / 2).
  { apply Z.even_spec in Hew as [a ->], Heh as [b ->]. unfold test_picture. rewrite !zlen_app, luma_length by done. assert (0 <= a * b) by nia.
    replace (2 * a * (2 * b)) with (a * b * 4) by lia. rewrite Z.div_mul by lia. rewrite !zlen_repeat by lia.
    replace (a * b * 4 * 3) with (a * b * 6 * 2) by lia. rewrite Z.div_mul by lia. lia. }
  exists (test_picture width height n). eexists. split; [|split; [exact Hlen|]].
  - apply test_frame_made; [done|done|nia|lia].
  - apply h264_even; [done|done|done|apply test_picture_bytes|done|]. cbn. by rewrite Hew, Heh.
Qed.

(** ** The stream *)

Definition VIDEO_FRAMES : Z := 30 * 60.
Definition AUDIO_FRAMES : Z := 50 * 60.
Definition AUDIO_MS : Z := 20.

(** A task that generates: the number of the next segment; [Made] after the last
    one, [Refused] when the overlay or the serialization failed. *)
Inductive generator : Type := Generating (count : Z) | Made | Refused | Panicked.

Section Stream.
Context `{!Blake3, !Bincode WireSegment} `{!Libm} (metadata_json : StreamMetadata -> option bytes).
Context (config : StreamingDemoConfig) (id : StreamId).

(** The demo after its start; [demo_sent] is a note for the theorems. *)
Record Demo : Type := { frame_ms : Z; videos : generator; audios : generator; demo_sent : list bytes }.

(** [send_segment_to_network]. *)
Definition send_segment_to_network (sent : list bytes) (segment : StreamSegment) (accepted : bool) : option (list bytes) :=
  match to_wire_bytes segment with Some wire_data => if accepted then Some (sent ++ [wire_data]) else None | None => None end.

Definition demo_metadata : StreamMetadata :=
  new_h264_opus (demo_title config) (demo_width config) (demo_height config) (demo_fps config) (demo_sample_rate config) (demo_channels config).

(** [start] up to its sleep; an interval of zero panics. [None] is an error. *)
Definition demo_start (publish_ok subscribe_ok metadata_ok : bool) (now_us : Z) : exec (option Demo) :=
  if publish_ok && subscribe_ok then
    match metadata_json demo_metadata with
    | None => Done None
    | Some json =>
        let! r := next_metadata (new_builder id) json now_us in
        match send_segment_to_network [] (snd r) metadata_ok with
        | None => Done None
        | Some sent =>
            let! frame_duration_ms := div_u64 1000 (demo_fps config) in
            if frame_duration_ms =? 0 then Panic
            else Done (Some {| frame_ms := frame_duration_ms; videos := Generating 0; audios := Generating 0; demo_sent := sent |})
        end
    end
  else Done None.

Definition video_frame (frame_ms n : Z) : StreamSegment :=
  video id n (n * (frame_ms * 1000)) (frame_ms * 1000) (str "h264_frame_" ++ decimal n) (n mod 30 =? 0).
Definition audio_frame (n : Z) : StreamSegment :=
  audio id n (n * (AUDIO_MS * 1000)) (AUDIO_MS * 1000) (str "opus_frame_" ++ decimal n).

(** A round of a task: what it sent, and where it is then. The pictures and the
    sounds are made and not used. *)
Definition generated (sent : list bytes) (segment : exec StreamSegment) (n last : Z) (accepted : bool) : list bytes * generator :=
  match segment with
  | Done segment =>
      match send_segment_to_network sent segment accepted with
      | Some sent => (sent, if last <=? n + 1 then Made else Generating (n + 1))
      | None => (sent, Refused)
      end
  | _ => (sent, Panicked)
  end.

Definition video_round (d : Demo) (n : Z) (accepted : bool) : Demo :=
  let segment :=
    let! _ := generate_test_video_frame (demo_width config) (demo_height config) n in
    let! duration := mul_u64 (frame_ms d) 1000 in
    let! pts := mul_u64 n duration in
    Done (video id n pts duration (str "h264_frame_" ++ decimal n) (n mod 30 =? 0)) in
  let '(sent, g) := generated (demo_sent d) segment n VIDEO_FRAMES accepted in
  {| frame_ms := frame_ms d; videos := g; audios := audios d; demo_sent := sent |}.

Definition audio_round (d : Demo) (n : Z) (accepted : bool) : Demo :=
  let segment :=
    let! _ := generate_test_audio_frame (demo_sample_rate config) (demo_channels config) AUDIO_MS n in
    let! pts := mul_u64 n (AUDIO_MS * 1000) in
    Done (audio id n pts (AUDIO_MS * 1000) (str "opus_frame_" ++ decimal n)) in
  let '(sent, g) := generated (demo_sent d) segment n AUDIO_FRAMES accepted in
  {| frame_ms := frame_ms d; videos := videos d; audios := g; demo_sent := sent |}.

Inductive demo_step (d : Demo) : Demo -> Prop :=
| demo_video n accepted : videos d = Generating n -> demo_step d (video_round d n accepted)
| demo_audio n accepted : audios d = Generating n -> demo_step d (audio_round d n accepted).

(** How many segments a task has sent. *)
Definition made_by (g : generator) (last n : Z) : Prop :=
  0 <= n <= last /\ match g with Generating k => k = n /\ n < last | Made => n = last | Refused | Panicked => n < last end.

Definition wired (segments : list StreamSegment) (sent : list bytes) : Prop := Forall2 (fun s b => to_wire_bytes s = Some b) segments sent.

Definition demo_ok (meta : StreamSegment) (d : Demo) : Prop :=
  exists v a merged,
    made_by (videos d) VIDEO_FRAMES v /\ made_by (audios d) AUDIO_FRAMES a /\
    interleaving (map (video_frame (frame_ms d)) (seqZ 0 v)) (map audio_frame (seqZ 0 a)) merged /\ wired (meta :: merged) (demo_sent d).

Lemma seqZ_snoc (f : Z -> StreamSegment) n : 0 <= n -> map f (seqZ 0 (n + 1)) = map f (seqZ 0 n) ++ [f n].
Proof. intros Hn. rewrite seqZ_app by lia. rewrite map_app. cbn. by rewrite Z.add_0_l. Qed.

(** A round sends the segment it makes, or ends its task. *)
Lemma generated_spec sent (segment : exec StreamSegment) s n last accepted : 0 <= n < last -> (forall x, segment = Done x -> x = s) ->
  let '(sent', g) := generated sent segment n last accepted in
  (sent' = sent /\ made_by g last n) \/ (made_by g last (n + 1) /\ exists b, to_wire_bytes s = Some b /\ sent' = sent ++ [b]).
Proof.
  intros Hn Hs. destruct segment as [x| |]; cbn [generated]; [|left; repeat split; lia..]. rewrite (Hs x eq_refl). unfold send_segment_to_network.
  destruct (to_wire_bytes s) as [b|]; [destruct accepted|]; [|left; repeat split; lia..].
  right. split; [|by exists b]. unfold made_by. destruct (Z.leb_spec last (n + 1)); split; lia.
Qed.

Lemma bind_inv {A B} (x : exec A) (k : A -> exec B) r : (let! y := x in k y) = Done r -> exists y, x = Done y /\ k y = Done r.
Proof. destruct x as [y| |]; [|done..]. by exists y. Qed.

Lemma made_generating n last k : made_by (Generating n) last k -> k = n /\ 0 <= n < last.
Proof. unfold made_by. lia. Qed.

Lemma demo_step_ok meta d d' : demo_ok meta d -> demo_step d d' -> demo_ok meta d'.
Proof.
  intros (v & a & merged & Hv & Ha & Hi & Hw) [n accepted Hg|n accepted Hg]; rewrite Hg in *.
  - apply made_generating in Hv as [-> Hn]. unfold video_round. match goal with |- context [generated _ ?seg _ _ _] => set (segment := seg) end.
    pose proof (generated_spec (demo_sent d) segment (video_frame (frame_ms d) n) n VIDEO_FRAMES accepted Hn) as Hgen.
    destruct (generated _ _ _ _ _) as [sent g]. cbn in Hgen.
    destruct Hgen as [[-> Hmade]|(Hmade & b & Hb & ->)].
    { intros x (frame & _ & (duration & Hd & (pts & Hp & [= <-])%bind_inv)%bind_inv)%bind_inv.
      apply checked_inv in Hd as [-> _]. by apply checked_inv in Hp as [-> _]. }
    + by exists n, a, merged.
    + exists (n + 1), a, (merged ++ [video_frame (frame_ms d) n]). cbn [frame_ms videos audios demo_sent].
      split; [done|]. split; [done|]. rewrite seqZ_snoc by lia. split; [by apply interleaving_left|].
      rewrite app_comm_cons. apply Forall2_app; [done|]. by repeat constructor.
  - apply made_generating in Ha as [-> Hn]. unfold audio_round. match goal with |- context [generated _ ?seg _ _ _] => set (segment := seg) end.
    pose proof (generated_spec (demo_sent d) segment (audio_frame n) n AUDIO_FRAMES accepted Hn) as Hgen.
    destruct (generated _ _ _ _ _) as [sent g]. cbn in Hgen.
    destruct Hgen as [[-> Hmade]|(Hmade & b & Hb & ->)].
    { intros x (frame & _ & (pts & Hp & [= <-])%bind_inv)%bind_inv. by apply checked_inv in Hp as [-> _]. }
    + by exists v, n, merged.
    + exists v, (n + 1), (merged ++ [audio_frame n]). cbn [frame_ms videos audios demo_sent].
      split; [done|]. split; [done|]. rewrite (seqZ_snoc audio_frame) by lia. split; [by apply interleaving_right|].
      rewrite app_comm_cons. apply Forall2_app; [done|]. by repeat constructor.
Qed.

(** C34: However its two tasks overlap and whatever the overlay refuses, the demo
    has sent its metadata and after it, merged, the first segments of each kind
    in order, numbered without a gap and timed end to end; a task that comes to
    its end has sent all of its 1800 or 3000. *)
Theorem demo_sends_in_order publish_ok subscribe_ok metadata_ok now d0 d :
  demo_start publish_ok subscribe_ok metadata_ok now = Done (Some d0) -> rtc demo_step d0 d ->
  exists json v a merged, metadata_json demo_metadata = Some json /\
    interleaving (map (video_frame (frame_ms d)) (seqZ 0 v)) (map audio_frame (seqZ 0 a)) merged /\
    wired (metadata id 0 json now :: merged) (demo_sent d) /\ 0 <= v <= VIDEO_FRAMES /\ 0 <= a <= AUDIO_FRAMES /\
    (videos d = Made -> v = VIDEO_FRAMES) /\ (audios d = Made -> a = AUDIO_FRAMES).
Proof.
  intros Hstart Hr. unfold demo_start in Hstart. destruct (publish_ok && subscribe_ok); [|done].
  destruct (metadata_json demo_metadata) as [json|]; [|done]. apply bind_inv in Hstart as (r & Hmeta & Hstart).
  assert (Hok : demo_ok (metadata id 0 json now) d).
  { revert d Hr. refine (rtc_ind_r _ _ _ _); [|intros y z _ Hs Hok; by eapply demo_step_ok].
    cbn in Hmeta. injection Hmeta as <-. cbn [snd] in Hstart. unfold send_segment_to_network in Hstart.
    destruct (to_wire_bytes _) as [b|] eqn:Hb; [|done]. destruct metadata_ok; [|done].
    apply bind_inv in Hstart as (ms & Hms & Hstart). unfold div_u64 in Hms. destruct (Z.eqb_spec (demo_fps config) 0); [done|]. injection Hms as Hms.
    destruct (Z.eqb_spec ms 0); [done|]. injection Hstart as <-. exists 0, 0, []. split; [by repeat split|]. split; [by repeat split|]. split; [constructor|]. by repeat constructor. }
  destruct Hok as (v & a & merged & [Hv Hv'] & [Ha Ha'] & Hi & Hw). exists json, v, a, merged. split_and!; try done; try lia.
  - intros He. by rewrite He in Hv'.
  - intros He. by rewrite He in Ha'.
Qed.
End Stream.

(** A rate of zero, or above a thousand, ends the demo with a panic after it has
    sent its metadata. *)
Lemma fast_demo_panics `{!Blake3, !Bincode WireSegment} metadata_json config id json now b :
  metadata_json (demo_metadata config) = Some json -> to_wire_bytes (metadata id 0 json now) = Some b ->
  demo_fps config = 0 \/ 1000 < demo_fps config -> demo_start metadata_json config id true true true now = Panic.
Proof.
  intros Hj Hb Hfps. unfold demo_start. cbn [andb]. rewrite Hj.
  destruct (next_metadata (new_builder id) json now) as [[bl m]| |] eqn:Hm; try discriminate Hm. cbn [exec_bind snd]. injection Hm as _ <-.
  unfold send_segment_to_network. rewrite Hb. unfold div_u64.
  destruct (Z.eqb_spec (demo_fps config) 0); [done|]. cbn [exec_bind]. rewrite Z.div_small by lia. done.
Qed.

(** ** Witnesses *)

Section Demo.
#[local] Existing Instance demo_blake3.
#[local] Existing Instance demo_bincode.
#[local] Instance plain_libm : Libm := {| sin x := x; cos x := x; atan2 x _ := x; log10 x := x; powi x _ := x |}.

Definition demo_wanted : StreamingDemoConfig :=
  {| demo_title := str "T"; demo_width := 2; demo_height := 2; demo_fps := 30; demo_sample_rate := 50; demo_channels := 1; demo_seconds := 1 |}.

Example small_picture : generate_test_video_frame 2 2 1 = Done [1; 2; 2; 3; 128; 128] /\
  generate_test_audio_frame 100 2 20 0 = Done [0; 0; 0; 0; 255; 127; 255; 127].
Proof. split; vm_compute; reflexivity. Qed.

Lemma demo_pictures_convert_witness : exists rgb,
  h264_picture (with_dimensions (Encoder := unit) (Decoder := unit) 2 2) [1; 2; 2; 3; 128; 128] = Done (ROk rgb).
Proof.
  destruct (demo_pictures_convert (Encoder := unit) (Decoder := unit) 2 2 1) as (frame & rgb & Hframe & _ & Hrgb);
    [lia|lia|reflexivity|reflexivity|unfold u32_max; lia|unfold u32_max; lia|lia|].
  exists rgb. rewrite (proj1 small_picture) in Hframe. injection Hframe as <-. exact Hrgb.
Defined.

Definition demo_json (_ : StreamMetadata) : option bytes := Some [1].
Definition demo_begun : Demo := match demo_start demo_json demo_wanted (str "s") true true true 0 with Done (Some d) => d | _ => Build_Demo 0 Made Made [] end.
Definition demo_went : Demo :=
  audio_round demo_wanted (str "s") (video_round demo_wanted (str "s") demo_begun 0 true) 0 false.

Lemma demo_sends_in_order_witness : exists sent, demo_sent demo_went = sent /\ exists v a merged,
  interleaving (map (video_frame (str "s") (frame_ms demo_went)) (seqZ 0 v)) (map (audio_frame (str "s")) (seqZ 0 a)) merged /\
  wired (metadata (str "s") 0 [1] 0 :: merged) sent /\ zlen sent = 2.
Proof.
  eexists. split; [reflexivity|].
  destruct (demo_sends_in_order demo_json demo_wanted (str "s") true true true 0 demo_begun demo_went) as (json & v & a & merged & [= <-] & Hi & Hw & _);
    [vm_compute; reflexivity| |exists v, a, merged; split; [exact Hi|split; [exact Hw|vm_compute; reflexivity]]].
  eapply rtc_l; [apply (demo_video _ _ _ 0 true); reflexivity|]. apply rtc_once.
  apply (demo_audio _ _ _ 0 false). reflexivity.
Defined.
End Demo.
