(* ===== verification/BrowserOverlay.v ===== *)
(** * The overlay of a browser

    Models [core/src/overlay/wasm/]: the transport over one WebSocket
    ([ws_transport.rs]) and the overlay made of it ([overlay_impl.rs]). What the
    socket reports and whether it takes a frame are arguments. A browser runs one task at a time: a step is
    what runs between two waits. The text of a connection error is the browser's
    and is left out. Messages to and from the relay are JSON, by the interface of
    [Moderation]; the handler at the other end is in [Playback]. *)

From S2P Require Import Prelude Rust Format Hash Segment Moderation Overlay.

#[local] Open Scope Z_scope.

(** ** The transport *)

Record StreamInfo : Type := { info_stream_id : rstring; info_publisher : option rstring }.

Inductive RelayMessage : Type :=
| Subscribe (stream_id : rstring)
| Unsubscribe (stream_id : rstring)
| Publish (stream_id : rstring)
| ListStreams
| StreamListing (streams : list StreamInfo)
| RelayError (message : rstring).

Inductive WsEvent : Type :=
| Open
| Text (json : rstring)
| Binary (data : bytes)
| SocketClosed (reason : rstring)
| SocketError (err : rstring).

Inductive Frame : Type := TextOut (json : rstring) | BinaryOut (data : bytes).

(** Where a call of [start] is: it waits for the socket to open, with the events
    that came before; or it failed; or the loop that it spawned reads, or ended. *)
Inductive link_phase : Type := Opening (buffered : list WsEvent) | OpenFailed | Reading | ReadEnded.

(** A socket with the tasks that serve it. The callbacks fill [arrived]; when
    something came before [Open], [wait_for_open] makes a second channel,
    [requeued], which a task fills from the first. The callbacks live as long as
    the transport. [came] and [took] are notes for the theorems: what the socket
    reported, and what the loop read. *)
Record Link : Type := {
  arrived : list WsEvent;
  requeued : option (list WsEvent);
  at_phase : link_phase;
  alive : bool;
  came : list WsEvent;
  took : list WsEvent;
}.

(** [WsTransport::connect]. *)
Definition new_link : Link := {| arrived := []; requeued := None; at_phase := Opening []; alive := true; came := []; took := [] |}.

(** A callback of the socket. *)
Definition arrive (l : Link) (e : WsEvent) : Link :=
  {| arrived := arrived l ++ [e]; requeued := requeued l; at_phase := at_phase l; alive := alive l; came := came l ++ [e]; took := took l |}.

Definition dropped (l : Link) : Link :=
  {| arrived := arrived l; requeued := requeued l; at_phase := at_phase l; alive := false; came := came l; took := took l |}.

Definition read_ends (l : Link) : Link :=
  {| arrived := arrived l; requeued := requeued l; at_phase := ReadEnded; alive := alive l; came := came l; took := took l |}.

(** [wait_for_open]: an event. When it fails the transport is dropped. *)
Definition wait_for_open (l : Link) : option Link :=
  match at_phase l, arrived l with
  | Opening buffered, e :: rest =>
      let now ph requeued alive :=
        {| arrived := rest; requeued := requeued; at_phase := ph; alive := alive; came := came l; took := took l |} in
      Some match e with
           | Open => now Reading match buffered with [] => None | _ => Some buffered end (alive l)
           | SocketError _ | SocketClosed _ => now OpenFailed None false
           | Text _ | Binary _ => now (Opening (buffered ++ [e])) None (alive l)
           end
  | _, _ => None
  end.

(** The task that forwards to the second channel. *)
Definition forward (l : Link) : option Link :=
  match at_phase l, requeued l, arrived l with
  | Reading, Some q, e :: rest =>
      Some {| arrived := rest; requeued := Some (q ++ [e]); at_phase := Reading; alive := alive l; came := came l; took := took l |}
  | _, _, _ => None
  end.

(** The receiver that [take_event_receiver] hands out: its next event. *)
Definition take_event (l : Link) : option (WsEvent * Link) :=
  match requeued l, arrived l with
  | Some (e :: q), _ =>
      Some (e, {| arrived := arrived l; requeued := Some q; at_phase := at_phase l; alive := alive l; came := came l; took := took l ++ [e] |})
  | None, e :: q =>
      Some (e, {| arrived := q; requeued := None; at_phase := at_phase l; alive := alive l; came := came l; took := took l ++ [e] |})
  | _, _ => None
  end.

(** Nobody can send into the channel it reads. *)
Definition senders_gone (l : Link) : bool :=
  negb (alive l) && match requeued l with Some _ => match arrived l with [] => true | _ => false end | None => true end.

(** What the loop has not read yet, in the order in which it will. *)
Definition unread (l : Link) : list WsEvent :=
  match at_phase l with Opening buffered => buffered ++ arrived l | _ => default [] (requeued l) ++ arrived l end.

(** ** The overlay *)

Section Browser.
Context {PeerId : Type} `{!Json RelayMessage} (local : PeerId).

Inductive OverlayEvent : Type :=
| StreamData (id : StreamId) (source : PeerId) (data : bytes)
| StreamList (streams : list (rstring * option rstring)).

Inductive OverlayError : Type := ConnectionError | NotRunning | General (text : rstring).

(** [handed], [received] and [frames] are notes: what the loops put into the
    channel of events and by which socket, what was taken out of it, and what
    was written to which socket. *)
Record WasmOverlay : Type := {
  links : list Link;
  transport : option nat;
  running : bool;
  subscribed_streams : gset rstring;
  published_streams : gset rstring;
  event_tx : bool;
  event_rx : list OverlayEvent;
  handed : list (nat * OverlayEvent);
  received : list OverlayEvent;
  frames : list (nat * Frame);
}.

(** [WasmOverlay::new]. *)
Definition new_overlay : WasmOverlay :=
  {| links := []; transport := None; running := false; subscribed_streams := ∅; published_streams := ∅; event_tx := true; event_rx := [];
     handed := []; received := []; frames := [] |}.

Definition with_links (o : WasmOverlay) (ls : list Link) : WasmOverlay :=
  {| links := ls; transport := transport o; running := running o; subscribed_streams := subscribed_streams o;
     published_streams := published_streams o; event_tx := event_tx o; event_rx := event_rx o; handed := handed o; received := received o;
     frames := frames o |}.
Definition with_transport (o : WasmOverlay) (t : option nat) (r : bool) : WasmOverlay :=
  {| links := links o; transport := t; running := r; subscribed_streams := subscribed_streams o;
     published_streams := published_streams o; event_tx := event_tx o; event_rx := event_rx o; handed := handed o; received := received o;
     frames := frames o |}.
Definition with_streams (o : WasmOverlay) (subscribed published : gset rstring) : WasmOverlay :=
  {| links := links o; transport := transport o; running := running o; subscribed_streams := subscribed; published_streams := published;
     event_tx := event_tx o; event_rx := event_rx o; handed := handed o; received := received o; frames := frames o |}.
Definition with_frame (o : WasmOverlay) (k : nat) (f : Frame) : WasmOverlay :=
  {| links := links o; transport := transport o; running := running o; subscribed_streams := subscribed_streams o;
     published_streams := published_streams o; event_tx := event_tx o; event_rx := event_rx o; handed := handed o; received := received o;
     frames := frames o ++ [(k, f)] |}.

Definition set_link (o : WasmOverlay) (k : nat) (l : Link) : WasmOverlay := with_links o (<[k := l]> (links o)).

(** The transport is dropped: its socket is closed, its callbacks are gone. *)
Definition drop_transport (o : WasmOverlay) : WasmOverlay :=
  match transport o with
  | Some k => with_transport (with_links o (alter dropped k (links o))) None false
  | None => with_transport o None false
  end.

(** [event_tx.unbounded_send], if it is still there. *)
Definition hand (o : WasmOverlay) (k : nat) (e : OverlayEvent) : WasmOverlay :=
  if event_tx o then
    {| links := links o; transport := transport o; running := running o; subscribed_streams := subscribed_streams o;
       published_streams := published_streams o; event_tx := true; event_rx := event_rx o ++ [e]; handed := handed o ++ [(k, e)];
       received := received o; frames := frames o |}
  else o.

(** [start] up to its wait. *)
Definition start (o : WasmOverlay) : WasmOverlay := with_links o (links o ++ [new_link]).

(** [start] from a wait on: an event that [wait_for_open] was given; when the
    socket is open the transport is stored, over the one that was, and the loop
    is spawned. *)
Definition start_goes (o : WasmOverlay) (k : nat) : option WasmOverlay :=
  match links o !! k ≫= wait_for_open with
  | Some l =>
      let o := set_link o k l in
      Some match at_phase l with Reading => with_transport (drop_transport o) (Some k) true | _ => o end
  | None => None
  end.

(** What the loop hands on of an event. *)
Definition shown (e : WsEvent) : option OverlayEvent :=
  match e with
  | Binary data => Some (StreamData (str "relay") local data)
  | Text json =>
      match from_json json with
      | Some (StreamListing streams) => Some (StreamList (map (fun s => (info_stream_id s, info_publisher s)) streams))
      | _ => None
      end
  | _ => None
  end.

(** The loop of [spawn_event_loop]: an event, or the end of the channel. *)
Definition read_event (o : WasmOverlay) (k : nat) : option WasmOverlay :=
  match links o !! k with
  | Some l =>
      match at_phase l, take_event l with
      | Reading, Some (SocketClosed _, l) => Some (drop_transport (set_link o k (read_ends l)))
      | Reading, Some (e, l) =>
          let o := set_link o k l in Some match shown e with Some event => hand o k event | None => o end
      | Reading, None => if senders_gone l then Some (set_link o k (read_ends l)) else None
      | _, _ => None
      end
  | None => None
  end.

(** ** The calls *)

(** [transport.send_message] and [send_binary]; the socket may refuse. *)
Definition send_message (o : WasmOverlay) (m : RelayMessage) (accepted : bool) : WasmOverlay * result unit OverlayError :=
  match transport o with
  | Some k =>
      match to_json m, accepted with
      | Some json, true => (with_frame o k (TextOut json), ROk tt)
      | _, _ => (o, RErr ConnectionError)
      end
  | None => (o, RErr NotRunning)
  end.

Definition publish_stream_data (o : WasmOverlay) (data : bytes) (accepted : bool) : WasmOverlay * result unit OverlayError :=
  match transport o with
  | Some k => if accepted then (with_frame o k (BinaryOut data), ROk tt) else (o, RErr ConnectionError)
  | None => (o, RErr NotRunning)
  end.

Definition request_stream_list (o : WasmOverlay) (accepted : bool) : WasmOverlay * result unit OverlayError := send_message o ListStreams accepted.

Definition subscribe_stream (o : WasmOverlay) (stream_id : StreamId) (accepted : bool) : WasmOverlay * result unit OverlayError :=
  let sid := show_stream_id stream_id in
  match send_message o (Subscribe sid) accepted with
  | (o, ROk tt) => (with_streams o ({[sid]} ∪ subscribed_streams o) (published_streams o), ROk tt)
  | (o, RErr e) => (o, RErr e)
  end.

Definition publish_stream (o : WasmOverlay) (stream_id : StreamId) (accepted : bool) : WasmOverlay * result unit OverlayError :=
  let sid := show_stream_id stream_id in
  match send_message o (Publish sid) accepted with
  | (o, ROk tt) => (with_streams o (subscribed_streams o) ({[sid]} ∪ published_streams o), ROk tt)
  | (o, RErr e) => (o, RErr e)
  end.

Definition stop_stream (o : WasmOverlay) (stream_id : StreamId) (accepted : bool) : WasmOverlay * result unit OverlayError :=
  let sid := show_stream_id stream_id in
  match match transport o with Some _ => send_message o (Unsubscribe sid) accepted | None => (o, ROk tt) end with
  | (o, ROk tt) => (with_streams o (subscribed_streams o ∖ {[sid]}) (published_streams o ∖ {[sid]}), ROk tt)
  | (o, RErr e) => (o, RErr e)
  end.

(** [stop]; the sender of events is dropped, and no call makes another. *)
Definition stop (o : WasmOverlay) : WasmOverlay :=
  let o := drop_transport o in
  {| links := links o; transport := None; running := false; subscribed_streams := subscribed_streams o;
     published_streams := published_streams o; event_tx := false; event_rx := event_rx o; handed := handed o; received := received o;
     frames := frames o |}.

(** [next_event]: waits on an empty channel that has a sender. *)
Definition next_event (o : WasmOverlay) : option (WasmOverlay * option OverlayEvent) :=
  match event_rx o with
  | e :: q =>
      Some ({| links := links o; transport := transport o; running := running o; subscribed_streams := subscribed_streams o;
               published_streams := published_streams o; event_tx := event_tx o; event_rx := q; handed := handed o;
               received := received o ++ [e]; frames := frames o |}, Some e)
  | [] => if event_tx o then None else Some (o, None)
  end.

Definition is_running (o : WasmOverlay) : bool := running o.
Definition connect_peer : result unit OverlayError := RErr (General (str "Direct peer connections not supported in WASM mode")).
Definition disconnect_peer : result unit OverlayError := RErr (General (str "Direct peer management not supported in WASM mode")).
Definition relay_stream : result unit OverlayError := RErr (General (str "Relay not supported in WASM mode")).
Definition publish_to_topic : result unit OverlayError := RErr (General (str "Direct topic publishing not supported in WASM mode")).
Definition connected_peers : list PeerId := [].
Definition active_streams `{!HashOrder rstring} (o : WasmOverlay) : list StreamId := set_iter (subscribed_streams o) ++ set_iter (published_streams o).
Definition stats (o : WasmOverlay) : OverlayStats :=
  {| ov_connected := if running o then 1 else 0; ov_discovered := 0;
     ov_active_streams := Z.of_nat (size (subscribed_streams o)) + Z.of_nat (size (published_streams o));
     ov_relay_nodes := 0; ov_incoming := 0; ov_outgoing := 0; ov_average_latency := 0 |}.

(** ** Runs *)

(** What goes on by itself: the socket, the task that forwards and the loop. *)
Inductive background (o : WasmOverlay) : WasmOverlay -> Prop :=
| bg_socket k l e : links o !! k = Some l -> alive l = true -> background o (set_link o k (arrive l e))
| bg_forward k l l' : links o !! k = Some l -> forward l = Some l' -> background o (set_link o k l')
| bg_read k o' : read_event o k = Some o' -> background o o'.

(** The calls that write to the socket. *)
Inductive called (o : WasmOverlay) : WasmOverlay -> Prop :=
| call_list ok : called o (fst (request_stream_list o ok))
| call_subscribe id ok : called o (fst (subscribe_stream o id ok))
| call_publish id ok : called o (fst (publish_stream o id ok))
| call_stop_stream id ok : called o (fst (stop_stream o id ok))
| call_data data ok : called o (fst (publish_stream_data o data ok)).

Inductive step (o : WasmOverlay) : WasmOverlay -> Prop :=
| step_background o' : background o o' -> step o o'
| step_start : step o (start o)
| step_start_goes k o' : start_goes o k = Some o' -> step o o'
| step_next o' e : next_event o = Some (o', e) -> step o o'
| step_call o' : called o o' -> step o o'
| step_stop : step o (stop o).

(** ** What is handed on *)

(** Of what the loops handed on, what came by socket [k]. *)
Definition of_link (k : nat) (h : list (nat * OverlayEvent)) : list OverlayEvent := omap (fun x => if decide (fst x = k) then Some (snd x) else None) h.

Definition link_ok (l : Link) : Prop :=
  match at_phase l with
  | Opening buffered => came l = buffered ++ arrived l /\ took l = [] /\ requeued l = None
  | OpenFailed => took l = []
  | Reading | ReadEnded =>
      exists before after, came l = before ++ Open :: after /\ took l ++ unread l = before ++ after
  end.

(** What a socket's loop handed on is what it shows of what it read. *)
Definition linked (h : list (nat * OverlayEvent)) (sending : bool) (k : nat) (l : Link) : Prop :=
  link_ok l /\ (sending = true -> of_link k h = omap shown (took l)).

Definition notes_ok (o : WasmOverlay) : Prop :=
  map snd (handed o) = received o ++ event_rx o /\ Forall (fun x => (fst x < length (links o))%nat) (handed o) /\
  forall k l, links o !! k = Some l -> linked (handed o) (event_tx o) k l.

Lemma of_link_snoc k h j e : of_link k (h ++ [(j, e)]) = of_link k h ++ (if decide (j = k) then [e] else []).
Proof. unfold of_link. rewrite omap_app. cbn. by destruct (decide (j = k)). Qed.

Lemma of_link_none k h : Forall (fun x => (fst x < k)%nat) h -> of_link k h = [].
Proof. induction 1 as [|[j e] h Hj _ IH]; [done|]. cbn in *. rewrite decide_False by lia. exact IH. Qed.

(** Whatever leaves the notes alone keeps what they say. *)
Lemma notes_kept o o' : notes_ok o -> handed o' = handed o -> received o' = received o -> event_rx o' = event_rx o ->
  (event_tx o' = true -> event_tx o = true) -> length (links o') = length (links o) ->
  (forall k l', links o' !! k = Some l' -> exists l, links o !! k = Some l /\ took l' = took l /\ (link_ok l -> link_ok l')) -> notes_ok o'.
Proof.
  intros (Hm & Hf & Hl) Hh Hr Hq Ht Hlen Hk. unfold notes_ok. rewrite Hh, Hr, Hq, Hlen. split; [done|]. split; [done|].
  intros k l' Hkl. destruct (Hk k l' Hkl) as (l & Hkl0 & Htook & Hok). destruct (Hl k l Hkl0) as [Hlk Hgot]. split; [by apply Hok|].
  rewrite Htook. auto.
Qed.

Lemma set_link_notes o k l l' : notes_ok o -> links o !! k = Some l -> took l' = took l -> (link_ok l -> link_ok l') -> notes_ok (set_link o k l').
Proof.
  intros Ho Hk Ht Hok. apply (notes_kept o); [done..|by cbn; rewrite length_insert|]. cbn. intros j lj Hj.
  destruct (decide (j = k)) as [->|Hne].
  - rewrite list_lookup_insert_eq in Hj by (by eapply lookup_lt_Some). injection Hj as <-. by exists l.
  - rewrite list_lookup_insert_ne in Hj by done. by exists lj.
Qed.

Lemma drop_transport_links o : exists f, links (drop_transport o) = f (links o) /\ (forall ls, length (f ls) = length ls) /\
  forall ls k l', f ls !! k = Some l' -> exists l, ls !! k = Some l /\ (l' = l \/ l' = dropped l).
Proof.
  unfold drop_transport. destruct (transport o) as [j|]; [exists (alter dropped j)|exists id]; (split; [done|]); (split; [intros; try apply length_alter; done|]).
  - intros ls k l' Hk. destruct (decide (j = k)) as [->|Hne].
    + rewrite list_lookup_alter_eq in Hk. destruct (ls !! k) as [l|]; [|done]. injection Hk as <-. exists l. auto.
    + rewrite list_lookup_alter_ne in Hk by done. exists l'. auto.
  - intros ls k l' Hk. exists l'. auto.
Qed.

Lemma drop_transport_same o : handed (drop_transport o) = handed o /\ received (drop_transport o) = received o /\ event_rx (drop_transport o) = event_rx o /\
  event_tx (drop_transport o) = event_tx o /\ transport (drop_transport o) = None /\ running (drop_transport o) = false.
Proof. unfold drop_transport. by destruct (transport o). Qed.

Lemma drop_transport_notes o : notes_ok o -> notes_ok (drop_transport o).
Proof.
  intros Ho. destruct (drop_transport_same o) as (Hh & Hr & Hq & Ht & _). destruct (drop_transport_links o) as (f & Hf & Hlen & Hk).
  apply (notes_kept o); [done..|by rewrite Ht|by rewrite Hf|]. rewrite Hf. intros k l' Hkl. apply Hk in Hkl as (l & Hl & [->| ->]); by exists l.
Qed.

Lemma wait_for_open_ok l l' : link_ok l -> wait_for_open l = Some l' -> took l' = took l /\ link_ok l'.
Proof.
  unfold wait_for_open, link_ok, unread. destruct (at_phase l) as [b| | |]; [|done..]. destruct (arrived l) as [|e rest]; [done|]. intros (Hc & Ht & Hr) [= <-].
  destruct e as [|json|data|r|r]; cbn; split; try done.
  - exists b, rest. split; [done|]. rewrite Ht. cbn. by destruct b.
  - rewrite <- app_assoc. done.
  - rewrite <- app_assoc. done.
Qed.

Lemma forward_ok l l' : link_ok l -> forward l = Some l' -> took l' = took l /\ link_ok l'.
Proof.
  unfold forward, link_ok, unread. destruct (at_phase l); [done..| |done]. destruct (requeued l) as [q|]; [|done]. destruct (arrived l) as [|e rest]; [done|].
  intros (b & a & Hc & Hu) [= <-]. cbn in *. split; [done|]. exists b, a. split; [done|]. by rewrite <- (app_assoc q).
Qed.

Lemma take_event_ok l e l' : at_phase l = Reading -> link_ok l -> take_event l = Some (e, l') -> took l' = took l ++ [e] /\ at_phase l' = Reading /\ link_ok l'.
Proof.
  intros Hp. unfold take_event, link_ok, unread. rewrite Hp. destruct (requeued l) as [[|e0 q]|]; [done| |destruct (arrived l) as [|e0 q]; [done|]];
    intros (b & a & Hc & Hu) [= <- <-]; cbn in *; (split; [done|]); (split; [done|]); exists b, a; (split; [done|]); by rewrite <- app_assoc.
Qed.

Lemma arrive_ok l e : link_ok l -> link_ok (arrive l e).
Proof.
  unfold link_ok, unread, arrive. cbn. destruct (at_phase l); [intros (Hc & ? & ?); split; [by rewrite Hc, <- app_assoc|done]|done|..];
    (intros (b & a & Hc & Hu); exists b, (a ++ [e]); split; [by rewrite Hc, <- app_assoc|]; by rewrite !app_assoc, <- Hu, <- !app_assoc).
Qed.

(** A loop that read [e] and hands on what it shows of it. *)
Lemma read_one_notes o k l l' e : notes_ok o -> links o !! k = Some l -> took l' = took l ++ [e] -> link_ok l' ->
  notes_ok (match shown e with Some event => hand (set_link o k l') k event | None => set_link o k l' end).
Proof.
  intros (Hm & Hf & Hl) Hk Ht Hok. assert (Hlt : (k < length (links o))%nat) by by eapply lookup_lt_Some.
  set (more := match shown e with Some event => if event_tx o then [event] else [] | None => [] end).
  assert (Hlink : forall h, (forall j, of_link j h = of_link j (handed o) ++ (if decide (k = j) then more else [])) ->
    forall j lj, <[k := l']> (links o) !! j = Some lj -> linked h (event_tx o) j lj).
  { intros h Hh j lj Hj. unfold linked. rewrite Hh. destruct (decide (k = j)) as [<-|Hne].
    - rewrite list_lookup_insert_eq in Hj by done. injection Hj as <-. split; [done|]. intros Htx. destruct (Hl k l Hk) as [_ Hgot].
      rewrite Ht, omap_app, Hgot by done. f_equal. unfold more. cbn. rewrite Htx. by destruct (shown e).
    - rewrite list_lookup_insert_ne in Hj by done. rewrite app_nil_r. by apply Hl. }
  assert (Hsame : more = [] -> notes_ok (set_link o k l')).
  { intros Hmore. unfold notes_ok. cbn. rewrite length_insert. split; [done|]. split; [done|]. apply Hlink. intros j. rewrite Hmore.
    destruct (decide (k = j)); by rewrite app_nil_r. }
  unfold more in *. destruct (shown e) as [event|]; [|by apply Hsame]. unfold hand. cbn [set_link with_links event_tx]. destruct (event_tx o) eqn:Htx; [|by apply Hsame].
  unfold notes_ok. cbn. rewrite length_insert, map_app, Hm, Forall_app, app_assoc. split; [done|]. split; [by split; [|repeat constructor]|].
  apply Hlink. intros j. apply of_link_snoc.
Qed.

Lemma read_event_notes o k o' : notes_ok o -> read_event o k = Some o' -> notes_ok o'.
Proof.
  intros Ho. unfold read_event. destruct (links o !! k) as [l|] eqn:Hk; [|done]. assert (Hl : link_ok l) by (by apply Ho in Hk as [Hl _]).
  destruct (at_phase l) eqn:Hp; [done..| |done].
  assert (Hends : forall l, at_phase l = Reading -> link_ok l -> link_ok (read_ends l)) by (intros l0 Hp0; unfold link_ok, unread; by rewrite Hp0).
  destruct (take_event l) as [[e l']|] eqn:Htake.
  - apply (take_event_ok l e l' Hp Hl) in Htake as (Ht & Hp' & Hok'). pose proof (read_one_notes o k l l' e Ho Hk Ht Hok') as Hone.
    destruct e as [|json|data|r|r]; try (intros [= <-]; exact Hone).
    intros [= <-]. apply drop_transport_notes. exact (read_one_notes o k l (read_ends l') (SocketClosed r) Ho Hk Ht (Hends _ Hp' Hok')).
  - destruct (senders_gone l); [|done]. intros [= <-]. apply (set_link_notes o k l); [done|done|done|]. by apply Hends.
Qed.

Lemma background_notes o o' : background o o' -> notes_ok o -> notes_ok o'.
Proof.
  intros [k l e Hk Ha|k l l' Hk Hf|k o1 Hr] Ho.
  - apply (set_link_notes o k l); [done|done|done|]. apply arrive_ok.
  - assert (Hl : link_ok l) by (by apply Ho in Hk as [Hl _]). apply (forward_ok l l' Hl) in Hf as [Ht Hok]. by apply (set_link_notes o k l).
  - by eapply read_event_notes.
Qed.

Lemma start_notes o : notes_ok o -> notes_ok (start o).
Proof.
  intros (Hm & Hf & Hl). unfold notes_ok, start. cbn. rewrite length_app. split; [done|]. split; [eapply Forall_impl; [exact Hf|]; intros x Hx; cbn in *; lia|].
  intros k l [Hk|[Hk Hl']]%lookup_app_Some; [by apply Hl|]. apply list_lookup_singleton_Some in Hl' as [Hk0 <-]. split; [by repeat split|].
  intros _. apply of_link_none. eapply Forall_impl; [exact Hf|]. intros x Hx. cbn in *. lia.
Qed.

Lemma start_goes_notes o k o' : start_goes o k = Some o' -> notes_ok o -> notes_ok o'.
Proof.
  unfold start_goes. intros Hs Ho. destruct (links o !! k) as [l|] eqn:Hk; [|done]. cbn in Hs. destruct (wait_for_open l) as [l'|] eqn:Hw; [|done]. injection Hs as <-.
  assert (Hl : link_ok l) by (by apply Ho in Hk as [Hl _]). apply (wait_for_open_ok l l' Hl) in Hw as [Ht Hok].
  assert (Hset : notes_ok (set_link o k l')) by by apply (set_link_notes o k l).
  destruct (at_phase l'); [exact Hset|exact Hset| |exact Hset]. by apply (drop_transport_notes (set_link o k l')).
Qed.

(** A call changes no link and hands on nothing. *)
Lemma send_leaves o m ok : exists fs, fst (send_message o m ok) =
  {| links := links o; transport := transport o; running := running o; subscribed_streams := subscribed_streams o; published_streams := published_streams o;
     event_tx := event_tx o; event_rx := event_rx o; handed := handed o; received := received o; frames := fs |}.
Proof. destruct o as [ls t r sub pub tx rx h re fs]. unfold send_message. cbn. destruct t as [k|]; [destruct (to_json m), ok|]; by eexists. Qed.

Inductive same_links (o o' : WasmOverlay) : Prop :=
| same_links_intro : links o' = links o -> transport o' = transport o -> running o' = running o -> event_tx o' = event_tx o ->
    event_rx o' = event_rx o -> handed o' = handed o -> received o' = received o -> same_links o o'.

Lemma call_same o o' : called o o' -> same_links o o'.
Proof.
  assert (Hsend : forall msg ok, same_links o (fst (send_message o msg ok))) by (intros msg ok; destruct (send_leaves o msg ok) as [fs ->]; done).
  intros [ok|m ok|m ok|m ok|data ok].
  - apply Hsend.
  - unfold subscribe_stream. specialize (Hsend (Subscribe (show_stream_id m)) ok). by destruct (send_message _ _ _) as [o1 [[]|e]], Hsend.
  - unfold publish_stream. specialize (Hsend (Publish (show_stream_id m)) ok). by destruct (send_message _ _ _) as [o1 [[]|e]], Hsend.
  - unfold stop_stream. specialize (Hsend (Unsubscribe (show_stream_id m)) ok). destruct (transport o) eqn:Ht; [|done].
    by destruct (send_message _ _ _) as [o1 [[]|e]], Hsend.
  - unfold publish_stream_data. by destruct (transport o), ok.
Qed.

Lemma step_notes o o' : step o o' -> notes_ok o -> notes_ok o'.
Proof.
  assert (Hcall : forall o', same_links o o' -> notes_ok o -> notes_ok o').
  { intros o1 [Hl _ _ Ht Hq Hh Hr] Ho. apply (notes_kept o); [done..|by rewrite Ht|by rewrite Hl|]. rewrite Hl. intros k l Hk. by exists l. }
  intros [o1 Hb| |k o1 Hs|o1 e Hn|o1 Hc|] Ho.
  - by eapply background_notes.
  - by apply start_notes.
  - by eapply start_goes_notes.
  - unfold next_event in Hn. destruct (event_rx o) as [|e0 q] eqn:Hq; [destruct (event_tx o); [done|by injection Hn as <- _]|].
    injection Hn as <- _. destruct Ho as (Hm & Hf & Hl). unfold notes_ok. cbn. rewrite Hm, Hq, <- app_assoc. done.
  - apply Hcall; [by apply call_same|done].
  - apply (notes_kept (drop_transport o)); [by apply drop_transport_notes|done..|]. intros k l Hk. by exists l.
Qed.

(** C7: The overlay gives the page everything that its sockets brought, and nothing
    else: of each socket, the binary frames and the lists of streams, in the order
    in which they came, those from before it opened too; taken, waiting in the
    channel, or not read yet. *)
Theorem browser_hands_on_everything o k l : rtc step new_overlay o -> event_tx o = true -> links o !! k = Some l -> at_phase l <> OpenFailed ->
  map snd (handed o) = received o ++ event_rx o /\ of_link k (handed o) ++ omap shown (unread l) = omap shown (came l).
Proof.
  intros Hr Htx Hk Hp. assert (Hn : notes_ok o).
  { revert o Hr Htx Hk Hp. enough (forall o, rtc step new_overlay o -> notes_ok o) by auto.
    refine (rtc_ind_r _ _ _ _); [|intros y z _ Hs Hn; by eapply step_notes]. split; [done|]. split; [constructor|]. intros k0 l0 Hk0. done. }
  destruct Hn as (Hm & _ & Hl). split; [exact Hm|]. destruct (Hl k l Hk) as [Hok Hgot]. rewrite Hgot, <- omap_app by done. unfold link_ok in Hok.
  destruct (at_phase l) as [b| | |] eqn:Hph; [|done|..].
  - destruct Hok as (Hc & Ht & _). unfold unread. by rewrite Hph, Ht, Hc.
  - destruct Hok as (b & a & Hc & Hu). by rewrite Hu, Hc, !omap_app.
  - destruct Hok as (b & a & Hc & Hu). by rewrite Hu, Hc, !omap_app.
Qed.

(** ** What running means *)

Definition openings_ok (o : WasmOverlay) : Prop := forall k l b, links o !! k = Some l -> at_phase l = Opening b -> alive l = true.

Definition live_ok (o : WasmOverlay) : Prop :=
  running o = is_some (transport o) /\ openings_ok o /\
  forall k, transport o = Some k -> exists l, links o !! k = Some l /\ alive l = true /\ at_phase l = Reading.

Lemma set_link_openings o k l : openings_ok o -> (k < length (links o))%nat -> (forall b, at_phase l = Opening b -> alive l = true) -> openings_ok (set_link o k l).
Proof.
  intros Ha Hlt Hopen j lj b Hj. cbn in Hj. destruct (decide (j = k)) as [->|Hne].
  - rewrite list_lookup_insert_eq in Hj by done. injection Hj as <-. apply Hopen.
  - rewrite list_lookup_insert_ne in Hj by done. by eapply Ha.
Qed.

Lemma set_link_live o k l l' : live_ok o -> links o !! k = Some l ->
  (forall b, at_phase l' = Opening b -> alive l' = true) -> (alive l = true -> at_phase l = Reading -> alive l' = true /\ at_phase l' = Reading) ->
  live_ok (set_link o k l').
Proof.
  intros (Hr & Ha & Ht) Hk Hopen Hkeep. assert (Hlt : (k < length (links o))%nat) by by eapply lookup_lt_Some.
  split; [done|]. split; [by apply set_link_openings|]. cbn. intros j (lj & Hj & Hal & Hp)%Ht. destruct (decide (j = k)) as [->|Hne].
  - rewrite Hk in Hj. injection Hj as <-. exists l'. rewrite list_lookup_insert_eq by done. split; [done|]. by apply Hkeep.
  - exists lj. by rewrite list_lookup_insert_ne by done.
Qed.

Lemma drop_transport_live o : openings_ok o -> (forall k l b, transport o = Some k -> links o !! k = Some l -> at_phase l <> Opening b) -> live_ok (drop_transport o).
Proof.
  intros Ha Hnot. destruct (drop_transport_same o) as (_ & _ & _ & _ & Hnone & Hstop). unfold live_ok. rewrite Hnone, Hstop. split; [done|]. split; [|done].
  intros k l b Hk Hp. unfold drop_transport in Hk. destruct (transport o) as [j|]; [|by eapply Ha]. cbn in Hk.
  destruct (decide (j = k)) as [->|Hne]; [|rewrite list_lookup_alter_ne in Hk by done; by eapply Ha].
  rewrite list_lookup_alter_eq in Hk. destruct (links o !! k) as [l0|] eqn:Hl0; [|done]. injection Hk as <-. by destruct (Hnot k l0 b eq_refl Hl0).
Qed.

Lemma live_not_opening o k l b : live_ok o -> transport o = Some k -> links o !! k = Some l -> at_phase l <> Opening b.
Proof. intros (_ & _ & Ht) Hk Hl. destruct (Ht k Hk) as (l0 & Hl0 & _ & Hp). rewrite Hl in Hl0. injection Hl0 as <-. by rewrite Hp. Qed.

Lemma take_event_live l e l' : take_event l = Some (e, l') -> alive l' = alive l /\ at_phase l' = at_phase l.
Proof. unfold take_event. destruct (requeued l) as [[|]|]; [done|by intros [= _ <-]|]. destruct (arrived l); [done|]. by intros [= _ <-]. Qed.

Lemma background_live o o' : background o o' -> live_ok o -> live_ok o'.
Proof.
  intros [k l e Hk Ha|k l l' Hk Hf|k o1 Hr] Ho.
  - apply (set_link_live o k l); [done|done|by intros b _|done].
  - unfold forward in Hf. destruct (at_phase l), (requeued l), (arrived l); try done. injection Hf as <-. by apply (set_link_live o k l).
  - unfold read_event in Hr. destruct (links o !! k) as [l|] eqn:Hk; [|done]. destruct (at_phase l) eqn:Hp; [done..| |done].
    assert (Hlt : (k < length (links o))%nat) by by eapply lookup_lt_Some.
    destruct (take_event l) as [[e l']|] eqn:Htake.
    + apply take_event_live in Htake as [Hal Hph]. rewrite Hp in Hph.
      assert (Hset : live_ok (set_link o k l')) by (apply (set_link_live o k l); [done|done|by rewrite Hph|by rewrite Hal, Hph]).
      assert (Hhand : forall x, live_ok (match x with Some event => hand (set_link o k l') k event | None => set_link o k l' end)).
      { intros [event|]; [|done]. unfold hand. by destruct (event_tx _). }
      specialize (Hhand (shown e)). destruct e as [|json|data|r|r]; try (injection Hr as <-; exact Hhand).
      injection Hr as <-. apply drop_transport_live; [by apply set_link_openings; [apply Ho|..]|]. cbn. intros j lj b Hj Hlj Hop.
      destruct (decide (j = k)) as [->|Hne]; [by rewrite list_lookup_insert_eq in Hlj by done; injection Hlj as <-|].
      rewrite list_lookup_insert_ne in Hlj by done. exact (live_not_opening o j lj b Ho Hj Hlj Hop).
    + destruct (senders_gone l) eqn:Hg; [|done]. injection Hr as <-. apply (set_link_live o k l); [done|done|done|]. unfold senders_gone in Hg. intros Hal.
      rewrite Hal in Hg. done.
Qed.

Lemma start_goes_live o k o' : start_goes o k = Some o' -> live_ok o -> live_ok o'.
Proof.
  unfold start_goes. intros Hs Ho. destruct (links o !! k) as [l|] eqn:Hk; [|done]. cbn in Hs. destruct (wait_for_open l) as [l'|] eqn:Hw; [|done]. injection Hs as <-.
  assert (Hlt : (k < length (links o))%nat) by by eapply lookup_lt_Some. destruct Ho as (Hr & Ha & Ht). pose proof (conj Hr (conj Ha Ht)) as Ho.
  unfold wait_for_open in Hw. destruct (at_phase l) as [b| | |] eqn:Hp; [|done..]. pose proof (Ha k l b Hk Hp) as Hal. destruct (arrived l) as [|e rest]; [done|]. injection Hw as Hl'.
  assert (Hset : live_ok (set_link o k l')).
  { apply (set_link_live o k l); [done|done| |by rewrite Hp]. subst l'. by destruct e. }
  destruct (at_phase l') eqn:Hp'; [exact Hset|exact Hset| |exact Hset].
  assert (Hal' : alive l' = true) by (subst l'; by destruct e).
  assert (Hdrop : live_ok (drop_transport (set_link o k l'))) by (apply drop_transport_live; [apply Hset|intros j lj c; by apply live_not_opening]).
  split; [done|]. split; [apply Hdrop|]. cbn. intros j [= <-]. exists l'. split; [|done]. unfold drop_transport. cbn.
  destruct (transport o) as [j|] eqn:Htr; cbn; [|by apply list_lookup_insert_eq]. destruct (Ht j eq_refl) as (lj & Hj & _ & Hpj).
  rewrite list_lookup_alter_ne; [by apply list_lookup_insert_eq|]. intros ->. rewrite Hk in Hj. injection Hj as ->. by rewrite Hp in Hpj.
Qed.

Lemma step_live o o' : step o o' -> live_ok o -> live_ok o'.
Proof.
  assert (Hcall : forall o', same_links o o' -> live_ok o -> live_ok o').
  { intros o1 [Hl Ht Hr _ _ _ _] Ho. unfold live_ok, openings_ok. by rewrite Hl, Ht, Hr. }
  intros [o1 Hb| |k o1 Hs|o1 e Hn|o1 Hc|] Ho.
  - by eapply background_live.
  - destruct Ho as (Hr & Ha & Ht). split; [done|]. cbn. split.
    + intros k l b [Hk|[_ Hl]]%lookup_app_Some; [by eapply Ha|]. by apply list_lookup_singleton_Some in Hl as [_ <-].
    + intros k (l & Hl & Hal)%Ht. exists l. by rewrite (lookup_app_l_Some _ _ _ _ Hl).
  - by eapply start_goes_live.
  - unfold next_event in Hn. destruct (event_rx o) as [|e0 q]; [destruct (event_tx o); [done|]|]; by injection Hn as <- _.
  - apply Hcall; [by apply call_same|done].
  - assert (Hdrop : live_ok (drop_transport o)) by (apply drop_transport_live; [apply Ho|intros j lj c; by apply live_not_opening]). split; [done|]. by split; [apply Hdrop|].
Qed.

(** An overlay says that it runs exactly when it has a transport; then the socket
    of that is in use and its loop reads. *)
Theorem running_overlay_reads o : rtc step new_overlay o ->
  running o = is_some (transport o) /\ forall k, transport o = Some k -> exists l, links o !! k = Some l /\ alive l = true /\ at_phase l = Reading.
Proof.
  intros Hr. assert (Hl : live_ok o); [|by split; apply Hl].
  revert o Hr. refine (rtc_ind_r _ _ _ _); [|intros y z _ Hs Hl; by eapply step_live]. split; [done|]. split; [|done]. intros k l b Hk. done.
Qed.

(** A step hands on nothing without the sender, and brings no sender back. *)
Lemma step_silent o o' : step o o' -> event_tx o = false -> event_tx o' = false /\ handed o' = handed o.
Proof.
  assert (Hdrop : forall o, event_tx (drop_transport o) = event_tx o /\ handed (drop_transport o) = handed o) by (intros o1; by destruct (drop_transport_same o1) as (? & _ & _ & ? & _)).
  assert (Hcall : forall o', same_links o o' -> event_tx o = false -> event_tx o' = false /\ handed o' = handed o) by (intros o1 []; by split; congruence).
  intros [o1 [k l e Hk Ha|k l l' Hk Hf|k o2 Hr]| |k o1 Hs|o1 e Hn|o1 Hc|] Htx; try done.
  - unfold read_event in Hr. destruct (links o !! k) as [l|]; [|done]. destruct (at_phase l); try done.
    destruct (take_event l) as [[e l']|]; [|destruct (senders_gone l); [|done]; by injection Hr as <-].
    assert (Hhand : forall x, let o' := match x with Some event => hand (set_link o k l') k event | None => set_link o k l' end in event_tx o' = false /\ handed o' = handed o).
    { intros [event|]; [|done]. unfold hand. cbn. by rewrite Htx. }
    specialize (Hhand (shown e)). destruct e as [|json|data|r|r]; try (injection Hr as <-; exact Hhand).
    injection Hr as <-. destruct (Hdrop (set_link o k (read_ends l'))) as [-> ->]. done.
  - unfold start_goes in Hs. destruct (links o !! k ≫= wait_for_open) as [l'|]; [|done]. injection Hs as <-.
    destruct (at_phase l'); try done. cbn. by destruct (Hdrop (set_link o k l')) as [-> ->].
  - unfold next_event in Hn. destruct (event_rx o); [rewrite Htx in Hn|]; by injection Hn as <- _.
  - apply Hcall; [by apply call_same|done].
  - split; [done|]. cbn. by apply Hdrop.
Qed.

Lemma starts_again o : exists o1, rtc step o o1 /\ running o1 = true.
Proof.
  assert (Hk : links (start o) !! length (links o) = Some new_link) by apply list_lookup_middle, eq_refl.
  eexists. split.
  - eapply rtc_l; [apply step_start|]. eapply rtc_l; [apply step_background, (bg_socket _ _ _ Open Hk); reflexivity|].
    eapply rtc_l; [apply (step_start_goes _ (length (links o)))|apply rtc_refl]. unfold start_goes. cbn.
    rewrite list_lookup_insert_eq by (rewrite length_app; cbn; lia). reflexivity.
  - reflexivity.
Qed.

(** Stopping is final: an overlay that was stopped can be started and then says
    that it runs, but it hands on nothing any more, and whoever asks for events is
    given what was left and then the end. *)
Theorem stopped_overlay_is_silent o : (exists o', rtc step (stop o) o' /\ running o' = true) /\
  forall o', rtc step (stop o) o' -> handed o' = handed o /\ (event_rx o' = [] -> next_event o' = Some (o', None)).
Proof.
  split; [apply starts_again|]. intros o' Hr. assert (Hs : event_tx o' = false /\ handed o' = handed o).
  { revert o' Hr. refine (rtc_ind_r _ _ _ _).
    - split; [done|]. cbn. by destruct (drop_transport_same o) as (? & _).
    - intros y z _ Hstep [Htx Hh]. rewrite <- Hh. by apply step_silent. }
  destruct Hs as [Htx Hh]. split; [exact Hh|]. intros Hq. unfold next_event. by rewrite Hq, Htx.
Qed.

Lemma background_tx o o' : background o o' -> event_tx o' = event_tx o.
Proof.
  intros [k l e Hk Ha|k l l' Hk Hf|k o1 Hr]; try done. unfold read_event in Hr. destruct (links o !! k) as [l|]; [|done]. destruct (at_phase l); try done.
  destruct (take_event l) as [[e l']|]; [|destruct (senders_gone l); [|done]; by injection Hr as <-].
  assert (Hhand : event_tx (match shown e with Some event => hand (set_link o k l') k event | None => set_link o k l' end) = event_tx o).
  { destruct (shown e); [|done]. unfold hand. cbn. by destruct (event_tx o) eqn:?. }
  destruct e as [|json|data|r|r]; injection Hr as <-; try exact Hhand. by destruct (drop_transport_same (set_link o k (read_ends l'))) as (_ & _ & _ & -> & _).
Qed.

Lemma start_goes_tx o k o' : start_goes o k = Some o' -> event_tx o' = event_tx o.
Proof.
  unfold start_goes. destruct (links o !! k ≫= wait_for_open) as [l|]; [|done]. intros [= <-]. destruct (at_phase l); try done.
  cbn. by destruct (drop_transport_same (set_link o k l)) as (_ & _ & _ & -> & _).
Qed.

Lemma next_event_tx o o' e : next_event o = Some (o', e) -> event_tx o' = event_tx o /\ (e = None -> event_tx o = false).
Proof. unfold next_event. destruct (event_rx o); [destruct (event_tx o) eqn:?; [done|]|]; by intros [= <- <-]. Qed.
End Browser.

(** ** Examples *)

(** A stand-in for the text of two of the messages. *)
Definition demo_to_json (m : RelayMessage) : option rstring :=
  match m with Subscribe id => Some (0 :: id) | ListStreams => Some [1] | _ => None end.
Definition demo_from_json (s : rstring) : option RelayMessage :=
  match s with 0 :: id => Some (Subscribe id) | [1] => Some ListStreams | _ => None end.
Lemma demo_roundtrip x s : demo_to_json x = Some s -> demo_from_json s = Some x.
Proof. destruct x; try done; by intros [= <-]. Qed.
Definition demo_messages : Json RelayMessage := {| to_json := demo_to_json; from_json := demo_from_json; json_roundtrip := demo_roundtrip |}.

Section Examples.
#[local] Existing Instance demo_messages.

Notation Browser := (WasmOverlay (PeerId := positive)).

Definition arrives (o : Browser) (e : WsEvent) : Browser := match links o !! 0%nat with Some l => set_link o 0 (arrive l e) | None => o end.
Definition going (f : Browser -> option Browser) (o : Browser) : Browser := default o (f o).

(** A frame comes before the socket opens and one after; the loop has read the
    first. *)
Definition demo_came : Browser := arrives (arrives (arrives (start new_overlay) (Binary [7])) Open) (Binary [8]).
Definition demo_open : Browser := going (fun o => start_goes o 0) (going (fun o => start_goes o 0) demo_came).
Definition demo_reads : Browser := going (fun o => read_event 5%positive o 0) demo_open.

Lemma demo_opens : rtc (step 5%positive) new_overlay demo_open.
Proof.
  eapply rtc_l; [apply step_start|].
  eapply rtc_l; [apply step_background; eapply (bg_socket _ _ 0 _ (Binary [7])); reflexivity|].
  eapply rtc_l; [apply step_background; eapply (bg_socket _ _ 0 _ Open); reflexivity|].
  eapply rtc_l; [apply step_background; eapply (bg_socket _ _ 0 _ (Binary [8])); reflexivity|].
  do 2 (eapply rtc_l; [eapply (step_start_goes _ _ 0); reflexivity|]). apply rtc_refl.
Qed.

Lemma browser_hands_on_everything_witness :
  handed demo_reads = [(0%nat, StreamData (str "relay") 5%positive [7])] /\
  map snd (handed demo_reads) = received demo_reads ++ event_rx demo_reads /\
  exists l, links demo_reads !! 0%nat = Some l /\
    of_link 0 (handed demo_reads) ++ omap (shown 5%positive) (unread l) = omap (shown 5%positive) (came l).
Proof.
  assert (Hr : rtc (step 5%positive) new_overlay demo_reads).
  { eapply rtc_r; [exact demo_opens|]. apply step_background. apply (bg_read _ _ 0). reflexivity. }
  destruct (links demo_reads !! 0%nat) as [l|] eqn:Hl; [|vm_compute in Hl; discriminate Hl].
  destruct (browser_hands_on_everything 5%positive demo_reads 0 l Hr eq_refl Hl) as [Hm Hf].
  - vm_compute in Hl. injection Hl as <-. discriminate.
  - split; [reflexivity|]. split; [exact Hm|]. exists l. split; [reflexivity|exact Hf].
Defined.

Lemma running_overlay_reads_witness : running demo_open = true /\ exists l, links demo_open !! 0%nat = Some l /\ alive l = true /\ at_phase l = Reading.
Proof. destruct (running_overlay_reads 5%positive demo_open demo_opens) as [Hrun Hlive]. split; [exact Hrun|]. apply Hlive. reflexivity. Defined.

Lemma stopped_overlay_is_silent_witness : exists o, rtc (step 5%positive) (stop demo_reads) o /\ running o = true /\ handed o = handed demo_reads.
Proof.
  destruct (stopped_overlay_is_silent 5%positive demo_reads) as [(o & Hr & Hrun) Hs]. exists o. split; [exact Hr|]. split; [exact Hrun|]. apply Hs. exact Hr.
Defined.
End Examples.
