(* ===== verification/BrowserPage.v ===== *)
(** * The page of a browser

    Models [ui/src/lib.rs], the functions that a page calls, on top of the overlay
    of [BrowserOverlay]. What is kept in a [RefCell] is borrowed while a task waits
    with the borrow; to borrow it otherwise meanwhile panics. A callback of the
    page is a value, and a call of it is noted. *)

From S2P Require Import Prelude Rust Format Hash Segment Moderation Overlay BrowserOverlay.

#[local] Open Scope Z_scope.

Section Page.
Context {PeerId Callback : Type} `{!Json RelayMessage} (local : PeerId).

Notation WasmOverlay := (WasmOverlay (PeerId := PeerId)).

(** The task that [connect] spawns: not run yet; waiting in [next_event], with the
    channel of events borrowed mutably and the client borrowed; or ended. *)
Inductive dispatching : Type := Connecting | ConnectFailed | Spawned | Awaiting | DispatchEnded.

(** [asking] is a call of [list_streams] that waits in [next_event], with its
    attempts; [stopping] is the task that [disconnect] spawns. *)
Record Client : Type := {
  overlay : WasmOverlay;
  segment_callback : option Callback;
  dispatch : dispatching;
  asking : option Z;
  stopping : bool;
}.

(** [current] is [CLIENT]. [page] is a note: the calls of callbacks, with the
    client each came from. *)
Record Ui : Type := { clients : list Client; current : option nat; page : list (nat * (Callback * bytes)) }.

Definition no_ui : Ui := {| clients := []; current := None; page := [] |}.

Definition set_client (u : Ui) (i : nat) (c : Client) : Ui := {| clients := <[i := c]> (clients u); current := current u; page := page u |}.
Definition with_overlay (c : Client) (o : WasmOverlay) : Client :=
  {| overlay := o; segment_callback := segment_callback c; dispatch := dispatch c; asking := asking c; stopping := stopping c |}.
Definition with_dispatch (c : Client) (d : dispatching) : Client :=
  {| overlay := overlay c; segment_callback := segment_callback c; dispatch := d; asking := asking c; stopping := stopping c |}.
Definition with_asking (c : Client) (a : option Z) : Client :=
  {| overlay := overlay c; segment_callback := segment_callback c; dispatch := dispatch c; asking := a; stopping := stopping c |}.

(** [connect]: up to its wait, and on from there. *)
Definition connect (u : Ui) : Ui :=
  {| clients := clients u ++ [{| overlay := start new_overlay; segment_callback := None; dispatch := Connecting; asking := None; stopping := false |}];
     current := current u; page := page u |}.

Definition connect_goes (u : Ui) (i : nat) : option Ui :=
  match clients u !! i with
  | Some c =>
      match dispatch c, start_goes (overlay c) 0 with
      | Connecting, Some o =>
          match at_phase <$> links o !! 0%nat with
          | Some Reading =>
              let u := set_client u i (with_dispatch (with_overlay c o) Spawned) in
              Some {| clients := clients u; current := Some i; page := page u |}
          | Some OpenFailed => Some (set_client u i (with_dispatch (with_overlay c o) ConnectFailed))
          | _ => Some (set_client u i (with_overlay c o))
          end
      | _, _ => None
      end
  | None => None
  end.

(** The spawned task: its first run, which borrows the channel, and an event. *)
Definition dispatch_goes (u : Ui) (i : nat) : option (exec Ui) :=
  match clients u !! i with
  | Some c =>
      match dispatch c with
      | Spawned => Some (if asking c then Panic else Done (set_client u i (with_dispatch c Awaiting)))
      | Awaiting =>
          match next_event (overlay c) with
          | Some (o, Some (StreamData _ _ data)) =>
              let u := set_client u i (with_overlay c o) in
              Some (Done match segment_callback c with
                         | Some cb => {| clients := clients u; current := current u; page := page u ++ [(i, (cb, data))] |}
                         | None => u
                         end)
          | Some (o, Some _) => Some (Done (set_client u i (with_overlay c o)))
          | Some (o, None) => Some (Done (set_client u i (with_dispatch (with_overlay c o) DispatchEnded)))
          | None => None
          end
      | _ => None
      end
  | None => None
  end.

Definition current_client (u : Ui) : option (nat * Client) :=
  match current u with Some i => (fun c => (i, c)) <$> clients u !! i | None => None end.

(** [on_segment] borrows the client mutably, which the waiting task has
    borrowed. *)
Definition on_segment (u : Ui) (callback : Callback) : exec Ui :=
  match current_client u with
  | Some (i, c) =>
      match dispatch c with
      | Awaiting => Panic
      | _ => Done (set_client u i {| overlay := overlay c; segment_callback := Some callback; dispatch := dispatch c; asking := asking c; stopping := stopping c |})
      end
  | None => Done u
  end.

(** [list_streams] up to its wait; it borrows the channel of events. *)
Definition list_streams (u : Ui) (accepted : bool) : exec (Ui * result unit OverlayError) :=
  match current_client u with
  | Some (i, c) =>
      match request_stream_list (overlay c) accepted with
      | (o, RErr e) => Done (set_client u i (with_overlay c o), RErr e)
      | (o, ROk tt) =>
          match dispatch c, asking c with
          | Awaiting, _ | _, Some _ => Panic
          | _, None => Done (set_client u i (with_asking (with_overlay c o) (Some 0)), ROk tt)
          end
      end
  | None => Done (u, RErr NotRunning)
  end.

(** [list_streams]: an event. It gives up after a hundred others. *)
Definition list_goes (u : Ui) (i : nat) : option Ui :=
  match clients u !! i with
  | Some c =>
      match asking c, next_event (overlay c) with
      | Some attempts, Some (o, e) =>
          Some (set_client u i (with_asking (with_overlay c o)
            match e with
            | Some (StreamData _ _ _) => if 100 <? attempts + 1 then None else Some (attempts + 1)
            | _ => None
            end))
      | _, _ => None
      end
  | None => None
  end.

Definition ui_subscribe_stream (u : Ui) (stream_id : rstring) (accepted : bool) : Ui * result unit OverlayError :=
  match current_client u with
  | Some (i, c) => let '(o, r) := subscribe_stream (overlay c) stream_id accepted in (set_client u i (with_overlay c o), r)
  | None => (u, RErr NotRunning)
  end.

(** [disconnect], and the task it spawns. *)
Definition disconnect (u : Ui) : Ui :=
  match current_client u with
  | Some (i, c) =>
      {| clients := <[i := {| overlay := overlay c; segment_callback := segment_callback c; dispatch := dispatch c; asking := asking c; stopping := true |}]> (clients u);
         current := None; page := page u |}
  | None => {| clients := clients u; current := None; page := page u |}
  end.

Definition stop_goes (u : Ui) (i : nat) : option Ui :=
  match clients u !! i with
  | Some c => if stopping c then Some (set_client u i (with_overlay {| overlay := overlay c; segment_callback := segment_callback c; dispatch := dispatch c; asking := asking c; stopping := false |} (stop (overlay c)))) else None
  | None => None
  end.

Inductive ui_step (u : Ui) : Ui -> Prop :=
| ui_connect : ui_step u (connect u)
| ui_connect_goes i u' : connect_goes u i = Some u' -> ui_step u u'
| ui_background i c o : clients u !! i = Some c -> background local (overlay c) o -> ui_step u (set_client u i (with_overlay c o))
| ui_dispatch i u' : dispatch_goes u i = Some (Done u') -> ui_step u u'
| ui_on_segment cb u' : on_segment u cb = Done u' -> ui_step u u'
| ui_list ok u' r : list_streams u ok = Done (u', r) -> ui_step u u'
| ui_list_goes i u' : list_goes u i = Some u' -> ui_step u u'
| ui_subscribe id ok : ui_step u (fst (ui_subscribe_stream u id ok))
| ui_disconnect : ui_step u (disconnect u)
| ui_stop i u' : stop_goes u i = Some u' -> ui_step u u'.

(** ** The page is deaf *)

Definition heard (d : dispatching) : bool := match d with Awaiting | DispatchEnded => true | _ => false end.

(** The client that the page has is served; none that connects was stopped. *)
Definition client_ok (is_current : bool) (c : Client) : Prop :=
  (is_current = true -> dispatch c = Spawned \/ dispatch c = Awaiting) /\
  (is_current = true \/ dispatch c = Connecting -> stopping c = false /\ event_tx (overlay c) = true).

Definition ui_ok (u : Ui) : Prop := forall i c, clients u !! i = Some c -> client_ok (bool_decide (current u = Some i)) c.

(** The client watched, if one is, waits, has no callback, and called none. *)
Definition deaf (w : option nat) (u : Ui) : Prop :=
  ui_ok u /\ forall i, w = Some i ->
  Forall (fun x => fst x <> i) (page u) /\ exists c, clients u !! i = Some c /\ segment_callback c = None /\ heard (dispatch c) = true.

Lemma page_client_ok u i c : ui_ok u -> (i < length (clients u))%nat -> client_ok (bool_decide (current u = Some i)) c -> ui_ok (set_client u i c).
Proof.
  intros Hu Hi Hc j cj Hj. cbn in *. destruct (decide (j = i)) as [->|Hne].
  - rewrite list_lookup_insert_eq in Hj by done. by injection Hj as <-.
  - rewrite list_lookup_insert_ne in Hj by done. by apply Hu.
Qed.

(** A client whose place in the page and whose end of the channel stay. *)
Lemma client_kept b c c' : client_ok b c -> dispatch c' = dispatch c -> stopping c' = stopping c -> event_tx (overlay c') = event_tx (overlay c) -> client_ok b c'.
Proof. unfold client_ok. by intros Hc -> -> ->. Qed.

Lemma set_client_deaf w u j c c' : deaf w u -> clients u !! j = Some c -> client_ok (bool_decide (current u = Some j)) c' ->
  (segment_callback c = None -> heard (dispatch c) = true -> segment_callback c' = None /\ heard (dispatch c') = true) -> deaf w (set_client u j c').
Proof.
  intros (Hu & Hw) Hj Hc Hkeep. split; [by apply page_client_ok; [|eapply lookup_lt_Some|]|]. intros i Hi. destruct (Hw i Hi) as (Hp & c0 & Hci & Hcb & Hh).
  split; [done|]. cbn. destruct (decide (i = j)) as [->|Hne].
  - exists c'. rewrite list_lookup_insert_eq by (by eapply lookup_lt_Some). split; [done|]. rewrite Hci in Hj. injection Hj as <-. by apply Hkeep.
  - exists c0. by rewrite list_lookup_insert_ne by done.
Qed.

Lemma kept_deaf w u j c c' : deaf w u -> clients u !! j = Some c -> dispatch c' = dispatch c -> stopping c' = stopping c ->
  event_tx (overlay c') = event_tx (overlay c) -> segment_callback c' = segment_callback c -> deaf w (set_client u j c').
Proof.
  intros Hd Hj Hdi Hs Ht Hcb. pose proof Hd as (Hu & _). apply (set_client_deaf w u j c c' Hd Hj); [|by rewrite Hcb, Hdi].
  by apply (client_kept _ c); [apply Hu|..].
Qed.

Lemma current_at u i c : current_client u = Some (i, c) -> current u = Some i /\ clients u !! i = Some c.
Proof. unfold current_client. destruct (current u) as [j|]; [|done]. destruct (clients u !! j) eqn:Hj; [|done]. by intros [= -> ->]. Qed.

Lemma dispatch_goes_deaf w u j u' : deaf w u -> dispatch_goes u j = Some (Done u') -> deaf w u'.
Proof.
  intros Hd. unfold dispatch_goes. destruct (clients u !! j) as [c|] eqn:Hj; [|done]. pose proof Hd as (Hu & Hw). pose proof (Hu j c Hj) as [Hc1 Hc2].
  destruct (dispatch c) eqn:Hdi; try done.
  - destruct (asking c); [done|]. intros [= <-]. apply (set_client_deaf w u j c); [done|done| |by rewrite Hdi].
    split; [by right|]. cbn. intros [Hcur|]; [|done]. apply Hc2. by left.
  - destruct (next_event (overlay c)) as [[o e]|] eqn:Hn; [|done]. apply next_event_tx in Hn as [Htx Hend].
    destruct e as [[sid source data|streams]|].
    + intros [= <-]. assert (Hset : deaf w (set_client u j (with_overlay c o))) by by apply (kept_deaf w u j c).
      destruct (segment_callback c) as [cb|] eqn:Hcbc; [|exact Hset]. destruct Hset as (Hset & Hex). split; [exact Hset|].
      intros i Hi. split; [|by apply Hex]. destruct (Hw i Hi) as (Hp & c0 & Hci & Hcb & _).
      cbn. rewrite Forall_app. split; [done|]. constructor; [|constructor]. cbn. intros ->. rewrite Hj in Hci. injection Hci as <-. by rewrite Hcb in Hcbc.
    + intros [= <-]. by apply (kept_deaf w u j c).
    + intros [= <-]. apply (set_client_deaf w u j c); [done|done| |done]. specialize (Hend eq_refl). split.
      * intros Hcur. destruct (Hc2 (or_introl Hcur)) as [_ Ht]. congruence.
      * cbn. intros [Hcur|]; [|done]. destruct (Hc2 (or_introl Hcur)) as [_ Ht]. congruence.
Qed.

Lemma connect_goes_deaf w u j u' : deaf w u -> connect_goes u j = Some u' -> deaf w u'.
Proof.
  intros Hd. unfold connect_goes. destruct (clients u !! j) as [c|] eqn:Hj; [|done]. destruct (dispatch c) eqn:Hdi; try done.
  destruct (start_goes (overlay c) 0) as [o|] eqn:Hs; [|done]. apply start_goes_tx in Hs.
  pose proof Hd as (Hu & Hw). pose proof (Hu j c Hj) as [_ Hc2]. destruct (Hc2 (or_intror Hdi)) as [Hstop Htx].
  destruct (at_phase <$> links o !! 0%nat) as [[b| | |]|]; intros [= <-]; try by apply (kept_deaf w u j c).
  - apply (set_client_deaf w u j c); [done|done| |by rewrite Hdi]. split.
    + intros Hcur. destruct (Hu j c Hj) as [Hc1 _]. rewrite Hdi in Hc1. by destruct (Hc1 Hcur).
    + cbn. intros [Hcur|]; [|done]. by rewrite Hs.
  - split; [|intros i Hi; destruct (Hw i Hi) as (Hp & c0 & Hci & Hcb & Hh); split; [done|]; exists c0; cbn; rewrite list_lookup_insert_ne; [done|];
      intros ->; rewrite Hj in Hci; injection Hci as <-; by rewrite Hdi in Hh]. intros k ck Hk. cbn in Hk. destruct (decide (k = j)) as [->|Hkj].
    + rewrite list_lookup_insert_eq in Hk by (by eapply lookup_lt_Some). injection Hk as <-. cbn. rewrite bool_decide_eq_true_2 by done.
      split; [by left|]. cbn. by rewrite Hs.
    + rewrite list_lookup_insert_ne in Hk by done. cbn. rewrite bool_decide_eq_false_2 by congruence. split; [done|]. intros [|Hcon]; [done|]. apply (Hu k ck Hk). by right.
Qed.

Definition in_range (u : Ui) : Prop := forall i, current u = Some i -> (i < length (clients u))%nat.

Lemma set_client_range u i c : in_range u -> in_range (set_client u i c).
Proof. unfold in_range. cbn. by rewrite length_insert. Qed.

Lemma ui_step_range u u' : ui_step u u' -> in_range u -> in_range u'.
Proof.
  intros [|i u1 Hc|i c o Hi Hb|i u1 Hdi|cb u1 Hon|ok u1 r Hl|i u1 Hl|id ok| |i u1 Hs] Hr.
  - intros i Hi. cbn. rewrite length_app. apply Hr in Hi. lia.
  - unfold connect_goes in Hc. destruct (clients u !! i) as [c|] eqn:Hi; [|done]. destruct (dispatch c), (start_goes (overlay c) 0) as [o|]; try done.
    destruct (at_phase <$> links o !! 0%nat) as [[]|]; injection Hc as <-; try by apply set_client_range.
    intros j [= <-]. cbn. rewrite length_insert. by eapply lookup_lt_Some.
  - by apply set_client_range.
  - unfold dispatch_goes in Hdi. destruct (clients u !! i) as [c|]; [|done]. destruct (dispatch c); try done.
    + destruct (asking c); [done|]. injection Hdi as <-. by apply set_client_range.
    + destruct (next_event (overlay c)) as [[o [[]|]]|]; [|injection Hdi as <-; by apply set_client_range..|done].
      pose proof (set_client_range u i (with_overlay c o) Hr) as Hset. by destruct (segment_callback c); injection Hdi as <-.
  - unfold on_segment in Hon. destruct (current_client u) as [[i c]|]; [|by injection Hon as <-]. by destruct (dispatch c); try done; injection Hon as <-; apply set_client_range.
  - unfold list_streams in Hl. destruct (current_client u) as [[i c]|]; [|by injection Hl as <- _]. destruct (request_stream_list (overlay c) ok) as [o [[]|e]].
    + by destruct (dispatch c), (asking c); try done; injection Hl as <- _; apply set_client_range.
    + injection Hl as <- _. by apply set_client_range.
  - unfold list_goes in Hl. destruct (clients u !! i) as [c|]; [|done]. destruct (asking c), (next_event (overlay c)) as [[o e]|]; try done. injection Hl as <-. by apply set_client_range.
  - unfold ui_subscribe_stream. destruct (current_client u) as [[i c]|]; [|done]. destruct (subscribe_stream (overlay c) id ok). by apply set_client_range.
  - unfold disconnect. by destruct (current_client u) as [[i c]|].
  - unfold stop_goes in Hs. destruct (clients u !! i) as [c|]; [|done]. destruct (stopping c); [|done]. injection Hs as <-. by apply set_client_range.
Qed.

Lemma list_streams_deaf w u ok u' r : deaf w u -> list_streams u ok = Done (u', r) -> deaf w u'.
Proof.
  intros Hd. unfold list_streams. destruct (current_client u) as [[i c]|] eqn:Hcc; [|by intros [= <- _]]. apply current_at in Hcc as [Hcur Hi].
  assert (Hsame : same_links (overlay c) (fst (request_stream_list (overlay c) ok))) by apply call_same, call_list.
  destruct (request_stream_list (overlay c) ok) as [o [[]|e]]; destruct Hsame as [_ _ _ Htx _ _ _]; cbn in Htx.
  - destruct (dispatch c) eqn:Hdi, (asking c); try done; intros [= <- _]; by apply (kept_deaf w u i c).
  - intros [= <- _]. by apply (kept_deaf w u i c).
Qed.

Lemma subscribe_deaf w u id ok : deaf w u -> deaf w (fst (ui_subscribe_stream u id ok)).
Proof.
  intros Hd. unfold ui_subscribe_stream. destruct (current_client u) as [[i c]|] eqn:Hcc; [|done]. apply current_at in Hcc as [Hcur Hi].
  assert (Hsame : same_links (overlay c) (fst (subscribe_stream (overlay c) id ok))) by apply call_same, call_subscribe.
  destruct (subscribe_stream (overlay c) id ok) as [o r]. destruct Hsame as [_ _ _ Htx _ _ _]. by apply (kept_deaf w u i c).
Qed.

Lemma disconnect_deaf w u : deaf w u -> deaf w (disconnect u).
Proof.
  intros (Hu & Hw). unfold disconnect. destruct (current_client u) as [[i c]|] eqn:Hcc.
  - apply current_at in Hcc as [Hcur Hi]. split.
    + intros j cj Hj. cbn in Hj. destruct (decide (j = i)) as [->|Hne].
      * rewrite list_lookup_insert_eq in Hj by (by eapply lookup_lt_Some). injection Hj as <-. split; [done|]. cbn. intros [|Hdi]; [done|].
        destruct (Hu i c Hi) as [Hc _]. rewrite bool_decide_eq_true_2 in Hc by done. rewrite Hdi in Hc. by destruct (Hc eq_refl).
      * rewrite list_lookup_insert_ne in Hj by done. split; [done|]. intros [|Hdi]; [done|]. apply (Hu j cj Hj). by right.
    + intros k Hk. destruct (Hw k Hk) as (Hp & c0 & Hc0 & Hcb & Hh). split; [done|]. cbn. destruct (decide (k = i)) as [->|Hne].
      * rewrite Hi in Hc0. injection Hc0 as <-. eexists. by rewrite list_lookup_insert_eq by (by eapply lookup_lt_Some).
      * exists c0. by rewrite list_lookup_insert_ne by done.
  - split; [|done]. intros j cj Hj. split; [done|]. cbn. intros [|Hdi]; [done|]. apply (Hu j cj Hj). by right.
Qed.

Lemma ui_step_deaf w u u' : ui_step u u' -> in_range u -> deaf w u -> deaf w u'.
Proof.
  intros [|i u1 Hc|i c o Hi Hb|i u1 Hdi|cb u1 Hon|ok u1 r Hl|i u1 Hl|id ok| |i u1 Hs] Hrange Hd.
  - pose proof Hd as (Hu & Hw). split.
    + intros i c [Hi|[Hlen Hi]]%lookup_app_Some; [by apply Hu|]. apply list_lookup_singleton_Some in Hi as [_ <-]. split; [|done].
      cbn. intros Hcur%bool_decide_eq_true_1. apply Hrange in Hcur. lia.
    + intros i Hi. destruct (Hw i Hi) as (Hp & c0 & Hc0 & Hh). split; [done|]. exists c0. cbn. by rewrite (lookup_app_l_Some _ _ _ _ Hc0).
  - by eapply connect_goes_deaf.
  - apply (kept_deaf w u i c); try done. by apply (background_tx local).
  - by eapply dispatch_goes_deaf.
  - unfold on_segment in Hon. destruct (current_client u) as [[i c]|] eqn:Hcc; [|by injection Hon as <-]. apply current_at in Hcc as [Hcur Hi].
    pose proof Hd as (Hu & _). pose proof (Hu i c Hi) as Hc. rewrite bool_decide_eq_true_2 in Hc by done. destruct (proj1 Hc eq_refl) as [Hdi|Hdi]; rewrite Hdi in Hon; [|done].
    injection Hon as <-. apply (set_client_deaf w u i c); [done|done| |by rewrite Hdi]. rewrite bool_decide_eq_true_2 by done. rewrite <- Hdi. by apply (client_kept _ c).
  - by eapply list_streams_deaf.
  - unfold list_goes in Hl. destruct (clients u !! i) as [c|] eqn:Hi; [|done]. destruct (asking c); [|done].
    destruct (next_event (overlay c)) as [[o e]|] eqn:Hn; [|done]. apply next_event_tx in Hn as [Htx _]. injection Hl as <-. by apply (kept_deaf w u i c).
  - by apply subscribe_deaf.
  - by apply disconnect_deaf.
  - unfold stop_goes in Hs. destruct (clients u !! i) as [c|] eqn:Hi; [|done]. destruct (stopping c) eqn:Hst; [|done]. injection Hs as <-.
    pose proof Hd as (Hu & _). destruct (Hu i c Hi) as [Hc1 Hc2]. apply (set_client_deaf w u i c); [done|done| |done].
    split; [exact Hc1|]. cbn. intros Hcon. destruct (Hc2 Hcon). congruence.
Qed.

Lemma ui_run_deaf w u u' : rtc ui_step u u' -> in_range u -> deaf w u -> in_range u' /\ deaf w u'.
Proof.
  induction 1 as [u|u u1 u' Hs _ IH]; [done|]. intros Hr Hd. apply IH; [by eapply ui_step_range|by eapply ui_step_deaf].
Qed.

(** C8: A page whose client was connected and has run once without a callback never
    gets a segment: from then on each try to set the callback of that client
    panics, as each try to list the streams does when the socket takes its request,
    and none of the segments that come is given to anybody. *)
Theorem page_is_deaf u u' i c : rtc ui_step no_ui u -> clients u !! i = Some c -> dispatch c = Awaiting -> segment_callback c = None ->
  Forall (fun x => fst x <> i) (page u) -> rtc ui_step u u' ->
  Forall (fun x => fst x <> i) (page u') /\
  (current u' = Some i -> forall callback accepted, on_segment u' callback = Panic /\
     (list_streams u' accepted = Panic \/ exists u2 e, list_streams u' accepted = Done (u2, RErr e))).
Proof.
  intros Hr0 Hi Hdi Hcb Hp Hr. assert (H0 : in_range u /\ deaf None u) by (apply (ui_run_deaf None no_ui u Hr0); [done|]; by split).
  destruct H0 as [Hrange (Hu & _)]. destruct (ui_run_deaf (Some i) u u' Hr Hrange) as [_ (Hu' & Hw)].
  { split; [done|]. intros j [= <-]. split; [done|]. exists c. by rewrite Hdi. }
  destruct (Hw i eq_refl) as (Hp' & c' & Hi' & Hcb' & Hh). split; [exact Hp'|]. intros Hcur callback accepted.
  assert (Hdi' : dispatch c' = Awaiting).
  { destruct (Hu' i c' Hi') as [Hc _]. rewrite bool_decide_eq_true_2 in Hc by done. destruct (Hc eq_refl) as [Hd|Hd]; [by rewrite Hd in Hh|done]. }
  unfold on_segment, list_streams, current_client. rewrite Hcur, Hi'. cbn. rewrite Hdi'. split; [done|].
  destruct (request_stream_list (overlay c') accepted) as [o [[]|e]]; [by left|right; by eexists _, _].
Qed.
End Page.

Section Examples.
#[local] Existing Instance demo_messages.

(** A page that connected; its task has run once. *)
Definition demo_page : Ui (Callback := positive) :=
  {| clients := [{| overlay := going (fun o => start_goes o 0) (arrives (start new_overlay) Open); segment_callback := None; dispatch := Awaiting; asking := None; stopping := false |}];
     current := Some 0%nat; page := [] |}.

Lemma demo_page_run : rtc (ui_step 5%positive) no_ui demo_page.
Proof.
  eapply rtc_l; [apply ui_connect|]. eapply rtc_l; [eapply (ui_background _ _ 0); [reflexivity|eapply (bg_socket _ _ 0 _ Open); reflexivity]|].
  eapply rtc_l; [apply (ui_connect_goes _ _ 0); reflexivity|]. eapply rtc_l; [apply (ui_dispatch _ _ 0); reflexivity|]. apply rtc_refl.
Qed.

Lemma page_is_deaf_witness : on_segment demo_page 9%positive = Panic /\ list_streams demo_page true = Panic.
Proof.
  destruct (page_is_deaf 5%positive demo_page demo_page 0 _ demo_page_run eq_refl eq_refl eq_refl (list.Forall_nil_2 _) (rtc_refl _ _)) as [_ Hdeaf].
  destruct (Hdeaf eq_refl 9%positive true) as [Hon [Hl|(u2 & e & Hl)]]; [split; [exact Hon|exact Hl]|vm_compute in Hl; discriminate Hl].
Defined.
End Examples.
