(* ===== verification/EsdsCheck.v ===== *)
(** * The check of an initialization segment

    [verify_esds_in_init_segment] of [node/src/web_server.rs], which looks at an
    initialization segment that was loaded for what Chrome accepts. It only
    writes to the log; the model gives what it would write. *)

From S2P Require Import Prelude Rust Format Mp4Box Mp4Data Mp4Cursor Mp4Codec.

#[local] Open Scope Z_scope.

Inductive esds_verdict : Type :=
| NoEsds
| NoObjectType
| ObjectTypeOnly (object_type : Z)
| Checked (object_type audio_object_type : Z).

Definition chrome_compatible (v : esds_verdict) : bool :=
  match v with Checked ot aot => (ot =? 64) && (aot =? 2) | _ => false end.

(** [for j in j..j + n] up to the first byte that is the tag. *)
Fixpoint find_tag (n : nat) (data : bytes) (j tag : Z) : exec (option Z) :=
  match n with
  | O => Done None
  | Datatypes.S n => let! b := index data j in if b =? tag then Done (Some j) else find_tag n data (j + 1) tag
  end.
Definition tag_between (data : bytes) (from till tag : Z) : exec (option Z) := find_tag (Z.to_nat (till - from)) data from tag.

(** Behind the tag at [j] and its length. *)
Definition after_length (data : bytes) (j : Z) : Z := j + 1 + skip_length (zdrop (j + 1) data) + 1.

Definition saturating_sub (x y : Z) : Z := Z.max 0 (x - y).

Definition check_config (data : bytes) (k : Z) : exec esds_verdict :=
  let! object_type := index data k in
  let! m := tag_between data (k + 13) (Z.min (k + 30) (saturating_sub (zlen data) 5)) 5 in
  match m with
  | Some m =>
      let n := after_length data m in
      if n <? zlen data then let! asc := index data n in Done (Checked object_type (Z.land (Z.shiftr asc 3) 31))
      else Done (ObjectTypeOnly object_type)
  | None => Done (ObjectTypeOnly object_type)
  end.

Definition check_esds (data : bytes) (i : Z) : exec esds_verdict :=
  let! j := tag_between data (i + 4) (Z.min (i + 60) (saturating_sub (zlen data) 15)) 4 in
  match j with
  | Some j => let k := after_length data j in if k <? zlen data then check_config data k else Done NoObjectType
  | None => Done NoObjectType
  end.

Fixpoint find_esds (n : nat) (data : bytes) (i : Z) : exec esds_verdict :=
  match n with
  | O => Done NoEsds
  | Datatypes.S n => let! w := slice data i (i + 4) in if str_eqb w (str "esds") then check_esds data i else find_esds n data (i + 1)
  end.

Definition verify_esds_in_init_segment (data : bytes) : exec esds_verdict :=
  find_esds (Z.to_nat (saturating_sub (zlen data) 30)) data 0.

(** ** It never fails *)

Lemma find_tag_returns n data j tag : 0 <= j -> j + Z.of_nat n <= zlen data ->
  returns (find_tag n data j tag) (fun r => match r with Some k => j <= k < j + Z.of_nat n | None => True end).
Proof.
  revert j. induction n as [|n IH]; intros j Hj Hlen; [by eexists|]. cbn [find_tag].
  destruct (index_returns data j) as (b & -> & _); [lia|]. cbn [exec_bind]. destruct (b =? tag); [eexists; split; [done|]; cbv beta iota; lia|].
  destruct (IH (j + 1)) as (r & Hr & Hin); [lia..|]. exists r. split; [done|]. destruct r; cbv beta iota in *; [lia|done].
Qed.

Lemma tag_between_returns data from till tag : 0 <= from -> till <= zlen data ->
  returns (tag_between data from till tag) (fun r => match r with Some k => from <= k < till | None => True end).
Proof.
  intros Hf Ht. unfold tag_between. destruct (Z.le_gt_cases till from).
  - replace (Z.to_nat (till - from)) with O by lia. by eexists.
  - destruct (find_tag_returns (Z.to_nat (till - from)) data from tag) as (r & -> & Hr); [lia..|]. exists r. split; [done|]. destruct r; cbv beta iota in *; [lia|done].
Qed.

Lemma after_length_gt data j : 0 <= j -> j + 1 < after_length data j.
Proof. intros Hj. unfold after_length. pose proof (skip_length_range (zdrop (j + 1) data)). lia. Qed.

Lemma check_config_returns data k : 0 <= k < zlen data -> returns (check_config data k) (fun _ => True).
Proof.
  intros Hk. unfold check_config. destruct (index_returns data k) as (ot & -> & _); [done|]. cbn [exec_bind].
  destruct (tag_between_returns data (k + 13) (Z.min (k + 30) (saturating_sub (zlen data) 5)) 5) as (r & -> & Hr);
    [lia|unfold saturating_sub; lia|]. cbn [exec_bind]. destruct r as [m|]; cbv beta iota in Hr; [|by eexists].
  destruct (Z.ltb_spec (after_length data m) (zlen data)); [|by eexists].
  destruct (index_returns data (after_length data m)) as (asc & -> & _); [pose proof (after_length_gt data m); lia|]. by eexists.
Qed.

Lemma check_esds_returns data i : 0 <= i -> returns (check_esds data i) (fun _ => True).
Proof.
  intros Hi. unfold check_esds.
  destruct (tag_between_returns data (i + 4) (Z.min (i + 60) (saturating_sub (zlen data) 15)) 4) as (r & -> & Hr);
    [lia|unfold saturating_sub; zlia|]. cbn [exec_bind]. destruct r as [j|]; cbv beta iota in Hr; [|by eexists].
  destruct (Z.ltb_spec (after_length data j) (zlen data)); [|by eexists]. apply check_config_returns. pose proof (after_length_gt data j). lia.
Qed.

Lemma find_esds_returns n data i : 0 <= i -> i + Z.of_nat n + 30 <= zlen data \/ n = O -> returns (find_esds n data i) (fun _ => True).
Proof.
  revert i. induction n as [|n IH]; intros i Hi Hn; [by eexists|]. cbn [find_esds].
  destruct (slice_returns data i (i + 4)) as (w & -> & _); [lia..|]. cbn [exec_bind].
  destruct (str_eqb w (str "esds")); [by apply check_esds_returns|]. apply IH; lia.
Qed.

(** Whatever the bytes, the check ends with a verdict: loading a file cannot fail
    on it. *)
Theorem verify_esds_returns data : returns (verify_esds_in_init_segment data) (fun _ => True).
Proof. apply find_esds_returns; unfold saturating_sub; lia. Qed.

(** ** It agrees with the parser *)

Lemma find_tag_first n data before tag rest j : data = before ++ tag :: rest ->
  0 <= j <= zlen before -> Forall (fun b => b <> tag) (zdrop j before) -> (Z.to_nat (zlen before - j) < n)%nat ->
  find_tag n data j tag = Done (Some (zlen before)).
Proof.
  intros Hd. revert j. induction n as [|n IH]; intros j Hj Hf Hn; [lia|]. cbn [find_tag].
  destruct (Z.eq_dec j (zlen before)) as [->|Hne].
  - rewrite Hd, index_mid by done. cbn [exec_bind]. by rewrite Z.eqb_refl.
  - destruct (zdrop j before) as [|b after] eqn:Hb.
    { apply (f_equal zlen) in Hb. rewrite zlen_zdrop in Hb by lia. unfold zlen in Hb at 2. cbn in Hb. lia. }
    assert (Hsplit : before = ztake j before ++ b :: after) by (rewrite <- Hb; symmetry; apply ztake_zdrop).
    apply list.Forall_cons in Hf as [Hbt Hf].
    replace (index data j) with (Done b).
    2:{ rewrite Hd, Hsplit, <- app_assoc. cbn [app]. rewrite index_mid; [done|]. rewrite zlen_ztake; lia. }
    cbn [exec_bind]. rewrite (proj2 (Z.eqb_neq _ _) Hbt). apply IH; [lia| |lia].
    assert (Hnext : zdrop (j + 1) before = after) by (rewrite <- zdrop_zdrop by lia; by rewrite Hb). by rewrite Hnext.
Qed.

Lemma tag_between_first data from till before tag rest : data = before ++ tag :: rest -> 0 <= from <= zlen before -> zlen before < till ->
  Forall (fun b => b <> tag) (zdrop from before) -> tag_between data from till tag = Done (Some (zlen before)).
Proof. intros Hd Hf Ht Hb. unfold tag_between. apply (find_tag_first _ data before tag rest); [done|lia|done|lia]. Qed.

Lemma after_length_std data before tag more last rest : data = before ++ tag :: more ++ last :: rest ->
  Forall (fun b => Z.land b 128 <> 0) more -> Z.land last 128 = 0 ->
  after_length data (zlen before) = zlen (before ++ tag :: more ++ [last]).
Proof.
  intros -> Hm Hl. unfold after_length.
  replace (before ++ tag :: more ++ last :: rest) with ((before ++ [tag]) ++ more ++ last :: rest) by (by rewrite <- app_assoc).
  rewrite zdrop_app_eq by zlia. rewrite skip_length_app by done. zlia.
Qed.

(** No earlier place reads [esds]. *)
Definition esds_free (pre rest : bytes) : Prop := forall k, 0 <= k < zlen pre -> ztake 4 (zdrop k (pre ++ rest)) <> str "esds".

Lemma find_esds_at n data pre rest i : data = pre ++ str "esds" ++ rest -> esds_free pre (str "esds" ++ rest) ->
  0 <= i <= zlen pre -> (Z.to_nat (zlen pre - i) < n)%nat -> find_esds n data i = check_esds data (zlen pre).
Proof.
  intros Hd Hfree. revert i. induction n as [|n IH]; intros i Hi Hn; [lia|]. cbn [find_esds].
  destruct (Z.eq_dec i (zlen pre)) as [->|Hne].
  - rewrite Hd. rewrite (slice_app_mid pre (str "esds") rest) by done. cbn [exec_bind]. by rewrite str_eqb_refl.
  - assert (Hs : slice data i (i + 4) = Done (ztake 4 (zdrop i data))).
    { unfold slice. rewrite Hd. rewrite !zlen_app. change (zlen (str "esds")) with 4. pose proof (zlen_nonneg rest).
      rewrite (proj2 (Z.leb_le 0 i)), (proj2 (Z.leb_le i (i + 4))), (proj2 (Z.leb_le (i + 4) _)) by lia. cbn [andb].
      by replace (i + 4 - i) with 4 by lia. }
    rewrite Hs. cbn [exec_bind]. destruct (str_eqb_spec (ztake 4 (zdrop i data)) (str "esds")) as [Heq|_].
    + rewrite Hd in Heq. by apply Hfree in Heq; [|lia].
    + apply IH; lia.
Qed.

(** C35: On an [esds] box as it is written (an ES descriptor, the decoder
    configuration, its specific information) the check reads the object type that
    the parser puts into the codec string, and the audio object type behind it: it
    accepts exactly what Chrome plays. *)
Theorem esds_check_agrees pre flags es more last ot fixed gap more' last' asc rest :
  let content := flags ++ es ++ 4 :: more ++ last :: ot :: fixed ++ gap ++ 5 :: more' ++ last' :: asc :: rest in
  esds_free pre (str "esds" ++ content) ->
  zlen flags = 4 -> Forall not_four (flags ++ es) -> zlen es < 52 ->
  Forall (fun b => Z.land b 128 <> 0) more -> Z.land last 128 = 0 ->
  zlen fixed = 12 -> Forall (fun b => b <> 5) gap -> zlen gap < 17 ->
  Forall (fun b => Z.land b 128 <> 0) more' -> Z.land last' 128 = 0 -> 5 <= zlen rest ->
  verify_esds_in_init_segment (pre ++ str "esds" ++ content) = Done (Checked ot (Z.land (Z.shiftr asc 3) 31)) /\
  parse_esds_for_aac_object_type content = Done ot.
Proof.
  intros content Hfree Hflags Hnf Hes Hm Hl Hfixed Hgap Hgl Hm' Hl' Hrest. set (data := pre ++ str "esds" ++ content).
  pose proof (zlen_nonneg pre). pose proof (zlen_nonneg es). pose proof (zlen_nonneg more). pose proof (zlen_nonneg more').
  pose proof (zlen_nonneg rest). pose proof (zlen_nonneg gap). assert (Htag : zlen (str "esds") = 4) by reflexivity.
  assert (Hlen : zlen data = zlen pre + zlen es + zlen more + zlen gap + zlen more' + zlen rest + 26) by (unfold data, content; zlia).
  split.
  - set (head := pre ++ str "esds" ++ flags ++ es). assert (Hhead : zlen head = zlen pre + zlen es + 8) by (unfold head; zlia).
    assert (Hd1 : data = head ++ 4 :: more ++ last :: ot :: fixed ++ gap ++ 5 :: more' ++ last' :: asc :: rest)
      by (unfold data, content, head; by rewrite <- !app_assoc).
    set (upto := (head ++ 4 :: more ++ [last])). assert (Hd2 : data = upto ++ ot :: fixed ++ gap ++ 5 :: more' ++ last' :: asc :: rest).
    { rewrite Hd1. unfold upto. rewrite <- app_assoc. cbn. by rewrite <- app_assoc. }
    assert (Hupto : zlen upto = zlen head + zlen more + 2) by (unfold upto; zlia).
    set (conf := upto ++ ot :: fixed ++ gap). assert (Hd3 : data = conf ++ 5 :: more' ++ last' :: asc :: rest).
    { rewrite Hd2. unfold conf. rewrite <- app_assoc. cbn. by rewrite <- app_assoc. }
    assert (Hconf : zlen conf = zlen upto + 13 + zlen gap) by (unfold conf; zlia).
    set (spec := conf ++ 5 :: more' ++ [last']). assert (Hd4 : data = spec ++ asc :: rest).
    { rewrite Hd3. unfold spec. rewrite <- app_assoc. cbn. by rewrite <- app_assoc. }
    unfold verify_esds_in_init_segment. rewrite (find_esds_at _ data pre content 0) by (done || (unfold saturating_sub; lia)).
    unfold check_esds. rewrite (tag_between_first data (zlen pre + 4) _ head 4 _ Hd1); [|lia|unfold saturating_sub; lia|].
    2:{ unfold head. rewrite app_assoc, zdrop_app_eq by zlia. exact Hnf. }
    cbn [exec_bind]. cbv zeta. rewrite (after_length_std data head 4 more last _ Hd1 Hm Hl). fold upto.
    rewrite (proj2 (Z.ltb_lt _ _)) by lia. unfold check_config. rewrite Hd2 at 1. rewrite index_mid by done. cbn [exec_bind].
    rewrite (tag_between_first data (zlen upto + 13) _ conf 5 _ Hd3); [|lia|unfold saturating_sub; lia|].
    2:{ unfold conf. replace (upto ++ ot :: fixed ++ gap) with ((upto ++ ot :: fixed) ++ gap) by (by rewrite <- app_assoc).
        rewrite zdrop_app_eq by zlia. done. }
    cbn [exec_bind]. cbv zeta. rewrite (after_length_std data conf 5 more' last' _ Hd3 Hm' Hl'). fold spec.
    assert (Hspec : zlen spec = zlen conf + zlen more' + 2) by (unfold spec; zlia).
    rewrite (proj2 (Z.ltb_lt _ _)) by lia. rewrite Hd4 at 1. by rewrite index_mid.
  - apply list.Forall_app in Hnf as [_ Hes4]. apply parse_esds_std; [done|done|done|done|zlia|zlia].
Qed.

(** ** Witnesses *)

Definition demo_es : bytes := [3; 25; 0; 1; 0].
Definition demo_fixed : bytes := [21; 0; 0; 0; 0; 1; 247; 57; 0; 1; 247; 57].

Lemma esds_check_agrees_witness :
  verify_esds_in_init_segment ([0; 0; 0; 55] ++ str "esds" ++ [0; 0; 0; 0] ++ demo_es ++ 4 :: [] ++ 17 :: 64 :: demo_fixed ++ [] ++ 5 :: [128] ++ 2 :: 18 :: replicate 25 0)
  = Done (Checked 64 2).
Proof.
  refine (proj1 (esds_check_agrees [0; 0; 0; 55] [0; 0; 0; 0] demo_es [] 17 64 demo_fixed [] [128] 2 18 (replicate 25 0) _ _ _ _ _ _ _ _ _ _ _ _));
    try reflexivity; try (unfold not_four, demo_es; repeat constructor; discriminate); try (vm_compute; congruence).
  intros k Hk. change (zlen [0; 0; 0; 55]) with 4 in Hk. assert (Hc : k = 0 \/ k = 1 \/ k = 2 \/ k = 3) by lia.
  destruct Hc as [Hc|[Hc|[Hc|Hc]]]; subst k; vm_compute; discriminate.
Defined.
